(* ===== verification/_CoqProject ===== *)
-Q . S2P
Prelude.v
JsonStrict.v
GoTime.v
Db.v
GoText.v
GoDecode.v
Calendar.v
SchedulerStore.v
Dispatcher.v
QueueTables.v
GoParseTime.v
ExecutorClient.v
WorkerStore.v
Worker.v
ExecPayload.v
GoRune.v
JobPayload.v
JobIntake.v
ArticleOutcome.v
ContentFilter.v
MediaFiles.v
ScheduledJobs.v
Admission.v
ExecStore.v
ExecServer.v
ArticleStore.v
ProviderClients.v
ArticleRun.v
ProcessingRun.v
ProcessingServer.v
Outbound.v
DomainClient.v
RunClient.v
Pipeline.v
Projection.v
RelyGuarantee.v
DomainFence.v
Finalizer.v
Telegram.v
Exchange.v
