(* ===== verification/Prelude.v ===== *)
(** * Evening News: a verification library

    Evening News collects news articles, has a language model rate and summarise
    them, and delivers a daily digest.  This library models and verifies the part
    of the program that decides _whether and when work is done_: the services
    that schedule, queue, run and deliver jobs, with the protocols between them.

    ** The program and its parts

    - go-scheduler owns the table of schedules and an outbox of occurrences.  It
      computes the next due instant of every schedule in the schedule's time
      zone, generates occurrences, leases due ones, posts each to its target and
      settles the lease by the answer.
    - go-web receives occurrences on its internal endpoint, and jobs from its
      management pages, and turns each into a row of [background_jobs]: one row per
      occurrence and per idempotency key, however often it is asked.
    - go-worker is the only consumer of that queue: one worker at a time holds
      an advisory lock and a generation, claims one job at a time, asks the
      executor over HTTP to run it, waits for the receipt and finishes the job.
    - go-execution is the executor: it accepts an attempt at most once, runs the
      job's pipeline under a fence on the same tables, and keeps a durable
      receipt which the worker reads.  Its pipeline (orchestration) does a job by
      calling the ingestion, the processing and the domain service over HTTP.
    - go-processing works on articles for the jobs that ask for it: its server
      starts one run per job; a run claims articles under the job's fence, has
      them extracted, filtered and analysed, and saves the outcomes.
    - go-domain does the work of a job.  Its parts modelled here are the delivery
      of the digest to Telegram, under the fence of the job, and the admission of
      calls to the AI providers.

    ** The files

    - [Prelude] (this file): Go's [(value, error)], boolean reflection, the hint
      database [news].
    - [JsonStrict]: encoding/json's token decoder and the three walkers that reject
      duplicate member names (go-scheduler/internal/jsonstrict/duplicates.go,
      [rejectDuplicateKeys] of go-execution/store.go and the one of go-web's
      httpui/management.go).
    - [GoTime], [GoText], [GoDecode], [GoParseTime]: what the program uses of
      Go's time, encoding/hex, encoding/json, strconv, strings and RFC 3339.
    - [Db]: PostgreSQL sessions: the monad [M], statements, transactions, faults
      and other sessions as an arbitrary script, and the proof rules ([wp],
      [keeps], [twp], [qwp], [rwp]) the components share.
    - [Calendar]: go-scheduler/internal/calendar/calendar.go.
    - [SchedulerStore]: go-scheduler/internal/store/store.go and model/model.go;
      state [tables], one definition per method.
    - [Dispatcher]: go-scheduler/internal/dispatch/dispatcher.go, over
      [SchedulerStore].
    - [QueueTables]: the tables and advisory locks that go-worker and
      go-execution share (go-domain/migration/sql/009.sql, 011.sql), the
      invariant [q_wf] and the evolution [q_evolves] both services keep.
    - [ExecutorClient]: go-worker/internal/executor/client.go.
    - [WorkerStore]: go-worker/internal/store/store.go over [QueueTables].
    - [Worker]: go-worker/internal/worker/worker.go, with newsadapter/policy.go
      and config/config.go; the process is a tree of calls [prog], [interp]
      connects its store calls to [WorkerStore].
    - [ExecPayload]: go-execution/validation.go and delivery_risk.go.
    - [JobPayload]: go-web/internal/jobs/jobs.go, what the web service accepts as a
      job: payloads as a map of Go values, occurrences, identifiers.
    - [JobIntake]: go-web/internal/repositories/jobs.go over the queue's table and
      the columns, aliases and receipts only the intake reads.
    - [ScheduledJobs]: the endpoint of go-web/internal/httpui/management.go that
      receives occurrences, against its client [Dispatcher].
    - [Admission]: go-domain/airuntime/admission.go, breaker.go and the retry series
      of provider.go.
    - [ExecStore]: go-execution/store.go and lifecycle.go over [QueueTables].
    - [ExecServer]: go-execution/http.go and execution.go over [ExecStore].
    - [GoRune]: runes and UTF-8, strconv.ParseFloat and the conversions of
      floats; the class [Unicode] stands for the tables of package unicode.
    - [ArticleOutcome]: go-processing/internal/processing/outcome.go, analyze.go,
      mapping.go and locale_text.go.
    - [ArticleStore]: go-processing/internal/store/store.go and localization.go
      with the SQL functions, triggers and constraints they run into
      (go-domain/migration/sql/013.sql, 017.sql, 018.sql), over [QueueTables] and
      the tables [ptables] of articles, runs, claims and categories.
    - [ContentFilter], [MediaFiles]: the tests on texts and URLs of
      go-processing/internal/processing: smart_filter.go with its cache of recent
      texts, the tests of runner.go on extracted text, media.go.
    - [ProviderClients]: clients.go and errors.go of the same package: the AI
      service and the extractor as the run calls them.
    - [ArticleRun]: [processOne], [extract] and [finish] of runner.go, one attempt
      to process an article, over [ArticleStore] and [ProviderClients].
    - [ProcessingRun]: [Run] of runner.go: batches, limits, retries of
      localizations and the receipt, over [ArticleRun].
    - [ProcessingServer]: server.go, over an interface of runners (class [Runner])
      that [Run] implements.
    - [Outbound]: what the clients of go-execution/orchestration share: the
      history of calls, waits and looks at the clock, the outside world as
      functions of it (class [Outside]), contexts, and the proof rules for what
      code adds to the history ([adds]) and for loops that end ([same]).
    - [DomainClient], [RunClient]: domain.go and services.go of the same package.
    - [Pipeline]: pipeline.go and operational.go, every kind of job over the two
      clients; [run_job] is the pipeline as [ExecStore] and [ExecPayload] see it.
    - [Projection]: the bounded projection of pipeline.go against [safeResult] of
      go-execution/validation.go.
    - [Exchange]: the worker and the executor together.
    - [RelyGuarantee]: proof rules for sessions that rely on one relation of the
      others and guarantee another of themselves.
    - [DomainFence]: go-domain/authority/fence.go, over any tables that contain
      the queue (class [HasQueue]).
    - [Finalizer]: legacy.go of go-execution/orchestration: the completion of an
      attempt with its one alert, and the schedules of the old settings table.
    - [Telegram]: go-domain/telegramdelivery and [publishPrepared] of
      go-domain/airuntime/digest_execute.go; its tables are the queue's, the
      delivery intents and parts, and a record of the POSTs made.

    Definitions keep the names of the Go functions, methods and fields; a record
    field has the field's name behind a prefix of its type.

    ** What the theorems show

    - Calendar: wall times in gaps and folds of a zone resolve as documented, the
      next occurrence is the earliest later one on the schedule, an occurrence
      consumes its local date.
    - Scheduler: whatever fails and however operations interleave, the outbox
      keeps its invariant and accepted occurrences never change
      ([outbox_history_safe]); each operation does what its specification says
      on every branch; only the holder of a lease settles it; the dispatcher
      settles by the answer and its delays are bounded.
    - JSON: the three walkers agree with each other and with the definition of "one
      value without duplicate members", and always terminate.
    - Intake: every payload the web service accepts is one the executor accepts
      unchanged ([accepted_payload_executable]); each request and each occurrence
      does exactly what is specified on every branch ([Submit_exact],
      [AcceptOccurrence_exact]); an occurrence gives at most one job over any
      history of deliveries ([one_job_per_occurrence]).
    - Scheduler and intake together: what the dispatcher sends is what the endpoint
      reads ([occurrence_exchange]), and what the dispatcher concludes from the
      answer is true of the intake's tables ([verdict_sound]).
    - AI admission: over any history the window admits no more calls in any
      interval than its limit and makes a caller wait no longer than needed
      ([window_exact]); the breaker is open exactly while its rule says so
      ([breaker_protects]).
    - Worker: jobs keep their invariant under any history ([queue_history_safe]),
      a stale worker changes nothing, one worker at a time, one job at a time, a
      finish is justified by a receipt or a refusal, a job that may have
      delivered is never queued again, a lost heartbeat is reported.
    - Executor: attempts start at most once, acceptance, cancellation, outcomes
      and article reprocessing do exactly what is specified, writes need the
      fence, one executor per database, any history keeps the queue's rules.
    - Pipeline: an attempt that the executor may repeat has posted nothing that
      delivers to subscribers ([job_verdict_sound]), and no operation is posted
      twice unless it was refused ([operations_posted_once]); a run that succeeds
      has a receipt that says so, and an ended context is reported only for a run
      that is absent or over ([execute_truthful]); jobs end with their context
      ([Execute_terminates]); the executor takes the results as they are, but for
      those of jobs that are switched off ([projection_accepted]); the processing
      service reads every run as it is meant ([run_exchange]).
    - Article processing: an analysis completes an article only with every stage
      done ([AnalyzeOutcome_sound]) and its outcome always either waits with an
      instant or stops ([Persist_exact]); claiming, saving and recovering do
      exactly what is specified under the fence of the run ([ClaimArticle_exact],
      [SaveOutcome_exact], [RecoverClaims_exact]), and a claim is settled at most
      once over any history ([outcomes_saved_once]).  The cache of recent texts
      answers as a full history of the last day would ([duplicates_exact]) and
      an extraction without an error has good content ([Extract_sound]).
    - Processing runs: an attempt that returns an outcome has settled its claim
      with it ([processOne_settles]); the receipt of a run counts articles each
      dealt with once within the limits of the job ([Run_accounts]), and a run
      always ends ([Run_terminates]).  The server answers the creation of a run
      exactly as specified ([create_answers]), and the goroutine of a run ends
      with a stored verdict unless the tables fail it ([background_settles]).
    - Exchange: envelopes and receipts survive the trip between the two services,
      both agree on which jobs may deliver, a refusal leaves nothing behind, and
      both services together keep the queue's rules.
    - Finalization: at most one alert is posted for an attempt, and only once its
      completion is recorded, over any history of finalizations, crashes and lost
      commits ([alerts_once]); [Finalize] answers only with a completion that is
      recorded ([Finalize_truthful]); recovery settles exactly the running
      schedules that have no active job ([Recover_exact]); the next occurrence of
      a schedule lies ahead ([nextOccurrence_later]).
    - Delivery: no digest is delivered twice ([no_repeat_delivery]): once a POST of
      a part may have been accepted, neither that part nor the other form of its
      intent is posted again, over any history with failures, lost commits and
      take-overs; reports and stored results match what Telegram confirmed; the
      sender classifies answers exactly; the domain's fence holds only where the
      executor's own fence does.

    ** Conventions, bounds and fuel

    Instants and durations are nanoseconds in [Z]; the arithmetic of the program
    stays within 64 bits for the years time.Time handles, and bounds the code
    checks (2^31-1 generations, body limits, counts) are written out.  [Db]
    scripts are arbitrary, so a theorem over a script covers every failure, delay
    and interleaving; a script that has ended means no further faults.

    Fuel: the JSON walkers run with more than the number of lexemes, which is
    shown never to be exhausted; the retry series of a provider call has its
    configured number of attempts; the backoff loop needs ten turns (shown); the
    calendar's searches are bounded as in the code; the loop over the batches of a
    run takes at most 2^31 turns (shown); the polling loops of a job take at most
    one turn per shortest wait until its context has ended (shown, when the clock
    does not go back); [ParseDuration] takes a turn per byte; the loops of the worker are
    unbounded in the code, and their theorems hold for every fuel, hence for
    every prefix of an unbounded run.

    Parameters of the model: the IANA database, SHA-256, the uuid package,
    [http.ParseTime] and [mime.ParseMediaType], the HTTP exchanges, PostgreSQL's
    jsonb, collation and uuid order (class [Postgres]), the answers to the POSTs of
    alerts ([network], by the clock of the POST), strconv's shortest
    decimals and Go's conversion of out-of-range floats, the tables of package
    unicode (class [Unicode]) and of golang.org/x/text with MD5 (class
    [TextTables]), what net/url makes of URLs and references (classes [Urls] and
    [References]), [time.Parse] with the layouts of [parseDate], the server's
    [lower], the answers of the AI service, of the extractor and of the operational
    snapshot ([service]: a function of everything that happened before), those of
    the services a job calls with the clock and the winner of each [select]
    (class [Outside], functions of the history), the snapshot of a job's settings
    ([prepareJob]), the session lock of a run, and the handlers of go-domain that go-execution calls.
    The goroutines of a batch run in any order ([order]), any of them may give up
    when the context ends ([drops]), and what they do to shared memory in between
    is arbitrary ([others]).

    ** Not modelled

    - Connection set-up, migrations, logging, environment variables, listing and
      statistics queries that only read.
    - The pages, sessions and page queries of go-web, go-background, go-tools,
      deployment: glue and release tooling.
    - go-ingestion, go (extractor), go-editorial and the digest workflow of
      go-domain: network, third-party parsers, prompts and models.
    - Recovery, terminal events and Viber delivery (go-domain): services that
      [ExecServer], [Finalizer] and the pipeline call.
    - The scheduler's HTTP API (go-scheduler/internal/api): decoding around the
      operations of [SchedulerStore].
    - The client of execution contexts and the singleton guard of
      go-domain/authority: a session lock of the driver.
    - The Go scheduler: goroutines appear as interleavings at the points where a
      component takes its lock or touches the tables.

    ** What could follow

    In this order: the scheduler's HTTP API; Viber delivery after the model of [Telegram]; recovery and terminal
    events; validation of editorial drafts. *)

From stdpp Require Export base tactics list gmap strings sorting fin_maps.
From Stdlib Require Export ZArith Lia.

#[export] Set Default Goal Selector "!".
Open Scope string_scope.
Open Scope list_scope.
Open Scope Z_scope.

(** ** Go's [(value, error)] results *)

Inductive result (E A : Type) : Type :=
| Ok (a : A)
| Err (e : E).
Arguments Ok {E A} a.
Arguments Err {E A} e.

Definition is_ok {E A} (r : result E A) : bool :=
  match r with Ok _ => true | Err _ => false end.

#[export] Instance result_ret {E} : MRet (result E) := fun A a => Ok a.
#[export] Instance result_bind {E} : MBind (result E) :=
  fun A B f r => match r with Ok a => f a | Err e => Err e end.
#[export] Instance result_eq_dec {E A} `{EqDecision E, EqDecision A} : EqDecision (result E A).
Proof. solve_decision. Defined.

(** [if cond { return err }] *)
Definition guard_err {E} (bad : bool) (e : E) : result E unit :=
  if bad then Err e else Ok tt.

Lemma guard_err_ok {E} bad (e : E) u : guard_err bad e = Ok u <-> bad = false.
Proof. destruct bad, u; simpl; split; congruence. Qed.

Lemma result_bind_ok {E A B} (r : result E A) (k : A -> result E B) b :
  (x ← r; k x) = Ok b <-> exists a, r = Ok a /\ k a = Ok b.
Proof.
  destruct r as [a|e]; simpl; split.
  - eauto.
  - intros (a' & [= <-] & H). exact H.
  - discriminate.
  - intros (a' & H & _). discriminate.
Qed.

(** ** Boolean reflection used throughout *)

Create HintDb news discriminated.

Ltac bool_to_prop :=
  repeat match goal with
  | H : _ && _ = true |- _ => apply andb_true_iff in H as [? ?]
  | H : _ && _ = false |- _ => apply andb_false_iff in H
  | H : _ || _ = false |- _ => apply orb_false_iff in H as [? ?]
  | H : _ || _ = true |- _ => apply orb_true_iff in H
  | H : negb _ = true |- _ => apply negb_true_iff in H
  | H : negb _ = false |- _ => apply negb_false_iff in H
  | H : (_ <? _) = true |- _ => apply Z.ltb_lt in H
  | H : (_ <? _) = false |- _ => apply Z.ltb_ge in H
  | H : (_ <=? _) = true |- _ => apply Z.leb_le in H
  | H : (_ <=? _) = false |- _ => apply Z.leb_gt in H
  | H : (_ =? _) = true |- _ => apply Z.eqb_eq in H
  | H : (_ =? _) = false |- _ => apply Z.eqb_neq in H
  | H : (_ =? _)%string = true |- _ => apply String.eqb_eq in H
  | H : (_ =? _)%string = false |- _ => apply String.eqb_neq in H
  | H : bool_decide _ = true |- _ => apply bool_decide_eq_true in H
  | H : bool_decide _ = false |- _ => apply bool_decide_eq_false in H
  end.

(** Splits a chain of [x ← r; k] equal to [Ok _] into the facts of its steps. *)
Ltac ok_inv :=
  repeat match goal with
  | H : mbind _ _ = Ok _ |- _ => apply result_bind_ok in H as (? & ? & ?)
  | H : guard_err _ _ = Ok _ |- _ => apply guard_err_ok in H
  | H : Ok _ = Ok _ |- _ => injection H as H
  | H : Err _ = Ok _ |- _ => discriminate H
  end; bool_to_prop; simplify_eq.

(** Linear arithmetic with division and remainder by constants *)
Ltac dlia := Z.to_euclidean_division_equations; lia.

(** [reflexivity] by evaluation, for concrete witnesses *)
Ltac by_eval := vm_compute; reflexivity.
