(* ===== verification/JsonStrict.v ===== *)
(** * JsonStrict: duplicate-key rejection over [encoding/json]'s token decoder

    go-scheduler/internal/jsonstrict/duplicates.go and [rejectDuplicateKeys]
    of go-execution/store.go and [hasDuplicateJSONKeys] of
    go-web/internal/httpui/management.go walk a document with [json.Decoder.Token]
    and [More] and refuse an object that names a member twice.  The decoder's
    token automaton (its [tokenState] and [tokenStack]) is modelled over
    lexemes; [lex_of] is the document a JSON value is written as.  The file
    shows that the walkers accept exactly the documents that are one JSON
    value without duplicate members at any depth, and hence that they agree. *)

From S2P Require Import Prelude.

(** ** JSON values and documents *)

Unset Elimination Schemes.
Inductive json :=
| JNull
| JBool (b : bool)
| JNum (lit : string)
| JStr (s : string)
| JArr (l : list json)
| JObj (l : list (string * json)).
Set Elimination Schemes.

Fixpoint json_ind (P : json -> Prop) (f_null : P JNull) (f_bool : forall b, P (JBool b))
    (f_num : forall s, P (JNum s)) (f_str : forall s, P (JStr s))
    (f_arr : forall l, Forall P l -> P (JArr l))
    (f_obj : forall l, Forall (fun kv => P kv.2) l -> P (JObj l)) (j : json) : P j :=
  let rec_ := json_ind P f_null f_bool f_num f_str f_arr f_obj in
  match j with
  | JNull => f_null
  | JBool b => f_bool b
  | JNum s => f_num s
  | JStr s => f_str s
  | JArr l => f_arr l ((fix go l : Forall P l :=
      match l with [] => Forall_nil_2 _ | x :: l' => Forall_cons_2 _ _ _ (rec_ x) (go l') end) l)
  | JObj l => f_obj l ((fix go l : Forall (fun kv => P kv.2) l :=
      match l with [] => Forall_nil_2 _ | x :: l' => Forall_cons_2 _ _ _ (rec_ x.2) (go l') end) l)
  end.

#[export] Instance json_eq_dec : EqDecision json.
Proof.
  refine (fix go (x y : json) : Decision (x = y) :=
    match x, y with
    | JNull, JNull => left eq_refl
    | JBool a, JBool b => cast_if (decide (a = b))
    | JNum a, JNum b => cast_if (decide (a = b))
    | JStr a, JStr b => cast_if (decide (a = b))
    | JArr a, JArr b => cast_if (@list_eq_dec _ go a b)
    | JObj a, JObj b => cast_if (@list_eq_dec _ (@prod_eq_dec _ _ _ go) a b)
    | _, _ => right _
    end); clear go; abstract congruence.
Defined.

Inductive lexeme :=
| LBrace | RBrace | LBracket | RBracket | LComma | LColon
| LStr (s : string)
| LNull | LBool (b : bool) | LNum (lit : string).

(** Input of a decoder: the lexemes, then either the end of input or bytes
    that are not a lexeme. *)
Inductive ending := AtEof | AtGarbage.

Fixpoint sep_by {A} (sep : A) (xs : list (list A)) : list A :=
  match xs with
  | [] => []
  | [x] => x
  | x :: xs' => x ++ sep :: sep_by sep xs'
  end.

Fixpoint lex_of (j : json) : list lexeme :=
  match j with
  | JNull => [LNull]
  | JBool b => [LBool b]
  | JNum s => [LNum s]
  | JStr s => [LStr s]
  | JArr l => LBracket :: sep_by LComma (map lex_of l) ++ [RBracket]
  | JObj l => LBrace :: sep_by LComma (map (fun kv => LStr kv.1 :: LColon :: lex_of kv.2) l) ++ [RBrace]
  end.

(** No object names a member twice, at any depth. *)
Fixpoint unique_keys (j : json) : Prop :=
  match j with
  | JArr l => (fix all l := match l with [] => True | x :: l' => unique_keys x /\ all l' end) l
  | JObj l => NoDup (map fst l) /\
      (fix all (l : list (string * json)) :=
         match l with [] => True | x :: l' => unique_keys x.2 /\ all l' end) l
  | _ => True
  end.

Lemma unique_keys_arr l : unique_keys (JArr l) <-> Forall unique_keys l.
Proof. simpl. induction l as [|x l IH]; [by split|]. rewrite Forall_cons. naive_solver. Qed.
Lemma unique_keys_obj l :
  unique_keys (JObj l) <-> NoDup (map fst l) /\ Forall (fun kv => unique_keys kv.2) l.
Proof.
  simpl. apply and_iff_compat_l.
  induction l as [|x l IH]; [by split|]. rewrite Forall_cons. naive_solver.
Qed.

(** ** [json.Decoder]: the token automaton of encoding/json *)

Inductive token_state :=
| TopValue | ArrayStart | ArrayValue | ArrayComma
| ObjectStart | ObjectKey | ObjectColon | ObjectValue | ObjectComma.

#[export] Instance token_state_eq_dec : EqDecision token_state.
Proof. solve_decision. Defined.

Record decoder := Decoder {
  d_state : token_state;
  d_stack : list token_state;
  d_input : list lexeme;
  d_end : ending;
}.

Definition new_decoder (input : list lexeme) (fin : ending) : decoder :=
  Decoder TopValue [] input fin.

Inductive token := TDelim (open : bool) (brace : bool) | TString (s : string) | TOther.

Inductive json_error :=
| SyntaxErr | EofErr | KeyNotString | DuplicateKey | BadObject | BadArray
| BadDelim | MultipleValues | OutOfFuel.

#[export] Instance json_error_eq_dec : EqDecision json_error.
Proof. solve_decision. Defined.

Definition token_value_allowed (s : token_state) : bool :=
  match s with TopValue | ArrayStart | ArrayValue | ObjectValue => true | _ => false end.

Definition token_value_end (s : token_state) : token_state :=
  match s with
  | ArrayStart | ArrayValue => ArrayComma
  | ObjectValue => ObjectComma
  | s => s
  end.

(** [dec.More()]: is the next byte something else than a closing bracket? *)
Definition dec_more (d : decoder) : bool :=
  match d_input d, d_end d with
  | [], AtEof => false
  | RBrace :: _, _ | RBracket :: _, _ => false
  | _, _ => true
  end.

(** One turn of the loop in [dec.Token()]; [None] is Go's [continue]. *)
Definition token_turn (d : decoder) : option (result json_error token * decoder) :=
  let '(Decoder st stack input fin) := d in
  let bad := Some (Err SyntaxErr, d) in
  let popped rest :=
    match stack with
    | top :: stack' => Decoder (token_value_end top) stack' rest fin
    | [] => Decoder st stack rest fin
    end in
  match input with
  | [] => Some (Err (match fin with AtEof => EofErr | AtGarbage => SyntaxErr end), d)
  | LBracket :: rest =>
      if token_value_allowed st
      then Some (Ok (TDelim true false), Decoder ArrayStart (st :: stack) rest fin) else bad
  | LBrace :: rest =>
      if token_value_allowed st
      then Some (Ok (TDelim true true), Decoder ObjectStart (st :: stack) rest fin) else bad
  | RBracket :: rest =>
      match st with ArrayStart | ArrayComma => Some (Ok (TDelim false false), popped rest) | _ => bad end
  | RBrace :: rest =>
      match st with ObjectStart | ObjectComma => Some (Ok (TDelim false true), popped rest) | _ => bad end
  | LColon :: rest => match st with ObjectColon => None | _ => bad end
  | LComma :: rest => match st with ArrayComma | ObjectComma => None | _ => bad end
  | LStr s :: rest =>
      match st with
      | ObjectStart | ObjectKey => Some (Ok (TString s), Decoder ObjectColon stack rest fin)
      | _ => if token_value_allowed st
             then Some (Ok (TString s), Decoder (token_value_end st) stack rest fin) else bad
      end
  | _ :: rest =>
      if token_value_allowed st
      then Some (Ok TOther, Decoder (token_value_end st) stack rest fin) else bad
  end.

(** The state after Go's [continue]: a colon or comma was consumed. *)
Definition after_separator (d : decoder) : decoder :=
  let st' := match d_state d with
             | ObjectColon => ObjectValue | ArrayComma => ArrayValue
             | ObjectComma => ObjectKey | s => s end in
  Decoder st' (d_stack d) (tl (d_input d)) (d_end d).

(** [dec.Token()]; after one separator the automaton never continues again. *)
Definition dec_token (d : decoder) : result json_error token * decoder :=
  match token_turn d with
  | Some r => r
  | None =>
      match token_turn (after_separator d) with
      | Some r => r
      | None => (Err SyntaxErr, after_separator d)
      end
  end.

(** ** jsonstrict.RejectDuplicateKeys *)

Fixpoint scanValue (fuel : nat) (d : decoder) : result json_error unit * decoder :=
  match fuel with
  | O => (Err OutOfFuel, d)
  | S fuel =>
      match dec_token d with
      | (Err e, d1) => (Err e, d1)
      | (Ok (TDelim true true), d1) => scan_members fuel [] d1
      | (Ok (TDelim true false), d1) => scan_items fuel d1
      | (Ok (TDelim false _), d1) => (Err BadDelim, d1)
      | (Ok _, d1) => (Ok tt, d1)
      end
  end
with scan_members (fuel : nat) (seen : list string) (d : decoder) : result json_error unit * decoder :=
  match fuel with
  | O => (Err OutOfFuel, d)
  | S fuel =>
      if dec_more d then
        match dec_token d with
        | (Err e, d1) => (Err e, d1)
        | (Ok (TString key), d1) =>
            if bool_decide (key ∈ seen) then (Err DuplicateKey, d1)
            else match scanValue fuel d1 with
                 | (Err e, d2) => (Err e, d2)
                 | (Ok _, d2) => scan_members fuel (key :: seen) d2
                 end
        | (Ok _, d1) => (Err KeyNotString, d1)
        end
      else match dec_token d with
           | (Ok (TDelim false true), d1) => (Ok tt, d1)
           | (_, d1) => (Err BadObject, d1)
           end
  end
with scan_items (fuel : nat) (d : decoder) : result json_error unit * decoder :=
  match fuel with
  | O => (Err OutOfFuel, d)
  | S fuel =>
      if dec_more d then
        match scanValue fuel d with
        | (Err e, d1) => (Err e, d1)
        | (Ok _, d1) => scan_items fuel d1
        end
      else match dec_token d with
           | (Ok (TDelim false false), d1) => (Ok tt, d1)
           | (_, d1) => (Err BadArray, d1)
           end
  end.

(** Every call but the last two of a nesting level consumes a lexeme. *)
Definition scan_fuel (d : decoder) : nat := 2 + 2 * length (d_input d).

Definition RejectDuplicateKeys (input : list lexeme) (fin : ending) : result json_error unit :=
  let d := new_decoder input fin in
  match scanValue (scan_fuel d) d with
  | (Err e, _) => Err e
  | (Ok _, d1) =>
      match dec_token d1 with
      | (Err EofErr, _) => Ok tt
      | (Ok _, _) => Err MultipleValues
      | (Err e, _) => Err e
      end
  end.

(** ** go-execution rejectDuplicateKeys *)

(** The walker of go-execution/store.go: it does not look at which closing
    delimiter it reads, and a delimiter that opens nothing counts as a value. *)
Fixpoint parse_dup (fuel : nat) (d : decoder) : result json_error unit * decoder :=
  match fuel with
  | O => (Err OutOfFuel, d)
  | S fuel =>
      match dec_token d with
      | (Err e, d1) => (Err e, d1)
      | (Ok (TDelim true true), d1) => parse_members fuel [] d1
      | (Ok (TDelim true false), d1) => parse_items fuel d1
      | (Ok _, d1) => (Ok tt, d1)
      end
  end
with parse_members (fuel : nat) (seen : list string) (d : decoder) : result json_error unit * decoder :=
  match fuel with
  | O => (Err OutOfFuel, d)
  | S fuel =>
      if dec_more d then
        match dec_token d with
        | (Err e, d1) => (Err e, d1)
        | (Ok (TString key), d1) =>
            if bool_decide (key ∈ seen) then (Err DuplicateKey, d1)
            else match parse_dup fuel d1 with
                 | (Err e, d2) => (Err e, d2)
                 | (Ok _, d2) => parse_members fuel (key :: seen) d2
                 end
        | (Ok _, d1) => (Err KeyNotString, d1)
        end
      else match dec_token d with
           | (Ok _, d1) => (Ok tt, d1)
           | (Err e, d1) => (Err e, d1)
           end
  end
with parse_items (fuel : nat) (d : decoder) : result json_error unit * decoder :=
  match fuel with
  | O => (Err OutOfFuel, d)
  | S fuel =>
      if dec_more d then
        match parse_dup fuel d with
        | (Err e, d1) => (Err e, d1)
        | (Ok _, d1) => parse_items fuel d1
        end
      else match dec_token d with
           | (Ok _, d1) => (Ok tt, d1)
           | (Err e, d1) => (Err e, d1)
           end
  end.

(** [d.Decode(new(any)) != io.EOF] after the top-level value: [Decode] answers
    [io.EOF] exactly when no further byte is left. *)
Definition decode_is_eof (d : decoder) : bool :=
  match d_input d, d_end d with [], AtEof => true | _, _ => false end.

Definition rejectDuplicateKeys (input : list lexeme) (fin : ending) : result json_error unit :=
  let d := new_decoder input fin in
  match parse_dup (scan_fuel d) d with
  | (Err e, _) => Err e
  | (Ok _, d1) => if decode_is_eof d1 then Ok tt else Err MultipleValues
  end.

(** ** go-web hasDuplicateJSONKeys *)

(** [decodeUniqueValue] of go-web/internal/httpui/management.go, whose value is not
    used: like the executor's walker it does not look at the closing delimiter, but
    a delimiter that opens nothing is an error. *)
Fixpoint decodeUniqueValue (fuel : nat) (d : decoder) : result json_error unit * decoder :=
  match fuel with
  | O => (Err OutOfFuel, d)
  | S fuel =>
      match dec_token d with
      | (Err e, d1) => (Err e, d1)
      | (Ok (TDelim true true), d1) => unique_members fuel [] d1
      | (Ok (TDelim true false), d1) => unique_items fuel d1
      | (Ok (TDelim false _), d1) => (Err BadDelim, d1)
      | (Ok _, d1) => (Ok tt, d1)
      end
  end
with unique_members (fuel : nat) (m : list string) (d : decoder) : result json_error unit * decoder :=
  match fuel with
  | O => (Err OutOfFuel, d)
  | S fuel =>
      if dec_more d then
        match dec_token d with
        | (Err e, d1) => (Err e, d1)
        | (Ok (TString k), d1) =>
            if bool_decide (k ∈ m) then (Err DuplicateKey, d1)
            else match decodeUniqueValue fuel d1 with
                 | (Err e, d2) => (Err e, d2)
                 | (Ok _, d2) => unique_members fuel (k :: m) d2
                 end
        | (Ok _, d1) => (Err KeyNotString, d1)
        end
      else match dec_token d with
           | (Ok _, d1) => (Ok tt, d1)
           | (Err e, d1) => (Err e, d1)
           end
  end
with unique_items (fuel : nat) (d : decoder) : result json_error unit * decoder :=
  match fuel with
  | O => (Err OutOfFuel, d)
  | S fuel =>
      if dec_more d then
        match decodeUniqueValue fuel d with
        | (Err e, d1) => (Err e, d1)
        | (Ok _, d1) => unique_items fuel d1
        end
      else match dec_token d with
           | (Ok _, d1) => (Ok tt, d1)
           | (Err e, d1) => (Err e, d1)
           end
  end.

Definition hasDuplicateJSONKeys (input : list lexeme) (fin : ending) : bool :=
  let d := new_decoder input fin in
  match decodeUniqueValue (scan_fuel d) d with
  | (Err _, _) => true
  | (Ok _, d1) => match dec_token d1 with (Err EofErr, _) => false | _ => true end
  end.

(** ** Documents *)

Lemma sep_by_cons {A} (sep : A) x xs :
  sep_by sep (x :: xs) = x ++ concat (map (cons sep) xs).
Proof.
  revert x. induction xs as [|y xs IH]; intros x; simpl; [by rewrite app_nil_r|].
  f_equal. f_equal. apply IH.
Qed.

(** How a member is written. *)
Definition member_lex (kv : string * json) : list lexeme := LStr kv.1 :: LColon :: lex_of kv.2.

(** The rest of a container in the middle of it ([true]: something precedes). *)
Definition rest_lex {A} (f : A -> list lexeme) (started : bool) (l : list A) : list lexeme :=
  if started then concat (map (fun x => LComma :: f x) l) else sep_by LComma (map f l).

Lemma rest_lex_cons {A} (f : A -> list lexeme) b x l :
  rest_lex f b (x :: l) = (if b then [LComma] else []) ++ f x ++ rest_lex f true l.
Proof.
  unfold rest_lex. destruct b; simpl; [done|].
  change (sep_by LComma (map f (x :: l)) = f x ++ concat (map (fun y => LComma :: f y) l)).
  rewrite map_cons, sep_by_cons, map_map. done.
Qed.

Lemma rest_lex_nil {A} (f : A -> list lexeme) b : rest_lex f b [] = [].
Proof. by destruct b. Qed.
#[local] Arguments rest_lex : simpl never.

Lemma lex_of_arr l : lex_of (JArr l) = LBracket :: rest_lex lex_of false l ++ [RBracket].
Proof. done. Qed.
Lemma lex_of_obj l : lex_of (JObj l) = LBrace :: rest_lex member_lex false l ++ [RBrace].
Proof. done. Qed.

Definition lex_unambiguous (j : json) : Prop :=
  forall j' r r', lex_of j ++ r = lex_of j' ++ r' -> j = j' /\ r = r'.

Lemma rest_lex_inj {A} (f : A -> list lexeme) close (l : list A) :
  Forall (fun x => forall y r r', f x ++ r = f y ++ r' -> x = y /\ r = r') l ->
  (forall x, hd_error (f x) <> Some close) -> close <> LComma -> (forall x, f x <> []) ->
  forall b l' r r', rest_lex f b l ++ close :: r = rest_lex f b l' ++ close :: r' -> l = l' /\ r = r'.
Proof.
  intros Hf Hc Hne Hnil. induction Hf as [|x l Hx _ IH]; intros b [|y l'] r r' H.
  - rewrite !rest_lex_nil in H. simpl in H. split; congruence.
  - exfalso. rewrite rest_lex_nil, rest_lex_cons in H. specialize (Hc y). specialize (Hnil y).
    destruct b; simpl in H; [congruence|]. destruct (f y); simpl in *; congruence.
  - exfalso. rewrite rest_lex_nil, rest_lex_cons in H. specialize (Hc x). specialize (Hnil x).
    destruct b; simpl in H; [congruence|]. destruct (f x); simpl in *; congruence.
  - rewrite !rest_lex_cons, <- !app_assoc in H. apply app_inv_head in H.
    apply Hx in H as [-> H]. apply IH in H as [-> ->]. done.
Qed.

Lemma lex_of_nonempty j : lex_of j <> [].
Proof. by destruct j. Qed.
Lemma lex_of_not_close j : hd_error (lex_of j) <> Some RBracket.
Proof. by destruct j. Qed.

Lemma lex_of_inj j : lex_unambiguous j.
Proof.
  induction j as [| | | |l IH|l IH] using json_ind; intros j' r r' H;
    destruct j'; try (simpl in H; discriminate H);
    try (simpl in H; injection H as; subst; done).
  - rewrite !lex_of_arr, <- !app_comm_cons in H. injection H as H. rewrite <- !app_assoc in H.
    apply rest_lex_inj in H as [-> ->]; auto using lex_of_nonempty, lex_of_not_close.
  - rewrite !lex_of_obj, <- !app_comm_cons in H. injection H as H. rewrite <- !app_assoc in H.
    apply rest_lex_inj in H as [-> ->]; auto; try done.
    eapply Forall_impl; [exact IH|]. intros [k v] Hx [k' v'] s s' E.
    injection E as -> E. apply Hx in E as [E ->]. simpl in E. by subst.
Qed.

(** ** The decoder at a value position *)

Definition value_pos (s : token_state) : bool :=
  match s with
  | TopValue | ArrayStart | ArrayValue | ArrayComma | ObjectColon | ObjectValue => true
  | _ => false
  end.

Definition value_prefix (s : token_state) : list lexeme :=
  match s with ArrayComma => [LComma] | ObjectColon => [LColon] | _ => [] end.

Definition value_out (s : token_state) : token_state :=
  match s with
  | ArrayStart | ArrayValue | ArrayComma => ArrayComma
  | ObjectColon | ObjectValue => ObjectComma
  | s => s
  end.

(** The state pushed when a container opens at [s]. *)
Definition value_inner (s : token_state) : token_state :=
  match s with ArrayComma => ArrayValue | ObjectColon => ObjectValue | s => s end.

Lemma value_inner_end s : value_pos s = true -> token_value_end (value_inner s) = value_out s.
Proof. by destruct s. Qed.

(** What [Token] answers at a value position, read backwards. *)
Lemma token_turn_value_inv s stk inp fin t d' :
  token_value_allowed s = true -> token_turn (Decoder s stk inp fin) = Some (Ok t, d') ->
  (exists rest, s = ArrayStart /\ inp = RBracket :: rest /\ t = TDelim false false) \/
  (exists rest, inp = LBrace :: rest /\ t = TDelim true true /\ d' = Decoder ObjectStart (s :: stk) rest fin) \/
  (exists rest, inp = LBracket :: rest /\ t = TDelim true false /\ d' = Decoder ArrayStart (s :: stk) rest fin) \/
  (exists j rest, inp = lex_of j ++ rest /\ unique_keys j /\
     (forall o b, t <> TDelim o b) /\ d' = Decoder (token_value_end s) stk rest fin).
Proof.
  intros Hs H. destruct inp as [|x inp]; [discriminate H|].
  assert (forall j, lex_of j = [x] -> unique_keys j -> (forall o b, t <> TDelim o b) ->
            d' = Decoder (token_value_end s) stk inp fin ->
            exists j' rest', x :: inp = lex_of j' ++ rest' /\ unique_keys j' /\
              (forall o b, t <> TDelim o b) /\ d' = Decoder (token_value_end s) stk rest' fin) as Hscalar.
  { intros j Hj Hu Ht Hd. exists j, inp. rewrite Hj. done. }
  destruct x; simpl in H; rewrite ?Hs in H.
  - injection H as <- <-. right; left. eauto.
  - destruct s; discriminate.
  - injection H as <- <-. right; right; left. eauto.
  - destruct s; try discriminate. injection H as <- _. left. eauto.
  - destruct s; discriminate.
  - destruct s; discriminate.
  - right; right; right. apply (Hscalar (JStr s0)); try done;
      destruct s; try discriminate; by injection H as <- <-.
  - injection H as <- <-. right; right; right. by apply (Hscalar JNull).
  - injection H as <- <-. right; right; right. by apply (Hscalar (JBool b)).
  - injection H as <- <-. right; right; right. by apply (Hscalar (JNum lit)).
Qed.

Lemma dec_token_value_inv s stk inp fin t d' :
  value_pos s = true -> dec_token (Decoder s stk inp fin) = (Ok t, d') ->
  (exists rest, (s = ArrayStart \/ s = ArrayComma) /\ inp = RBracket :: rest) \/
  (exists rest, inp = value_prefix s ++ LBrace :: rest /\ t = TDelim true true /\
     d' = Decoder ObjectStart (value_inner s :: stk) rest fin) \/
  (exists rest, inp = value_prefix s ++ LBracket :: rest /\ t = TDelim true false /\
     d' = Decoder ArrayStart (value_inner s :: stk) rest fin) \/
  (exists j rest, inp = value_prefix s ++ lex_of j ++ rest /\ unique_keys j /\
     (forall o b, t <> TDelim o b) /\ d' = Decoder (value_out s) stk rest fin).
Proof.
  intros Hs H. unfold dec_token in H.
  destruct (token_turn (Decoder s stk inp fin)) as [r|] eqn:Ht.
  - subst r. destruct (token_value_allowed s) eqn:Ha.
    + apply token_turn_value_inv in Ht; [|done]. destruct s; try discriminate; naive_solver.
    + left. destruct s; try discriminate; destruct inp as [|[] inp]; simpl in Ht; try discriminate.
      injection Ht as <- _. eauto.
  - assert (exists rest, value_prefix s = [hd LNull inp] /\ inp = value_prefix s ++ rest /\
              after_separator (Decoder s stk inp fin) = Decoder (value_inner s) stk rest fin /\
              token_value_allowed (value_inner s) = true) as (rest & Hp & Hinp & Hd & Ha).
    { destruct s; try discriminate; destruct inp as [|[] inp]; simpl in Ht; try discriminate;
        exists inp; done. }
    rewrite Hd in H. destruct (token_turn (Decoder (value_inner s) _ _ _)) as [r|] eqn:Ht2; [|done].
    subst r. apply token_turn_value_inv in Ht2; [|done].
    rewrite Hinp, <- (value_inner_end s Hs).
    destruct Ht2 as [(x & Hx & _)|[(x & -> & -> & ->)|[(x & -> & -> & ->)|(j & x & -> & Hu & Hn & ->)]]].
    + by destruct s.
    + right; left. eauto.
    + right; right; left. eauto.
    + right; right; right. eauto 10.
Qed.

Definition obj_pos (started : bool) : token_state := if started then ObjectComma else ObjectStart.
Definition arr_pos (started : bool) : token_state := if started then ArrayComma else ArrayStart.
Definition comma_if (started : bool) : list lexeme := if started then [LComma] else [].

Lemma dec_token_key_inv b stk inp fin t d' :
  dec_more (Decoder (obj_pos b) stk inp fin) = true ->
  dec_token (Decoder (obj_pos b) stk inp fin) = (Ok t, d') ->
  exists key rest, inp = comma_if b ++ LStr key :: rest /\ t = TString key /\
    d' = Decoder ObjectColon stk rest fin.
Proof.
  unfold dec_token. intros Hm H. destruct b; simpl in *.
  - destruct inp as [|[] inp]; simpl in H; try discriminate.
    destruct inp as [|[] inp]; simpl in H; try discriminate.
    injection H as <- <-. eauto.
  - destruct inp as [|[] inp]; simpl in H; try discriminate.
    injection H as <- <-. eauto.
Qed.

Lemma dec_token_close_inv s (b : bool) top stk inp fin t d' :
  s = (if b then obj_pos else arr_pos) true \/ s = (if b then obj_pos else arr_pos) false ->
  dec_more (Decoder s (top :: stk) inp fin) = false ->
  dec_token (Decoder s (top :: stk) inp fin) = (Ok t, d') ->
  exists rest, inp = (if b then RBrace else RBracket) :: rest /\ t = TDelim false b /\
    d' = Decoder (token_value_end top) stk rest fin.
Proof.
  unfold dec_token. intros Hs Hm H.
  destruct b, Hs as [-> | ->]; destruct inp as [|[] inp]; simpl in *; try discriminate;
    try (destruct fin; discriminate); injection H as <- <-; eauto.
Qed.

(** ** Soundness: an accepted document is one value with unique members *)

(** [scanValue] is entered inside an array only when [More] said so. *)
Definition value_ready (d : decoder) : Prop :=
  value_pos (d_state d) = true /\
  (d_state d = ArrayStart \/ d_state d = ArrayComma -> dec_more d = true).

Definition scan_sound_value (r : decoder -> result json_error unit * decoder) : Prop :=
  forall s stk inp fin d', value_ready (Decoder s stk inp fin) ->
    r (Decoder s stk inp fin) = (Ok tt, d') ->
    exists j rest, inp = value_prefix s ++ lex_of j ++ rest /\ unique_keys j /\
      d' = Decoder (value_out s) stk rest fin.

Definition scan_sound_members (r : list string -> decoder -> result json_error unit * decoder) : Prop :=
  forall b seen top stk inp fin d',
    r seen (Decoder (obj_pos b) (top :: stk) inp fin) = (Ok tt, d') ->
    exists kvs rest, inp = rest_lex member_lex b kvs ++ RBrace :: rest /\
      NoDup (map fst kvs) /\ (forall k, k ∈ map fst kvs -> k ∉ seen) /\
      Forall (fun kv => unique_keys kv.2) kvs /\
      d' = Decoder (token_value_end top) stk rest fin.

Definition scan_sound_items (r : decoder -> result json_error unit * decoder) : Prop :=
  forall b top stk inp fin d',
    r (Decoder (arr_pos b) (top :: stk) inp fin) = (Ok tt, d') ->
    exists l rest, inp = rest_lex lex_of b l ++ RBracket :: rest /\ Forall unique_keys l /\
      d' = Decoder (token_value_end top) stk rest fin.

Lemma scan_sound_value_step rm ri r :
  scan_sound_members rm -> scan_sound_items ri ->
  (forall d d', r d = (Ok tt, d') -> exists t d1, dec_token d = (Ok t, d1) /\
     ((t = TDelim true true /\ rm [] d1 = (Ok tt, d')) \/ (t = TDelim true false /\ ri d1 = (Ok tt, d')) \/
      ((forall b, t <> TDelim true b) /\ d1 = d'))) ->
  scan_sound_value r.
Proof.
  intros Hm Hi Hr s stk inp fin d' [Hs Hmore] H. simpl in Hs, Hmore. apply Hr in H as (t & d1 & Ht & H).
  apply dec_token_value_inv in Ht; [|done].
  destruct Ht as [(x & Hx & ->)|[(x & -> & -> & ->)|[(x & -> & -> & ->)|(j & x & -> & Hu & Hn & ->)]]].
  - by specialize (Hmore Hx).
  - destruct H as [[_ H]|[[H _]|[H _]]]; [| discriminate | by destruct (H true)].
    apply (Hm false) in H as (kvs & rest & -> & Hnd & _ & Hall & ->).
    exists (JObj kvs), rest. rewrite lex_of_obj, unique_keys_obj, value_inner_end by done.
    split; [|done]. f_equal. simpl. by rewrite <- app_assoc.
  - destruct H as [[H _]|[[_ H]|[H _]]]; [discriminate| | by destruct (H false)].
    apply (Hi false) in H as (l & rest & -> & Hall & ->).
    exists (JArr l), rest. rewrite lex_of_arr, unique_keys_arr, value_inner_end by done.
    split; [|done]. f_equal. simpl. by rewrite <- app_assoc.
  - destruct H as [[-> _]|[[-> _]|[_ <-]]]; [by destruct (Hn true true) | by destruct (Hn true false) |].
    eauto.
Qed.

Lemma scan_sound fuel :
  scan_sound_value (scanValue fuel) /\ scan_sound_members (scan_members fuel) /\
  scan_sound_items (scan_items fuel).
Proof.
  induction fuel as [|fuel (IHv & IHm & IHi)]; [by repeat split; intros ?|].
  split; [|split].
  - apply (scan_sound_value_step (scan_members fuel) (scan_items fuel)); [done..|].
    intros d d' H. simpl in H. destruct (dec_token d) as [[t|e] d1] eqn:Ht; [|done].
    exists t, d1. split; [done|]. destruct t as [[] []| |]; try discriminate; naive_solver.
  - intros b seen top stk inp fin d' H. simpl in H.
    destruct (dec_more _) eqn:Hm; destruct (dec_token _) as [[t|e] d1] eqn:Ht; try done.
    + apply dec_token_key_inv in Ht as (key & rest & -> & -> & ->); [|done].
      destruct (bool_decide _) eqn:Hd; [done|]. apply bool_decide_eq_false in Hd.
      destruct (scanValue fuel _) as [[[]|e] d2] eqn:Hv; [|done].
      apply IHv in Hv as (j & rest2 & -> & Hu & ->); [|split; [done|by intros []]].
      apply (IHm true) in H as (kvs & rest3 & -> & Hnd & Hseen & Hall & ->).
      exists ((key, j) :: kvs), rest3. rewrite rest_lex_cons. split; [|split_and!; try done].
      * unfold member_lex, comma_if. destruct b; simpl; by rewrite <- !app_assoc.
      * simpl. apply NoDup_cons. split; [|done]. intros Hk. apply (Hseen key Hk). left.
      * simpl. intros k [->|Hk]%elem_of_cons Hin; [done|]. apply (Hseen k Hk). by right.
      * by constructor.
    + apply (dec_token_close_inv _ true) in Ht as (rest & -> & -> & ->); [|destruct b; auto|done].
      injection H as <-. exists [], rest. rewrite rest_lex_nil. simpl.
      split_and!; try done; [constructor|]. intros k Hk. by apply elem_of_nil in Hk.
  - intros b top stk inp fin d' H. simpl in H. destruct (dec_more _) eqn:Hm.
    + destruct (scanValue fuel _) as [[[]|e] d1] eqn:Hv; [|done].
      apply IHv in Hv as (j & rest & -> & Hu & ->); [|by split; [destruct b|]].
      replace (value_out (arr_pos b)) with (arr_pos true) in H by by destruct b.
      apply IHi in H as (l & rest2 & -> & Hall & ->).
      exists (j :: l), rest2. rewrite rest_lex_cons, <- !app_assoc.
      split; [by destruct b | split; [by constructor | done]].
    + destruct (dec_token _) as [[t|e] d1] eqn:Ht; [|done].
      apply (dec_token_close_inv _ false) in Ht as (rest & -> & -> & ->); [|destruct b; auto|done].
      injection H as <-. exists [], rest. rewrite rest_lex_nil. done.
Qed.

(** ** Completeness: enough fuel accepts every value with unique members *)

Lemma dec_token_open s stk rest fin b :
  value_pos s = true ->
  dec_token (Decoder s stk (value_prefix s ++ (if b : bool then LBrace else LBracket) :: rest) fin) =
  (Ok (TDelim true b), Decoder (if b then ObjectStart else ArrayStart) (value_inner s :: stk) rest fin).
Proof. by destruct s, b. Qed.

Lemma dec_token_key b stk key rest fin :
  dec_token (Decoder (obj_pos b) stk (comma_if b ++ LStr key :: rest) fin) =
  (Ok (TString key), Decoder ObjectColon stk rest fin).
Proof. by destruct b. Qed.

Lemma dec_token_close b started top stk rest fin :
  dec_token (Decoder ((if b : bool then obj_pos else arr_pos) started) (top :: stk)
               ((if b then RBrace else RBracket) :: rest) fin) =
  (Ok (TDelim false b), Decoder (token_value_end top) stk rest fin).
Proof. by destruct b, started. Qed.

Definition scan_complete (j : json) : Prop :=
  forall fuel s stk rest fin, value_pos s = true -> unique_keys j ->
    (2 * length (lex_of j) + 1 <= fuel)%nat ->
    scanValue fuel (Decoder s stk (value_prefix s ++ lex_of j ++ rest) fin) =
    (Ok tt, Decoder (value_out s) stk rest fin).

Lemma dec_more_value s stk j rest fin :
  dec_more (Decoder s stk (value_prefix s ++ lex_of j ++ rest) fin) = true.
Proof. destruct s, j; simpl; done. Qed.

Lemma scan_items_complete l : Forall scan_complete l -> Forall unique_keys l ->
  forall fuel b top stk rest fin, (2 * length (rest_lex lex_of b l) + 2 <= fuel)%nat ->
    scan_items fuel (Decoder (arr_pos b) (top :: stk) (rest_lex lex_of b l ++ RBracket :: rest) fin) =
    (Ok tt, Decoder (token_value_end top) stk rest fin).
Proof.
  intros Hc Hu. induction Hc as [|j l Hj _ IH]; intros [|fuel] b top stk rest fin Hf; try lia.
  - rewrite rest_lex_nil. simpl. by rewrite (dec_token_close false).
  - inversion Hu as [|? ? Huj Hul]; subst. rewrite rest_lex_cons in Hf |- *. rewrite <- !app_assoc.
    rewrite !length_app in Hf. pose proof (lex_of_nonempty j) as Hne.
    destruct (lex_of j) as [|x lj] eqn:Hlj; [done|]. rewrite <- Hlj in *.
    assert (1 <= length (lex_of j))%nat by (rewrite Hlj; simpl; lia).
    replace (if b then [LComma] else []) with (value_prefix (arr_pos b)) in * by by destruct b.
    cbn [scan_items]. rewrite dec_more_value, Hj; [|by destruct b|done|lia].
    replace (value_out (arr_pos b)) with (arr_pos true) by by destruct b. apply IH; [done|lia].
Qed.

Lemma scan_members_complete kvs : Forall (fun kv => scan_complete kv.2) kvs ->
  Forall (fun kv => unique_keys kv.2) kvs ->
  forall fuel b seen top stk rest fin, NoDup (map fst kvs) -> (forall k, k ∈ map fst kvs -> k ∉ seen) ->
    (2 * length (rest_lex member_lex b kvs) + 2 <= fuel)%nat ->
    scan_members fuel seen (Decoder (obj_pos b) (top :: stk) (rest_lex member_lex b kvs ++ RBrace :: rest) fin) =
    (Ok tt, Decoder (token_value_end top) stk rest fin).
Proof.
  intros Hc Hu. induction Hc as [|[k v] kvs Hj _ IH]; intros [|fuel] b seen top stk rest fin Hnd Hs Hf; try lia.
  - rewrite rest_lex_nil. simpl. by rewrite (dec_token_close true).
  - inversion Hu as [|? ? Huj Hul]; subst. simpl in Huj, Hj.
    inversion Hnd as [|? ? Hk Hnd']; subst.
    rewrite rest_lex_cons in Hf |- *. rewrite <- !app_assoc.
    rewrite !length_app in Hf. unfold member_lex at 1 in Hf. unfold member_lex at 1. simpl in Hf |- *.
    change (if b then [LComma] else []) with (comma_if b) in *.
    replace (dec_more _) with true by by destruct b.
    rewrite dec_token_key. rewrite bool_decide_eq_false_2 by (apply Hs; left).
    pose proof (Hj fuel ObjectColon (top :: stk) (rest_lex member_lex true kvs ++ RBrace :: rest) fin) as E.
    simpl in E. rewrite E; [|done|done|lia]. apply (IH Hul _ true); [done| |lia].
    intros k' Hk' [->|Hin]%elem_of_cons; [done|]. apply (Hs k'); [by right|done].
Qed.

Lemma scan_complete_all j : scan_complete j.
Proof.
  induction j as [|?|?|?|l IH|l IH] using json_ind; intros [|fuel] s' stk rest fin Hs Hu Hf; try (simpl in Hf; lia);
    try (destruct s'; done).
  - rewrite unique_keys_arr in Hu. rewrite lex_of_arr in *. simpl. rewrite <- app_assoc.
    rewrite (dec_token_open s' stk _ fin false Hs). rewrite <- value_inner_end by done.
    apply (scan_items_complete l IH Hu fuel false). simpl in Hf. rewrite length_app in Hf. simpl in Hf. lia.
  - rewrite unique_keys_obj in Hu. destruct Hu as [Hnd Hu]. rewrite lex_of_obj in *. simpl. rewrite <- app_assoc.
    rewrite (dec_token_open s' stk _ fin true Hs). rewrite <- value_inner_end by done.
    apply (scan_members_complete l IH Hu fuel false); [done| |].
    + intros k _ Hk. by apply elem_of_nil in Hk.
    + simpl in Hf. rewrite length_app in Hf. simpl in Hf. lia.
Qed.

(** ** The two walkers decide the same documents *)

Definition document (input : list lexeme) (fin : ending) : Prop :=
  fin = AtEof /\ exists j, input = lex_of j /\ unique_keys j.

Lemma dec_token_top_eof rest fin :
  (dec_token (Decoder TopValue [] rest fin)).1 = Err EofErr <-> rest = [] /\ fin = AtEof.
Proof.
  split; [|by intros [-> ->]]. unfold dec_token.
  destruct rest as [|[] rest]; simpl; try discriminate. destruct fin; [done|discriminate].
Qed.

(** [RejectDuplicateKeys] accepts exactly one-value documents in which no
    object repeats a member name, at any depth, followed by the end of input. *)
Lemma reject_iff input fin :
  RejectDuplicateKeys input fin = Ok tt <-> document input fin.
Proof.
  unfold RejectDuplicateKeys, document. split.
  - destruct (scanValue _ _) as [[[]|e] d1] eqn:Hv; [|done].
    apply scan_sound in Hv as (j & rest & Hin & Hu & ->); [|by split; [|intros []]].
    intros H. assert ((dec_token (Decoder TopValue [] rest fin)).1 = Err EofErr) as E.
    { simpl in H. destruct (dec_token _) as [[t|[]] d2]; simpl; done. }
    apply dec_token_top_eof in E as [-> ->]. split; [done|]. exists j.
    by rewrite Hin, app_nil_r.
  - intros (-> & j & -> & Hu).
    pose proof (scan_complete_all j (scan_fuel (new_decoder (lex_of j) AtEof)) TopValue [] [] AtEof eq_refl Hu) as E.
    cbn [value_prefix value_out app] in E. rewrite app_nil_r in E.
    change (new_decoder (lex_of j) AtEof) with (Decoder TopValue [] (lex_of j) AtEof) in *.
    rewrite E by (unfold scan_fuel; simpl; lia). done.
Qed.

Definition agree (r1 r2 : result json_error unit * decoder) : Prop :=
  match r1, r2 with
  | (Ok _, d1), (Ok _, d2) => d1 = d2
  | (Err _, _), (Err _, _) => True
  | _, _ => False
  end.

(** Any walker that differs from [scanValue] only in what it does with a delimiter
    that opens nothing and with a wrong closing delimiter. *)
Section Agreement.
Context (v i : nat -> decoder -> result json_error unit * decoder)
  (m : nat -> list string -> decoder -> result json_error unit * decoder)
  (stray : decoder -> result json_error unit * decoder)
  (closed : bool -> result json_error token -> decoder -> result json_error unit * decoder).
Hypothesis no_fuel : forall seen d, is_ok (v O d).1 = false /\ is_ok (m O seen d).1 = false /\ is_ok (i O d).1 = false.
Hypothesis v_step : forall n d, v (S n) d =
  match dec_token d with
  | (Err e, d1) => (Err e, d1)
  | (Ok (TDelim true true), d1) => m n [] d1
  | (Ok (TDelim true false), d1) => i n d1
  | (Ok (TDelim false _), d1) => stray d1
  | (Ok _, d1) => (Ok tt, d1)
  end.
Hypothesis m_step : forall n seen d, m (S n) seen d =
  if dec_more d then
    match dec_token d with
    | (Err e, d1) => (Err e, d1)
    | (Ok (TString key), d1) =>
        if bool_decide (key ∈ seen) then (Err DuplicateKey, d1)
        else match v n d1 with (Err e, d2) => (Err e, d2) | (Ok _, d2) => m n (key :: seen) d2 end
    | (Ok _, d1) => (Err KeyNotString, d1)
    end
  else match dec_token d with (r, d1) => closed true r d1 end.
Hypothesis i_step : forall n d, i (S n) d =
  if dec_more d then match v n d with (Err e, d1) => (Err e, d1) | (Ok _, d1) => i n d1 end
  else match dec_token d with (r, d1) => closed false r d1 end.
Hypothesis closed_step : forall b e d, closed b (Ok (TDelim false b)) d = (Ok tt, d) /\ is_ok (closed b (Err e) d).1 = false.

Lemma walker_agrees fuel :
  (forall d, value_ready d -> agree (scanValue fuel d) (v fuel d)) /\
  (forall b seen top stk inp fin, let d := Decoder (obj_pos b) (top :: stk) inp fin in
     agree (scan_members fuel seen d) (m fuel seen d)) /\
  (forall b top stk inp fin, let d := Decoder (arr_pos b) (top :: stk) inp fin in
     agree (scan_items fuel d) (i fuel d)).
Proof using no_fuel v_step m_step i_step closed_step.
  assert (forall (r : result json_error unit * decoder) e d, is_ok r.1 = false -> agree (Err e, d) r) as Herr by (by intros [[u|x] d'] e d).
  induction fuel as [|fuel (IHv & IHm & IHi)].
  { split_and!; intros; apply Herr; eapply no_fuel; exact []. }
  destruct (scan_sound fuel) as (Sv & _ & _). split; [|split].
  - intros [s stk inp fin] [Hs Hr]. rewrite v_step. simpl. destruct (dec_token _) as [[t|e] d1] eqn:Ht; [|done].
    apply dec_token_value_inv in Ht; [|done].
    destruct Ht as [(x & Hx & E)|[(x & _ & -> & ->)|[(x & _ & -> & ->)|(j & x & _ & _ & Hn & ->)]]].
    + simpl in Hr, E. rewrite E in Hr. by specialize (Hr Hx).
    + apply (IHm false).
    + apply (IHi false).
    + destruct t as [o b| |]; [by destruct (Hn o b)|done..].
  - intros b seen top stk inp fin d. rewrite m_step. simpl. destruct (dec_more d) eqn:Hm;
      destruct (dec_token d) as [[t|e] d1] eqn:Ht; try done.
    + apply dec_token_key_inv in Ht as (key & rest & _ & -> & ->); [|done].
      case_bool_decide; [done|].
      assert (value_ready (Decoder ObjectColon (top :: stk) rest fin)) as Hr by by split; [|intros []].
      pose proof (IHv _ Hr) as Ha.
      destruct (scanValue fuel _) as [[[]|e] d2] eqn:Hv, (v fuel _) as [[[]|e'] d2']; try done.
      simpl in Ha. subst d2'. apply Sv in Hv as (j & rest2 & _ & _ & ->); [|done]. apply (IHm true).
    + apply (dec_token_close_inv _ true) in Ht as (rest & _ & -> & ->); [|destruct b; auto|done].
      by rewrite (proj1 (closed_step true EofErr _)).
    + apply Herr, closed_step.
  - intros b top stk inp fin d. rewrite i_step. simpl. destruct (dec_more d) eqn:Hm.
    + assert (value_ready d) as Hr by (split; [by destruct b|done]).
      pose proof (IHv _ Hr) as Ha.
      destruct (scanValue fuel d) as [[[]|e] d2] eqn:Hv, (v fuel d) as [[[]|e'] d2']; try done.
      simpl in Ha. subst d2'. apply Sv in Hv as (j & rest2 & _ & _ & ->); [|done].
      replace (value_out (arr_pos b)) with (arr_pos true) by by destruct b. apply IHi.
    + destruct (dec_token d) as [[t|e] d1] eqn:Ht; [|apply Herr, closed_step].
      apply (dec_token_close_inv _ false) in Ht as (rest & _ & -> & ->); [|destruct b; auto|done].
      by rewrite (proj1 (closed_step false EofErr _)).
Qed.
End Agreement.

(** A closing delimiter that is not looked at. *)
Definition any_close (_ : bool) (r : result json_error token) (d : decoder) : result json_error unit * decoder :=
  match r with Ok _ => (Ok tt, d) | Err e => (Err e, d) end.

Lemma walkers_agree fuel d : value_ready d -> agree (scanValue fuel d) (parse_dup fuel d).
Proof.
  apply (walker_agrees parse_dup parse_items parse_members (fun d => (Ok tt, d)) any_close); clear; done.
Qed.

Lemma web_walker_agrees fuel d : value_ready d -> agree (scanValue fuel d) (decodeUniqueValue fuel d).
Proof.
  apply (walker_agrees decodeUniqueValue unique_items unique_members (fun d => (Err BadDelim, d)) any_close); clear; done.
Qed.

Lemma has_duplicate_iff input fin : hasDuplicateJSONKeys input fin = false <-> document input fin.
Proof.
  rewrite <- reject_iff. unfold hasDuplicateJSONKeys, RejectDuplicateKeys.
  set (d := new_decoder input fin). set (fuel := scan_fuel d).
  assert (value_ready d) as Hr by by split; [|intros []].
  pose proof (web_walker_agrees fuel d Hr) as Ha.
  destruct (scanValue fuel d) as [[[]|e] d1] eqn:Hv, (decodeUniqueValue fuel d) as [[[]|e'] d2]; try done.
  simpl in Ha. subst d2. by destruct (dec_token d1) as [[|[]]].
Qed.

Lemma reject_execution_iff input fin :
  rejectDuplicateKeys input fin = Ok tt <-> document input fin.
Proof.
  rewrite <- reject_iff. unfold rejectDuplicateKeys, RejectDuplicateKeys.
  set (d := new_decoder input fin). set (fuel := scan_fuel d).
  assert (value_ready d) as Hr by by split; [|intros []].
  pose proof (walkers_agree fuel d Hr) as Ha.
  destruct (scanValue fuel d) as [[[]|e] d1] eqn:Hv, (parse_dup fuel d) as [[[]|e'] d2]; try done.
  simpl in Ha. subst d2.
  apply scan_sound in Hv as (j & rest & _ & _ & ->); [|done]. simpl.
  pose proof (dec_token_top_eof rest fin) as He.
  destruct (dec_token _) as [r d2]; simpl in *.
  unfold decode_is_eof; simpl. destruct rest as [|x rest], fin; simpl.
  - destruct He as [_ He]. by rewrite He.
  - split; [done|]. destruct r as [|[]]; try done. by destruct He as [[]]; [done..|].
  - split; [done|]. destruct r as [|[]]; try done. by destruct He as [[]]; [done..|].
  - split; [done|]. destruct r as [|[]]; try done. by destruct He as [[]]; [done..|].
Qed.

(** ** Termination: the fuel is never exhausted, whatever the input *)

Definition in_len (d : decoder) : nat := length (d_input d).

Definition within (n : nat) (r : result json_error unit * decoder) : Prop :=
  r.1 <> Err OutOfFuel /\ (in_len r.2 <= n)%nat /\ (is_ok r.1 = true -> in_len r.2 < n)%nat.

Lemma token_turn_len d r d' : token_turn d = Some (r, d') ->
  r <> Err OutOfFuel /\ (in_len d' <= in_len d)%nat /\ (is_ok r = true -> in_len d' < in_len d)%nat.
Proof.
  destruct d as [s stk inp fin]. unfold in_len. simpl.
  destruct inp as [|[] inp]; simpl; intros H;
    repeat (case_match; simplify_eq; simpl);
    split_and!; simpl; try done; try lia; destruct fin; done.
Qed.

Lemma dec_token_len d r d' : dec_token d = (r, d') ->
  r <> Err OutOfFuel /\ (in_len d' <= in_len d)%nat /\ (is_ok r = true -> in_len d' < in_len d)%nat.
Proof.
  unfold dec_token. destruct (token_turn d) as [p|] eqn:H1.
  - intros ->. by apply token_turn_len in H1.
  - assert (in_len (after_separator d) <= in_len d)%nat.
    { unfold in_len, after_separator. destruct d as [s stk [|x inp] fin]; simpl; lia. }
    destruct (token_turn (after_separator d)) as [p|] eqn:H2.
    + intros ->. apply token_turn_len in H2 as (? & ? & Hl). split_and!; [done|lia|].
      intros Hr. specialize (Hl Hr). lia.
    + intros [= <- <-]. split_and!; [done|lia|done].
Qed.

Lemma scan_terminates fuel :
  (forall d, (2 * in_len d + 1 <= fuel)%nat -> within (in_len d) (scanValue fuel d)) /\
  (forall seen d, (2 * in_len d + 2 <= fuel)%nat -> within (in_len d) (scan_members fuel seen d)) /\
  (forall d, (2 * in_len d + 2 <= fuel)%nat -> within (in_len d) (scan_items fuel d)).
Proof.
  induction fuel as [|fuel (IHv & IHm & IHi)]; [split_and!; lia|].
  assert (forall n m r, within n r -> (n < m)%nat -> within m r) as Hw.
  { unfold within. intros n m r (H1 & H2 & H3) Hlt. split_and!; [done|lia|]. lia. }
  unfold within in *. split_and!.
  - intros d Hf. simpl. destruct (dec_token d) as [[t|e] d1] eqn:Ht;
      apply dec_token_len in Ht as (Hne & Hle & Hlt);
      [specialize (Hlt eq_refl) | simpl; split_and!; [congruence|lia|done]].
    destruct t as [[] []| |]; simpl; try (split_and!; [done|lia|done || lia]).
    + eapply Hw; [apply IHm; lia | lia].
    + eapply Hw; [apply IHi; lia | lia].
  - intros seen d Hf. simpl. destruct (dec_more d), (dec_token d) as [[t|e] d1] eqn:Ht;
      apply dec_token_len in Ht as (Hne & Hle & Hlt); try specialize (Hlt eq_refl);
      try (simpl; split_and!; [congruence|lia|done]).
    + destruct t as [o c|k|]; simpl; try (split_and!; [done|lia|done]).
      case_bool_decide; simpl; [split_and!; [done|lia|done]|].
      destruct (IHv d1) as (Hv1 & Hv2 & Hv3); [lia|].
      destruct (scanValue fuel d1) as [[[]|e] d2]; simpl in *.
      * specialize (Hv3 eq_refl). eapply Hw; [apply IHm; lia | lia].
      * split_and!; [congruence|lia|done].
    + destruct t as [[] []| |]; simpl; split_and!; try done; try lia.
  - intros d Hf. simpl. destruct (dec_more d).
    + destruct (IHv d) as (Hv1 & Hv2 & Hv3); [lia|].
      destruct (scanValue fuel d) as [[[]|e] d2]; simpl in *.
      * specialize (Hv3 eq_refl). eapply Hw; [apply IHi; lia | lia].
      * split_and!; [congruence|lia|done].
    + destruct (dec_token d) as [[t|e] d1] eqn:Ht;
        apply dec_token_len in Ht as (Hne & Hle & Hlt); try specialize (Hlt eq_refl).
      * destruct t as [[] []| |]; simpl; split_and!; try done; try lia.
      * simpl. split_and!; [done|lia|done].
Qed.

(** ** Results *)

(** C36: the scheduler's [RejectDuplicateKeys], the executor's [rejectDuplicateKeys]
    and the web service's [hasDuplicateJSONKeys], written differently, accept the
    same inputs: exactly one JSON value whose objects name no member twice at any
    depth, followed by the end of input.  In particular a document is refused as
    soon as one of its objects, however deep, repeats a name. *)
Theorem duplicate_walkers_exact input fin :
  (RejectDuplicateKeys input fin = Ok tt <-> document input fin) /\
  (rejectDuplicateKeys input fin = Ok tt <-> document input fin) /\
  (hasDuplicateJSONKeys input fin = false <-> document input fin) /\
  (forall j, RejectDuplicateKeys (lex_of j) AtEof = Ok tt <-> unique_keys j).
Proof.
  split; [apply reject_iff|]. split; [apply reject_execution_iff|]. split; [apply has_duplicate_iff|].
  intros j. rewrite reject_iff. unfold document. split; [|eauto].
  intros (_ & j' & Hj & Hu). destruct (lex_of_inj j j' [] []) as [-> _]; [|done].
  by rewrite !app_nil_r.
Qed.

(** The recursive scan always finishes: the fuel given to it is never
    exhausted, for any input. *)
Theorem reject_duplicates_terminates input fin :
  RejectDuplicateKeys input fin <> Err OutOfFuel.
Proof.
  unfold RejectDuplicateKeys. set (d := new_decoder input fin).
  destruct (proj1 (scan_terminates (scan_fuel d)) d) as (H & _ & _).
  { unfold scan_fuel, in_len. lia. }
  destruct (scanValue _ d) as [[u|e] d1]; simpl in *; [|congruence].
  destruct (dec_token d1) as [[t|e] d2] eqn:Ht; [done|].
  apply dec_token_len in Ht as (Hne & _ & _). destruct e; congruence.
Qed.
