(* ===== verification/GoTime.v ===== *)
(** * GoTime: the part of Go's [time] package the program uses

    An instant is the number of nanoseconds since the Unix epoch (type [Z]).
    A location is the offset, in seconds east of UTC, in force at each Unix
    second; the IANA database itself is data outside the repository, so
    locations are arguments wherever they occur. *)

From S2P Require Import Prelude.

Definition Nanosecond : Z := 1.
Definition Microsecond : Z := 1000.
Definition Millisecond : Z := 1000000.
Definition Second : Z := 1000000000.
Definition Minute : Z := 60 * Second.
Definition Hour : Z := 60 * Minute.
Definition Day : Z := 24 * Hour.

(** [t.Truncate(d)] *)
Definition truncate (d t : Z) : Z := t - t mod d.

Lemma truncate_le d t : 0 < d -> truncate d t <= t < truncate d t + d.
Proof. intros Hd. unfold truncate. pose proof (Z.mod_pos_bound t d Hd). lia. Qed.
Lemma truncate_idem d t : 0 < d -> truncate d (truncate d t) = truncate d t.
Proof.
  intros Hd. unfold truncate. rewrite (Zminus_mod t (t mod d)), Zmod_mod, Z.sub_diag, Zmod_0_l. lia.
Qed.
Lemma truncate_mono d s t : 0 < d -> s <= t -> truncate d s <= truncate d t.
Proof.
  intros Hd Hst. unfold truncate. rewrite !Z.mod_eq by lia.
  pose proof (Z.div_le_mono s t d Hd Hst). nia.
Qed.

(** ** Civil dates (proleptic Gregorian calendar)

    Years are counted from March, so that the leap day is the last one; the
    400, 100, 4 and 1 year cycles are cut off as [time.Time.abs] does. *)

Record civil := Civil { c_year : Z; c_month : Z; c_day : Z }.

#[export] Instance civil_eq_dec : EqDecision civil.
Proof. solve_decision. Defined.

Definition epoch_shift : Z := 719468. (* days from 0000-03-01 to 1970-01-01 *)

Definition days_from_civil (c : civil) : Z :=
  let y := if c_month c <=? 2 then c_year c - 1 else c_year c in
  let mp := if c_month c <=? 2 then c_month c + 9 else c_month c - 3 in
  365 * y + y / 4 - y / 100 + y / 400 + (153 * mp + 2) / 5 + (c_day c - 1) - epoch_shift.

Definition civil_from_days (n : Z) : civil :=
  let z := n + epoch_shift in
  let n400 := z / 146097 in let d400 := z mod 146097 in
  let n100 := Z.min 3 (d400 / 36524) in let d100 := d400 - 36524 * n100 in
  let n4 := d100 / 1461 in let d4 := d100 mod 1461 in
  let n1 := Z.min 3 (d4 / 365) in let doy := d4 - 365 * n1 in
  let y := 400 * n400 + 100 * n100 + 4 * n4 + n1 in
  let mp := (5 * doy + 2) / 153 in
  let d := doy - (153 * mp + 2) / 5 + 1 in
  if mp <? 10 then Civil y (mp + 3) d else Civil (y + 1) (mp - 9) d.

Lemma days_civil_days n : days_from_civil (civil_from_days n) = n.
Proof.
  unfold civil_from_days. set (z := n + epoch_shift).
  set (n400 := z / 146097). set (d400 := z mod 146097).
  set (n100 := Z.min 3 (d400 / 36524)). set (d100 := d400 - 36524 * n100).
  set (n4 := d100 / 1461). set (d4 := d100 mod 1461).
  set (n1 := Z.min 3 (d4 / 365)). set (doy := d4 - 365 * n1).
  set (y := 400 * n400 + 100 * n100 + 4 * n4 + n1).
  assert (z = 146097 * n400 + d400 /\ 0 <= d400 < 146097) as [Hz Hd400] by (unfold n400, d400; dlia).
  assert (0 <= n100 <= 3 /\ 0 <= d100 < 36525) as [Hn100 Hd100] by (unfold d100, n100; dlia).
  assert (d100 = 1461 * n4 + d4 /\ 0 <= d4 < 1461 /\ 0 <= n4 <= 24) as (Hd & Hd4 & Hn4)
    by (unfold n4, d4; dlia).
  assert (0 <= n1 <= 3 /\ 0 <= doy <= 365) as [Hn1 Hdoy] by (unfold doy, n1; dlia).
  set (mp := (5 * doy + 2) / 153). assert (0 <= mp <= 11) as Hmp by (unfold mp; dlia).
  assert (365 * y + y / 4 - y / 100 + y / 400 + doy = z) as Hy.
  { assert (y / 4 = 100 * n400 + 25 * n100 + n4) as -> by (unfold y; dlia).
    assert (y / 100 = 4 * n400 + n100) as -> by (unfold y; dlia).
    assert (y / 400 = n400) as -> by (unfold y; dlia).
    unfold doy, y. unfold d100 in Hd. lia. }
  clearbody y mp doy. destruct (mp <? 10) eqn:E; bool_to_prop; unfold days_from_civil; simpl.
  - rewrite (proj2 (Z.leb_gt (mp + 3) 2)) by lia.
    replace (mp + 3 - 3) with mp by lia. unfold z in Hy. lia.
  - rewrite (proj2 (Z.leb_le (mp - 9) 2)) by lia.
    replace (mp - 9 + 9) with mp by lia. replace (y + 1 - 1) with y by lia. unfold z in Hy. lia.
Qed.

Lemma civil_from_days_inj m n : civil_from_days m = civil_from_days n -> m = n.
Proof. intros H. by rewrite <- (days_civil_days m), <- (days_civil_days n), H. Qed.

(** [time.Date] normalises an overflowing day of the month. *)
Lemma days_from_civil_add c k :
  days_from_civil (Civil (c_year c) (c_month c) (c_day c + k)) = days_from_civil c + k.
Proof. unfold days_from_civil; simpl. lia. Qed.

(** ** Locations and local time *)

Definition location : Type := Z -> Z.
Definition UTC : location := fun _ => 0.
Definition FixedZone (offset : Z) : location := fun _ => offset.

(** [t.Unix()] *)
Definition Unix (t : Z) : Z := t / Second.

(** The offset [t.In(loc).Zone()] reports. *)
Definition Zone (loc : location) (t : Z) : Z := loc (Unix t).

(** Nanoseconds shown by a local clock, counted as if they were UTC. *)
Definition wall_ns (loc : location) (t : Z) : Z := t + Zone loc t * Second.

Definition local_day (loc : location) (t : Z) : Z := wall_ns loc t / Day.
Definition local_date (loc : location) (t : Z) : civil := civil_from_days (local_day loc t).
Definition local_hour (loc : location) (t : Z) : Z := wall_ns loc t mod Day / Hour.
Definition local_minute (loc : location) (t : Z) : Z := wall_ns loc t mod Hour / Minute.
Definition local_second (loc : location) (t : Z) : Z := wall_ns loc t mod Minute / Second.
Definition local_nano (loc : location) (t : Z) : Z := wall_ns loc t mod Second.

(** 0 is Sunday; 1970-01-01 was a Thursday. *)
Definition Weekday (loc : location) (t : Z) : Z := (local_day loc t + 4) mod 7.

(** [time.Date(y, m, d, hour, min, sec, nsec, loc)]: the standard library takes
    the offset in force at the wall time read as UTC, then the offset at the
    instant that gives. *)
Definition Date (loc : location) (c : civil) (hour minute sec nsec : Z) : Z :=
  let unix := days_from_civil c * 86400 + hour * 3600 + minute * 60 + sec in
  let utc := unix - loc unix in
  (unix - loc utc) * Second + nsec.

(** [t.AddDate(0, 0, days)] in a location *)
Definition AddDays (loc : location) (t days : Z) : Z :=
  let c := local_date loc t in
  Date loc (Civil (c_year c) (c_month c) (c_day c + days))
    (local_hour loc t) (local_minute loc t) (local_second loc t) (local_nano loc t).

Lemma Date_fixed off c h m s ns :
  Date (FixedZone off) c h m s ns =
  (days_from_civil c * 86400 + h * 3600 + m * 60 + s - off) * Second + ns.
Proof. done. Qed.

Lemma Date_utc c h m s ns :
  Date UTC c h m s ns = (days_from_civil c * 86400 + h * 3600 + m * 60 + s) * Second + ns.
Proof. unfold Date, UTC. by rewrite !Z.sub_0_r. Qed.

Lemma wall_ns_fixed off t : wall_ns (FixedZone off) t = t + off * Second.
Proof. done. Qed.

Lemma wall_ns_utc t : wall_ns UTC t = t.
Proof. unfold wall_ns, Zone, UTC. lia. Qed.

Lemma Day_val : Day = 86400000000000. Proof. done. Qed.
Lemma Hour_val : Hour = 3600000000000. Proof. done. Qed.
Lemma Minute_val : Minute = 60000000000. Proof. done. Qed.
Lemma Second_val : Second = 1000000000. Proof. done. Qed.

#[global] Opaque Second Minute Hour Day.

(** Replaces the unit constants by numbers, for [lia]. *)
Ltac units := rewrite ?Day_val, ?Hour_val, ?Minute_val, ?Second_val in *.

(** A local clock reading splits into day, hour, minute, second, nanosecond. *)
Lemma wall_fields loc t :
  wall_ns loc t = local_day loc t * Day + local_hour loc t * Hour + local_minute loc t * Minute +
                  local_second loc t * Second + local_nano loc t.
Proof.
  unfold local_day, local_hour, local_minute, local_second, local_nano.
  generalize (wall_ns loc t). intros w. units. dlia.
Qed.

Lemma local_hour_bound loc t : 0 <= local_hour loc t <= 23.
Proof. unfold local_hour. generalize (wall_ns loc t); intros; units; dlia. Qed.
Lemma local_minute_bound loc t : 0 <= local_minute loc t <= 59.
Proof. unfold local_minute. generalize (wall_ns loc t); intros; units; dlia. Qed.

Lemma AddDays_utc t k : AddDays UTC t k = t + k * Day.
Proof.
  unfold AddDays. rewrite Date_utc, days_from_civil_add. unfold local_date.
  rewrite days_civil_days. pose proof (wall_fields UTC t) as H. rewrite wall_ns_utc in H.
  units. lia.
Qed.
