(* ===== verification/Db.v ===== *)
(** * Db: PostgreSQL sessions as the Go stores use them

    Every store of the program (go-scheduler, go-worker, go-execution, go-domain)
    talks to PostgreSQL through pgx: single statements on a pool, and transactions
    opened with [Begin], closed by [Commit] or by the deferred [Rollback].
    The server is not part of the repository; what the stores rely on is
    modelled here once:

    - a statement is a function on the tables (type [D]) that sees the database
      clock and the set of rows other sessions hold locked;
    - statements of an open transaction work on a private copy of the tables,
      which [commit] publishes and any other exit throws away;
    - each call consumes one [event] of an arbitrary script: how far the clock
      moved, what other sessions committed meanwhile (only between
      transactions: rows a transaction reads are locked [FOR UPDATE]), which
      rows are locked, the bytes of [crypto/rand], the application clock, and
      whether the call fails.  A failing call was either never executed
      ([Lost]) or executed with its reply lost ([Unacked]), so a failing
      [commit] may or may not have published.

    Theorems quantify over the script, hence over every failure pattern and
    every interleaving with other sessions. *)

From S2P Require Import Prelude JsonStrict GoTime.

(** What the queries use of the server beyond tables and transactions: the
    value a jsonb column prints for the text stored in it, jsonb equality, the
    collation order of text and the btree order of uuid. *)
Class Postgres := {
  jsonb : json -> json;
  jsonb_eqb : json -> json -> bool;
  text_leb : string -> string -> bool;
  uuid_leb : string -> string -> bool;
}.

(** Documented: a jsonb column equals the value stored in it, and an object
    stays an object. *)
Class PostgresLaws `{Postgres} := {
  jsonb_eqb_stored : forall j, jsonb_eqb (jsonb j) j = true;
  jsonb_object : forall l, exists l', jsonb (JObj l) = JObj l';
}.

(** timestamptz keeps microseconds; pgx drops the rest. *)
Definition pg_time (t : Z) : Z := truncate Microsecond t.

Inductive fault := NoFault | Lost | Unacked.

(** What the driver reports; [UniqueViolation] is SQLSTATE 23505. *)
Inductive dberr := DbFault | UniqueViolation.

#[export] Instance dberr_eq_dec : EqDecision dberr.
Proof. solve_decision. Defined.

Record event (D : Type) := Event {
  ev_elapsed : Z;
  ev_fault : fault;
  ev_other : D -> D;
  ev_locked : string -> bool;
  ev_bytes : list Z;
  ev_app : Z;
}.
Arguments Event {D}.
Arguments ev_elapsed {D} _.
Arguments ev_fault {D} _.
Arguments ev_other {D} _ _.
Arguments ev_locked {D} _ _.
Arguments ev_bytes {D} _.
Arguments ev_app {D} _.

Record world (D : Type) := World {
  w_db : D;             (* committed tables *)
  w_tx : option D;      (* the open transaction's copy *)
  w_now : Z;            (* database clock, nanoseconds *)
  w_env : list (event D);
}.
Arguments World {D}.
Arguments w_db {D} _.
Arguments w_tx {D} _.
Arguments w_now {D} _.
Arguments w_env {D} _.

(** [M D E A]: code that uses a database [D], may fail with [E], returns [A]. *)
Definition M (D E A : Type) : Type := world D -> result E A * world D.

(** A SQL statement: rows locked elsewhere, database clock, tables. *)
Definition stmt (D A : Type) : Type := (string -> bool) -> Z -> D -> result dberr A * D.

(** The event when the script is exhausted: nothing happens, nothing fails. *)
Definition quiet {D} : event D := Event 0 NoFault (fun d => d) (fun _ => false) [] 0.

Definition next_event {D} (w : world D) : event D * world D :=
  let ev := hd quiet (w_env w) in
  (ev, World (match w_tx w with None => ev_other ev (w_db w) | Some _ => w_db w end)
             (w_tx w) (w_now w + ev_elapsed ev) (tl (w_env w))).

Definition cur {D} (w : world D) : D := default (w_db w) (w_tx w).

Definition set_cur {D} (d : D) (w : world D) : world D :=
  match w_tx w with
  | Some _ => World (w_db w) (Some d) (w_now w) (w_env w)
  | None => World d None (w_now w) (w_env w)
  end.

Definition set_tx {D} (t : option D) (w : world D) : world D :=
  World (w_db w) t (w_now w) (w_env w).

(** ** The operations *)

Section Operations.
Context {D E : Type}.

#[global] Instance M_ret : MRet (M D E) := fun A a w => (Ok a, w).
#[global] Instance M_bind : MBind (M D E) :=
  fun A B k m w => match m w with (Ok a, w') => k a w' | (Err e, w') => (Err e, w') end.

Definition raise {A} (e : E) : M D E A := fun w => (Err e, w).

Definition guard_m (bad : bool) (e : E) : M D E unit :=
  if bad then raise e else mret tt.

(** Runs a statement and hands the driver's error to the caller. *)
Definition try_exec {A} (f : stmt D A) : M D E (result dberr A) := fun w =>
  let '(ev, w1) := next_event w in
  let '(r, d) := f (ev_locked ev) (w_now w1) (cur w1) in
  match ev_fault ev with
  | Lost => (Ok (Err DbFault), w1)
  | Unacked => (Ok (Err DbFault), set_cur d w1)
  | NoFault => (Ok r, set_cur d w1)
  end.

(** Runs a statement; the driver's error becomes the function's error. *)
Definition exec {A} (mk : dberr -> E) (f : stmt D A) : M D E A :=
  r ← try_exec f;
  match r with Ok a => mret a | Err e => raise (mk e) end.

(** [x, err := f()] where the code inspects [err] instead of returning it *)
Definition try {A} (m : M D E A) : M D E (result E A) := fun w =>
  let '(r, w') := m w in (Ok r, w').

Definition begin_tx (e : E) : M D E unit := fun w =>
  let '(ev, w1) := next_event w in
  match ev_fault ev with
  | NoFault => (Ok tt, set_tx (Some (w_db w1)) w1)
  | _ => (Err e, w1)
  end.

Definition commit (e : E) : M D E unit := fun w =>
  let '(ev, w1) := next_event w in
  let published := World (cur w1) None (w_now w1) (w_env w1) in
  match ev_fault ev with
  | NoFault => (Ok tt, published)
  | Unacked => (Err e, published)
  | Lost => (Err e, set_tx None w1)
  end.

(** [tx, err := pool.Begin(ctx); if err != nil { return e }; defer tx.Rollback(ctx)] *)
Definition with_tx {A} (e : E) (body : M D E A) : M D E A := fun w =>
  let '(r, w') := (begin_tx e ≫= fun _ => body) w in (r, set_tx None w').

(** [rand.Read(b[:])] *)
Definition rand_read (e : E) : M D E (list Z) := fun w =>
  let '(ev, w1) := next_event w in
  match ev_fault ev with NoFault => (Ok (ev_bytes ev), w1) | _ => (Err e, w1) end.

(** [time.Now()] *)
Definition app_now : M D E Z := fun w =>
  let '(ev, w1) := next_event w in (Ok (ev_app ev), w1).

(** [CURRENT_TIMESTAMP], [now()]: the time the transaction began, when this is its
    first step *)
Definition tx_clock : M D E Z := fun w => (Ok (pg_time (w_now w)), w).

(** [for _, x := range xs { ... }] with early error returns *)
Fixpoint for_each {A} (body : A -> M D E unit) (xs : list A) : M D E unit :=
  match xs with
  | [] => mret tt
  | x :: xs' => body x ≫= fun _ => for_each body xs'
  end.

Fixpoint map_each {A B} (body : A -> M D E B) (xs : list A) : M D E (list B) :=
  match xs with
  | [] => mret []
  | x :: xs' => b ← body x; bs ← map_each body xs'; mret (b :: bs)
  end.
End Operations.

(** Reads that leave the tables alone. *)
Definition read {D A} (f : Z -> D -> A) : stmt D A := fun _ now d => (Ok (f now d), d).
Definition write {D} (f : Z -> D -> D) : stmt D unit := fun _ now d => (Ok tt, f now d).

(** [SELECT ... LIMIT n] of rows already in order *)
Definition limit_rows {A} (n : Z) (l : list A) : result dberr (list A) :=
  if n <? 0 then Err DbFault else Ok (take (Z.to_nat n) l).

(** What [SELECT ... WHERE P ORDER BY R LIMIT n] of a table returns. *)
Lemma selected_rows {A} (m : gmap string A) (R : relation (string * A)) `{!RelDecision R}
    (P : string * A -> Prop) `{!forall x, Decision (P x)} n l :
  limit_rows n (merge_sort R (filter P (map_to_list m))) = Ok l ->
  NoDup l.*1 /\ (forall k v, (k, v) ∈ l -> m !! k = Some v /\ P (k, v)) /\ Z.of_nat (length l) <= n.
Proof.
  unfold limit_rows. destruct (n <? 0) eqn:Hn; [done|]. intros [= <-]. bool_to_prop.
  set (s := merge_sort R (filter P (map_to_list m))).
  assert (s ≡ₚ filter P (map_to_list m)) as Hp by apply merge_sort_Permutation.
  split_and!.
  - assert (NoDup s.*1) as Hs.
    { rewrite Hp. eapply sublist_NoDup; [apply (NoDup_fst_map_to_list m)|]. apply fmap_sublist, sublist_filter. }
    rewrite <- (take_drop (Z.to_nat n) s), fmap_app in Hs. by apply NoDup_app in Hs as [Hs _].
  - intros k v Hin. assert ((k, v) ∈ s) as Hin'.
    { rewrite <- (take_drop (Z.to_nat n) s). apply elem_of_app. by left. }
    rewrite Hp, list_elem_of_filter, elem_of_map_to_list in Hin'. tauto.
  - rewrite length_take. lia.
Qed.

(** With an order, what is returned comes before what is left out. *)
Lemma selected_first {A} (m : gmap string A) (R : relation (string * A)) `{!RelDecision R, !Total R, !Transitive R}
    (P : string * A -> Prop) `{!forall x, Decision (P x)} n x l k v :
  limit_rows n (merge_sort R (filter P (map_to_list m))) = Ok (x :: l) ->
  m !! k = Some v -> P (k, v) -> (k, v) = x \/ R x (k, v).
Proof.
  unfold limit_rows. destruct (n <? 0); [done|]. intros [= Ht] Hk HP.
  pose proof (StronglySorted_merge_sort R (filter P (map_to_list m))) as Hs.
  pose proof (merge_sort_Permutation R (filter P (map_to_list m))) as Hp.
  assert ((k, v) ∈ merge_sort R (filter P (map_to_list m))) as Hin.
  { rewrite Hp. apply list_elem_of_filter. split; [done|]. by apply elem_of_map_to_list. }
  destruct (merge_sort R _) as [|y s]; [by destruct (Z.to_nat n)|].
  destruct (Z.to_nat n); [done|]. simpl in Ht. injection Ht as -> _.
  apply elem_of_cons in Hin as [->|Hin]; [by left|right].
  apply StronglySorted_inv in Hs as [_ Hs]. rewrite Forall_forall in Hs. by apply Hs.
Qed.

Definition map_err {E F A} (f : E -> F) (r : result E A) : result F A :=
  match r with Ok a => Ok a | Err e => Err (f e) end.

(** A pure check inside database code: [if err := check(x); err != nil { return err }] *)
Definition lift {D E A} (r : result E A) : M D E A := fun w => (r, w).

(** ** Weakest preconditions *)

Section Wp.
Context {D E : Type}.
Implicit Types w : world D.

Definition wp {A} (m : M D E A) (Q : result E A -> world D -> Prop) (w : world D) : Prop :=
  Q (m w).1 (m w).2.

Lemma wp_ret {A} (a : A) Q w : Q (Ok a) w -> wp (mret a) Q w.
Proof. done. Qed.
Lemma wp_raise {A} e (Q : result E A -> _) w : Q (Err e) w -> wp (raise e) Q w.
Proof. done. Qed.
Lemma wp_lift {A} (r : result E A) Q w : Q r w -> wp (lift r) Q w.
Proof. done. Qed.
Lemma wp_guard bad e (Q : result E unit -> _) w :
  (bad = true -> Q (Err e) w) -> (bad = false -> Q (Ok tt) w) -> wp (guard_m bad e) Q w.
Proof. unfold guard_m. destruct bad; intros H1 H2; [by apply H1 | by apply H2]. Qed.
Lemma wp_mono {A} (m : M D E A) (Q R : result E A -> world D -> Prop) w :
  (forall r w', Q r w' -> R r w') -> wp m Q w -> wp m R w.
Proof. unfold wp. eauto. Qed.

Lemma wp_bind {A B} (m : M D E A) (k : A -> M D E B) Q w :
  wp m (fun r w' => match r with Ok a => wp (k a) Q w' | Err e => Q (Err e) w' end) w ->
  wp (m ≫= k) Q w.
Proof. unfold wp, mbind, M_bind. by destruct (m w) as [[a|e] w']. Qed.

Lemma wp_try_exec {A} (f : stmt D A) Q w :
  (forall ev w1, next_event w = (ev, w1) ->
     let '(r, d) := f (ev_locked ev) (w_now w1) (cur w1) in
     match ev_fault ev with
     | Lost => Q (Ok (Err DbFault)) w1
     | Unacked => Q (Ok (Err DbFault)) (set_cur d w1)
     | NoFault => Q (Ok r) (set_cur d w1)
     end) ->
  wp (try_exec f) Q w.
Proof.
  intros H. unfold wp, try_exec. destruct (next_event w) as [ev w1] eqn:Hn.
  specialize (H _ _ eq_refl). destruct (f _ _ _) as [r d]. by destruct (ev_fault ev).
Qed.

Lemma wp_exec {A} mk (f : stmt D A) (Q : result E A -> world D -> Prop) w :
  (forall ev w1, next_event w = (ev, w1) ->
     let '(r, d) := f (ev_locked ev) (w_now w1) (cur w1) in
     match ev_fault ev with
     | Lost => Q (Err (mk DbFault)) w1
     | Unacked => Q (Err (mk DbFault)) (set_cur d w1)
     | NoFault => match r with
                  | Ok a => Q (Ok a) (set_cur d w1)
                  | Err e => Q (Err (mk e)) (set_cur d w1)
                  end
     end) ->
  wp (exec mk f) Q w.
Proof.
  intros H. apply wp_bind, wp_try_exec. intros ev w1 Hn. specialize (H _ _ Hn).
  destruct (f _ _ _) as [[a|e] d]; by destruct (ev_fault ev).
Qed.
End Wp.

(** ** Rely/guarantee reasoning about the committed tables

    [G] relates the tables before and after; the script's other sessions are
    assumed to respect it ([rely]) and an operation is shown to keep it. *)

Section Keeps.
Context {D E : Type} (G : D -> D -> Prop) `{!PreOrder G}.
Implicit Types w : world D.

Definition rely (env : list (event D)) : Prop :=
  Forall (fun ev => forall d, G d (ev_other ev d)) env.

Definition inv_from (d0 : D) w : Prop :=
  G d0 (w_db w) /\ (forall t, w_tx w = Some t -> G (w_db w) t) /\ rely (w_env w).

Definition keeps {A} (m : M D E A) : Prop :=
  forall d0 w, inv_from d0 w -> inv_from d0 (m w).2.

Lemma rely_tl env : rely env -> rely (tl env).
Proof. unfold rely. destruct env; [done|]. by inversion 1. Qed.

Lemma rely_next w ev w1 d0 :
  next_event w = (ev, w1) -> inv_from d0 w ->
  inv_from d0 w1 /\ w_tx w1 = w_tx w /\ (is_Some (w_tx w) -> w_db w1 = w_db w).
Proof using Type*.
  unfold next_event. intros [= <- <-] (H1 & H2 & H3). unfold inv_from; simpl.
  destruct w as [db tx now env]; simpl in *.
  assert (forall d, G d (ev_other (hd quiet env) d)) as Hhd.
  { destruct env as [|e env]; simpl; [reflexivity|]. by inversion H3. }
  destruct tx as [t|]; simpl.
  - repeat split; auto using rely_tl.
  - repeat split; try done.
    + by transitivity db.
    + by apply rely_tl.
Qed.

Lemma inv_set_cur d0 d w :
  inv_from d0 w -> G (cur w) d -> inv_from d0 (set_cur d w).
Proof using Type*.
  unfold inv_from, cur, set_cur. destruct w as [db [t|] now env]; simpl.
  - intros (H1 & H2 & H3) Hd. repeat split; auto. intros t' [= <-].
    transitivity t; auto.
  - intros (H1 & _ & H3) Hd. repeat split; auto; [by transitivity db | done].
Qed.

Lemma inv_set_tx_none d0 w : inv_from d0 w -> inv_from d0 (set_tx None w).
Proof. unfold inv_from; simpl. naive_solver. Qed.

Lemma keeps_ret {A} (a : A) : keeps (mret a).
Proof. by intros d0 w. Qed.
Lemma keeps_raise {A} e : keeps (raise (A:=A) e).
Proof. by intros d0 w. Qed.
Lemma keeps_lift {A} (r : result E A) : keeps (lift r).
Proof. by intros d0 w. Qed.
Lemma keeps_guard b e : keeps (guard_m b e).
Proof. destruct b; by intros d0 w. Qed.
Lemma keeps_bind {A B} (m : M D E A) (k : A -> M D E B) :
  keeps m -> (forall a, keeps (k a)) -> keeps (m ≫= k).
Proof.
  intros Hm Hk d0 w Hw. specialize (Hm d0 w Hw). unfold mbind, M_bind.
  destruct (m w) as [[a|e] w']; simpl in *; [by apply Hk | done].
Qed.
Lemma keeps_try {A} (m : M D E A) : keeps m -> keeps (try m).
Proof.
  intros Hm d0 w Hw. specialize (Hm d0 w Hw). unfold try. by destruct (m w).
Qed.

Lemma keeps_try_exec {A} (f : stmt D A) :
  (forall lk now d, G d (f lk now d).2) -> keeps (try_exec (E:=E) f).
Proof using Type*.
  intros Hf d0 w Hw. unfold try_exec. destruct (next_event w) as [ev w1] eqn:Hn.
  apply (rely_next _ _ _ d0) in Hn as (Hi & _ & _); [|done].
  specialize (Hf (ev_locked ev) (w_now w1) (cur w1)).
  destruct (f _ _ _) as [r d]. destruct (ev_fault ev); simpl in *; auto using inv_set_cur.
Qed.
Lemma keeps_exec {A} mk (f : stmt D A) :
  (forall lk now d, G d (f lk now d).2) -> keeps (exec mk f).
Proof using Type*.
  intros Hf. apply keeps_bind; [by apply keeps_try_exec|].
  intros [a|e]; [apply keeps_ret | apply keeps_raise].
Qed.
Lemma keeps_read {A} mk (f : Z -> D -> A) : keeps (exec mk (read f)).
Proof using Type*. apply keeps_exec. intros; simpl; reflexivity. Qed.

Lemma keeps_rand e : keeps (rand_read e).
Proof using Type*.
  intros d0 w Hw. unfold rand_read. destruct (next_event w) as [ev w1] eqn:Hn.
  apply (rely_next _ _ _ d0) in Hn as (Hi & _ & _); [|done]. by destruct (ev_fault ev).
Qed.
Lemma keeps_app_now : keeps app_now.
Proof using Type*.
  intros d0 w Hw. unfold app_now. destruct (next_event w) as [ev w1] eqn:Hn.
  by apply (rely_next _ _ _ d0) in Hn as (Hi & _ & _).
Qed.
Lemma keeps_commit e : keeps (commit e).
Proof using Type*.
  intros d0 w Hw. unfold commit. destruct (next_event w) as [ev w1] eqn:Hn.
  apply (rely_next _ _ _ d0) in Hn as (Hi & _ & _); [|done].
  assert (inv_from d0 (World (cur w1) None (w_now w1) (w_env w1))).
  { destruct Hi as (H1 & H2 & H3). unfold cur. repeat split; try done; simpl.
    destruct (w_tx w1) as [t|]; simpl; [|done]. transitivity (w_db w1); auto. }
  destruct (ev_fault ev); simpl; auto using inv_set_tx_none.
Qed.
Lemma keeps_begin e : keeps (begin_tx e).
Proof using Type*.
  intros d0 w Hw. unfold begin_tx. destruct (next_event w) as [ev w1] eqn:Hn.
  apply (rely_next _ _ _ d0) in Hn as (Hi & _ & _); [|done].
  destruct (ev_fault ev); simpl; auto.
  destruct Hi as (H1 & H2 & H3). repeat split; try done; simpl. by intros t [= <-].
Qed.
Lemma keeps_with_tx {A} e (m : M D E A) : keeps m -> keeps (with_tx e m).
Proof using Type*.
  intros Hm. assert (keeps (begin_tx e ≫= fun _ => m)) as Hb by (apply keeps_bind; [apply keeps_begin|done]).
  intros d0 w Hw. specialize (Hb d0 w Hw). unfold with_tx. destruct ((begin_tx e ≫= fun _ => m) w) as [r w']. by apply inv_set_tx_none.
Qed.
Lemma keeps_tx_clock : keeps tx_clock.
Proof. by intros d0 w Hw. Qed.
Lemma keeps_for_each {A} (body : A -> M D E unit) xs :
  (forall x, keeps (body x)) -> keeps (for_each body xs).
Proof.
  intros Hb. induction xs as [|x xs IH]; simpl; [apply keeps_ret|].
  apply keeps_bind; auto.
Qed.
Lemma keeps_map_each {A B} (body : A -> M D E B) xs :
  (forall x, keeps (body x)) -> keeps (map_each body xs).
Proof.
  intros Hb. induction xs as [|x xs IH]; simpl; [apply keeps_ret|].
  apply keeps_bind; auto. intros b. apply keeps_bind; auto. intros. apply keeps_ret.
Qed.

(** The conclusion used by clients. *)
Lemma keeps_sound {A} (m : M D E A) w :
  keeps m -> rely (w_env w) -> w_tx w = None -> G (w_db w) (w_db (m w).2).
Proof using Type*.
  intros Hm Hr Ht. apply (Hm (w_db w) w). repeat split; [reflexivity| |done]. by rewrite Ht.
Qed.
End Keeps.

(** ** Functional specifications of transactions

    Inside a transaction the committed tables [db] do not move and the private
    copy [t] is this code's own, so what a transaction computes is a function
    of the tables it found, the clock, the locks and the faults.  [twp m Q db t]:
    run in such a transaction, [m] ends with a result, committed tables and
    private copy that satisfy [Q], having consumed a prefix of the script. *)

Section Twp.
Context {D E : Type}.
Implicit Types w : world D.

Definition later w w' : Prop := exists n, w_env w' = drop n (w_env w).

Lemma later_refl w : later w w.
Proof. by exists 0%nat. Qed.
Lemma later_trans w1 w2 w3 : later w1 w2 -> later w2 w3 -> later w1 w3.
Proof. intros [n Hn] [m Hm]. exists (n + m)%nat. by rewrite Hm, Hn, drop_drop. Qed.
Lemma later_next w ev w1 : next_event w = (ev, w1) -> later w w1.
Proof. unfold next_event. intros [= _ <-]. exists 1%nat. simpl. by destruct (w_env w). Qed.
Lemma later_env w w1 w2 : later w w1 -> w_env w2 = w_env w1 -> later w w2.
Proof. intros [n Hn] He. exists n. congruence. Qed.

Definition twp {A} (m : M D E A) (Q : result E A -> D -> option D -> Prop) (db t : D) : Prop :=
  forall w, w_db w = db -> w_tx w = Some t ->
    Q (m w).1 (w_db (m w).2) (w_tx (m w).2) /\ later w (m w).2.

Lemma twp_ret {A} (a : A) (Q : result E A -> _) db t : Q (Ok a) db (Some t) -> twp (mret a) Q db t.
Proof. intros H w <- Ht. simpl. rewrite Ht. auto using later_refl. Qed.
Lemma twp_raise {A} e (Q : result E A -> _) db t : Q (Err e) db (Some t) -> twp (raise e) Q db t.
Proof. intros H w <- Ht. simpl. rewrite Ht. auto using later_refl. Qed.
Lemma twp_lift {A} (r : result E A) Q db t : Q r db (Some t) -> twp (lift r) Q db t.
Proof. intros H w <- Ht. simpl. rewrite Ht. auto using later_refl. Qed.
Lemma twp_mono {A} (m : M D E A) (Q R : result E A -> D -> option D -> Prop) db t :
  twp m Q db t -> (forall r db' tx', Q r db' tx' -> R r db' tx') -> twp m R db t.
Proof. intros H HQ w H1 H2. destruct (H w H1 H2). auto. Qed.

Lemma twp_bind {A B} (m : M D E A) (k : A -> M D E B) Q db t :
  twp m (fun r db' tx' =>
    match r with
    | Ok a => exists t', tx' = Some t' /\ twp (k a) Q db' t'
    | Err e => Q (Err e) db' tx'
    end) db t ->
  twp (m ≫= k) Q db t.
Proof.
  intros H w Hdb Htx. destruct (H w Hdb Htx) as [Hm Hl]. unfold mbind, M_bind.
  destruct (m w) as [[a|e] w']; simpl in *; [|done].
  destruct Hm as (t' & Ht' & Hk). destruct (Hk w' eq_refl Ht'). eauto using later_trans.
Qed.

(** A last statement whose result is returned. *)
Lemma twp_ret_id {A} (m : M D E A) Q db t : twp (m ≫= fun a => mret a) Q db t -> twp m Q db t.
Proof.
  intros H w Hdb Htx. specialize (H w Hdb Htx). revert H. unfold mbind, M_bind, mret, M_ret.
  by destruct (m w) as [[a|e] w'].
Qed.

(** Early returns: [if bad { return e }]. *)
Lemma twp_guard {B} bad e (k : unit -> M D E B) Q db t :
  Q (Err e) db (Some t) -> (bad = false -> twp (k tt) Q db t) ->
  twp (guard_m bad e ≫= k) Q db t.
Proof.
  intros He Hk. apply twp_bind. destruct bad; simpl.
  - by apply twp_raise.
  - apply twp_ret. eauto.
Qed.

Lemma next_in_tx w ev w1 t :
  next_event w = (ev, w1) -> w_tx w = Some t ->
  w_db w1 = w_db w /\ w_tx w1 = Some t /\ cur w1 = t /\ later w w1.
Proof.
  intros Hn Ht. split_and!; [..|by eapply later_next];
    revert Hn; unfold next_event, cur; intros [= <- <-]; simpl; by rewrite Ht.
Qed.
Lemma set_cur_in_tx w d t :
  w_tx w = Some t ->
  w_db (set_cur d w) = w_db w /\ w_tx (set_cur d w) = Some d /\ w_env (set_cur d w) = w_env w.
Proof. unfold set_cur. intros ->. done. Qed.

(** One statement: its outcome, or a fault after which the private copy may
    or may not have moved. *)
Lemma try_exec_in_tx {A} (f : stmt D A) w t :
  w_tx w = Some t -> exists r t' w',
    try_exec (E:=E) f w = (Ok r, w') /\ w_db w' = w_db w /\ w_tx w' = Some t' /\ later w w' /\
    ((exists lk now, f lk now t = (r, t')) \/ r = Err DbFault).
Proof.
  intros Htx. unfold try_exec. destruct (next_event w) as [ev w1] eqn:Hn.
  destruct (next_in_tx _ _ _ _ Hn Htx) as (H1 & H2 & H3 & H4). rewrite H3.
  destruct (f (ev_locked ev) (w_now w1) t) as [r d] eqn:Hf.
  destruct (set_cur_in_tx w1 d t H2) as (S1 & S2 & S3).
  destruct (ev_fault ev).
  - exists r, d, (set_cur d w1). rewrite S1. eauto 10 using later_env.
  - exists (Err DbFault), t, w1. eauto 10.
  - exists (Err DbFault), d, (set_cur d w1). rewrite S1. eauto 10 using later_env.
Qed.

(** A statement whose driver error the code inspects, and the code after it. *)
Lemma twp_try_exec {A B} (f : stmt D A) (k : result dberr A -> M D E B) Q db t :
  (forall lk now, match f lk now t with (r, t') => twp (k r) Q db t' end) ->
  (forall t', twp (k (Err DbFault)) Q db t') ->
  twp (try_exec f ≫= k) Q db t.
Proof.
  intros Hf Hfault w Hdb Htx. unfold mbind, M_bind.
  destruct (try_exec_in_tx f w t Htx) as (r & t' & w' & -> & H1 & H2 & H3 & H4).
  assert (twp (k r) Q db t') as Hk.
  { destruct H4 as [(lk & now & Hr)| ->]; [|apply Hfault]. specialize (Hf lk now). by rewrite Hr in Hf. }
  destruct (Hk w'); [congruence|done|]. eauto using later_trans.
Qed.

(** A statement whose driver error the code returns. *)
Lemma twp_exec {A B} mk (f : stmt D A) (k : A -> M D E B) Q db t :
  (forall lk now, match f lk now t with
                  | (Ok a, t') => twp (k a) Q db t'
                  | (Err e, t') => Q (Err (mk e)) db (Some t')
                  end) ->
  (forall t', Q (Err (mk DbFault)) db (Some t')) ->
  twp (exec mk f ≫= k) Q db t.
Proof.
  intros Hf Hfault w Hdb Htx. unfold exec, mbind, M_bind.
  destruct (try_exec_in_tx f w t Htx) as (r & t' & w' & -> & H1 & H2 & H3 & H4). subst db.
  assert (match r with Ok a => twp (k a) Q (w_db w) t' | Err e => Q (Err (mk e)) (w_db w) (Some t') end) as Hr.
  { destruct H4 as [(lk & now & Hr)| ->]; [|apply Hfault]. specialize (Hf lk now). by rewrite Hr in Hf. }
  destruct r as [a|e]; simpl.
  - destruct (Hr w'); [done..|]. eauto using later_trans.
  - rewrite H1, H2. auto.
Qed.

Lemma twp_rand {B} e (k : list Z -> M D E B) Q db t :
  (forall bs, twp (k bs) Q db t) -> Q (Err e) db (Some t) -> twp (rand_read e ≫= k) Q db t.
Proof.
  intros Hk He w Hdb Htx. unfold rand_read, mbind, M_bind.
  destruct (next_event w) as [ev w1] eqn:Hn.
  destruct (next_in_tx _ _ _ _ Hn Htx) as (H1 & H2 & H3 & H4).
  destruct (ev_fault ev); simpl; [|by rewrite H1, H2, Hdb..].
  destruct (Hk (ev_bytes ev) w1); [congruence|done|]. eauto using later_trans.
Qed.

Lemma twp_app_now {B} (k : Z -> M D E B) Q db t : (forall now, twp (k now) Q db t) -> twp (app_now ≫= k) Q db t.
Proof.
  intros Hk w Hdb Htx. unfold app_now, mbind, M_bind. destruct (next_event w) as [ev w1] eqn:Hn.
  destruct (next_in_tx _ _ _ _ Hn Htx) as (H1 & H2 & _ & H4). destruct (Hk (ev_app ev) w1) as [HQ Hl]; [congruence|done|].
  eauto using later_trans.
Qed.

Lemma twp_tx_clock {B} (k : Z -> M D E B) Q db t : (forall now, twp (k now) Q db t) -> twp (tx_clock ≫= k) Q db t.
Proof. intros Hk w Hdb Htx. unfold tx_clock, mbind, M_bind. exact (Hk _ w Hdb Htx). Qed.

(** [return x, tx.Commit(ctx)] and [if err := tx.Commit(ctx); err != nil {...}; return x] *)
Lemma twp_commit_bind {A} e (k : unit -> M D E A) (Q : result E A -> D -> option D -> Prop) db t :
  (forall w, w_db w = t -> w_tx w = None ->
     Q (k tt w).1 (w_db (k tt w).2) (w_tx (k tt w).2) /\ later w (k tt w).2) ->
  Q (Err e) t None -> Q (Err e) db None ->
  twp (commit e ≫= k) Q db t.
Proof.
  intros Hk H2 H3 w Hdb Htx. unfold commit, mbind, M_bind.
  destruct (next_event w) as [ev w1] eqn:Hn.
  destruct (next_in_tx _ _ _ _ Hn Htx) as (H4 & H5 & H6 & H7). rewrite H6.
  destruct (ev_fault ev); simpl.
  - destruct (Hk (World t None (w_now w1) (w_env w1)) eq_refl eq_refl) as [HQ Hl].
    split; [done|]. eapply later_trans; [|exact Hl]. by eapply later_env.
  - rewrite H4, Hdb. split; [done|]. by eapply later_env.
  - split; [done|]. by eapply later_env.
Qed.
Lemma twp_commit {B} e (x : B) (Q : result E B -> D -> option D -> Prop) db t :
  Q (Ok x) t None -> Q (Err e) t None -> Q (Err e) db None ->
  twp (commit e ≫= fun _ => mret x) Q db t.
Proof.
  intros H1 H2 H3. apply twp_commit_bind; [|done|done]. intros w <- Ht.
  simpl. rewrite Ht. auto using later_refl.
Qed.
Lemma twp_commit_raise {B} e e' (Q : result E B -> D -> option D -> Prop) db t :
  Q (Err e') t None -> Q (Err e) t None -> Q (Err e) db None ->
  twp (commit e ≫= fun _ => raise e') Q db t.
Proof.
  intros H1 H2 H3. apply twp_commit_bind; [|done|done]. intros w <- Ht.
  simpl. rewrite Ht. auto using later_refl.
Qed.

(** Loops by an invariant on the elements still to visit. *)
Lemma twp_for_each {A B} (inv : list A -> D -> Prop) (body : A -> M D E unit) xs
    (k : unit -> M D E B) Q db t :
  (forall x xs' t', inv (x :: xs') t' ->
     twp (body x) (fun r db' tx' =>
       match r with
       | Ok _ => db' = db /\ exists t'', tx' = Some t'' /\ inv xs' t''
       | Err e => Q (Err e) db' tx'
       end) db t') ->
  inv xs t -> (forall t', inv [] t' -> twp (k tt) Q db t') ->
  twp (for_each body xs ≫= k) Q db t.
Proof.
  intros Hb Hi Hk. apply twp_bind. revert t Hi. induction xs as [|x xs IH]; intros t Hi; simpl.
  - apply twp_ret. eauto.
  - apply twp_bind. eapply twp_mono; [by apply Hb|]. intros [[]|e] db' tx'; [|done].
    intros (-> & t' & -> & Hi'). exists t'. split; [done|]. by apply IH.
Qed.

Lemma twp_map_each {A B C} (inv : list A -> list B -> D -> Prop) (body : A -> M D E B) xs
    (k : list B -> M D E C) Q db t :
  (forall x xs' done t', inv (x :: xs') done t' ->
     twp (body x) (fun r db' tx' =>
       match r with
       | Ok b => db' = db /\ exists t'', tx' = Some t'' /\ inv xs' (done ++ [b]) t''
       | Err e => Q (Err e) db' tx'
       end) db t') ->
  inv xs [] t -> (forall bs t', inv [] bs t' -> twp (k bs) Q db t') ->
  twp (map_each body xs ≫= k) Q db t.
Proof.
  intros Hb Hi Hk. apply twp_bind.
  enough (forall done, inv xs done t ->
    twp (map_each body xs) (fun r db' tx' =>
      match r with
      | Ok bs => db' = db /\ exists t', tx' = Some t' /\ inv [] (done ++ bs) t'
      | Err e => Q (Err e) db' tx'
      end) db t) as Hloop.
  { eapply twp_mono; [by apply (Hloop [])|]. intros [bs|e] db' tx'; [|done].
    intros (-> & t' & -> & Hi'). exists t'. split; [done|]. by apply Hk. }
  clear Hi Hk. revert t. induction xs as [|x xs IH]; intros t done Hi; simpl.
  - apply twp_ret. rewrite app_nil_r. eauto.
  - apply twp_bind. eapply twp_mono; [by apply Hb|]. intros [b|e] db' tx'; [|done].
    intros (-> & t' & -> & Hi'). exists t'. split; [done|].
    apply twp_bind. eapply twp_mono; [by apply IH|]. intros [bs|e] db' tx'; [|done].
    intros (-> & t'' & -> & Hi''). exists t''. split; [done|]. apply twp_ret.
    split; [done|]. exists t''. split; [done|]. by rewrite <- app_assoc in Hi''.
Qed.

(** What a transaction run from outside leaves, in terms of the tables it
    found when it began. *)
Definition found (w : world D) : D := w_db (next_event w).2.

Lemma with_tx_spec {A} e (m : M D E A) (R : result E A -> D -> Prop) w :
  w_tx w = None -> R (Err e) (found w) ->
  twp m (fun r db' _ => R r db') (found w) (found w) ->
  R (with_tx e m w).1 (w_db (with_tx e m w).2).
Proof.
  intros Htx He Hm. unfold with_tx, mbind, M_bind, begin_tx, found in *.
  destruct (next_event w) as [ev w1] eqn:Hn. simpl in *.
  destruct (ev_fault ev); simpl; [|done|done].
  destruct (Hm (set_tx (Some (w_db w1)) w1) eq_refl eq_refl) as [HR _].
  by destruct (m _) as [r w'].
Qed.

Lemma with_tx_closed {A} e (m : M D E A) w : w_tx (with_tx e m w).2 = None.
Proof. unfold with_tx. by destruct ((begin_tx e ≫= fun _ => m) w). Qed.
End Twp.

Section KeepsTwp.
Context {D E : Type} (G : D -> D -> Prop) `{!PreOrder G}.

(** A transaction keeps [G] when whatever it publishes does. *)
Lemma keeps_with_tx_twp {A} e (m : M D E A) :
  (forall d, twp m (fun _ db' _ => G d db') d d) -> keeps G (with_tx e m).
Proof using Type*.
  intros Hm d0 w Hw. unfold with_tx, mbind, M_bind, begin_tx.
  destruct (next_event w) as [ev w1] eqn:Hn.
  apply (rely_next G _ _ _ d0) in Hn as (Hi & _ & _); [|done].
  destruct (ev_fault ev); simpl; try by apply inv_set_tx_none.
  destruct (Hm (w_db w1) (set_tx (Some (w_db w1)) w1) eq_refl eq_refl) as [HG [n Hn]].
  destruct (m _) as [r w']; simpl in *. destruct Hi as (H1 & _ & H3).
  repeat split; simpl; [by transitivity (w_db w1)|done|].
  unfold rely in *. rewrite Hn. by apply Forall_drop.
Qed.
End KeepsTwp.

(** ** Code outside transactions, while no other session interferes

    [qwp m Q db]: from the committed tables [db], with a script whose events
    may fail, delay and lock but in which no other session changes the tables,
    [m] ends with a result and committed tables that satisfy [Q]. *)

Section Qwp.
Context {D E : Type}.
Implicit Types w : world D.

Definition calm (env : list (event D)) : Prop := Forall (fun ev => forall d, ev_other ev d = d) env.

Definition qwp {A} (m : M D E A) (Q : result E A -> D -> Prop) (db : D) : Prop :=
  forall w, w_db w = db -> w_tx w = None -> calm (w_env w) ->
    Q (m w).1 (w_db (m w).2) /\ w_tx (m w).2 = None /\ calm (w_env (m w).2).

Lemma calm_next w ev w1 :
  next_event w = (ev, w1) -> w_tx w = None -> calm (w_env w) ->
  w_db w1 = w_db w /\ w_tx w1 = None /\ calm (w_env w1).
Proof.
  unfold next_event. intros [= <- <-] Ht Hc. simpl. rewrite Ht. destruct (w_env w) as [|e env]; simpl.
  - done.
  - inversion Hc; subst. auto.
Qed.

Lemma qwp_ret {A} (a : A) (Q : result E A -> D -> Prop) db : Q (Ok a) db -> qwp (mret a) Q db.
Proof. by intros H w <- ? ?. Qed.
Lemma qwp_raise {A} e (Q : result E A -> D -> Prop) db : Q (Err e) db -> qwp (raise e) Q db.
Proof. by intros H w <- ? ?. Qed.
Lemma qwp_lift {A} (r : result E A) Q db : Q r db -> qwp (lift r) Q db.
Proof. by intros H w <- ? ?. Qed.
Lemma qwp_mono {A} (m : M D E A) (Q R : result E A -> D -> Prop) db :
  qwp m Q db -> (forall r db', Q r db' -> R r db') -> qwp m R db.
Proof. intros H HQ w H1 H2 H3. destruct (H w H1 H2 H3). auto. Qed.
Lemma qwp_bind {A B} (m : M D E A) (k : A -> M D E B) Q db :
  qwp m (fun r db' => match r with Ok a => qwp (k a) Q db' | Err e => Q (Err e) db' end) db ->
  qwp (m ≫= k) Q db.
Proof.
  intros H w H1 H2 H3. destruct (H w H1 H2 H3) as (Hm & Ht & Hc). unfold mbind, M_bind.
  destruct (m w) as [[a|e] w']; simpl in *; [by apply Hm|done].
Qed.
Lemma qwp_try {A} (m : M D E A) (Q : result E (result E A) -> D -> Prop) db :
  qwp m (fun r db' => Q (Ok r) db') db -> qwp (try m) Q db.
Proof.
  intros H w H1 H2 H3. specialize (H w H1 H2 H3). unfold try. by destruct (m w).
Qed.
Lemma qwp_guard bad e (Q : result E unit -> D -> Prop) db :
  (bad = true -> Q (Err e) db) -> (bad = false -> Q (Ok tt) db) -> qwp (guard_m bad e) Q db.
Proof. intros H1 H2. destruct bad; [apply qwp_raise|apply qwp_ret]; auto. Qed.

Lemma qwp_exec {A} mk (f : stmt D A) (Q : result E A -> D -> Prop) db :
  (forall lk now, match f lk now db with
                  | (Ok a, d) => Q (Ok a) d /\ Q (Err (mk DbFault)) d
                  | (Err e, d) => Q (Err (mk e)) d /\ Q (Err (mk DbFault)) d
                  end) ->
  Q (Err (mk DbFault)) db -> qwp (exec mk f) Q db.
Proof.
  intros Hf He w <- Ht Hc. unfold exec, try_exec, mbind, M_bind, mret, M_ret, raise.
  destruct (next_event w) as [ev w1] eqn:Hn.
  destruct (calm_next _ _ _ Hn Ht Hc) as (H1 & H2 & H3).
  assert (cur w1 = w_db w) as -> by (unfold cur; by rewrite H2, H1).
  assert (forall d, set_cur d w1 = World d None (w_now w1) (w_env w1)) as Hs
    by (intros; unfold set_cur; by rewrite H2).
  specialize (Hf (ev_locked ev) (w_now w1)). destruct (f _ _ _) as [[a|e] d];
    destruct (ev_fault ev); simpl; rewrite ?Hs; simpl; rewrite ?H1; tauto.
Qed.
Lemma qwp_try_exec {A} (f : stmt D A) (Q : result E (result dberr A) -> D -> Prop) db :
  (forall lk now, let '(r, d) := f lk now db in Q (Ok r) d /\ Q (Ok (Err DbFault)) d) ->
  Q (Ok (Err DbFault)) db -> qwp (try_exec f) Q db.
Proof.
  intros Hf He w <- Ht Hc. unfold try_exec. destruct (next_event w) as [ev w1] eqn:Hn.
  destruct (calm_next _ _ _ Hn Ht Hc) as (H1 & H2 & H3).
  assert (cur w1 = w_db w) as -> by (unfold cur; by rewrite H2, H1).
  assert (forall d, set_cur d w1 = World d None (w_now w1) (w_env w1)) as Hs
    by (intros; unfold set_cur; by rewrite H2).
  specialize (Hf (ev_locked ev) (w_now w1)). destruct (f _ _ _) as [r d].
  destruct (ev_fault ev); simpl; rewrite ?Hs; simpl; rewrite ?H1; tauto.
Qed.
Lemma qwp_rand e (Q : result E (list Z) -> D -> Prop) db :
  (forall bs, Q (Ok bs) db) -> Q (Err e) db -> qwp (rand_read e) Q db.
Proof.
  intros Hk He w <- Ht Hc. unfold rand_read. destruct (next_event w) as [ev w1] eqn:Hn.
  destruct (calm_next _ _ _ Hn Ht Hc) as (H1 & H2 & H3). destruct (ev_fault ev); simpl; rewrite H1; auto.
Qed.
Lemma qwp_app_now (Q : result E Z -> D -> Prop) db : (forall now, Q (Ok now) db) -> qwp app_now Q db.
Proof.
  intros HQ w <- Ht Hc. unfold app_now. destruct (next_event w) as [ev w1] eqn:Hn.
  destruct (calm_next _ _ _ Hn Ht Hc) as (H1 & H2 & H3). simpl. rewrite H1. auto.
Qed.
Lemma qwp_read {A} mk (f : Z -> D -> A) (Q : result E A -> D -> Prop) db :
  (forall now, Q (Ok (f now db)) db) -> Q (Err (mk DbFault)) db -> qwp (exec mk (read f)) Q db.
Proof. intros H1 H2. apply qwp_exec; simpl; auto. Qed.

(** Loops that keep a fact about the committed tables and do not fail. *)
Lemma qwp_for_each {A} (inv : D -> Prop) (body : A -> M D E unit) xs db :
  (forall x db', x ∈ xs -> inv db' -> qwp (body x) (fun r db'' => r = Ok tt /\ inv db'') db') ->
  inv db -> qwp (for_each body xs) (fun r db' => r = Ok tt /\ inv db') db.
Proof.
  revert db. induction xs as [|x xs IH]; intros db Hb Hi; simpl; [by apply qwp_ret|].
  apply qwp_bind. eapply qwp_mono; [apply Hb; [left|done]|]. intros r db' [-> Hi'].
  apply IH; [|done]. intros y db'' Hy. apply Hb. by right.
Qed.

Lemma qwp_with_tx {A} e (m : M D E A) (Q : result E A -> D -> Prop) db :
  twp m (fun r db' _ => Q r db') db db -> Q (Err e) db -> qwp (with_tx e m) Q db.
Proof.
  intros Hm He w <- Ht Hc. split_and!.
  - apply with_tx_spec; [done|..]; unfold found; destruct (next_event w) as [ev w1] eqn:Hn;
      destruct (calm_next _ _ _ Hn Ht Hc) as (H1 & _); simpl; by rewrite H1.
  - apply with_tx_closed.
  - unfold with_tx, mbind, M_bind, begin_tx. destruct (next_event w) as [ev w1] eqn:Hn.
    destruct (calm_next _ _ _ Hn Ht Hc) as (H1 & _ & H3). destruct (ev_fault ev); simpl; [|done|done].
    destruct (Hm (set_tx (Some (w_db w1)) w1)) as [_ [n Hl]]; [done|simpl; by rewrite H1|].
    destruct (m _) as [r w']; simpl in *. rewrite Hl. by apply Forall_drop.
Qed.
End Qwp.

(** ** Code outside transactions, among sessions that keep [G]

    [rwp G m Q d]: from the committed tables [d], under any failures and with
    other sessions changing the tables within [G] whenever they can, [m] ends with
    a result and committed tables that satisfy [Q]. *)

Section Rwp.
Context {D E : Type} (G : D -> D -> Prop) `{!PreOrder G}.
Implicit Types w : world D.

Definition rwp {A} (m : M D E A) (Q : result E A -> D -> Prop) (d : D) : Prop :=
  forall w, w_db w = d -> w_tx w = None -> rely G (w_env w) ->
    Q (m w).1 (w_db (m w).2) /\ w_tx (m w).2 = None /\ rely G (w_env (m w).2).

Lemma rely_step w ev w1 :
  next_event w = (ev, w1) -> w_tx w = None -> rely G (w_env w) ->
  G (w_db w) (w_db w1) /\ w_tx w1 = None /\ rely G (w_env w1).
Proof using Type*.
  unfold next_event. intros [= <- <-] Ht Hr. simpl. rewrite Ht.
  destruct (w_env w) as [|e env]; simpl; [done|]. by inversion Hr.
Qed.

Lemma rwp_ret {A} (a : A) (Q : result E A -> D -> Prop) d : Q (Ok a) d -> rwp (mret a) Q d.
Proof. by intros H w <- ? ?. Qed.
Lemma rwp_raise {A} e (Q : result E A -> D -> Prop) d : Q (Err e) d -> rwp (raise e) Q d.
Proof. by intros H w <- ? ?. Qed.
Lemma rwp_mono {A} (m : M D E A) (Q R : result E A -> D -> Prop) d :
  rwp m Q d -> (forall r d', Q r d' -> R r d') -> rwp m R d.
Proof. intros H HQ w H1 H2 H3. destruct (H w H1 H2 H3). auto. Qed.
Lemma rwp_bind {A B} (m : M D E A) (k : A -> M D E B) Q d :
  rwp m (fun r d' => match r with Ok a => rwp (k a) Q d' | Err e => Q (Err e) d' end) d ->
  rwp (m ≫= k) Q d.
Proof.
  intros H w H1 H2 H3. destruct (H w H1 H2 H3) as (Hm & Ht & Hc). unfold mbind, M_bind.
  destruct (m w) as [[a|e] w']; simpl in *; [by apply Hm|done].
Qed.
Lemma rwp_try {A} (m : M D E A) (Q : result E (result E A) -> D -> Prop) d :
  rwp m (fun r d' => Q (Ok r) d') d -> rwp (try m) Q d.
Proof. intros H w H1 H2 H3. specialize (H w H1 H2 H3). unfold try. by destruct (m w). Qed.

Lemma rwp_try_exec {A} (f : stmt D A) (Q : result E (result dberr A) -> D -> Prop) d :
  (forall lk now d1, G d d1 -> let '(r, d2) := f lk now d1 in Q (Ok r) d2 /\ Q (Ok (Err DbFault)) d2 /\ Q (Ok (Err DbFault)) d1) ->
  rwp (try_exec f) Q d.
Proof using Type*.
  intros Hf w <- Ht Hr. unfold try_exec. destruct (next_event w) as [ev w1] eqn:Hn.
  destruct (rely_step _ _ _ Hn Ht Hr) as (H1 & H2 & H3).
  assert (cur w1 = w_db w1) as -> by (unfold cur; by rewrite H2).
  specialize (Hf (ev_locked ev) (w_now w1) (w_db w1) H1). unfold set_cur. rewrite H2.
  destruct (f _ _ _) as [r d2]. destruct (ev_fault ev); simpl; tauto.
Qed.
Lemma rwp_read {A} mk (f : Z -> D -> A) (Q : result E A -> D -> Prop) d :
  (forall now d1, G d d1 -> Q (Ok (f now d1)) d1) -> (forall d1, G d d1 -> Q (Err (mk DbFault)) d1) ->
  rwp (exec mk (read f)) Q d.
Proof using Type*.
  intros H1 H2. unfold exec. apply rwp_bind, rwp_try_exec. intros lk now d1 HG. cbn [read].
  split_and!; [apply rwp_ret|apply rwp_raise|apply rwp_raise]; auto.
Qed.

(** Code that leaves no transaction open. *)
Definition closed {A} (m : M D E A) : Prop := forall w, w_tx w = None -> w_tx (m w).2 = None.

Lemma closed_ret {A} (a : A) : closed (mret a).
Proof. by intros w. Qed.
Lemma closed_raise {A} e : closed (raise (A:=A) e).
Proof. by intros w. Qed.
Lemma closed_lift {A} (r : result E A) : closed (lift r).
Proof. by intros w. Qed.
Lemma closed_guard b e : closed (guard_m b e).
Proof. destruct b; by intros w. Qed.
Lemma closed_bind {A B} (m : M D E A) (k : A -> M D E B) : closed m -> (forall a, closed (k a)) -> closed (m ≫= k).
Proof.
  intros Hm Hk w Hw. specialize (Hm w Hw). unfold mbind, M_bind. destruct (m w) as [[a|e] w']; [by apply Hk|done].
Qed.
Lemma closed_try {A} (m : M D E A) : closed m -> closed (try m).
Proof. intros Hm w Hw. specialize (Hm w Hw). unfold try. by destruct (m w). Qed.
Lemma closed_try_exec {A} (f : stmt D A) : closed (try_exec f).
Proof.
  intros w Hw. unfold try_exec, next_event. simpl. destruct (f _ _ _) as [r d]. unfold set_cur. simpl. rewrite Hw.
  by destruct (ev_fault _).
Qed.
Lemma closed_exec {A} mk (f : stmt D A) : closed (exec mk f).
Proof. apply closed_bind; [apply closed_try_exec|]. intros [a|e]; [apply closed_ret|apply closed_raise]. Qed.
Lemma closed_with_tx {A} e (m : M D E A) : closed (with_tx e m).
Proof. intros w _. apply with_tx_closed. Qed.

(** An operation of which only what it keeps is known. *)
Lemma rwp_keeps {A} (m : M D E A) (Q : result E A -> D -> Prop) d :
  keeps G m -> closed m -> (forall r d', G d d' -> Q r d') -> rwp m Q d.
Proof using Type*.
  intros Hm Hc HQ w <- Ht Hr. destruct (Hm (w_db w) w) as (H1 & _ & H3).
  { repeat split; [reflexivity| |done]. by rewrite Ht. }
  auto.
Qed.

Lemma rwp_with_tx {A} e (m : M D E A) (Q : result E A -> D -> Prop) d :
  (forall d1, G d d1 -> twp m (fun r d' _ => Q r d') d1 d1 /\ Q (Err e) d1) -> rwp (with_tx e m) Q d.
Proof using Type*.
  intros Hm w <- Ht Hr. unfold with_tx, mbind, M_bind, begin_tx. destruct (next_event w) as [ev w1] eqn:Hn.
  destruct (rely_step _ _ _ Hn Ht Hr) as (H1 & H2 & H3). destruct (Hm (w_db w1) H1) as [Ht1 He].
  destruct (ev_fault ev); simpl; [|done|done].
  destruct (Ht1 (set_tx (Some (w_db w1)) w1) eq_refl eq_refl) as [HQ [n Hl]].
  destruct (m _) as [r w']; simpl in *. split_and!; [done|done|]. rewrite Hl. by apply Forall_drop.
Qed.
End Rwp.

#[export] Hint Resolve keeps_ret keeps_raise keeps_lift keeps_guard keeps_read keeps_rand
  keeps_app_now keeps_commit keeps_for_each keeps_map_each keeps_with_tx keeps_tx_clock : news.
#[export] Hint Extern 1 (PreOrder _) => typeclasses eauto : news.
#[export] Hint Resolve closed_ret closed_raise closed_lift closed_guard closed_bind closed_try closed_exec closed_try_exec
  closed_with_tx : news.
