(* ===== verification/GoText.v ===== *)
(** * GoText: textual encodings of Go's standard library

    [encoding/hex], [encoding/json]'s Marshal, RFC 3339 instants and the UUID
    helpers the services share: [newUUID] of go-scheduler/internal/store and
    go-worker/internal/store, [canonicalUUID] of go-scheduler/internal/dispatch
    and [canonicalCursorUUID] of go-scheduler/internal/store. *)

From S2P Require Import Prelude JsonStrict GoTime.
From stdpp Require Import pretty.
Open Scope Z_scope.

Definition chr (n : Z) : Ascii.ascii := Ascii.ascii_of_nat (Z.to_nat n).
Definition ord (c : Ascii.ascii) : Z := Z.of_nat (Ascii.nat_of_ascii c).
Definition bytes_of (s : string) : list Z := map ord (String.list_ascii_of_string s).
Definition string_of (l : list Z) : string := String.string_of_list_ascii (map chr l).
(** [len(s)] *)
Definition len (s : string) : Z := Z.of_nat (String.length s).

(** ** encoding/hex *)

Definition hex_digit (n : Z) : Z := if n <? 10 then 48 + n else 87 + n.
Definition hex_byte (b : Z) : list Z := [hex_digit (b / 16); hex_digit (b mod 16)].
Definition hex_encode (bs : list Z) : list Z := concat (map hex_byte bs).

(** ** UUIDs *)

Definition dash : Z := 45.

(** [var b [16]byte; rand.Read(b[:])]: sixteen bytes of the source *)
Definition byte16 (bs : list Z) : list Z := map (fun i => nth i bs 0 mod 256) (seq 0 16).

(** [b[6] = (b[6] & 0x0f) | 0x40; b[8] = (b[8] & 0x3f) | 0x80] *)
Definition stamp_version (b : list Z) : list Z :=
  let b := alter (fun x => Z.lor (Z.land x 15) 64) 6%nat b in
  alter (fun x => Z.lor (Z.land x 63) 128) 8%nat b.

(** The body of [newUUID] once the random bytes are read. *)
Definition uuid_text (random : list Z) : string :=
  let b := stamp_version (byte16 random) in
  let part i j := hex_encode (take (j - i) (drop i b)) in
  string_of (part 0 4 ++ [dash] ++ part 4 6 ++ [dash] ++ part 6 8 ++ [dash] ++
             part 8 10 ++ [dash] ++ part 10 16)%nat.

Definition is_hex_lower (c : Z) : bool :=
  ((48 <=? c) && (c <=? 57)) || ((97 <=? c) && (c <=? 102)).
Definition dash_at (i : nat) : bool := ((i =? 8) || (i =? 13) || (i =? 18) || (i =? 23))%nat.

(** The loop over the characters of a candidate, from index [i]. *)
Fixpoint canonical_chars (i : nat) (cs : list Z) : bool :=
  match cs with
  | [] => true
  | c :: cs' => (if dash_at i then c =? dash else is_hex_lower c) && canonical_chars (S i) cs'
  end.

Definition canonicalUUID (v : string) : bool :=
  (len v =? 36) && canonical_chars 0 (bytes_of v).

(** ** encoding/json: Marshal *)

Definition quote : Z := 34.
Definition hex4 (n : Z) : list Z :=
  [92; 117; hex_digit (n / 4096); hex_digit (n / 256 mod 16); hex_digit (n / 16 mod 16); hex_digit (n mod 16)].

(** The escapes of [appendString] with HTML escaping, on UTF-8 bytes: quotes,
    backslashes, control characters, the angle brackets and ampersand, and the
    line separators U+2028 and U+2029. *)
Fixpoint escape (l : list Z) : list Z :=
  match l with
  | [] => []
  | 226 :: ((128 :: ((168 :: l') as _)) as _) => hex4 8232 ++ escape l'
  | 226 :: ((128 :: ((169 :: l') as _)) as _) => hex4 8233 ++ escape l'
  | c :: l' =>
      (if (c =? 34) || (c =? 92) then [92; c]
       else if c =? 8 then [92; 98] else if c =? 12 then [92; 102] else if c =? 10 then [92; 110]
       else if c =? 13 then [92; 114] else if c =? 9 then [92; 116]
       else if (c <? 32) || (c =? 60) || (c =? 62) || (c =? 38) then hex4 c
       else [c]) ++ escape l'
  end.

Definition marshal_string (s : string) : string :=
  string_of ([quote] ++ escape (bytes_of s) ++ [quote]).

Fixpoint join (sep : string) (l : list string) : string :=
  match l with
  | [] => EmptyString
  | [s] => s
  | s :: l' => s +:+ sep +:+ join sep l'
  end.

Definition key_le (a b : string * string) : Prop := String.leb a.1 b.1 = true.
#[export] Instance key_le_dec : RelDecision key_le.
Proof. intros a b. unfold key_le. apply _. Defined.

Definition obj (members : list (string * string)) : string :=
  "{" +:+ join "," (map (fun kv => marshal_string kv.1 +:+ ":" +:+ kv.2) members) +:+ "}".

(** [json.Marshal] of a decoded value; the keys of a map are sorted. *)
Fixpoint marshal (j : json) : string :=
  match j with
  | JNull => "null"
  | JBool b => if b then "true" else "false"
  | JNum lit => lit
  | JStr s => marshal_string s
  | JArr l => "[" +:+ join "," (map marshal l) +:+ "]"
  | JObj l => obj (merge_sort key_le (map (fun kv => (kv.1, marshal kv.2)) l))
  end.

(** A Go [map[string]any]; [None] is the nil map. *)
Definition gomap : Type := option (list (string * json)).
Definition json_of_map (m : gomap) : json := match m with None => JNull | Some l => JObj l end.

(** [strconv.Itoa] *)
Definition itoa (n : Z) : string := pretty n.

(** ** RFC 3339 *)

Definition digit (n : Z) : Z := 48 + n mod 10.
Definition two (n : Z) : list Z := [digit (n / 10); digit n].
Definition four (n : Z) : list Z := [digit (n / 1000); digit (n / 100); digit (n / 10); digit n].

Fixpoint strip_zeros (l : list Z) : list Z := (* on the reversed fraction *)
  match l with 48 :: l' => strip_zeros l' | _ => l end.
Definition fraction (ns : Z) : list Z :=
  let ds := map (fun k => digit (ns / 10 ^ k)) [8; 7; 6; 5; 4; 3; 2; 1; 0] in
  match rev (strip_zeros (rev ds)) with [] => [] | ds' => 46 :: ds' end.

(** [t.UTC().Format(time.RFC3339Nano)] for years 0 to 9999 *)
Definition rfc3339nano (t : Z) : string :=
  let c := local_date (FixedZone 0) t in
  string_of (four (c_year c) ++ [dash] ++ two (c_month c) ++ [dash] ++ two (c_day c) ++ [84] ++
    two (local_hour (FixedZone 0) t) ++ [58] ++ two (local_minute (FixedZone 0) t) ++ [58] ++
    two (local_second (FixedZone 0) t) ++ fraction (local_nano (FixedZone 0) t) ++ [90]).

(** ** [newUUID] produces canonical version 4 UUIDs *)

Lemma ord_chr n : 0 <= n < 256 -> ord (chr n) = n.
Proof. intros H. unfold ord, chr. rewrite Ascii.nat_ascii_embedding by lia. lia. Qed.
Lemma bytes_string l : Forall (fun n => 0 <= n < 256) l -> bytes_of (string_of l) = l.
Proof.
  intros H. unfold bytes_of, string_of. rewrite String.list_ascii_of_string_of_list_ascii, map_map.
  induction H; simpl; [done|]. rewrite ord_chr by done. by f_equal.
Qed.
Lemma len_string_of l : len (string_of l) = Z.of_nat (length l).
Proof.
  unfold len, string_of. rewrite <- (length_map chr l). induction (map chr l); simpl; lia.
Qed.

Lemma hex_digit_lower n : 0 <= n < 16 -> is_hex_lower (hex_digit n) = true.
Proof.
  intros H. unfold is_hex_lower, hex_digit.
  destruct (n <? 10) eqn:?; bool_to_prop; [apply orb_true_intro; left | apply orb_true_intro; right];
    apply andb_true_intro; split; apply Z.leb_le; lia.
Qed.
Lemma hex_digit_byte n : 0 <= n < 16 -> 0 <= hex_digit n < 256.
Proof. unfold hex_digit. destruct (n <? 10) eqn:?; bool_to_prop; lia. Qed.

(** A property of the [k] low bits, checked on every value they take. *)
Lemma low_bits_check (P : Z -> bool) k x :
  0 <= k -> forallb P (map Z.of_nat (seq 0 (Z.to_nat (2 ^ k)))) = true -> P (Z.land x (Z.ones k)) = true.
Proof.
  intros Hk H. rewrite forallb_forall in H. apply H.
  rewrite Z.land_ones by done. pose proof (Z.mod_pos_bound x (2 ^ k) ltac:(lia)).
  apply in_map_iff. exists (Z.to_nat (x mod 2 ^ k)). split; [lia|]. apply in_seq. lia.
Qed.

Lemma version_byte x : 0 <= Z.lor (Z.land x 15) 64 < 256 /\ Z.lor (Z.land x 15) 64 / 16 = 4.
Proof.
  pose proof (low_bits_check (fun n => (0 <=? Z.lor n 64) && (Z.lor n 64 <? 256) && (Z.lor n 64 / 16 =? 4))
    4 x ltac:(lia) ltac:(by_eval)). change (Z.ones 4) with 15 in *. cbv beta in *. bool_to_prop. tauto.
Qed.
Lemma variant_byte x :
  0 <= Z.lor (Z.land x 63) 128 < 256 /\ 8 <= Z.lor (Z.land x 63) 128 / 16 <= 11.
Proof.
  pose proof (low_bits_check (fun n => (0 <=? Z.lor n 128) && (Z.lor n 128 <? 256) &&
    (8 <=? Z.lor n 128 / 16) && (Z.lor n 128 / 16 <=? 11)) 6 x ltac:(lia) ltac:(by_eval)).
  change (Z.ones 6) with 63 in *. cbv beta in *. bool_to_prop. tauto.
Qed.

Lemma uuid_bytes random : exists b0 b1 b2 b3 b4 b5 b6 b7 b8 b9 b10 b11 b12 b13 b14 b15,
  stamp_version (byte16 random) = [b0;b1;b2;b3;b4;b5;b6;b7;b8;b9;b10;b11;b12;b13;b14;b15] /\
  Forall (fun n => 0 <= n < 256) [b0;b1;b2;b3;b4;b5;b6;b7;b8;b9;b10;b11;b12;b13;b14;b15] /\
  b6 / 16 = 4 /\ 8 <= b8 / 16 <= 11.
Proof.
  unfold stamp_version, byte16. cbn [seq map alter list_alter].
  pose proof (version_byte (nth 6 random 0 mod 256)).
  pose proof (variant_byte (nth 8 random 0 mod 256)).
  do 16 eexists. split; [reflexivity|].
  split; [|tauto]. repeat apply Forall_cons_2; try apply Forall_nil_2; try tauto;
    apply Z.mod_pos_bound; lia.
Qed.

Lemma uuid_text_shape random :
  canonicalUUID (uuid_text random) = true /\
  nth 14 (bytes_of (uuid_text random)) 0 = 52 /\
  In (nth 19 (bytes_of (uuid_text random)) 0) (bytes_of "89ab").
Proof.
  destruct (uuid_bytes random) as (b0 & b1 & b2 & b3 & b4 & b5 & b6 & b7 & b8 & b9 & b10 & b11 &
    b12 & b13 & b14 & b15 & Hb & Hr & H6 & H8).
  unfold canonicalUUID, uuid_text. rewrite Hb, len_string_of.
  cbn [take drop Nat.sub hex_encode map hex_byte concat app].
  repeat match goal with H : Forall _ (_ :: _) |- _ => apply Forall_cons_1 in H as [? H] end.
  assert (forall b, 0 <= b < 256 -> 0 <= b / 16 < 16) as Hd
    by (intros; split; [apply Z.div_pos; lia | apply Z.div_lt_upper_bound; lia]).
  assert (forall b, 0 <= b mod 16 < 16) as Hm by (intros; apply Z.mod_pos_bound; lia).
  rewrite bytes_string by (repeat apply Forall_cons_2; try apply Forall_nil_2;
    try (apply hex_digit_byte; auto); unfold dash; lia).
  split_and!.
  - cbn [length]. rewrite andb_true_l by done.
    cbn [canonical_chars dash_at Nat.eqb orb]. rewrite !hex_digit_lower by auto. done.
  - cbn [nth]. rewrite H6. done.
  - cbn [nth]. assert (b8 / 16 = 8 \/ b8 / 16 = 9 \/ b8 / 16 = 10 \/ b8 / 16 = 11) as Hc by lia.
    destruct Hc as [-> | [-> | [-> | ->]]]; vm_compute; tauto.
Qed.

(** An identifier made by newUUID (occurrence ids, lease tokens, owner and
    receipt ids) is in the canonical lower-case form that canonicalUUID and the
    cursor check accept, with version nibble 4 and an RFC 4122 variant nibble,
    whatever bytes the random source returns. *)
Theorem newUUID_canonical random :
  canonicalUUID (uuid_text random) = true /\
  nth 14 (bytes_of (uuid_text random)) 0 = 52 /\
  In (nth 19 (bytes_of (uuid_text random)) 0) (bytes_of "89ab").
Proof. apply uuid_text_shape. Qed.
