(* ===== verification/GoDecode.v ===== *)
(** * GoDecode: reading JSON and text the way Go's standard library does

    [Decoder.Decode] of one value from a token stream, the matching of struct
    fields (exact, then case-folded names), [strconv.ParseInt]/[ParseUint] and
    [strings.TrimSpace]. *)

From S2P Require Import Prelude JsonStrict GoText.
From stdpp Require Import pretty.
Open Scope Z_scope.

(** ** One JSON value *)

Fixpoint parse_value (fuel : nat) (l : list lexeme) : option (json * list lexeme) :=
  match fuel with
  | O => None
  | S fuel =>
      match l with
      | LNull :: r => Some (JNull, r)
      | LBool b :: r => Some (JBool b, r)
      | LNum n :: r => Some (JNum n, r)
      | LStr s :: r => Some (JStr s, r)
      | LBrace :: RBrace :: r => Some (JObj [], r)
      | LBrace :: r =>
          match value_members fuel r with Some (ms, r') => Some (JObj ms, r') | None => None end
      | LBracket :: RBracket :: r => Some (JArr [], r)
      | LBracket :: r =>
          match value_items fuel r with Some (xs, r') => Some (JArr xs, r') | None => None end
      | _ => None
      end
  end
with value_members (fuel : nat) (l : list lexeme) : option (list (string * json) * list lexeme) :=
  match fuel with
  | O => None
  | S fuel =>
      match l with
      | LStr k :: LColon :: r =>
          match parse_value fuel r with
          | Some (v, RBrace :: r') => Some ([(k, v)], r')
          | Some (v, LComma :: r') =>
              match value_members fuel r' with
              | Some (ms, r'') => Some ((k, v) :: ms, r'')
              | None => None
              end
          | _ => None
          end
      | _ => None
      end
  end
with value_items (fuel : nat) (l : list lexeme) : option (list json * list lexeme) :=
  match fuel with
  | O => None
  | S fuel =>
      match parse_value fuel l with
      | Some (v, RBracket :: r') => Some ([v], r')
      | Some (v, LComma :: r') =>
          match value_items fuel r' with
          | Some (xs, r'') => Some (v :: xs, r'')
          | None => None
          end
      | _ => None
      end
  end.

(** [dec.Decode(&v)]: the next value and the input after it *)
Definition decode_next (input : list lexeme) (fin : ending) : result json_error (json * list lexeme) :=
  match input, fin with
  | [], AtEof => Err EofErr
  | _, _ => match parse_value (S (2 * length input)) input with Some r => Ok r | None => Err SyntaxErr end
  end.

(** *** The parser reads back what [lex_of] writes *)

Definition parse_fuel (j : json) : nat := S (2 * length (lex_of j)).

Lemma lex_length_pos j : (1 <= length (lex_of j))%nat.
Proof. pose proof (lex_of_nonempty j). destruct (lex_of j); [done|simpl; lia]. Qed.

Definition reads_back (j : json) : Prop :=
  forall n r, (2 * length (lex_of j) < n)%nat -> parse_value n (lex_of j ++ r) = Some (j, r).

Lemma sep_by_cons2 {A} (sep : A) x y xs : sep_by sep (x :: y :: xs) = x ++ sep :: sep_by sep (y :: xs).
Proof. done. Qed.

Lemma items_read_back x xs :
  Forall reads_back (x :: xs) ->
  forall n r, (2 * length (sep_by LComma (map lex_of (x :: xs))) + 1 < n)%nat ->
    value_items n (sep_by LComma (map lex_of (x :: xs)) ++ RBracket :: r) = Some (x :: xs, r).
Proof.
  revert x. induction xs as [|y xs IH]; intros x Hall n r Hn; apply Forall_cons_1 in Hall as [Hx Hall];
    (destruct n as [|n]; [lia|]).
  - cbn [map sep_by] in *. cbn [value_items]. rewrite Hx by lia. done.
  - rewrite !map_cons, sep_by_cons2 in Hn |- *. rewrite length_app in Hn. cbn [length] in Hn.
    rewrite <- app_assoc. cbn [value_items]. rewrite Hx by lia. cbn [app].
    rewrite <- map_cons in Hn |- *. rewrite IH; [done|done|]. pose proof (lex_length_pos x). lia.
Qed.

Lemma members_read_back kv kvs :
  Forall (fun m => reads_back m.2) (kv :: kvs) ->
  forall n r, (2 * length (sep_by LComma (map member_lex (kv :: kvs))) + 1 < n)%nat ->
    value_members n (sep_by LComma (map member_lex (kv :: kvs)) ++ RBrace :: r) = Some (kv :: kvs, r).
Proof.
  revert kv. induction kvs as [|y kvs IH]; intros [k v] Hall n r Hn; apply Forall_cons_1 in Hall as [Hx Hall];
    (destruct n as [|n]; [lia|]); simpl in Hx.
  - cbn [map sep_by] in *. unfold member_lex in *. cbn [fst snd length app] in *. cbn [value_members].
    rewrite Hx by lia. done.
  - rewrite !map_cons, sep_by_cons2 in Hn |- *. rewrite length_app in Hn. cbn [length] in Hn.
    rewrite <- app_assoc. unfold member_lex in Hn at 1. unfold member_lex at 1. cbn [fst snd length app] in Hn |- *.
    cbn [value_members]. rewrite Hx by lia.
    rewrite <- map_cons in Hn |- *. rewrite IH; [done|done|]. lia.
Qed.

Lemma parse_reads_back j : reads_back j.
Proof.
  induction j as [|b|n|s|l IH|l IH] using json_ind; intros [|fuel] r Hn; try lia; try done.
  - rewrite lex_of_arr in Hn |- *. destruct l as [|x xs]; [done|].
    cbn [length] in Hn. rewrite length_app in Hn. cbn [length] in Hn. rewrite <- app_comm_cons, <- app_assoc.
    assert (value_items fuel (rest_lex lex_of false (x :: xs) ++ [RBracket] ++ r) = Some (x :: xs, r)) as Hi.
    { apply (items_read_back x xs IH). unfold rest_lex in Hn. lia. }
    assert (hd_error (rest_lex lex_of false (x :: xs)) <> Some RBracket) as Hh.
    { rewrite rest_lex_cons. simpl. pose proof (lex_of_not_close x). pose proof (lex_of_nonempty x).
      destruct (lex_of x); done. }
    destruct (rest_lex lex_of false (x :: xs)) as [|h t] eqn:E.
    { exfalso. rewrite rest_lex_cons in E. simpl in E. apply app_eq_nil in E as [E _]. by apply lex_of_nonempty in E. }
    cbn [app] in Hi |- *. cbn [parse_value]. destruct h; try (rewrite Hi; done). done.
  - rewrite lex_of_obj in Hn |- *. destruct l as [|x xs]; [done|].
    cbn [length] in Hn. rewrite length_app in Hn. cbn [length] in Hn. rewrite <- app_comm_cons, <- app_assoc.
    assert (value_members fuel (rest_lex member_lex false (x :: xs) ++ [RBrace] ++ r) = Some (x :: xs, r)) as Hi.
    { apply (members_read_back x xs IH). unfold rest_lex in Hn. lia. }
    rewrite rest_lex_cons in Hi |- *. unfold member_lex in Hi at 1. unfold member_lex at 1. cbn [app] in Hi |- *.
    cbn [parse_value]. by rewrite Hi.
Qed.

Lemma decode_next_document j r fin : decode_next (lex_of j ++ r) fin = Ok (j, r).
Proof.
  unfold decode_next. pose proof (lex_of_nonempty j). destruct (lex_of j ++ r) as [|x l] eqn:E.
  { by apply app_eq_nil in E as [? _]. }
  rewrite <- E, parse_reads_back; [done|]. rewrite length_app. lia.
Qed.

(** ** Numbers *)

Fixpoint decimal_value (acc : Z) (ds : list Z) : option Z :=
  match ds with
  | [] => Some acc
  | d :: ds' => if (48 <=? d) && (d <=? 57) then decimal_value (10 * acc + (d - 48)) ds' else None
  end.

(** [strconv.ParseUint(s, 10, 64)] *)
Definition ParseUint (s : string) : option Z :=
  match bytes_of s with
  | [] => None
  | ds => match decimal_value 0 ds with
          | Some n => if n <? 2 ^ 64 then Some n else None
          | None => None
          end
  end.

(** [strconv.ParseInt(s, 10, 64)] *)
Definition ParseInt (s : string) : option Z :=
  let unsigned ds := match ds with [] => None | _ => decimal_value 0 ds end in
  match bytes_of s with
  | 45 :: ds => match unsigned ds with
                | Some n => if n <=? 2 ^ 63 then Some (- n) else None
                | None => None
                end
  | 43 :: ds | ds => match unsigned ds with
                     | Some n => if n <? 2 ^ 63 then Some n else None
                     | None => None
                     end
  end.

Lemma decimal_value_nonneg ds : forall acc n, 0 <= acc -> decimal_value acc ds = Some n -> 0 <= n.
Proof.
  induction ds as [|d ds IH]; intros acc n Ha; simpl; [intros [= <-]; done|].
  destruct ((48 <=? d) && (d <=? 57)) eqn:E; [|done]. bool_to_prop. apply IH. lia.
Qed.
Lemma ParseUint_bounds s n : ParseUint s = Some n -> 0 <= n < 2 ^ 64.
Proof.
  unfold ParseUint. destruct (bytes_of s) as [|d ds]; [done|].
  destruct (decimal_value 0 (d :: ds)) as [v|] eqn:E; [|done].
  destruct (v <? 2 ^ 64) eqn:Hv; [|done]. intros [= <-]. bool_to_prop.
  apply decimal_value_nonneg in E; lia.
Qed.

(** ** Struct fields *)

(** [foldName] on the bytes of a member name: letters in upper case, and the
    two other characters whose simple folding is an ASCII letter (U+017F and
    U+212A). *)
Fixpoint fold_bytes (l : list Z) : list Z :=
  match l with
  | [] => []
  | 197 :: ((191 :: l') as _) => 83 :: fold_bytes l'
  | 226 :: ((132 :: ((170 :: l') as _)) as _) => 75 :: fold_bytes l'
  | c :: l' => (if (97 <=? c) && (c <=? 122) then c - 32 else c) :: fold_bytes l'
  end.

(** The field a member name selects: the exact one, else the first whose name
    folds to the same text. *)
Definition find_field (fields : list string) (key : string) : option string :=
  if bool_decide (key ∈ fields) then Some key
  else find (fun f => bool_decide (fold_bytes (bytes_of f) = fold_bytes (bytes_of key))) fields.

(** [strings.EqualFold] against an ASCII text *)
Definition EqualFold (a b : string) : bool := bool_decide (fold_bytes (bytes_of a) = fold_bytes (bytes_of b)).

(** ** strings.TrimSpace *)

(** The UTF-8 encodings of the characters [unicode.IsSpace] accepts. *)
Definition space_seqs : list (list Z) :=
  [[9]; [10]; [11]; [12]; [13]; [32]; [194; 133]; [194; 160]; [225; 154; 128]; [226; 128; 168];
   [226; 128; 169]; [226; 128; 175]; [226; 129; 159]; [227; 128; 128]] ++
  map (fun k => [226; 128; 128 + Z.of_nat k]) (seq 0 11).

Fixpoint strip_prefix (p l : list Z) : option (list Z) :=
  match p, l with
  | [], _ => Some l
  | x :: p', y :: l' => if x =? y then strip_prefix p' l' else None
  | _, [] => None
  end.

Fixpoint trim_left (fuel : nat) (seqs : list (list Z)) (l : list Z) : list Z :=
  match fuel with
  | O => l
  | S fuel =>
      match omap (fun p => strip_prefix p l) seqs with
      | l' :: _ => trim_left fuel seqs l'
      | [] => l
      end
  end.

Definition TrimSpace (s : string) : string :=
  let l := bytes_of s in
  let l := trim_left (length l) space_seqs l in
  string_of (rev (trim_left (length l) (map (@rev Z) space_seqs) (rev l))).

(** ** HTTP bodies and structs *)

(** What reading the body through the limit gives: a length, or an error. *)
Record http_body := HttpBody {
  bd_failed : bool;
  bd_length : Z;
  bd_lexemes : list lexeme;
  bd_ending : ending;
}.

(** [Decode(&v)] of a struct with [DisallowUnknownFields]: null leaves it alone,
    an unknown member or a value of the wrong type is an error. *)
Definition decode_struct {T} (fields : list string) (set_field : string -> json -> T -> option T) (zero : T) (j : json) : option T :=
  match j with
  | JNull => Some zero
  | JObj ms => foldl (fun r m => r ≫= fun r =>
      match find_field fields m.1 with
      | None => None
      | Some f => set_field f m.2 r
      end) (Some zero) ms
  | _ => None
  end.

Lemma find_exact fields key : key ∈ fields -> find_field fields key = Some key.
Proof. intros Hk. unfold find_field. by rewrite bool_decide_eq_true_2. Qed.

(** [json.Unmarshal] of an object into a struct: unknown members are skipped,
    null leaves the value alone, a value of the wrong type is an error. *)
Definition unmarshal_struct {T} (fields : list string) (set_field : string -> json -> T -> option T) (zero : T) (j : json) : option T :=
  match j with
  | JNull => Some zero
  | JObj ms => foldl (fun r m => r ≫= fun r =>
      match find_field fields m.1 with
      | None => Some r
      | Some f => set_field f m.2 r
      end) (Some zero) ms
  | _ => None
  end.

(** ** Values decoded into [any]

    Numbers become float64 ([float_text] is the text Marshal prints for the
    float64 nearest to a literal, nothing when it is out of range), and the last
    of duplicate members wins. *)

Fixpoint upsert (k : string) (v : json) (l : list (string * json)) : list (string * json) :=
  match l with
  | [] => [(k, v)]
  | (k', v') :: l' => if (k =? k')%string then (k, v) :: l' else (k', v') :: upsert k v l'
  end.

Fixpoint go_any (float_text : string -> option string) (j : json) : option json :=
  match j with
  | JNum n => JNum <$> float_text n
  | JArr l => JArr <$> (fix items l := match l with
                        | [] => Some []
                        | x :: l' => y ← go_any float_text x; ys ← items l'; Some (y :: ys)
                        end) l
  | JObj l => JObj <$> (fix members acc l := match l with
                        | [] => Some acc
                        | (k, v) :: l' => y ← go_any float_text v; members (upsert k y acc) l'
                        end) [] l
  | _ => Some j
  end.

(** ** Decimal texts read back *)


Lemma bytes_of_cons c s : bytes_of (String.String c s) = ord c :: bytes_of s.
Proof. done. Qed.

Lemma pretty_digit x : (x < 10)%N -> ord (pretty_N_char x) = 48 + Z.of_N x.
Proof.
  intros Hx. assert (In x (map N.of_nat (seq 0 10))) as Hin.
  { apply in_map_iff. exists (N.to_nat x). split; [lia|]. apply in_seq. lia. }
  revert Hin. clear Hx. simpl. intros H. repeat destruct H as [<-|H]; [reflexivity..|done].
Qed.

Lemma decimal_value_pretty x : forall s, (0 < x)%N ->
  decimal_value 0 (bytes_of (pretty_N_go x s)) = decimal_value (Z.of_N x) (bytes_of s).
Proof.
  induction x as [x IH] using (well_founded_induction N.lt_wf_0). intros s Hx.
  rewrite pretty_N_go_step by done. set (d := (x `mod` 10)%N).
  assert (d < 10)%N as Hd by (apply N.mod_lt; done).
  assert (forall acc, decimal_value acc (bytes_of (String.String (pretty_N_char d) s)) =
    decimal_value (10 * acc + Z.of_N d) (bytes_of s)) as Hstep.
  { intros acc. rewrite bytes_of_cons, pretty_digit by done. cbn [decimal_value].
    rewrite (proj2 (Z.leb_le _ _)), (proj2 (Z.leb_le _ _)) by lia. cbn [andb]. f_equal. lia. }
  pose proof (N.div_mod x 10 ltac:(done)) as Hdm. fold d in Hdm.
  destruct (decide (x `div` 10 = 0)%N) as [E|E].
  - rewrite E, pretty_N_go_0, Hstep. f_equal. lia.
  - rewrite IH; [|apply N.div_lt; lia|lia]. rewrite Hstep. f_equal. lia.
Qed.

Lemma itoa_value n : 0 <= n -> decimal_value 0 (bytes_of (itoa n)) = Some n /\ bytes_of (itoa n) <> [].
Proof.
  intros Hn. unfold itoa. destruct n as [|p|p]; [done| |lia].
  change (pretty (Z.pos p)) with (if decide (N.pos p = 0%N) then "0" else pretty_N_go (N.pos p) "").
  destruct (decide _) as [?|_]; [done|].
  assert (decimal_value 0 (bytes_of (pretty_N_go (N.pos p) "")) = Some (Z.pos p)) as E by (by rewrite decimal_value_pretty).
  split; [done|]. intros E'. rewrite E' in E. simpl in E. congruence.
Qed.

Lemma decimal_digits ds : forall acc n, decimal_value acc ds = Some n -> Forall (fun d => 48 <= d <= 57) ds.
Proof.
  induction ds as [|d ds IH]; intros acc n; simpl; [constructor|].
  destruct ((48 <=? d) && (d <=? 57)) eqn:E; [|done]. bool_to_prop. intros Hd. constructor; [done|eauto].
Qed.

Lemma ParseInt_digits s n :
  bytes_of s <> [] -> decimal_value 0 (bytes_of s) = Some n -> ParseInt s = if n <? 2 ^ 63 then Some n else None.
Proof.
  intros Hne Hv. unfold ParseInt. destruct (bytes_of s) as [|d ds]; [done|].
  pose proof (Forall_inv (decimal_digits _ _ _ Hv)) as Hd. cbv beta in Hd.
  assert (match decimal_value 0 (d :: ds) with Some n => if n <? 2 ^ 63 then Some n else None | None => None end
          = if n <? 2 ^ 63 then Some n else None) as E by (by rewrite Hv).
  assert (d <> 43 /\ d <> 45) as [H1 H2] by lia. clear Hv Hne Hd.
  destruct (decide (d = 43)); [done|]. destruct (decide (d = 45)); [done|].
  destruct d as [|p|p]; try exact E. do 6 (destruct p as [p|p|]; try exact E; try done).
Qed.
Lemma ParseInt_decimal s n :
  bytes_of s <> [] -> decimal_value 0 (bytes_of s) = Some n -> n < 2 ^ 63 -> ParseInt s = Some n.
Proof. intros Hne Hv Hn. rewrite (ParseInt_digits s n) by done. by rewrite (proj2 (Z.ltb_lt _ _)). Qed.

Lemma ParseInt_itoa n : 0 <= n < 2 ^ 63 -> ParseInt (itoa n) = Some n.
Proof. intros Hn. destruct (itoa_value n ltac:(lia)) as [Hv Hne]. by apply ParseInt_decimal; [..|lia]. Qed.

Lemma itoa_digits n : 0 <= n -> Forall (fun d => 48 <= d <= 57) (bytes_of (itoa n)).
Proof. intros Hn. destruct (itoa_value n Hn) as [Hv _]. by apply decimal_digits in Hv. Qed.

Lemma ParseInt_bound s n : ParseInt s = Some n -> n < 2 ^ 63.
Proof.
  assert (forall ds : list Z, match (match ds with [] => None | _ => decimal_value 0 ds end) with
      Some n => if n <? 2 ^ 63 then Some n else None | None => None end = Some n -> n < 2 ^ 63) as Hpos.
  { intros ds. destruct (match ds with [] => None | _ => _ end); [|done]. destruct (_ <? _) eqn:E; [|done].
    intros [= <-]. by bool_to_prop. }
  assert (forall ds : list Z, match (match ds with [] => None | _ => decimal_value 0 ds end) with
      Some n => if n <=? 2 ^ 63 then Some (- n) else None | None => None end = Some n -> n < 2 ^ 63) as Hneg.
  { intros ds. destruct (match ds with [] => None | _ => _ end) as [v|] eqn:Hv; [|done]. destruct (_ <=? _); [|done].
    intros [= <-]. destruct ds; [done|]. apply decimal_value_nonneg in Hv; lia. }
  unfold ParseInt. destruct (bytes_of s) as [|d ds]; [done|].
  destruct d as [|p|p]; try (apply (Hpos (_ :: _))).
  do 6 (destruct p as [p|p|]; try (apply (Hpos (_ :: _))); try (apply Hpos); try (apply Hneg)).
Qed.

(** ** Maps of members *)

Fixpoint get (p : list (string * json)) (k : string) : option json :=
  match p with
  | [] => None
  | (k', v) :: p' => if (k =? k')%string then Some v else get p' k
  end.

(** A Go map read from the members of an object: the last of duplicates wins. *)
Definition raw_map (ms : list (string * json)) : list (string * json) :=
  foldl (fun acc kv => upsert kv.1 kv.2 acc) [] ms.

Lemma get_upsert p k v k' : get (upsert k v p) k' = if (k' =? k)%string then Some v else get p k'.
Proof.
  induction p as [|[k1 v1] p IH]; csimpl; [done|].
  destruct (String.eqb_spec k k1) as [->|H1]; csimpl.
  - destruct (String.eqb_spec k' k1); done.
  - rewrite IH. destruct (String.eqb_spec k' k1) as [->|H2]; [|done].
    by destruct (String.eqb_spec k1 k) as [->|].
Qed.
Lemma upsert_keys k v p : (upsert k v p).*1 = p.*1 ++ (if bool_decide (k ∈ p.*1) then [] else [k]).
Proof.
  induction p as [|[k1 v1] p IH]; csimpl; [done|].
  destruct (String.eqb_spec k k1) as [->|Hne]; csimpl.
  - rewrite bool_decide_eq_true_2 by left. by rewrite app_nil_r.
  - rewrite IH. rewrite (bool_decide_ext (k ∈ k1 :: p.*1) (k ∈ p.*1)) by set_solver. done.
Qed.
Lemma upsert_nodup k v p : NoDup p.*1 -> NoDup (upsert k v p).*1.
Proof.
  intros Hp. rewrite upsert_keys. case_bool_decide; [by rewrite app_nil_r|].
  apply NoDup_app. split_and!; [done|set_solver|apply NoDup_singleton].
Qed.
Lemma upsert_same k v p : get p k = Some v -> upsert k v p = p.
Proof.
  induction p as [|[k1 v1] p IH]; csimpl; [done|].
  destruct (String.eqb_spec k k1) as [->|]; [by intros [= ->]|]. intros. f_equal. auto.
Qed.
Lemma upsert_fresh k v p : k ∉ p.*1 -> upsert k v p = p ++ [(k, v)].
Proof.
  induction p as [|[k1 v1] p IH]; csimpl; [done|]. intros Hk.
  destruct (String.eqb_spec k k1) as [->|]; [set_solver|]. f_equal. apply IH. set_solver.
Qed.
Lemma raw_map_nodup ms : NoDup (raw_map ms).*1.
Proof.
  unfold raw_map. assert (NoDup ([] : list (string * json)).*1) as Hn by constructor. revert Hn.
  generalize ([] : list (string * json)). induction ms as [|[k v] ms IH]; intros acc Hacc; csimpl; [done|].
  apply IH. by apply upsert_nodup.
Qed.
Lemma raw_map_id p : NoDup p.*1 -> raw_map p = p.
Proof.
  intros Hp. unfold raw_map. enough (forall acc, NoDup (acc ++ p).*1 -> foldl (fun acc kv => upsert kv.1 kv.2 acc) acc p = acc ++ p)
    as Hgen by (by apply (Hgen [])).
  induction p as [|[k v] p IH]; intros acc Ha; csimpl; [by rewrite app_nil_r|].
  rewrite upsert_fresh.
  - rewrite IH; [by rewrite <- app_assoc| |by rewrite <- app_assoc]. csimpl in Hp. by apply NoDup_cons in Hp as [_ ?].
  - rewrite fmap_app in Ha. apply NoDup_app in Ha as (_ & Ha & _). intros Hk. by apply (Ha _ Hk); left.
Qed.
Lemma get_in p k v : NoDup p.*1 -> get p k = Some v <-> (k, v) ∈ p.
Proof.
  induction p as [|[k1 v1] p IH]; csimpl; intros Hp; [split; [done|by intros ?%elem_of_nil]|].
  apply NoDup_cons in Hp as [Hk Hp]. rewrite elem_of_cons. destruct (String.eqb_spec k k1) as [->|Hne].
  - split; [intros [= ->]; by left|]. intros [[= ->]|Hin]; [done|]. exfalso. apply Hk, list_elem_of_fmap. by exists (k1, v).
  - rewrite IH by done. split; [by right|]. intros [[= ? ?]|?]; [done|done].
Qed.
Lemma get_none p k : get p k = None <-> k ∉ p.*1.
Proof.
  induction p as [|[k1 v1] p IH]; csimpl; [split; [intros _; apply not_elem_of_nil|done]|].
  destruct (String.eqb_spec k k1) as [->|Hne]; [split; [done|set_solver]|]. rewrite IH. set_solver.
Qed.
