(* ===== verification/Calendar.v ===== *)
(** * Calendar: go-scheduler/internal/calendar/calendar.go

    Validation of schedules, and the computation of the next occurrence of a
    daily, weekly, hourly or interval schedule in an IANA time zone, including
    the resolution of wall times that a zone transition repeats or skips.
    [LoadLocation] (the IANA database) is a parameter of the section. *)

From S2P Require Import Prelude GoTime.

(** model.Calendar; a nil [Weekdays] slice is [None] *)
Record Calendar := MkCalendar {
  cal_Type : string;
  cal_Timezone : string;
  cal_Hour : option Z;
  cal_Minute : option Z;
  cal_Weekdays : option (list Z);
  cal_IntervalMinutes : option Z;
}.

#[export] Instance Calendar_eq_dec : EqDecision Calendar.
Proof. solve_decision. Defined.

(** model.Target *)
Record Target := MkTarget { tgt_URL : string; tgt_Token : string }.

Inductive cal_error :=
| ErrTimezone | ErrWeekdays | ErrDaily | ErrWeekly | ErrHourly | ErrInterval | ErrCalendarType
| ErrScheduleKey | ErrTargetAlias | ErrUnknownTarget | ErrOperation | ErrPayloadNil
| ErrNoWeekly | ErrNoDaily | ErrUnsupported.

#[export] Instance cal_error_eq_dec : EqDecision cal_error.
Proof. solve_decision. Defined.

(** [len(s.Weekdays)], and the slice's elements *)
Definition weekdays (s : Calendar) : list Z := default [] (cal_Weekdays s).

(** ** Helpers *)

(** The loop of [sort.Search] for [values[i] >= value]. *)
Fixpoint search_ints (fuel : nat) (values : list Z) (value : Z) (i j : nat) : nat :=
  match fuel with
  | O => i
  | S fuel =>
      if (i <? j)%nat then
        let h := ((i + j) / 2)%nat in
        match values !! h with
        | Some x => if x <? value then search_ints fuel values value (S h) j
                    else search_ints fuel values value i h
        | None => i
        end
      else i
  end.

(** [sort.SearchInts] *)
Definition SearchInts (values : list Z) (value : Z) : nat :=
  search_ints (length values) values value 0 (length values).

Definition contains (values : list Z) (value : Z) : bool :=
  let i := SearchInts values value in
  match values !! i with Some x => x =? value | None => false end.

Definition isoWeekday (loc : location) (t : Z) : Z :=
  if Weekday loc t =? 0 then 7 else Weekday loc t.

Definition matchesCivilMinute (loc : location) (t : Z) (date : civil) (hour minute : Z) : bool :=
  let c := local_date loc t in
  (c_year c =? c_year date) && (c_month c =? c_month date) && (c_day c =? c_day date) &&
  (local_hour loc t =? hour) && (local_minute loc t =? minute) &&
  (local_second loc t =? 0) && (local_nano loc t =? 0).

(** ** Validation *)

(** The loop over [weekdays]: each in 1..7 and above its predecessor. *)
Fixpoint weekdays_ascending (prev : option Z) (l : list Z) : bool :=
  match l with
  | [] => true
  | d :: l' =>
      negb ((d <? 1) || (7 <? d) || match prev with Some p => d <=? p | None => false end) &&
      weekdays_ascending (Some d) l'
  end.

Definition is_lower_or_digit (c : Ascii.ascii) : bool :=
  let n := Z.of_nat (Ascii.nat_of_ascii c) in ((97 <=? n) && (n <=? 122)) || ((48 <=? n) && (n <=? 57)).
Definition is_upper (c : Ascii.ascii) : bool :=
  let n := Z.of_nat (Ascii.nat_of_ascii c) in (65 <=? n) && (n <=? 90).
Definition is_one_of (cs : string) (c : Ascii.ascii) : bool :=
  existsb (Ascii.eqb c) (String.list_ascii_of_string cs).

(** [^first rest{0,max}$] *)
Definition match_pattern (first rest : Ascii.ascii -> bool) (max : nat) (s : string) : bool :=
  match String.list_ascii_of_string s with
  | [] => false
  | c :: cs => first c && forallb rest cs && (length cs <=? max)%nat
  end.

Definition keyPattern : string -> bool :=
  match_pattern is_lower_or_digit (fun c => is_lower_or_digit c || is_one_of "._:-" c) 127.
Definition operationPattern : string -> bool :=
  match_pattern (fun c => is_lower_or_digit c || is_upper c)
    (fun c => is_lower_or_digit c || is_upper c || is_one_of "._:-" c) 127.
Definition aliasPattern : string -> bool :=
  match_pattern is_lower_or_digit (fun c => is_lower_or_digit c || is_one_of "-" c) 62.

(** [P] is the type of payloads; a nil map is [None]. *)
Definition ValidateResource {P} (key target operation : string) (payload : option P)
    (targets : gmap string Target) : result cal_error unit :=
  _ ← guard_err (negb (keyPattern key)) ErrScheduleKey;
  _ ← guard_err (negb (aliasPattern target)) ErrTargetAlias;
  _ ← guard_err (negb (bool_decide (is_Some (targets !! target)))) ErrUnknownTarget;
  _ ← guard_err (negb (operationPattern operation)) ErrOperation;
  guard_err (negb (bool_decide (is_Some payload))) ErrPayloadNil.

Definition Normalize (schedule : Calendar) : Calendar :=
  if bool_decide (weekdays schedule = [])
  then MkCalendar (cal_Type schedule) (cal_Timezone schedule) (cal_Hour schedule)
         (cal_Minute schedule) None (cal_IntervalMinutes schedule)
  else schedule.

(** [json.Marshal] then [json.Unmarshal] of a Calendar: [omitempty] drops an
    empty weekday list, which comes back as nil. *)
Definition calendar_json_roundtrip (c : Calendar) : Calendar :=
  MkCalendar (cal_Type c) (cal_Timezone c) (cal_Hour c) (cal_Minute c)
    (match cal_Weekdays c with Some [] => None | w => w end) (cal_IntervalMinutes c).

(** ** Wall times around zone transitions *)

(** The bisection of [civilWallTime] for the second at which the offset
    [previousOffset] ends. *)
Fixpoint bisect (fuel : nat) (loc : location) (previousOffset low high : Z) : Z :=
  match fuel with
  | O => high
  | S fuel =>
      if low + 1 <? high then
        let middle := low + (high - low) / 2 in
        if loc middle =? previousOffset then bisect fuel loc previousOffset middle high
        else bisect fuel loc previousOffset low middle
      else high
  end.

(** The sampling loop: one sample per hour; [n] samples are left.  The result
    is the offsets seen and the transitions (second, old offset, new offset). *)
Fixpoint sample_offsets (n : nat) (loc : location) (previous previousOffset : Z)
    : list Z * list (Z * Z * Z) :=
  match n with
  | O => ([], [])
  | S n =>
      let current := previous + Hour in
      let currentOffset := Zone loc current in
      let '(offs, gaps) := sample_offsets n loc current currentOffset in
      (currentOffset :: offs,
       if currentOffset =? previousOffset then gaps
       else (bisect 12 loc previousOffset (Unix previous) (Unix current), previousOffset, currentOffset) :: gaps)
  end.

(** [for _, candidate := range candidates[1:] { if candidate.Before(first) ... }] *)
Definition earliest (first : Z) (rest : list Z) : Z :=
  fold_left (fun first c => if c <? first then c else first) rest first.

(** The loop over [transitionGaps]: the first forward transition whose gap
    contains the wall time decides. *)
Fixpoint resolve_gap (loc : location) (date : civil) (wall : Z) (gaps : list (Z * Z * Z)) : option Z :=
  match gaps with
  | [] => None
  | (transition, oldOffset, newOffset) :: gaps' =>
      if newOffset <=? oldOffset then resolve_gap loc date wall gaps'
      else
        let gapStart := transition * Second + oldOffset * Second in
        let gapEnd := transition * Second + newOffset * Second in
        if (wall <? gapStart) || negb (wall <? gapEnd) then resolve_gap loc date wall gaps'
        else
          let shiftedWall := wall + (newOffset - oldOffset) * Second in
          let candidate := shiftedWall - newOffset * Second in
          if matchesCivilMinute loc candidate date (local_hour UTC shiftedWall) (local_minute UTC shiftedWall)
          then Some candidate else None
  end.

Definition civil_wall (date : civil) (hour minute : Z) : Z := Date UTC date hour minute 0 0.

Definition sampled (loc : location) (wall : Z) : list Z * list (Z * Z * Z) :=
  let start := wall - 72 * Hour in
  let previousOffset := Zone loc start in
  let '(offs, gaps) := sample_offsets 144 loc start previousOffset in (previousOffset :: offs, gaps).

Definition civilWallTime (date : civil) (hour minute : Z) (loc : location) : option Z :=
  let wall := civil_wall date hour minute in
  let '(offsets, transitionGaps) := sampled loc wall in
  let candidates :=
    filter (fun c => matchesCivilMinute loc c date hour minute = true)
      (map (fun offset => wall - offset * Second) offsets) in
  match candidates with
  | first :: rest => Some (earliest first rest)
  | [] => resolve_gap loc date wall transitionGaps
  end.

(** One turn of the loop of [nextDailyCivil]: the occurrence it returns, or
    [None] for Go's [continue]; [date] and [exclusiveDate] are UTC midnights. *)
Definition daily_turn (days : Z) (schedule : Calendar) (hour minute now date : Z) (loc : location)
    (exclusiveDate : option Z) : option Z :=
  let candidateDate := AddDays UTC date days in
  if match exclusiveDate with Some x => candidateDate <=? x | None => false end then None
  else if negb (bool_decide (weekdays schedule = [])) &&
          negb (contains (weekdays schedule) (isoWeekday UTC candidateDate)) then None
  else match civilWallTime (local_date UTC candidateDate) hour minute loc with
       | Some candidate => if now <? candidate then Some candidate else None
       | None => None
       end.

Fixpoint daily_loop (n : nat) (days : Z) (schedule : Calendar) (hour minute now date : Z) (loc : location)
    (exclusiveDate : option Z) : result cal_error Z :=
  match n with
  | O => Err ErrNoDaily
  | S n =>
      match daily_turn days schedule hour minute now date loc exclusiveDate with
      | Some candidate => Ok candidate
      | None => daily_loop n (days + 1) schedule hour minute now date loc exclusiveDate
      end
  end.

Definition nextDailyCivil (schedule : Calendar) (now : Z) (loc : location) (afterDate : option Z)
    : result cal_error Z :=
  let date := Date UTC (local_date loc now) 0 0 0 0 in
  let exclusiveDate := (fun a => Date UTC (local_date loc a) 0 0 0 0) <$> afterDate in
  let date := match exclusiveDate with Some x => if date <? x then x else date | None => date end in
  daily_loop 3700 0 schedule (default 0 (cal_Hour schedule)) (default 0 (cal_Minute schedule))
    now date loc exclusiveDate.

(** The loop over [days := 0; days <= 7] of the weekly branch. *)
Fixpoint weekly_loop (n : nat) (days : Z) (schedule : Calendar) (now : Z) (loc : location)
    : result cal_error Z :=
  match n with
  | O => Err ErrNoWeekly
  | S n =>
      let candidateDate := AddDays loc now days in
      if negb (contains (weekdays schedule) (isoWeekday loc candidateDate))
      then weekly_loop n (days + 1) schedule now loc
      else
        let candidate := Date loc (local_date loc candidateDate)
                           (default 0 (cal_Hour schedule)) (default 0 (cal_Minute schedule)) 0 0 in
        if now <? candidate then Ok candidate else weekly_loop n (days + 1) schedule now loc
  end.

(** [for !contains(...) { candidate = candidate.Add(24 * time.Hour) }] *)
Fixpoint skip_days (fuel : nat) (wds : list Z) (loc : location) (candidate : Z) : Z :=
  match fuel with
  | O => candidate
  | S fuel =>
      if contains wds (isoWeekday loc candidate) then candidate
      else skip_days fuel wds loc (candidate + 24 * Hour)
  end.

Definition next_hourly (schedule : Calendar) (now : Z) (loc : location) : Z :=
  let legacyLocation := FixedZone (Zone loc now) in
  let minute := default 0 (cal_Minute schedule) in
  let candidate := Date legacyLocation (local_date legacyLocation now)
                     (local_hour legacyLocation now) minute 0 0 in
  let candidate := if negb (now <? candidate) then candidate + Hour else candidate in
  if negb (bool_decide (weekdays schedule = [])) &&
     negb (contains (weekdays schedule) (isoWeekday legacyLocation candidate))
  then let candidate := skip_days 7 (weekdays schedule) legacyLocation candidate in
       Date legacyLocation (local_date legacyLocation candidate) 0 minute 0 0
  else candidate.

Section WithLocations.
Context (LoadLocation : string -> option location).

Definition valid_time (s : Calendar) : bool :=
  match cal_Hour s, cal_Minute s with
  | Some h, Some m => (0 <=? h) && (h <=? 23) && (0 <=? m) && (m <=? 59)
  | _, _ => false
  end.

Definition Validate (s : Calendar) : result cal_error unit :=
  _ ← guard_err ((cal_Timezone s =? "")%string || (cal_Timezone s =? "Local")%string) ErrTimezone;
  _ ← guard_err (negb (bool_decide (is_Some (LoadLocation (cal_Timezone s))))) ErrTimezone;
  _ ← guard_err (negb (weekdays_ascending None (weekdays s))) ErrWeekdays;
  if (cal_Type s =? "daily")%string then
    guard_err (negb (valid_time s) || bool_decide (is_Some (cal_IntervalMinutes s))) ErrDaily
  else if (cal_Type s =? "weekly")%string then
    guard_err (negb (valid_time s) || bool_decide (weekdays s = []) ||
               bool_decide (is_Some (cal_IntervalMinutes s))) ErrWeekly
  else if (cal_Type s =? "hourly")%string then
    guard_err (match cal_Minute s with Some m => (m <? 0) || (59 <? m) | None => true end ||
               bool_decide (is_Some (cal_Hour s)) || bool_decide (is_Some (cal_IntervalMinutes s))) ErrHourly
  else if (cal_Type s =? "interval")%string then
    guard_err (match cal_IntervalMinutes s with Some i => (i <? 1) || (1440 <? i) | None => true end ||
               bool_decide (is_Some (cal_Hour s)) || bool_decide (is_Some (cal_Minute s)) ||
               negb (bool_decide (weekdays s = []))) ErrInterval
  else Err ErrCalendarType.

(** [location, _ := time.LoadLocation(...)] after [Validate] *)
Definition location_of (s : Calendar) : location := default UTC (LoadLocation (cal_Timezone s)).

Definition NextAfter (schedule : Calendar) (now : Z) : result cal_error Z :=
  _ ← Validate schedule;
  let now := truncate Microsecond now in
  let loc := location_of schedule in
  if (cal_Type schedule =? "daily")%string then nextDailyCivil schedule now loc None
  else if (cal_Type schedule =? "weekly")%string then weekly_loop 8 0 schedule now loc
  else if (cal_Type schedule =? "hourly")%string then Ok (next_hourly schedule now loc)
  else if (cal_Type schedule =? "interval")%string
  then Ok (now + default 0 (cal_IntervalMinutes schedule) * Minute)
  else Err ErrUnsupported.

Definition NextAfterOccurrence (schedule : Calendar) (now scheduledFor : Z) : result cal_error Z :=
  if negb (cal_Type schedule =? "daily")%string then NextAfter schedule now
  else
    _ ← Validate schedule;
    nextDailyCivil schedule (truncate Microsecond now) (location_of schedule) (Some scheduledFor).
End WithLocations.

(** ** Lemmas: the sorted weekday list *)

Definition ascending (l : list Z) : Prop :=
  forall i j a b, (i < j)%nat -> l !! i = Some a -> l !! j = Some b -> a < b.

Lemma weekdays_ascending_bounds l p :
  weekdays_ascending p l = true ->
  (forall d, d ∈ l -> 1 <= d <= 7 /\ match p with Some q => q < d | None => True end) /\ ascending l.
Proof.
  revert p. induction l as [|d l IH]; intros p H; simpl in H.
  - split; [intros d Hd; by apply elem_of_nil in Hd | intros i j a b _ Ha; done].
  - bool_to_prop. destruct (IH _ H0) as [Hall Hasc].
    assert (1 <= d <= 7 /\ match p with Some q => q < d | None => True end) as Hd.
    { destruct p; bool_to_prop; split; try done; lia. }
    split.
    + intros x [->|Hx]%elem_of_cons; [done|]. destruct (Hall x Hx) as [Hb Hlt].
      split; [done|]. destruct p; [lia|done].
    + intros [|i] [|j] a b Hij Ha Hb; simpl in *; try lia.
      * injection Ha as <-. apply (Hall b). by eapply list_elem_of_lookup_2.
      * eapply Hasc; [|done..]. lia.
Qed.

Lemma search_ints_spec values value fuel i j :
  ascending values -> (i <= j <= length values)%nat -> (j - i <= fuel)%nat ->
  (forall k x, (k < i)%nat -> values !! k = Some x -> x < value) ->
  (forall k x, (j <= k)%nat -> values !! k = Some x -> value <= x) ->
  let r := search_ints fuel values value i j in
  (forall k x, (k < r)%nat -> values !! k = Some x -> x < value) /\
  (forall k x, (r <= k)%nat -> values !! k = Some x -> value <= x).
Proof.
  intros Hasc. revert i j. induction fuel as [|fuel IH]; intros i j Hij Hf Hlo Hhi; cbn [search_ints].
  - assert (i = j) as -> by lia. done.
  - destruct (i <? j)%nat eqn:Hlt; [|apply Nat.ltb_ge in Hlt; assert (i = j) as -> by lia; done].
    apply Nat.ltb_lt in Hlt.
    assert (i <= (i + j) / 2 < j)%nat as Hh.
    { split; [apply Nat.div_le_lower_bound; lia | apply Nat.div_lt_upper_bound; lia]. }
    set (h := ((i + j) / 2)%nat) in *.
    destruct (lookup_lt_is_Some_2 values h) as [x Hx]; [lia|]. rewrite Hx.
    destruct (x <? value) eqn:Hc; bool_to_prop; apply IH; try lia; try done.
    + intros k y Hk Hy. destruct (decide (k = h)) as [->|]; [congruence|].
      enough (y < x) by lia. eapply Hasc; [|done..]. lia.
    + intros k y Hk Hy. destruct (decide (k = h)) as [->|]; [simplify_eq; lia|].
      enough (x < y) by lia. eapply Hasc; [|done..]. lia.
Qed.

Lemma contains_spec values value :
  ascending values -> contains values value = true <-> value ∈ values.
Proof.
  intros Hasc. unfold contains, SearchInts.
  destruct (search_ints_spec values value (length values) 0 (length values) Hasc) as [Hlo Hhi];
    [lia|lia| |..].
  - intros; lia.
  - intros k x Hk Hx. apply lookup_lt_Some in Hx. lia.
  - set (r := search_ints _ _ _ _ _) in *. clearbody r. split.
    + destruct (values !! r) as [x|] eqn:Hr; [|done]. intros ->%Z.eqb_eq.
      by eapply list_elem_of_lookup_2.
    + intros [k Hk]%list_elem_of_lookup.
      destruct (decide (k < r)%nat) as [Hkr|Hkr]; [specialize (Hlo _ _ Hkr Hk); lia|].
      destruct (lookup_lt_is_Some_2 values r) as [x Hx].
      { apply lookup_lt_Some in Hk. lia. }
      rewrite Hx. apply Z.eqb_eq. assert (value <= x) by (eapply Hhi; [|done]; lia).
      destruct (decide (k = r)) as [->|]; [congruence|].
      enough (x < value) by lia. eapply Hasc; [|done..]. lia.
Qed.

(** ** Lemmas: local clocks *)

Definition time_ok (h m : Z) : Prop := 0 <= h <= 23 /\ 0 <= m <= 59.

Lemma civil_wall_days n h m : civil_wall (civil_from_days n) h m = n * Day + h * Hour + m * Minute.
Proof. unfold civil_wall. rewrite Date_utc, days_civil_days. units. lia. Qed.

Lemma civil_fields_eq (c d : civil) :
  (c_year c =? c_year d) && (c_month c =? c_month d) && (c_day c =? c_day d) = true <-> c = d.
Proof.
  destruct c, d; simpl. rewrite !andb_true_iff, !Z.eqb_eq. split; [intros [[-> ->] ->]; done|].
  by intros [= -> -> ->].
Qed.

Lemma matches_wall loc t n h m :
  matchesCivilMinute loc t (civil_from_days n) h m = true ->
  wall_ns loc t = n * Day + h * Hour + m * Minute /\ local_day loc t = n /\ time_ok h m.
Proof.
  unfold matchesCivilMinute. intros H. bool_to_prop.
  assert (civil_from_days n = local_date loc t) as Hd.
  { symmetry. apply civil_fields_eq. rewrite !andb_true_iff, !Z.eqb_eq. done. }
  apply civil_from_days_inj in Hd. pose proof (wall_fields loc t).
  pose proof (local_hour_bound loc t). pose proof (local_minute_bound loc t).
  unfold time_ok. subst. split_and!; lia.
Qed.

Lemma wall_matches loc t n h m :
  time_ok h m -> wall_ns loc t = n * Day + h * Hour + m * Minute ->
  matchesCivilMinute loc t (civil_from_days n) h m = true.
Proof.
  intros [Hh Hm] Hw. unfold matchesCivilMinute.
  assert (local_day loc t = n /\ local_hour loc t = h /\ local_minute loc t = m /\
          local_second loc t = 0 /\ local_nano loc t = 0) as (Hd & -> & -> & -> & ->).
  { unfold local_day, local_hour, local_minute, local_second, local_nano. rewrite Hw. units.
    split_and!; dlia. }
  rewrite (proj2 (civil_fields_eq (local_date loc t) (civil_from_days n))).
  - by rewrite !Z.eqb_refl.
  - unfold local_date. by rewrite Hd.
Qed.

Lemma earliest_spec first rest :
  earliest first rest ∈ first :: rest /\ Forall (fun c => earliest first rest <= c) (first :: rest).
Proof.
  revert first. induction rest as [|c rest IH]; intros first; simpl.
  - split; [left | repeat constructor; lia].
  - unfold earliest in *. simpl. destruct (IH (if c <? first then c else first)) as [Hin Hle].
    inversion Hle as [|? ? Hx Hr]; subst. split.
    + destruct (c <? first); apply elem_of_cons in Hin as [->|Hin]; set_solver.
    + destruct (c <? first) eqn:E; bool_to_prop; repeat constructor; try lia; done.
Qed.

(** The bisection ends on the first second that no longer has the old offset,
    within the interval it was given. *)
Lemma bisect_spec fuel loc prev low high :
  low < high -> high - low <= 2 ^ Z.of_nat fuel -> loc low = prev -> loc high <> prev ->
  let r := bisect fuel loc prev low high in
  low < r <= high /\ loc (r - 1) = prev /\ loc r <> prev.
Proof.
  revert low high. induction fuel as [|fuel IH]; intros low high Hlt Hf Hl Hh; cbn [bisect]; cbv zeta.
  - simpl in Hf. assert (high = low + 1) as -> by lia. replace (low + 1 - 1) with low by lia. split_and!; [lia|lia|done..].
  - destruct (low + 1 <? high) eqn:E; bool_to_prop.
    2: { assert (high = low + 1) as -> by lia. replace (low + 1 - 1) with low by lia. split_and!; [lia|lia|done..]. }
    rewrite Nat2Z.inj_succ, Z.pow_succ_r in Hf by lia.
    set (mid := low + (high - low) / 2) in *.
    assert (low < mid < high /\ high - mid <= 2 ^ Z.of_nat fuel /\ mid - low <= 2 ^ Z.of_nat fuel) as (Hm & Hr & Hlm)
      by (unfold mid; dlia).
    destruct (loc mid =? prev) eqn:Em; bool_to_prop.
    + destruct (IH mid high ltac:(lia) ltac:(lia) Em Hh) as (H1 & H2 & H3). split_and!; [lia|lia|done..].
    + destruct (IH low mid ltac:(lia) ltac:(lia) Hl Em) as (H1 & H2 & H3). split_and!; [lia|lia|done..].
Qed.

(** ** Wall-time resolution *)

(** The offset at the [k]-th hourly sample of the six-day window. *)
Definition sample_at (loc : location) (wall : Z) (k : nat) : Z :=
  Zone loc (wall - 72 * Hour + Z.of_nat k * Hour).

Lemma sample_offsets_spec n loc previous :
  let '(offs, gaps) := sample_offsets n loc previous (Zone loc previous) in
  (forall o, o ∈ offs <-> exists k, (1 <= k <= n)%nat /\ o = Zone loc (previous + Z.of_nat k * Hour)) /\
  (forall tr old new, (tr, old, new) ∈ gaps ->
     loc (tr - 1) = old /\ loc tr <> old /\ exists k, (k < n)%nat /\
       new = Zone loc (previous + Z.of_nat (S k) * Hour) /\ Unix (previous + Z.of_nat k * Hour) < tr).
Proof.
  revert previous. induction n as [|n IH]; intros previous; cbn [sample_offsets].
  { split; [|by intros ? ? ? ?%elem_of_nil].
    intros o. split; [by intros ?%elem_of_nil|]. intros (k & Hk & _). lia. }
  specialize (IH (previous + Hour)). destruct (sample_offsets n _ _ _) as [offs gaps].
  destruct IH as [IH1 IH2]. split.
  - intros o. rewrite elem_of_cons, IH1. split.
    + intros [->|(k & Hk & ->)]; [exists 1%nat | exists (S k)]; (split; [lia|apply (f_equal (Zone loc)); lia]).
    + intros (k & Hk & ->). destruct (decide (k = 1)%nat) as [->|].
      * left. apply (f_equal (Zone loc)); lia.
      * right. exists (k - 1)%nat. split; [lia|]. apply (f_equal (Zone loc)); lia.
  - assert (forall tr old new, (tr, old, new) ∈ gaps -> loc (tr - 1) = old /\ loc tr <> old /\ exists k, (k < S n)%nat /\
       new = Zone loc (previous + Z.of_nat (S k) * Hour) /\ Unix (previous + Z.of_nat k * Hour) < tr) as Hrest.
    { intros tr old new Hin. destruct (IH2 _ _ _ Hin) as (H1 & H2 & k & Hk & -> & Hu).
      split_and!; [done..|]. exists (S k). split_and!; [lia|apply (f_equal (Zone loc)); lia|].
      by replace (previous + Z.of_nat (S k) * Hour) with (previous + Hour + Z.of_nat k * Hour) by lia. }
    intros tr old new. destruct (_ =? _) eqn:E; bool_to_prop; [apply Hrest|].
    intros [Heq|Hin]%elem_of_cons; [|by apply Hrest]. apply pair_eq in Heq as [Heq ->]. apply pair_eq in Heq as [-> ->].
    assert (Unix (previous + Hour) = Unix previous + 3600) as Hu.
    { unfold Unix. units. dlia. }
    destruct (bisect_spec 12 loc (Zone loc previous) (Unix previous) (Unix (previous + Hour))) as (Hb & Hl & Hr);
      [lia | rewrite Hu; simpl; lia | done | done |].
    split_and!; [done..|]. exists O. split_and!; [lia|apply (f_equal (Zone loc)); lia|].
    replace (previous + Z.of_nat 0 * Hour) with previous by lia. lia.
Qed.

Lemma sampled_spec loc wall :
  (forall o, o ∈ (sampled loc wall).1 <-> exists k, (k <= 144)%nat /\ o = sample_at loc wall k) /\
  (forall tr old new, (tr, old, new) ∈ (sampled loc wall).2 ->
     loc (tr - 1) = old /\ loc tr <> old /\ exists k, (k <= 144)%nat /\ new = sample_at loc wall k).
Proof.
  unfold sampled. pose proof (sample_offsets_spec 144 loc (wall - 72 * Hour)) as H.
  destruct (sample_offsets 144 _ _ _) as [offs gaps]. destruct H as [H1 H2]. simpl. split.
  - intros o. rewrite elem_of_cons, H1. unfold sample_at. split.
    + intros [->|(k & Hk & ->)]; [exists O; split; [lia|apply (f_equal (Zone loc)); lia] | exists k; split; [lia|done]].
    + intros (k & Hk & ->). destruct (decide (k = O)) as [->|]; [left; apply (f_equal (Zone loc)); lia | right].
      exists k. split; [lia|done].
  - intros tr old new Hin. destruct (H2 _ _ _ Hin) as (Ha & Hb & k & Hk & -> & _).
    split_and!; [done..|]. exists (S k). split; [lia|done].
Qed.

(** Every offset in force at an instant whose clock shows the wall time is
    seen by an hourly sample. *)
Definition well_sampled (loc : location) (wall : Z) : Prop :=
  forall t, wall_ns loc t = wall -> exists k, (k <= 144)%nat /\ Zone loc t = sample_at loc wall k.

Lemma resolve_gap_spec loc n wall gaps t :
  resolve_gap loc (civil_from_days n) wall gaps = Some t ->
  exists tr old new, (tr, old, new) ∈ gaps /\ old < new /\ t = wall - old * Second /\
    tr * Second <= t < (tr + (new - old)) * Second /\ local_day loc t = n.
Proof.
  induction gaps as [|[[tr old] new] gaps IH]; cbn [resolve_gap]; [done|].
  destruct (new <=? old) eqn:E1.
  { intros H. destruct (IH H) as (a & b & c & Hin & Hr). exists a, b, c. split; [by right|done]. }
  destruct (_ || _) eqn:E2.
  { intros H. destruct (IH H) as (a & b & c & Hin & Hr). exists a, b, c. split; [by right|done]. }
  destruct (matchesCivilMinute _ _ _ _ _) eqn:E3; [|done]. intros [= <-].
  apply matches_wall in E3 as (_ & Hd & _). bool_to_prop. exists tr, old, new.
  split_and!; [left|done|lia|lia|lia|done].
Qed.

Definition shows (loc : location) (wall t : Z) : Prop :=
  wall_ns loc t = wall /\ exists k, (k <= 144)%nat /\ t = wall - sample_at loc wall k * Second.

Lemma candidates_spec loc n h m wall t :
  wall = n * Day + h * Hour + m * Minute -> time_ok h m ->
  t ∈ filter (fun c => matchesCivilMinute loc c (civil_from_days n) h m = true)
        (map (fun offset => wall - offset * Second) (sampled loc wall).1) <-> shows loc wall t.
Proof.
  intros Hwall Hok. rewrite list_elem_of_filter, list_elem_of_fmap. split.
  - intros (Hm & o & -> & Ho). apply matches_wall in Hm as (Hw & _ & _). rewrite <- Hwall in Hw.
    apply sampled_spec in Ho as (k & Hk & ->). split; eauto.
  - intros (Hw & k & Hk & ->). split; [apply wall_matches; congruence|].
    eexists. split; [done|]. apply sampled_spec. eauto.
Qed.

(** [civilWallTime] in one statement: the earliest sampled instant that shows
    the wall time, or the gap rule when there is none. *)
Lemma civilWallTime_cases loc n h m wall :
  wall = n * Day + h * Hour + m * Minute -> time_ok h m ->
  (exists t, civilWallTime (civil_from_days n) h m loc = Some t /\ shows loc wall t /\
     forall u, shows loc wall u -> t <= u) \/
  ((forall u, ~ shows loc wall u) /\
   civilWallTime (civil_from_days n) h m loc =
   resolve_gap loc (civil_from_days n) wall (sampled loc wall).2).
Proof.
  intros Hwall Hok. unfold civilWallTime. rewrite civil_wall_days, <- Hwall.
  pose proof (fun x => candidates_spec loc n h m wall x Hwall Hok) as Hc.
  destruct (sampled loc wall) as [offs gaps]. simpl in Hc |- *.
  destruct (filter _ _) as [|first rest].
  - right. split; [|done]. intros u Hu%Hc. by apply elem_of_nil in Hu.
  - left. destruct (earliest_spec first rest) as [Hin Hle]. eexists. split; [done|].
    split; [by apply Hc|]. intros u Hu%Hc. rewrite Forall_forall in Hle. by apply Hle.
Qed.

(** ** Results on wall times *)

Lemma local_day_of_wall loc t n h m :
  time_ok h m -> wall_ns loc t = n * Day + h * Hour + m * Minute -> local_day loc t = n.
Proof. intros [? ?] Hw. unfold local_day. rewrite Hw. units. dlia. Qed.

(** What an answer [t] for the wall time [wall] on day [n] may be: an instant
    whose local clock shows the wall time; or, when no sampled offset makes any
    clock show it, a forward transition at second [tr] skips it and [t] is the
    instant it would have denoted under the old offset, at or after [tr]. *)
Definition resolves (loc : location) (n wall t : Z) : Prop :=
  local_day loc t = n /\
  (wall_ns loc t = wall \/
   ((forall k, (k <= 144)%nat -> wall_ns loc (wall - sample_at loc wall k * Second) <> wall) /\
    exists tr old new, loc (tr - 1) = old /\ loc tr <> old /\ old < new /\
      t = wall - old * Second /\ tr * Second <= t < (tr + (new - old)) * Second)).

Lemma wall_time_resolves loc n h m t wall :
  wall = n * Day + h * Hour + m * Minute -> time_ok h m ->
  civilWallTime (civil_from_days n) h m loc = Some t -> resolves loc n wall t.
Proof.
  intros Hwall Hok H.
  destruct (civilWallTime_cases loc n h m wall Hwall Hok) as [(t' & Ht' & [Hw _] & _)|[Hno Hg]].
  - assert (t' = t) as -> by congruence. split; [|by left].
    eapply local_day_of_wall; [done|congruence].
  - rewrite H in Hg. symmetry in Hg.
    destruct (resolve_gap_spec _ _ _ _ _ Hg) as (tr & old & new & Hin & Hlt & Ht & Hr & Hd).
    split; [done|]. right. split.
    + intros k Hk Hw. eapply Hno. split; eauto.
    + destruct (proj2 (sampled_spec loc wall) tr old new Hin) as (Ha & Hb & _).
      exists tr, old, new. split_and!; try assumption; apply Hr.
Qed.

Lemma wall_time_earliest loc n h m t wall :
  wall = n * Day + h * Hour + m * Minute -> time_ok h m ->
  well_sampled loc wall -> wall_ns loc t = wall ->
  exists t', civilWallTime (civil_from_days n) h m loc = Some t' /\ wall_ns loc t' = wall /\
    forall u, wall_ns loc u = wall -> t' <= u.
Proof.
  intros Hwall Hok Hws Ht.
  assert (forall u, wall_ns loc u = wall -> shows loc wall u) as Hall.
  { intros u Hu. split; [done|]. destruct (Hws u Hu) as (k & Hk & Hz).
    exists k. split; [done|]. rewrite <- Hz, <- Hu. unfold wall_ns. lia. }
  destruct (civilWallTime_cases loc n h m wall Hwall Hok) as [(t' & Ht' & [Hw _] & Hmin)|[Hno _]].
  - eauto 10.
  - by destruct (Hno t); apply Hall.
Qed.


(** ** Next occurrences *)

#[local] Opaque civilWallTime sampled.

(** ISO weekday of a day number. *)
Definition iso (d : Z) : Z := if (d + 4) mod 7 =? 0 then 7 else (d + 4) mod 7.

Lemma isoWeekday_day loc t : isoWeekday loc t = iso (local_day loc t).
Proof. done. Qed.

Lemma iso_cycle d w : 1 <= w <= 7 -> exists k, 0 <= k < 7 /\ iso (d + k) = w.
Proof.
  intros Hw. exists ((w - (d + 4)) mod 7). split; [apply Z.mod_pos_bound; lia|].
  unfold iso. destruct (_ =? 0) eqn:E; bool_to_prop; dlia.
Qed.

Definition weekday_allowed (s : Calendar) (d : Z) : Prop := weekdays s = [] \/ iso d ∈ weekdays s.

Lemma midnight loc t : Date UTC (local_date loc t) 0 0 0 0 = local_day loc t * Day.
Proof. rewrite Date_utc. unfold local_date. rewrite days_civil_days. units. lia. Qed.

Lemma utc_day d : local_day UTC (d * Day) = d.
Proof. unfold local_day. rewrite wall_ns_utc. units. dlia. Qed.

Lemma AddDays_midnight d k : AddDays UTC (d * Day) k = (d + k) * Day.
Proof. rewrite AddDays_utc. lia. Qed.

Lemma weekday_test s d :
  ascending (weekdays s) ->
  negb (bool_decide (weekdays s = [])) && negb (contains (weekdays s) (iso d)) = false <->
  weekday_allowed s d.
Proof.
  intros Ha. unfold weekday_allowed. rewrite <- (contains_spec _ _ Ha).
  rewrite andb_false_iff, !negb_false_iff, bool_decide_eq_true. done.
Qed.

Lemma daily_turn_Some k s h m now d loc x t :
  ascending (weekdays s) ->
  daily_turn k s h m now (d * Day) loc ((fun y => y * Day) <$> x) = Some t <->
  now < t /\ civilWallTime (civil_from_days (d + k)) h m loc = Some t /\
  weekday_allowed s (d + k) /\ (forall y, x = Some y -> y < d + k).
Proof.
  intros Ha. unfold daily_turn. rewrite AddDays_midnight, isoWeekday_day, utc_day.
  unfold local_date. rewrite utc_day.
  assert (match (fun y => y * Day) <$> x with Some z => (d + k) * Day <=? z | None => false end = false
          <-> forall y, x = Some y -> y < d + k) as Hx.
  { destruct x as [y|]; simpl; [|by split]. rewrite Z.leb_gt. split.
    - intros H z [= <-]. units. lia.
    - intros H. specialize (H y eq_refl). units. lia. }
  rewrite <- Hx, <- (weekday_test s (d + k) Ha). clear Hx.
  generalize (match (fun y => y * Day) <$> x with Some z => (d + k) * Day <=? z | None => false end).
  generalize (negb (bool_decide (weekdays s = [])) && negb (contains (weekdays s) (iso (d + k)))).
  generalize (civilWallTime (civil_from_days (d + k)) h m loc).
  intros [c|] [] []; try (split; [discriminate | intros (_ & ? & ? & ?); discriminate]).
  destruct (now <? c) eqn:E; bool_to_prop.
  - split; [intros [= ->]; done | intros (_ & [= ->] & _); done].
  - split; [discriminate|]. intros (H1 & [= ->] & _). lia.
Qed.

Lemma daily_loop_Ok n k s h m now d loc x t :
  daily_loop n k s h m now d loc x = Ok t <->
  exists j : nat, (j < n)%nat /\ daily_turn (k + Z.of_nat j) s h m now d loc x = Some t /\
    forall i : nat, (i < j)%nat -> daily_turn (k + Z.of_nat i) s h m now d loc x = None.
Proof.
  revert k. induction n as [|n IH]; intros k; cbn [daily_loop].
  - split; [done|]. intros (j & Hj & _). lia.
  - destruct (daily_turn k s h m now d loc x) as [c|] eqn:Hc.
    + split.
      * intros [= <-]. exists O. split; [lia|]. rewrite Z.add_0_r. split; [done|]. intros i Hi. lia.
      * intros ([|j] & Hj & Ht & Hn); [rewrite Z.add_0_r in Ht; congruence|].
        specialize (Hn O). rewrite Z.add_0_r in Hn. rewrite Hn in Hc; [done|lia].
    + rewrite IH. split.
      * intros (j & Hj & Ht & Hn). exists (S j). split; [lia|].
        replace (k + Z.of_nat (S j)) with (k + 1 + Z.of_nat j) by lia. split; [done|].
        intros [|i] Hi; [by rewrite Z.add_0_r|].
        replace (k + Z.of_nat (S i)) with (k + 1 + Z.of_nat i) by lia. apply Hn. lia.
      * intros ([|j] & Hj & Ht & Hn); [rewrite Z.add_0_r in Ht; congruence|].
        exists j. split; [lia|]. replace (k + 1 + Z.of_nat j) with (k + Z.of_nat (S j)) by lia.
        split; [done|]. intros i Hi.
        replace (k + 1 + Z.of_nat i) with (k + Z.of_nat (S i)) by lia. apply Hn. lia.
Qed.

(** The day from which [nextDailyCivil] searches. *)
Definition first_day (now_day : Z) (consumed : option Z) : Z :=
  match consumed with Some y => Z.max now_day y | None => now_day end.

Lemma nextDailyCivil_unfold s now loc after :
  nextDailyCivil s now loc after =
  daily_loop 3700 0 s (default 0 (cal_Hour s)) (default 0 (cal_Minute s)) now
    (first_day (local_day loc now) (local_day loc <$> after) * Day) loc
    ((fun y => y * Day) <$> (local_day loc <$> after)).
Proof.
  unfold nextDailyCivil. rewrite midnight.
  destruct after as [a|]; cbn [fmap option_fmap option_map]; [|reflexivity].
  rewrite midnight. unfold first_day.
  assert ((if local_day loc now * Day <? local_day loc a * Day then local_day loc a * Day else local_day loc now * Day)
          = Z.max (local_day loc now) (local_day loc a) * Day) as ->; [|reflexivity].
  destruct (_ <? _) eqn:E; bool_to_prop; units; lia.
Qed.

Lemma nextDailyCivil_Ok s now loc after t :
  ascending (weekdays s) -> time_ok (default 0 (cal_Hour s)) (default 0 (cal_Minute s)) ->
  nextDailyCivil s now loc after = Ok t ->
  now < t /\ weekday_allowed s (local_day loc t) /\
  (forall a, after = Some a -> local_day loc a < local_day loc t) /\
  civilWallTime (civil_from_days (local_day loc t)) (default 0 (cal_Hour s)) (default 0 (cal_Minute s)) loc = Some t.
Proof.
  intros Ha Hok. rewrite nextDailyCivil_unfold, daily_loop_Ok.
  intros (j & Hj & Ht & _). apply daily_turn_Some in Ht as (Hnow & Hc & Hw & Hx); [|done].
  destruct (wall_time_resolves _ _ _ _ _ _ eq_refl Hok Hc) as [Hd _].
  rewrite <- Hd in Hc, Hw, Hx. split_and!; [done..| |done].
  intros a ->. by apply Hx.
Qed.

(** ** Hourly schedules (computed at the offset in force now) *)

Lemma fixed_day off t : local_day (FixedZone off) t = (t + off * Second) / Day.
Proof. done. Qed.

Lemma fixed_next_day off t k :
  local_day (FixedZone off) (t + k * (24 * Hour)) = local_day (FixedZone off) t + k.
Proof. rewrite !fixed_day. units. dlia. Qed.

Lemma skip_days_spec fuel wds off t k :
  ascending wds -> 0 <= k -> (Z.to_nat k < fuel)%nat -> iso (local_day (FixedZone off) t + k) ∈ wds ->
  exists j, 0 <= j <= k /\ skip_days fuel wds (FixedZone off) t = t + j * (24 * Hour) /\
    iso (local_day (FixedZone off) t + j) ∈ wds.
Proof.
  intros Ha. revert t k. induction fuel as [|fuel IH]; intros t k Hk Hf Hin; [lia|]. cbn [skip_days].
  rewrite isoWeekday_day. destruct (contains _ _) eqn:E.
  - exists 0. rewrite contains_spec in E by done. split_and!; [lia|lia|lia|by rewrite Z.add_0_r].
  - assert (k <> 0) as Hk0.
    { intros ->. rewrite Z.add_0_r in Hin. apply contains_spec in Hin; [congruence|done]. }
    assert (local_day (FixedZone off) (t + 24 * Hour) = local_day (FixedZone off) t + 1) as Hnext.
    { rewrite <- fixed_next_day. f_equal; lia. }
    destruct (IH (t + 24 * Hour) (k - 1)) as (j & Hj & -> & Hjin); [lia|lia| |].
    + rewrite Hnext. by replace (local_day (FixedZone off) t + 1 + (k - 1)) with (local_day (FixedZone off) t + k) by lia.
    + exists (j + 1). rewrite Hnext in Hjin. split_and!; [lia|lia|lia|].
      by replace (local_day (FixedZone off) t + (j + 1)) with (local_day (FixedZone off) t + 1 + j) by lia.
Qed.

(** The candidate before the weekday rule: within the next hour. *)
Lemma hourly_candidate loc now mi :
  0 <= mi <= 59 ->
  let leg := FixedZone (Zone loc now) in
  let c0 := Date leg (local_date leg now) (local_hour leg now) mi 0 0 in
  let c := if negb (now <? c0) then c0 + Hour else c0 in
  now < c <= now + Hour /\ wall_ns leg c mod Hour = mi * Minute.
Proof.
  intros Hmi leg c0 c.
  assert (wall_ns leg c0 = local_day leg now * Day + local_hour leg now * Hour + mi * Minute) as Hw0.
  { unfold c0, leg. rewrite Date_fixed, wall_ns_fixed. unfold local_date. rewrite days_civil_days. units. lia. }
  pose proof (wall_fields leg now) as Hf.
  assert (0 <= local_minute leg now <= 59 /\ 0 <= local_second leg now <= 59 /\ 0 <= local_nano leg now < Second) as Hb.
  { unfold local_minute, local_second, local_nano. generalize (wall_ns leg now). intros. units. split_and!; dlia. }
  assert (forall t, wall_ns leg t = t + Zone loc now * Second) as Hwall by done.
  rewrite !Hwall in *. unfold c. destruct (now <? c0) eqn:E; bool_to_prop; simpl negb; cbv iota;
    [| replace (c0 + Hour + Zone loc now * Second) with (c0 + Zone loc now * Second + Hour) by lia ];
    rewrite Hw0; clear Hwall c; units; split_and!; try lia; dlia.
Qed.

Definition minute_of_hour (leg : location) (t : Z) : Z := wall_ns leg t mod Hour.

Lemma next_hourly_spec s now loc mi :
  ascending (weekdays s) -> (forall d, d ∈ weekdays s -> 1 <= d <= 7) ->
  cal_Minute s = Some mi -> 0 <= mi <= 59 ->
  let leg := FixedZone (Zone loc now) in
  let t := next_hourly s now loc in
  now < t /\ weekday_allowed s (local_day leg t) /\ minute_of_hour leg t = mi * Minute /\
  t <= now + (if bool_decide (weekdays s = []) then 0 else 7 * Day) + Hour.
Proof.
  intros Ha Hr Hm Hmi leg t. unfold t, next_hourly. rewrite Hm.
  change (default 0 (Some mi)) with mi.
  fold leg. pose proof (hourly_candidate loc now mi Hmi) as Hc. fold leg in Hc. cbv zeta in Hc.
  set (c := if negb (now <? _) then _ else _) in *. destruct Hc as [Hc1 Hc2].
  rewrite isoWeekday_day. destruct (_ && _) eqn:E.
  2: { rewrite weekday_test in E by done. unfold minute_of_hour. split_and!; [lia|done|done|].
       case_bool_decide; units; lia. }
  bool_to_prop. destruct (weekdays s) as [|w wds] eqn:Hwds; [done|].
  destruct (iso_cycle (local_day leg c) w) as (k & Hk & Hiso); [apply Hr; left|].
  destruct (skip_days_spec 7 (w :: wds) (Zone loc now) c k) as (j & Hj & Hs & Hin);
    [done|lia|lia|fold leg; rewrite Hiso; left|].
  fold leg in Hs, Hin. rewrite Hs.
  assert (j <> 0) as Hj0.
  { intros ->. rewrite Z.add_0_r in Hin. apply contains_spec in Hin; [congruence|done]. }
  set (d := local_day leg c + j).
  assert (local_date leg (c + j * (24 * Hour)) = civil_from_days d) as Hld.
  { unfold local_date, leg. by rewrite fixed_next_day. }
  rewrite Hld. set (r := Date leg (civil_from_days d) 0 mi 0 0).
  assert (wall_ns leg r = d * Day + mi * Minute) as Hw.
  { unfold r, leg. rewrite Date_fixed, wall_ns_fixed, days_civil_days. units. lia. }
  assert (local_day leg r = d) as Hd by (unfold local_day; rewrite Hw; units; dlia).
  assert (c + Zone loc now * Second < (local_day leg c + 1) * Day /\ local_day leg c * Day <= c + Zone loc now * Second) as Hcd.
  { unfold leg. rewrite fixed_day. units. dlia. }
  assert (wall_ns leg r = r + Zone loc now * Second) as Hwr by done.
  split_and!.
  - rewrite Hwr in Hw. clearbody r. unfold d in Hw. units. nia.
  - unfold weekday_allowed. fold leg. rewrite Hd, Hwds. by right.
  - unfold minute_of_hour. rewrite Hw. units. dlia.
  - rewrite bool_decide_eq_false_2 by done.
    rewrite Hwr in Hw. clearbody r. unfold d in Hw. units. nia.
Qed.

(** ** Validated schedules *)

Section Validated.
Context (LoadLocation : string -> option location).

Lemma valid_time_ok s :
  valid_time s = true -> time_ok (default 0 (cal_Hour s)) (default 0 (cal_Minute s)).
Proof.
  unfold valid_time, time_ok. destruct (cal_Hour s), (cal_Minute s); simpl; try done.
  intros H. bool_to_prop. lia.
Qed.

Lemma Validate_inv s :
  Validate LoadLocation s = Ok tt ->
  ascending (weekdays s) /\ (forall d, d ∈ weekdays s -> 1 <= d <= 7) /\
  is_Some (LoadLocation (cal_Timezone s)) /\
  ((cal_Type s = "daily" /\ valid_time s = true) \/
   (cal_Type s = "weekly" /\ valid_time s = true /\ weekdays s <> []) \/
   (cal_Type s = "hourly" /\ exists m, cal_Minute s = Some m /\ 0 <= m <= 59) \/
   (cal_Type s = "interval" /\ exists i, cal_IntervalMinutes s = Some i /\ 1 <= i <= 1440)).
Proof.
  unfold Validate. intros H.
  apply result_bind_ok in H as (? & _ & H).
  apply result_bind_ok in H as (? & Hloc%guard_err_ok & H).
  apply result_bind_ok in H as (? & Hw%guard_err_ok & H). bool_to_prop.
  apply weekdays_ascending_bounds in Hw as [Hb Ha].
  split_and!; [done|intros d Hd; by apply Hb|done|].
  repeat match type of H with context [if ?b then _ else _] => destruct b eqn:? end;
    try discriminate; apply guard_err_ok in H; bool_to_prop.
  - left. done.
  - right; left. done.
  - right; right; left. split; [done|]. destruct (cal_Minute s); [|done]. bool_to_prop. eauto with lia.
  - right; right; right. split; [done|]. destruct (cal_IntervalMinutes s); [|done]. bool_to_prop. eauto with lia.
Qed.

Lemma weekly_loop_after n k s now loc t : weekly_loop n k s now loc = Ok t -> now < t.
Proof.
  revert k. induction n as [|n IH]; intros k; cbn [weekly_loop]; [done|].
  destruct (negb _); [apply IH|]. destruct (now <? _) eqn:E; [|apply IH].
  intros [= <-]. by bool_to_prop.
Qed.

Lemma NextAfter_after s now t :
  NextAfter LoadLocation s now = Ok t -> truncate Microsecond now < t.
Proof.
  unfold NextAfter. intros H. apply result_bind_ok in H as ([] & Hv & H).
  apply Validate_inv in Hv as (Ha & Hb & _ & Hty).
  destruct Hty as [[Ht Hv]|[[Ht [Hv Hne]]|[[Ht (m & Hm & Hr)]|[Ht (i & Hi & Hr)]]]];
    rewrite Ht in H; cbn [String.eqb Ascii.eqb Bool.eqb] in H.
  - by apply nextDailyCivil_Ok in H as (? & _); [|done|apply valid_time_ok].
  - by apply weekly_loop_after in H.
  - injection H as <-. by apply next_hourly_spec with (mi := m).
  - injection H as <-. rewrite Hi. change (default 0 (Some i)) with i. units. lia.
Qed.

Lemma NextAfterOccurrence_after s now sf t :
  NextAfterOccurrence LoadLocation s now sf = Ok t -> truncate Microsecond now < t.
Proof.
  unfold NextAfterOccurrence. destruct (cal_Type s =? "daily")%string eqn:Ht; cbn [negb].
  - intros H. bool_to_prop. apply result_bind_ok in H as ([] & Hv & H).
    apply Validate_inv in Hv as (Ha & Hb & _ & Hty).
    assert (valid_time s = true) as Hvt by (destruct Hty as [[_ ?]|[[? _]|[[? _]|[? _]]]]; congruence).
    by apply nextDailyCivil_Ok in H as (? & _); [|done|apply valid_time_ok].
  - apply NextAfter_after.
Qed.

(** Progress.  Whatever the schedule, the zone and the current time, the
    next occurrence lies strictly after the current time, whether computed
    afresh or after an occurrence that just fired, so a schedule that has
    been advanced is no longer due. *)
Theorem NextAfter_progress s now sf t :
  NextAfter LoadLocation s now = Ok t \/ NextAfterOccurrence LoadLocation s now sf = Ok t ->
  truncate Microsecond now < t.
Proof. intros [H|H]; eauto using NextAfter_after, NextAfterOccurrence_after. Qed.

(** a daily schedule never fires twice for one local date: after the
    occurrence [scheduledFor], the next one falls on a strictly later local
    date (and after now, on an allowed weekday), even when [scheduledFor] was
    stored under other zone rules. *)
Theorem NextAfterOccurrence_consumes_date s now scheduledFor t :
  cal_Type s = "daily" ->
  NextAfterOccurrence LoadLocation s now scheduledFor = Ok t ->
  let loc := location_of LoadLocation s in
  local_day loc scheduledFor < local_day loc t /\ truncate Microsecond now < t /\
  weekday_allowed s (local_day loc t).
Proof.
  intros Ht H loc. unfold NextAfterOccurrence in H. rewrite Ht in H. cbn [String.eqb Ascii.eqb Bool.eqb negb] in H.
  apply result_bind_ok in H as ([] & Hv & H).
  apply Validate_inv in Hv as (Ha & Hb & _ & Hty).
  assert (valid_time s = true) as Hvt by (destruct Hty as [[_ ?]|[[? _]|[[? _]|[? _]]]]; congruence).
  apply nextDailyCivil_Ok in H as (H1 & H2 & H3 & _); [|done|by apply valid_time_ok].
  split_and!; [by apply H3|done|done].
Qed.
End Validated.

(** Comparing normalised calendars is stable across persistence: a calendar
    read back from its JSON column equals the one written, once both are
    normalised, whether its weekday list was nil, empty or not. *)
Theorem Normalize_json_stable c : Normalize (calendar_json_roundtrip c) = Normalize c.
Proof. destruct c as [ty tz h m [[|w ws]|] i]; done. Qed.

(** ** Daily schedules in a zone without transitions *)

Lemma civilWallTime_fixed off n h m :
  time_ok h m ->
  civilWallTime (civil_from_days n) h m (FixedZone off) =
  Some (n * Day + h * Hour + m * Minute - off * Second).
Proof.
  intros Hok.
  destruct (wall_time_earliest (FixedZone off) n h m (n * Day + h * Hour + m * Minute - off * Second) _ eq_refl Hok)
    as (t' & Ht' & Hw & _).
  - intros t _. exists O. split; [lia|done].
  - rewrite wall_ns_fixed. lia.
  - rewrite Ht'. f_equal. rewrite wall_ns_fixed in Hw. lia.
Qed.

Lemma daily_loop_total n k s h m now d loc x j t :
  (j < n)%nat -> daily_turn (k + Z.of_nat j) s h m now d loc x = Some t ->
  exists t', daily_loop n k s h m now d loc x = Ok t'.
Proof.
  revert k j. induction n as [|n IH]; intros k j Hj Ht; [lia|]. cbn [daily_loop].
  destruct (daily_turn k _ _ _ _ _ _ _) eqn:E; [eauto|].
  destruct j as [|j]; [rewrite Z.add_0_r in Ht; congruence|].
  apply (IH _ j); [lia|]. by replace (k + 1 + Z.of_nat j) with (k + Z.of_nat (S j)) by lia.
Qed.

Definition daily_occurrence (s : Calendar) (loc : location) (t : Z) : Prop :=
  weekday_allowed s (local_day loc t) /\
  wall_ns loc t = local_day loc t * Day + default 0 (cal_Hour s) * Hour + default 0 (cal_Minute s) * Minute.

Lemma daily_fixed_exact s now off :
  ascending (weekdays s) -> (forall d, d ∈ weekdays s -> 1 <= d <= 7) -> valid_time s = true ->
  exists t, nextDailyCivil s now (FixedZone off) None = Ok t /\ now < t /\
    daily_occurrence s (FixedZone off) t /\
    forall u, now < u -> daily_occurrence s (FixedZone off) u -> t <= u.
Proof.
  intros Ha Hb Hv%valid_time_ok. rewrite nextDailyCivil_unfold. cbn [fmap option_fmap option_map first_day].
  set (h := default 0 (cal_Hour s)) in *. set (m := default 0 (cal_Minute s)) in *.
  set (leg := FixedZone off). set (d0 := local_day leg now).
  set (T := fun d => d * Day + h * Hour + m * Minute - off * Second).
  assert (forall k t, daily_turn k s h m now (d0 * Day) leg None = Some t <->
            t = T (d0 + k) /\ now < t /\ weekday_allowed s (d0 + k)) as Hturn.
  { intros k t. pose proof (daily_turn_Some k s h m now d0 leg None t Ha) as Hd.
    cbn [fmap option_fmap option_map] in Hd. rewrite Hd. unfold leg. rewrite civilWallTime_fixed by done.
    unfold T. split; [intros (? & [= <-] & ? & _); done | intros (-> & ? & ?); done]. }
  assert (forall d, local_day leg (T d) = d) as HT.
  { intros d. unfold leg. rewrite fixed_day. unfold T. destruct Hv. units. dlia. }
  assert (forall k, 1 <= k -> now < T (d0 + k)) as Hlate.
  { intros k Hk. unfold d0, leg, T. rewrite fixed_day. destruct Hv. units. dlia. }
  assert (exists j : nat, (j < 3700)%nat /\ weekday_allowed s (d0 + Z.of_nat j) /\ now < T (d0 + Z.of_nat j)) as (j & Hj & Hwj & Htj).
  { destruct (weekdays s) as [|w wds] eqn:Hw.
    - exists 1%nat. split_and!; [lia|by left|apply Hlate; lia].
    - destruct (iso_cycle (d0 + 1) w) as (k & Hk & Hi); [apply Hb; left|].
      exists (Z.to_nat (1 + k)). rewrite Z2Nat.id by lia. split_and!; [lia| |apply Hlate; lia].
      right. rewrite Hw, Z.add_assoc, Hi. left. }
  destruct (daily_loop_total 3700 0 s h m now (d0 * Day) leg None j (T (d0 + Z.of_nat j))) as [t Ht]; [done|by apply Hturn|].
  exists t. split; [done|]. apply daily_loop_Ok in Ht as (i & Hi & Hti & Hmin).
  rewrite Z.add_0_l in Hti. apply Hturn in Hti as (-> & Hnow & Hwi).
  split; [done|]. split.
  - unfold daily_occurrence. rewrite HT. split; [done|]. unfold leg. rewrite wall_ns_fixed. unfold T. lia.
  - intros u Hu [Hwu Huw].
    assert (u = T (local_day leg u)) as HuT.
    { unfold leg in Huw at 1. rewrite wall_ns_fixed in Huw. unfold T. lia. }
    assert (d0 <= local_day leg u) as Hd.
    { unfold d0, leg. rewrite !fixed_day. units. apply Z.div_le_mono; lia. }
    destruct (decide (local_day leg u < d0 + Z.of_nat i)) as [Hlt|Hge].
    + exfalso. specialize (Hmin (Z.to_nat (local_day leg u - d0))). rewrite Z2Nat.id, Z.add_0_l in Hmin by lia.
      assert (daily_turn (local_day leg u - d0) s h m now (d0 * Day) leg None = Some u) as Hc.
      { apply Hturn. replace (d0 + (local_day leg u - d0)) with (local_day leg u) by lia. done. }
      rewrite Hmin in Hc; [done|lia].
    + rewrite HuT. unfold T. units. lia.
Qed.

Section Exact.
Context (LoadLocation : string -> option location).

(** In a zone without transitions the ten-year search of a valid daily
    schedule never fails and is exact: it returns the least instant after now
    whose local clock shows the configured time on an allowed weekday. *)
Theorem NextAfter_daily_exact s now off :
  Validate LoadLocation s = Ok tt -> cal_Type s = "daily" ->
  LoadLocation (cal_Timezone s) = Some (FixedZone off) ->
  exists t, NextAfter LoadLocation s now = Ok t /\ truncate Microsecond now < t /\
    daily_occurrence s (FixedZone off) t /\
    forall u, truncate Microsecond now < u -> daily_occurrence s (FixedZone off) u -> t <= u.
Proof.
  intros Hv Ht Hl. pose proof (Validate_inv _ _ Hv) as (Ha & Hb & _ & Hty).
  assert (valid_time s = true) as Hvt by (destruct Hty as [[_ ?]|[[? _]|[[? _]|[? _]]]]; congruence).
  destruct (daily_fixed_exact s (truncate Microsecond now) off Ha Hb Hvt) as (t & Hn & Hrest).
  exists t. split; [|done]. unfold NextAfter, location_of. rewrite Hv, Ht, Hl. exact Hn.
Qed.

(** A valid hourly schedule always has a next occurrence: strictly after
    now, on an allowed weekday and at the configured minute (read at the
    offset in force now), at most one hour away without a weekday
    restriction and seven days and an hour away with one. *)
Theorem NextAfter_hourly_exact s now mi :
  Validate LoadLocation s = Ok tt -> cal_Type s = "hourly" -> cal_Minute s = Some mi ->
  let now' := truncate Microsecond now in
  let leg := FixedZone (Zone (location_of LoadLocation s) now') in
  exists t, NextAfter LoadLocation s now = Ok t /\ now' < t /\
    weekday_allowed s (local_day leg t) /\ minute_of_hour leg t = mi * Minute /\
    t <= now' + (if bool_decide (weekdays s = []) then 0 else 7 * Day) + Hour.
Proof.
  intros Hv Ht Hm now' leg. pose proof (Validate_inv _ _ Hv) as (Ha & Hb & _ & Hty).
  assert (0 <= mi <= 59) as Hmi.
  { destruct Hty as [[? _]|[[? _]|[[_ (m & ? & ?)]|[? _]]]]; congruence. }
  eexists. split; [unfold NextAfter; rewrite Hv, Ht; reflexivity|].
  by apply next_hourly_spec.
Qed.
End Exact.

(** ** Concrete instances *)

(** Belgrade in 2026: the clock goes forward at 2026-03-29 01:00 UTC and back at
    2026-10-25 01:00 UTC. *)
Definition belgrade_2026 : location := fun s =>
  if s <? 1774746000 then 3600 else if s <? 1792890000 then 7200 else 3600.

Definition zones (name : string) : option location :=
  if (name =? "Europe/Belgrade")%string then Some belgrade_2026
  else if (name =? "Etc/GMT-3")%string then Some (FixedZone 10800) else None.

Definition daily_0230 : Calendar := MkCalendar "daily" "Europe/Belgrade" (Some 2) (Some 30) None None.
Definition daily_fixed : Calendar := MkCalendar "daily" "Etc/GMT-3" (Some 9) (Some 15) (Some [1; 3; 7]) None.
Definition hourly_weekend : Calendar := MkCalendar "hourly" "Europe/Belgrade" None (Some 5) (Some [6; 7]) None.

(** 2026-03-28 20:00 UTC *)
Definition before_gap : Z := 1774728000 * Second.

(** The skipped 02:30 of 2026-03-29 fires at 03:30 summer time, 01:30 UTC. *)
Example gap_shifts_forward : NextAfter zones daily_0230 before_gap = Ok (1774747800 * Second).
Proof. by_eval. Qed.
(** The repeated 02:30 of 2026-10-25 fires once, at its first instant, 00:30 UTC. *)
Example fold_takes_first :
  NextAfter zones daily_0230 (1792872000 * Second) = Ok (1792888200 * Second).
Proof. by_eval. Qed.


Lemma NextAfter_progress_witness :
  NextAfter zones daily_0230 before_gap = Ok (1774747800 * Second) /\
  truncate Microsecond before_gap < 1774747800 * Second.
Proof. split; [by_eval|]. apply (NextAfter_progress zones daily_0230 _ 0). left. by_eval. Defined.

Lemma NextAfterOccurrence_consumes_date_witness :
  let loc := location_of zones daily_0230 in
  local_day loc (1774747800 * Second) < local_day loc (1774830600 * Second) /\
  truncate Microsecond before_gap < 1774830600 * Second /\
  weekday_allowed daily_0230 (local_day loc (1774830600 * Second)).
Proof.
  apply (NextAfterOccurrence_consumes_date zones daily_0230 before_gap); [reflexivity|by_eval].
Defined.

Lemma NextAfter_daily_exact_witness :
  exists t, NextAfter zones daily_fixed before_gap = Ok t /\ truncate Microsecond before_gap < t /\
    daily_occurrence daily_fixed (FixedZone 10800) t /\
    forall u, truncate Microsecond before_gap < u -> daily_occurrence daily_fixed (FixedZone 10800) u -> t <= u.
Proof. apply NextAfter_daily_exact; [by_eval|reflexivity|reflexivity]. Defined.

Lemma NextAfter_hourly_exact_witness :
  let now' := truncate Microsecond before_gap in
  let leg := FixedZone (Zone (location_of zones hourly_weekend) now') in
  exists t, NextAfter zones hourly_weekend before_gap = Ok t /\ now' < t /\
    weekday_allowed hourly_weekend (local_day leg t) /\ minute_of_hour leg t = 5 * Minute /\
    t <= now' + (if bool_decide (weekdays hourly_weekend = []) then 0 else 7 * Day) + Hour.
Proof. apply NextAfter_hourly_exact; [by_eval|reflexivity|reflexivity]. Defined.
