(* ===== verification/SchedulerStore.v ===== *)
(** * SchedulerStore: go-scheduler/internal/store/store.go and model/model.go

    The scheduler's tables (migrations/001_initial.sql) and every operation of
    the store that reads or changes them: schedules with optimistic revisions,
    the pause switch, imports, generation of due occurrences into the outbox,
    and the lease protocol by which the dispatcher drains it.

    Rows are kept in maps from their primary keys; an occurrence id or a token
    is its canonical text.  Statements carry their WHERE, ORDER BY and LIMIT
    clauses; the primary keys and the partial unique index
    [occurrences_one_unaccepted_per_schedule_idx] are enforced by INSERT. *)

From S2P Require Import Prelude JsonStrict GoTime Db GoText Calendar.

(** ** model.go *)

Record Schedule := MkSchedule {
  sch_Key : string;
  sch_Revision : Z;
  sch_Enabled : bool;
  sch_Calendar : Calendar;
  sch_Target : string;
  sch_Operation : string;
  sch_Payload : gomap;
  sch_NextDueAt : option Z;
  sch_CreatedAt : Z;
  sch_UpdatedAt : Z;
}.

Record Mutation := MkMutation {
  mut_ExpectedRevision : Z;
  mut_Enabled : bool;
  mut_Calendar : Calendar;
  mut_Target : string;
  mut_Operation : string;
  mut_Payload : gomap;
}.

Record Envelope := MkEnvelope {
  env_Version : Z;
  env_OccurrenceID : string;
  env_ScheduleKey : string;
  env_ScheduleRevision : Z;
  env_ScheduledFor : Z;
  env_Operation : string;
  env_Payload : gomap;
}.

(** ** Tables *)

(** The CHECK constraint of [occurrences.status]. *)
Inductive ostatus := pending | leased | blocked | accepted.

#[export] Instance ostatus_eq_dec : EqDecision ostatus.
Proof. solve_decision. Defined.

Record schedule_row := ScheduleRow {
  s_revision : Z;
  s_enabled : bool;
  s_calendar : Calendar;
  s_target : string;
  s_operation : string;
  s_payload : json;
  s_next_due_at : option Z;
  s_created_at : Z;
  s_updated_at : Z;
}.

Record occurrence_row := OccurrenceRow {
  o_key : string;
  o_revision : Z;
  o_scheduled_for : Z;
  o_target : string;
  o_operation : string;
  o_payload : json;
  o_status : ostatus;
  o_attempts : Z;
  o_available_at : Z;
  o_lease_token : option string;
  o_lease_until : option Z;
  o_job_id : option string;
  o_last_error : option string;
  o_created_at : Z;
  o_updated_at : Z;
}.

Record Control := MkControl { ctl_Revision : Z; ctl_Paused : bool; ctl_UpdatedAt : Z }.

Record service_state := ServiceState {
  st_last_tick_at : option Z;
  st_last_dispatch_at : option Z;
}.

Record tables := Tables {
  t_schedules : gmap string schedule_row;
  t_outbox : gmap string occurrence_row;
  t_control : Control;
  t_state : service_state;
}.

Definition set_schedules (m : gmap string schedule_row) (d : tables) : tables :=
  Tables m (t_outbox d) (t_control d) (t_state d).
Definition set_outbox (m : gmap string occurrence_row) (d : tables) : tables :=
  Tables (t_schedules d) m (t_control d) (t_state d).
Definition set_control (c : Control) (d : tables) : tables :=
  Tables (t_schedules d) (t_outbox d) c (t_state d).
Definition set_state (s : service_state) (d : tables) : tables :=
  Tables (t_schedules d) (t_outbox d) (t_control d) s.

(** ** Errors *)

Inductive sched_error :=
| ErrNotFound | ErrConflict | ErrImportConflict | ErrImportPaused | ErrLeaseLost
| ErrOccurrenceNotFound | ErrOccurrenceNotRetryable
| ErrCalendar (e : cal_error)
| ErrPayloadSize | ErrBatchSize | ErrDuplicateKey | ErrDisabledDue | ErrEnabledDue
| ErrPayloadDecode | ErrNoRows
| ErrDriver (e : dberr)
| ErrRandom.

#[export] Instance sched_error_eq_dec : EqDecision sched_error.
Proof. solve_decision. Defined.

Notation SM := (M tables sched_error).

(** The error of a call that failed in the driver. *)
Definition db_failed : sched_error := ErrDriver DbFault.

(** ** Statements on the outbox *)

Definition unaccepted (o : occurrence_row) : bool := negb (bool_decide (o_status o = accepted)).

(** [EXISTS (SELECT 1 FROM occurrences o WHERE o.schedule_key=k AND o.status<>'accepted')] *)
Definition has_unaccepted (key : string) (d : tables) : bool :=
  existsb (fun kv => bool_decide (o_key kv.2 = key) && unaccepted kv.2) (map_to_list (t_outbox d)).

(** [SELECT count(ROWS) FROM occurrences WHERE status<>'accepted'] *)
Definition outstanding (d : tables) : Z :=
  Z.of_nat (length (filter (fun kv => unaccepted kv.2 = true) (map_to_list (t_outbox d)))).

Definition insert_occurrence (id : string) (o : Z -> occurrence_row) : stmt tables unit := fun _ now d =>
  let row := o (pg_time now) in
  if bool_decide (is_Some (t_outbox d !! id)) || (unaccepted row && has_unaccepted (o_key row) d)
  then (Err UniqueViolation, d)
  else (Ok tt, set_outbox (<[id := row]> (t_outbox d)) d).

(** [UPDATE occurrences SET ... WHERE occurrence_id=id AND cond]; the result is
    the number of affected rows. *)
Definition update_occurrence (id : string) (cond : Z -> occurrence_row -> bool)
    (f : occurrence_row -> occurrence_row) : stmt tables Z := fun _ now d =>
  match t_outbox d !! id with
  | Some o => if cond (pg_time now) o then (Ok 1, set_outbox (<[id := f o]> (t_outbox d)) d) else (Ok 0, d)
  | None => (Ok 0, d)
  end.

(** [status='leased' AND lease_token=$2::uuid AND lease_until>clock_timestamp()] *)
Definition holds_lease (token : string) (now : Z) (o : occurrence_row) : bool :=
  bool_decide (o_status o = leased) && bool_decide (o_lease_token o = Some token) &&
  match o_lease_until o with Some u => now <? u | None => false end.

(** A row with its mutable columns replaced. *)
Definition set_lease (status : ostatus) (attempts available : Z) (token : option string)
    (until : option Z) (job : option string) (code : option string) (updated : Z)
    (o : occurrence_row) : occurrence_row :=
  OccurrenceRow (o_key o) (o_revision o) (o_scheduled_for o) (o_target o) (o_operation o) (o_payload o)
    status attempts available token until job code (o_created_at o) updated.

Definition select_paused : stmt tables bool := read (fun _ d => ctl_Paused (t_control d)).
Definition clock_timestamp {D} : stmt D Z := read (fun now _ => pg_time now).

Definition set_last_tick (t : Z) : stmt tables unit := write (fun _ d =>
  set_state (ServiceState (Some (pg_time t)) (st_last_dispatch_at (t_state d))) d).
Definition set_last_dispatch (t : Z) : stmt tables unit := write (fun _ d =>
  set_state (ServiceState (st_last_tick_at (t_state d)) (Some (pg_time t))) d).

(** ** Statements on schedules *)

Definition select_schedule (key : string) : stmt tables (option schedule_row) :=
  read (fun _ d => t_schedules d !! key).

Definition insert_schedule (key : string) (row : schedule_row) : stmt tables unit := fun _ _ d =>
  if bool_decide (is_Some (t_schedules d !! key)) then (Err UniqueViolation, d)
  else (Ok tt, set_schedules (<[key := row]> (t_schedules d)) d).

Definition update_schedule (key : string) (f : schedule_row -> schedule_row) : stmt tables unit :=
  write (fun _ d => set_schedules (alter f key (t_schedules d)) d).

Definition delete_schedule (key : string) : stmt tables unit :=
  write (fun _ d => set_schedules (delete key (t_schedules d)) d).

(** ** Scanning rows *)

(** [decodeJSONMap]: an object, or null for the nil map *)
Definition decodeJSONMap (j : json) : result sched_error gomap :=
  match j with
  | JObj l => Ok (Some l)
  | JNull => Ok None
  | _ => Err ErrPayloadDecode
  end.

Definition scanSchedule (key : string) (r : schedule_row) : result sched_error Schedule :=
  payload ← decodeJSONMap (s_payload r);
  Ok (MkSchedule key (s_revision r) (s_enabled r) (s_calendar r) (s_target r) (s_operation r) payload
    (s_next_due_at r) (s_created_at r) (s_updated_at r)).

Definition sameTime (a b : option Z) : bool := bool_decide (a = b).

Section Store.
Context `{Postgres} (LoadLocation : string -> option location).

(** The row an INSERT of [calJSON] and [payloadJSON] leaves. *)
Definition new_schedule (m : Mutation) (next : option Z) (now : Z) : schedule_row :=
  ScheduleRow 1 (mut_Enabled m) (calendar_json_roundtrip (mut_Calendar m)) (mut_Target m)
    (mut_Operation m) (jsonb (json_of_map (mut_Payload m))) (pg_time <$> next) (pg_time now) (pg_time now).

Definition sameConfig (current : Schedule) (m : Mutation) : SM bool :=
  if negb (Bool.eqb (sch_Enabled current) (mut_Enabled m)) ||
     negb (bool_decide (Normalize (sch_Calendar current) = Normalize (mut_Calendar m))) ||
     negb (sch_Target current =? mut_Target m)%string ||
     negb (sch_Operation current =? mut_Operation m)%string
  then mret false
  else
    row ← exec ErrDriver (select_schedule (sch_Key current));
    match row with
    | None => raise ErrNoRows
    | Some r => mret (jsonb_eqb (s_payload r) (json_of_map (mut_Payload m)))
    end.

Definition GetSchedule (key : string) : SM Schedule :=
  row ← exec ErrDriver (select_schedule key);
  match row with
  | None => raise ErrNotFound
  | Some r => lift (scanSchedule key r)
  end.

(** The checks before the transaction of [PutSchedule]; the result is [next]. *)
Definition put_checks (key : string) (m : Mutation) (targets : gmap string Target) (now : Z)
    : result sched_error (option Z) :=
  _ ← map_err ErrCalendar (Validate LoadLocation (mut_Calendar m));
  _ ← map_err ErrCalendar (ValidateResource key (mut_Target m) (mut_Operation m) (mut_Payload m) targets);
  next ← (if mut_Enabled m
          then v ← map_err ErrCalendar (NextAfter LoadLocation (mut_Calendar m) now); Ok (Some v)
          else Ok None);
  _ ← guard_err (4096 <? len (marshal (json_of_map (mut_Payload m)))) ErrPayloadSize;
  Ok next.

(** [UPDATE schedules SET revision=revision+1, ...] *)
Definition revised (m : Mutation) (next : option Z) (now : Z) (r : schedule_row) : schedule_row :=
  ScheduleRow (s_revision r + 1) (mut_Enabled m) (calendar_json_roundtrip (mut_Calendar m))
    (mut_Target m) (mut_Operation m) (jsonb (json_of_map (mut_Payload m))) (pg_time <$> next)
    (s_created_at r) (pg_time now).

(** The transaction of [PutSchedule] on each branch.  [None] stands for "read
    the row back": the code calls [GetSchedule] on the pool once [Commit]
    succeeded, so outside the transaction.  The flag is [created]. *)
Definition put_create (key : string) (m : Mutation) (next : option Z) (now : Z)
    : SM (option Schedule * bool) :=
  _ ← guard_m (negb (mut_ExpectedRevision m =? 0)) ErrConflict;
  ins ← try_exec (insert_schedule key (new_schedule m next now));
  match ins with
  | Err UniqueViolation => raise ErrConflict
  | Err e => raise (ErrDriver e)
  | Ok _ =>
      _ ← commit db_failed;
      mret (None, true)
  end.

Definition put_update (key : string) (m : Mutation) (next : option Z) (now : Z) (r : schedule_row)
    : SM (option Schedule * bool) :=
  current ← lift (scanSchedule key r);
  _ ← guard_m (negb (mut_ExpectedRevision m =? sch_Revision current)) ErrConflict;
  same ← sameConfig current m;
  if (same : bool) then
    _ ← commit db_failed;
    mret (Some current, false)
  else
    _ ← exec ErrDriver (update_schedule key (revised m next now));
    _ ← commit db_failed;
    mret (None, false).

Definition put_body (key : string) (m : Mutation) (next : option Z) (now : Z)
    : SM (option Schedule * bool) :=
  current ← exec ErrDriver (select_schedule key);
  match current with
  | None => put_create key m next now
  | Some r => put_update key m next now r
  end.

Definition PutSchedule (key : string) (m : Mutation) (targets : gmap string Target) (now : Z)
    : SM (Schedule * bool) :=
  next ← lift (put_checks key m targets now);
  '(current, created) ← with_tx db_failed (put_body key m next now);
  match current with
  | Some s => mret (s, created)
  | None => s ← GetSchedule key; mret (s, created)
  end.

Definition DeleteSchedule (key : string) (expected : Z) : SM unit :=
  with_tx db_failed (
    current ← exec ErrDriver (select_schedule key);
    match current with
    | None => raise ErrNotFound
    | Some r =>
        _ ← guard_m (negb (s_revision r =? expected)) ErrConflict;
        _ ← exec ErrDriver (delete_schedule key);
        _ ← commit db_failed;
        mret tt
    end).

Definition GetControl : SM Control := exec ErrDriver (read (fun _ d => t_control d)).

Definition update_control (paused : bool) (t : Z) : stmt tables Control := fun _ _ d =>
  let c := MkControl (ctl_Revision (t_control d) + 1) paused (pg_time t) in
  (Ok c, set_control c d).

Definition SetPaused (expected : Z) (paused : bool) (now : Z) : SM Control :=
  with_tx db_failed (
    current ← exec ErrDriver (read (fun _ d => t_control d));
    _ ← guard_m (negb (ctl_Revision current =? expected)) ErrConflict;
    if Bool.eqb (ctl_Paused current) paused then
      _ ← commit db_failed;
      mret current
    else
      updated ← exec ErrDriver (update_control paused now);
      _ ← commit db_failed;
      mret updated).

(** ** Import *)

Record ImportItem := MkImportItem {
  imp_Key : string;
  imp_Enabled : bool;
  imp_Calendar : Calendar;
  imp_Target : string;
  imp_Operation : string;
  imp_Payload : gomap;
  imp_NextDueAt : option Z;
}.

Record ImportResult := MkImportResult {
  res_ControlRevision : Z;
  res_Created : list string;
  res_Unchanged : list string;
}.

Definition import_check (targets : gmap string Target) (item : ImportItem) : result sched_error unit :=
  _ ← map_err ErrCalendar (Validate LoadLocation (imp_Calendar item));
  _ ← map_err ErrCalendar (ValidateResource (imp_Key item) (imp_Target item) (imp_Operation item)
        (imp_Payload item) targets);
  _ ← guard_err (negb (imp_Enabled item) && bool_decide (is_Some (imp_NextDueAt item))) ErrDisabledDue;
  _ ← guard_err (imp_Enabled item && negb (bool_decide (is_Some (imp_NextDueAt item)))) ErrEnabledDue;
  guard_err (4096 <? len (marshal (json_of_map (imp_Payload item)))) ErrPayloadSize.

(** The first loop over the batch, with the keys seen so far. *)
Fixpoint import_checks (targets : gmap string Target) (seen : gset string) (items : list ImportItem)
    : result sched_error unit :=
  match items with
  | [] => Ok tt
  | item :: items' =>
      _ ← guard_err (bool_decide (imp_Key item ∈ seen)) ErrDuplicateKey;
      _ ← import_check targets item;
      import_checks targets ({[imp_Key item]} ∪ seen) items'
  end.

Definition import_mutation (item : ImportItem) : Mutation :=
  MkMutation 0 (imp_Enabled item) (imp_Calendar item) (imp_Target item) (imp_Operation item) (imp_Payload item).

(** One turn of the second loop: was the schedule created? *)
Definition import_one (now : Z) (item : ImportItem) : SM bool :=
  current ← exec ErrDriver (select_schedule (imp_Key item));
  match current with
  | None =>
      _ ← exec ErrDriver (insert_schedule (imp_Key item)
            (new_schedule (import_mutation item) (imp_NextDueAt item) now));
      mret true
  | Some r =>
      current ← lift (scanSchedule (imp_Key item) r);
      same ← sameConfig current (import_mutation item);
      _ ← guard_m (negb same || negb (sameTime (sch_NextDueAt current) (imp_NextDueAt item))) ErrImportConflict;
      mret false
  end.

(** [sort.Strings] *)
Definition str_le (a b : string) : Prop := String.leb a b = true.
#[global] Instance str_le_dec : RelDecision str_le.
Proof. intros a b. unfold str_le. apply _. Defined.
Definition sort_Strings (l : list string) : list string := merge_sort str_le l.

Definition keys_where (flag : bool) (items : list ImportItem) (created : list bool) : list string :=
  map (fun p => imp_Key p.1) (filter (fun p => p.2 = flag) (zip items created)).

Definition import_body (expectedControl : Z) (items : list ImportItem) (now : Z) : SM ImportResult :=
  control ← exec ErrDriver (read (fun _ d => t_control d));
  _ ← guard_m (negb (ctl_Paused control)) ErrImportPaused;
  _ ← guard_m (negb (ctl_Revision control =? expectedControl)) ErrConflict;
  created ← map_each (import_one now) items;
  _ ← commit db_failed;
  mret (MkImportResult (ctl_Revision control)
    (sort_Strings (keys_where true items created))
    (sort_Strings (keys_where false items created))).

Definition Import (expectedControl : Z) (items : list ImportItem) (targets : gmap string Target)
    (now : Z) : SM ImportResult :=
  _ ← guard_m ((length items <? 1)%nat || (100 <? length items)%nat) ErrBatchSize;
  _ ← lift (import_checks targets ∅ items);
  with_tx db_failed (import_body expectedControl items now).

(** ** GenerateDue *)

Definition due_at (now : Z) (r : schedule_row) : bool :=
  s_enabled r && match s_next_due_at r with Some t => t <=? now | None => false end.

(** [ORDER BY s.next_due_at,s.schedule_key] *)
Definition due_le (a b : string * schedule_row) : Prop :=
  let ta := default 0 (s_next_due_at a.2) in let tb := default 0 (s_next_due_at b.2) in
  ta < tb \/ (ta = tb /\ text_leb a.1 b.1 = true).
#[global] Instance due_le_dec : RelDecision due_le.
Proof. intros a b. unfold due_le. apply _. Defined.

Definition select_due (now limit : Z) : stmt tables (list (string * schedule_row)) := fun locked _ d =>
  (limit_rows limit (merge_sort due_le (filter (fun kr =>
     due_at (pg_time now) kr.2 && negb (has_unaccepted kr.1 d) && negb (locked kr.1) = true)
     (map_to_list (t_schedules d)))), d).

Definition set_next_due (t : Z) (r : schedule_row) : schedule_row :=
  ScheduleRow (s_revision r) (s_enabled r) (s_calendar r) (s_target r) (s_operation r) (s_payload r)
    (Some (pg_time t)) (s_created_at r) (s_updated_at r).

Definition new_occurrence (key : string) (r : schedule_row) (availableAt created : Z) : occurrence_row :=
  OccurrenceRow key (s_revision r) (default 0 (s_next_due_at r)) (s_target r) (s_operation r)
    (s_payload r) pending 0 availableAt None None None None created created.

Definition newUUID : SM string := b ← rand_read ErrRandom; mret (uuid_text b).

(** One turn of the loop over [dueRows]. *)
Definition generate_one (now availableAt : Z) (kr : string * schedule_row) : SM unit :=
  let '(key, r) := kr in
  _ ← lift (decodeJSONMap (s_payload r));
  id ← newUUID;
  _ ← exec ErrDriver (insert_occurrence id (new_occurrence key r availableAt));
  next ← lift (map_err ErrCalendar
           (NextAfterOccurrence LoadLocation (s_calendar r) now (default 0 (s_next_due_at r))));
  exec ErrDriver (update_schedule key (set_next_due next)).

Definition generate_body (now limit maxOutbox : Z) : SM Z :=
  paused ← exec ErrDriver select_paused;
  if (paused : bool) then
    _ ← exec ErrDriver (set_last_tick now);
    _ ← commit db_failed;
    mret 0
  else
    availableAt ← exec ErrDriver clock_timestamp;
    out ← exec ErrDriver (read (fun _ d => outstanding d));
    if maxOutbox <=? out then
      _ ← exec ErrDriver (set_last_tick now);
      _ ← commit db_failed;
      mret 0
    else
      let free := maxOutbox - out in
      let limit := if free <? limit then free else limit in
      due ← exec ErrDriver (select_due now limit);
      _ ← for_each (generate_one now availableAt) due;
      _ ← exec ErrDriver (set_last_tick now);
      _ ← commit db_failed;
      mret (Z.of_nat (length due)).

Definition GenerateDue (now limit maxOutbox : Z) : SM Z :=
  with_tx db_failed (generate_body (truncate Microsecond now) limit maxOutbox).

(** ** The lease protocol *)

Record Claimed := MkClaimed {
  cl_Envelope : Envelope;
  cl_TargetAlias : string;
  cl_LeaseToken : string;
  cl_Attempt : Z;
}.

(** [(status='pending' AND available_at<=$1) OR (status='leased' AND lease_until<=$1)] *)
Definition claimable (now : Z) (o : occurrence_row) : bool :=
  match o_status o with
  | pending => o_available_at o <=? now
  | leased => match o_lease_until o with Some u => u <=? now | None => false end
  | _ => false
  end.

(** [ORDER BY available_at,created_at,occurrence_id] *)
Definition dispatch_le (a b : string * occurrence_row) : Prop :=
  o_available_at a.2 < o_available_at b.2 \/
  (o_available_at a.2 = o_available_at b.2 /\
    (o_created_at a.2 < o_created_at b.2 \/
     (o_created_at a.2 = o_created_at b.2 /\ uuid_leb a.1 b.1 = true))).
#[global] Instance dispatch_le_dec : RelDecision dispatch_le.
Proof. intros a b. unfold dispatch_le. apply _. Defined.

Definition select_claimable (dbNow limit : Z) : stmt tables (list (string * occurrence_row)) :=
  fun locked _ d =>
    (limit_rows limit (merge_sort dispatch_le (filter (fun ko =>
       claimable dbNow ko.2 && negb (locked ko.1) = true) (map_to_list (t_outbox d)))), d).

Definition take_lease (token : string) (until now : Z) (o : occurrence_row) : occurrence_row :=
  set_lease leased (o_attempts o + 1) (o_available_at o) (Some token) (Some (pg_time until)) (o_job_id o)
    (o_last_error o) now o.

(** One turn of the loop over the candidates. *)
Definition claim_one (dbNow lease : Z) (ko : string * occurrence_row) : SM Claimed :=
  let '(id, o) := ko in
  token ← newUUID;
  _ ← exec ErrDriver (update_occurrence id (fun _ _ => true) (take_lease token (dbNow + lease) dbNow));
  payload ← lift (decodeJSONMap (o_payload o));
  mret (MkClaimed (MkEnvelope 1 id (o_key o) (o_revision o) (o_scheduled_for o) (o_operation o) payload)
          (o_target o) token (o_attempts o + 1)).

Definition claim_body (lease limit : Z) : SM (list Claimed) :=
  paused ← exec ErrDriver select_paused;
  if (paused : bool) then
    _ ← commit db_failed;
    mret []
  else
    dbNow ← exec ErrDriver clock_timestamp;
    candidates ← exec ErrDriver (select_claimable dbNow limit);
    claimed ← map_each (claim_one dbNow lease) candidates;
    _ ← commit db_failed;
    mret claimed.

Definition Claim (lease limit : Z) : SM (list Claimed) := with_tx db_failed (claim_body lease limit).

Definition Ack (id token jobID : string) (now : Z) : SM unit :=
  let now := truncate Microsecond now in
  tag ← exec ErrDriver (update_occurrence id (holds_lease token) (fun o =>
    set_lease accepted (o_attempts o) (o_available_at o) None None (Some jobID) None now o));
  _ ← guard_m (negb (tag =? 1)) ErrLeaseLost;
  exec ErrDriver (set_last_dispatch now).

Definition MarkDispatch (now : Z) : SM unit := exec ErrDriver (set_last_dispatch now).
Definition MarkTick (now : Z) : SM unit := exec ErrDriver (set_last_tick now).

Definition Retry (id token code : string) (next now : Z) : SM unit :=
  let now := truncate Microsecond now in
  let delay := if next - now <? 0 then 0 else next - now in
  dbNow ← exec ErrDriver clock_timestamp;
  tag ← exec ErrDriver (update_occurrence id (holds_lease token) (fun o =>
    set_lease pending (o_attempts o) (pg_time (dbNow + delay)) None None (o_job_id o) (Some code) dbNow o));
  guard_m (negb (tag =? 1)) ErrLeaseLost.

Definition Block (id token code : string) (now : Z) : SM unit :=
  let now := truncate Microsecond now in
  tag ← exec ErrDriver (update_occurrence id (holds_lease token) (fun o =>
    set_lease blocked (o_attempts o) (o_available_at o) None None (o_job_id o) (Some code) now o));
  guard_m (negb (tag =? 1)) ErrLeaseLost.

Definition RetryBlocked (id : string) : SM ostatus :=
  with_tx db_failed (
    row ← exec ErrDriver (read (fun _ d => t_outbox d !! id));
    match row with
    | None => raise ErrOccurrenceNotFound
    | Some o =>
        match o_status o with
        | accepted => raise ErrOccurrenceNotRetryable
        | blocked =>
            dbNow ← exec ErrDriver clock_timestamp;
            _ ← exec ErrDriver (update_occurrence id (fun _ _ => true) (fun o =>
                  set_lease pending (o_attempts o) dbNow None None (o_job_id o) None dbNow o));
            _ ← commit db_failed;
            mret pending
        | s =>
            _ ← commit db_failed;
            mret s
        end
    end).

Definition DatabaseNow : SM Z := t ← exec ErrDriver clock_timestamp; mret (truncate Microsecond t).

Record Status := MkStatus {
  sta_Paused : bool;
  sta_ControlRevision : Z;
  sta_LastTickAt : option Z;
  sta_LastDispatchAt : option Z;
  sta_PendingOutbox : Z;
}.

Definition GetStatus : SM Status := exec ErrDriver (read (fun _ d =>
  MkStatus (ctl_Paused (t_control d)) (ctl_Revision (t_control d)) (st_last_tick_at (t_state d))
    (st_last_dispatch_at (t_state d)) (outstanding d))).
End Store.

(** ** The outbox invariant and the evolution of the tables *)

(** Columns that belong together: a lease exactly while leased, a job once
    accepted, a counted attempt once leased. *)
Definition row_wf (o : occurrence_row) : Prop :=
  0 <= o_attempts o /\
  match o_status o with
  | leased => is_Some (o_lease_token o) /\ is_Some (o_lease_until o) /\ 1 <= o_attempts o
  | accepted => o_lease_token o = None /\ o_lease_until o = None /\ is_Some (o_job_id o)
  | _ => o_lease_token o = None /\ o_lease_until o = None
  end.

Definition one_unaccepted (m : gmap string occurrence_row) : Prop :=
  forall i j a b, m !! i = Some a -> m !! j = Some b -> o_key a = o_key b ->
    unaccepted a = true -> unaccepted b = true -> i = j.

Definition schedule_wf (r : schedule_row) : Prop :=
  1 <= s_revision r /\ (s_enabled r = true <-> is_Some (s_next_due_at r)).

Record wf (d : tables) : Prop := {
  wf_rows : forall id o, t_outbox d !! id = Some o -> row_wf o;
  wf_one : one_unaccepted (t_outbox d);
  wf_schedules : forall k r, t_schedules d !! k = Some r -> schedule_wf r;
}.

(** What never changes of an occurrence, and that an accepted one is final. *)
Definition occ_evolves (o o' : occurrence_row) : Prop :=
  (o_key o', o_revision o', o_scheduled_for o', o_target o', o_operation o', o_payload o', o_created_at o') =
  (o_key o, o_revision o, o_scheduled_for o, o_target o, o_operation o, o_payload o, o_created_at o) /\
  o_attempts o <= o_attempts o' /\ (o_status o = accepted -> o' = o).

Definition evolves (d d' : tables) : Prop :=
  (wf d -> wf d') /\ ctl_Revision (t_control d) <= ctl_Revision (t_control d') /\
  forall id o, t_outbox d !! id = Some o -> exists o', t_outbox d' !! id = Some o' /\ occ_evolves o o'.

Lemma occ_evolves_refl o : occ_evolves o o.
Proof. split_and!; [done|lia|done]. Qed.
Lemma occ_evolves_trans a b c : occ_evolves a b -> occ_evolves b c -> occ_evolves a c.
Proof.
  intros (H1 & H2 & H3) (H4 & H5 & H6). split_and!; [congruence|lia|].
  intros Ha. pose proof (H3 Ha). subst b. auto.
Qed.
#[export] Hint Resolve occ_evolves_refl : news.

#[export] Instance evolves_preorder : PreOrder evolves.
Proof.
  split.
  - intros d. split_and!; [done|lia|]. eauto with news.
  - intros a b c (H1 & H2 & H3) (H4 & H5 & H6). split_and!; [auto|lia|].
    intros id o Ho. destruct (H3 id o Ho) as (o' & Ho' & E1).
    destruct (H6 id o' Ho') as (o'' & Ho'' & E2). eauto using occ_evolves_trans.
Qed.

Lemma evolves_refl d : evolves d d.
Proof. reflexivity. Qed.
#[export] Hint Resolve evolves_refl : news.

(** *** How each kind of statement evolves the tables *)

Lemma unaccepted_spec o : unaccepted o = true <-> o_status o <> accepted.
Proof. unfold unaccepted. rewrite negb_true_iff, bool_decide_eq_false. done. Qed.

Lemma has_unaccepted_spec key d :
  has_unaccepted key d = true <->
  exists id o, t_outbox d !! id = Some o /\ o_key o = key /\ unaccepted o = true.
Proof.
  unfold has_unaccepted. rewrite existsb_exists. split.
  - intros ([id o] & Hin & Hb). simpl in Hb. bool_to_prop. exists id, o.
    rewrite <- elem_of_map_to_list. by apply list_elem_of_In in Hin.
  - intros (id & o & Ho & Hk & Hu). exists (id, o). split.
    + apply list_elem_of_In. by apply elem_of_map_to_list.
    + simpl. rewrite Hu, bool_decide_true by done. done.
Qed.

(** A change of the lease columns of one row. *)
Lemma evolves_update d id o o' :
  t_outbox d !! id = Some o -> occ_evolves o o' -> o_status o <> accepted ->
  (row_wf o -> row_wf o') -> evolves d (set_outbox (<[id := o']> (t_outbox d)) d).
Proof.
  intros Ho He Hs Hw. split_and!; simpl; [|lia|].
  - intros [W1 W2 W3]. constructor; simpl; [| |done].
    + intros i x [[<- <-]|[Hi Hx]]%lookup_insert_Some; eauto.
    + assert (o_key o' = o_key o) as Hk by (destruct He as [He _]; congruence).
      apply unaccepted_spec in Hs.
      intros i j a b [[<- <-]|[Hi Ha]]%lookup_insert_Some [[<- <-]|[Hj Hb]]%lookup_insert_Some
        Hab Hua Hub; [done|..]; eapply W2; eauto; congruence.
  - intros i x Hx. destruct (decide (id = i)) as [<-|Hi].
    + exists o'. rewrite lookup_insert. rewrite decide_True by done. split; [done|]. congruence.
    + exists x. rewrite lookup_insert_ne by done. auto with news.
Qed.

Lemma evolves_update_stmt id cond f lk now d :
  (forall t o, t_outbox d !! id = Some o -> cond t o = true -> occ_evolves o (f o) /\ o_status o <> accepted /\ (row_wf o -> row_wf (f o))) ->
  evolves d (update_occurrence id cond f lk now d).2.
Proof.
  intros Hf. unfold update_occurrence. destruct (t_outbox d !! id) as [o|] eqn:Ho; simpl; [|reflexivity].
  destruct (cond _ o) eqn:Hc; simpl; [|reflexivity]. destruct (Hf _ _ eq_refl Hc) as (H1 & H2 & H3).
  by eapply evolves_update.
Qed.

Lemma evolves_state s d : evolves d (set_state s d).
Proof. split_and!; simpl; [by intros []|lia|]. eauto with news. Qed.

(** Schedule rows come and go; only their shape is constrained. *)
Lemma evolves_schedules m d :
  (wf d -> forall k r, m !! k = Some r -> schedule_wf r) -> evolves d (set_schedules m d).
Proof.
  intros Hm. split_and!; simpl; [|lia|eauto with news].
  intros Hd. specialize (Hm Hd). destruct Hd. by constructor.
Qed.

Lemma evolves_control c d : ctl_Revision (t_control d) <= ctl_Revision c -> evolves d (set_control c d).
Proof. intros. split_and!; simpl; [by intros []|done|eauto with news]. Qed.

Lemma set_lease_evolves status attempts available token until job code updated o :
  o_attempts o <= attempts -> o_status o <> accepted ->
  occ_evolves o (set_lease status attempts available token until job code updated o).
Proof. intros. split_and!; done. Qed.

Lemma holds_lease_spec token now o :
  holds_lease token now o = true <->
  o_status o = leased /\ o_lease_token o = Some token /\ exists u, o_lease_until o = Some u /\ now < u.
Proof.
  unfold holds_lease. split.
  - intros Hb. destruct (o_lease_until o) eqn:Hu; bool_to_prop; [|done]. eauto 10.
  - intros (H1 & H2 & u & H3 & H4). rewrite !bool_decide_true, H3 by done. by apply Z.ltb_lt.
Qed.

Lemma keeps_settle id token f mk :
  (forall o, o_status o = leased -> occ_evolves o (f o) /\ (row_wf o -> row_wf (f o))) ->
  keeps evolves (E:=sched_error) (exec mk (update_occurrence id (holds_lease token) f)).
Proof.
  intros Hf. apply keeps_exec; [apply _|]. intros. apply evolves_update_stmt.
  intros t o _ Hc. apply holds_lease_spec in Hc as (Hs & _). destruct (Hf o Hs) as [H1 H2].
  split_and!; [done|congruence|done].
Qed.

(** *** Operations outside transactions *)

Lemma Ack_evolves id token job now : keeps evolves (Ack id token job now).
Proof.
  unfold Ack. apply keeps_bind.
  - apply keeps_settle. intros o Ho. split; [apply set_lease_evolves; [lia|congruence]|].
    intros (Ha & Hw). rewrite Ho in Hw. split; simpl; [done|eauto].
  - intros tag. apply keeps_bind; [apply keeps_guard|]. intros _.
    apply keeps_exec; [apply _|]. intros. apply evolves_state.
Qed.

Lemma Block_evolves id token code now : keeps evolves (Block id token code now).
Proof.
  unfold Block. apply keeps_bind; [|intros; apply keeps_guard].
  apply keeps_settle. intros o Ho. split; [apply set_lease_evolves; [lia|congruence]|].
  intros (Ha & Hw). by split.
Qed.

Lemma Retry_evolves id token code next now : keeps evolves (Retry id token code next now).
Proof.
  unfold Retry. apply keeps_bind; [apply keeps_read, _|]. intros dbNow.
  apply keeps_bind; [|intros; apply keeps_guard].
  apply keeps_settle. intros o Ho. split; [apply set_lease_evolves; [lia|congruence]|].
  intros (Ha & Hw). by split.
Qed.

Lemma keeps_state (f : stmt tables unit) mk :
  (forall lk now d, exists s, (f lk now d).2 = set_state s d) -> keeps evolves (E:=sched_error) (exec mk f).
Proof.
  intros Hf. apply keeps_exec; [apply _|]. intros lk now d. destruct (Hf lk now d) as [s ->].
  apply evolves_state.
Qed.
Lemma MarkTick_evolves now : keeps evolves (MarkTick now).
Proof. apply keeps_state. intros. by eexists. Qed.
Lemma MarkDispatch_evolves now : keeps evolves (MarkDispatch now).
Proof. apply keeps_state. intros. by eexists. Qed.

(** One statement of a transaction: its effect, or a fault. *)
Ltac tx_exec := apply twp_exec; [let l := fresh "lk" in let n := fresh "now" in intros l n; simpl
                                | intros; simpl; auto with news].
Ltac tx_guard := apply twp_guard; [auto with news | intros ?].
Ltac tx_commit := apply twp_commit; auto with news.

Lemma RetryBlocked_evolves id : keeps evolves (RetryBlocked id).
Proof.
  apply keeps_with_tx_twp; [apply _|]. intros d. tx_exec.
  destruct (t_outbox d !! id) as [o|] eqn:Ho; [|apply twp_raise; auto with news].
  destruct (o_status o) eqn:Hs; [tx_commit..| |apply twp_raise; auto with news].
  assert (forall t, evolves d (set_outbox (<[id := set_lease pending (o_attempts o) t None None
    (o_job_id o) None t o]> (t_outbox d)) d)) as He.
  { intros t. eapply evolves_update; [done|apply set_lease_evolves; [lia|congruence]|congruence|].
    intros (Ha & _). by split. }
  tx_exec. tx_exec. unfold update_occurrence. rewrite Ho. tx_commit.
Qed.

Lemma DeleteSchedule_evolves key expected : keeps evolves (DeleteSchedule key expected).
Proof.
  apply keeps_with_tx_twp; [apply _|]. intros d. tx_exec.
  destruct (t_schedules d !! key) as [r|] eqn:Hr; [|apply twp_raise; auto with news].
  tx_guard. tx_exec. tx_commit; apply evolves_schedules; intros Hd k x Hx;
    apply lookup_delete_Some in Hx as [_ Hx]; by eapply wf_schedules.
Qed.

Lemma SetPaused_evolves expected paused now : keeps evolves (SetPaused expected paused now).
Proof.
  apply keeps_with_tx_twp; [apply _|]. intros d. tx_exec. tx_guard.
  destruct (Bool.eqb _ _); [tx_commit|]. tx_exec.
  tx_commit; apply evolves_control; simpl; lia.
Qed.

(** *** Writes of schedules *)

Section Schedules.
Context `{Postgres} (LoadLocation : string -> option location).

(** [sameConfig] only reads: it says whether the row has this configuration. *)
Definition same_config (r : schedule_row) (m : Mutation) : bool :=
  Bool.eqb (s_enabled r) (mut_Enabled m) &&
  bool_decide (Normalize (s_calendar r) = Normalize (mut_Calendar m)) &&
  (s_target r =? mut_Target m)%string && (s_operation r =? mut_Operation m)%string &&
  jsonb_eqb (s_payload r) (json_of_map (mut_Payload m)).

Lemma twp_sameConfig {B} key r current m (k : bool -> SM B) Q db t :
  t_schedules t !! key = Some r -> scanSchedule key r = Ok current ->
  twp (k (same_config r m)) Q db t ->
  (forall t', Q (Err db_failed) db (Some t')) ->
  twp (sameConfig current m ≫= k) Q db t.
Proof.
  intros Hr Hc Hk He. unfold scanSchedule in Hc. apply result_bind_ok in Hc as (p & _ & [= <-]).
  unfold sameConfig, same_config in *. simpl.
  destruct (Bool.eqb _ _), (bool_decide _), (s_target r =? mut_Target m)%string,
    (s_operation r =? mut_Operation m)%string; cbn [negb orb andb] in *;
    try (apply twp_bind, twp_ret; eauto; fail).
  apply twp_bind. apply twp_exec; [|auto]. intros lk now. simpl. rewrite Hr.
  apply twp_ret. eauto.
Qed.

Lemma put_checks_next key m targets now next :
  put_checks LoadLocation key m targets now = Ok next -> (mut_Enabled m = true <-> is_Some next).
Proof.
  unfold put_checks. intros Hc. apply result_bind_ok in Hc as ([] & _ & Hc).
  apply result_bind_ok in Hc as ([] & _ & Hc). apply result_bind_ok in Hc as (n & Hn & Hc).
  apply result_bind_ok in Hc as ([] & _ & [= <-]).
  destruct (mut_Enabled m).
  - apply result_bind_ok in Hn as (v & _ & [= <-]). split; eauto.
  - injection Hn as <-. split; [done|by intros []].
Qed.

(** The rows the two writes leave. *)
Lemma new_schedule_wf m next now :
  (mut_Enabled m = true <-> is_Some next) -> schedule_wf (new_schedule m next now).
Proof. intros Hn. split; simpl; [lia|]. rewrite fmap_is_Some. done. Qed.
Lemma revised_wf m next now r :
  (mut_Enabled m = true <-> is_Some next) -> schedule_wf r -> schedule_wf (revised m next now r).
Proof. intros Hn [Hr _]. split; simpl; [lia|]. rewrite fmap_is_Some. done. Qed.

Lemma evolves_put_schedule key row d :
  (wf d -> schedule_wf row) -> evolves d (set_schedules (<[key := row]> (t_schedules d)) d).
Proof.
  intros Hrow. apply evolves_schedules. intros Hd k x [[<- <-]|[_ Hx]]%lookup_insert_Some; [auto|].
  by eapply wf_schedules.
Qed.
Lemma evolves_update_schedule key f d :
  (wf d -> forall r, t_schedules d !! key = Some r -> schedule_wf r -> schedule_wf (f r)) ->
  evolves d (set_schedules (alter f key (t_schedules d)) d).
Proof.
  intros Hf. apply evolves_schedules. intros Hd k x [(<- & y & Hy & ->)|[_ Hx]]%lookup_alter_Some.
  - apply Hf; [done..|]. by eapply wf_schedules.
  - by eapply wf_schedules.
Qed.

(** The two writes: the first revision of a new schedule, or the next one. *)
Definition put_written (key : string) (m : Mutation) (next : option Z) (now : Z) (d d' : tables) : Prop :=
  (t_schedules d !! key = None /\ mut_ExpectedRevision m = 0 /\
   d' = set_schedules (<[key := new_schedule m next now]> (t_schedules d)) d) \/
  (exists row, t_schedules d !! key = Some row /\ mut_ExpectedRevision m = s_revision row /\
     same_config row m = false /\
     d' = set_schedules (<[key := revised m next now row]> (t_schedules d)) d).

(** What the transaction of [PutSchedule] publishes: nothing, the first
    revision of a new schedule, or the next revision of the current one. *)
Definition put_outcome (key : string) (m : Mutation) (next : option Z) (now : Z)
    (r : result sched_error (option Schedule * bool)) (d d' : tables) : Prop :=
  match r with
  | Ok (None, true) =>
      t_schedules d !! key = None /\ mut_ExpectedRevision m = 0 /\
      d' = set_schedules (<[key := new_schedule m next now]> (t_schedules d)) d
  | Ok (None, false) =>
      exists row, t_schedules d !! key = Some row /\ mut_ExpectedRevision m = s_revision row /\
        same_config row m = false /\
        d' = set_schedules (<[key := revised m next now row]> (t_schedules d)) d
  | Ok (Some s, created) =>
      exists row, t_schedules d !! key = Some row /\ mut_ExpectedRevision m = s_revision row /\
        same_config row m = true /\ scanSchedule key row = Ok s /\ created = false /\ d' = d
  | Err ErrConflict =>
      d' = d /\ match t_schedules d !! key with
                | None => mut_ExpectedRevision m <> 0
                | Some row => mut_ExpectedRevision m <> s_revision row
                end
  | Err (ErrDriver _) => d' = d \/ put_written key m next now d d'
  | Err _ => d' = d
  end.

Lemma put_body_spec key m next now d :
  twp (put_body key m next now) (fun r d' _ => put_outcome key m next now r d d') d d.
Proof.
  apply twp_exec; [|intros; simpl; auto]. intros lk nw. simpl.
  destruct (t_schedules d !! key) as [row|] eqn:Hrow.
  - unfold put_update. apply twp_bind, twp_lift. destruct (scanSchedule key row) as [s|e] eqn:Hs.
    2:{ unfold scanSchedule, decodeJSONMap in Hs. by destruct (s_payload row); simplify_eq/=. }
    exists d. split; [done|].
    assert (sch_Revision s = s_revision row) as Hrev.
    { unfold scanSchedule in Hs. apply result_bind_ok in Hs as (? & _ & [= <-]). done. }
    apply twp_bind. unfold guard_m. destruct (mut_ExpectedRevision m =? sch_Revision s) eqn:He; bool_to_prop; simpl.
    2:{ apply twp_raise. simpl. rewrite Hrow, <- Hrev. done. }
    apply twp_ret. exists d. split; [done|]. rewrite Hrev in He.
    eapply twp_sameConfig; [done|done| |simpl; auto].
    destruct (same_config row m) eqn:Hsame.
    + apply twp_commit; simpl; eauto 10.
    + apply twp_exec; [|simpl; auto]. intros lk' nw'. simpl.
      rewrite (alter_alt_Some _ _ _ _ Hrow).
      apply twp_commit; simpl; [eauto 10|right; right; eauto 10|auto].
  - unfold put_create. apply twp_bind. unfold guard_m.
    destruct (mut_ExpectedRevision m =? 0) eqn:He; bool_to_prop; simpl.
    2:{ apply twp_raise. simpl. rewrite Hrow. done. }
    apply twp_ret. exists d. split; [done|]. apply twp_try_exec.
    + intros lk' nw'. unfold insert_schedule. rewrite bool_decide_false; [|rewrite Hrow; by intros []].
      apply twp_commit; simpl; [auto|right; left; auto|auto].
    + intros t'. apply twp_raise. simpl. auto.
Qed.

Lemma put_outcome_evolves key m next now r d d' :
  (mut_Enabled m = true <-> is_Some next) -> put_outcome key m next now r d d' -> evolves d d'.
Proof.
  intros Hn Ho.
  assert (d' = d \/ d' = set_schedules (<[key := new_schedule m next now]> (t_schedules d)) d \/
          exists row, t_schedules d !! key = Some row /\
            d' = set_schedules (<[key := revised m next now row]> (t_schedules d)) d) as Hc.
  { destruct r as [[[s|] []]|[]]; simpl in Ho; try (destruct Ho as [Ho|[Ho|Ho]]); naive_solver. }
  clear Ho. destruct Hc as [->|[->|(row & Hrow & ->)]]; [reflexivity|..]; apply evolves_put_schedule; intros Hd.
  - by apply new_schedule_wf.
  - apply revised_wf; [done|]. by eapply wf_schedules.
Qed.

Lemma GetSchedule_evolves key : keeps evolves (GetSchedule key).
Proof.
  apply keeps_bind; [apply keeps_read, _|]. intros [r|]; [apply keeps_lift|apply keeps_raise].
Qed.

Lemma PutSchedule_evolves key m targets now : keeps evolves (PutSchedule LoadLocation key m targets now).
Proof.
  unfold PutSchedule. destruct (put_checks LoadLocation key m targets now) as [next|e] eqn:Hc.
  2:{ intros d0 w Hw. exact Hw. }
  apply put_checks_next in Hc.
  intros d0 w. change ((lift (Ok next) ≫= ?k) w) with (k next w). revert d0 w.
  apply keeps_bind.
  - apply keeps_with_tx_twp; [apply _|]. intros d. eapply twp_mono; [apply put_body_spec|].
    intros r db' tx' Ho. eapply put_outcome_evolves; [exact Hc|exact Ho].
  - intros [[s|] created]; [apply keeps_ret|]. apply keeps_bind; [apply GetSchedule_evolves|].
    intros s. apply keeps_ret.
Qed.
End Schedules.

(** *** Imports *)

Section Imports.
Context `{Postgres} (LoadLocation : string -> option location).

Lemma import_checks_ok targets seen items :
  import_checks LoadLocation targets seen items = Ok tt ->
  NoDup (map imp_Key items) /\ (forall i, i ∈ items -> imp_Key i ∉ seen) /\
  Forall (fun i => import_check LoadLocation targets i = Ok tt) items.
Proof.
  revert seen. induction items as [|i items IH]; intros seen Hc; simpl in *.
  { split_and!; [constructor|intros ? []%elem_of_nil|constructor]. }
  apply result_bind_ok in Hc as ([] & Hg & Hc). apply guard_err_ok in Hg. bool_to_prop.
  apply result_bind_ok in Hc as ([] & Hi & Hc). apply IH in Hc as (H1 & H2 & H3).
  split_and!.
  - constructor; [|done]. intros (j & Hj & Hin)%list_elem_of_In%in_map_iff.
    apply (H2 j); [by apply list_elem_of_In|]. set_solver.
  - intros j [->|Hj]%elem_of_cons; [done|]. specialize (H2 j Hj). set_solver.
  - by constructor.
Qed.

Lemma import_check_due targets i :
  import_check LoadLocation targets i = Ok tt -> imp_Enabled i = true <-> is_Some (imp_NextDueAt i).
Proof.
  unfold import_check. intros Hc. apply result_bind_ok in Hc as ([] & _ & Hc).
  apply result_bind_ok in Hc as ([] & _ & Hc). apply result_bind_ok in Hc as ([] & H1 & Hc).
  apply result_bind_ok in Hc as ([] & H2 & _).
  apply guard_err_ok in H1, H2. destruct (imp_Enabled i), (imp_NextDueAt i); simpl in *; split; naive_solver.
Qed.

(** The schedules after a successful import: the missing ones are added at
    revision 1 with the imported due time. *)
Definition import_row (now : Z) (m : gmap string schedule_row) (i : ImportItem) : gmap string schedule_row :=
  match m !! imp_Key i with
  | None => <[imp_Key i := new_schedule (import_mutation i) (imp_NextDueAt i) now]> m
  | Some _ => m
  end.
Definition import_all (now : Z) (items : list ImportItem) (m : gmap string schedule_row) :=
  foldl (import_row now) m items.

(** An item against the row it meets: absent, or present with the same
    configuration and due time. *)
Definition import_meets (d : tables) (i : ImportItem) (created : bool) : Prop :=
  match t_schedules d !! imp_Key i with
  | None => created = true
  | Some r => created = false /\ same_config r (import_mutation i) = true /\
              s_next_due_at r = imp_NextDueAt i
  end.

Lemma import_all_other now items m k :
  k ∉ map imp_Key items -> import_all now items m !! k = m !! k.
Proof.
  unfold import_all. revert m. induction items as [|i items IH]; intros m Hk; [done|].
  simpl in *. apply not_elem_of_cons in Hk as [Hki Hk]. rewrite IH by done.
  unfold import_row. destruct (m !! imp_Key i); [done|]. by rewrite lookup_insert_ne.
Qed.
Lemma import_all_snoc now items i m :
  import_all now (items ++ [i]) m = import_row now (import_all now items m) i.
Proof. unfold import_all. by rewrite foldl_app. Qed.

Definition import_outcome (expected now : Z) (items : list ImportItem)
    (r : result sched_error ImportResult) (d d' : tables) : Prop :=
  let after := set_schedules (import_all now items (t_schedules d)) d in
  match r with
  | Ok res =>
      d' = after /\ ctl_Paused (t_control d) = true /\ ctl_Revision (t_control d) = expected /\
      exists created, Forall2 (import_meets d) items created /\
        res = MkImportResult expected (sort_Strings (keys_where true items created))
                (sort_Strings (keys_where false items created))
  | Err (ErrDriver _) =>
      d' = d \/ (d' = after /\ ctl_Paused (t_control d) = true /\ ctl_Revision (t_control d) = expected)
  | Err ErrImportPaused => d' = d /\ ctl_Paused (t_control d) = false
  | Err ErrConflict =>
      d' = d /\ ctl_Paused (t_control d) = true /\ ctl_Revision (t_control d) <> expected
  | Err ErrImportConflict =>
      d' = d /\ exists i row, i ∈ items /\ t_schedules d !! imp_Key i = Some row /\
        (same_config row (import_mutation i) = false \/ s_next_due_at row <> imp_NextDueAt i)
  | Err _ => d' = d
  end.

Lemma import_one_spec now pre i d db (Q : result sched_error bool -> tables -> option tables -> Prop) :
  imp_Key i ∉ map imp_Key pre ->
  let t := set_schedules (import_all now pre (t_schedules d)) d in
  (forall c, import_meets d i c ->
     Q (Ok c) db (Some (set_schedules (import_all now (pre ++ [i]) (t_schedules d)) d))) ->
  (forall row, t_schedules d !! imp_Key i = Some row ->
     same_config row (import_mutation i) = false \/ s_next_due_at row <> imp_NextDueAt i ->
     Q (Err ErrImportConflict) db (Some t)) ->
  (forall e t', e = db_failed \/ e = ErrPayloadDecode -> Q (Err e) db (Some t')) ->
  twp (import_one now i) Q db t.
Proof.
  intros Hi t Hok Hconf Herr. unfold import_one. apply twp_exec; [|auto]. intros lk nw. simpl.
  rewrite import_all_other by done. rewrite import_all_snoc in Hok. unfold import_row in Hok.
  rewrite import_all_other in Hok by done.
  destruct (t_schedules d !! imp_Key i) as [row|] eqn:Hrow.
  - apply twp_bind, twp_lift. destruct (scanSchedule _ row) as [s|e] eqn:Hs.
    2:{ apply Herr. unfold scanSchedule, decodeJSONMap in Hs. destruct (s_payload row); simplify_eq/=; auto. }
    eexists. split; [done|].
    assert (sch_NextDueAt s = s_next_due_at row) as Hdue.
    { unfold scanSchedule in Hs. apply result_bind_ok in Hs as (? & _ & [= <-]). done. }
    eapply twp_sameConfig; [|exact Hs| |auto].
    { simpl. by rewrite import_all_other. }
    unfold sameTime. rewrite Hdue. unfold import_meets in Hok. rewrite Hrow in Hok.
    apply twp_bind. unfold guard_m.
    destruct (same_config row _) eqn:Hsame; simpl; [|apply twp_raise; eauto].
    case_bool_decide; simpl; [|apply twp_raise; eauto].
    apply twp_ret. eexists. split; [done|]. apply twp_ret. auto.
  - apply twp_exec; [|auto]. intros lk' nw'. unfold insert_schedule. simpl.
    rewrite bool_decide_false; [|rewrite import_all_other, Hrow by done; by intros []].
    unfold import_meets in Hok. rewrite Hrow in Hok. apply twp_ret. by apply Hok.
Qed.

Lemma import_body_spec expected items now d :
  NoDup (map imp_Key items) ->
  twp (import_body expected items now) (fun r d' _ => import_outcome expected now items r d d') d d.
Proof.
  intros Hnd. apply twp_exec; [|intros; simpl; auto]. intros lk nw. simpl.
  apply twp_bind. unfold guard_m at 1. destruct (ctl_Paused (t_control d)) eqn:Hp; simpl.
  2:{ apply twp_raise. simpl. auto. }
  apply twp_ret. exists d. split; [done|]. apply twp_bind. unfold guard_m.
  destruct (_ =? expected) eqn:Hx; bool_to_prop; simpl; [|apply twp_raise; simpl; auto].
  apply twp_ret. exists d. split; [done|].
  apply (twp_map_each (fun rest done t => exists pre, items = pre ++ rest /\
    t = set_schedules (import_all now pre (t_schedules d)) d /\ Forall2 (import_meets d) pre done)).
  - intros i rest done t (pre & -> & -> & Hdone).
    apply import_one_spec.
    + intros Hin. rewrite map_app in Hnd. apply NoDup_app in Hnd as (_ & Hnd & _).
      apply (Hnd _ Hin). simpl. left.
    + intros c Hc. split; [done|]. eexists. split; [done|]. exists (pre ++ [i]).
      rewrite <- app_assoc. split_and!; [done|done|]. apply Forall2_app; [done|]. by repeat constructor.
    + intros row Hrow Hdiff. simpl. split; [done|]. exists i, row. split; [|done].
      apply elem_of_app. right. left.
    + intros e t' [-> | ->]; simpl; auto.
  - exists []. split_and!; [done| |constructor]. by destruct d.
  - intros created t (pre & Hpre & -> & Hdone). rewrite app_nil_r in Hpre. subst pre.
    apply twp_commit; simpl; [|auto|auto]. rewrite Hx. eauto 10.
Qed.

Lemma import_outcome_cases expected now items r d d' :
  import_outcome expected now items r d d' ->
  d' = d \/ d' = set_schedules (import_all now items (t_schedules d)) d.
Proof. destruct r as [res|[]]; simpl; naive_solver. Qed.

Lemma import_all_wf now items m :
  Forall (fun i => imp_Enabled i = true <-> is_Some (imp_NextDueAt i)) items ->
  (forall k r, m !! k = Some r -> schedule_wf r) ->
  forall k r, import_all now items m !! k = Some r -> schedule_wf r.
Proof.
  unfold import_all. intros Hi. revert m. induction Hi as [|i items Hi _ IH]; intros m Hm; [done|].
  simpl. apply IH. unfold import_row. destruct (m !! imp_Key i); [done|].
  intros k r [[<- <-]|[_ Hr]]%lookup_insert_Some; [|by eapply Hm]. by apply new_schedule_wf.
Qed.

Lemma Import_evolves expected items targets now : keeps evolves (Import LoadLocation expected items targets now).
Proof.
  unfold Import. apply keeps_bind; [apply keeps_guard|]. intros _.
  destruct (import_checks LoadLocation targets ∅ items) as [[]|e] eqn:Hc.
  2:{ intros d0 w Hw. exact Hw. }
  apply import_checks_ok in Hc as (Hnd & _ & Hall).
  intros d0 w. change ((lift (Ok ()) ≫= ?k) w) with (k () w). revert d0 w.
  apply keeps_with_tx_twp; [apply _|]. intros d. eapply twp_mono; [by apply import_body_spec|].
  intros r db' tx' Ho. apply import_outcome_cases in Ho as [-> | ->]; [reflexivity|].
  apply evolves_schedules. intros Hd. apply import_all_wf; [|by apply wf_schedules].
  eapply Forall_impl; [exact Hall|]. intros i. apply import_check_due.
Qed.
End Imports.

(** *** Claims *)

Section Claims.
Context `{Postgres}.

Definition claimed_id (c : Claimed) : string := env_OccurrenceID (cl_Envelope c).

(** A claim describes the row it leased. *)
Definition describes (ko : string * occurrence_row) (c : Claimed) : Prop :=
  exists p, decodeJSONMap (o_payload ko.2) = Ok p /\
    cl_Envelope c = MkEnvelope 1 ko.1 (o_key ko.2) (o_revision ko.2) (o_scheduled_for ko.2) (o_operation ko.2) p /\
    cl_TargetAlias c = o_target ko.2 /\ cl_Attempt c = o_attempts ko.2 + 1 /\
    canonicalUUID (cl_LeaseToken c) = true.

Lemma describes_id ko c : describes ko c -> claimed_id c = ko.1.
Proof. intros (p & _ & He & _). unfold claimed_id. by rewrite He. Qed.
Lemma describes_ids rows cs : Forall2 describes rows cs -> map claimed_id cs = rows.*1.
Proof. induction 1 as [|ko c rows cs Hd _ IH]; simpl; [done|]. by rewrite IH, (describes_id ko c). Qed.

Definition lease_rows (dbNow lease : Z) (cs : list Claimed) (m : gmap string occurrence_row) :=
  foldl (fun m c => alter (take_lease (cl_LeaseToken c) (dbNow + lease) dbNow) (claimed_id c) m) m cs.

Lemma lease_rows_other dbNow lease cs m id :
  id ∉ map claimed_id cs -> lease_rows dbNow lease cs m !! id = m !! id.
Proof.
  unfold lease_rows. revert m. induction cs as [|c cs IH]; intros m Hid; [done|]. simpl in *.
  apply not_elem_of_cons in Hid as [Hc Hid]. rewrite IH by done. by rewrite lookup_alter_ne.
Qed.
Lemma lease_rows_in dbNow lease cs m c :
  NoDup (map claimed_id cs) -> c ∈ cs ->
  lease_rows dbNow lease cs m !! claimed_id c =
  take_lease (cl_LeaseToken c) (dbNow + lease) dbNow <$> m !! claimed_id c.
Proof.
  unfold lease_rows. revert m. induction cs as [|x cs IH]; intros m Hnd Hin; simpl in *.
  { by apply elem_of_nil in Hin. }
  apply NoDup_cons in Hnd as [Hx Hnd]. apply elem_of_cons in Hin as [->|Hin].
  - etrans; [by apply (lease_rows_other dbNow lease cs)|]. by rewrite lookup_alter_eq.
  - rewrite IH by done. destruct (decide (claimed_id x = claimed_id c)) as [E|].
    + exfalso. apply Hx. rewrite E. apply list_elem_of_In, in_map. by apply list_elem_of_In.
    + by rewrite lookup_alter_ne.
Qed.

(** What a claim of the tables [d] publishes. *)
Definition claim_effect (lease limit : Z) (cs : list Claimed) (d d' : tables) : Prop :=
  exists dbNow rows,
    ctl_Paused (t_control d) = false /\ NoDup rows.*1 /\ Z.of_nat (length rows) <= limit /\
    (forall id o, (id, o) ∈ rows -> t_outbox d !! id = Some o /\ claimable dbNow o = true) /\
    Forall2 describes rows cs /\
    d' = set_outbox (lease_rows dbNow lease cs (t_outbox d)) d.

Definition claim_outcome (lease limit : Z) (r : result sched_error (list Claimed)) (d d' : tables) : Prop :=
  match r with
  | Ok cs => claim_effect lease limit cs d d' \/ (ctl_Paused (t_control d) = true /\ cs = [] /\ d' = d)
  | Err (ErrDriver _) => d' = d \/ exists cs, claim_effect lease limit cs d d'
  | Err _ => d' = d
  end.

Lemma claim_one_spec dbNow lease id o t db (Q : result sched_error Claimed -> tables -> option tables -> Prop) :
  t_outbox t !! id = Some o ->
  (forall c, describes (id, o) c ->
     Q (Ok c) db (Some (set_outbox (alter (take_lease (cl_LeaseToken c) (dbNow + lease) dbNow) id (t_outbox t)) t))) ->
  (forall e t', e = db_failed \/ e = ErrPayloadDecode \/ e = ErrRandom -> Q (Err e) db (Some t')) ->
  twp (claim_one dbNow lease (id, o)) Q db t.
Proof.
  intros Ho Hok Herr. unfold claim_one, newUUID. apply twp_bind. apply twp_rand; [|auto].
  intros bs. apply twp_ret. exists t. split; [done|].
  apply twp_exec; [|auto]. intros lk now. unfold update_occurrence. rewrite Ho. simpl.
  apply twp_bind, twp_lift. destruct (decodeJSONMap (o_payload o)) as [p|e] eqn:Hp.
  2:{ apply Herr. unfold decodeJSONMap in Hp. destruct (o_payload o); simplify_eq/=; auto. }
  eexists. split; [done|]. apply twp_ret.
  match goal with |- Q (Ok ?x) _ _ => specialize (Hok x) end.
  rewrite (alter_alt_Some _ _ _ _ Ho) in Hok. apply Hok.
  exists p. split_and!; try done. apply uuid_text_shape.
Qed.

Lemma claim_body_spec lease limit d :
  twp (claim_body lease limit) (fun r d' _ => claim_outcome lease limit r d d') d d.
Proof.
  apply twp_exec; [|simpl; auto]. intros lk now. simpl.
  destruct (ctl_Paused (t_control d)) eqn:Hp; [apply twp_commit; simpl; auto|].
  apply twp_exec; [|simpl; auto]. intros lk' now'. simpl. set (dbNow := pg_time now').
  apply twp_exec; [|simpl; auto]. intros lk'' now''. unfold select_claimable.
  destruct (limit_rows _ _) as [rows|e] eqn:Hsel; [|simpl; auto].
  apply selected_rows in Hsel as (Hnd & Hrows & Hlen).
  assert (forall id o, (id, o) ∈ rows -> t_outbox d !! id = Some o /\ claimable dbNow o = true) as Hin.
  { intros id o Hio. destruct (Hrows id o Hio) as [Ho Hc]. simpl in Hc. bool_to_prop. done. }
  clear Hrows.
  apply (twp_map_each (fun rest cs t => exists pre, rows = pre ++ rest /\ Forall2 describes pre cs /\
    t = set_outbox (lease_rows dbNow lease cs (t_outbox d)) d)).
  - intros [id o] rest cs t (pre & -> & Hpre & ->). apply claim_one_spec.
    + simpl. rewrite lease_rows_other; [apply Hin; set_solver|].
      rewrite (describes_ids _ _ Hpre). rewrite fmap_app in Hnd. apply NoDup_app in Hnd as (_ & Hnd & _).
      intros Hi. apply (Hnd _ Hi). simpl. left.
    + intros c Hc. split; [done|]. eexists. split; [done|]. exists (pre ++ [(id, o)]).
      rewrite <- app_assoc. split_and!; [done|apply Forall2_app; [done|by repeat constructor]|].
      unfold lease_rows. rewrite foldl_app. simpl. by rewrite (describes_id _ _ Hc).
    + intros e t' [-> | [-> | ->]]; simpl; auto.
  - exists []. split_and!; [done|constructor|]. by destruct d.
  - intros cs t (pre & Hpre & Hcs & ->). rewrite app_nil_r in Hpre. subst pre.
    assert (claim_effect lease limit cs d (set_outbox (lease_rows dbNow lease cs (t_outbox d)) d)) as He.
    { exists dbNow, rows. auto 10. }
    apply twp_commit; simpl; eauto.
Qed.

Lemma claimable_unaccepted now o : claimable now o = true -> o_status o <> accepted.
Proof. unfold claimable. destruct (o_status o); done. Qed.

Lemma lease_rows_evolves dbNow lease rows cs d :
  NoDup rows.*1 -> Forall2 describes rows cs ->
  (forall id o, (id, o) ∈ rows -> t_outbox d !! id = Some o /\ claimable dbNow o = true) ->
  evolves d (set_outbox (lease_rows dbNow lease cs (t_outbox d)) d).
Proof.
  intros Hnd Hd. revert d. induction Hd as [|[id o] c rows cs Hc _ IH]; intros d Hin.
  { simpl. by destruct d. }
  simpl. rewrite (describes_id _ _ Hc). simpl. apply NoDup_cons in Hnd as [Hid Hnd].
  destruct (Hin id o) as [Ho Hcl]; [left|]. apply claimable_unaccepted in Hcl.
  transitivity (set_outbox (alter (take_lease (cl_LeaseToken c) (dbNow + lease) dbNow) id (t_outbox d)) d).
  - rewrite (alter_alt_Some _ _ _ _ Ho). eapply evolves_update; [done| |done|].
    + apply set_lease_evolves; [lia|done].
    + intros (Ha & _). unfold row_wf. simpl. eauto with lia.
  - apply (IH Hnd (set_outbox _ d)). intros i x Hix. simpl. rewrite lookup_alter_ne.
    + apply Hin. by right.
    + intros ->. apply Hid. apply list_elem_of_fmap. by exists (i, x).
Qed.

Lemma Claim_evolves lease limit : keeps evolves (Claim lease limit).
Proof.
  apply keeps_with_tx_twp; [apply _|]. intros d. eapply twp_mono; [apply claim_body_spec|].
  intros r d' tx' Ho.
  assert (d' = d \/ exists cs, claim_effect lease limit cs d d') as [-> | (cs & n & rows & _ & Hnd & _ & Hin & Hd & ->)].
  { destruct r as [cs|[]]; simpl in Ho; naive_solver. }
  - reflexivity.
  - by eapply lease_rows_evolves.
Qed.
End Claims.

(** *** Generation of due occurrences *)

Section Generation.
Context `{Postgres} (LoadLocation : string -> option location).

Lemma evolves_insert id row d :
  t_outbox d !! id = None -> row_wf row -> (unaccepted row = true -> has_unaccepted (o_key row) d = false) ->
  evolves d (set_outbox (<[id := row]> (t_outbox d)) d).
Proof.
  intros Hid Hrow Hone. split_and!; simpl; [|lia|].
  - intros [W1 W2 W3]. constructor; simpl; [| |done].
    + intros i x [[<- <-]|[_ Hx]]%lookup_insert_Some; eauto.
    + assert (forall j b, t_outbox d !! j = Some b -> o_key b = o_key row -> unaccepted row = true ->
        unaccepted b = true -> False) as Hno.
      { intros j b Hb Hk Hr Hu. specialize (Hone Hr). apply not_true_iff_false in Hone. apply Hone.
        apply has_unaccepted_spec. eauto. }
      intros i j a b [[<- <-]|[Hi Ha]]%lookup_insert_Some [[<- <-]|[Hj Hb]]%lookup_insert_Some
        Hab Hua Hub; [done|..]; [exfalso; eauto..|]. by eapply W2.
  - intros i x Hx. exists x. rewrite lookup_insert_ne by congruence. auto with news.
Qed.

Lemma outstanding_insert id row d :
  t_outbox d !! id = None -> unaccepted row = true ->
  outstanding (set_outbox (<[id := row]> (t_outbox d)) d) = outstanding d + 1.
Proof.
  intros Hid Hu. unfold outstanding. simpl. rewrite (map_to_list_insert _ _ _ Hid).
  rewrite filter_cons_True by done. simpl. lia.
Qed.

(** What generating an occurrence for each of the rows [pre] has done. *)
Record generated (now availableAt : Z) (pre : list (string * schedule_row)) (d t : tables) : Prop := {
  gen_evolves : evolves d t;
  gen_control : t_control t = t_control d;
  gen_kept : forall id o, t_outbox d !! id = Some o -> t_outbox t !! id = Some o;
  gen_new : forall id o, t_outbox t !! id = Some o -> t_outbox d !! id = None ->
    canonicalUUID id = true /\ exists k r created, (k, r) ∈ pre /\ o = new_occurrence k r availableAt created;
  gen_each : forall k r, (k, r) ∈ pre -> exists id created next,
    t_outbox d !! id = None /\ t_outbox t !! id = Some (new_occurrence k r availableAt created) /\
    NextAfterOccurrence LoadLocation (s_calendar r) now (default 0 (s_next_due_at r)) = Ok next /\
    t_schedules t !! k = Some (set_next_due next r);
  gen_others : forall k, k ∉ pre.*1 -> t_schedules t !! k = t_schedules d !! k;
  gen_outstanding : outstanding t = outstanding d + Z.of_nat (length pre);
}.

Lemma generated_nil now availableAt d : generated now availableAt [] d d.
Proof.
  constructor; [reflexivity|done|done| | |done|simpl; lia].
  - intros id o H1 H2. congruence.
  - intros k r []%elem_of_nil.
Qed.

Lemma generated_snoc now availableAt pre k r id created next d t :
  generated now availableAt pre d t -> k ∉ pre.*1 ->
  t_schedules d !! k = Some r -> s_enabled r = true ->
  t_outbox t !! id = None -> has_unaccepted k t = false -> canonicalUUID id = true ->
  NextAfterOccurrence LoadLocation (s_calendar r) now (default 0 (s_next_due_at r)) = Ok next ->
  let t1 := set_outbox (<[id := new_occurrence k r availableAt created]> (t_outbox t)) t in
  generated now availableAt (pre ++ [(k, r)]) d (set_schedules (alter (set_next_due next) k (t_schedules t1)) t1).
Proof.
  intros G Hk Hr Hen Hid Hone Huuid Hnext t1.
  assert (evolves t t1) as E1.
  { apply evolves_insert; [done|by split|done]. }
  assert (t_outbox d !! id = None) as Hd.
  { destruct (t_outbox d !! id) as [o|] eqn:Ho; [|done]. apply (gen_kept _ _ _ _ _ G) in Ho. congruence. }
  assert (t_schedules t !! k = Some r) as Ht by (by rewrite (gen_others _ _ _ _ _ G)).
  constructor; simpl.
  - transitivity t; [apply (gen_evolves _ _ _ _ _ G)|]. transitivity t1; [done|].
    apply (evolves_update_schedule k (set_next_due next) t1). intros _ r' Hr' [Hrev _]. simpl in Hr'. split; simpl; [done|].
    assert (r' = r) as -> by congruence. rewrite Hen. split; eauto.
  - apply (gen_control _ _ _ _ _ G).
  - intros i o Ho. pose proof (gen_kept _ _ _ _ _ G i o Ho). rewrite lookup_insert_ne by congruence. done.
  - intros i o Ho Hi. apply lookup_insert_Some in Ho as [[<- <-]|[_ Ho]].
    + split; [done|]. exists k, r, created. split; [|done]. apply elem_of_app. right. left.
    + destruct (gen_new _ _ _ _ _ G i o Ho Hi) as (Hc & k' & r' & c' & Hin & ->).
      split; [done|]. exists k', r', c'. split; [|done]. apply elem_of_app. by left.
  - intros k' r' [Hin|[= -> ->]%list_elem_of_singleton]%elem_of_app.
    + destruct (gen_each _ _ _ _ _ G k' r' Hin) as (i & c & n & H1 & H2 & H3 & H4).
      exists i, c, n. rewrite lookup_insert_ne by congruence. rewrite lookup_alter_ne; [done|].
      intros ->. apply Hk. apply list_elem_of_fmap. by exists (k', r').
    + exists id, created, next. rewrite lookup_insert_eq, lookup_alter_eq, Ht. done.
  - intros k' Hk'. rewrite fmap_app in Hk'. rewrite lookup_alter_ne by set_solver.
    apply (gen_others _ _ _ _ _ G). set_solver.
  - change (outstanding t1 = outstanding d + Z.of_nat (length (pre ++ [(k, r)]))).
    unfold t1. rewrite outstanding_insert by done. rewrite (gen_outstanding _ _ _ _ _ G), length_app. simpl. lia.
Qed.

Definition generate_error (e : sched_error) : Prop :=
  match e with ErrPayloadDecode | ErrRandom | ErrCalendar _ | ErrDriver _ => True | _ => False end.

Lemma generate_one_spec now availableAt pre k r d t db
    (Q : result sched_error unit -> tables -> option tables -> Prop) :
  generated now availableAt pre d t -> k ∉ pre.*1 -> t_schedules d !! k = Some r -> s_enabled r = true ->
  (forall t', generated now availableAt (pre ++ [(k, r)]) d t' -> Q (Ok tt) db (Some t')) ->
  (forall e t', generate_error e -> Q (Err e) db (Some t')) ->
  twp (generate_one LoadLocation now availableAt (k, r)) Q db t.
Proof.
  intros G Hk Hr Hen Hok Herr. unfold generate_one, newUUID. apply twp_bind, twp_lift.
  destruct (decodeJSONMap (s_payload r)) as [p|e] eqn:Hp.
  2:{ apply Herr. unfold decodeJSONMap in Hp. by destruct (s_payload r); simplify_eq/=. }
  eexists. split; [done|]. apply twp_bind. apply twp_rand; [|by apply Herr].
  intros bs. apply twp_ret. eexists. split; [done|]. set (id := uuid_text bs).
  apply twp_exec; [|intros; by apply Herr]. intros lk nw. unfold insert_occurrence.
  set (row := new_occurrence k r availableAt (pg_time nw)).
  destruct (bool_decide (is_Some (t_outbox t !! id))) eqn:Hid; simpl; [by apply Herr|].
  destruct (has_unaccepted k t) eqn:Hone; simpl; [by apply Herr|].
  bool_to_prop. apply eq_None_not_Some in Hid. apply twp_bind, twp_lift.
  destruct (NextAfterOccurrence _ _ _ _) as [next|e] eqn:Hnext; simpl; [|by apply Herr].
  eexists. split; [done|].
  apply (twp_ret_id (exec ErrDriver (update_schedule k (set_next_due next)))).
  apply twp_exec; [|intros; by apply Herr]. intros lk' nw'. simpl. apply twp_ret. apply Hok.
  eapply (generated_snoc now availableAt pre k r id (pg_time nw) next d t); try done.
  apply uuid_text_shape.
Qed.

Definition ticked (now : Z) (d : tables) : tables :=
  set_state (ServiceState (Some (pg_time now)) (st_last_dispatch_at (t_state d))) d.

(** A tick that has published: nothing generated while paused or full, else
    one occurrence for each selected schedule. *)
Definition tick_effect (now limit maxOutbox n : Z) (d d' : tables) : Prop :=
  (n = 0 /\ (ctl_Paused (t_control d) = true \/ maxOutbox <= outstanding d) /\ d' = ticked now d) \/
  (ctl_Paused (t_control d) = false /\ exists availableAt due t,
     n = Z.of_nat (length due) /\ n <= limit /\ outstanding d + n <= maxOutbox /\ NoDup due.*1 /\
     (forall k r, (k, r) ∈ due ->
        t_schedules d !! k = Some r /\ due_at (pg_time now) r = true /\ has_unaccepted k d = false) /\
     generated now availableAt due d t /\ d' = ticked now t).

Definition tick_outcome (now limit maxOutbox : Z) (r : result sched_error Z) (d d' : tables) : Prop :=
  match r with
  | Ok n => tick_effect now limit maxOutbox n d d'
  | Err (ErrDriver _) => d' = d \/ exists n, tick_effect now limit maxOutbox n d d'
  | Err _ => d' = d
  end.

Lemma generate_body_spec now limit maxOutbox d :
  twp (generate_body LoadLocation now limit maxOutbox)
    (fun r d' _ => tick_outcome now limit maxOutbox r d d') d d.
Proof.
  assert (ctl_Paused (t_control d) = true \/ maxOutbox <= outstanding d ->
    twp (exec ErrDriver (set_last_tick now) ≫= fun _ => commit db_failed ≫= fun _ => mret 0)
      (fun r d' _ => tick_outcome now limit maxOutbox r d d') d d) as Hidle.
  { intros Hc. apply twp_exec; [|simpl; auto]. intros lk nw. simpl.
    assert (tick_effect now limit maxOutbox 0 d (ticked now d)) by (left; auto).
    apply twp_commit; simpl; eauto. }
  apply twp_exec; [|simpl; auto]. intros lk nw. simpl.
  destruct (ctl_Paused (t_control d)) eqn:Hp; [apply Hidle; auto|].
  apply twp_exec; [|simpl; auto]. intros lk' nw'. simpl. set (availableAt := pg_time nw').
  apply twp_exec; [|simpl; auto]. intros lk'' nw''. simpl.
  destruct (maxOutbox <=? outstanding d) eqn:Hfull; bool_to_prop; [apply Hidle; auto|].
  set (lim := if maxOutbox - outstanding d <? limit then _ else _).
  assert (lim <= limit /\ lim <= maxOutbox - outstanding d) as [Hl1 Hl2].
  { unfold lim. destruct (_ <? limit) eqn:?; bool_to_prop; lia. }
  apply twp_exec; [|simpl; auto]. intros lk3 nw3. unfold select_due.
  destruct (limit_rows lim _) as [due|e] eqn:Hsel; [|simpl; auto].
  apply selected_rows in Hsel as (Hnd & Hrows & Hlen). clearbody lim.
  assert (forall k r, (k, r) ∈ due ->
    t_schedules d !! k = Some r /\ due_at (pg_time now) r = true /\ has_unaccepted k d = false) as Hin.
  { intros k r Hkr. destruct (Hrows k r Hkr) as [Hr Hc]. simpl in Hc. bool_to_prop. done. }
  clear Hrows.
  apply (twp_for_each (fun rest t => exists pre, due = pre ++ rest /\ generated now availableAt pre d t)).
  - intros [k r] rest t (pre & -> & G).
    destruct (Hin k r) as (Hr & Hdue & _); [set_solver|].
    apply (generate_one_spec now availableAt pre k r d t); [done| |done| |..].
    + rewrite fmap_app in Hnd. apply NoDup_app in Hnd as (_ & Hnd & _).
      intros Hi. apply (Hnd _ Hi). simpl. left.
    + unfold due_at in Hdue. by bool_to_prop.
    + intros t' G'. split; [done|]. eexists. split; [done|]. exists (pre ++ [(k, r)]).
      by rewrite <- app_assoc.
    + intros e t' He. destruct e; simpl in *; try done; auto.
  - exists []. split; [done|]. apply generated_nil.
  - intros t (pre & Hpre & G). rewrite app_nil_r in Hpre. subst pre.
    apply twp_exec; [|simpl; auto]. intros lk4 nw4. simpl.
    assert (tick_effect now limit maxOutbox (Z.of_nat (length due)) d (ticked now t)).
    { right. split; [done|]. exists availableAt, due, t. split_and!; try done; lia. }
    apply twp_commit; simpl; eauto.
Qed.

Lemma tick_effect_evolves now limit maxOutbox n d d' :
  tick_effect now limit maxOutbox n d d' -> evolves d d'.
Proof.
  intros [(_ & _ & ->)|(_ & a & due & t & _ & _ & _ & _ & _ & G & ->)]; [apply evolves_state|].
  transitivity t; [apply (gen_evolves _ _ _ _ _ G)|apply evolves_state].
Qed.

Lemma GenerateDue_evolves now limit maxOutbox : keeps evolves (GenerateDue LoadLocation now limit maxOutbox).
Proof.
  apply keeps_with_tx_twp; [apply _|]. intros d. eapply twp_mono; [apply generate_body_spec|].
  intros r d' tx' Ho.
  assert (d' = d \/ exists n, tick_effect (truncate Microsecond now) limit maxOutbox n d d') as [-> | (n & Hn)].
  { destruct r as [n|[]]; simpl in Ho; naive_solver. }
  - reflexivity.
  - by eapply tick_effect_evolves.
Qed.
End Generation.

(** ** Histories *)

(** The calls the scheduler's HTTP interface, its ticker and its dispatcher make. *)
Inductive request :=
| RGetSchedule (key : string)
| RPutSchedule (key : string) (m : Mutation) (targets : gmap string Target) (now : Z)
| RDeleteSchedule (key : string) (expected : Z)
| RGetControl
| RSetPaused (expected : Z) (paused : bool) (now : Z)
| RImport (expected : Z) (items : list ImportItem) (targets : gmap string Target) (now : Z)
| RGenerateDue (now limit maxOutbox : Z)
| RClaim (lease limit : Z)
| RAck (id token job : string) (now : Z)
| RMarkDispatch (now : Z)
| RMarkTick (now : Z)
| RRetry (id token code : string) (next now : Z)
| RBlock (id token code : string) (now : Z)
| RRetryBlocked (id : string)
| RDatabaseNow
| RGetStatus.

Section Histories.
Context `{Postgres} (LoadLocation : string -> option location).

Definition ignore {A} (m : SM A) : SM unit := _ ← try m; mret tt.

Definition handle (r : request) : SM unit :=
  match r with
  | RGetSchedule key => ignore (GetSchedule key)
  | RPutSchedule key m targets now => ignore (PutSchedule LoadLocation key m targets now)
  | RDeleteSchedule key expected => ignore (DeleteSchedule key expected)
  | RGetControl => ignore GetControl
  | RSetPaused expected paused now => ignore (SetPaused expected paused now)
  | RImport expected items targets now => ignore (Import LoadLocation expected items targets now)
  | RGenerateDue now limit maxOutbox => ignore (GenerateDue LoadLocation now limit maxOutbox)
  | RClaim lease limit => ignore (Claim lease limit)
  | RAck id token job now => ignore (Ack id token job now)
  | RMarkDispatch now => ignore (MarkDispatch now)
  | RMarkTick now => ignore (MarkTick now)
  | RRetry id token code next now => ignore (Retry id token code next now)
  | RBlock id token code now => ignore (Block id token code now)
  | RRetryBlocked id => ignore (RetryBlocked id)
  | RDatabaseNow => ignore DatabaseNow
  | RGetStatus => ignore GetStatus
  end.

Lemma handle_evolves r : keeps evolves (handle r).
Proof.
  assert (forall A (m : SM A), keeps evolves m -> keeps evolves (ignore m)) as Hi.
  { intros A m Hm. apply keeps_bind; [by apply keeps_try|]. intros. apply keeps_ret. }
  destruct r; apply Hi; auto using GetSchedule_evolves, PutSchedule_evolves, DeleteSchedule_evolves,
    SetPaused_evolves, Import_evolves, GenerateDue_evolves, Claim_evolves, Ack_evolves, MarkDispatch_evolves,
    MarkTick_evolves, Retry_evolves, Block_evolves, RetryBlocked_evolves;
    try (apply keeps_read, _).
  apply keeps_bind; [apply keeps_read, _|intros; apply keeps_ret].
Qed.

(** C1: the outbox under any history.  Whatever calls this scheduler makes, in
    whatever order, with whatever driver failures (a commit whose reply is
    lost included) and interleaved with other sessions that run the same
    code: every schedule keeps at most one occurrence that is not accepted;
    lease columns are set exactly while a row is leased; an enabled schedule
    has a due time; an occurrence never disappears, keeps its identity and
    payload, its attempts never decrease, and once accepted it is final. *)
Theorem outbox_history_safe reqs w :
  w_tx w = None -> rely evolves (w_env w) ->
  evolves (w_db w) (w_db (for_each handle reqs w).2).
Proof.
  intros Htx Hr. apply keeps_sound; [apply _| |done|done]. apply keeps_for_each, handle_evolves.
Qed.
End Histories.

(** ** What each operation does *)

(** The three ways the dispatcher gives up a lease. *)
Inductive settlement :=
| SAck (job : string) (now : Z)
| SRetry (code : string) (next now : Z)
| SBlock (code : string) (now : Z).

Definition settle (id token : string) (s : settlement) : SM unit :=
  match s with
  | SAck job now => Ack id token job now
  | SRetry code next now => Retry id token code next now
  | SBlock code now => Block id token code now
  end.

(** The row a settlement leaves: it gives up the lease, keeps the attempts, and
      is accepted with its job, pending after the requested delay, or blocked. *)
Definition settled_row (s : settlement) (o o' : occurrence_row) : Prop :=
  match s with
  | SAck job now =>
      o' = set_lease accepted (o_attempts o) (o_available_at o) None None (Some job) None (truncate Microsecond now) o
  | SRetry code next now => exists dbNow,
      o' = set_lease pending (o_attempts o) (pg_time (dbNow + Z.max 0 (next - truncate Microsecond now)))
             None None (o_job_id o) (Some code) dbNow o
  | SBlock code now =>
      o' = set_lease blocked (o_attempts o) (o_available_at o) None None (o_job_id o) (Some code)
             (truncate Microsecond now) o
  end.

Definition settle_outcome (id token : string) (s : settlement) (r : result sched_error unit) (d d' : tables) : Prop :=
  let kept := t_outbox d' = t_outbox d in
  let settled := exists t o o', t_outbox d !! id = Some o /\ holds_lease token t o = true /\
    settled_row s o o' /\ t_outbox d' = <[id := o']> (t_outbox d) in
  match r with
  | Ok _ => settled
  | Err ErrLeaseLost =>
      kept /\ exists t, match t_outbox d !! id with None => True | Some o => holds_lease token t o = false end
  | Err _ => kept \/ settled
  end.

Lemma qwp_settle_stmt id token f s d db :
  t_outbox db = t_outbox d -> (forall o, settled_row s o (f o)) ->
  qwp (exec ErrDriver (update_occurrence id (holds_lease token) f)) (fun r d' =>
    match r with
    | Ok n => (n = 1 /\ settle_outcome id token s (Ok tt) d d') \/
              (n = 0 /\ settle_outcome id token s (Err ErrLeaseLost) d d')
    | Err e => settle_outcome id token s (Err e) d d' /\ e = db_failed
    end) db.
Proof.
  intros Hdb Hf. apply qwp_exec; [|simpl; auto]. intros lk now. unfold update_occurrence. rewrite Hdb.
  destruct (t_outbox d !! id) as [o|] eqn:Ho; simpl; rewrite ?Ho.
  - destruct (holds_lease token (pg_time now) o) eqn:Hl; simpl.
    + split; [left; split; [done|]|split; [right|done]]; eauto 10.
    + split; [right; split; [done|]; eauto|auto].
  - split; [right|]; auto. split; [done|]. split; [done|]. by exists 0.
Qed.

Lemma qwp_settle id token s d : qwp (settle id token s) (fun r d' => settle_outcome id token s r d d') d.
Proof.
  destruct s as [job now|code next now|code now]; simpl.
  - apply qwp_bind. eapply qwp_mono; [apply (qwp_settle_stmt _ _ _ (SAck job now) d); done|].
    intros [n|e] d'; [|tauto]. intros [[-> Hs]|[-> Hs]]; apply qwp_bind, qwp_guard; try done.
    intros _. apply qwp_exec; [intros; simpl; auto|]. by right.
  - apply qwp_bind. apply qwp_read; [|simpl; auto]. intros t.
    apply qwp_bind. eapply qwp_mono; [apply (qwp_settle_stmt _ _ _ (SRetry code next now) d); [done|]|].
    + intros o. exists (pg_time t). simpl.
      replace (if _ <? 0 then 0 else _) with (Z.max 0 (next - truncate Microsecond now)); [done|].
      destruct (_ <? 0) eqn:?; bool_to_prop; lia.
    + intros [n|e] d'; [|tauto]. intros [[-> Hs]|[-> Hs]]; apply qwp_guard; done.
  - apply qwp_bind. eapply qwp_mono; [apply (qwp_settle_stmt _ _ _ (SBlock code now) d); done|].
    intros [n|e] d'; [|tauto]. intros [[-> Hs]|[-> Hs]]; apply qwp_guard; done.
Qed.

(** leases fence the outbox.  Ack, Retry and Block succeed only while the
    caller's token is the row's live lease, and then move exactly that row, to
    the status, lease and delay they stand for; a caller whose lease expired or
    was taken over gets ErrLeaseLost and the outbox is untouched; on a driver
    failure the row is either untouched or settled, never something between. *)
Theorem settle_fenced id token s w :
  w_tx w = None -> calm (w_env w) ->
  settle_outcome id token s (settle id token s w).1 (w_db w) (w_db (settle id token s w).2).
Proof. intros Htx Hc. by destruct (qwp_settle id token s (w_db w) w eq_refl Htx Hc). Qed.

(** A claim takes the work it may take and nothing else.  While the scheduler
    is paused it takes nothing; otherwise it returns at most [limit] distinct
    occurrences, each pending and available or leased and expired at the
    database time of the claim, describes each as stored, and leases each to a
    fresh token for [lease] from that time with one more attempt; every other
    row, a live lease in particular, is left as it was. *)
Theorem Claim_leases `{Postgres} lease limit w cs w' :
  w_tx w = None -> Claim lease limit w = (Ok cs, w') ->
  let d := found w in let d' := w_db w' in
  NoDup (map claimed_id cs) /\ Z.of_nat (length cs) <= Z.max 0 limit /\
  (ctl_Paused (t_control d) = true -> cs = []) /\
  t_schedules d' = t_schedules d /\
  exists dbNow,
    (forall c, c ∈ cs -> exists o, t_outbox d !! claimed_id c = Some o /\ claimable dbNow o = true /\
       describes (claimed_id c, o) c /\
       t_outbox d' !! claimed_id c = Some (take_lease (cl_LeaseToken c) (dbNow + lease) dbNow o)) /\
    (forall id, id ∉ map claimed_id cs -> t_outbox d' !! id = t_outbox d !! id) /\
    (forall id o u, t_outbox d !! id = Some o -> o_status o = leased -> o_lease_until o = Some u ->
       dbNow < u -> t_outbox d' !! id = Some o).
Proof.
  intros Htx Hcl d d'.
  assert (claim_outcome lease limit (Ok cs) d d') as Ho.
  { pose proof (with_tx_spec db_failed (claim_body lease limit) (fun r => claim_outcome lease limit r d) w Htx) as Hs.
    unfold Claim in Hcl. rewrite Hcl in Hs. apply Hs; [simpl; auto|]. apply claim_body_spec. }
  clearbody d d'. clear Htx Hcl w w'.
  destruct Ho as [(dbNow & rows & Hp & Hnd & Hlen & Hin & Hd & ->)|(Hp & -> & ->)].
  - pose proof (describes_ids _ _ Hd) as Hids. rewrite <- Hids in Hnd. simpl.
    split_and!; [done| |congruence|done|].
    { rewrite <- (Forall2_length _ _ _ Hd). lia. }
    assert (forall c, c ∈ cs -> exists o, t_outbox d !! claimed_id c = Some o /\ claimable dbNow o = true /\
       describes (claimed_id c, o) c) as Hc.
    { intros c Hc. apply list_elem_of_lookup in Hc as [i Hi].
      destruct (Forall2_lookup_r _ _ _ _ _ Hd Hi) as ([id o] & Hio & Hdc).
      apply list_elem_of_lookup_2 in Hio. destruct (Hin id o Hio). exists o.
      rewrite (describes_id _ _ Hdc). done. }
    exists dbNow. split_and!.
    + intros c Hcc. destruct (Hc c Hcc) as (o & H1 & H2 & H3). exists o. split_and!; [done..|].
      rewrite lease_rows_in by done. by rewrite H1.
    + intros id Hid. by apply lease_rows_other.
    + intros id o u Ho Hs Hu Hlt. rewrite lease_rows_other; [done|].
      intros (c & <- & Hcc)%list_elem_of_In%in_map_iff. apply list_elem_of_In in Hcc.
      destruct (Hc c Hcc) as (o' & H1 & H2 & _). assert (o' = o) as -> by congruence.
      unfold claimable in H2. rewrite Hs, Hu in H2. bool_to_prop. lia.
  - split_and!; [constructor|simpl; lia|done|done|]. exists 0. split_and!; [|done|done].
    intros c []%elem_of_nil.
Qed.


(** The result of a write whose request passed the checks, and what it leaves. *)
Definition put_result `{Postgres} (key : string) (m : Mutation) (next : option Z) (now : Z)
    (r : result sched_error (Schedule * bool)) (d d' : tables) : Prop :=
  match r with
  | Ok (s, true) =>
      t_schedules d !! key = None /\ mut_ExpectedRevision m = 0 /\ sch_Revision s = 1 /\
      d' = set_schedules (<[key := new_schedule m next now]> (t_schedules d)) d
  | Ok (s, false) =>
      exists row, t_schedules d !! key = Some row /\ mut_ExpectedRevision m = s_revision row /\
        if same_config row m then sch_Revision s = s_revision row /\ d' = d
        else sch_Revision s = s_revision row + 1 /\
             d' = set_schedules (<[key := revised m next now row]> (t_schedules d)) d
  | Err ErrConflict =>
      d' = d /\ match t_schedules d !! key with
                | None => mut_ExpectedRevision m <> 0
                | Some row => mut_ExpectedRevision m <> s_revision row
                end
  | Err _ => d' = d \/ put_written key m next now d d'
  end.

Lemma qwp_GetSchedule key row d (Q : result sched_error Schedule -> tables -> Prop) :
  t_schedules d !! key = Some row ->
  (forall s, scanSchedule key row = Ok s -> Q (Ok s) d) ->
  (forall e, e = db_failed \/ e = ErrPayloadDecode -> Q (Err e) d) -> qwp (GetSchedule key) Q d.
Proof.
  intros Hrow Hok Herr. apply qwp_bind, qwp_read; [|auto]. intros _. rewrite Hrow.
  apply qwp_lift. destruct (scanSchedule key row) as [s|e] eqn:Hs; [by apply Hok|].
  apply Herr. unfold scanSchedule, decodeJSONMap in Hs. destruct (s_payload row); simplify_eq/=; auto.
Qed.

Lemma scan_revision key row s : scanSchedule key row = Ok s -> sch_Revision s = s_revision row.
Proof. unfold scanSchedule. intros Hs. by apply result_bind_ok in Hs as (? & _ & [= <-]). Qed.

Lemma qwp_PutSchedule `{Postgres} LoadLocation key m targets now d :
  qwp (PutSchedule LoadLocation key m targets now) (fun r d' =>
    match put_checks LoadLocation key m targets now with
    | Err e => r = Err e /\ d' = d
    | Ok next => put_result key m next now r d d'
    end) d.
Proof.
  unfold PutSchedule. apply qwp_bind, qwp_lift.
  destruct (put_checks _ _ _ _ _) as [next|e]; [|done].
  apply qwp_bind, qwp_with_tx; [|simpl; auto].
  eapply twp_mono; [apply put_body_spec|]. intros r d' tx' Ho. cbv beta in Ho.
  destruct r as [[[s|] []]|[]]; simpl in Ho; try done; simpl; auto.
  - by destruct Ho as (row & _ & _ & _ & _ & H5 & _).
  - destruct Ho as (row & H1 & H2 & H3 & H4 & _ & ->). apply qwp_ret. exists row. rewrite H3.
    by apply scan_revision in H4.
  - destruct Ho as (H1 & H2 & ->). apply qwp_bind.
    eapply qwp_GetSchedule; [simpl; by rewrite lookup_insert_eq| |].
    + intros s Hs. apply scan_revision in Hs. by apply qwp_ret.
    + intros e [-> | ->]; right; left; done.
  - destruct Ho as (row & H1 & H2 & H3 & ->). apply qwp_bind.
    eapply qwp_GetSchedule; [simpl; by rewrite lookup_insert_eq| |].
    + intros s Hs. apply scan_revision in Hs. apply qwp_ret. exists row. rewrite H3. done.
    + intros e [-> | ->]; right; right; eauto.
Qed.

(** Optimistic concurrency of PutSchedule.  A write that validates is applied
    only if the caller named the schedule's revision (zero for a new one): it
    creates revision 1, or moves revision r to r+1, or, when the stored
    configuration is already the requested one, changes nothing; otherwise it
    is refused with ErrConflict and nothing changes.  A write that does not
    validate never reaches the database. *)
Theorem PutSchedule_optimistic `{Postgres} LoadLocation key m targets now w :
  w_tx w = None -> calm (w_env w) ->
  let '(r, w') := PutSchedule LoadLocation key m targets now w in
  match put_checks LoadLocation key m targets now with
  | Err e => r = Err e /\ w_db w' = w_db w
  | Ok next => put_result key m next now r (w_db w) (w_db w')
  end.
Proof.
  intros Htx Hc. destruct (qwp_PutSchedule LoadLocation key m targets now _ w eq_refl Htx Hc) as [Hq _].
  by destruct (PutSchedule LoadLocation key m targets now w).
Qed.

(** A row written for [m] has the configuration [m]. *)
Lemma Normalize_stored c : Normalize (calendar_json_roundtrip c) = Normalize c.
Proof. destruct c as [ty tz h mi [[|x xs]|] i]; done. Qed.
Lemma stored_same_config `{PostgresLaws} m next now :
  same_config (new_schedule m next now) m = true /\ forall row, same_config (revised m next now row) m = true.
Proof.
  split; intros; unfold same_config; simpl; rewrite eqb_reflx, Normalize_stored, bool_decide_true by done;
    rewrite !String.eqb_refl; apply jsonb_eqb_stored.
Qed.

Definition with_expected (rev : Z) (m : Mutation) : Mutation :=
  MkMutation rev (mut_Enabled m) (mut_Calendar m) (mut_Target m) (mut_Operation m) (mut_Payload m).

(** PutSchedule is idempotent.  After a write that succeeded, the same
    configuration put again at the revision it returned changes nothing, even
    though the calendar and payload went through JSON columns in between: the
    second call never writes, and if it succeeds it returns the same revision. *)
Theorem PutSchedule_idempotent `{PostgresLaws} LoadLocation key m targets now1 now2 w s c w1 :
  w_tx w = None -> calm (w_env w) ->
  PutSchedule LoadLocation key m targets now1 w = (Ok (s, c), w1) ->
  let '(r2, w2) := PutSchedule LoadLocation key (with_expected (sch_Revision s) m) targets now2 w1 in
  w_db w2 = w_db w1 /\
  match r2 with Ok (s2, c2) => c2 = false /\ sch_Revision s2 = sch_Revision s | Err _ => True end.
Proof.
  intros Htx Hc H1.
  destruct (qwp_PutSchedule LoadLocation key m targets now1 _ w eq_refl Htx Hc) as (Hq & Ht1 & Hc1).
  rewrite H1 in Hq, Ht1, Hc1. simpl in Hq, Ht1, Hc1.
  destruct (put_checks LoadLocation key m targets now1) as [next|e]; [|by destruct Hq].
  assert (exists row, t_schedules (w_db w1) !! key = Some row /\ same_config row m = true /\
            s_revision row = sch_Revision s) as (row & Hrow & Hsame & Hrev).
  { destruct c; simpl in Hq.
    - destruct Hq as (_ & _ & Hr & ->). eexists. simpl. rewrite lookup_insert_eq. split; [done|].
      split; [apply stored_same_config|done].
    - destruct Hq as (row & Hrow & _ & Hrest). destruct (same_config row m) eqn:Hsame.
      + destruct Hrest as [Hr ->]. eauto.
      + destruct Hrest as [Hr ->]. eexists. simpl. rewrite lookup_insert_eq. split; [done|].
        split; [apply stored_same_config|done]. }
  destruct (qwp_PutSchedule LoadLocation key (with_expected (sch_Revision s) m) targets now2 _ w1 eq_refl Ht1 Hc1) as [Hq2 _].
  destruct (PutSchedule _ key (with_expected _ m) _ _ w1) as [r2 w2]. simpl in Hq2.
  destruct (put_checks _ _ _ _ now2) as [next2|e]; [|by destruct Hq2 as [-> ->]].
  destruct r2 as [[s2 []]|e]; simpl in Hq2; rewrite ?Hrow in Hq2.
  - by destruct Hq2 as (? & _).
  - destruct Hq2 as (row' & Hr' & _ & Hrest). assert (row' = row) as -> by congruence.
    change (same_config row (with_expected _ m)) with (same_config row m) in Hrest. rewrite Hsame in Hrest.
    destruct Hrest as [Hr2 ->]. split; [done|]. split; [done|congruence].
  - split; [|done].
    assert (w_db w2 = w_db w1 \/ put_written key (with_expected (sch_Revision s) m) next2 now2 (w_db w1) (w_db w2))
      as [|[(Hn & _)|(row' & Hr' & _ & Hdiff & _)]]; [destruct e; tauto|done|congruence|].
    exfalso. assert (row' = row) as -> by congruence.
    change (same_config row (with_expected _ m)) with (same_config row m) in Hdiff. congruence.
Qed.

(** Imports are atomic.  A batch that is malformed (empty, over 100 items,
    duplicate keys, an invalid item) never reaches the database.  Otherwise the
    import requires the pause and the named control revision, adds every
    missing schedule at revision 1, and reports which keys it created and which
    it found; if one existing schedule differs in configuration or due time the
    whole batch is refused and nothing is written. *)
Theorem Import_atomic `{Postgres} LoadLocation expected items targets now w :
  w_tx w = None ->
  let '(r, w') := Import LoadLocation expected items targets now w in
  if ((length items <? 1)%nat || (100 <? length items)%nat) then r = Err ErrBatchSize /\ w' = w
  else match import_checks LoadLocation targets ∅ items with
       | Err e => r = Err e /\ w' = w
       | Ok _ => import_outcome expected now items r (found w) (w_db w')
       end.
Proof.
  intros Htx. unfold Import. destruct ((_ <? 1)%nat || _); simpl; [done|].
  destruct (import_checks LoadLocation targets ∅ items) as [[]|e] eqn:Hc; [|done].
  change ((mret tt ≫= fun _ => lift (Ok ()) ≫= ?k) w) with (k () w). cbv beta.
  apply import_checks_ok in Hc as (Hnd & _).
  pose proof (with_tx_spec db_failed (import_body expected items now)
    (fun r => import_outcome expected now items r (found w)) w Htx) as Hs.
  destruct (with_tx _ _ w) as [r w']. apply Hs; [simpl; auto|]. by apply import_body_spec.
Qed.

(** What the manual retry of an occurrence answers and leaves. *)
Definition retry_outcome (id : string) (r : result sched_error ostatus) (d d' : tables) : Prop :=
  let requeued o := exists t,
    d' = set_outbox (<[id := set_lease pending (o_attempts o) t None None (o_job_id o) None t o]> (t_outbox d)) d in
  match t_outbox d !! id, r with
  | _, Err (ErrDriver _) => d' = d \/ exists o, t_outbox d !! id = Some o /\ o_status o = blocked /\ requeued o
  | None, _ => r = Err ErrOccurrenceNotFound /\ d' = d
  | Some o, _ =>
      match o_status o with
      | accepted => r = Err ErrOccurrenceNotRetryable /\ d' = d
      | blocked => r = Ok pending /\ requeued o
      | s => r = Ok s /\ d' = d
      end
  end.

(** The manual retry.  RetryBlocked returns an occurrence to the queue only
    from blocked, where it becomes pending and available at the database time
    with its attempts kept; an unknown id and an accepted occurrence are refused
    without a change, and pending and leased ones are reported as they are. *)
Theorem RetryBlocked_exact id w :
  w_tx w = None ->
  retry_outcome id (RetryBlocked id w).1 (found w) (w_db (RetryBlocked id w).2).
Proof.
  intros Htx. apply (with_tx_spec _ _ (fun r => retry_outcome id r (found w))); [done|..].
  { unfold retry_outcome. destruct (t_outbox (found w) !! id); simpl; auto. }
  set (d := found w). clearbody d. clear w Htx. unfold retry_outcome.
  apply twp_exec; [|intros; destruct (t_outbox d !! id); simpl; auto]. intros lk nw. simpl.
  destruct (t_outbox d !! id) as [o|] eqn:Ho; [|by apply twp_raise].
  destruct (o_status o) eqn:Hs; [apply twp_commit; simpl; auto..| |by apply twp_raise].
  apply twp_exec; [|simpl; auto]. intros lk' nw'. simpl.
  apply twp_exec; [|simpl; auto]. intros lk'' nw''. unfold update_occurrence. rewrite Ho.
  apply twp_commit; simpl; [eauto|right; eauto 10|auto].
Qed.

(** ** Concrete instances *)

Module Sample.
#[export] Instance pg_plain : Postgres :=
  {| jsonb := fun j => j; jsonb_eqb := fun a b => bool_decide (a = b);
     text_leb := String.leb; uuid_leb := String.leb |}.
#[export] Instance pg_plain_laws : PostgresLaws.
Proof. split; simpl; [intros; by apply bool_decide_true|eauto]. Defined.

Definition targets : gmap string Target := {["worker" := MkTarget "http://worker/occurrences" "t"]}.
Definition digest : Mutation := MkMutation 0 true daily_fixed "worker" "digest.build" (Some [("lang", JStr "ru")]).
Definition empty : tables := Tables ∅ ∅ (MkControl 3 false 0) (ServiceState None None).
Definition at_time (d : tables) (t : Z) : world tables := World d None t [].

(** A schedule is created, falls due, is generated and claimed. *)
Definition w0 : world tables := at_time empty before_gap.
Definition w1 : world tables := Eval vm_compute in (PutSchedule zones "digest:ru" digest targets before_gap w0).2.
Definition later : Z := Eval vm_compute in before_gap + 3 * Day.
Definition w2 : world tables := Eval vm_compute in (GenerateDue zones later 10 100 (at_time (w_db w1) later)).2.
Definition claims : list Claimed := Eval vm_compute in match (Claim (30 * Second) 5 w2).1 with Ok cs => cs | Err _ => [] end.
Definition w3 : world tables := Eval vm_compute in (Claim (30 * Second) 5 w2).2.
Definition the_id : string := "00000000-0000-4000-8000-000000000000".

Example claimed_once : map claimed_id claims = [the_id].
Proof. by_eval. Qed.

Definition imported : ImportItem :=
  MkImportItem "digest:sr" false daily_fixed "worker" "digest.build" (Some []) None.
Definition paused : tables := Tables ∅ ∅ (MkControl 4 true 0) (ServiceState None None).
End Sample.

Import Sample.

Lemma outbox_history_safe_witness :
  let reqs := [RGenerateDue later 10 100; RClaim (30 * Second) 5; RAck the_id the_id the_id later] in
  o_status <$> (t_outbox (w_db (for_each (handle zones) reqs (at_time (w_db w1) later)).2) !! the_id) = Some accepted /\
  evolves (w_db w1) (w_db (for_each (handle zones) reqs (at_time (w_db w1) later)).2).
Proof.
  split; [by_eval|]. apply (outbox_history_safe zones _ (at_time (w_db w1) later)); [done|constructor].
Defined.

Lemma settle_fenced_witness :
  settle_outcome the_id the_id (SAck the_id later) (settle the_id the_id (SAck the_id later) w3).1
    (w_db w3) (w_db (settle the_id the_id (SAck the_id later) w3).2).
Proof. apply (settle_fenced the_id the_id (SAck the_id later) w3); [by_eval|constructor]. Defined.

Lemma Claim_leases_witness : claims <> [] /\ NoDup (map claimed_id claims).
Proof.
  split; [by vm_compute|].
  destruct (Claim_leases (30 * Second) 5 w2 claims w3) as [Hnd _]; [by_eval|by_eval|exact Hnd].
Defined.


Lemma PutSchedule_optimistic_witness :
  let '(r, w') := PutSchedule zones "digest:ru" digest targets before_gap w0 in
  match put_checks zones "digest:ru" digest targets before_gap with
  | Err e => r = Err e /\ w_db w' = w_db w0
  | Ok next => put_result "digest:ru" digest next before_gap r (w_db w0) (w_db w')
  end.
Proof. apply (PutSchedule_optimistic zones "digest:ru" digest targets before_gap w0); [done|constructor]. Defined.

Definition created_schedule : Schedule := Eval vm_compute in
  match (PutSchedule zones "digest:ru" digest targets before_gap w0).1 with
  | Ok (s, _) => s
  | Err _ => MkSchedule "" 0 false daily_fixed "" "" None None 0 0
  end.
Lemma PutSchedule_idempotent_witness :
  let '(r2, w2) := PutSchedule zones "digest:ru" (with_expected (sch_Revision created_schedule) digest) targets later w1 in
  w_db w2 = w_db w1 /\
  match r2 with Ok (s2, c2) => c2 = false /\ sch_Revision s2 = sch_Revision created_schedule | Err _ => True end.
Proof.
  apply (PutSchedule_idempotent zones "digest:ru" digest targets before_gap later w0 created_schedule true w1);
    [done|constructor|by_eval].
Defined.

Lemma Import_atomic_witness :
  let '(r, w') := Import zones 4 [imported] targets before_gap (at_time paused before_gap) in
  import_outcome 4 before_gap [imported] r paused (w_db w').
Proof. apply (Import_atomic zones 4 [imported] targets before_gap (at_time paused before_gap)). done. Defined.

Lemma RetryBlocked_exact_witness :
  (RetryBlocked the_id w3).1 = Ok leased /\ w_db (RetryBlocked the_id w3).2 = w_db w3.
Proof.
  pose proof (RetryBlocked_exact the_id w3 ltac:(by_eval)) as Hs. vm_compute in Hs. vm_compute. exact Hs.
Defined.
