(* ===== verification/Dispatcher.v ===== *)
(** * Dispatcher: go-scheduler/internal/dispatch/dispatcher.go

    The dispatcher claims due occurrences, posts each to its target and settles
    its lease by the answer.  The HTTP exchange itself (net/http and the remote
    service) is an argument: what [client.Do] and the reads of the response
    return.  [http.ParseTime] and [mime.ParseMediaType] are parameters of the
    section, so the theorems hold whatever they answer.  The random factor of
    [backoff] is given by the 53 bits [u] of [rand.Float64] and by [ulp], the
    effect of floating-point rounding on the product, at most one nanosecond. *)

From S2P Require Import Prelude JsonStrict GoTime Db GoText GoDecode Calendar SchedulerStore.

Definition maxEnvelopeBytes : Z := 8192.
Definition maxReceiptBytes : Z := 8192.
Definition maxBackoff : Z := 5 * Minute.
Definition maxRetryAfter : Z := 10 * Minute.

(** ** Delays *)

(** [for i := 1; i < attempt && d < maxBackoff; i++ { d *= 2 }]; ten turns are
    enough, see [backoff_base_closed] *)
Fixpoint backoff_loop (fuel : nat) (i attempt d : Z) : Z :=
  match fuel with
  | O => d
  | S fuel => if (i <? attempt) && (d <? maxBackoff) then backoff_loop fuel (i + 1) attempt (d * 2) else d
  end.

Definition backoff_base (attempt : Z) : Z :=
  let attempt := if attempt <? 1 then 1 else attempt in
  let d := backoff_loop 10 1 attempt Second in
  if maxBackoff <? d then maxBackoff else d.

(** [time.Duration(float64(d) * (0.8 + rand.Float64()*0.4))] *)
Definition jittered (u ulp d : Z) : Z := d * (8 * 2 ^ 53 + 4 * u) / (10 * 2 ^ 53) + ulp.

Definition backoff (u ulp attempt : Z) : Z := jittered u ulp (backoff_base attempt).

(** The loop over the characters. *)
Definition isDecimal (value : string) : bool :=
  negb (value =? "")%string && forallb (fun c => (48 <=? c) && (c <=? 57)) (bytes_of value).

(** The zero time the code returns for "no hint" is [None]. *)
Definition parseRetryAfter (ParseTime : string -> option Z) (value : string) (now : Z) : option Z :=
  let value := TrimSpace value in
  if (value =? "")%string then None
  else if isDecimal value then
    match ParseUint value with
    | None => Some (now + maxRetryAfter)
    | Some seconds =>
        if maxRetryAfter / Second <? seconds then Some (now + maxRetryAfter)
        else Some (now + seconds * Second)
    end
  else match ParseTime value with
       | None => None
       | Some at_ =>
           if at_ <? now then Some now
           else if now + maxRetryAfter <? at_ then Some (now + maxRetryAfter)
           else Some at_
       end.

(** The time [retry] asks for. *)
Definition retry_next (ParseTime : string -> option Z) (u ulp : Z) (attempt : Z) (retryAfter : string) (dbNow : Z) : Z :=
  let next := match parseRetryAfter ParseTime retryAfter dbNow with
              | Some t => t
              | None => dbNow + backoff u ulp attempt
              end in
  if dbNow + maxRetryAfter <? next then dbNow + maxRetryAfter else next.

(** ** Receipts *)

(** model.Receipt *)
Record Receipt := MkReceipt {
  rcp_Version : Z;
  rcp_OccurrenceID : string;
  rcp_JobID : string;
  rcp_Status : string;
}.

Definition receipt_fields : list string := ["version"; "occurrence_id"; "job_id"; "status"].

(** One member of the object: an unknown name and a value of the wrong type are
    errors, null leaves the field alone. *)
Definition set_receipt_field (r : Receipt) (m : string * json) : option Receipt :=
  match find_field receipt_fields m.1 with
  | None => None
  | Some f =>
      match m.2 with
      | JNull => Some r
      | JNum lit =>
          if (f =? "version")%string then
            match ParseInt lit with
            | Some n => Some (MkReceipt n (rcp_OccurrenceID r) (rcp_JobID r) (rcp_Status r))
            | None => None
            end
          else None
      | JStr s =>
          if (f =? "occurrence_id")%string then Some (MkReceipt (rcp_Version r) s (rcp_JobID r) (rcp_Status r))
          else if (f =? "job_id")%string then Some (MkReceipt (rcp_Version r) (rcp_OccurrenceID r) s (rcp_Status r))
          else if (f =? "status")%string then Some (MkReceipt (rcp_Version r) (rcp_OccurrenceID r) (rcp_JobID r) s)
          else None
      | _ => None
      end
  end.

(** [dec.DisallowUnknownFields(); dec.Decode(&receipt)] *)
Definition decode_receipt (j : json) : option Receipt :=
  let zero := MkReceipt 0 "" "" "" in
  match j with
  | JNull => Some zero
  | JObj ms => foldl (fun r m => r ≫= fun r => set_receipt_field r m) (Some zero) ms
  | _ => None
  end.

Inductive http_result :=
| RequestFailed
| NetworkError
| Response (status : Z) (retry_after content_type : string) (body : http_body).

Definition marshal_envelope (e : Envelope) : string :=
  obj [("version", itoa (env_Version e)); ("occurrence_id", marshal_string (env_OccurrenceID e));
       ("schedule_key", marshal_string (env_ScheduleKey e));
       ("schedule_revision", itoa (env_ScheduleRevision e));
       ("scheduled_for", marshal_string (rfc3339nano (env_ScheduledFor e)));
       ("operation", marshal_string (env_Operation e)); ("payload", marshal (json_of_map (env_Payload e)))].

Section Dispatcher.
Context (ParseTime : string -> option Z) (ParseMediaType : string -> option string).

Definition clockNow : SM Z := t ← app_now; mret (truncate Microsecond t).

Definition block (item : Claimed) (code : string) (completedAt : Z) : SM unit :=
  _ ← try (Block (env_OccurrenceID (cl_Envelope item)) (cl_LeaseToken item) code completedAt);
  mret tt.

Definition retry (u ulp : Z) (item : Claimed) (code retryAfter : string) : SM unit :=
  r ← try DatabaseNow;
  match r with
  | Err _ => mret tt
  | Ok dbNow =>
      let next := retry_next ParseTime u ulp (cl_Attempt item) retryAfter dbNow in
      _ ← try (Retry (env_OccurrenceID (cl_Envelope item)) (cl_LeaseToken item) code next dbNow);
      mret tt
  end.

(** The checks of a 200 or 202 answer, in the order of the code; the result is
    the receipt's job. *)
Definition read_receipt (item : Claimed) (content_type : string) (body : http_body) : option string :=
  match ParseMediaType content_type with
  | None => None
  | Some mediaType =>
      if negb (mediaType =? "application/json")%string then None
      else if bd_failed body || (maxReceiptBytes <? bd_length body) then None
      else match RejectDuplicateKeys (bd_lexemes body) (bd_ending body) with
           | Err _ => None
           | Ok _ =>
               match decode_next (bd_lexemes body) (bd_ending body) with
               | Err _ => None
               | Ok (j, rest) =>
                   match decode_receipt j with
                   | None => None
                   | Some receipt =>
                       match decode_next rest (bd_ending body) with
                       | Err EofErr =>
                           if negb (rcp_Version receipt =? 1) ||
                              negb (rcp_OccurrenceID receipt =? env_OccurrenceID (cl_Envelope item))%string ||
                              negb (rcp_Status receipt =? "accepted")%string ||
                              negb (canonicalUUID (rcp_JobID receipt))
                           then None else Some (rcp_JobID receipt)
                       | _ => None
                       end
                   end
               end
           end
  end.

(** [cancelled] is [parent.Err() != nil]; [http] what the exchange would give. *)
Definition send (cancelled : bool) (targets : gmap string Target) (http : http_result) (u ulp : Z)
    (item : Claimed) : SM unit :=
  if cancelled then mret tt
  else match targets !! cl_TargetAlias item with
  | None => t ← clockNow; block item "target_unavailable" t
  | Some _ =>
      if maxEnvelopeBytes <? len (marshal_envelope (cl_Envelope item)) then
        t ← clockNow; block item "invalid_envelope" t
      else
        t ← clockNow;
        _ ← try (MarkDispatch t);
        match http with
        | RequestFailed => retry u ulp item "request_failed" ""
        | NetworkError => retry u ulp item "network_error" ""
        | Response status retry_after content_type body =>
            responseAt ← clockNow;
            if (status =? 401) || (status =? 403) || (status =? 422) then
              block item "target_rejected" responseAt
            else if (status =? 429) || (status =? 503) || (500 <=? status) then
              retry u ulp item "target_unavailable" retry_after
            else if negb (status =? 200) && negb (status =? 202) then
              block item "target_rejected" responseAt
            else match read_receipt item content_type body with
                 | None => retry u ulp item "invalid_receipt" ""
                 | Some job =>
                     completedAt ← clockNow;
                     _ ← try (Ack (env_OccurrenceID (cl_Envelope item)) (cl_LeaseToken item) job completedAt);
                     mret tt
                 end
        end
  end.

(** What one goroutine of the cycle meets. *)
Record exchange := Exchange { ex_cancelled : bool; ex_http : http_result; ex_u : Z; ex_ulp : Z }.

(** [Cycle]: the goroutines of one cycle settle distinct rows; they are run in
    the order of the claims, other interleavings being those of other sessions. *)
Definition Cycle `{Postgres} (targets : gmap string Target) (HTTPTimeout Concurrency : Z)
    (world : Claimed -> exchange) : SM unit :=
  let lease := if 30 * Second <? 2 * HTTPTimeout then 2 * HTTPTimeout else 30 * Second in
  claimed ← Claim lease Concurrency;
  for_each (fun item => let x := world item in
    send (ex_cancelled x) targets (ex_http x) (ex_u x) (ex_ulp x) item) claimed.
End Dispatcher.

(** ** Delays are bounded *)

Lemma backoff_loop_spec fuel i attempt d :
  0 < d -> d <= maxBackoff * 2 -> i <= attempt -> maxBackoff <= d * 2 ^ Z.of_nat fuel ->
  Z.min maxBackoff (backoff_loop fuel i attempt d) = Z.min maxBackoff (d * 2 ^ (attempt - i)).
Proof.
  revert i d. induction fuel as [|fuel IH]; intros i d Hd Hmax Hi Hf.
  - simpl in *. assert (1 <= 2 ^ (attempt - i)) by (apply (Z.pow_le_mono_r 2 0); lia). nia.
  - cbn [backoff_loop]. destruct (i <? attempt) eqn:Hlt; bool_to_prop; simpl.
    + destruct (d <? maxBackoff) eqn:Hb; bool_to_prop.
      * rewrite IH; [|lia..|].
        { f_equal. replace (attempt - i) with (1 + (attempt - (i + 1))) by lia.
          rewrite Z.pow_add_r by lia. lia. }
        rewrite Nat2Z.inj_succ, Z.pow_succ_r in Hf by lia. lia.
      * assert (1 <= 2 ^ (attempt - i)) by (apply (Z.pow_le_mono_r 2 0); lia). nia.
    + replace (attempt - i) with 0 by lia. lia.
Qed.

Lemma backoff_base_closed attempt :
  backoff_base attempt = Z.min maxBackoff (Second * 2 ^ (Z.max 1 attempt - 1)).
Proof.
  unfold backoff_base. replace (if attempt <? 1 then 1 else attempt) with (Z.max 1 attempt)
    by (destruct (attempt <? 1) eqn:?; bool_to_prop; lia).
  rewrite <- (backoff_loop_spec 10); [|unfold maxBackoff; units; lia..|].
  - set (b := backoff_loop _ _ _ _). destruct (maxBackoff <? b) eqn:?; bool_to_prop; lia.
  - unfold maxBackoff. units. change (Z.of_nat 10) with 10. lia.
Qed.

Definition random_bits (u ulp : Z) : Prop := 0 <= u < 2 ^ 53 /\ -1 <= ulp <= 1.

Lemma jittered_bounds u ulp d :
  random_bits u ulp -> 0 <= d -> 8 * d <= 10 * (jittered u ulp d + 2) /\ 10 * (jittered u ulp d - 1) <= 12 * d.
Proof.
  intros [Hu Hr] Hd. unfold jittered. change (2 ^ 53) with 9007199254740992 in *.
  set (q := d * _ / _). assert (8 * d <= 10 * (q + 1) /\ 10 * q <= 12 * d); [|lia].
  unfold q. clear q. set (x := d * _).
  assert (8 * d * 9007199254740992 <= x <= 12 * d * 9007199254740992) by (unfold x; nia).
  clearbody x. Z.to_euclidean_division_equations. nia.
Qed.

Lemma backoff_bounds u ulp attempt :
  random_bits u ulp -> 0 <= backoff u ulp attempt <= 6 * Minute + 1.
Proof.
  intros Hu. unfold backoff. assert (Second <= backoff_base attempt <= maxBackoff) as [H1 H2].
  { rewrite backoff_base_closed. assert (1 <= 2 ^ (Z.max 1 attempt - 1)) by (apply (Z.pow_le_mono_r 2 0); lia).
    unfold maxBackoff. units. nia. }
  destruct (jittered_bounds u ulp (backoff_base attempt) Hu); [units; lia|].
  unfold maxBackoff in *. revert H H0 H1 H2. units. lia.
Qed.

Lemma parseRetryAfter_bounds ParseTime value now t :
  parseRetryAfter ParseTime value now = Some t -> now <= t <= now + maxRetryAfter.
Proof.
  unfold parseRetryAfter. assert (0 <= maxRetryAfter) by (unfold maxRetryAfter; units; lia).
  destruct (_ =? "")%string; [done|]. destruct (isDecimal _).
  - destruct (ParseUint _) as [s|] eqn:Hs; [|intros [= <-]; lia].
    apply ParseUint_bounds in Hs. destruct (_ <? s) eqn:Hc; bool_to_prop; intros [= <-]; [lia|].
    unfold maxRetryAfter in *. revert Hc. units. dlia.
  - destruct (ParseTime _) as [a|]; [|done]. destruct (a <? now) eqn:?; bool_to_prop; [intros [= <-]; lia|].
    destruct (_ <? a) eqn:?; bool_to_prop; intros [= <-]; lia.
Qed.

Lemma retry_next_bounds ParseTime u ulp attempt header dbNow :
  random_bits u ulp -> dbNow <= retry_next ParseTime u ulp attempt header dbNow <= dbNow + maxRetryAfter.
Proof.
  intros Hu. unfold retry_next.
  destruct (parseRetryAfter ParseTime header dbNow) as [t|] eqn:Hp.
  - apply parseRetryAfter_bounds in Hp. destruct (_ <? t) eqn:?; bool_to_prop; lia.
  - pose proof (backoff_bounds u ulp attempt Hu). set (b := backoff u ulp attempt) in *. clearbody b.
    destruct (_ <? _) eqn:Hc; bool_to_prop; [|lia]. unfold maxRetryAfter in *. revert H Hc. units. lia.
Qed.

(** ** Settlement by the answer *)

Inductive verdict := VAck (job : string) | VRetry (code : string) | VBlock (code : string).

Section Settlement.
Context (ParseTime : string -> option Z) (ParseMediaType : string -> option string).

(** What an answer means: permanent refusals (every status below 500 except
    200, 202 and 429) block, overload, server errors, network errors and
    unusable receipts are retried, and only a valid receipt acknowledges. *)
Definition disposition (targets : gmap string Target) (http : http_result) (item : Claimed) : verdict :=
  if negb (bool_decide (is_Some (targets !! cl_TargetAlias item))) then VBlock "target_unavailable"
  else if maxEnvelopeBytes <? len (marshal_envelope (cl_Envelope item)) then VBlock "invalid_envelope"
  else match http with
       | RequestFailed => VRetry "request_failed"
       | NetworkError => VRetry "network_error"
       | Response status _ content_type body =>
           if bool_decide (status = 200 \/ status = 202) then
             match read_receipt ParseMediaType item content_type body with
             | Some job => VAck job
             | None => VRetry "invalid_receipt"
             end
           else if bool_decide (status = 429 \/ 500 <= status) then VRetry "target_unavailable"
           else VBlock "target_rejected"
       end.

(** The row a verdict leaves; a retry is at most ten minutes away. *)
Definition verdict_row (v : verdict) (o o' : occurrence_row) : Prop :=
  match v with
  | VAck job => exists now, settled_row (SAck job now) o o'
  | VRetry code => exists next now, now <= next <= now + maxRetryAfter /\ settled_row (SRetry code next now) o o'
  | VBlock code => exists now, settled_row (SBlock code now) o o'
  end.

Definition settled_by (v : verdict) (item : Claimed) (d d' : tables) : Prop :=
  let id := env_OccurrenceID (cl_Envelope item) in
  exists t o o', t_outbox d !! id = Some o /\ holds_lease (cl_LeaseToken item) t o = true /\
    verdict_row v o o' /\ t_outbox d' = <[id := o']> (t_outbox d).

(** Either nothing moved in the outbox, or the verdict was carried out. *)
Definition settles (v : verdict) (item : Claimed) (d d' : tables) : Prop :=
  t_outbox d' = t_outbox d \/ settled_by v item d d'.

Lemma qwp_settle_by s v item d d0 :
  t_outbox d0 = t_outbox d -> (forall o o', settled_row s o o' -> verdict_row v o o') ->
  qwp (_ ← try (settle (env_OccurrenceID (cl_Envelope item)) (cl_LeaseToken item) s); mret tt)
    (fun r d' => r = Ok tt /\ settles v item d d') d0.
Proof.
  intros Hd Hv. apply qwp_bind, qwp_try. eapply qwp_mono; [apply qwp_settle|].
  intros r d' Hs. apply qwp_ret. split; [done|]. unfold settle_outcome in Hs. rewrite Hd in Hs.
  assert (t_outbox d' = t_outbox d \/ exists t o o', t_outbox d !! env_OccurrenceID (cl_Envelope item) = Some o /\
    holds_lease (cl_LeaseToken item) t o = true /\ settled_row s o o' /\
    t_outbox d' = <[env_OccurrenceID (cl_Envelope item) := o']> (t_outbox d)) as [|(t & o & o' & H1 & H2 & H3 & H4)]
    by (destruct r as [[]|[]]; tauto).
  - by left.
  - right. exists t, o, o'. auto.
Qed.

Lemma qwp_clockNow {B} (k : Z -> SM B) Q d : (forall t, qwp (k t) Q d) -> qwp (clockNow ≫= k) Q d.
Proof.
  intros Hk. apply qwp_bind. intros w <- Ht Hc. unfold clockNow, app_now, mbind, M_bind, mret, M_ret.
  destruct (next_event w) as [ev w1] eqn:Hn. destruct (calm_next _ _ _ Hn Ht Hc) as (H1 & H2 & H3).
  simpl. rewrite H1. auto.
Qed.

Lemma qwp_block item code t d d0 :
  t_outbox d0 = t_outbox d ->
  qwp (block item code t) (fun r d' => r = Ok tt /\ settles (VBlock code) item d d') d0.
Proof. intros Hd. apply (qwp_settle_by (SBlock code t)); [done|]. intros o o' Ho. by exists t. Qed.

Lemma qwp_retry u ulp item code header d d0 :
  random_bits u ulp -> t_outbox d0 = t_outbox d ->
  qwp (retry ParseTime u ulp item code header) (fun r d' => r = Ok tt /\ settles (VRetry code) item d d') d0.
Proof.
  intros Hu Hd. unfold retry. apply qwp_bind, qwp_try. apply qwp_bind, qwp_read.
  - intros now. apply qwp_ret. set (dbNow := truncate Microsecond _).
    apply (qwp_settle_by (SRetry code (retry_next ParseTime u ulp (cl_Attempt item) header dbNow) dbNow)); [done|].
    intros o o' Ho. eexists _, dbNow. split; [by apply retry_next_bounds|exact Ho].
  - apply qwp_ret. split; [done|]. by left.
Qed.

Lemma qwp_send targets http u ulp item d :
  random_bits u ulp ->
  qwp (send ParseTime ParseMediaType false targets http u ulp item)
    (fun r d' => r = Ok tt /\ settles (disposition targets http item) item d d') d.
Proof.
  intros Hu. unfold send, disposition. destruct (targets !! cl_TargetAlias item) as [tg|].
  2:{ rewrite bool_decide_false by (by intros []). apply qwp_clockNow. intros t. by apply qwp_block. }
  rewrite bool_decide_true by eauto. cbn [negb].
  destruct (maxEnvelopeBytes <? _); [apply qwp_clockNow; intros t; by apply qwp_block|].
  apply qwp_clockNow. intros t. apply qwp_bind, qwp_try.
  apply (qwp_mono _ (fun _ d0 => t_outbox d0 = t_outbox d)).
  { apply qwp_exec; [intros; by simpl|done]. }
  intros r0 d0 Hd. destruct http as [| |status ra ct body]; [by apply qwp_retry..|].
  apply qwp_clockNow. intros t2.
  destruct (status =? 401) eqn:E1; bool_to_prop; cbn [orb].
  { subst. rewrite !bool_decide_false by lia. by apply qwp_block. }
  destruct (status =? 403) eqn:E2; bool_to_prop; cbn [orb].
  { subst. rewrite !bool_decide_false by lia. by apply qwp_block. }
  destruct (status =? 422) eqn:E3; bool_to_prop; cbn [orb].
  { subst. rewrite !bool_decide_false by lia. by apply qwp_block. }
  replace ((status =? 429) || (status =? 503) || (500 <=? status)) with (bool_decide (status = 429 \/ 500 <= status)).
  2:{ apply eq_true_iff_eq. rewrite bool_decide_eq_true, !orb_true_iff, !Z.eqb_eq, Z.leb_le. lia. }
  case_bool_decide as Hretry.
  { rewrite bool_decide_false by lia. by apply qwp_retry. }
  replace (negb (status =? 200) && negb (status =? 202)) with (negb (bool_decide (status = 200 \/ status = 202))).
  2:{ apply eq_true_iff_eq. rewrite negb_true_iff, bool_decide_eq_false, andb_true_iff, !negb_true_iff, !Z.eqb_neq. lia. }
  case_bool_decide as Hok; simpl; [|by apply qwp_block].
  destruct (read_receipt _ item ct body) as [job|]; [|by apply qwp_retry].
  apply qwp_clockNow. intros t3. apply (qwp_settle_by (SAck job t3)); [done|]. intros o o' Ho. by exists t3.
Qed.

(** C37: what an answer does to the outbox.  For every target table, answer, clock
    and driver failure, sending a claimed occurrence never returns an error and
    touches at most that occurrence's row, under its live lease: the row is
    acknowledged only on a 200 or 202 whose receipt is a duplicate-free JSON
    document of version 1 that names this occurrence, says accepted and carries
    a canonical job id; every other status below 500 than 200, 202 and 429
    blocks it; network errors, 429, 5xx and unusable receipts make it pending
    again within ten minutes. *)
Theorem send_settles targets http u ulp item w :
  random_bits u ulp -> w_tx w = None -> calm (w_env w) ->
  let '(r, w') := send ParseTime ParseMediaType false targets http u ulp item w in
  r = Ok tt /\ settles (disposition targets http item) item (w_db w) (w_db w').
Proof.
  intros Hu Htx Hc. destruct (qwp_send targets http u ulp item (w_db w) Hu w eq_refl Htx Hc) as [Hs _].
  by destruct (send _ _ _ _ _ _ _ _ w).
Qed.

(** the receipt check.  A job id is taken from an answer exactly when its
    media type is application/json, its body was read within the limit and is
    one JSON document without duplicate names at any depth, whose members
    decode to a receipt of version 1 for this occurrence, with status accepted
    and a canonical job id. *)
Theorem read_receipt_exact item ct body job :
  read_receipt ParseMediaType item ct body = Some job <->
  ParseMediaType ct = Some "application/json" /\ bd_failed body = false /\ bd_length body <= maxReceiptBytes /\
  bd_ending body = AtEof /\ canonicalUUID job = true /\
  exists j, bd_lexemes body = lex_of j /\ unique_keys j /\
    decode_receipt j = Some (MkReceipt 1 (env_OccurrenceID (cl_Envelope item)) job "accepted").
Proof.
  unfold read_receipt. split.
  - destruct (ParseMediaType ct) as [mt|]; [|done]. destruct (mt =? _)%string eqn:Hmt; [|done]. simpl.
    destruct (bd_failed body || _) eqn:Hb; [done|]. bool_to_prop.
    destruct (RejectDuplicateKeys _ _) as [[]|] eqn:Hr; [|done].
    apply reject_iff in Hr as (Hend & j & Hj & Hu). rewrite Hj, Hend.
    pose proof (decode_next_document j [] AtEof) as Hd. rewrite app_nil_r in Hd. rewrite Hd.
    destruct (decode_receipt j) as [[v oid jid st]|] eqn:Hrec; [|done]. cbn [decode_next rcp_Version rcp_OccurrenceID rcp_JobID rcp_Status].
    destruct (_ || _) eqn:Hbad; [done|]. intros [= <-]. bool_to_prop. subst. eauto 15.
  - intros (Hmt & Hf & Hlen & Hend & Hcan & j & Hj & Hu & Hrec). rewrite Hmt, Hf. simpl.
    replace (maxReceiptBytes <? bd_length body) with false by (symmetry; apply Z.ltb_ge; lia).
    rewrite Hj, Hend. assert (RejectDuplicateKeys (lex_of j) AtEof = Ok tt) as ->.
    { apply reject_iff. split; [done|]. eauto. }
    pose proof (decode_next_document j [] AtEof) as Hd. rewrite app_nil_r in Hd. rewrite Hd, Hrec. simpl.
    by rewrite String.eqb_refl, Hcan.
Qed.
End Settlement.

(** retry delays.  The delay of attempt n starts from the doubling sequence
    1s, 2s, 4s, ... capped at five minutes, is scaled by a factor between 0.8
    and 1.2, and yields to a Retry-After header; whatever the header, the
    attempt and the random bits, the next try is never before now and never
    more than ten minutes away. *)
Theorem retry_delay_bounded ParseTime u ulp attempt header dbNow :
  random_bits u ulp ->
  let next := retry_next ParseTime u ulp attempt header dbNow in
  let base := Z.min maxBackoff (Second * 2 ^ (Z.max 1 attempt - 1)) in
  dbNow <= next <= dbNow + maxRetryAfter /\
  (parseRetryAfter ParseTime header dbNow = None ->
   8 * base <= 10 * (next - dbNow + 2) /\ 10 * (next - dbNow - 1) <= 12 * base).
Proof.
  intros Hu next base. split; [unfold next; apply retry_next_bounds; exact Hu|]. intros Hp.
  pose proof (backoff_bounds u ulp attempt Hu) as Hb.
  assert (0 <= backoff_base attempt) as Hbase.
  { rewrite backoff_base_closed. assert (1 <= 2 ^ (Z.max 1 attempt - 1)) by (apply (Z.pow_le_mono_r 2 0); lia).
    unfold maxBackoff. units. nia. }
  assert (next = dbNow + backoff u ulp attempt) as ->.
  { unfold next, retry_next. rewrite Hp. destruct (_ <? _) eqn:Hc; [|done]. bool_to_prop. exfalso.
    unfold maxRetryAfter in Hc. set (b := backoff u ulp attempt) in *. clearbody b. revert Hb Hc. units. lia. }
  pose proof (jittered_bounds u ulp (backoff_base attempt) Hu Hbase) as Hj.
  unfold backoff. rewrite (backoff_base_closed attempt) in *. fold base in Hj |- *. lia.
Qed.

(** ** A whole cycle *)

Lemma qwp_Claim `{Postgres} lease limit d :
  qwp (Claim lease limit) (fun r d' => claim_outcome lease limit r d d') d.
Proof. apply qwp_with_tx; [apply claim_body_spec|simpl; auto]. Qed.

(** Only occurrences claimable in [d] differ in [d']. *)
Definition touches_claimable (d d' : tables) : Prop :=
  forall id, t_outbox d' !! id = t_outbox d !! id \/
    (ctl_Paused (t_control d) = false /\ exists o dbNow, t_outbox d !! id = Some o /\ claimable dbNow o = true).

Lemma claim_effect_touches `{Postgres} lease limit cs d d' :
  claim_effect lease limit cs d d' ->
  touches_claimable d d' /\
  forall c, c ∈ cs -> ctl_Paused (t_control d) = false /\
    exists o dbNow, t_outbox d !! claimed_id c = Some o /\ claimable dbNow o = true.
Proof.
  intros (dbNow & rows & Hp & Hnd & _ & Hin & Hd & ->).
  assert (forall c, c ∈ cs -> exists o, t_outbox d !! claimed_id c = Some o /\ claimable dbNow o = true) as Hc.
  { intros c [i Hi]%list_elem_of_lookup. destruct (Forall2_lookup_r _ _ _ _ _ Hd Hi) as ([id o] & Hio & Hdc).
    rewrite (describes_id _ _ Hdc). exists o. apply Hin. by apply list_elem_of_lookup_2 in Hio. }
  split.
  - intros id. destruct (decide (id ∈ map claimed_id cs)) as [Hid|Hid].
    + right. apply list_elem_of_In, in_map_iff in Hid as (c & <- & Hcc). apply list_elem_of_In in Hcc.
      destruct (Hc c Hcc) as (o & H1 & H2). eauto.
    + left. simpl. by apply lease_rows_other.
  - intros c Hcc. destruct (Hc c Hcc) as (o & H1 & H2). eauto.
Qed.

(** A dispatch cycle only ever touches work that was available.  Whatever the
    targets answer and wherever the driver fails, the outbox rows a cycle
    changes were pending and due, or leased and expired, when it began, and
    while the scheduler is paused it changes none; a cycle fails only if the
    claim itself did. *)
Theorem Cycle_touches_claimable `{Postgres} ParseTime ParseMediaType targets timeout conc world w :
  (forall item, random_bits (ex_u (world item)) (ex_ulp (world item))) ->
  w_tx w = None -> calm (w_env w) ->
  touches_claimable (w_db w) (w_db (Cycle ParseTime ParseMediaType targets timeout conc world w).2).
Proof.
  intros Hu Htx Hc. set (d := w_db w).
  enough (qwp (Cycle ParseTime ParseMediaType targets timeout conc world) (fun _ d' => touches_claimable d d') d)
    as Hq by (by destruct (Hq w eq_refl Htx Hc)).
  clearbody d. clear w Htx Hc. unfold Cycle.
  set (lease := if _ <? _ then _ else _). clearbody lease. cbv zeta.
  apply qwp_bind. eapply qwp_mono; [apply qwp_Claim|].
  assert (touches_claimable d d) as Hrefl by (by left).
  intros [cs|e] d1 Ho.
  2:{ assert (d1 = d \/ exists cs, claim_effect lease conc cs d d1) as [-> | [cs Hcs]]
        by (destruct e; solve [exact Ho | left; exact Ho]); [done|]. by apply claim_effect_touches in Hcs as [? _]. }
  destruct Ho as [Hcs|(_ & -> & ->)]; [|simpl; by apply qwp_ret].
  apply claim_effect_touches in Hcs as [H1 Hcs].
  eapply qwp_mono; [apply (qwp_for_each (touches_claimable d))|by intros r d' [_ ?]]; [|done].
  intros c d2 Hin Hd2. destruct (ex_cancelled (world c)); [by apply qwp_ret|].
  eapply qwp_mono; [by apply qwp_send|]. intros r d3 [-> Hs]. split; [done|].
  destruct Hs as [Hs|(t & o & o' & _ & _ & _ & Hs)]; intros id; rewrite Hs; [apply Hd2|].
  destruct (decide (claimed_id c = id)) as [<-|Hne]; [right; by apply Hcs|].
  rewrite lookup_insert_ne by exact Hne. apply Hd2.
Qed.

(** ** Concrete instances *)

Module Sample.
Import SchedulerStore.Sample.

Definition item : Claimed := Eval vm_compute in hd (MkClaimed (MkEnvelope 0 "" "" 0 0 "" None) "" "" 0) claims.
Definition receipt : json :=
  JObj [("version", JNum "1"); ("occurrence_id", JStr the_id); ("job_id", JStr the_id); ("status", JStr "accepted")].
Definition good : http_result :=
  Response 202 "" "application/json" (HttpBody false 180 (lex_of receipt) AtEof).
Definition media (s : string) : option string := Some s.
Definition no_date (_ : string) : option Z := None.

Example accepted_receipt : disposition media targets good item = VAck the_id.
Proof. by_eval. Qed.
End Sample.

Lemma send_settles_witness :
  let '(r, w') := send Sample.no_date Sample.media false SchedulerStore.Sample.targets Sample.good 7 0 Sample.item SchedulerStore.Sample.w3 in
  r = Ok tt /\ settles (disposition Sample.media SchedulerStore.Sample.targets Sample.good Sample.item) Sample.item
    (w_db SchedulerStore.Sample.w3) (w_db w').
Proof. apply send_settles; [unfold random_bits; lia|by_eval|constructor]. Defined.

Lemma retry_delay_bounded_witness :
  let next := retry_next Sample.no_date 7 0 3 "" 0 in
  0 <= next <= maxRetryAfter /\ 8 * (4 * Second) <= 10 * (next + 2) /\ 10 * (next - 1) <= 12 * (4 * Second).
Proof.
  destruct (retry_delay_bounded Sample.no_date 7 0 3 "" 0) as [H1 H2]; [unfold random_bits; lia|].
  specialize (H2 ltac:(by_eval)). vm_compute. vm_compute in H1, H2. done.
Defined.

Import SchedulerStore.Sample.

Lemma Cycle_touches_claimable_witness :
  touches_claimable (w_db SchedulerStore.Sample.w2)
    (w_db (Cycle Sample.no_date Sample.media SchedulerStore.Sample.targets (10 * Second) 4
             (fun _ => Exchange false Sample.good 7 0) SchedulerStore.Sample.w2).2).
Proof.
  apply (Cycle_touches_claimable Sample.no_date Sample.media _ (10 * Second) 4 (fun _ => Exchange false Sample.good 7 0));
    [intros; unfold random_bits; simpl; lia|by_eval|constructor].
Defined.
