(* ===== verification/QueueTables.v ===== *)
(** * QueueTables: the job queue shared by go-worker and go-execution

    The tables [background_jobs], [background_worker_status] and
    [background_job_executions] (go-domain/migration/sql/009.sql and 011.sql),
    the two advisory locks that name the current worker and the current
    executor, and the relation [q_evolves] that every operation of either
    service is shown to keep.

    CHECK constraints are not modelled: they can only turn a write into a
    failure, which the event script already allows anywhere.  [q_retired]
    records the ids of pruned jobs; job ids are UUIDs and are not reused. *)

From S2P Require Import Prelude JsonStrict GoTime Db.

(** The CHECK constraint of [background_jobs.state]. *)
Inductive jstate := Queued | Running | Succeeded | Failed | Interrupted | DeliveryUnknown.
(** The CHECK constraint of [background_job_executions.state]. *)
Inductive xstate := XAccepted | XRunning | XSucceeded | XFailed | XInterrupted | XDeliveryUnknown.

#[export] Instance jstate_eq_dec : EqDecision jstate.
Proof. solve_decision. Defined.
#[export] Instance xstate_eq_dec : EqDecision xstate.
Proof. solve_decision. Defined.

Record job_row := JobRow {
  j_kind : string;
  j_payload : json;
  j_result : option json;
  j_position : Z;
  j_state : jstate;
  j_owner : option Z;
  j_attempt : Z;
  j_created : Z;
  j_started : option Z;
  j_finished : option Z;
  j_error : option string;
  j_schedule_key : option string;
  j_schedule_revision : option Z;
  j_initialized : option Z;
}.

Record status_row := StatusRow {
  ws_generation : Z;
  ws_owner : option string;
  ws_pid : option Z;
  ws_heartbeat : option Z;
  ws_running : bool;
}.

Record exec_row := ExecRow {
  x_digest : string;
  x_instance : string;
  x_owner : option string;
  x_generation : option Z;
  x_deadline : option Z;
  x_state : xstate;
  x_accepted : Z;
  x_started : option Z;
  x_finished : option Z;
  x_result : option json;
  x_error : option string;
  x_applied : option Z;
}.

(** The columns of [articles] that a reprocessing job resets. *)
Record article_row := ArticleRow {
  a_state : string;
  a_attempts : Z;
  a_next_attempt : option Z;
  a_last_error : option string;
  a_processed : bool;
  a_summary_processed : bool;
  a_category_processed : bool;
  a_ad_processed : bool;
}.

Notation attempt_key := (string * Z)%type.

Record qtables := QTables {
  q_jobs : gmap string job_row;
  q_status : option status_row;
  q_execs : gmap attempt_key exec_row;
  q_worker_lock : option Z;
  q_guard_lock : option Z;
  q_retired : gset string;
  q_articles : gmap Z article_row;
}.

Definition set_jobs (m : gmap string job_row) (d : qtables) : qtables :=
  QTables m (q_status d) (q_execs d) (q_worker_lock d) (q_guard_lock d) (q_retired d) (q_articles d).
Definition set_status (s : option status_row) (d : qtables) : qtables :=
  QTables (q_jobs d) s (q_execs d) (q_worker_lock d) (q_guard_lock d) (q_retired d) (q_articles d).
Definition set_execs (m : gmap attempt_key exec_row) (d : qtables) : qtables :=
  QTables (q_jobs d) (q_status d) m (q_worker_lock d) (q_guard_lock d) (q_retired d) (q_articles d).
Definition set_worker_lock (l : option Z) (d : qtables) : qtables :=
  QTables (q_jobs d) (q_status d) (q_execs d) l (q_guard_lock d) (q_retired d) (q_articles d).
Definition set_guard_lock (l : option Z) (d : qtables) : qtables :=
  QTables (q_jobs d) (q_status d) (q_execs d) (q_worker_lock d) l (q_retired d) (q_articles d).
Definition set_articles (m : gmap Z article_row) (d : qtables) : qtables :=
  QTables (q_jobs d) (q_status d) (q_execs d) (q_worker_lock d) (q_guard_lock d) (q_retired d) m.

(** [DELETE FROM background_jobs WHERE id IN ids], cascading to executions *)
Definition delete_jobs (ids : list string) (d : qtables) : qtables :=
  QTables (filter (fun kv => kv.1 ∉ ids) (q_jobs d)) (q_status d)
    (filter (fun kv => kv.1.1 ∉ ids) (q_execs d)) (q_worker_lock d) (q_guard_lock d)
    (list_to_set ids ∪ q_retired d) (q_articles d).

Definition jterminal (s : jstate) : bool :=
  match s with Succeeded | Failed | DeliveryUnknown => true | _ => false end.
Definition xterminal (s : xstate) : bool :=
  match s with XAccepted | XRunning => false | _ => true end.

(** The job columns of a state change. *)
Definition set_job (state : jstate) (owner : option Z) (attempt : Z) (started finished : option Z)
    (error : option string) (result : option json) (j : job_row) : job_row :=
  JobRow (j_kind j) (j_payload j) result (j_position j) state owner attempt (j_created j) started finished
    error (j_schedule_key j) (j_schedule_revision j) (j_initialized j).

Definition set_exec (state : xstate) (started finished : option Z) (result : option json)
    (error : option string) (x : exec_row) : exec_row :=
  ExecRow (x_digest x) (x_instance x) (x_owner x) (x_generation x) (x_deadline x) state (x_accepted x)
    started finished result error (x_applied x).

(** ** The invariant and the evolution of the queue *)

Definition one_running (m : gmap string job_row) : Prop :=
  forall a b ja jb, m !! a = Some ja -> m !! b = Some jb ->
    j_state ja = Running -> j_state jb = Running -> a = b.

Record q_wf (d : qtables) : Prop := {
  wf_running : one_running (q_jobs d);
  wf_owned : forall id j, q_jobs d !! id = Some j -> 0 <= j_attempt j /\
    (j_state j = Running -> is_Some (j_owner j) /\ 1 <= j_attempt j);
  wf_execs : forall id a x, q_execs d !! (id, a) = Some x ->
    exists j, q_jobs d !! id = Some j /\ a <= j_attempt j;
  wf_retired : forall id, id ∈ q_retired d -> q_jobs d !! id = None;
}.

Definition job_evolves (j j' : job_row) : Prop :=
  (j_kind j', j_payload j', j_position j', j_created j', j_schedule_key j', j_schedule_revision j') =
  (j_kind j, j_payload j, j_position j, j_created j, j_schedule_key j, j_schedule_revision j) /\
  j_attempt j <= j_attempt j' /\
  (jterminal (j_state j) = true ->
     j_state j' = j_state j /\ j_attempt j' = j_attempt j /\ j_result j' = j_result j /\
     j_error j' = j_error j /\ j_finished j' = j_finished j).

Definition xrank (s : xstate) : Z := match s with XAccepted => 0 | XRunning => 1 | _ => 2 end.

Definition exec_evolves (x x' : exec_row) : Prop :=
  (x_digest x', x_instance x', x_owner x', x_generation x', x_deadline x', x_accepted x') =
  (x_digest x, x_instance x, x_owner x, x_generation x, x_deadline x, x_accepted x) /\
  xrank (x_state x) <= xrank (x_state x') /\
  (xterminal (x_state x) = true ->
     x_state x' = x_state x /\ x_result x' = x_result x /\ x_error x' = x_error x /\ x_finished x' = x_finished x).

Record q_evolves (d d' : qtables) : Prop := {
  ev_wf : q_wf d -> q_wf d';
  ev_retired : q_retired d ⊆ q_retired d';
  ev_generation : forall s, q_status d = Some s ->
    exists s', q_status d' = Some s' /\ ws_generation s <= ws_generation s';
  ev_jobs : forall id j, q_jobs d !! id = Some j ->
    (exists j', q_jobs d' !! id = Some j' /\ job_evolves j j') \/
    (id ∈ q_retired d' /\ j_state j <> DeliveryUnknown);
  ev_execs : forall id a x, q_execs d !! (id, a) = Some x ->
    (exists x', q_execs d' !! (id, a) = Some x' /\ exec_evolves x x') \/ id ∈ q_retired d';
}.

Lemma job_evolves_refl j : job_evolves j j.
Proof. split_and!; [done|lia|done]. Qed.
Lemma job_evolves_trans a b c : job_evolves a b -> job_evolves b c -> job_evolves a c.
Proof.
  intros (H1 & H2 & H3) (H4 & H5 & H6). split_and!; [congruence|lia|].
  intros Ha. destruct (H3 Ha) as (E1 & E2 & E3 & E4 & E5).
  destruct H6 as (F1 & F2 & F3 & F4 & F5); [congruence|]. split_and!; congruence.
Qed.
Lemma exec_evolves_refl x : exec_evolves x x.
Proof. split_and!; [done|lia|done]. Qed.
Lemma exec_evolves_trans a b c : exec_evolves a b -> exec_evolves b c -> exec_evolves a c.
Proof.
  intros (H1 & H2 & H3) (H4 & H5 & H6). split_and!; [congruence|lia|].
  intros Ha. destruct (H3 Ha) as (E1 & E2 & E3 & E4).
  destruct H6 as (F1 & F2 & F3 & F4); [congruence|]. split_and!; congruence.
Qed.
#[export] Hint Resolve job_evolves_refl exec_evolves_refl Z.le_refl : news.

#[export] Instance q_evolves_preorder : PreOrder q_evolves.
Proof.
  split.
  - intros d. split; eauto with news.
  - intros a b c [A1 A2 A3 A4 A5] [B1 B2 B3 B4 B5]. split.
    + auto.
    + set_solver.
    + intros s Hs. destruct (A3 s Hs) as (s' & Hs' & L1). destruct (B3 s' Hs') as (s'' & Hs'' & L2).
      exists s''. split; [done|lia].
    + intros id j Hj. destruct (A4 id j Hj) as [(j' & Hj' & E1)|[Hr Hd]]; [|right; set_solver].
      destruct (B4 id j' Hj') as [(j'' & Hj'' & E2)|[Hr Hd]]; [left; eauto using job_evolves_trans|].
      right. split; [done|]. intros Hu. apply Hd. destruct E1 as (_ & _ & E1).
      destruct E1 as (E & _); [by rewrite Hu|]. congruence.
    + intros id k x Hx. destruct (A5 id k x Hx) as [(x' & Hx' & E1)|Hr]; [|right; set_solver].
      destruct (B5 id k x' Hx') as [(x'' & Hx'' & E2)|Hr]; [left; eauto using exec_evolves_trans|right; done].
Qed.
Lemma q_evolves_refl d : q_evolves d d.
Proof. reflexivity. Qed.
#[export] Hint Resolve q_evolves_refl : news.

(** ** How each kind of write evolves the queue *)

(** The status row and the locks. *)
Lemma q_evolves_status s d :
  (forall s0, q_status d = Some s0 -> exists s', s = Some s' /\ ws_generation s0 <= ws_generation s') ->
  q_evolves d (set_status s d).
Proof. intros Hs. split; simpl; eauto with news. intros []. by split. Qed.
Lemma q_evolves_lock l d : q_evolves d (set_worker_lock l d).
Proof. split; simpl; eauto with news. intros []. by split. Qed.

Lemma q_evolves_guard l d : q_evolves d (set_guard_lock l d).
Proof. split; simpl; eauto with news. intros []. by split. Qed.
Lemma q_evolves_articles m d : q_evolves d (set_articles m d).
Proof. split; simpl; eauto with news. intros []. by split. Qed.

Definition job_owned (j : job_row) : Prop := 0 <= j_attempt j /\ (j_state j = Running -> is_Some (j_owner j) /\ 1 <= j_attempt j).

(** A job moves to a state from one that is not terminal. *)
Lemma q_evolves_owned_job d id j j' :
  q_jobs d !! id = Some j -> job_evolves j j' ->
  (job_owned j -> job_owned j') ->
  (j_state j' = Running -> j_state j = Running \/ forall k x, q_jobs d !! k = Some x -> j_state x <> Running) ->
  q_evolves d (set_jobs (<[id := j']> (q_jobs d)) d).
Proof.
  intros Hj He Ho Hr. split; simpl; [|done|eauto with news|..].
  - intros [W1 W2 W3 W4]. split; simpl.
    + intros a b ja jb [[<- <-]|[Ha Hja]]%lookup_insert_Some [[<- <-]|[Hb Hjb]]%lookup_insert_Some Hra Hrb.
      * done.
      * destruct (Hr Hra) as [H|H]; [by eapply W1|]. by eapply H in Hjb.
      * destruct (Hr Hrb) as [H|H]; [by eapply W1|]. by eapply H in Hja.
      * by eapply W1.
    + intros k x [[<- <-]|[Hk Hx]]%lookup_insert_Some; [|eauto]. apply Ho, (W2 id j Hj).
    + intros k a x Hx. destruct (W3 k a x Hx) as (jj & Hjj & Hle).
      destruct (decide (id = k)) as [<-|Hne].
      * exists j'. rewrite lookup_insert_eq. split; [done|]. destruct He as (_ & He & _).
        assert (jj = j) as -> by congruence. lia.
      * exists jj. by rewrite lookup_insert_ne.
    + intros k Hk. rewrite lookup_insert_ne; [by apply W4|]. intros ->. apply W4 in Hk. congruence.
  - intros k x Hx. left. destruct (decide (id = k)) as [<-|Hne].
    + exists j'. rewrite lookup_insert_eq. split; [done|]. congruence.
    + exists x. rewrite lookup_insert_ne by done. auto with news.
  - eauto with news.
Qed.
Lemma q_evolves_job d id j j' :
  q_jobs d !! id = Some j -> job_evolves j j' ->
  (0 <= j_attempt j -> 0 <= j_attempt j' /\ (j_state j' = Running -> is_Some (j_owner j') /\ 1 <= j_attempt j')) ->
  (j_state j' = Running -> j_state j = Running \/ forall k x, q_jobs d !! k = Some x -> j_state x <> Running) ->
  q_evolves d (set_jobs (<[id := j']> (q_jobs d)) d).
Proof.
  intros Hj He Ho Hr. apply (q_evolves_owned_job d id j); [done|done| |done]. intros [Ha _]. by apply Ho.
Qed.

(** A job is queued under a fresh id. *)
Lemma q_evolves_new_job d id j :
  q_jobs d !! id = None -> id ∉ q_retired d -> j_state j = Queued -> 0 <= j_attempt j ->
  q_evolves d (set_jobs (<[id := j]> (q_jobs d)) d).
Proof.
  intros Hid Hr Hq Ha. split; simpl; [|done|eauto with news| |eauto with news].
  - intros [W1 W2 W3 W4]. split; simpl.
    + intros a b ja jb [[<- <-]|[_ Hja]]%lookup_insert_Some [[<- <-]|[_ Hjb]]%lookup_insert_Some Hra Hrb;
        [done|congruence|congruence|by eapply W1].
    + intros k x [[<- <-]|[_ Hx]]%lookup_insert_Some; [split; [done|congruence]|eauto].
    + intros k a x Hx. destruct (W3 k a x Hx) as (jj & Hjj & Hle). exists jj.
      rewrite lookup_insert_ne; [done|congruence].
    + intros k Hk. rewrite lookup_insert_ne by congruence. by apply W4.
  - intros k x Hx. left. exists x. rewrite lookup_insert_ne by congruence. auto with news.
Qed.

(** A receipt is added for an attempt of an existing job. *)
Lemma q_evolves_new_exec d id a x j :
  q_jobs d !! id = Some j -> a <= j_attempt j -> q_execs d !! (id, a) = None ->
  q_evolves d (set_execs (<[(id, a) := x]> (q_execs d)) d).
Proof.
  intros Hj Ha Hx. split; simpl; [|done|eauto with news|eauto with news|].
  - intros [W1 W2 W3 W4]. split; simpl; [done|done| |done].
    intros k b y [[[= <- <-] <-]|[Hne Hy]]%lookup_insert_Some; eauto.
  - intros k b y Hy. left. exists y. rewrite lookup_insert_ne; [auto with news|]. congruence.
Qed.

(** A receipt moves forward. *)
Lemma q_evolves_exec d id a x x' :
  q_execs d !! (id, a) = Some x -> exec_evolves x x' ->
  q_evolves d (set_execs (<[(id, a) := x']> (q_execs d)) d).
Proof.
  intros Hx He. split; simpl; [|done|eauto with news|eauto with news|].
  - intros [W1 W2 W3 W4]. split; simpl; [done|done| |done].
    intros k b y [[[= <- <-] <-]|[Hne Hy]]%lookup_insert_Some; eauto.
  - intros k b y Hy. left. destruct (decide ((id, a) = (k, b))) as [[= <- <-]|Hne].
    + exists x'. rewrite lookup_insert_eq. split; [done|]. congruence.
    + exists y. rewrite lookup_insert_ne by done. auto with news.
Qed.

(** Jobs are pruned together with their receipts. *)
Lemma q_evolves_delete d ids :
  (forall id j, id ∈ ids -> q_jobs d !! id = Some j -> j_state j <> DeliveryUnknown) ->
  q_evolves d (delete_jobs ids d).
Proof.
  intros Hids. split; simpl.
  - intros [W1 W2 W3 W4]. split; simpl.
    + intros a b ja jb [Ha _]%map_lookup_filter_Some [Hb _]%map_lookup_filter_Some. by eapply W1.
    + intros id j [Hj _]%map_lookup_filter_Some. eauto.
    + intros id a x [Hx Hn]%map_lookup_filter_Some. simpl in Hn. destruct (W3 id a x Hx) as (j & Hj & Hle).
      exists j. split; [|done]. by apply map_lookup_filter_Some.
    + intros id [Hid|Hid]%elem_of_union.
      * apply map_lookup_filter_None. right. intros j Hj. simpl. apply elem_of_list_to_set in Hid. tauto.
      * apply map_lookup_filter_None. left. by apply W4.
  - set_solver.
  - eauto with news.
  - intros id j Hj. destruct (decide (id ∈ ids)) as [Hin|Hin].
    + right. split; [|by eapply Hids]. apply elem_of_union. left. by apply elem_of_list_to_set.
    + left. exists j. split; [by apply map_lookup_filter_Some|]. apply job_evolves_refl.
  - intros id a x Hx. destruct (decide (id ∈ ids)) as [Hin|Hin].
    + right. apply elem_of_union. left. by apply elem_of_list_to_set.
    + left. exists x. split; [by apply map_lookup_filter_Some|]. apply exec_evolves_refl.
Qed.
