(* ===== verification/GoParseTime.v ===== *)
(** * GoParseTime: [time.Parse] with [time.RFC3339Nano]

    The worker client, the execution API and the receipts exchange instants as
    RFC 3339 text.  [parse_rfc3339nano] is the general parser of the standard
    library for that layout (its fast path accepts a subset with the same
    results): the hour may have one digit, the fraction may follow a comma and
    have any number of digits, zone offsets run to 24:60.  The round trips with
    the formats the program writes are at the end of the file. *)

From S2P Require Import Prelude GoTime GoText GoDecode.

Definition is_digit (c : Z) : bool := (48 <=? c) && (c <=? 57).

(** [getnum(s, fixed)] *)
Definition getnum (fixed : bool) (l : list Z) : option (Z * list Z) :=
  match l with
  | [] => None
  | a :: l1 =>
      if negb (is_digit a) then None
      else match l1 with
           | b :: l2 => if is_digit b then Some (10 * (a - 48) + (b - 48), l2)
                        else if fixed then None else Some (a - 48, l1)
           | [] => if fixed then None else Some (a - 48, [])
           end
  end.

Definition literal (c : Z) (l : list Z) : option (list Z) :=
  match l with x :: l' => if x =? c then Some l' else None | [] => None end.

Definition year4 (l : list Z) : option (Z * list Z) :=
  match l with
  | a :: b :: c :: d :: r =>
      if forallb is_digit [a; b; c; d]
      then Some (1000 * (a - 48) + 100 * (b - 48) + 10 * (c - 48) + (d - 48), r) else None
  | _ => None
  end.

Fixpoint span_digits (l : list Z) : list Z * list Z :=
  match l with
  | c :: l' => if is_digit c then let '(ds, r) := span_digits l' in (c :: ds, r) else ([], l)
  | [] => ([], [])
  end.

(** [parseNanoseconds]: nine digits count *)
Definition nanoseconds (ds : list Z) : Z :=
  let ds := take 9 ds in
  foldl (fun acc d => 10 * acc + (d - 48)) 0 ds * 10 ^ (9 - Z.of_nat (length ds)).

Definition parse_fraction (l : list Z) : Z * list Z :=
  match l with
  | c :: ((d :: _) as r) =>
      if ((c =? 46) || (c =? 44)) && is_digit d
      then let '(ds, r') := span_digits r in (nanoseconds ds, r') else (0, l)
  | _ => (0, l)
  end.

(** The offset in seconds and what follows. *)
Definition parse_offset (l : list Z) : option (Z * list Z) :=
  match l with
  | 90 :: r => Some (0, r)
  | sign :: h1 :: h2 :: colon :: m1 :: m2 :: r =>
      if negb (colon =? 58) then None
      else match getnum true [h1; h2], getnum true [m1; m2] with
           | Some (hr, _), Some (mm, _) =>
               if (24 <? hr) || (60 <? mm) then None
               else if sign =? 43 then Some ((hr * 60 + mm) * 60, r)
               else if sign =? 45 then Some (- ((hr * 60 + mm) * 60), r)
               else None
           | _, _ => None
           end
  | _ => None
  end.

Definition is_leap (y : Z) : bool := (y mod 4 =? 0) && (negb (y mod 100 =? 0) || (y mod 400 =? 0)).
Definition daysIn (month year : Z) : Z :=
  if month =? 2 then if is_leap year then 29 else 28
  else if (month =? 4) || (month =? 6) || (month =? 9) || (month =? 11) then 30 else 31.

(** [time.Parse] with a layout made of the fields of RFC 3339, a fraction of any
    length and, when [zoned], an offset: the fields read as an instant of UTC,
    and the offset in seconds. *)
Definition parse_fields (zoned : bool) (value : string) : option (Z * Z) :=
  '(year, l) ← year4 (bytes_of value);
  l ← literal 45 l;
  '(month, l) ← getnum true l;
  if (month <=? 0) || (12 <? month) then None else
  l ← literal 45 l;
  '(day, l) ← getnum true l;
  l ← literal 84 l;
  '(hour, l) ← getnum false l;
  if 24 <=? hour then None else
  l ← literal 58 l;
  '(minute, l) ← getnum true l;
  if 60 <=? minute then None else
  l ← literal 58 l;
  '(sec, l) ← getnum true l;
  if 60 <=? sec then None else
  let '(nsec, l) := parse_fraction l in
  '(offset, l) ← (if zoned then parse_offset l else Some (0, l));
  if negb (bool_decide (l = [])) then None
  else if (day <? 1) || (daysIn month year <? day) then None
  else Some ((days_from_civil (Civil year month day) * 86400 + hour * 3600 + minute * 60 + sec) * Second + nsec, offset).

Definition parse_rfc3339nano (value : string) : option Z :=
  '(local, offset) ← parse_fields true value; Some (local - offset * Second).

(** [t.IsZero()] *)
Definition zero_time : Z := days_from_civil (Civil 1 1 1) * Day.

(** ** Formats *)

Definition stamp (t : Z) (frac : list Z) : list Z :=
  let c := local_date (FixedZone 0) t in
  four (c_year c) ++ [dash] ++ two (c_month c) ++ [dash] ++ two (c_day c) ++ [84] ++
  two (local_hour (FixedZone 0) t) ++ [58] ++ two (local_minute (FixedZone 0) t) ++ [58] ++
  two (local_second (FixedZone 0) t) ++ frac.

(** The six digits of [to_char(..., 'US')] and of the layout [.000000]. *)
Definition micros (ns : Z) : list Z := 46 :: map (fun k => digit (ns / 10 ^ k)) [8; 7; 6; 5; 4; 3].

(** [canonicalDeadline], and the text receiptSQL makes of [deadline_at] *)
Definition micro_stamp (t : Z) : string := string_of (stamp t (micros (local_nano (FixedZone 0) t)) ++ [90]).
(** The text receiptSQL makes of the other timestamps *)
Definition plain_stamp (t : Z) : string := string_of (stamp t (micros (local_nano (FixedZone 0) t))).

Lemma rfc3339nano_stamp t :
  rfc3339nano t = string_of (stamp t (fraction (local_nano (FixedZone 0) t)) ++ [90]).
Proof. unfold rfc3339nano, stamp. by rewrite <- !app_assoc. Qed.

(** ** The calendar stays within its months *)

Lemma civil_from_days_valid n :
  1 <= c_month (civil_from_days n) <= 12 /\
  1 <= c_day (civil_from_days n) <= daysIn (c_month (civil_from_days n)) (c_year (civil_from_days n)).
Proof.
  unfold civil_from_days. set (z := n + epoch_shift).
  set (n400 := z / 146097). set (d400 := z mod 146097).
  set (n100 := Z.min 3 (d400 / 36524)). set (d100 := d400 - 36524 * n100).
  set (n4 := d100 / 1461). set (d4 := d100 mod 1461).
  set (n1 := Z.min 3 (d4 / 365)). set (doy := d4 - 365 * n1).
  assert (0 <= d400 < 146097) as Hd400 by (unfold d400; dlia).
  assert (0 <= n100 <= 3 /\ 0 <= d100 < 36525 /\ (d100 = 36524 -> n100 = 3)) as (Hn100 & Hd100 & H100)
    by (unfold d100, n100; dlia).
  assert (d100 = 1461 * n4 + d4 /\ 0 <= d4 < 1461 /\ 0 <= n4 <= 24) as (Hd & Hd4 & Hn4)
    by (unfold n4, d4; dlia).
  assert (0 <= n1 <= 3 /\ 0 <= doy <= 365 /\ (doy = 365 -> n1 = 3 /\ d4 = 1460)) as (Hn1 & Hdoy & H365)
    by (unfold doy, n1; dlia).
  set (y := 400 * n400 + 100 * n100 + 4 * n4 + n1).
  set (mp := (5 * doy + 2) / 153).
  assert (doy = 365 -> is_leap (y + 1) = true) as Hleap.
  { intros H. destruct (H365 H) as [E1 E2]. unfold is_leap.
    assert ((y + 1) mod 4 = 0) as -> by (symmetry; apply (Z.mod_unique _ _ (100 * n400 + 25 * n100 + n4 + 1)); unfold y; lia). cbn [Z.eqb andb].
    destruct (decide (n4 = 24)) as [E4|E4].
    - assert (n100 = 3) as E3 by (apply H100; lia).
      assert ((y + 1) mod 400 = 0) as -> by (symmetry; apply (Z.mod_unique _ _ (n400 + 1)); unfold y; lia). apply orb_true_r.
    - assert ((y + 1) mod 100 = 4 * n4 + 4) as ->
        by (symmetry; apply (Z.mod_unique _ _ (4 * n400 + n100)); unfold y; lia).
      by rewrite (proj2 (Z.eqb_neq (4 * n4 + 4) 0)) by lia. }
  clearbody y. clear - Hdoy Hleap.
  assert (153 * mp <= 5 * doy + 2 < 153 * mp + 153 /\ 0 <= mp <= 11) as [Hmp Hmr] by (unfold mp; dlia).
  clearbody mp. unfold daysIn.
  assert (mp = 0 \/ mp = 1 \/ mp = 2 \/ mp = 3 \/ mp = 4 \/ mp = 5 \/ mp = 6 \/ mp = 7 \/ mp = 8 \/ mp = 9 \/ mp = 10 \/ mp = 11)
    as Hc by lia.
  destruct (decide (doy = 365)) as [->|Hne].
  - assert (mp = 11) as -> by lia. simpl. rewrite Hleap by done. dlia.
  - destruct Hc as [->|[->|[->|[->|[->|[->|[->|[->|[->|[->|[->| ->]]]]]]]]]]]; simpl; try dlia.
    destruct (is_leap _); dlia.
Qed.

(** ** Round trips *)

Lemma digit_ok n : is_digit (digit n) = true.
Proof. unfold is_digit, digit. pose proof (Z.mod_pos_bound n 10 ltac:(lia)). apply andb_true_intro; split; apply Z.leb_le; lia. Qed.
Lemma digit_byte n : 0 <= digit n < 256.
Proof. unfold digit. pose proof (Z.mod_pos_bound n 10 ltac:(lia)). lia. Qed.

Lemma getnum_two fixed n r : 0 <= n < 100 -> getnum fixed (two n ++ r) = Some (n, r).
Proof.
  intros Hn. unfold two. cbn [app getnum]. rewrite !digit_ok. cbn [negb].
  f_equal. f_equal. unfold digit. dlia.
Qed.
Lemma year4_four n r : 0 <= n < 10000 -> year4 (four n ++ r) = Some (n, r).
Proof.
  intros Hn. unfold four. cbn [app year4 forallb]. rewrite !digit_ok. cbn [andb].
  f_equal. f_equal. unfold digit. dlia.
Qed.
Lemma literal_cons c r : literal c (c :: r) = Some r.
Proof. unfold literal. by rewrite Z.eqb_refl. Qed.

Lemma span_all ds r : Forall (fun d => is_digit d = true) ds ->
  match r with c :: _ => is_digit c = false | [] => True end -> span_digits (ds ++ r) = (ds, r).
Proof.
  intros Hd Hr. induction Hd as [|d ds Hd Hds IH]; simpl.
  - destruct r as [|c r]; [done|]. simpl. by rewrite Hr.
  - by rewrite Hd, IH.
Qed.

(** Every fraction the program writes: nothing, or a point and some digits. *)
Definition fraction_text (l : list Z) (ns : Z) : Prop :=
  (l = [] /\ ns = 0) \/
  exists d ds, l = 46 :: d :: ds /\ Forall (fun d => is_digit d = true) (d :: ds) /\ nanoseconds (d :: ds) = ns.

(** What may follow the fraction. *)
Definition fraction_ends (r : list Z) : Prop :=
  match r with c :: _ => is_digit c = false /\ c <> 46 /\ c <> 44 | [] => True end.

Lemma parse_fraction_text l ns r : fraction_text l ns -> fraction_ends r -> parse_fraction (l ++ r) = (ns, r).
Proof.
  intros [[-> ->]|(d & ds & -> & Hd & Hn)] Hr.
  - destruct r as [|c [|d r]]; [done|done|]. destruct Hr as (_ & H1 & H2). unfold parse_fraction. cbn [app].
    by rewrite (proj2 (Z.eqb_neq c 46)), (proj2 (Z.eqb_neq c 44)).
  - unfold parse_fraction. cbn [app]. pose proof (Forall_inv Hd) as H1. cbv beta in H1. rewrite H1. cbn [Z.eqb Pos.eqb orb andb].
    change (d :: ds ++ r) with ((d :: ds) ++ r). rewrite span_all; [by rewrite Hn|done|].
    destruct r as [|c r]; [done|]. by destruct Hr.
Qed.

Lemma stamp_bytes t frac : Forall (fun n => 0 <= n < 256) frac -> Forall (fun n => 0 <= n < 256) (stamp t frac).
Proof.
  intros Hf. unfold stamp, four, two, dash. cbn [app].
  repeat (apply Forall_cons_2; [first [apply digit_byte | lia]|]). done.
Qed.

Lemma parse_fields_stamp zoned t frac r :
  0 <= c_year (local_date (FixedZone 0) t) < 10000 -> fraction_text frac (local_nano (FixedZone 0) t) ->
  fraction_ends r -> Forall (fun n => 0 <= n < 256) frac -> Forall (fun n => 0 <= n < 256) r ->
  parse_fields zoned (string_of (stamp t frac ++ r)) =
  match (if zoned then parse_offset r else Some (0, r)) with Some (offset, []) => Some (t, offset) | _ => None end.
Proof.
  intros Hy Hf Hr Hb Hbr. unfold parse_fields. rewrite bytes_string.
  2:{ apply Forall_app. split; [by apply stamp_bytes|done]. }
  destruct (civil_from_days_valid (local_day (FixedZone 0) t)) as [Hm Hd].
  change (civil_from_days (local_day (FixedZone 0) t)) with (local_date (FixedZone 0) t) in Hm, Hd.
  set (c := local_date (FixedZone 0) t) in *.
  assert (c_day c <= 31) as Hd31 by (unfold daysIn in Hd; repeat case_match; lia).
  pose proof (local_hour_bound (FixedZone 0) t) as Hh. pose proof (local_minute_bound (FixedZone 0) t) as Hmin.
  assert (0 <= local_second (FixedZone 0) t <= 59) as Hs by (unfold local_second; generalize (wall_ns (FixedZone 0) t); intros; units; dlia).
  unfold stamp. fold c. rewrite <- !app_assoc. rewrite year4_four by lia. cbn [mbind option_bind].
  cbn [app]. unfold dash. rewrite literal_cons. cbn [mbind option_bind]. rewrite getnum_two by lia. cbn [mbind option_bind].
  rewrite (proj2 (Z.leb_gt _ _)), (proj2 (Z.ltb_ge _ _)) by lia. cbn [orb].
  rewrite literal_cons. cbn [mbind option_bind]. rewrite getnum_two by lia. cbn [mbind option_bind].
  rewrite literal_cons. cbn [mbind option_bind]. rewrite getnum_two by lia. cbn [mbind option_bind].
  rewrite (proj2 (Z.leb_gt _ _)) by lia. rewrite literal_cons. cbn [mbind option_bind]. rewrite getnum_two by lia. cbn [mbind option_bind].
  rewrite (proj2 (Z.leb_gt _ _)) by lia. rewrite literal_cons. cbn [mbind option_bind]. rewrite getnum_two by lia. cbn [mbind option_bind].
  rewrite (proj2 (Z.leb_gt _ _)) by lia. rewrite parse_fraction_text with (ns := local_nano (FixedZone 0) t) by done.
  destruct (if zoned then parse_offset r else Some (0, r)) as [[off [|x l]]|]; [|done|done].
  cbn [mbind option_bind]. rewrite bool_decide_eq_true_2 by done. cbn [negb].
  rewrite !(proj2 (Z.ltb_ge _ _)) by lia. cbn [orb].
  pose proof (wall_fields (FixedZone 0) t) as Hw. rewrite wall_ns_fixed in Hw.
  replace (Civil (c_year c) (c_month c) (c_day c)) with c by (by destruct c).
  unfold c, local_date. rewrite days_civil_days. do 2 f_equal. units. lia.
Qed.

Lemma parse_stamp t frac :
  0 <= c_year (local_date (FixedZone 0) t) < 10000 -> fraction_text frac (local_nano (FixedZone 0) t) ->
  Forall (fun n => 0 <= n < 256) frac ->
  parse_rfc3339nano (string_of (stamp t frac ++ [90])) = Some t.
Proof.
  intros Hy Hf Hb. unfold parse_rfc3339nano. rewrite parse_fields_stamp; [|done..|by repeat constructor].
  cbn. f_equal. lia.
Qed.

Lemma strip_zeros_spec l : exists k, l = repeat 48 k ++ strip_zeros l.
Proof.
  induction l as [|c l [k IH]]; [by exists O|]. destruct (decide (c = 48)) as [->|Hne].
  - exists (S k). simpl. by f_equal.
  - exists O. simpl. repeat case_match; congruence.
Qed.

Definition digits_value (ds : list Z) : Z := foldl (fun acc d => 10 * acc + (d - 48)) 0 ds.

Lemma digits_value_zeros ds k : digits_value (ds ++ repeat 48 k) = digits_value ds * 10 ^ Z.of_nat k.
Proof.
  unfold digits_value. rewrite foldl_app. generalize (foldl (fun acc d => 10 * acc + (d - 48)) 0 ds).
  induction k as [|k IH]; intros v; [simpl; lia|]. cbn [repeat foldl]. rewrite IH.
  rewrite Nat2Z.inj_succ, Z.pow_succ_r by lia. lia.
Qed.

Lemma nanoseconds_short ds : (length ds <= 9)%nat -> nanoseconds ds = digits_value ds * 10 ^ (9 - Z.of_nat (length ds)).
Proof. intros H. unfold nanoseconds, digits_value. by rewrite take_ge. Qed.

Lemma nanoseconds_stripped ds :
  length ds = 9%nat -> nanoseconds (rev (strip_zeros (rev ds))) = digits_value ds.
Proof.
  intros Hl. destruct (strip_zeros_spec (rev ds)) as [k Hk]. set (s := strip_zeros (rev ds)) in *.
  assert (ds = rev s ++ repeat 48 k) as E.
  { rewrite <- (rev_involutive ds), Hk, rev_app_distr. f_equal. apply rev_repeat. }
  assert (length (rev s) + k = 9)%nat as Hlen by (rewrite <- Hl, E, length_app, repeat_length; lia).
  rewrite nanoseconds_short by lia. rewrite E, digits_value_zeros. f_equal. f_equal. lia.
Qed.

(** The value of the digits [hi ... lo] of [n]. *)
Lemma digits_value_9 n : 0 <= n < 10 ^ 9 ->
  digits_value (map (fun k => digit (n / 10 ^ k)) [8; 7; 6; 5; 4; 3; 2; 1; 0]) = n.
Proof.
  intros Hn. cbn [map]. unfold digits_value. cbn [foldl]. unfold digit.
  change (10 ^ 8) with 100000000. change (10 ^ 7) with 10000000. change (10 ^ 6) with 1000000.
  change (10 ^ 5) with 100000. change (10 ^ 4) with 10000. change (10 ^ 3) with 1000.
  change (10 ^ 2) with 100. change (10 ^ 1) with 10. change (10 ^ 0) with 1. change (10 ^ 9) with 1000000000 in Hn.
  rewrite (Z.div_1_r n). dlia.
Qed.

Lemma fraction_is_text n : 0 <= n < 10 ^ 9 -> fraction_text (fraction n) n.
Proof.
  intros Hn. unfold fraction. pose proof (digits_value_9 n Hn) as Hv.
  set (ds := map _ _) in *. assert (length ds = 9%nat) as Hl by done.
  pose proof (nanoseconds_stripped ds Hl) as Hs. rewrite Hv in Hs.
  assert (Forall (fun d => is_digit d = true) ds) as Hd.
  { unfold ds. apply Forall_forall. intros d (k & -> & _)%list_elem_of_fmap. apply digit_ok. }
  destruct (rev (strip_zeros (rev ds))) as [|d ds'] eqn:E.
  - left. split; [done|]. by rewrite <- Hs.
  - right. exists d, ds'. split_and!; [done| |done]. rewrite <- E. apply Forall_rev.
    destruct (strip_zeros_spec (rev ds)) as [k Hk]. apply Forall_rev in Hd. rewrite Hk in Hd.
    by apply Forall_app in Hd as [_ Hd].
Qed.

Lemma micros_is_text n : 0 <= n < 10 ^ 9 -> n mod 1000 = 0 -> fraction_text (micros n) n.
Proof.
  intros Hn Hm. right. unfold micros. do 2 eexists. split; [reflexivity|]. split.
  - repeat (apply Forall_cons_2; [apply digit_ok|]). constructor.
  - rewrite nanoseconds_short by (simpl; lia). unfold digits_value, digit. cbn [foldl map length].
    change (10 ^ 8) with 100000000. change (10 ^ 7) with 10000000. change (10 ^ 6) with 1000000.
    change (10 ^ 5) with 100000. change (10 ^ 4) with 10000. change (10 ^ 3) with 1000.
    change (10 ^ 9) with 1000000000 in Hn. change (9 - Z.of_nat 6) with 3. change (10 ^ 3) with 1000. dlia.
Qed.

(** [deadline.UTC().Truncate(time.Microsecond).Format("2006-01-02T15:04:05.000000Z")] *)
Definition canonicalDeadline (deadline : Z) : string := micro_stamp (truncate Microsecond deadline).

Lemma local_nano_bound t : 0 <= local_nano (FixedZone 0) t < 10 ^ 9.
Proof. unfold local_nano. rewrite Second_val. apply Z.mod_pos_bound. lia. Qed.
Lemma local_nano_micro t : t mod 1000 = 0 -> local_nano (FixedZone 0) t mod 1000 = 0.
Proof. unfold local_nano. rewrite wall_ns_fixed. units. intros. rewrite Z.add_0_r. dlia. Qed.

Lemma fraction_bytes n : Forall (fun b => 0 <= b < 256) (fraction n).
Proof.
  unfold fraction. set (ds := map _ _). assert (Forall (fun b => 0 <= b < 256) ds) as Hd.
  { unfold ds. apply Forall_forall. intros d (k & -> & _)%list_elem_of_fmap. apply digit_byte. }
  destruct (strip_zeros_spec (rev ds)) as [k Hk]. apply Forall_rev in Hd. rewrite Hk in Hd.
  apply Forall_app in Hd as [_ Hd]. apply Forall_rev in Hd.
  destruct (rev (strip_zeros (rev ds))); [constructor|]. by apply Forall_cons_2.
Qed.

Lemma parse_rfc3339nano_text t :
  0 <= c_year (local_date (FixedZone 0) t) < 10000 -> parse_rfc3339nano (rfc3339nano t) = Some t.
Proof.
  intros Hy. rewrite rfc3339nano_stamp. apply parse_stamp; [done| |apply fraction_bytes].
  apply fraction_is_text, local_nano_bound.
Qed.

Lemma parse_micro_stamp t :
  0 <= c_year (local_date (FixedZone 0) t) < 10000 -> t mod 1000 = 0 -> parse_rfc3339nano (micro_stamp t) = Some t.
Proof.
  intros Hy Hm. apply parse_stamp; [done| |].
  - apply micros_is_text; [apply local_nano_bound|by apply local_nano_micro].
  - unfold micros. cbn [map]. repeat (apply Forall_cons_2; [first [lia|apply digit_byte]|]). constructor.
Qed.

(** The instants services exchange survive the exchange.  For every instant
    of the years 0 to 9999, reading back the RFC 3339 text written with
    RFC3339Nano gives the same instant, and reading back the canonical
    microsecond text of a deadline gives the deadline truncated to
    microseconds, so that the worker's comparison of the deadline it sent with
    the receipt's text is a comparison of instants. *)
Theorem deadline_text_roundtrip t :
  0 <= c_year (local_date (FixedZone 0) (truncate Microsecond t)) < 10000 ->
  parse_rfc3339nano (canonicalDeadline t) = Some (truncate Microsecond t) /\
  parse_rfc3339nano (rfc3339nano (truncate Microsecond t)) = Some (truncate Microsecond t).
Proof.
  intros Hy. split; [|by apply parse_rfc3339nano_text]. apply parse_micro_stamp; [done|].
  unfold truncate, Microsecond. dlia.
Qed.

Lemma deadline_text_roundtrip_witness :
  canonicalDeadline 1700000000123456789 = "2023-11-14T22:13:20.123456Z" /\
  parse_rfc3339nano (canonicalDeadline 1700000000123456789) = Some 1700000000123456000.
Proof. split; [by_eval|]. apply (deadline_text_roundtrip 1700000000123456789). by vm_compute. Defined.

(** ** The year of what was read *)

Lemma days_before K c : 1 <= c_month c <= 12 -> 1 <= c_day c <= 31 ->
  c_year c < K -> days_from_civil c < days_from_civil (Civil K 1 1).
Proof.
  destruct c as [y m d]. unfold days_from_civil. simpl. intros Hm Hd Hy. destruct (m <=? 2) eqn:E; bool_to_prop; simpl.
  - assert ((153 * (m + 9) + 2) / 5 <= 337) by dlia.
    assert (y - 1 <= K - 1 - 1) as Hyk by lia. revert Hyk. generalize (y - 1) (K - 1). clear Hy. intros a b Hab. dlia.
  - assert ((153 * (m - 3) + 2) / 5 <= 275) by dlia.
    assert (y <= K - 1) as Hyk by lia. revert Hyk. generalize (K - 1). clear Hy. intros b Hab. dlia.
Qed.
Lemma days_after K c : 1 <= c_month c <= 12 -> 1 <= c_day c ->
  K <= c_year c -> days_from_civil (Civil K 1 1) <= days_from_civil c.
Proof.
  destruct c as [y m d]. unfold days_from_civil. simpl. intros Hm Hd Hy. destruct (m <=? 2) eqn:E; bool_to_prop; simpl.
  - assert (306 <= (153 * (m + 9) + 2) / 5) by dlia.
    assert (K - 1 <= y - 1) as Hyk by lia. revert Hyk. generalize (y - 1) (K - 1). clear Hy. intros a b Hab. dlia.
  - assert (0 <= (153 * (m - 3) + 2) / 5) by dlia.
    assert (K - 1 + 1 <= y) as Hyk by lia. revert Hyk. generalize (K - 1). clear Hy. intros b Hab. dlia.
Qed.

(** The calendar year of a valid date is found again. *)
Lemma civil_year_between lo hi c :
  1 <= c_month c <= 12 -> 1 <= c_day c <= 31 -> lo <= c_year c < hi ->
  lo <= c_year (civil_from_days (days_from_civil c)) < hi.
Proof.
  intros Hm Hd Hy. set (n := days_from_civil c). destruct (civil_from_days_valid n) as [Hm' Hd'].
  assert (c_day (civil_from_days n) <= 31) as Hd31 by (unfold daysIn in Hd'; repeat case_match; lia).
  pose proof (days_civil_days n) as Hn. split; apply Z.nlt_ge || apply Z.lt_nge; intros Hc.
  - pose proof (days_before lo _ Hm' ltac:(lia) Hc). pose proof (days_after lo c Hm ltac:(lia) ltac:(lia)). unfold n in *. lia.
  - pose proof (days_after hi _ Hm' ltac:(lia) Hc). pose proof (days_before hi c Hm ltac:(lia) ltac:(lia)). unfold n in *. lia.
Qed.

Lemma getnum_bound fixed l n r : getnum fixed l = Some (n, r) -> 0 <= n <= 99.
Proof.
  unfold getnum, is_digit. destruct l as [|a [|b l]]; [done| |]; repeat (case_match; bool_to_prop; try done);
    intros [= <- <-]; lia.
Qed.
Lemma year4_bound l n r : year4 l = Some (n, r) -> 0 <= n < 10000.
Proof.
  unfold year4, is_digit. destruct l as [|a [|b [|c [|d l]]]]; try done. cbn [forallb]. case_match; [|done].
  intros [= <- <-]. bool_to_prop. lia.
Qed.
Lemma foldl_digits_bound ds acc : 0 <= acc -> Forall (fun d => is_digit d = true) ds ->
  0 <= foldl (fun acc d => 10 * acc + (d - 48)) acc ds < (acc + 1) * 10 ^ Z.of_nat (length ds).
Proof.
  intros Ha Hd. revert acc Ha. induction Hd as [|d ds Hd Hds IH]; intros acc Ha; cbn [foldl length]; [lia|].
  unfold is_digit in Hd. bool_to_prop. destruct (IH (10 * acc + (d - 48))) as [H1 H2]; [lia|]. split; [done|].
  rewrite Nat2Z.inj_succ, Z.pow_succ_r by lia. eapply Z.lt_le_trans; [exact H2|].
  assert (0 < 10 ^ Z.of_nat (length ds)) by (apply Z.pow_pos_nonneg; lia). nia.
Qed.
Lemma span_digits_spec l ds r : span_digits l = (ds, r) -> Forall (fun d => is_digit d = true) ds.
Proof.
  revert ds r. induction l as [|c l IH]; intros ds r; cbn [span_digits]; [intros [= <- <-]; constructor|].
  destruct (is_digit c) eqn:E; [|intros [= <- <-]; constructor]. destruct (span_digits l) as [ds' r'].
  intros [= <- <-]. constructor; [done|]. by eapply IH.
Qed.
Lemma parse_fraction_bound l ns r : parse_fraction l = (ns, r) -> 0 <= ns < 10 ^ 9.
Proof.
  unfold parse_fraction. destruct l as [|c [|d l]]; [by intros [= <- <-]|by intros [= <- <-]|].
  destruct (_ && _) eqn:E; [|by intros [= <- <-]]. destruct (span_digits (d :: l)) as [ds r'] eqn:Hs. intros [= <- <-].
  apply span_digits_spec in Hs. unfold nanoseconds. apply (Forall_take _ 9) in Hs.
  pose proof (foldl_digits_bound (take 9 ds) 0 ltac:(lia) Hs) as [H1 H2].
  assert (length (take 9 ds) <= 9)%nat as Hl by (rewrite length_take; lia).
  set (k := length (take 9 ds)) in *. set (v := foldl _ _ _) in *. clearbody v k.
  assert (0 < 10 ^ (9 - Z.of_nat k)) by (apply Z.pow_pos_nonneg; lia). split; [nia|].
  replace (10 ^ 9) with (10 ^ Z.of_nat k * 10 ^ (9 - Z.of_nat k)) by (rewrite <- Z.pow_add_r by lia; f_equal; lia). nia.
Qed.

(** The fields that were read lie in the years 0 to 9999. *)
Lemma parse_fields_year zoned value t offset :
  parse_fields zoned value = Some (t, offset) -> 0 <= c_year (local_date (FixedZone 0) t) < 10000.
Proof.
  unfold parse_fields. destruct (year4 _) as [[y l]|] eqn:Hy; [|done]. cbn [mbind option_bind].
  destruct (literal 45 l) as [l1|]; [|done]. cbn [mbind option_bind].
  destruct (getnum true l1) as [[m l2]|]; [|done]. cbn [mbind option_bind]. destruct (_ || _) eqn:Hm; [done|].
  destruct (literal 45 l2) as [l3|]; [|done]. cbn [mbind option_bind].
  destruct (getnum true l3) as [[d l4]|]; [|done]. cbn [mbind option_bind].
  destruct (literal 84 l4) as [l5|]; [|done]. cbn [mbind option_bind].
  destruct (getnum false l5) as [[h l6]|] eqn:Hh; [|done]. cbn [mbind option_bind]. destruct (24 <=? h) eqn:Hh'; [done|].
  destruct (literal 58 l6) as [l7|]; [|done]. cbn [mbind option_bind].
  destruct (getnum true l7) as [[mi l8]|] eqn:Hi; [|done]. cbn [mbind option_bind]. destruct (60 <=? mi) eqn:Hi'; [done|].
  destruct (literal 58 l8) as [l9|]; [|done]. cbn [mbind option_bind].
  destruct (getnum true l9) as [[s l10]|] eqn:Hs; [|done]. cbn [mbind option_bind]. destruct (60 <=? s) eqn:Hs'; [done|].
  destruct (parse_fraction l10) as [ns l11] eqn:Hf.
  destruct (if zoned then parse_offset l11 else Some (0, l11)) as [[off l12]|]; [|done]. cbn [mbind option_bind].
  destruct (negb _); [done|]. destruct ((d <? 1) || _) eqn:Hd; [done|]. intros [= <- <-].
  apply year4_bound in Hy. apply getnum_bound in Hh, Hi, Hs. apply parse_fraction_bound in Hf. bool_to_prop.
  assert (daysIn m y <= 31) by (unfold daysIn; repeat case_match; lia).
  set (c := Civil y m d). unfold local_date.
  assert (local_day (FixedZone 0) ((days_from_civil c * 86400 + h * 3600 + mi * 60 + s) * Second + ns) = days_from_civil c) as ->.
  { unfold local_day. rewrite wall_ns_fixed. generalize (days_from_civil c). intros n. units. dlia. }
  apply civil_year_between; simpl; lia.
Qed.
