(* ===== verification/ExecutorClient.v ===== *)
(** * ExecutorClient: go-worker/internal/executor/client.go

    The worker's HTTP client for the execution API.  What [http.Client.Do] and
    the bounded read of the response give is an argument ([None] when the
    exchange failed); every check the client makes on it is modelled.  The
    length of a receipt's raw [result] member is a fact about the text of the
    response, [er_result_len]. *)

From S2P Require Import Prelude JsonStrict GoTime GoText GoDecode GoParseTime.

Inductive xerror := ErrNotFound | HTTPError (Status : Z) | ErrRequest (text : string).

#[export] Instance xerror_eq_dec : EqDecision xerror.
Proof. solve_decision. Defined.

Record exec_reply := ExecReply { er_status : Z; er_body : http_body; er_result_len : Z }.
Notation reply := (option exec_reply).

Record Status := MkStatus { st_InstanceID : string; st_ActiveExecutions : Z; st_Ready : bool }.

Record Envelope := MkEnvelope {
  ev_Version : Z;
  ev_JobID : string;
  ev_OwnerID : string;
  ev_Generation : Z;
  ev_AttemptGeneration : Z;
  ev_DeadlineAt : Z;
}.

(** [json.Marshal] of an envelope, the body of [Accept]; the deadline is in UTC. *)
Definition envelope_json (e : Envelope) : json :=
  JObj [("version", JNum (itoa (ev_Version e))); ("job_id", JStr (ev_JobID e)); ("owner_id", JStr (ev_OwnerID e));
        ("generation", JNum (itoa (ev_Generation e))); ("attempt_generation", JNum (itoa (ev_AttemptGeneration e)));
        ("deadline_at", JStr (rfc3339nano (ev_DeadlineAt e)))].

Record Receipt := MkReceipt {
  rc_JobID : string;
  rc_OwnerID : string;
  rc_Generation : Z;
  rc_AttemptGeneration : Z;
  rc_DeadlineAt : string;
  rc_ExecutorInstance : string;
  rc_State : string;
  rc_AcceptedAt : option string;
  rc_StartedAt : option string;
  rc_FinishedAt : option string;
  rc_Result : option json;
  rc_ErrorCode : option string;
  rc_LegacyApplied : bool;
  rc_ExecutionStopped : bool;
  rc_CurrentInstance : string;
}.

Definition no_receipt : Receipt := MkReceipt "" "" 0 0 "" "" "" None None None None None false false "".

(** ** Decoding into fields: null leaves a value alone and empties a pointer *)

Definition as_string (old : string) (j : json) : option string :=
  match j with JNull => Some old | JStr s => Some s | _ => None end.
Definition as_int (old : Z) (j : json) : option Z :=
  match j with JNull => Some old | JNum lit => ParseInt lit | _ => None end.
Definition as_bool (old : bool) (j : json) : option bool :=
  match j with JNull => Some old | JBool b => Some b | _ => None end.
Definition as_string_ptr (j : json) : option (option string) :=
  match j with JNull => Some None | JStr s => Some (Some s) | _ => None end.

Definition status_fields : list string := ["executor_instance_id"; "active_executions"; "ready"].
Definition set_status_field (f : string) (v : json) (s : Status) : option Status :=
  if (f =? "executor_instance_id")%string then
    x ← as_string (st_InstanceID s) v; Some (MkStatus x (st_ActiveExecutions s) (st_Ready s))
  else if (f =? "active_executions")%string then
    x ← as_int (st_ActiveExecutions s) v; Some (MkStatus (st_InstanceID s) x (st_Ready s))
  else x ← as_bool (st_Ready s) v; Some (MkStatus (st_InstanceID s) (st_ActiveExecutions s) x).

Definition receipt_fields : list string :=
  ["job_id"; "owner_id"; "generation"; "attempt_generation"; "deadline_at"; "executor_instance_id"; "state";
   "accepted_at"; "started_at"; "finished_at"; "result"; "error_code"; "legacy_completion_applied";
   "execution_stopped"; "current_executor_instance_id"].

Definition set_receipt_field (f : string) (v : json) (r : Receipt) : option Receipt :=
  let 'MkReceipt job owner gen att dl inst st acc sta fin res err leg stop cur := r in
  if (f =? "job_id")%string then x ← as_string job v; Some (MkReceipt x owner gen att dl inst st acc sta fin res err leg stop cur)
  else if (f =? "owner_id")%string then x ← as_string owner v; Some (MkReceipt job x gen att dl inst st acc sta fin res err leg stop cur)
  else if (f =? "generation")%string then x ← as_int gen v; Some (MkReceipt job owner x att dl inst st acc sta fin res err leg stop cur)
  else if (f =? "attempt_generation")%string then x ← as_int att v; Some (MkReceipt job owner gen x dl inst st acc sta fin res err leg stop cur)
  else if (f =? "deadline_at")%string then x ← as_string dl v; Some (MkReceipt job owner gen att x inst st acc sta fin res err leg stop cur)
  else if (f =? "executor_instance_id")%string then x ← as_string inst v; Some (MkReceipt job owner gen att dl x st acc sta fin res err leg stop cur)
  else if (f =? "state")%string then x ← as_string st v; Some (MkReceipt job owner gen att dl inst x acc sta fin res err leg stop cur)
  else if (f =? "accepted_at")%string then x ← as_string_ptr v; Some (MkReceipt job owner gen att dl inst st x sta fin res err leg stop cur)
  else if (f =? "started_at")%string then x ← as_string_ptr v; Some (MkReceipt job owner gen att dl inst st acc x fin res err leg stop cur)
  else if (f =? "finished_at")%string then x ← as_string_ptr v; Some (MkReceipt job owner gen att dl inst st acc sta x res err leg stop cur)
  else if (f =? "result")%string then Some (MkReceipt job owner gen att dl inst st acc sta fin (Some v) err leg stop cur)
  else if (f =? "error_code")%string then x ← as_string_ptr v; Some (MkReceipt job owner gen att dl inst st acc sta fin res x leg stop cur)
  else if (f =? "legacy_completion_applied")%string then x ← as_bool leg v; Some (MkReceipt job owner gen att dl inst st acc sta fin res err x stop cur)
  else if (f =? "execution_stopped")%string then x ← as_bool stop v; Some (MkReceipt job owner gen att dl inst st acc sta fin res err leg x cur)
  else x ← as_string cur v; Some (MkReceipt job owner gen att dl inst st acc sta fin res err leg stop x).

(** ** request *)

(** The status line and the bounded read. *)
Definition request_body (missingOK : bool) (r : reply) : result xerror exec_reply :=
  match r with
  | None => Err (ErrRequest "executor request failed")
  | Some x =>
      if missingOK && (er_status x =? 404) then Err ErrNotFound
      else if (er_status x <? 200) || (300 <=? er_status x) then Err (HTTPError (er_status x))
      else if bd_failed (er_body x) then Err (ErrRequest "executor response could not be read")
      else if 8192 <? bd_length (er_body x) then Err (ErrRequest "executor response exceeds its safe bound")
      else Ok x
  end.

(** [request] with a target *)
Definition request_into {T} (decode : json -> option T) (missingOK : bool) (r : reply) : result xerror (T * exec_reply) :=
  x ← request_body missingOK r;
  match decode_next (bd_lexemes (er_body x)) (bd_ending (er_body x)) with
  | Err _ => Err (ErrRequest "executor response was invalid")
  | Ok (j, rest) =>
      match decode j with
      | None => Err (ErrRequest "executor response was invalid")
      | Some v =>
          match decode_next rest (bd_ending (er_body x)) with
          | Err EofErr => Ok (v, x)
          | _ => Err (ErrRequest "executor response has trailing data")
          end
      end
  end.

(** [request] without a target *)
Definition request (r : reply) : result xerror unit := _ ← request_body false r; Ok tt.

(** ** The calls *)

Definition ClientStatus (r : reply) : result xerror Status :=
  x ← request_into (decode_struct status_fields set_status_field (MkStatus "" 0 false)) false r;
  if negb (st_Ready x.1) || (st_InstanceID x.1 =? "")%string then Err (ErrRequest "executor is not ready")
  else Ok x.1.

(** The policy's timeout in seconds. *)
Definition ClientPolicy (r : reply) : result xerror Z :=
  x ← request_into (decode_struct ["timeout_seconds"] (fun _ v old => as_int old v) 0) false r;
  if (x.1 <? 1) || (86400 <? x.1) then Err (ErrRequest "executor returned an invalid timeout") else Ok x.1.

Definition knownReceiptState (state : string) : bool :=
  bool_decide (state ∈ ["accepted"; "running"; "succeeded"; "failed"; "interrupted"; "delivery_unknown"]).

Definition validReceipt (r : Receipt) : bool :=
  if negb (knownReceiptState (rc_State r)) || (rc_OwnerID r =? "")%string || (rc_Generation r <=? 0) ||
     (rc_ExecutorInstance r =? "")%string || (rc_DeadlineAt r =? "")%string
  then false
  else match parse_rfc3339nano (rc_DeadlineAt r) with
       | Some deadline => negb (deadline =? zero_time)
       | None => false
       end.

(** The common body of [Receipt] and [Cancel]; they differ in the text of one error. *)
Definition checked_receipt (mismatch : string) (jobID : string) (attempt : Z) (r : reply) : result xerror Receipt :=
  x ← request_into (decode_struct receipt_fields set_receipt_field no_receipt) true r;
  let receipt := x.1 in
  if negb (rc_JobID receipt =? jobID)%string || negb (rc_AttemptGeneration receipt =? attempt) || negb (validReceipt receipt)
  then Err (ErrRequest mismatch)
  else if bool_decide (is_Some (rc_Result receipt)) && (4096 <? er_result_len x.2)
  then Err (ErrRequest "executor receipt result exceeds its safe bound")
  else Ok receipt.

Definition ClientReceipt : string -> Z -> reply -> result xerror Receipt :=
  checked_receipt "executor returned a mismatched receipt".
Definition ClientCancel : string -> Z -> reply -> result xerror Receipt :=
  checked_receipt "executor returned a mismatched cancellation receipt".

Lemma checked_receipt_ok m id a r x :
  checked_receipt m id a r = Ok x -> rc_JobID x = id /\ rc_AttemptGeneration x = a /\ validReceipt x = true.
Proof.
  unfold checked_receipt. intros H. apply result_bind_ok in H as ([y z] & _ & H). simpl in H.
  destruct (negb (rc_JobID y =? id)%string || _ || _) eqn:E; [done|].
  destruct (_ && _); [done|]. injection H as <-. bool_to_prop. done.
Qed.

Lemma validReceipt_state r : validReceipt r = true ->
  rc_State r ∈ ["accepted"; "running"; "succeeded"; "failed"; "interrupted"; "delivery_unknown"].
Proof.
  unfold validReceipt, knownReceiptState. destruct (_ || _) eqn:E; [done|]. intros _. by bool_to_prop.
Qed.
