(* ===== verification/WorkerStore.v ===== *)
(** * WorkerStore: go-worker/internal/store/store.go

    The worker's side of the job queue: the single-worker lease (an advisory
    lock held by a dedicated connection plus a generation in
    [background_worker_status]), claiming the next job, finishing it under the
    lease, recovery of interrupted jobs and retention.

    The Go [Store] value is the record [Store]; [s_conn] is the backend pid of
    the lease connection.  Operations that change it return the new record
    beside their result.  The two admission functions that migrations may
    install in the database, and SHA-256, are parameters. *)

From S2P Require Import Prelude JsonStrict GoTime Db GoText QueueTables.

Inductive worker_error :=
| ErrLeaseHeld | ErrLeaseLost | ErrNoJob
| ErrHeartbeat (stage reason : string)   (* HeartbeatError, which unwraps to ErrLeaseLost *)
| ErrOther (text : string).

#[export] Instance worker_error_eq_dec : EqDecision worker_error.
Proof. solve_decision. Defined.

(** [errors.Is(err, store.ErrLeaseLost)] *)
Definition is_lease_lost (e : worker_error) : bool :=
  match e with ErrLeaseLost | ErrHeartbeat _ _ => true | _ => false end.

Notation WM := (M qtables worker_error).

(** A job as [scanJob] returns it. *)
Record Job := MkJob { job_ID : string; job_row_of : job_row }.

Record LeaseInfo := MkLeaseInfo { li_OwnerID : string; li_Generation : Z; li_BackendPID : Z }.

Record Store := MkStore {
  s_conn : option Z;
  s_owner : string;
  s_generation : Z;
  s_pid : Z;
  s_closed : bool;
}.

Definition Info (s : Store) : LeaseInfo := MkLeaseInfo (s_owner s) (s_generation s) (s_pid s).

(** [clock_timestamp() AT TIME ZONE 'UTC'] *)
Definition utc_now {D} : stmt D Z := read (fun now _ => pg_time now).

Definition any_err (text : string) : dberr -> worker_error := fun _ => ErrOther text.

(** ** The lease *)

(** [pg_try_advisory_lock]: a session that has just been opened holds nothing *)
Definition try_lock (pid : Z) : stmt qtables bool := fun _ _ d =>
  match q_worker_lock d with
  | None => (Ok true, set_worker_lock (Some pid) d)
  | Some _ => (Ok false, d)
  end.

(** [pg_advisory_unlock], and what the server does when a session ends *)
Definition release_lock (pid : Z) : stmt qtables bool := fun _ _ d =>
  if bool_decide (q_worker_lock d = Some pid) then (Ok true, set_worker_lock None d) else (Ok false, d).

Definition newUUID : WM string :=
  b ← rand_read (ErrOther "worker owner identity unavailable"); mret (uuid_text b).

Definition closeConn (pid : Z) : WM unit := _ ← try_exec (release_lock pid); mret tt.

(** [UPDATE background_worker_status SET generation=generation+1,... WHERE id=1 RETURNING generation] *)
Definition take_ownership (ownerID : string) (pid : Z) : stmt qtables (option Z) := fun _ now d =>
  match q_status d with
  | None => (Ok None, d)
  | Some s =>
      (Ok (Some (ws_generation s + 1)),
       set_status (Some (StatusRow (ws_generation s + 1) (Some ownerID) (Some pid) (Some (pg_time now)) true)) d)
  end.

Definition updateOwner (ownerID : string) (pid : Z) : WM Z :=
  r ← exec (any_err "update failed") (take_ownership ownerID pid);
  match r with
  | Some generation => mret generation
  | None => raise (ErrOther "worker status row is missing")
  end.

(** [pid] is the backend the new connection gets. *)
Definition Acquire (s : Store) (pid : Z) : WM (result worker_error LeaseInfo * Store) :=
  if bool_decide (is_Some (s_conn s)) || s_closed s then
    mret (Err (ErrOther "worker lease already initialized"), s)
  else
    let fail text := _ ← closeConn pid; mret (Err (ErrOther text), s) in
    connected ← try_exec (read (fun _ _ => tt));
    match connected with
    | Err _ => mret (Err (ErrOther "worker lease connection unavailable"), s)
    | Ok _ =>
        acquired ← try_exec (try_lock pid);
        match acquired with
        | Err _ => fail "worker lease lock unavailable"
        | Ok false => _ ← closeConn pid; mret (Err ErrLeaseHeld, s)
        | Ok true =>
            pid_read ← try_exec (read (fun _ _ => pid));
            match pid_read with
            | Err _ => fail "worker lease identity unavailable"
            | Ok _ =>
                owner ← try newUUID;
                match owner with
                | Err _ => fail "worker owner identity unavailable"
                | Ok ownerID =>
                    outcome ← try (with_tx (ErrOther "begin") (
                      generation ← updateOwner ownerID pid;
                      _ ← commit (ErrOther "commit");
                      mret generation));
                    match outcome with
                    | Ok generation =>
                        mret (Ok (MkLeaseInfo ownerID generation pid),
                              MkStore (Some pid) ownerID generation pid (s_closed s))
                    | Err _ =>
                        _ ← try_exec (release_lock pid);
                        fail "worker lease status update failed"
                    end
                end
            end
        end
    end.

(** [invalidateLeaseLocked] *)
Definition invalidate (s : Store) : WM Store :=
  _ ← (match s_conn s with Some pid => closeConn pid | None => mret tt end);
  mret (MkStore None "" 0 0 true).

(** [UPDATE background_worker_status SET heartbeat_at=... WHERE id=1 AND owner_id=... ]; affected rows *)
Definition beat (info : LeaseInfo) : stmt qtables Z := fun _ now d =>
  match q_status d with
  | Some r =>
      if bool_decide (ws_owner r = Some (li_OwnerID info)) && (ws_generation r =? li_Generation info) &&
         bool_decide (ws_pid r = Some (li_BackendPID info)) && ws_running r
      then (Ok 1, set_status (Some (StatusRow (ws_generation r) (ws_owner r) (ws_pid r) (Some (pg_time now)) true)) d)
      else (Ok 0, d)
  | None => (Ok 0, d)
  end.

Definition heartbeat_body (info : LeaseInfo) : WM unit :=
  rows ← exec (fun _ => ErrHeartbeat "update" "other") (beat info);
  _ ← guard_m (negb (rows =? 1)) (ErrHeartbeat "update" "lease_mismatch");
  _ ← commit (ErrHeartbeat "commit" "other");
  mret tt.

(** [HeartbeatWithFailure]; the callback only cancels contexts.  The diagnosis a
    driver error gets ([heartbeatError]) is its reason "other". *)
Definition Heartbeat (s : Store) : WM (result worker_error unit * Store) :=
  if negb (bool_decide (is_Some (s_conn s))) || s_closed s then mret (Err ErrLeaseLost, s)
  else
    r ← try (with_tx (ErrHeartbeat "begin" "other") (heartbeat_body (Info s)));
    match r with
    | Ok _ => mret (Ok tt, s)
    | Err e => s' ← invalidate s; mret (Err e, s')
    end.

(** [UPDATE background_worker_status SET owner_id=NULL,...,status='stopped' WHERE id=1 AND owner_id=$1 AND generation=$2] *)
Definition stop_worker (info : LeaseInfo) : stmt qtables unit := write (fun _ d =>
  match q_status d with
  | Some r =>
      if bool_decide (ws_owner r = Some (li_OwnerID info)) && (ws_generation r =? li_Generation info)
      then set_status (Some (StatusRow (ws_generation r) None None None false)) d else d
  | None => d
  end).

Definition Release (s : Store) : WM (result worker_error unit * Store) :=
  match s_conn s with
  | None => mret (Ok tt, s)
  | Some pid =>
      let released := MkStore None "" 0 0 (s_closed s) in
      r ← try (with_tx (ErrOther "begin") (
        _ ← exec (any_err "update") (stop_worker (Info s));
        _ ← commit (ErrOther "commit");
        mret tt));
      match r with
      | Err _ => _ ← closeConn pid; mret (Err (ErrOther "worker lease release failed"), released)
      | Ok _ =>
          u ← try_exec (release_lock pid);
          match u with
          | Ok true => _ ← closeConn pid; mret (Ok tt, released)
          | _ => _ ← closeConn pid; mret (Err (ErrOther "worker advisory lock release failed"), released)
          end
      end
  end.

(** The row [background_worker_status] as the fence reads it. *)
Definition current_owner (info : LeaseInfo) (r : option status_row) : option Z :=
  match r with
  | Some (StatusRow g (Some o) (Some p) (Some hb) true) =>
      if (o =? li_OwnerID info)%string && (g =? li_Generation info) && (p =? li_BackendPID info)
      then Some hb else None
  | _ => None
  end.

Definition lockCurrentLease (info : LeaseInfo) : WM LeaseInfo :=
  _ ← guard_m ((li_OwnerID info =? "")%string || (li_Generation info <=? 0) || (li_BackendPID info <=? 0)) ErrLeaseLost;
  row ← exec (fun _ => ErrLeaseLost) (read (fun _ d => q_status d));
  match current_owner info row with
  | None => raise ErrLeaseLost
  | Some heartbeat =>
      databaseNow ← exec (fun _ => ErrLeaseLost) utc_now;
      _ ← guard_m ((databaseNow <? heartbeat) || (20 * Second <? databaseNow - heartbeat)) ErrLeaseLost;
      held ← exec (fun _ => ErrLeaseLost) (read (fun _ d => bool_decide (q_worker_lock d = Some (li_BackendPID info))));
      _ ← guard_m (negb held) ErrLeaseLost;
      mret info
  end.

(** ** Jobs *)

Section Jobs.
Context `{Postgres} (sha256hex : string -> string).
(** [enqueue_serbian_digest_retry()] and [enqueue_viber_digest_delivery()], where installed *)
Context (serbian_admission viber_admission : option (stmt qtables unit)).

Definition find_job (P : string -> job_row -> bool) (d : qtables) : list (string * job_row) :=
  filter (fun kj => P kj.1 kj.2 = true) (map_to_list (q_jobs d)).

(** [ORDER BY queue_position] *)
Definition position_le (a b : string * job_row) : Prop := j_position a.2 <= j_position b.2.
#[global] Instance position_le_dec : RelDecision position_le.
Proof. intros a b. unfold position_le. apply _. Defined.

Definition select_jobs (limit : Z) (P : job_row -> bool) : stmt qtables (list (string * job_row)) :=
  fun locked _ d =>
    (limit_rows limit (merge_sort position_le (filter (fun kj =>
       P kj.2 && negb (locked kj.1) = true) (map_to_list (q_jobs d)))), d).

Definition update_job (id : string) (f : Z -> job_row -> job_row) : stmt qtables (option job_row) := fun _ now d =>
  match q_jobs d !! id with
  | Some j => (Ok (Some (f (pg_time now) j)), set_jobs (<[id := f (pg_time now) j]> (q_jobs d)) d)
  | None => (Ok None, d)
  end.

Definition is_running (j : job_row) : bool := bool_decide (j_state j = Running).

(** [state='queued' OR (state='interrupted' AND attempt_generation < $1)] *)
Definition claimable_job (maxAttempts : Z) (j : job_row) : bool :=
  match j_state j with
  | Queued => true
  | Interrupted => j_attempt j <? maxAttempts
  | _ => false
  end.

(** The Viber admission runs in a savepoint: its failure is rolled back alone. *)
Definition admit_viber (f : stmt qtables unit) : WM unit :=
  saved ← exec (any_err "Viber admission coordination failed") (read (fun _ d => d));
  r ← try_exec f;
  match r with
  | Err _ => exec (any_err "Viber admission rollback failed") (write (fun _ _ => saved))
  | Ok _ => exec (any_err "Viber admission commit failed") (read (fun _ _ => tt))
  end.

Definition admissions : WM unit :=
  serbian ← exec (any_err "retry admission unavailable") (read (fun _ _ => serbian_admission));
  _ ← (match serbian with
       | Some f => exec (any_err "retry admission failed") f
       | None => mret tt
       end);
  viber ← exec (any_err "Viber admission unavailable") (read (fun _ _ => viber_admission));
  match viber with
  | Some f => admit_viber f
  | None => mret tt
  end.

Definition start_job (generation : Z) (now : Z) (j : job_row) : job_row :=
  set_job Running (Some generation) (j_attempt j + 1) (Some now) None None (j_result j) j.

(** The job [Claim] returns: the row as selected, with the columns it overwrites. *)
Definition claimed_job (id : string) (generation attempt : Z) (j : job_row) : Job :=
  MkJob id (set_job Running (Some generation) attempt None None None (j_result j) j).

Definition claim_body (info : LeaseInfo) (maxAttempts : Z) : WM Job :=
  _ ← exec (any_err "job claim coordination failed") (read (fun _ _ => tt));
  info ← lockCurrentLease info;
  active ← exec (any_err "active job check failed") (read (fun _ d => find_job (fun _ => is_running) d));
  match active with
  | _ :: _ => raise ErrNoJob
  | [] =>
      _ ← admissions;
      rows ← exec (any_err "job claim failed") (select_jobs 1 (claimable_job maxAttempts));
      match rows with
      | [] =>
          _ ← commit (ErrOther "idle admission commit failed");
          raise ErrNoJob
      | (id, j) :: _ =>
          started ← exec (any_err "job claim update failed") (update_job id (start_job (li_Generation info)));
          match started with
          | None => raise (ErrOther "job claim update failed")
          | Some j' =>
              _ ← commit (ErrOther "job claim commit failed");
              mret (claimed_job id (li_Generation info) (j_attempt j') j)
          end
      end
  end.

Definition Claim (s : Store) (maxAttempts : Z) : WM Job :=
  with_tx (ErrOther "database unavailable") (claim_body (Info s) maxAttempts).

Definition ActiveJobs : WM (list Job) :=
  exec (any_err "active job query failed") (read (fun _ d =>
    map (fun kj => MkJob kj.1 kj.2) (merge_sort position_le (find_job (fun _ j =>
      bool_decide (j_state j = Running \/ j_state j = Interrupted)) d)))).

(** The receipt of the job's current attempt waits for its completion event. *)
Definition event_pending (d : qtables) (id : string) (j : job_row) : bool :=
  match q_execs d !! (id, j_attempt j) with
  | Some x => negb (bool_decide (is_Some (x_applied x)))
  | None => false
  end.

Definition finished_le (a b : string * job_row) : Prop :=
  match j_finished a.2, j_finished b.2 with Some x, Some y => x <= y | _, None => True | None, _ => False end.
#[global] Instance finished_le_dec : RelDecision finished_le.
Proof. intros a b. unfold finished_le. destruct (j_finished a.2), (j_finished b.2); apply _. Defined.

Definition TerminalJobsNeedingEvents (limit : Z) : WM (list Job) :=
  rows ← exec (any_err "legacy completion scan failed") (fun _ _ d =>
    (limit_rows limit (merge_sort finished_le (find_job (fun id j => jterminal (j_state j) && event_pending d id j) d)), d));
  mret (map (fun kj => MkJob kj.1 kj.2) rows).

(** The four states [finish] accepts. *)
Definition finish_state (state : string) : option jstate :=
  if (state =? "succeeded")%string then Some Succeeded
  else if (state =? "failed")%string then Some Failed
  else if (state =? "interrupted")%string then Some Interrupted
  else if (state =? "delivery_unknown")%string then Some DeliveryUnknown
  else None.

(** The receipt row written beside a terminal job; [xstate_of] of the job state. *)
Definition xstate_of (s : jstate) : xstate :=
  match s with
  | Succeeded => XSucceeded | Failed => XFailed | Interrupted => XInterrupted
  | DeliveryUnknown => XDeliveryUnknown | Running => XRunning | Queued => XAccepted
  end.

(** [INSERT ... ON CONFLICT (job_id,attempt_generation) DO NOTHING] *)
Definition insert_exec (key : attempt_key) (row : Z -> exec_row) : stmt qtables unit := write (fun now d =>
  match q_execs d !! key with
  | Some _ => d
  | None => set_execs (<[key := row (pg_time now)]> (q_execs d)) d
  end).

(** [accepted_at] has its column default, the transaction's time. *)
Definition insertEventReceipt (job : Job) (state : jstate) (result : json) (errorCode : option string)
    (info : LeaseInfo) : WM unit :=
  let attempt := j_attempt (job_row_of job) in
  _ ← guard_m (attempt <? 0) (ErrOther "invalid job attempt generation");
  b ← rand_read (ErrOther "completion receipt identity unavailable");
  let marker := sha256hex ("go-finalized:" +:+ job_ID job +:+ ":" +:+ itoa attempt) in
  exec (any_err "completion receipt write failed") (insert_exec (job_ID job, attempt) (fun now =>
    ExecRow marker (uuid_text b) (Some (li_OwnerID info)) (Some (li_Generation info)) None (xstate_of state)
      now None (Some now) (Some (jsonb result)) errorCode None)).

Definition finish_job (state : jstate) (result : json) (errorCode : option string) (generation now : Z)
    (j : job_row) : job_row :=
  set_job state (Some generation) (j_attempt j) (j_started j) (Some now) errorCode (Some (jsonb result)) j.

(** May this caller finish this row? *)
Definition may_finish (recovered : bool) (job : Job) (info : LeaseInfo) (row : option job_row) : bool :=
  match row with
  | None => false
  | Some j =>
      (j_attempt j =? j_attempt (job_row_of job)) &&
      (is_running j || (recovered && bool_decide (j_state j = Interrupted))) &&
      (recovered || bool_decide (j_owner j = Some (li_Generation info)))
  end.

Definition finish_body (info : LeaseInfo) (job : Job) (state : jstate) (result : json)
    (errorCode : option string) (recovered : bool) : WM unit :=
  info ← lockCurrentLease info;
  row ← exec (fun _ => ErrLeaseLost) (read (fun _ d => q_jobs d !! job_ID job));
  _ ← guard_m (negb (may_finish recovered job info row)) ErrLeaseLost;
  _ ← exec (any_err "job finish write failed")
        (update_job (job_ID job) (finish_job state result errorCode (li_Generation info)));
  _ ← (if bool_decide (state = Interrupted) then mret tt
       else insertEventReceipt job state result errorCode info);
  _ ← commit (ErrOther "job finish commit failed");
  mret tt.

(** [finish]; [result] nil is [None] *)
Definition finish (s : Store) (job : Job) (state : string) (result : gomap) (errorCode : option string)
    (recovered : bool) : WM unit :=
  match finish_state state with
  | None => raise (ErrOther "invalid terminal job state")
  | Some st =>
      let result := json_of_map (match result with None => Some [("status", JStr "warning")] | r => r end) in
      _ ← guard_m (4096 <? len (marshal result)) (ErrOther "job result exceeds its safe bound");
      with_tx (ErrOther "job finish transaction unavailable")
        (finish_body (Info s) job st result errorCode recovered)
  end.

Definition Finish (s : Store) (job : Job) (state : string) (result : gomap) (errorCode : option string) : WM unit :=
  finish s job state result errorCode false.
Definition FinishRecovered (s : Store) (job : Job) (state : string) (result : gomap) (errorCode : option string) : WM unit :=
  finish s job state result errorCode true.
Definition MarkInterrupted (s : Store) (job : Job) (state errorCode : string) : WM unit :=
  Finish s job state (Some [("status", JStr "warning")]) (Some errorCode).

(** [fmt.Sprintf("%f seconds", retention.Seconds())::interval]: microseconds *)
Definition interval (retention : Z) : Z := (retention + 500) / 1000 * 1000.

Definition prunable (d : qtables) (now retention : Z) (id : string) (j : job_row) : bool :=
  bool_decide (j_state j = Succeeded \/ j_state j = Failed) &&
  match j_finished j with Some t => t <? now - interval retention | None => false end &&
  negb (event_pending d id j).

(** The DELETE with its sub-select; the result is the ids it removed. *)
Definition prune_jobs (retention batch : Z) : stmt qtables (list string) := fun locked now d =>
  match limit_rows batch (merge_sort finished_le (find_job (fun id j =>
          prunable d (pg_time now) retention id j && negb (locked id)) d)) with
  | Err e => (Err e, d)
  | Ok rows => (Ok rows.*1, delete_jobs rows.*1 d)
  end.

Definition prune_body (info : LeaseInfo) (retention batch : Z) : WM Z :=
  _ ← lockCurrentLease info;
  ids ← exec (any_err "job retention failed") (prune_jobs retention batch);
  _ ← commit (ErrOther "job retention commit failed");
  mret (Z.of_nat (length ids)).

Definition Prune (s : Store) (retention batch : Z) : WM Z :=
  with_tx (ErrOther "retention transaction unavailable") (prune_body (Info s) retention batch).

Definition exhausted (maxAttempts : Z) (j : job_row) : bool :=
  bool_decide (j_state j = Interrupted) && (maxAttempts <=? j_attempt j).

Definition incomplete : json := JObj [("status", JStr "incomplete")].

Definition fail_one (info : LeaseInfo) (kj : string * job_row) : WM unit :=
  let code := Some "worker_recovery_exhausted" in
  _ ← exec (any_err "exhausted job update failed")
        (update_job kj.1 (finish_job Failed incomplete code (li_Generation info)));
  insertEventReceipt (MkJob kj.1 kj.2) Failed incomplete code info.

Definition exhaust_body (info : LeaseInfo) (maxAttempts batch : Z) : WM Z :=
  info ← lockCurrentLease info;
  jobs ← exec (any_err "exhausted job scan failed") (select_jobs batch (exhausted maxAttempts));
  _ ← for_each (fail_one info) jobs;
  _ ← commit (ErrOther "recovery transaction commit failed");
  mret (Z.of_nat (length jobs)).

Definition FailExhaustedInterrupted (s : Store) (maxAttempts batch : Z) : WM Z :=
  with_tx (ErrOther "recovery transaction unavailable") (exhaust_body (Info s) maxAttempts batch).

Definition DatabaseNow : WM Z := exec (any_err "database clock unavailable") utc_now.

Definition CheckWorkerHealth : WM unit :=
  row ← exec (any_err "worker lease is not healthy") (read (fun _ d => q_status d));
  match row with
  | Some (StatusRow g (Some _) (Some pid) (Some hb) true) =>
      _ ← guard_m (g <=? 0) (ErrOther "worker lease is not healthy");
      held ← exec (any_err "worker advisory lease is not healthy") (read (fun now d =>
        (pg_time now - hb <=? 20 * Second) && (hb <=? pg_time now) && bool_decide (q_worker_lock d = Some pid)));
      guard_m (negb held) (ErrOther "worker advisory lease is not healthy")
  | _ => raise (ErrOther "worker lease is not healthy")
  end.
End Jobs.

(** ** The fence *)

(** [info] names the worker the database says is running: the same owner,
    generation and backend, a heartbeat at most 20 seconds old, and the
    advisory lock held by that backend. *)
Definition owns_lease (info : LeaseInfo) (d : qtables) : Prop :=
  li_OwnerID info <> "" /\ 0 < li_Generation info /\ 0 < li_BackendPID info /\
  exists hb now,
    q_status d = Some (StatusRow (li_Generation info) (Some (li_OwnerID info)) (Some (li_BackendPID info)) (Some hb) true) /\
    hb <= now <= hb + 20 * Second /\ q_worker_lock d = Some (li_BackendPID info).

Lemma current_owner_spec info r hb :
  current_owner info r = Some hb ->
  r = Some (StatusRow (li_Generation info) (Some (li_OwnerID info)) (Some (li_BackendPID info)) (Some hb) true).
Proof.
  unfold current_owner. destruct r as [[g [o|] [p|] [h|] []]|]; try done.
  destruct (_ && _) eqn:E; [|done]. intros [= <-]. bool_to_prop. congruence.
Qed.

Lemma twp_lockCurrentLease {B} info (k : LeaseInfo -> WM B) Q db t :
  (owns_lease info t -> twp (k info) Q db t) ->
  (forall t', Q (Err ErrLeaseLost) db (Some t')) ->
  twp (lockCurrentLease info ≫= k) Q db t.
Proof.
  intros Hk He. apply twp_bind. unfold lockCurrentLease. apply twp_guard; [auto|]. intros Hg. bool_to_prop.
  apply twp_exec; [|auto]. intros lk now. simpl.
  destruct (current_owner info (q_status t)) as [hb|] eqn:Ho; [|by apply twp_raise].
  apply current_owner_spec in Ho. apply twp_exec; [|auto]. intros lk' now'. simpl.
  apply twp_guard; [auto|]. intros Hhb. bool_to_prop. apply twp_exec; [|auto]. intros lk'' now''. simpl.
  apply twp_guard; [auto|]. intros Hheld. bool_to_prop. apply twp_ret. exists t. split; [done|]. apply Hk.
  split_and!; [done|lia|lia|]. exists hb, (pg_time now'). split_and!; [done|lia|lia|done].
Qed.

(** ** Leases evolve the queue *)

Definition leases_only (d d' : qtables) : Prop :=
  q_jobs d' = q_jobs d /\ q_execs d' = q_execs d /\ q_retired d' = q_retired d /\
  forall s, q_status d = Some s -> exists s', q_status d' = Some s' /\ ws_generation s <= ws_generation s'.

Lemma leases_only_evolves d d' : leases_only d d' -> q_evolves d d'.
Proof.
  intros (H1 & H2 & H3 & H4). split; rewrite ?H1, ?H2, ?H3; eauto with news.
  intros [W1 W2 W3 W4]. split; by rewrite ?H1, ?H2, ?H3.
Qed.

Ltac leases :=
  split_and!; simpl; try done; let H := fresh in intros ? H; simplify_eq/=;
  try (rewrite H); eexists; (split; [done|simpl; lia]).

Lemma take_ownership_leases owner pid lk now d : leases_only d (take_ownership owner pid lk now d).2.
Proof. unfold take_ownership. destruct (q_status d) as [s|] eqn:Hs; rewrite ?Hs; leases. Qed.
Lemma beat_leases info lk now d : leases_only d (beat info lk now d).2.
Proof. unfold beat. destruct (q_status d) as [s|] eqn:Hs; [destruct (_ && _)|]; leases. Qed.
Lemma stop_worker_leases info lk now d : leases_only d (stop_worker info lk now d).2.
Proof. unfold stop_worker, write. simpl. destruct (q_status d) as [s|] eqn:Hs; [destruct (_ && _)|]; leases. Qed.
Lemma keeps_release_lock pid : keeps q_evolves (E:=worker_error) (try_exec (release_lock pid)).
Proof.
  apply keeps_try_exec; [apply _|]. intros lk now d. unfold release_lock.
  case_bool_decide; simpl; [apply q_evolves_lock|reflexivity].
Qed.


Lemma closeConn_evolves pid : keeps q_evolves (closeConn pid).
Proof. apply keeps_bind; [apply keeps_release_lock|]. intros. apply keeps_ret. Qed.

Lemma keeps_newUUID : keeps q_evolves newUUID.
Proof. apply keeps_bind; [apply keeps_rand, _|]. intros. apply keeps_ret. Qed.

Lemma Acquire_evolves s pid : keeps q_evolves (Acquire s pid).
Proof.
  unfold Acquire. destruct (_ || _); [apply keeps_ret|].
  assert (forall text, keeps q_evolves (_ ← closeConn pid; mret (Err (ErrOther text) : result worker_error LeaseInfo, s)))
    as Hfail by (intros; apply keeps_bind; [apply closeConn_evolves|intros; apply keeps_ret]).
  apply keeps_bind; [apply keeps_try_exec; [apply _|]; intros; reflexivity|]. intros [[]|e]; [|apply keeps_ret].
  apply keeps_bind.
  { apply keeps_try_exec; [apply _|]. intros lk now d. unfold try_lock.
    destruct (q_worker_lock d); simpl; [reflexivity|apply q_evolves_lock]. }
  intros [[]|e]; [|apply keeps_bind; [apply closeConn_evolves|intros; apply keeps_ret]|apply Hfail].
  apply keeps_bind; [apply keeps_try_exec; [apply _|]; intros; reflexivity|]. intros [p|e]; [|apply Hfail].
  apply keeps_bind; [apply keeps_try, keeps_newUUID|]. intros [owner|e]; [|apply Hfail].
  apply keeps_bind; [apply keeps_try, keeps_with_tx_twp; [apply _|]|].
  - intros d. apply twp_bind. apply twp_exec; [|intros; simpl; apply q_evolves_refl].
    intros lk now. pose proof (leases_only_evolves _ _ (take_ownership_leases owner pid lk now d)) as He.
    unfold take_ownership in *. destruct (q_status d) as [r|]; simpl in *.
    + apply twp_ret. eexists. split; [done|]. apply twp_commit; auto with news.
    + apply twp_raise. apply q_evolves_refl.
  - intros [g|e]; [apply keeps_ret|]. apply keeps_bind; [apply keeps_release_lock|]. intros. apply Hfail.
Qed.

Lemma Heartbeat_evolves s : keeps q_evolves (Heartbeat s).
Proof.
  unfold Heartbeat. destruct (_ || _); [apply keeps_ret|].
  apply keeps_bind; [apply keeps_try, keeps_with_tx_twp; [apply _|]|].
  - intros d. apply twp_exec; [|intros; apply q_evolves_refl].
    intros lk now. pose proof (leases_only_evolves _ _ (beat_leases (Info s) lk now d)) as He.
    destruct (beat (Info s) lk now d) as [[n|e] t]; [|apply q_evolves_refl].
    apply twp_guard; [apply q_evolves_refl|]. intros _. apply twp_commit; auto with news.
  - intros [[]|e]; [apply keeps_ret|]. apply keeps_bind; [|intros; apply keeps_ret].
    apply keeps_bind; [|intros; apply keeps_ret].
    destruct (s_conn s); [apply closeConn_evolves|apply keeps_ret].
Qed.

Lemma Release_evolves s : keeps q_evolves (Release s).
Proof.
  unfold Release. destruct (s_conn s) as [pid|]; [|apply keeps_ret].
  apply keeps_bind; [apply keeps_try, keeps_with_tx_twp; [apply _|]|].
  - intros d. apply twp_exec; [|intros; apply q_evolves_refl].
    intros lk now. pose proof (leases_only_evolves _ _ (stop_worker_leases (Info s) lk now d)) as He.
    unfold stop_worker, write in *. apply twp_commit; auto with news.
  - intros [[]|e].
    + apply keeps_bind; [apply keeps_release_lock|]. intros [[]|e];
        (apply keeps_bind; [apply closeConn_evolves|intros; apply keeps_ret]).
    + apply keeps_bind; [apply closeConn_evolves|intros; apply keeps_ret].
Qed.

(** ** Job operations *)

(** What an admission function may do: add queued jobs. *)
Definition admitted (d d' : qtables) : Prop :=
  q_evolves d d' /\ q_status d' = q_status d /\ q_worker_lock d' = q_worker_lock d /\
  (forall id j, q_jobs d !! id = Some j -> q_jobs d' !! id = Some j) /\
  (forall id j, q_jobs d' !! id = Some j -> q_jobs d !! id = Some j \/ j_state j = Queued).

Lemma admitted_refl d : admitted d d.
Proof. split_and!; try done. auto. Qed.
Lemma admitted_trans a b c : admitted a b -> admitted b c -> admitted a c.
Proof.
  intros (A1 & A2 & A3 & A4 & A5) (B1 & B2 & B3 & B4 & B5).
  split_and!; [by transitivity b|congruence..|auto|]. intros id j Hj. destruct (B5 id j Hj); auto.
Qed.
#[export] Hint Resolve admitted_refl : news.

Section JobProofs.
Context (serbian_admission viber_admission : option (stmt qtables unit)).
(** The functions of migrations 019 and 020 insert queued jobs or nothing. *)
Hypothesis serbian_admits : forall f, serbian_admission = Some f -> forall lk now d, admitted d (f lk now d).2.
Hypothesis viber_admits : forall f, viber_admission = Some f -> forall lk now d, admitted d (f lk now d).2.


Lemma twp_admissions {B} (k : unit -> WM B) Q db t :
  (forall t', admitted t t' -> twp (k tt) Q db t') ->
  (forall text t', Q (Err (ErrOther text)) db (Some t')) ->
  twp (admissions serbian_admission viber_admission ≫= k) Q db t.
Proof using Type*.
  intros Hk He. apply twp_bind. unfold admissions.
  apply twp_exec; [|intros; apply He]. intros lk now. simpl.
  apply twp_bind.
  assert (forall t1, admitted t t1 -> twp (viber ← exec (any_err "Viber admission unavailable") (read (fun _ _ => viber_admission));
      match viber with Some f => admit_viber f | None => mret () end)
    (fun r db' tx' => match r with
       | Ok a => exists t', tx' = Some t' /\ twp (k a) Q db' t'
       | Err e => Q (Err e) db' tx'
       end) db t1) as Hv.
  { intros t1 Ht1. apply twp_exec; [|intros; apply He]. intros lk1 now1. simpl.
    destruct viber_admission as [f|] eqn:Hf; [|apply twp_ret; eauto].
    apply twp_exec; [|intros; apply He]. intros lk2 now2. simpl. apply twp_try_exec.
    - intros lk3 now3. pose proof (viber_admits f eq_refl lk3 now3 t1) as Ha.
      destruct (f lk3 now3 t1) as [[[]|e] t2].
      + apply twp_ret_id, twp_exec; [|intros; apply He]. intros lk4 now4. apply twp_ret.
        exists t2. split; [done|]. apply Hk. by eapply admitted_trans.
      + apply twp_ret_id, twp_exec; [|intros; apply He]. intros lk4 now4. apply twp_ret.
        exists t1. split; [done|]. by apply Hk.
    - intros t2. apply twp_ret_id, twp_exec; [|intros; apply He]. intros lk4 now4. apply twp_ret.
      exists t1. split; [done|]. by apply Hk. }
  destruct serbian_admission as [f|] eqn:Hf.
  - apply twp_ret_id, twp_exec; [|intros; apply He]. intros lk1 now1.
    pose proof (serbian_admits f eq_refl lk1 now1 t) as Ha. destruct (f lk1 now1 t) as [[[]|e] t1]; [|apply He].
    apply twp_ret. eexists. split; [done|]. by apply Hv.
  - apply twp_ret. eexists. split; [done|]. apply Hv, admitted_refl.
Qed.

(** What a successful claim has done. *)
Definition claim_effect (info : LeaseInfo) (maxAttempts : Z) (job : Job) (d d' : qtables) : Prop :=
  exists t id j now (locked : string -> bool),
    owns_lease info d /\ (forall k x, q_jobs d !! k = Some x -> j_state x <> Running) /\ admitted d t /\
    q_jobs t !! id = Some j /\ claimable_job maxAttempts j = true /\
    (forall k x, q_jobs t !! k = Some x -> claimable_job maxAttempts x = true -> locked k = false ->
       j_position j <= j_position x) /\
    job = claimed_job id (li_Generation info) (j_attempt j + 1) j /\
    d' = set_jobs (<[id := start_job (li_Generation info) now j]> (q_jobs t)) t.

Definition claim_outcome (info : LeaseInfo) (maxAttempts : Z) (r : result worker_error Job) (d d' : qtables) : Prop :=
  match r with
  | Ok job => claim_effect info maxAttempts job d d'
  | Err ErrLeaseLost => d' = d
  | Err ErrNoJob => owns_lease info d /\
      ((d' = d /\ exists k x, q_jobs d !! k = Some x /\ j_state x = Running) \/ admitted d d')
  | Err _ => d' = d \/ (owns_lease info d /\ (admitted d d' \/ exists job, claim_effect info maxAttempts job d d'))
  end.

Lemma find_running d :
  find_job (fun _ => is_running) d = [] <-> forall k x, q_jobs d !! k = Some x -> j_state x <> Running.
Proof.
  assert (forall k x, (k, x) ∈ find_job (fun _ => is_running) d <-> q_jobs d !! k = Some x /\ j_state x = Running) as Hin.
  { intros k x. unfold find_job. rewrite list_elem_of_filter, elem_of_map_to_list. simpl. unfold is_running.
    rewrite bool_decide_eq_true. tauto. }
  split.
  - intros Hn k x Hx Hr. assert ((k, x) ∈ find_job (fun _ => is_running) d) as Hf by (by apply Hin).
    rewrite Hn in Hf. by apply elem_of_nil in Hf.
  - intros Hn. destruct (find_job _ d) as [|[k x] l] eqn:E; [done|].
    assert ((k, x) ∈ (k, x) :: l) as Hf by left. apply Hin in Hf as [H1 H2]. by apply Hn in H1.
Qed.

#[global] Instance position_le_total : Total position_le.
Proof. intros a b. unfold position_le. lia. Qed.
#[global] Instance position_le_trans : Transitive position_le.
Proof. intros a b c. unfold position_le. lia. Qed.

Lemma job_claim_spec info maxAttempts d :
  twp (claim_body serbian_admission viber_admission info maxAttempts) (fun r d' _ => claim_outcome info maxAttempts r d d') d d.
Proof using Type*.
  apply twp_exec; [|intros; left; reflexivity]. intros lk now. simpl.
  apply twp_lockCurrentLease; [|done]. intros Hown.
  apply twp_exec; [|intros; left; reflexivity]. intros lk1 now1. simpl.
  destruct (find_job _ d) as [|[k x] rows] eqn:Hrun.
  2:{ apply twp_raise. split; [done|]. left. split; [done|].
      assert ((k, x) ∈ find_job (fun _ => is_running) d) as Hin by (rewrite Hrun; left).
      apply list_elem_of_filter in Hin as [Hr Hin]. apply elem_of_map_to_list in Hin. simpl in Hr.
      unfold is_running in Hr. bool_to_prop. eauto. }
  pose proof (proj1 (find_running d) Hrun) as Hidle. clear Hrun.
  apply twp_admissions; [|intros; left; reflexivity]. intros t Hadm.
  apply twp_exec; [|intros; left; reflexivity]. intros lk2 now2. unfold select_jobs.
  destruct (limit_rows 1 _) as [[|[id j] rest]|e] eqn:Hsel; [..|left; reflexivity].
  { apply twp_commit_raise; simpl; auto with news. }
  pose proof (fun k v => selected_first _ _ _ _ _ _ k v Hsel) as Hfirst.
  apply selected_rows in Hsel as (_ & Hrows & _).
  destruct (Hrows id j) as [Hj Hc]; [left|]. simpl in Hc. bool_to_prop.
  apply twp_exec; [|intros; left; reflexivity]. intros lk3 now3. unfold update_job. rewrite Hj.
  assert (claim_effect info maxAttempts (claimed_job id (li_Generation info) (j_attempt j + 1) j) d
    (set_jobs (<[id := start_job (li_Generation info) (pg_time now3) j]> (q_jobs t)) t)) as He.
  { exists t, id, j, (pg_time now3), lk2. split_and!; try done. intros k x Hx Hcx Hlk.
    destruct (Hfirst k x Hx) as [E|Hle]; [simpl; by rewrite Hcx, Hlk|simplify_eq; lia|exact Hle]. }
  apply twp_commit; simpl; [done|right; eauto|left; done].
Qed.

Lemma claim_effect_evolves info maxAttempts job d d' :
  claim_effect info maxAttempts job d d' -> q_evolves d d'.
Proof.
  intros (t & id & j & now & lk & _ & Hrun & (Hev & _ & _ & _ & Hnew) & Hj & Hc & _ & _ & ->).
  transitivity t; [done|]. apply (q_evolves_job t id j); [done|..].
  - split_and!; [done|simpl; lia|]. unfold claimable_job in Hc. by destruct (j_state j).
  - intros Ha. simpl. split; [lia|]. intros _. split; [eauto|lia].
  - intros _. right. intros k x Hx Hr. destruct (Hnew k x Hx) as [Hd|Hq]; [by eapply Hrun|congruence].
Qed.

Lemma job_claim_evolves s maxAttempts : keeps q_evolves (Claim serbian_admission viber_admission s maxAttempts).
Proof using Type*.
  apply keeps_with_tx_twp; [apply _|]. intros d. eapply twp_mono; [apply job_claim_spec|].
  intros r d' tx' Ho. cbv beta in Ho.
  assert (admitted d d' \/ exists job, claim_effect (Info s) maxAttempts job d d') as [(? & _)|[job He]].
  { assert (admitted d d) as Hrefl by apply admitted_refl.
    destruct r as [job|[]]; simpl in Ho; naive_solver. }
  - done.
  - by eapply claim_effect_evolves.
Qed.
End JobProofs.

(** *** Finishing *)

Section FinishProofs.
Context `{Postgres} (sha256hex : string -> string).

(** The completion receipt of attempt [a] of job [id]: present already, or
    written with the state and outcome of the job. *)
Definition receipt_written (id : string) (a : Z) (st : jstate) (result : json) (code : option string)
    (info : LeaseInfo) (d d' : qtables) : Prop :=
  (is_Some (q_execs d !! (id, a)) /\ d' = d) \/
  (q_execs d !! (id, a) = None /\ exists digest instance now,
     d' = set_execs (<[(id, a) := ExecRow digest instance (Some (li_OwnerID info)) (Some (li_Generation info)) None
            (xstate_of st) now None (Some now) (Some (jsonb result)) code None]> (q_execs d)) d).

Definition finish_effect (info : LeaseInfo) (job : Job) (st : jstate) (result : json) (code : option string)
    (recovered : bool) (d d' : qtables) : Prop :=
  owns_lease info d /\ exists j now, q_jobs d !! job_ID job = Some j /\
    may_finish recovered job info (Some j) = true /\
    let d1 := set_jobs (<[job_ID job := finish_job st result code (li_Generation info) now j]> (q_jobs d)) d in
    if bool_decide (st = Interrupted) then d' = d1
    else receipt_written (job_ID job) (j_attempt j) st result code info d1 d'.

Definition finish_outcome (info : LeaseInfo) (job : Job) (st : jstate) (res : json) (code : option string)
    (recovered : bool) (r : result worker_error unit) (d d' : qtables) : Prop :=
  match r with
  | Ok _ => finish_effect info job st res code recovered d d'
  | Err ErrLeaseLost => d' = d
  | Err _ => d' = d \/ finish_effect info job st res code recovered d d'
  end.

Lemma twp_insertEventReceipt {B} job st result code info (k : unit -> WM B) Q db t :
  (forall t', receipt_written (job_ID job) (j_attempt (job_row_of job)) st result code info t t' -> twp (k tt) Q db t') ->
  (forall text t', Q (Err (ErrOther text)) db (Some t')) ->
  twp (insertEventReceipt sha256hex job st result code info ≫= k) Q db t.
Proof.
  intros Hk He. apply twp_bind. unfold insertEventReceipt. apply twp_guard; [auto|]. intros _.
  apply twp_rand; [|auto]. intros bs. apply twp_ret_id, twp_exec; [|intros; apply He].
  intros lk now. unfold insert_exec, write. apply twp_ret. eexists. split; [done|]. apply Hk.
  destruct (q_execs t !! (job_ID job, j_attempt (job_row_of job))) as [x|] eqn:Hx.
  - left. split; [by rewrite Hx; eexists|done].
  - right. split; [done|]. do 3 eexists. reflexivity.
Qed.

Lemma finish_body_spec info job st result code recovered d :
  twp (finish_body sha256hex info job st result code recovered)
    (fun r d' _ => finish_outcome info job st result code recovered r d d') d d.
Proof.
  unfold finish_body. apply twp_lockCurrentLease; [|done]. intros Hown.
  apply twp_exec; [|intros; done]. intros lk now. simpl. apply twp_guard; [done|]. intros Hm. bool_to_prop.
  destruct (q_jobs d !! job_ID job) as [j|] eqn:Hj; [|done].
  apply twp_exec; [|intros; left; done]. intros lk1 now1. unfold update_job. rewrite Hj.
  set (d1 := set_jobs _ d).
  assert (j_attempt j = j_attempt (job_row_of job)) as Ha by (unfold may_finish in Hm; by bool_to_prop).
  assert (forall d', (if bool_decide (st = Interrupted) then d' = d1
            else receipt_written (job_ID job) (j_attempt j) st result code info d1 d') ->
    twp (commit (ErrOther "job finish commit failed") ≫= fun _ => mret tt)
      (fun r d' _ => finish_outcome info job st result code recovered r d d') d d') as Hcommit.
  { intros d' Hd'. assert (finish_effect info job st result code recovered d d') as Heff.
    { split; [done|]. exists j, (pg_time now1). done. }
    apply twp_commit; simpl; auto. }
  case_bool_decide as Hst.
  - apply twp_bind, twp_ret. exists d1. split; [done|]. by apply Hcommit.
  - apply twp_insertEventReceipt; [|intros; left; done]. intros t' Ht'. apply Hcommit. by rewrite Ha.
Qed.

Lemma receipt_written_evolves id a st result code info d d' j :
  q_jobs d !! id = Some j -> a <= j_attempt j -> receipt_written id a st result code info d d' -> q_evolves d d'.
Proof.
  intros Hj Ha [(_ & ->)|(Hx & digest & inst & now & ->)]; [reflexivity|]. by eapply q_evolves_new_exec.
Qed.

(** A job that is not terminal is moved out of the queue by its worker. *)
Lemma finish_job_evolves d id j st result code g now :
  q_jobs d !! id = Some j -> jterminal (j_state j) = false -> st <> Running ->
  q_evolves d (set_jobs (<[id := finish_job st result code g now j]> (q_jobs d)) d).
Proof.
  intros Hj Ht Hst. eapply q_evolves_job; [done|..].
  - split_and!; [done|simpl; lia|congruence].
  - intros Ha. simpl. split; [lia|congruence].
  - simpl. congruence.
Qed.

Lemma may_finish_open recovered job info j :
  may_finish recovered job info (Some j) = true -> jterminal (j_state j) = false.
Proof.
  unfold may_finish, is_running. destruct (j_state j); try done;
    destruct (_ =? _), recovered; simpl; done.
Qed.

Lemma finish_effect_evolves info job st result code recovered d d' :
  st <> Running -> finish_effect info job st result code recovered d d' -> q_evolves d d'.
Proof.
  intros Hst (_ & j & now & Hj & Hm & Hd'). apply may_finish_open in Hm.
  cbv zeta in Hd'. set (d1 := set_jobs _ d) in Hd'.
  assert (q_evolves d d1) as H1 by (by apply finish_job_evolves).
  transitivity d1; [done|]. case_bool_decide; [rewrite Hd'; reflexivity|].
  eapply (receipt_written_evolves (job_ID job) (j_attempt j)); [..|exact Hd'].
  - unfold d1. simpl. by rewrite lookup_insert_eq.
  - simpl. lia.
Qed.

Lemma finish_state_not_running state st : finish_state state = Some st -> st <> Running.
Proof.
  unfold finish_state. repeat case_match; congruence.
Qed.

Lemma finish_evolves s job state result code recovered :
  keeps q_evolves (finish sha256hex s job state result code recovered).
Proof.
  unfold finish. destruct (finish_state state) as [st|] eqn:Hst; [|apply keeps_raise].
  apply finish_state_not_running in Hst. apply keeps_bind; [apply keeps_guard|]. intros _.
  apply keeps_with_tx_twp; [apply _|]. intros d. eapply twp_mono; [apply finish_body_spec|].
  intros r d' tx' Ho. cbv beta in Ho.
  assert (d' = d \/ exists res, finish_effect (Info s) job st res code recovered d d') as [-> | [res He]]
    by (destruct r as [[]|[]]; simpl in Ho; naive_solver).
  - reflexivity.
  - by eapply finish_effect_evolves.
Qed.

(** *** Retention and recovery *)

Definition prune_effect (info : LeaseInfo) (retention batch n : Z) (d d' : qtables) : Prop :=
  owns_lease info d /\ exists now ids, n = Z.of_nat (length ids) /\ n <= batch /\ NoDup ids /\
    (forall id, id ∈ ids -> exists j, q_jobs d !! id = Some j /\ prunable d now retention id j = true) /\
    d' = delete_jobs ids d.

Definition prune_outcome (info : LeaseInfo) (retention batch : Z) (r : result worker_error Z) (d d' : qtables) : Prop :=
  match r with
  | Ok n => prune_effect info retention batch n d d'
  | Err ErrLeaseLost => d' = d
  | Err _ => d' = d \/ exists n, prune_effect info retention batch n d d'
  end.

Lemma prune_body_spec info retention batch d :
  twp (prune_body info retention batch) (fun r d' _ => prune_outcome info retention batch r d d') d d.
Proof.
  unfold prune_body. apply twp_lockCurrentLease; [|done]. intros Hown.
  apply twp_exec; [|intros; left; done]. intros lk now. unfold prune_jobs, find_job.
  destruct (limit_rows batch _) as [rows|e] eqn:Hsel; [|left; done].
  apply selected_rows in Hsel as (Hnd & Hrows & Hlen).
  assert (prune_effect info retention batch (Z.of_nat (length rows.*1)) d (delete_jobs rows.*1 d)) as He.
  { split; [done|]. exists (pg_time now), rows.*1. rewrite length_fmap. split_and!; try done.
    intros id ([k j] & -> & Hin)%list_elem_of_fmap. destruct (Hrows k j Hin) as [Hj Hp]. simpl in *.
    bool_to_prop. eauto. }
  apply twp_commit; simpl; eauto.
Qed.

Lemma prunable_state d now retention id j :
  prunable d now retention id j = true -> j_state j = Succeeded \/ j_state j = Failed.
Proof. unfold prunable. intros Hp. by bool_to_prop. Qed.

Lemma prune_effect_evolves info retention batch n d d' :
  prune_effect info retention batch n d d' -> q_evolves d d'.
Proof.
  intros (_ & now & ids & _ & _ & _ & Hids & ->). apply q_evolves_delete. intros id j Hin Hj.
  destruct (Hids id Hin) as (j' & Hj' & Hp). assert (j' = j) as -> by congruence.
  apply prunable_state in Hp. destruct Hp; congruence.
Qed.

Lemma Prune_evolves s retention batch : keeps q_evolves (Prune s retention batch).
Proof.
  apply keeps_with_tx_twp; [apply _|]. intros d. eapply twp_mono; [apply prune_body_spec|].
  intros r d' tx' Ho. cbv beta in Ho.
  assert (d' = d \/ exists n, prune_effect (Info s) retention batch n d d') as [-> | [n He]]
    by (destruct r as [n|[]]; simpl in Ho; naive_solver).
  - reflexivity.
  - by eapply prune_effect_evolves.
Qed.
End FinishProofs.

(** *** Exhausted jobs *)

Section ExhaustProofs.
Context `{Postgres} (sha256hex : string -> string).

Definition exhausted_code : option string := Some "worker_recovery_exhausted".

(** What failing the exhausted jobs [pre] has done. *)
Record failed_all (info : LeaseInfo) (pre : list (string * job_row)) (d t : qtables) : Prop := {
  fa_evolves : q_evolves d t;
  fa_each : forall k j, (k, j) ∈ pre -> exists now,
    q_jobs t !! k = Some (finish_job Failed incomplete exhausted_code (li_Generation info) now j) /\
    is_Some (q_execs t !! (k, j_attempt j));
  fa_others : forall k, k ∉ pre.*1 -> q_jobs t !! k = q_jobs d !! k;
}.

Lemma fail_one_spec info pre k j d t db (Q : result worker_error unit -> qtables -> option qtables -> Prop) :
  failed_all info pre d t -> k ∉ pre.*1 -> q_jobs d !! k = Some j -> jterminal (j_state j) = false ->
  (forall t', failed_all info (pre ++ [(k, j)]) d t' -> Q (Ok tt) db (Some t')) ->
  (forall text t', Q (Err (ErrOther text)) db (Some t')) ->
  twp (fail_one sha256hex info (k, j)) Q db t.
Proof.
  intros [F1 F2 F3] Hk Hj Hopen Hok Herr. unfold fail_one. apply twp_exec; [|intros; apply Herr].
  intros lk now. assert (q_jobs t !! k = Some j) as Ht by (by rewrite F3).
  unfold update_job. simpl. rewrite Ht. set (t1 := set_jobs _ t).
  apply twp_ret_id, twp_insertEventReceipt; [|apply Herr]. intros t' Hw. simpl in Hw. apply twp_ret, Hok.
  assert (q_evolves t t1) as E1 by (by apply finish_job_evolves).
  assert (q_jobs t1 !! k = Some (finish_job Failed incomplete exhausted_code (li_Generation info) (pg_time now) j)) as Hk1.
  { unfold t1. simpl. by rewrite lookup_insert_eq. }
  assert (q_evolves t1 t') as E2 by (eapply (receipt_written_evolves k (j_attempt j)); [exact Hk1|simpl; lia|exact Hw]).
  assert (q_jobs t' = q_jobs t1 /\ is_Some (q_execs t' !! (k, j_attempt j)) /\
          forall key, is_Some (q_execs t !! key) -> is_Some (q_execs t' !! key)) as (J1 & J2 & J3).
  { destruct Hw as [(Hs & ->)|(_ & dg & ins & n & ->)]; simpl.
    - done.
    - split_and!; [done|rewrite lookup_insert_eq; eauto|]. intros key Hkey.
      apply lookup_insert_is_Some'. by right. }
  constructor.
  - transitivity t; [done|]. by transitivity t1.
  - intros k' j' [Hin|[= -> ->]%list_elem_of_singleton]%elem_of_app.
    + destruct (F2 k' j' Hin) as (n & H1 & H2). exists n. split; [|by apply J3].
      rewrite J1. unfold t1. simpl. rewrite lookup_insert_ne; [done|]. intros ->. apply Hk, list_elem_of_fmap. by exists (k', j').
    + exists (pg_time now). rewrite J1. done.
  - intros k' Hk'. rewrite fmap_app in Hk'. rewrite J1. unfold t1. simpl.
    rewrite lookup_insert_ne by set_solver. apply F3. set_solver.
Qed.

Definition exhaust_effect (info : LeaseInfo) (maxAttempts batch n : Z) (d d' : qtables) : Prop :=
  owns_lease info d /\ exists rows, n = Z.of_nat (length rows) /\ n <= batch /\ NoDup rows.*1 /\
    (forall k j, (k, j) ∈ rows -> q_jobs d !! k = Some j /\ exhausted maxAttempts j = true) /\
    failed_all info rows d d'.

Definition exhaust_outcome (info : LeaseInfo) (maxAttempts batch : Z) (r : result worker_error Z) (d d' : qtables) : Prop :=
  match r with
  | Ok n => exhaust_effect info maxAttempts batch n d d'
  | Err ErrLeaseLost => d' = d
  | Err _ => d' = d \/ exists n, exhaust_effect info maxAttempts batch n d d'
  end.

Lemma exhaust_body_spec info maxAttempts batch d :
  twp (exhaust_body sha256hex info maxAttempts batch) (fun r d' _ => exhaust_outcome info maxAttempts batch r d d') d d.
Proof.
  unfold exhaust_body. apply twp_lockCurrentLease; [|done]. intros Hown.
  apply twp_exec; [|intros; left; done]. intros lk now. unfold select_jobs.
  destruct (limit_rows batch _) as [rows|e] eqn:Hsel; [|left; done].
  apply selected_rows in Hsel as (Hnd & Hrows & Hlen).
  assert (forall k j, (k, j) ∈ rows -> q_jobs d !! k = Some j /\ exhausted maxAttempts j = true) as Hin.
  { intros k j Hkj. destruct (Hrows k j Hkj) as [Hj Hp]. simpl in Hp. bool_to_prop. done. }
  apply (twp_for_each (fun rest t => exists pre, rows = pre ++ rest /\ failed_all info pre d t)).
  - intros [k j] rest t (pre & -> & F). destruct (Hin k j) as [Hj Hx]; [set_solver|].
    apply (fail_one_spec info pre k j d t); [done| |done| |..].
    + rewrite fmap_app in Hnd. apply NoDup_app in Hnd as (_ & Hnd & _). intros Hi. apply (Hnd _ Hi). simpl. left.
    + unfold exhausted in Hx. bool_to_prop. by rewrite H0.
    + intros t' F'. split; [done|]. eexists. split; [done|]. exists (pre ++ [(k, j)]). by rewrite <- app_assoc.
    + intros text t'. simpl. auto.
  - exists []. split; [done|]. constructor; [reflexivity|by intros ? ? []%elem_of_nil|done].
  - intros t (pre & Hpre & F). rewrite app_nil_r in Hpre. subst pre.
    assert (exhaust_effect info maxAttempts batch (Z.of_nat (length rows)) d t) by (split; [done|]; eauto 10).
    apply twp_commit; simpl; eauto.
Qed.

Lemma FailExhaustedInterrupted_evolves s maxAttempts batch :
  keeps q_evolves (FailExhaustedInterrupted sha256hex s maxAttempts batch).
Proof.
  apply keeps_with_tx_twp; [apply _|]. intros d. eapply twp_mono; [apply exhaust_body_spec|].
  intros r d' tx' Ho. cbv beta in Ho.
  assert (d' = d \/ exists n, exhaust_effect (Info s) maxAttempts batch n d d') as [-> | (n & _ & rows & _ & _ & _ & _ & F)]
    by (destruct r as [n|[]]; simpl in Ho; naive_solver).
  - reflexivity.
  - apply (fa_evolves _ _ _ _ F).
Qed.
End ExhaustProofs.

(** ** Histories *)

Lemma guard_pass {A} e (k : unit -> WM A) w : (guard_m false e ≫= k) w = k tt w.
Proof. reflexivity. Qed.

(** The calls a worker process makes, with the arguments it makes them with. *)
Inductive wrequest :=
| WAcquire (pid : Z)
| WHeartbeat
| WRelease
| WClaim (maxAttempts : Z)
| WActiveJobs
| WTerminalJobs (limit : Z)
| WFinish (job : Job) (state : string) (result : gomap) (code : option string) (recovered : bool)
| WPrune (retention batch : Z)
| WFailExhausted (maxAttempts batch : Z)
| WDatabaseNow
| WHealth.

Section Histories.
Context `{Postgres} (sha256hex : string -> string).
Context (serbian_admission viber_admission : option (stmt qtables unit)).

Definition keep_store {A} (s : Store) (m : WM A) : WM Store := _ ← try m; mret s.

Definition wstep (r : wrequest) (s : Store) : WM Store :=
  match r with
  | WAcquire pid => x ← Acquire s pid; mret x.2
  | WHeartbeat => x ← Heartbeat s; mret x.2
  | WRelease => x ← Release s; mret x.2
  | WClaim maxAttempts => keep_store s (Claim serbian_admission viber_admission s maxAttempts)
  | WActiveJobs => keep_store s ActiveJobs
  | WTerminalJobs limit => keep_store s (TerminalJobsNeedingEvents limit)
  | WFinish job state result code recovered => keep_store s (finish sha256hex s job state result code recovered)
  | WPrune retention batch => keep_store s (Prune s retention batch)
  | WFailExhausted maxAttempts batch => keep_store s (FailExhaustedInterrupted sha256hex s maxAttempts batch)
  | WDatabaseNow => keep_store s DatabaseNow
  | WHealth => keep_store s CheckWorkerHealth
  end.

Fixpoint wrun (rs : list wrequest) (s : Store) : WM Store :=
  match rs with
  | [] => mret s
  | r :: rs' => s' ← wstep r s; wrun rs' s'
  end.

Lemma wstep_evolves r s :
  (forall f, serbian_admission = Some f -> forall lk now d, admitted d (f lk now d).2) ->
  (forall f, viber_admission = Some f -> forall lk now d, admitted d (f lk now d).2) ->
  keeps q_evolves (wstep r s).
Proof.
  intros Hs Hv.
  assert (forall A (m : WM A), keeps q_evolves m -> keeps q_evolves (keep_store s m)) as Hi.
  { intros A m Hm. apply keeps_bind; [by apply keeps_try|]. intros. apply keeps_ret. }
  destruct r; simpl; try (apply keeps_bind; [|intros; apply keeps_ret];
    auto using Acquire_evolves, Heartbeat_evolves, Release_evolves; fail); apply Hi;
    auto using finish_evolves, Prune_evolves, FailExhaustedInterrupted_evolves.
  - by apply job_claim_evolves.
  - apply keeps_read, _.
  - apply keeps_bind; [|intros; apply keeps_ret]. apply keeps_exec; [apply _|]. intros; reflexivity.
  - apply keeps_read, _.
  - apply keeps_bind; [apply keeps_read, _|]. intros [[g [o|] [p|] [hb|] []]|]; try apply keeps_raise.
    apply keeps_bind; [apply keeps_guard|]. intros _. apply keeps_bind; [apply keeps_read, _|]. intros; apply keeps_guard.
Qed.

(** The job queue under any history of worker calls.  Whatever calls a worker
    process makes, with whatever failures and interleaved with other workers
    and executors that keep the same relation: at most one job is running; a
    running job has an owner generation and a counted attempt; attempts and
    worker generations never decrease; a job that succeeded, failed or whose
    delivery outcome is unknown never changes again, and one with an unknown
    outcome is never pruned; receipts only move forward and terminal ones keep
    their outcome. *)
Theorem queue_history_safe rs s w :
  (forall f, serbian_admission = Some f -> forall lk now d, admitted d (f lk now d).2) ->
  (forall f, viber_admission = Some f -> forall lk now d, admitted d (f lk now d).2) ->
  w_tx w = None -> rely q_evolves (w_env w) ->
  q_evolves (w_db w) (w_db (wrun rs s w).2).
Proof.
  intros Hs Hv Htx Hr. apply keeps_sound; [apply _| |done|done]. clear w Htx Hr. revert s.
  induction rs as [|r rs IH]; intros s; simpl; [apply keeps_ret|].
  apply keeps_bind; [by apply wstep_evolves|]. intros s'. apply IH.
Qed.

(** Claiming.  A claim that returns a job was made by the current worker while
    no job was running; it is the unlocked claimable job with the least queue
    position, queued or interrupted with attempts left, admissions included; it
    is now running, owned by this worker's generation, with one more attempt,
    and nothing else changed.  While a job runs, a claim returns none. *)
Theorem Claim_exact s maxAttempts w :
  (forall f, serbian_admission = Some f -> forall lk now d, admitted d (f lk now d).2) ->
  (forall f, viber_admission = Some f -> forall lk now d, admitted d (f lk now d).2) ->
  w_tx w = None ->
  claim_outcome (Info s) maxAttempts (Claim serbian_admission viber_admission s maxAttempts w).1 (found w)
    (w_db (Claim serbian_admission viber_admission s maxAttempts w).2).
Proof.
  intros Hs Hv Htx. apply (with_tx_spec _ _ (fun r => claim_outcome (Info s) maxAttempts r (found w)));
    [done|left; done|]. by apply job_claim_spec.
Qed.

(** Finishing is fenced.  Finish and FinishRecovered write only for the
    current worker, to a job whose row still has the attempt being finished and
    is running (or interrupted, when recovering), and, unless recovering, is
    owned by this generation; they then set the state, result and error and, for
    every terminal state, make sure the attempt has a completion receipt, in
    one transaction.  A stale caller gets ErrLeaseLost and nothing is written. *)
Theorem finish_fenced s job state st res code recovered w :
  finish_state state = Some st -> len (marshal (json_of_map res)) <= 4096 -> is_Some res -> w_tx w = None ->
  finish_outcome (Info s) job st (json_of_map res) code recovered
    (finish sha256hex s job state res code recovered w).1 (found w)
    (w_db (finish sha256hex s job state res code recovered w).2).
Proof.
  intros Hst Hlen [l ->] Htx. unfold finish. rewrite Hst.
  replace (4096 <? len (marshal (json_of_map (Some l)))) with false by (symmetry; by apply Z.ltb_ge).
  rewrite guard_pass.
  apply (with_tx_spec _ _ (fun r => finish_outcome (Info s) job st (json_of_map (Some l)) code recovered r (found w)));
    [done|left; done|]. apply finish_body_spec.
Qed.

(** a worker that is not the current one changes nothing.  When the database
    does not say that this store's owner, generation and backend are running
    with a fresh heartbeat and the advisory lock, every Claim, Finish, Prune and
    recovery pass of the store fails and leaves the tables exactly as found. *)
Theorem stale_worker_changes_nothing s r w :
  (forall f, serbian_admission = Some f -> forall lk now d, admitted d (f lk now d).2) ->
  (forall f, viber_admission = Some f -> forall lk now d, admitted d (f lk now d).2) ->
  w_tx w = None -> ~ owns_lease (Info s) (found w) ->
  (let '(x, w') := Claim serbian_admission viber_admission s r w in is_ok x = false /\ w_db w' = found w) /\
  (let '(x, w') := Prune s r r w in is_ok x = false /\ w_db w' = found w) /\
  (let '(x, w') := FailExhaustedInterrupted sha256hex s r r w in is_ok x = false /\ w_db w' = found w) /\
  (forall job state res code recovered,
     let '(x, w') := finish sha256hex s job state res code recovered w in
     is_ok x = false /\ (w' = w \/ w_db w' = found w)).
Proof.
  intros Hs Hv Htx Hn. split_and!.
  - pose proof (with_tx_spec (ErrOther "database unavailable") (claim_body serbian_admission viber_admission (Info s) r)
      (fun x => claim_outcome (Info s) r x (found w)) w Htx) as Ho. unfold Claim.
    destruct (with_tx _ _ w) as [x w']. specialize (Ho (or_introl eq_refl) (job_claim_spec _ _ Hs Hv _ _ _)).
    destruct x as [job|[]]; simpl in *; try (destruct Ho as [?|(? & _)]; done);
      [by destruct Ho as (? & ? & ? & ? & ? & ? & _)|done|by destruct Ho].
  - pose proof (with_tx_spec (ErrOther "retention transaction unavailable") (prune_body (Info s) r r)
      (fun x => prune_outcome (Info s) r r x (found w)) w Htx) as Ho. unfold Prune.
    destruct (with_tx _ _ w) as [x w']. specialize (Ho (or_introl eq_refl) (prune_body_spec _ _ _ _)).
    destruct x as [n|[]]; simpl in *; try (destruct Ho as [?|(? & ? & _)]; done); [by destruct Ho|done].
  - pose proof (with_tx_spec (ErrOther "recovery transaction unavailable") (exhaust_body sha256hex (Info s) r r)
      (fun x => exhaust_outcome (Info s) r r x (found w)) w Htx) as Ho. unfold FailExhaustedInterrupted.
    destruct (with_tx _ _ w) as [x w']. specialize (Ho (or_introl eq_refl) (exhaust_body_spec _ _ _ _ _)).
    destruct x as [n|[]]; simpl in *; try (destruct Ho as [?|(? & ? & _)]; done); [by destruct Ho|done].
  - intros job state res code recovered. unfold finish. destruct (finish_state state) as [st|]; [|simpl; auto].
    destruct (4096 <? _); [simpl; auto|]. rewrite guard_pass.
    match goal with |- context [finish_body _ _ _ _ ?b] => set (body := b) end.
    pose proof (with_tx_spec (ErrOther "job finish transaction unavailable")
      (finish_body sha256hex (Info s) job st body code recovered)
      (fun x => finish_outcome (Info s) job st body code recovered x (found w)) w Htx) as Ho.
    destruct (with_tx _ _ w) as [x w']. specialize (Ho (or_introl eq_refl) (finish_body_spec _ _ _ _ _ _ _ _)).
    destruct x as [[]|[]]; simpl in *; try (destruct Ho as [?|(? & _)]; auto; done); [by destruct Ho|auto].
Qed.
End Histories.

(** ** The lease of one worker process *)

(** A store whose lease is gone for good. *)
Definition spent (s : Store) : Prop := s_conn s = None /\ s_closed s = true /\ Info s = MkLeaseInfo "" 0 0.

Lemma with_tx_errors {A} e (m : WM A) (P : worker_error -> Prop) w x :
  P e -> (forall d, twp m (fun r _ _ => forall y, r = Err y -> P y) d d) -> (with_tx e m w).1 = Err x -> P x.
Proof.
  intros He Hm. unfold with_tx, mbind, M_bind, begin_tx. destruct (next_event w) as [ev w1].
  destruct (ev_fault ev); simpl; [|by intros [= <-]..].
  destruct (Hm (w_db w1) (set_tx (Some (w_db w1)) w1) eq_refl eq_refl) as [Hr _].
  destruct (m _) as [r w2]. apply Hr.
Qed.

Lemma closeConn_ok pid w : exists w', closeConn pid w = (Ok tt, w').
Proof.
  unfold closeConn, mbind, M_bind, try_exec. destruct (next_event w) as [ev w1].
  destruct (release_lock _ _ _ _) as [r d]. destruct (ev_fault ev); eauto.
Qed.

Lemma Heartbeat_cases s w :
  ((s_conn s = None \/ s_closed s = true) /\ Heartbeat s w = (Ok (Err ErrLeaseLost, s), w)) \/
  exists w', Heartbeat s w = (Ok (Ok tt, s), w') \/
    exists e s', Heartbeat s w = (Ok (Err e, s'), w') /\ is_lease_lost e = true /\ spent s'.
Proof.
  unfold Heartbeat. destruct (s_conn s) as [pid|] eqn:Hpid; [|left; auto].
  destruct (s_closed s); [left; auto|]. right. rewrite bool_decide_eq_true_2 by eauto. cbn [negb orb].
  unfold mbind, M_bind, try.
  pose proof (fun x => with_tx_errors (ErrHeartbeat "begin" "other") (heartbeat_body (Info s)) (fun y => is_lease_lost y = true) w x) as Hx.
  destruct (with_tx _ _ w) as [[[]|x] w1]; [eauto|].
  specialize (Hx x eq_refl).
  destruct (closeConn_ok pid w1) as [w2 Hc].
  assert (invalidate s w1 = (Ok (MkStore None "" 0 0 true), w2)) as Hi
    by (unfold invalidate, mbind, M_bind; rewrite Hpid; by rewrite Hc).
  exists w2. right. exists x, (MkStore None "" 0 0 true). unfold mbind, M_bind. rewrite Hi.
  split_and!; [done| |done]. apply Hx; [|done]. intros d.
  apply twp_exec; [|by intros ? ? [= <-]]. intros lk now.
  destruct (beat _ lk now _) as [[n|?] t]; [|by intros ? [= <-]].
  apply twp_guard; [by intros ? [= <-]|]. intros _. apply twp_commit; by intros ? [= <-].
Qed.

(** A failed heartbeat is final.  Whatever goes wrong with it (a driver error
    at begin, update or commit, or a row that is no longer this worker's), the
    error is a lost lease and, if the store held a connection, the store is
    spent: no later Acquire gives it a lease again, and no operation of it that
    needs the lease does anything. *)
Theorem Heartbeat_failure_final `{Postgres} sha256hex serbian viber s w e s' w' :
  Heartbeat s w = (Ok (Err e, s'), w') ->
  is_lease_lost e = true /\
  ((s' = s /\ w' = w /\ (s_conn s = None \/ s_closed s = true)) \/
   (spent s' /\ forall v,
     (forall pid, exists text, Acquire s' pid v = (Ok (Err (ErrOther text), s'), v)) /\
     Heartbeat s' v = (Ok (Err ErrLeaseLost, s'), v) /\
     (forall n, is_ok (Claim serbian viber s' n v).1 = false) /\
     (forall n b, is_ok (Prune s' n b v).1 = false) /\
     (forall job st res code recovered, is_ok (finish sha256hex s' job st res code recovered v).1 = false))).
Proof.
  intros Hh. destruct (Heartbeat_cases s w) as [[Hc E]|(w1 & [E|(e1 & s1 & E & He & Hs)])]; rewrite E in Hh; simplify_eq.
  - split; [done|]. left. done.
  - split; [done|]. right. split; [done|]. intros v.
    destruct s' as [c o g p cl]. destruct Hs as (H1 & H2 & H3). simpl in *. unfold Info in H3. simplify_eq/=.
    assert (forall A (k : LeaseInfo -> WM A) u, (lockCurrentLease (MkLeaseInfo "" 0 0) ≫= k) u = (Err ErrLeaseLost, u)) as Hl
      by reflexivity.
    assert (forall A e (m : WM A), (forall u, is_ok (m u).1 = false) -> is_ok (with_tx e m v).1 = false) as Htx.
    { intros A e0 m Hm. unfold with_tx, mbind, M_bind, begin_tx. destruct (next_event v) as [ev v1].
      destruct (ev_fault ev); simpl; [|done..]. specialize (Hm (set_tx (Some (w_db v1)) v1)). by destruct (m _). }
    split_and!; [by eexists|done|..]; intros.
    + apply Htx. intros u. unfold claim_body, mbind at 1, M_bind at 1.
      destruct (exec _ _ u) as [[?|?] u1]; [|done]. by rewrite Hl.
    + apply Htx. intros u. unfold prune_body. by rewrite Hl.
    + unfold finish. destruct (finish_state st); [|done]. destruct (4096 <? _); [done|]. rewrite guard_pass.
      apply Htx. intros u. unfold finish_body. by rewrite Hl.
Qed.

(** What a successful Acquire has done. *)
Definition acquired (s : Store) (pid : Z) (info : LeaseInfo) (s' : Store) (d d' : qtables) : Prop :=
  s_conn s = None /\ s_closed s = false /\ q_worker_lock d = None /\
  exists st now, q_status d = Some st /\
    info = MkLeaseInfo (li_OwnerID info) (ws_generation st + 1) pid /\
    s' = MkStore (Some pid) (li_OwnerID info) (ws_generation st + 1) pid false /\
    d' = set_status (Some (StatusRow (ws_generation st + 1) (Some (li_OwnerID info)) (Some pid) (Some now) true))
           (set_worker_lock (Some pid) d).

Definition acquire_outcome (s : Store) (pid : Z) (d : qtables) (r : result worker_error (result worker_error LeaseInfo * Store))
    (d' : qtables) : Prop :=
  match r with
  | Ok (Ok info, s') => acquired s pid info s' d d'
  | Ok (Err ErrLeaseHeld, s') => s' = s /\ is_Some (q_worker_lock d) /\ leases_only d d'
  | Ok (Err _, s') => s' = s /\ leases_only d d'
  | Err _ => False
  end.

Lemma leases_only_refl d : leases_only d d.
Proof. split_and!; eauto with news. Qed.
Lemma leases_only_trans a b c : leases_only a b -> leases_only b c -> leases_only a c.
Proof.
  intros (A1 & A2 & A3 & A4) (B1 & B2 & B3 & B4). split_and!; [congruence..|].
  intros s Hs. destruct (A4 s Hs) as (s1 & Hs1 & L1). destruct (B4 s1 Hs1) as (s2 & Hs2 & L2). exists s2. split; [done|lia].
Qed.
#[local] Hint Resolve leases_only_refl : news.
Lemma lock_leases l d : leases_only d (set_worker_lock l d).
Proof. split_and!; simpl; eauto with news. Qed.

Lemma qwp_closeConn {A} pid (x : A) (Q : result worker_error A -> qtables -> Prop) d :
  (forall d', leases_only d d' -> Q (Ok x) d') -> qwp (_ ← closeConn pid; mret x) Q d.
Proof.
  intros HQ. apply qwp_bind, qwp_bind, qwp_try_exec.
  - intros lk now. unfold release_lock. case_bool_decide; split; apply qwp_ret, qwp_ret, HQ;
      auto using lock_leases with news.
  - apply qwp_ret, qwp_ret, HQ. auto with news.
Qed.

Lemma updateOwner_spec owner pid d :
  qwp (with_tx (ErrOther "begin") (
    generation ← updateOwner owner pid; _ ← commit (ErrOther "commit"); mret generation))
    (fun r d' => match r with
       | Ok g => exists st now, q_status d = Some st /\ g = ws_generation st + 1 /\
           d' = set_status (Some (StatusRow g (Some owner) (Some pid) (Some now) true)) d
       | Err _ => leases_only d d'
       end) d.
Proof.
  apply qwp_with_tx; [|auto with news]. apply twp_bind. apply twp_exec; [|intros; auto with news].
  intros lk now. pose proof (take_ownership_leases owner pid lk now d) as Hl.
  unfold take_ownership in *. destruct (q_status d) as [st|] eqn:Hst; simpl in *.
  - apply twp_ret. eexists. split; [done|]. apply twp_commit; [|done|auto with news]. eauto 10.
  - apply twp_raise. auto with news.
Qed.

Lemma Acquire_spec s pid d : qwp (Acquire s pid) (acquire_outcome s pid d) d.
Proof.
  unfold Acquire. destruct (bool_decide _ || s_closed s) eqn:Hbusy; [apply qwp_ret; simpl; auto with news|].
  apply orb_false_iff in Hbusy as [Hconn Hclosed]. apply bool_decide_eq_false, eq_None_not_Some in Hconn.
  assert (forall text d1, leases_only d d1 ->
    qwp (_ ← closeConn pid; mret (Err (ErrOther text) : result worker_error LeaseInfo, s)) (acquire_outcome s pid d) d1) as Hfail.
  { intros text d1 H1. apply qwp_closeConn. intros d2 H2. split; [done|]. exact (leases_only_trans _ _ _ H1 H2). }
  apply qwp_bind, qwp_try_exec; [intros lk now; split|]; [|apply qwp_ret; simpl; auto with news..].
  apply qwp_bind, qwp_try_exec; [|auto with news]. intros lk1 now1.
  unfold try_lock. destruct (q_worker_lock d) as [held|] eqn:Hlock.
  { split; [|auto with news]. apply qwp_closeConn. intros d' H'. split_and!; [done|by eexists|done]. }
  set (d1 := set_worker_lock (Some pid) d). assert (leases_only d d1) as H1 by apply lock_leases.
  split; [|auto]. apply qwp_bind, qwp_try_exec; [intros lk2 now2; split|]; [|auto..].
  apply qwp_bind, qwp_try, qwp_bind, qwp_rand; [|auto]. intros bs. apply qwp_ret.
  apply qwp_bind, qwp_try. eapply qwp_mono; [apply updateOwner_spec|]. intros [g|e] d2; simpl.
  - intros (st & hb & Hst & -> & ->). apply qwp_ret. rewrite Hclosed. split_and!; try done. by exists st, hb.
  - intros H2. assert (leases_only d d2) as H3 by (exact (leases_only_trans _ _ _ H1 H2)).
    apply qwp_bind, qwp_try_exec; [|auto]. intros lk3 now3. unfold release_lock.
    case_bool_decide; split; apply Hfail; try done; (eapply leases_only_trans; [exact H3|apply lock_leases]).
Qed.

(** the lease is exclusive.  While no other session interferes, Acquire
    succeeds only when no backend holds the advisory lock; it then holds the
    lock with its own backend, has raised the generation by exactly one and is
    recorded as the running owner with a heartbeat, so that every earlier
    worker's fence fails.  ErrLeaseHeld means another backend has the lock, and
    no failure touches jobs or receipts or gives the store a lease. *)
Theorem Acquire_exclusive s pid w :
  w_tx w = None -> calm (w_env w) ->
  acquire_outcome s pid (w_db w) (Acquire s pid w).1 (w_db (Acquire s pid w).2) /\
  forall info s', (Acquire s pid w).1 = Ok (Ok info, s') ->
    forall old, owns_lease old (w_db (Acquire s pid w).2) -> li_Generation old = li_Generation info.
Proof.
  intros Htx Hc. destruct (Acquire_spec s pid (w_db w) w eq_refl Htx Hc) as (Ho & _). split; [exact Ho|].
  intros info s' E old (_ & _ & _ & hb & now & Hst & _). rewrite E in Ho.
  destruct Ho as (_ & _ & _ & st & now' & _ & Hi & _ & Hd). rewrite Hd in Hst. simpl in Hst.
  rewrite Hi. simpl. congruence.
Qed.

(** Retention.  Prune runs only for the current worker and removes at most
    one batch of jobs, all of them succeeded or failed, finished longer ago than
    the retention, and without a completion event still to apply; with each of
    them go its receipts, and nothing else changes. *)
Theorem Prune_exact s retention batch w :
  w_tx w = None ->
  prune_outcome (Info s) retention batch (Prune s retention batch w).1 (found w)
    (w_db (Prune s retention batch w).2).
Proof.
  intros Htx. apply (with_tx_spec _ _ (fun r => prune_outcome (Info s) retention batch r (found w)));
    [done|left; done|apply prune_body_spec].
Qed.

(** ** A concrete history *)

Module QueueSample.
#[export] Instance pg_plain : Postgres :=
  {| jsonb := fun j => j; jsonb_eqb := fun a b => bool_decide (a = b);
     text_leb := String.leb; uuid_leb := String.leb |}.

(** An identity stands for SHA-256, an insert of one job for the admission function. *)
Definition sha (s : string) : string := s.
Definition queued (kind : string) (position : Z) : job_row :=
  JobRow kind (JObj []) None position Queued None 0 0 None None None None None None.
Definition admission : stmt qtables unit := fun _ _ d =>
  match q_jobs d !! "retry" with
  | None => if bool_decide ("retry" ∈ q_retired d) then (Ok tt, d)
            else (Ok tt, set_jobs (<["retry" := queued "editorial_delivery_retry" 9]> (q_jobs d)) d)
  | Some _ => (Ok tt, d)
  end.
Definition admits : option (stmt qtables unit) := Some admission.

Lemma admission_admits f : admits = Some f -> forall lk now d, admitted d (f lk now d).2.
Proof.
  intros [= <-] lk now d. unfold admission. destruct (q_jobs d !! "retry") eqn:Hr; [apply admitted_refl|].
  case_bool_decide as Hret; [apply admitted_refl|]. split_and!; simpl; [|done|done|..].
  - by apply q_evolves_new_job.
  - intros id j Hj. rewrite lookup_insert_ne; congruence.
  - intros id j [[<- <-]|[_ Hj]]%lookup_insert_Some; auto.
Qed.

Definition t0 : Z := 1700000000 * Second.
Definition start : qtables :=
  QTables {["b" := queued "go_retention" 2; "a" := queued "unified_pipeline_run" 1]}
    (Some (StatusRow 4 None None None false)) ∅ None None ∅ ∅.
Definition at_time (d : qtables) (t : Z) : world qtables := World d None t [].
Definition fresh : Store := MkStore None "" 0 0 false.

Definition w_acquired : world qtables := Eval vm_compute in (Acquire fresh 77 (at_time start t0)).2.
Definition store : Store := Eval vm_compute in
  match (Acquire fresh 77 (at_time start t0)).1 with Ok (Ok _, s) => s | _ => fresh end.
Definition w_claimed : world qtables := Eval vm_compute in (Claim admits admits store 3 w_acquired).2.
Definition job : Job := Eval vm_compute in
  match (Claim admits admits store 3 w_acquired).1 with Ok j => j | Err _ => MkJob "" (queued "" 0) end.
Definition w_finished : world qtables := Eval vm_compute in (Finish sha store job "succeeded" (Some []) None w_claimed).2.

Example first_in_line : (job_ID job, j_attempt (job_row_of job), s_generation store) = ("a", 1, 5).
Proof. by_eval. Qed.
End QueueSample.

Import QueueSample.

Lemma queue_history_safe_witness :
  let rs := [WAcquire 77; WHeartbeat; WClaim 3; WFinish job "succeeded" (Some []) None false; WPrune 0 10; WRelease] in
  q_evolves start (w_db (wrun sha admits admits rs fresh (at_time start t0)).2).
Proof.
  intros rs. exact (queue_history_safe sha admits admits rs fresh (at_time start t0) admission_admits admission_admits
    eq_refl (Forall_nil_2 _)).
Defined.

Lemma Claim_exact_witness :
  claim_outcome (Info store) 3 (Ok job) (w_db w_acquired) (w_db w_claimed).
Proof.
  replace (Ok job) with (Claim admits admits store 3 w_acquired).1 by by_eval.
  replace (w_db w_claimed) with (w_db (Claim admits admits store 3 w_acquired).2) by by_eval.
  exact (Claim_exact admits admits store 3 w_acquired admission_admits admission_admits eq_refl).
Defined.

Lemma finish_fenced_witness :
  finish_outcome (Info store) job Succeeded (json_of_map (Some [])) None false (Ok tt) (w_db w_claimed) (w_db w_finished).
Proof.
  assert (len (marshal (json_of_map (Some []))) <= 4096) as Hlen by by vm_compute.
  pose proof (finish_fenced sha store job "succeeded" Succeeded (Some []) None false w_claimed eq_refl Hlen
    ltac:(eauto) eq_refl) as Hf.
  replace (finish sha store job "succeeded" (Some []) None false w_claimed) with (Ok (E:=worker_error) tt, w_finished) in Hf by by_eval.
  exact Hf.
Defined.

Lemma stale_worker_changes_nothing_witness :
  let '(x, w') := Prune fresh 3 3 w_claimed in is_ok x = false /\ w_db w' = w_db w_claimed.
Proof.
  destruct (stale_worker_changes_nothing sha admits admits fresh 3 w_claimed) as (_ & Hp & _);
    [exact admission_admits..|by_eval| |exact Hp]. intros (Hn & _). by apply Hn.
Defined.

(** The heartbeat of a worker whose row was taken over. *)
Definition taken_over : world qtables := Eval vm_compute in
  at_time (set_status (Some (StatusRow 6 (Some "other") (Some 78) (Some t0) true)) (w_db w_acquired)) t0.
Lemma Heartbeat_failure_final_witness :
  let r := Heartbeat store taken_over in
  r.1 = Ok (Err (ErrHeartbeat "update" "lease_mismatch"), MkStore None "" 0 0 true) /\
  is_ok (Claim admits admits (MkStore None "" 0 0 true) 3 r.2).1 = false.
Proof.
  split; [by_eval|].
  destruct (Heartbeat_failure_final sha admits admits store taken_over (ErrHeartbeat "update" "lease_mismatch")
    (MkStore None "" 0 0 true) (Heartbeat store taken_over).2) as [_ [(E & _)|(_ & Hf)]];
    [by_eval|discriminate E|]. apply (Hf (Heartbeat store taken_over).2).
Defined.

Lemma Acquire_exclusive_witness :
  acquire_outcome fresh 77 start (Acquire fresh 77 (at_time start t0)).1 (w_db w_acquired) /\
  s_generation store = ws_generation (StatusRow 4 None None None false) + 1.
Proof. split; [|by_eval]. apply (Acquire_exclusive fresh 77 (at_time start t0)); [done|constructor]. Defined.

Lemma Prune_exact_witness :
  prune_outcome (Info store) 0 10 (Prune store 0 10 w_finished).1 (w_db w_finished) (w_db (Prune store 0 10 w_finished).2).
Proof. apply (Prune_exact store 0 10 w_finished). by_eval. Defined.
