(* ===== verification/Worker.v ===== *)
(** * Worker: go-worker/internal/worker/worker.go

    The worker process: it takes the lease, resolves what an earlier process
    left behind, then claims one job at a time, has the executor run it and
    persists the outcome.

    The process talks to three parties: the queue store (the Go interface
    [QueueStore]), the executor (HTTP) and the runtime (contexts, timers).  A
    worker program is a tree of such calls ([prog]); what the parties answer is
    left to the environment, so theorems about every run of the tree cover
    every answer, failure and timing.  Loops carry fuel; a run that has used it
    up is [Unfinished], a prefix of a longer run, and safety holds of all prefixes.
    [interp] connects the store calls to the operations of [WorkerStore]. *)

From S2P Require Import Prelude JsonStrict GoTime Db GoText GoDecode GoParseTime QueueTables ExecutorClient WorkerStore.

(** ** The calls of the process *)

(** [ctx] of Run, [runCtx], [claimCtx], the context of one attempt, and the
    bounded context of a cleanup. *)
Inductive ctx := ShutdownCtx | RunCtx | ClaimCtx | AttemptCtx | CleanupCtx.

(** The ready branches of the selects of [Run] and of [acquireLeaseWithRetry]. *)
Inductive choice := SelDone | SelLost | SelPrune | SelDefault.
Inductive lease_wait := LeaseDone | LeaseDeadline | LeaseTick (expired : bool).

Inductive call : Type -> Type :=
| CheckSchema : call (result worker_error unit)
| SAcquire : call (result worker_error LeaseInfo)
| SRelease : call (result worker_error unit)
| SHeartbeat : call (result worker_error unit)
| SPrune (retention batch : Z) : call (result worker_error Z)
| SFailExhausted (maxAttempts batch : Z) : call (result worker_error Z)
| SClaim (maxAttempts : Z) : call (result worker_error Job)
| SActiveJobs : call (result worker_error (list Job))
| STerminalJobs (limit : Z) : call (result worker_error (list Job))
| SDatabaseNow : call (result worker_error Z)
| SInfo : call LeaseInfo
| SFinish (recovered : bool) (job : Job) (state : string) (res : gomap) (code : option string) :
    call (result worker_error unit)
| HStatus : call reply
| HPolicy (jobID : string) : call reply
| HAccept (e : Envelope) : call reply
| HReceipt (jobID : string) (attempt : Z) : call reply
| HCancel (jobID : string) (attempt : Z) : call reply
| HFinalized (jobID : string) (attempt : Z) : call reply
| HRecovered (ownerID : string) (generation : Z) : call reply
| CtxErr (c : ctx) : call bool               (* c.Err() != nil *)
| SleepFor (c : ctx) (d : Z) : call bool     (* did the context end first? *)
| BeforeRecovery : call bool                 (* did the hook succeed? *)
| SelectMain : call choice
| SelectLease : call lease_wait
| BeatTick : call bool                       (* a tick, not the end of the context *)
| NotifyLoss : call unit.                    (* cancelRun and close(lost) *)

Inductive prog (A : Type) : Type :=
| Ret (a : A)
| Unfinished
| Vis {X : Type} (c : call X) (k : X -> prog A).
Arguments Ret {A} a.
Arguments Unfinished {A}.
Arguments Vis {A X} c k.

Fixpoint prog_bind {A B} (p : prog A) (f : A -> prog B) : prog B :=
  match p with
  | Ret a => f a
  | Unfinished => Unfinished
  | Vis c k => Vis c (fun x => prog_bind (k x) f)
  end.
#[export] Instance prog_mret : MRet prog := @Ret.
#[export] Instance prog_mbind : MBind prog := fun A B f p => prog_bind p f.

Definition vis {X} (c : call X) : prog X := Vis c Ret.

(** ** Errors of the worker *)

(** Wrapping with [%w] keeps what [errors.Is] and [errors.As] find. *)
Inductive werr :=
| WLeaseLost | WExecutorGone | WExecutorAuth
| WStore (e : worker_error)
| WExec (e : xerror)
| WCtx
| WText (text : string).

(** [errors.Is(err, store.ErrLeaseLost)] *)
Definition store_lease_lost (e : werr) : bool := match e with WStore e => is_lease_lost e | _ => false end.

Definition permanentExecutorError (e : xerror) : bool :=
  match e with HTTPError s => bool_decide (s ∈ [400; 401; 403; 404; 413; 422]) | _ => false end.
Definition executorAuthError (e : xerror) : bool :=
  match e with HTTPError s => (s =? 401) || (s =? 403) | _ => false end.
Definition definitiveJobValidationError (e : xerror) : bool :=
  match e with HTTPError s => s =? 422 | _ => false end.
Definition staleExecutorError (e : xerror) : bool :=
  match e with HTTPError s => s =? 409 | _ => false end.

Definition terminal (state : string) : bool :=
  bool_decide (state ∈ ["succeeded"; "failed"; "interrupted"; "delivery_unknown"]).

Definition sameEnvelope (r : Receipt) (e : Envelope) : bool :=
  (rc_JobID r =? ev_JobID e)%string && (rc_OwnerID r =? ev_OwnerID e)%string &&
  (rc_Generation r =? ev_Generation e) && (rc_AttemptGeneration r =? ev_AttemptGeneration e) &&
  match parse_rfc3339nano (rc_DeadlineAt r) with
  | Some deadline => deadline =? ev_DeadlineAt e
  | None => false
  end.

Definition minDuration (a b : Z) : Z := if (b <=? 0) || (a <? b) then a else b.

(** ** The queue policy *)

(** The Go interface [QueuePolicy]. *)
Class QueuePolicy := {
  policy_KnownKind : string -> bool;
  policy_MayDeliver : string -> json -> bool;
}.

(** go-worker/internal/newsadapter/policy.go *)
Definition KnownKind (kind : string) : bool :=
  bool_decide (kind ∈ ["news_processing"; "news_digest"; "telegram_digest"; "backup"; "reprocess_failed";
    "article_reprocess"; "summaries_generate"; "source_test"; "serbian_digest_retry"; "viber_digest_delivery"]).

Definition MayDeliver (float_text : string -> option string) (kind : string) (raw : json) : bool :=
  if bool_decide (kind ∈ ["telegram_digest"; "serbian_digest_retry"; "viber_digest_delivery"]) then true
  else if negb (kind =? "news_digest")%string then false
  else match go_any float_text raw with
       | Some (JObj payload) => negb (bool_decide (("send_telegram", JBool false) ∈ payload))
       | _ => true
       end.

Definition Adapter (float_text : string -> option string) : QueuePolicy :=
  Build_QueuePolicy KnownKind (MayDeliver float_text).

Record Config := MkConfig {
  cfg_BeforeRecovery : bool;     (* is the hook set? *)
  cfg_PollInterval : Z;
  cfg_JobRetention : Z;
  cfg_MaxJobAttempts : Z;
  cfg_RequestTimeout : Z;
}.

Definition job_attempt (job : Job) : Z := j_attempt (job_row_of job).

Definition warning : gomap := Some [("status", JStr "warning")].
Definition incomplete_result : gomap := Some [("status", JStr "incomplete")].

Definition leaseAcquireWait : Z := 20 * Second.
Definition leaseAcquireInterval : Z := Second.

Definition go_sleep (c : ctx) (d : Z) : prog bool := if d <=? 0 then Ret false else vis (SleepFor c d).

Section Program.
Context `{QueuePolicy} (float_text : string -> option string) (config : Config).

(** ** Outcomes *)

Definition recoveredOutcome (job : Job) : string * gomap * string :=
  if policy_MayDeliver (j_kind (job_row_of job)) (j_payload (job_row_of job)) then
    ("delivery_unknown", warning, "external_outcome_unknown")
  else if cfg_MaxJobAttempts config <=? job_attempt job then
    ("failed", incomplete_result, "worker_recovery_exhausted")
  else ("interrupted", warning, "worker_interrupted").

(** [json.Unmarshal(receipt.Result, &result)], and the default for nil *)
Definition receipt_result (r : Receipt) : option gomap :=
  match rc_Result r with
  | None | Some JNull => Some warning
  | Some j => match go_any float_text j with Some (JObj l) => Some (Some l) | _ => None end
  end.

Definition receipt_code (r : Receipt) : option string :=
  match rc_ErrorCode r with
  | Some c => Some c
  | None => if (rc_State r =? "succeeded")%string then None else Some "worker_error"
  end.

Definition store_err {A} (r : result worker_error A) : result werr A :=
  match r with Ok a => Ok a | Err e => Err (WStore e) end.

Definition persistReceipt (job : Job) (r : Receipt) (recovered : bool) : prog (result werr unit) :=
  if (rc_State r =? "accepted")%string || (rc_State r =? "running")%string then
    Ret (Err (WText "Python execution receipt is still active"))
  else match receipt_result r with
  | None => Ret (Err (WText "Python receipt result is malformed"))
  | Some res =>
      e ← vis (SFinish recovered job (rc_State r) res (receipt_code r));
      match e with
      | Err e => Ret (Err (WStore e))
      | Ok _ =>
          _ ← (if (rc_State r =? "interrupted")%string then Ret None
               else vis (HFinalized (job_ID job) (job_attempt job)));
          Ret (Ok tt)
      end
  end.

Fixpoint finalize_all (jobs : list Job) : prog unit :=
  match jobs with
  | [] => Ret tt
  | job :: jobs' => _ ← vis (HFinalized (job_ID job) (job_attempt job)); finalize_all jobs'
  end.

Definition replayFinalizedEvents : prog (result werr unit) :=
  r ← vis (STerminalJobs 100);
  match r with
  | Err e => Ret (Err (WStore e))
  | Ok jobs => _ ← finalize_all jobs; Ret (Ok tt)
  end.

(** ** Recovery *)

Definition finish_recovered (job : Job) : prog (result werr unit) :=
  let '(state, res, code) := recoveredOutcome job in
  r ← vis (SFinish true job state res (Some code));
  Ret (store_err r).

Definition recoverJob (job : Job) : prog (result werr unit) :=
  let id := job_ID job in let attempt := job_attempt job in
  rep ← vis (HReceipt id attempt);
  match ClientReceipt id attempt rep with
  | Ok receipt =>
      if terminal (rc_State receipt) then persistReceipt job receipt true
      else if (rc_State receipt =? "accepted")%string || (rc_State receipt =? "running")%string then
        srep ← vis HStatus;
        match ClientStatus srep with
        | Err e => Ret (Err (WExec e))
        | Ok status =>
            if (rc_ExecutorInstance receipt =? st_InstanceID status)%string then
              crep ← vis (HCancel id attempt);
              match ClientCancel id attempt crep with
              | Err _ => Ret (Err (WText "previous Python execution is not confirmed stopped"))
              | Ok stopped =>
                  if negb (rc_ExecutionStopped stopped) || negb (rc_CurrentInstance stopped =? st_InstanceID status)%string
                  then Ret (Err (WText "previous Python execution is not confirmed stopped"))
                  else if terminal (rc_State stopped) then persistReceipt job stopped true
                  else finish_recovered job
              end
            else finish_recovered job
        end
      else finish_recovered job
  | Err ErrNotFound => finish_recovered job
  | Err e => Ret (Err (WExec e))
  end.

Fixpoint recover_all (jobs : list Job) : prog (result werr unit) :=
  match jobs with
  | [] => Ret (Ok tt)
  | job :: jobs' =>
      r ← recoverJob job;
      match r with
      | Err e => Ret (Err e)
      | Ok _ => recover_all jobs'
      end
  end.

Definition recoverBeforeClaim : prog (result werr unit) :=
  r ← vis SActiveJobs;
  match r with
  | Err e => Ret (Err (WStore e))
  | Ok jobs => recover_all jobs
  end.

(** ** One attempt *)

Fixpoint cancelUntilResolved (fuel : nat) (job : Job) (envelope : Envelope) : prog (result werr Receipt) :=
  match fuel with
  | O => Unfinished
  | S fuel =>
      let id := job_ID job in let attempt := job_attempt job in
      let again := c ← go_sleep CleanupCtx (cfg_PollInterval config);
                   if (c : bool) then Ret (Err WCtx) else cancelUntilResolved fuel job envelope in
      srep ← vis HStatus;
      match ClientStatus srep with
      | Err _ => again
      | Ok status =>
          rep ← vis (HReceipt id attempt);
          match ClientReceipt id attempt rep with
          | Err _ => again
          | Ok current =>
              if terminal (rc_State current) then Ret (Ok current)
              else if negb (rc_ExecutorInstance current =? st_InstanceID status)%string then Ret (Err WExecutorGone)
              else if sameEnvelope current envelope then
                crep ← vis (HCancel id attempt);
                match ClientCancel id attempt crep with
                | Ok stopped =>
                    if rc_ExecutionStopped stopped && (rc_CurrentInstance stopped =? st_InstanceID status)%string then
                      if terminal (rc_State stopped) then Ret (Ok stopped) else Ret (Err WExecutorGone)
                    else again
                | Err _ => again
                end
              else again
          end
      end
  end.

Definition cancelAfterContextExit (fuel : nat) (job : Job) (envelope : Envelope) : prog (result werr Receipt) :=
  cancelUntilResolved fuel job envelope.

(** The local variables of [acceptAndWait]. *)
Record accept_vars := AcceptVars {
  av_receipt : Receipt;
  av_postAttempted : bool;
  av_postMayHaveAccepted : bool;
  av_postRejectedAfterAmbiguous : bool;
}.

(** The read of the receipt and, when there is none, the POST; an error ends the loop. *)
Definition read_or_post (job : Job) (envelope : Envelope) (v : accept_vars) : prog (result werr accept_vars) :=
  let id := job_ID job in let attempt := job_attempt job in
  rep ← vis (HReceipt id attempt);
  match ClientReceipt id attempt rep with
  | Ok current =>
      if negb (sameEnvelope current envelope) then
        Ret (Err (WText "existing receipt does not match this attempt envelope"))
      else Ret (Ok (AcceptVars current (av_postAttempted v) (av_postMayHaveAccepted v) (av_postRejectedAfterAmbiguous v)))
  | Err ErrNotFound =>
      if av_postRejectedAfterAmbiguous v then Ret (Ok v)
      else
        prep ← vis (HAccept envelope);
        match request prep with
        | Ok _ => Ret (Ok (AcceptVars (av_receipt v) true true false))
        | Err e =>
            if permanentExecutorError e then
              if definitiveJobValidationError e && av_postMayHaveAccepted v
              then Ret (Ok (AcceptVars (av_receipt v) true true true))
              else Ret (Err (WExec e))
            else Ret (Ok (AcceptVars (av_receipt v) true true false))
        end
  | Err e =>
      if permanentExecutorError e && negb (av_postAttempted v) && (rc_State (av_receipt v) =? "")%string
      then Ret (Err (WExec e)) else Ret (Ok v)
  end.

(** [databaseNow] and its error path *)
Definition read_clock : prog (result werr Z) :=
  r ← vis SDatabaseNow;
  match r with
  | Ok now => Ret (Ok now)
  | Err e => c ← vis (CtxErr AttemptCtx); Ret (Err (if (c : bool) then WCtx else WStore e))
  end.

Fixpoint accept_loop (fuel : nat) (job : Job) (envelope : Envelope) (deadline : Z) (v : accept_vars) :
    prog (result werr Receipt) :=
  match fuel with
  | O => Unfinished
  | S fuel' =>
      c ← vis (CtxErr AttemptCtx);
      if (c : bool) then Ret (Err WCtx) else
      step ← read_or_post job envelope v;
      match step with
      | Err e => Ret (Err e)
      | Ok v =>
          let receipt := av_receipt v in
          let wait :=
            r ← read_clock;
            match r with
            | Err e => Ret (Err e)
            | Ok now =>
                if deadline <=? now then cancelAfterContextExit fuel job envelope
                else s ← go_sleep AttemptCtx (minDuration (cfg_PollInterval config) (deadline - now));
                     if (s : bool) then Ret (Err WCtx) else accept_loop fuel' job envelope deadline v
            end in
          if (rc_State receipt =? "")%string then wait
          else if terminal (rc_State receipt) then Ret (Ok receipt)
          else
            srep ← vis HStatus;
            let gone := match ClientStatus srep with
                        | Ok status => negb (st_InstanceID status =? rc_ExecutorInstance receipt)%string
                        | Err _ => false
                        end in
            if gone then Ret (Err WExecutorGone)
            else
              r ← read_clock;
              match r with
              | Err e => Ret (Err e)
              | Ok now => if deadline <=? now then cancelAfterContextExit fuel job envelope else wait
              end
      end
  end.

(** With the deferred cleanup. *)
Definition acceptAndWait (fuel : nat) (job : Job) (envelope : Envelope) (deadline : Z) : prog (result werr Receipt) :=
  r ← accept_loop fuel job envelope deadline (AcceptVars no_receipt false false false);
  match r with
  | Ok receipt => Ret (Ok receipt)
  | Err e =>
      c ← vis (CtxErr AttemptCtx);
      if (c : bool) then cancelAfterContextExit fuel job envelope else Ret (Err e)
  end.

(** The loop on the policy: a timeout, or the end of the job. *)
Fixpoint policy_loop (fuel : nat) (job : Job) : prog (Z + result werr unit) :=
  match fuel with
  | O => Unfinished
  | S fuel =>
      rep ← vis (HPolicy (job_ID job));
      match ClientPolicy rep with
      | Ok seconds => Ret (inl seconds)
      | Err e =>
          if staleExecutorError e then Ret (inr (Err WLeaseLost))
          else if executorAuthError e then Ret (inr (Err WExecutorAuth))
          else if permanentExecutorError e then
            if negb (definitiveJobValidationError e) then Ret (inr (Err (WExec e)))
            else r ← vis (SFinish false job "failed" incomplete_result (Some "invalid_job")); Ret (inr (store_err r))
          else
            c ← go_sleep AttemptCtx (cfg_PollInterval config);
            if (c : bool) then
              r ← vis (SFinish false job "interrupted" warning (Some "worker_interrupted")); Ret (inr (store_err r))
            else policy_loop fuel job
      end
  end.

Definition runJob (fuel : nat) (job : Job) : prog (result werr unit) :=
  if negb (policy_KnownKind (j_kind (job_row_of job))) then
    r ← vis (SFinish false job "failed" incomplete_result (Some "invalid_job")); Ret (store_err r)
  else
  p ← policy_loop fuel job;
  match p with
  | inr r => Ret r
  | inl seconds =>
      now ← vis SDatabaseNow;
      match now with
      | Err e => Ret (Err (WStore e))
      | Ok startedAt =>
          let deadline := startedAt + seconds * Second in
          info ← vis SInfo;
          let envelope := MkEnvelope 1 (job_ID job) (li_OwnerID info) (li_Generation info) (job_attempt job) deadline in
          r ← acceptAndWait fuel job envelope deadline;
          match r with
          | Ok receipt => persistReceipt job receipt false
          | Err WExecutorGone =>
              let '(state, res, code) := recoveredOutcome job in
              r ← vis (SFinish false job state res (Some code)); Ret (store_err r)
          | Err (WExec e) =>
              if permanentExecutorError e then
                if executorAuthError e then Ret (Err WExecutorAuth)
                else if negb (definitiveJobValidationError e) then Ret (Err (WExec e))
                else r ← vis (SFinish false job "failed" incomplete_result (Some "invalid_job")); Ret (store_err r)
              else Ret (Err (WExec e))
          | Err e => Ret (Err e)
          end
      end
  end.

(** ** The process *)

(** The contexts of the attempt are the environment's: it decides when the
    drain or the lost lease cancels [AttemptCtx]. *)
Definition runJobWithDrain (fuel : nat) (job : Job) : prog (result werr unit) := runJob fuel job.

Fixpoint acquireLeaseWithRetry (fuel : nat) (maxWait retryInterval : Z) : prog (result werr LeaseInfo) :=
  match fuel with
  | O => Unfinished
  | S fuel =>
      if (maxWait <=? 0) || (retryInterval <=? 0) then
        Ret (Err (WText "worker lease wait configuration is invalid"))
      else
        r ← vis SAcquire;
        match r with
        | Ok info => Ret (Ok info)
        | Err ErrLeaseHeld =>
            w ← vis SelectLease;
            match w with
            | LeaseDone => Ret (Err WCtx)
            | LeaseDeadline | LeaseTick true => Ret (Err (WStore ErrLeaseHeld))
            | LeaseTick false => acquireLeaseWithRetry fuel maxWait retryInterval
            end
        | Err e => c ← vis (CtxErr ShutdownCtx); Ret (Err (if (c : bool) then WCtx else WStore e))
        end
  end.

Definition acquireLease (fuel : nat) : prog (result werr LeaseInfo) :=
  acquireLeaseWithRetry fuel leaseAcquireWait leaseAcquireInterval.

Fixpoint before_recovery (fuel : nat) : prog (result werr unit) :=
  match fuel with
  | O => Unfinished
  | S fuel =>
      ok ← vis BeforeRecovery;
      if (ok : bool) then Ret (Ok tt)
      else c ← go_sleep ClaimCtx (cfg_PollInterval config);
           if (c : bool) then Ret (Err WCtx) else before_recovery fuel
  end.

(** The loop on a job whose outcome is not confirmed; [Some] ends the process. *)
Fixpoint resolve_loop (fuel : nat) (job : Job) : prog (option werr) :=
  match fuel with
  | O => Unfinished
  | S fuel =>
      a ← vis (CtxErr ShutdownCtx);
      if (a : bool) then Ret None else
      b ← vis (CtxErr RunCtx);
      if (b : bool) then Ret None else
      c ← go_sleep ClaimCtx (cfg_PollInterval config);
      if (c : bool) then Ret None else
      r ← recoverJob job;
      match r with
      | Ok _ => Ret None
      | Err e => if store_lease_lost e then Ret (Some WLeaseLost) else resolve_loop fuel job
      end
  end.

(** After a claim that gave no job: [Some] ends the process. *)
Definition idle : prog (option (result werr unit)) :=
  c ← go_sleep ClaimCtx (cfg_PollInterval config);
  if (c : bool) then
    lost ← vis (CtxErr RunCtx);
    Ret (Some (if (lost : bool) then Err WLeaseLost else Ok tt))
  else Ret None.

(** One job, from its claim to its confirmed outcome; [Some] ends the process. *)
Definition serve (fuel : nat) (job : Job) : prog (option (result werr unit)) :=
  let checked := lost ← vis (CtxErr RunCtx); Ret (if (lost : bool) then Some (Err WLeaseLost) else None) in
  r ← runJobWithDrain fuel job;
  match r with
  | Ok _ => checked
  | Err WExecutorAuth => Ret (Some (Err WExecutorAuth))
  | Err WLeaseLost => Ret (Some (Err WLeaseLost))
  | Err e =>
      if store_lease_lost e then Ret (Some (Err WLeaseLost))
      else
        u ← resolve_loop fuel job;
        match u with
        | Some e => Ret (Some (Err e))
        | None => checked
        end
  end.

(** The default branch of the main select. *)
Definition work (fuel : nat) : prog (option (result werr unit)) :=
  x ← vis (SFailExhausted (cfg_MaxJobAttempts config) 100);
  if match x with Err e => is_lease_lost e | Ok _ => false end then Ret (Some (Err WLeaseLost))
  else
    _ ← replayFinalizedEvents;
    cl ← vis (SClaim (cfg_MaxJobAttempts config));
    match cl with
    | Err ErrNoJob => idle
    | Err e => if is_lease_lost e then Ret (Some (Err WLeaseLost)) else idle
    | Ok job => serve fuel job
    end.

Fixpoint main_loop (turns fuel : nat) : prog (result werr unit) :=
  match turns with
  | O => Unfinished
  | S turns =>
      ch ← vis SelectMain;
      match ch with
      | SelDone => Ret (Ok tt)
      | SelLost => Ret (Err WLeaseLost)
      | SelPrune => _ ← vis (SPrune (cfg_JobRetention config) 100); main_loop turns fuel
      | SelDefault =>
          r ← work fuel;
          match r with
          | Some outcome => Ret outcome
          | None => main_loop turns fuel
          end
      end
  end.

(** What [Run] does while it holds the lease. *)
Definition run_leased (turns fuel : nat) (info : LeaseInfo) : prog (result werr unit) :=
  b ← (if cfg_BeforeRecovery config then before_recovery fuel else Ret (Ok tt));
  match b with
  | Err e => Ret (Err e)
  | Ok _ =>
      r ← recoverBeforeClaim;
      match r with
      | Err e => Ret (Err e)
      | Ok _ =>
          r ← replayFinalizedEvents;
          match r with
          | Err e => Ret (Err e)
          | Ok _ =>
              rep ← vis (HRecovered (li_OwnerID info) (li_Generation info));
              match request rep with
              | Err e => Ret (Err (WExec e))
              | Ok _ => main_loop turns fuel
              end
          end
      end
  end.

Definition Run (turns fuel : nat) : prog (result werr unit) :=
  s ← vis CheckSchema;
  match s with
  | Err e => Ret (Err (WStore e))
  | Ok _ =>
      l ← acquireLease fuel;
      match l with
      | Err e => Ret (Err e)
      | Ok info =>
          r ← run_leased turns fuel info;
          _ ← vis SRelease;
          Ret r
      end
  end.

(** The heartbeat goroutine. *)
Fixpoint heartbeatLoop (fuel : nat) : prog unit :=
  match fuel with
  | O => Unfinished
  | S fuel =>
      t ← vis BeatTick;
      if (t : bool) then
        r ← vis SHeartbeat;
        match r with
        | Ok _ => heartbeatLoop fuel
        | Err _ => vis NotifyLoss
        end
      else Ret tt
  end.
End Program.

(** ** Runs *)

Inductive event :=
| Ev {X : Type} (c : call X) (x : X).
(** What has happened, the latest first. *)
Notation history := (list event).

(** What the environment decides at each step: an answer to every call and the
    state of the contexts. *)
Record env := Env {
  answer : nat -> forall X, call X -> X;
  shut : nat -> bool;      (* ctx of Run is done *)
  lost : nat -> bool;      (* runCtx is done: a heartbeat failed *)
  claims : nat -> bool;    (* claimCtx is done *)
  attempt_done : nat -> bool;
  cleanup_done : nat -> bool;
}.

(** A finished context stays finished; [claimCtx] ends only with [ctx] or [runCtx]. *)
Definition env_ok (e : env) : Prop := forall n,
  (shut e n = true -> shut e (S n) = true) /\ (lost e n = true -> lost e (S n) = true) /\
  (claims e n = true -> shut e n || lost e n = true).

Definition ctx_done (e : env) (c : ctx) (n : nat) : bool :=
  match c with
  | ShutdownCtx => shut e n | RunCtx => lost e n | ClaimCtx => claims e n
  | AttemptCtx => attempt_done e n | CleanupCtx => cleanup_done e n
  end.

(** A select takes a ready branch, and its default only when none is ready. *)
Definition settle_choice (shut lost : bool) (ch : choice) : choice :=
  match ch with
  | SelDone => if shut then SelDone else SelDefault
  | SelLost => if lost then SelLost else if shut then SelDone else SelDefault
  | SelPrune => SelPrune
  | SelDefault => if shut then SelDone else SelDefault
  end.

Definition respond (e : env) (n : nat) {X} (c : call X) : X :=
  match c in call X return X -> X with
  | CtxErr c => fun _ => ctx_done e c n
  | SleepFor c _ => fun b => b && ctx_done e c n
  | SelectMain => fun ch => settle_choice (shut e n) (lost e n) ch
  | _ => fun x => x
  end (answer e n X c).

(** The history of a run from step [n] on history [h], and its outcome. *)
Fixpoint run {A} (e : env) (n : nat) (p : prog A) (h : history) : history * option A :=
  match p with
  | Ret a => (h, Some a)
  | Unfinished => (h, None)
  | Vis c k => let x := respond e n c in run e (S n) (k x) (Ev c x :: h)
  end.

(** ** A logic for the calls of every run

    [always P p Q fl h]: in every run of [p] from history [h] in which the
    contexts [ctx] and [runCtx] are in state [fl] or later, every call satisfies
    [P] of the history before it, and results satisfy [Q]. *)

Record flags := Flags { f_shut : bool; f_lost : bool }.
Definition flags_le (a b : flags) : Prop :=
  (f_shut a = true -> f_shut b = true) /\ (f_lost a = true -> f_lost b = true).

Definition answer_ok (fl : flags) {X} (c : call X) : X -> Prop :=
  match c in call X return X -> Prop with
  | CtxErr ShutdownCtx => fun b => b = f_shut fl
  | CtxErr RunCtx => fun b => b = f_lost fl
  | SleepFor ClaimCtx _ => fun b => b = true -> f_shut fl || f_lost fl = true
  | SelectMain => fun ch => ch = SelDefault -> f_shut fl = false
  | _ => fun _ => True
  end.

Section Always.
Context (P : history -> forall X, call X -> Prop).

Fixpoint always {A} (p : prog A) (Q : A -> flags -> history -> Prop) (fl : flags) (h : history) : Prop :=
  match p with
  | Ret a => Q a fl h
  | Unfinished => True
  | Vis c k => P h _ c /\ forall fl' x, flags_le fl fl' -> answer_ok fl' c x -> always (k x) Q fl' (Ev c x :: h)
  end.

Lemma always_mono {A} (p : prog A) (Q R : A -> flags -> history -> Prop) fl h :
  always p Q fl h -> (forall a fl' h', Q a fl' h' -> R a fl' h') -> always p R fl h.
Proof.
  intros Hp HQ. revert fl h Hp. induction p as [a| |X c k IH]; simpl; intros fl h; [auto|done|].
  intros [H1 H2]. split; [done|]. intros fl' x Hl Ha. apply IH, H2; done.
Qed.

Lemma always_bind {A B} (p : prog A) (k : A -> prog B) Q fl h :
  always p (fun a fl' h' => always (k a) Q fl' h') fl h -> always (p ≫= k) Q fl h.
Proof.
  revert fl h. induction p as [a| |X c k' IH]; intros fl h; [done|done|].
  intros [H1 H2]. split; [done|]. intros fl' x Hl Ha. apply IH, H2; done.
Qed.

Lemma always_vis {A B} (c : call A) (k : A -> prog B) Q fl h :
  P h _ c -> (forall fl' x, flags_le fl fl' -> answer_ok fl' c x -> always (k x) Q fl' (Ev c x :: h)) ->
  always (vis c ≫= k) Q fl h.
Proof. intros H1 H2. split; [done|]. exact H2. Qed.

Lemma always_ret {A} (a : A) (Q : A -> flags -> history -> Prop) fl h : Q a fl h -> always (Ret a) Q fl h.
Proof. done. Qed.

Definition flags_at (e : env) (n : nat) : flags := Flags (shut e n) (lost e n).

Lemma respond_ok e n {X} (c : call X) : env_ok e -> answer_ok (flags_at e n) c (respond e n c).
Proof.
  intros He. destruct (He n) as (_ & _ & Hc). destruct c; try done; unfold respond; simpl.
  - by destruct c.
  - destruct c; try done. destruct (answer _ _ _ _); [|done]. simpl. exact Hc.
  - destruct (answer _ _ _ _); simpl; destruct (shut e n), (lost e n); done.
Qed.

(** Every call of a history meets [P]. *)
Fixpoint calls_meet (h : history) : Prop :=
  match h with [] => True | Ev c x :: h' => P h' _ c /\ calls_meet h' end.

Lemma always_sound {A} e n (p : prog A) Q fl h :
  env_ok e -> flags_le fl (flags_at e n) -> always p Q fl h -> calls_meet h ->
  calls_meet (run e n p h).1 /\ forall a, (run e n p h).2 = Some a -> exists fl', Q a fl' (run e n p h).1.
Proof.
  intros He. revert fl n h. induction p as [a| |X c k IH]; simpl; intros fl n h Hle Hp Hh.
  - split; [done|]. intros ? [= <-]. eauto.
  - split; [done|]. done.
  - destruct Hp as [H1 H2]. pose proof (respond_ok e n c He) as Ha.
    apply (IH (respond e n c) (flags_at e n)); [|by apply H2|by split].
    destruct (He n) as (E1 & E2 & _). split; done.
Qed.
End Always.

(** ** What a history shows *)

Definition is_claim (e : event) : bool := match e with Ev c _ => match c with SClaim _ => true | _ => false end end.

(** The events after the last claim. *)
Fixpoint since_claim (h : history) : history :=
  match h with
  | [] => []
  | e :: h' => if is_claim e then [] else e :: since_claim h'
  end.

Definition accept_reply (e : event) : option reply :=
  match e with
  | Ev c x => match c in call X return X -> option reply with
              | HAccept _ => Some
              | _ => fun _ => None
              end x
  end.

(** The job claimed and not yet finished. *)
Fixpoint open_job (h : history) : option Job :=
  match h with
  | [] => None
  | Ev c x :: h' =>
      match c in call X return X -> option Job with
      | SClaim _ => fun r => match r with Ok job => Some job | Err _ => open_job h' end
      | SFinish _ job _ _ _ => fun r =>
          match r, open_job h' with
          | Ok _, Some j => if bool_decide (job_ID j = job_ID job /\ job_attempt j = job_attempt job) then None else Some j
          | _, o => o
          end
      | _ => fun _ => open_job h'
      end x
  end.

(** No attempt was posted to the executor since the claim, or every POST was
    refused with 422. *)
Definition not_posted (h : history) : Prop := forall e, e ∈ since_claim h -> accept_reply e = None.
Definition all_refused (h : history) : Prop :=
  forall e r, e ∈ since_claim h -> accept_reply e = Some r -> request r = Err (HTTPError 422).

Section Evidence.
Context (h : history) (job : Job).

(** The executor gave this receipt for this attempt. *)
Definition seen_receipt (r : Receipt) : Prop := exists rep,
  (Ev (HReceipt (job_ID job) (job_attempt job)) rep ∈ h /\ ClientReceipt (job_ID job) (job_attempt job) rep = Ok r) \/
  (Ev (HCancel (job_ID job) (job_attempt job)) rep ∈ h /\ ClientCancel (job_ID job) (job_attempt job) rep = Ok r).

(** The executor that accepted the attempt has been replaced. *)
Definition executor_gone : Prop := exists r rep status,
  seen_receipt r /\ Ev HStatus rep ∈ h /\ ClientStatus rep = Ok status /\ st_InstanceID status <> rc_ExecutorInstance r.

(** The running executor confirmed that the execution stopped. *)
Definition execution_stopped : Prop := exists crep r rep status,
  Ev (HCancel (job_ID job) (job_attempt job)) crep ∈ h /\ ClientCancel (job_ID job) (job_attempt job) crep = Ok r /\
  rc_ExecutionStopped r = true /\
  Ev HStatus rep ∈ h /\ ClientStatus rep = Ok status /\ rc_CurrentInstance r = st_InstanceID status.

Definition no_receipt_found : Prop := exists rep,
  Ev (HReceipt (job_ID job) (job_attempt job)) rep ∈ h /\ ClientReceipt (job_ID job) (job_attempt job) rep = Err ErrNotFound.

(** The executor refused the job itself. *)
Definition refused : Prop := exists rep,
  (Ev (HPolicy (job_ID job)) rep ∈ h /\ ClientPolicy rep = Err (HTTPError 422)) \/
  (exists e, Ev (HAccept e) rep ∈ h /\ request rep = Err (HTTPError 422)) \/
  (Ev (HReceipt (job_ID job) (job_attempt job)) rep ∈ h /\
   ClientReceipt (job_ID job) (job_attempt job) rep = Err (HTTPError 422)).
End Evidence.

Section Justified.
Context `{QueuePolicy} (float_text : string -> option string) (config : Config).

(** Why the worker may record an outcome. *)
Inductive justified (h : history) : bool -> Job -> string -> gomap -> option string -> Prop :=
| J_unknown_kind job :
    policy_KnownKind (j_kind (job_row_of job)) = false -> not_posted h ->
    justified h false job "failed" incomplete_result (Some "invalid_job")
| J_refused job :
    refused h job -> all_refused h ->
    justified h false job "failed" incomplete_result (Some "invalid_job")
| J_not_started job :
    not_posted h -> justified h false job "interrupted" warning (Some "worker_interrupted")
| J_receipt recovered job r res :
    seen_receipt h job r -> terminal (rc_State r) = true -> receipt_result float_text r = Some res ->
    justified h recovered job (rc_State r) res (receipt_code r)
| J_resolved recovered job state res code :
    executor_gone h job \/ execution_stopped h job \/ (recovered = true /\ no_receipt_found h job) ->
    recoveredOutcome config job = (state, res, code) ->
    justified h recovered job state res (Some code).

(** What may be called when. *)
Definition permitted (h : history) (X : Type) (c : call X) : Prop :=
  match c with
  | SClaim _ => open_job h = None
  | SFinish recovered job state res code =>
      justified h recovered job state res code /\ (recovered = false -> open_job h = Some job)
  | _ => True
  end.

(** *** Histories that grow without claims, posts and finishes *)

Definition quiet {X} (c : call X) : bool :=
  match c with SClaim _ | SFinish _ _ _ _ _ | HAccept _ => false | _ => true end.

Record extends (h h' : history) : Prop := {
  ext_open : open_job h' = open_job h;
  ext_in : forall e, e ∈ h -> e ∈ h';
  ext_since : forall e, e ∈ since_claim h' -> e ∈ since_claim h \/ accept_reply e = None;
}.

Lemma extends_refl h : extends h h.
Proof. split; auto. Qed.
Lemma extends_trans a b c : extends a b -> extends b c -> extends a c.
Proof.
  intros [A1 A2 A3] [B1 B2 B3]. split; [congruence|auto|].
  intros e He. destruct (B3 e He); auto.
Qed.
Lemma extends_cons {X} (c : call X) x h : quiet c = true -> extends h (Ev c x :: h).
Proof.
  intros Hq. split; [by destruct c|by right|].
  intros e He. assert (since_claim (Ev c x :: h) = Ev c x :: since_claim h) as E by (by destruct c).
  rewrite E in He. apply elem_of_cons in He as [->|He]; [|by left]. right. by destruct c.
Qed.
Lemma extends_step {X} h0 (c : call X) x h : extends h0 h -> quiet c = true -> extends h0 (Ev c x :: h).
Proof. intros H1 H2. eapply extends_trans; [done|by apply extends_cons]. Qed.

Lemma quiet_permitted {X} (c : call X) h : quiet c = true -> permitted h X c.
Proof. by destruct c. Qed.

Lemma not_posted_extends h h' : not_posted h -> extends h h' -> not_posted h'.
Proof. intros Hn [_ _ Hs] e He. destruct (Hs e He); auto. Qed.
Lemma seen_extends h h' job r : seen_receipt h job r -> extends h h' -> seen_receipt h' job r.
Proof. intros (rep & [[H1 H2]|[H1 H2]]) [_ Hi _]; exists rep; [left|right]; auto. Qed.
Lemma not_posted_refused h : not_posted h -> all_refused h.
Proof. intros Hn e r He Hr. rewrite (Hn e He) in Hr. done. Qed.

#[local] Hint Resolve extends_refl extends_step quiet_permitted : news.
End Justified.

(** ** The programs keep to it *)

#[export] Hint Resolve extends_refl extends_step quiet_permitted : news.

Section Proofs.
Context `{QueuePolicy} (float_text : string -> option string) (config : Config).
#[local] Notation permits := (always (permitted float_text config)).

Ltac call := apply always_vis; [by apply quiet_permitted|]; let Hle := fresh "Hle" in intros ? ? Hle ?.
Ltac ret := apply always_ret.

Lemma always_sleep {B} c d (k : bool -> prog B) Q fl h :
  (forall fl' b h', flags_le fl fl' -> extends h h' ->
     (b = true -> c = ClaimCtx -> f_shut fl' || f_lost fl' = true) -> permits (k b) Q fl' h') ->
  permits (go_sleep c d ≫= k) Q fl h.
Proof.
  intros Hk. unfold go_sleep. destruct (d <=? 0).
  - apply Hk; [by split|apply extends_refl|done].
  - apply always_vis; [by apply quiet_permitted|]. intros fl' b Hle Ha. apply Hk; [done|by apply extends_cons|].
    intros -> ->. by apply Ha.
Qed.

(** The result of waiting for an attempt. *)
Definition wait_outcome (h : history) (job : Job) (r : result werr Receipt) : Prop :=
  match r with
  | Ok x => seen_receipt h job x /\ terminal (rc_State x) = true
  | Err WExecutorGone => executor_gone h job \/ execution_stopped h job
  | Err (WExec e) => definitiveJobValidationError e = true -> refused h job /\ all_refused h
  | Err _ => True
  end.

Lemma cancel_spec fuel job envelope h0 : forall fl h, extends h0 h ->
  permits (cancelUntilResolved config fuel job envelope)
    (fun r _ h' => extends h0 h' /\ wait_outcome h' job r) fl h.
Proof.
  induction fuel as [|fuel IH]; intros fl h Hx; [done|]. cbn [cancelUntilResolved].
  set (again := go_sleep _ _ ≫= _).
  assert (forall fl1 h1, extends h0 h1 -> permits again (fun r _ h' => extends h0 h' /\ wait_outcome h' job r) fl1 h1) as Hagain.
  { intros fl1 h1 H1. apply always_sleep. intros fl2 b h2 _ H2 _.
    assert (extends h0 h2) by (by eapply extends_trans). destruct b; [ret; by split|by apply IH]. }
  call. destruct (ClientStatus x) as [status|e] eqn:Hs; [|auto with news].
  call. destruct (ClientReceipt _ _ x0) as [current|e] eqn:Hr; [|auto with news].
  assert (forall h', (forall e, e ∈ (Ev (HReceipt (job_ID job) (job_attempt job)) x0 :: Ev HStatus x :: h) -> e ∈ h') ->
     seen_receipt h' job current /\ Ev HStatus x ∈ h') as Hin.
  { intros h' Hh. split; [exists x0; left; split; [apply Hh; left|done]|apply Hh; right; left]. }
  destruct (terminal (rc_State current)) eqn:Ht.
  { ret. split; [auto with news|]. split; [|done]. apply Hin. auto. }
  destruct (negb _) eqn:Hi.
  { ret. split; [auto with news|]. left. bool_to_prop. exists current, x, status. split_and!; try (apply Hin; auto); congruence. }
  destruct (sameEnvelope current envelope); [|auto with news].
  call. destruct (ClientCancel _ _ x1) as [stopped|e] eqn:Hc; [|auto with news].
  destruct (rc_ExecutionStopped stopped && _) eqn:Hst; [|auto with news]. bool_to_prop.
  destruct (terminal (rc_State stopped)) eqn:Ht2.
  - ret. split; [auto with news|]. split; [|done]. exists x1. right. split; [left|done].
  - ret. split; [auto with news|]. right. exists x1, stopped, x, status. split_and!; try done; [left|].
    right. right. left.
Qed.

(** What the loop variables of [acceptAndWait] say of the history. *)
Record loop_inv (job : Job) (h : history) (v : accept_vars) : Prop := {
  li_open : open_job h = Some job;
  li_seen : (rc_State (av_receipt v) =? "")%string = false -> seen_receipt h job (av_receipt v);
  li_may : av_postMayHaveAccepted v = false -> not_posted h;
  li_tried : av_postAttempted v = false -> not_posted h;
}.

Lemma loop_inv_extends job h h' v : loop_inv job h v -> extends h h' -> loop_inv job h' v.
Proof.
  intros [I1 I2 I3 I4] Hx. split.
  - by rewrite (ext_open _ _ Hx).
  - intros Hs. eapply seen_extends; eauto.
  - intros Hm. eapply not_posted_extends; eauto.
  - intros Hm. eapply not_posted_extends; eauto.
Qed.

Lemma refused_once h e rep : not_posted h -> request rep = Err (HTTPError 422) -> all_refused (Ev (HAccept e) rep :: h).
Proof.
  intros Hn Hr e0 r0 [->|Hin]%elem_of_cons; simpl.
  - by intros [= <-].
  - intros E. rewrite (Hn e0 Hin) in E. done.
Qed.

Lemma definitive_422 e : definitiveJobValidationError e = true -> e = HTTPError 422.
Proof. destruct e; try done. simpl. intros H'. bool_to_prop. by subst. Qed.

Lemma accept_open e rep h : open_job (Ev (HAccept e) rep :: h) = open_job h.
Proof. done. Qed.

Lemma read_or_post_spec job envelope v fl h : loop_inv job h v ->
  permits (read_or_post job envelope v)
    (fun r _ h' => open_job h' = Some job /\
       match r with Ok v' => loop_inv job h' v' | Err e => wait_outcome h' job (Err e) end) fl h.
Proof.
  intros Hi. unfold read_or_post. call. set (h1 := Ev _ x :: h).
  assert (extends h h1) as Hx by (by apply extends_cons).
  pose proof (loop_inv_extends _ _ _ _ Hi Hx) as Hi1. pose proof (li_open _ _ _ Hi1) as Ho.
  destruct (ClientReceipt _ _ x) as [current|e] eqn:Hr.
  - destruct (sameEnvelope current envelope); ret; (split; [by rewrite Ho|]); [|done].
    destruct Hi1 as [I1 I2 I3 I4]. split; try done. intros _. exists x. left. split; [left|done].
  - assert (forall e0, e = e0 -> e0 <> ErrNotFound -> permits
      (if permanentExecutorError e0 && negb (av_postAttempted v) && (rc_State (av_receipt v) =? "")%string
       then Ret (Err (WExec e0)) else Ret (Ok v))
      (fun r _ h' => open_job h' = Some job /\
        match r with Ok v' => loop_inv job h' v' | Err e => wait_outcome h' job (Err e) end) fl' h1) as Hother.
    { intros e0 <- Hne. destruct (_ && _ && _) eqn:E; ret; (split; [by rewrite Ho|]); [|done].
      bool_to_prop. intros Hd. apply definitive_422 in Hd as ->. split; [|by apply not_posted_refused, (li_tried _ _ _ Hi1)].
      exists x. right. right. split; [left|done]. }
    destruct e as [| |]; [|by apply Hother..].
    destruct (av_postRejectedAfterAmbiguous v); [ret; by rewrite Ho|].
    apply always_vis; [done|]. intros fl2 x0 _ _. set (h2 := Ev _ x0 :: h1). assert (open_job h2 = Some job) as Ho2 by (by rewrite <- Ho).
    assert (forall rej, loop_inv job h2 (AcceptVars (av_receipt v) true true rej)) as Hi2.
    { intros rej. split; [done| |done|done]. simpl. intros Hs. destruct (li_seen _ _ _ Hi1 Hs) as (rep & [[A B]|[A B]]);
        exists rep; [left|right]; (split; [by right|done]). }
    destruct (request x0) as [[]|e] eqn:Hq; [ret; done|].
    destruct (permanentExecutorError e); [|ret; done].
    destruct (definitiveJobValidationError e && av_postMayHaveAccepted v) eqn:Hd; ret; (split; [done|]); [done|].
    intros Hdef. rewrite Hdef in Hd. simpl in Hd. apply definitive_422 in Hdef as ->. split.
    + exists x0. right. left. eexists. split; [left|done].
    + apply refused_once; [by apply (li_may _ _ _ Hi1)|done].
Qed.
Lemma read_clock_spec {B} (k : result werr Z -> prog B) Q fl h :
  (forall fl' h' r, extends h h' -> (forall e, r = Err (WExec e) -> False) -> r <> Err WExecutorGone -> permits (k r) Q fl' h') ->
  permits (read_clock ≫= k) Q fl h.
Proof.
  intros Hk. apply always_bind. unfold read_clock. call. destruct x as [now|e].
  - ret. apply Hk; [auto with news|done|done].
  - call. ret. apply Hk; [auto with news|by destruct x|by destruct x].
Qed.

Lemma cancel_exit fuel job envelope fl h :
  open_job h = Some job ->
  permits (cancelAfterContextExit config fuel job envelope)
    (fun r _ h' => open_job h' = Some job /\ wait_outcome h' job r) fl h.
Proof.
  intros Ho. eapply always_mono; [apply (cancel_spec fuel job envelope h); apply extends_refl|].
  intros r fl' h' [Hx Hw]. split; [|done]. by rewrite (ext_open _ _ Hx).
Qed.

Lemma accept_loop_spec job envelope deadline : forall fuel v fl h, loop_inv job h v ->
  permits (accept_loop config fuel job envelope deadline v)
    (fun r _ h' => open_job h' = Some job /\ wait_outcome h' job r) fl h.
Proof.
  induction fuel as [|fuel IH]; intros v fl h Hi; [done|]. cbn [accept_loop]. call.
  pose proof (loop_inv_extends _ _ _ _ Hi (extends_cons (CtxErr AttemptCtx) x h eq_refl)) as Hi0.
  destruct x; [ret; split; [apply Hi0|done]|].
  apply always_bind. eapply always_mono; [by apply read_or_post_spec|]. intros [v1|e] fl1 h1 [Ho Hv]; [|ret; done].
  set (wait := read_clock ≫= _).
  assert (forall fl2 h2, loop_inv job h2 v1 -> permits wait
    (fun r _ h' => open_job h' = Some job /\ wait_outcome h' job r) fl2 h2) as Hwait.
  { intros fl2 h2 H2. apply read_clock_spec. intros fl3 h3 [now|e] H3 Hne Hng.
    - assert (loop_inv job h3 v1) as Hi3 by (by eapply loop_inv_extends).
      destruct (deadline <=? now); [apply cancel_exit, Hi3|]. apply always_sleep. intros fl4 b h4 _ H4 _.
      assert (loop_inv job h4 v1) as Hi4 by (by eapply loop_inv_extends).
      destruct b; [ret; split; [apply Hi4|done]|by apply IH].
    - ret. split; [rewrite (ext_open _ _ H3); apply H2|]. destruct e; try done. by destruct (Hne _ eq_refl). }
  destruct (rc_State (av_receipt v1) =? "")%string eqn:Hst; [auto|].
  pose proof (li_seen _ _ _ Hv Hst) as Hseen.
  destruct (terminal _) eqn:Ht; [ret; done|]. call.
  pose proof (extends_cons HStatus x h1 eq_refl) as Hx1.
  pose proof (loop_inv_extends _ _ _ _ Hv Hx1) as Hi1.
  destruct (match ClientStatus x with Ok s => _ | Err _ => _ end) eqn:Hg.
  { ret. split; [apply Hi1|]. left. destruct (ClientStatus x) as [status|] eqn:Hs; [|done]. bool_to_prop.
    exists (av_receipt v1), x, status. split_and!; [by eapply seen_extends|left|done|done]. }
  apply read_clock_spec. intros fl3 h3 [now|e] H3 Hne Hng.
  - assert (loop_inv job h3 v1) as Hi3 by (by eapply loop_inv_extends).
    destruct (deadline <=? now); [apply cancel_exit, Hi3|by apply Hwait].
  - ret. split; [rewrite (ext_open _ _ H3); apply Hi1|]. destruct e; try done. by destruct (Hne _ eq_refl).
Qed.

Lemma acceptAndWait_spec fuel job envelope deadline fl h :
  open_job h = Some job -> not_posted h ->
  permits (acceptAndWait config fuel job envelope deadline)
    (fun r _ h' => open_job h' = Some job /\ wait_outcome h' job r) fl h.
Proof.
  intros Ho Hn. unfold acceptAndWait. apply always_bind.
  eapply always_mono; [apply accept_loop_spec; by split|]. intros [x|e] fl1 h1 [Ho1 Hw]; [ret; done|].
  call. pose proof (extends_cons (CtxErr AttemptCtx) x h1 eq_refl) as Hx.
  destruct x; [apply cancel_exit; by rewrite (ext_open _ _ Hx)|]. ret.
  split; [by rewrite (ext_open _ _ Hx)|].
  destruct e; try done; simpl in *.
  - destruct Hw as [(r & rep & st & A & B & C & D)|(crep & r & rep & st & A & B & C & D & E & F)]; [left|right].
    + exists r, rep, st. split_and!; [by eapply seen_extends|by right|done|done].
    + exists crep, r, rep, st. split_and!; try done; by right.
  - intros Hd. destruct (Hw Hd) as [(rep & [[A B]|[(e' & A & B)|[A B]]]) Hall]; (split; [|intros e0 r0 He Hr]).
    1: exists rep; left; split; [by right|done].
    2: exists rep; right; left; exists e'; split; [by right|done].
    3: exists rep; right; right; split; [by right|done].
    all: apply elem_of_cons in He as [->|He]; [done|by eapply Hall].
Qed.

(** After a finish of [job]: done, or an error that leaves the job open. *)
Definition finish_post (o : option Job) (r : result werr unit) (h : history) : Prop :=
  open_job h = None \/ (is_ok r = false /\ open_job h = o).

Lemma finish_call {B} recovered job state res code (k : result worker_error unit -> prog B) Q fl h :
  justified float_text config h recovered job state res code ->
  open_job h = Some job \/ (recovered = true /\ open_job h = None) ->
  (forall fl' h', open_job h' = None -> permits (k (Ok tt)) Q fl' h') ->
  (forall fl' h' e, open_job h' = open_job h -> permits (k (Err e)) Q fl' h') ->
  permits (vis (SFinish recovered job state res code) ≫= k) Q fl h.
Proof.
  intros Hj Ho Hok Herr. apply always_vis.
  - split; [done|]. intros ->. destruct Ho as [Ho|[? _]]; done.
  - intros fl' [[]|e] _ _; [apply Hok|by apply Herr]. simpl.
    destruct Ho as [-> | [_ ->]]; [|done]. by rewrite bool_decide_eq_true_2.
Qed.

Lemma finish_ret recovered job state res code fl h :
  justified float_text config h recovered job state res code ->
  open_job h = Some job \/ (recovered = true /\ open_job h = None) ->
  permits (r ← vis (SFinish recovered job state res code); Ret (store_err r))
    (fun r _ h' => finish_post (open_job h) r h') fl h.
Proof.
  intros Hj Ho. apply finish_call; [done|done|intros; ret; by left|intros fl' h' e E; ret; by right].
Qed.

Lemma persistReceipt_spec job r recovered fl h :
  seen_receipt h job r -> terminal (rc_State r) = true ->
  open_job h = Some job \/ (recovered = true /\ open_job h = None) ->
  permits (persistReceipt float_text job r recovered) (fun x _ h' => finish_post (open_job h) x h') fl h.
Proof.
  intros Hs Ht Ho. unfold persistReceipt. destruct (_ || _); [ret; by right|].
  destruct (receipt_result float_text r) as [res|] eqn:Hr; [|ret; by right].
  apply finish_call; [by econstructor|done| |].
  - intros fl' h' Hn. apply always_bind. destruct (rc_State r =? "interrupted")%string.
    + ret. ret. by left.
    + call. ret. ret. left. exact Hn.
  - intros fl' h' e E. ret. by right.
Qed.

Lemma policy_loop_spec job : forall fuel fl h, open_job h = Some job -> not_posted h ->
  permits (policy_loop config fuel job)
    (fun r _ h' => match r with
       | inl _ => open_job h' = Some job /\ not_posted h'
       | inr x => finish_post (Some job) x h'
       end) fl h.
Proof.
  induction fuel as [|fuel IH]; intros fl h Ho Hn; [done|]. cbn [policy_loop]. call.
  set (h1 := Ev _ x :: h). assert (extends h h1) as Hx by (by apply extends_cons).
  assert (open_job h1 = Some job) as Ho1 by (by rewrite (ext_open _ _ Hx)).
  assert (not_posted h1) as Hn1 by (by eapply not_posted_extends).
  destruct (ClientPolicy x) as [seconds|e] eqn:Hp; [ret; done|].
  destruct (staleExecutorError e); [ret; by right|]. destruct (executorAuthError e); [ret; by right|].
  destruct (permanentExecutorError e).
  - destruct (negb (definitiveJobValidationError e)) eqn:Hd; [ret; by right|].
    apply negb_false_iff, definitive_422 in Hd as ->. apply finish_call.
    + apply J_refused; [|by apply not_posted_refused]. exists x. left. split; [left|done].
    + by left.
    + intros; ret; by left.
    + intros fl2 h' e E; ret; right. by rewrite E.
  - apply always_sleep. intros fl2 b h2 _ H2 _.
    assert (open_job h2 = Some job) by (by rewrite (ext_open _ _ H2)).
    assert (not_posted h2) by (by eapply not_posted_extends). destruct b; [|by apply IH].
    apply finish_call; [by apply J_not_started|by left|intros; ret; by left|].
    intros fl3 h' e' E. ret. right. split; [done|congruence].
Qed.

Lemma runJob_spec fuel job fl h : open_job h = Some job -> not_posted h ->
  permits (runJob float_text config fuel job) (fun r _ h' => finish_post (Some job) r h') fl h.
Proof.
  intros Ho Hn. unfold runJob. destruct (negb _) eqn:Hk.
  { apply negb_true_iff in Hk. rewrite <- Ho. apply finish_ret; [by apply J_unknown_kind|by left]. }
  apply always_bind. eapply always_mono; [by apply policy_loop_spec|].
  intros [seconds|r] fl1 h1; [|intros; by ret]. intros [Ho1 Hn1]. call. destruct x as [startedAt|e]; [|ret; by right].
  call. rename x into info.
  assert (extends h1 (Ev SInfo info :: Ev SDatabaseNow (Ok startedAt) :: h1)) as Hx by auto with news.
  set (h2 := Ev SInfo info :: _) in *.
  apply always_bind. eapply always_mono; [apply acceptAndWait_spec; [by rewrite (ext_open _ _ Hx)|by eapply not_posted_extends]|].
  intros [r|e] fl3 h3 [Ho3 Hw].
  - destruct Hw as [Hs Ht]. rewrite <- Ho3. apply persistReceipt_spec; [done|done|by left].
  - destruct e as [| | |e|e| |]; try (ret; right; done).
    + destruct (recoveredOutcome config job) as [[state res] code] eqn:Hr. rewrite <- Ho3.
      apply finish_ret; [|by left]. apply J_resolved; [|done]. destruct Hw; auto.
    + destruct (permanentExecutorError e); [|ret; by right]. destruct (executorAuthError e); [ret; by right|].
      destruct (negb (definitiveJobValidationError e)) eqn:Hd; [ret; by right|].
      apply negb_false_iff in Hd. destruct (Hw Hd) as [Href Hall]. rewrite <- Ho3.
      apply finish_ret; [by apply J_refused|by left].
Qed.

Definition held (o : option Job) (job : Job) : Prop := o = Some job \/ o = None.

Lemma finish_recovered_spec job fl h :
  held (open_job h) job -> executor_gone h job \/ execution_stopped h job \/ no_receipt_found h job ->
  permits (finish_recovered config job) (fun r _ h' => finish_post (open_job h) r h') fl h.
Proof.
  intros Hh He. unfold finish_recovered. destruct (recoveredOutcome config job) as [[state res] code] eqn:Hr.
  apply finish_ret; [apply J_resolved; [tauto|done]|]. destruct Hh; auto.
Qed.

Lemma recoverJob_spec job fl h : held (open_job h) job ->
  permits (recoverJob float_text config job) (fun r _ h' => finish_post (open_job h) r h') fl h.
Proof.
  intros Hh. unfold recoverJob. call. set (h1 := Ev _ x :: h).
  assert (open_job h1 = open_job h) as Ho1 by done.
  assert (held (open_job h1) job) as Hh1 by done.
  assert (open_job h1 = Some job \/ (true = true /\ open_job h1 = None)) as Hp1 by (destruct Hh1; auto).
  destruct (ClientReceipt _ _ x) as [receipt|e] eqn:Hr.
  2:{ destruct e; try (ret; by right). rewrite <- Ho1. apply finish_recovered_spec; [done|].
      right. right. exists x. split; [left|done]. }
  assert (seen_receipt h1 job receipt) as Hs by (exists x; left; split; [left|done]).
  destruct (terminal (rc_State receipt)) eqn:Ht; [rewrite <- Ho1; by apply persistReceipt_spec|].
  pose proof (checked_receipt_ok _ _ _ _ _ Hr) as (_ & _ & Hv). apply validReceipt_state in Hv.
  assert ((rc_State receipt =? "accepted")%string || (rc_State receipt =? "running")%string = true) as ->.
  { unfold terminal in Ht. bool_to_prop. apply orb_true_iff. rewrite !String.eqb_eq. set_solver. }
  call. set (h2 := Ev HStatus x0 :: h1). rename x0 into srep.
  destruct (ClientStatus srep) as [status|e] eqn:Hst; [|ret; by right].
  assert (extends h1 h2) as Hx2 by (by apply extends_cons).
  destruct (rc_ExecutorInstance receipt =? st_InstanceID status)%string eqn:Hi.
  - call. set (h3 := Ev _ x0 :: h2). rename x0 into crep.
    assert (extends h1 h3) as Hx3 by (eapply extends_step; [exact Hx2|done]).
    destruct (ClientCancel _ _ crep) as [stopped|e] eqn:Hc; [|ret; by right].
    destruct (negb (rc_ExecutionStopped stopped) || _) eqn:Hn; [ret; by right|]. bool_to_prop.
    assert (seen_receipt h3 job stopped) as Hs3 by (exists crep; right; split; [left|done]).
    destruct (terminal (rc_State stopped)) eqn:Ht3.
    + apply (persistReceipt_spec job stopped true fl'1 h3); [done..|by rewrite (ext_open _ _ Hx3)].
    + apply (finish_recovered_spec job fl'1 h3); [by rewrite (ext_open _ _ Hx3)|]. right. left.
      exists crep, stopped, srep, status. split_and!; try done; [left|right; left].
  - apply (finish_recovered_spec job fl'0 h2); [done|]. left. bool_to_prop.
    exists receipt, srep, status. split_and!; [by eapply seen_extends|left|done|congruence].
Qed.

Lemma finalize_all_spec jobs h0 : forall fl h, extends h0 h -> permits (finalize_all jobs) (fun _ _ h' => extends h0 h') fl h.
Proof.
  induction jobs as [|job jobs IH]; intros fl h Hx; [ret; done|]. cbn [finalize_all]. call. apply IH. auto with news.
Qed.

Lemma replay_spec fl h : permits replayFinalizedEvents (fun _ _ h' => extends h h') fl h.
Proof.
  unfold replayFinalizedEvents. call. destruct x as [jobs|e]; [|ret; auto with news].
  apply always_bind. eapply always_mono; [apply (finalize_all_spec jobs h); auto with news|]. intros; by ret.
Qed.

Lemma recover_all_spec jobs : forall fl h, open_job h = None ->
  permits (recover_all float_text config jobs) (fun _ _ h' => open_job h' = None) fl h.
Proof.
  induction jobs as [|job jobs IH]; intros fl h Ho; [ret; done|]. cbn [recover_all]. apply always_bind.
  eapply always_mono; [apply recoverJob_spec; by right|]. intros [[]|e] fl' h' Hf;
    (assert (open_job h' = None) by (destruct Hf as [?|[_ ?]]; congruence)); [by apply IH|ret; done].
Qed.

(** No job is open, or the process is stopping. *)
Definition free (fl : flags) (h : history) : Prop := open_job h = None \/ f_shut fl = true.
Definition free_or_lost (fl : flags) (h : history) : Prop := free fl h \/ f_lost fl = true.

Lemma free_mono fl fl' h h' : free fl h -> flags_le fl fl' -> (open_job h = None -> open_job h' = None) -> free fl' h'.
Proof. intros [Hf|Hf] [Hs _] Ho; [left|right]; auto. Qed.

Lemma resolve_loop_spec job : forall fuel fl h, held (open_job h) job ->
  permits (resolve_loop float_text config fuel job)
    (fun r fl' h' => r = None -> free_or_lost fl' h') fl h.
Proof.
  induction fuel as [|fuel IH]; intros fl h Hh; [done|]. cbn [resolve_loop].
  apply always_vis; [done|]. intros fl1 b1 _ Ha1. destruct b1; [ret; intros _; left; right; by rewrite Ha1|].
  apply always_vis; [done|]. intros fl2 b2 _ Ha2. destruct b2; [ret; intros _; right; by rewrite Ha2|].
  apply always_sleep. intros fl3 b3 h3 _ Hx3 Hc. destruct b3.
  { ret. intros _. specialize (Hc eq_refl eq_refl). apply orb_true_iff in Hc as [Hc|Hc]; [left; by right|by right]. }
  assert (held (open_job h3) job) as Hh3 by (by rewrite (ext_open _ _ Hx3)).
  apply always_bind. eapply always_mono; [by apply recoverJob_spec|]. intros [[]|e] fl4 h4 Hf; simpl.
  - intros _. left. left. by destruct Hf as [?|[? _]].
  - destruct (store_lease_lost e); [ret; done|]. apply IH. destruct Hf as [?|[_ ->]]; [by right|done].
Qed.

Lemma checked_spec fl h : free_or_lost fl h ->
  permits (lost ← vis (CtxErr RunCtx); Ret (if (lost : bool) then Some (Err (A:=unit) WLeaseLost) else None))
    (fun r fl' h' => r = None -> free fl' h') fl h.
Proof.
  intros Hf. apply always_vis; [done|]. intros fl' b Hle Ha. ret. destruct b; [done|]. intros _.
  destruct Hf as [Hf|Hf]; [by eapply free_mono|]. destruct Hle as [_ Hl]. simpl in Ha. by rewrite (Hl Hf) in Ha.
Qed.

Lemma serve_spec fuel job fl h : open_job h = Some job -> not_posted h ->
  permits (serve float_text config fuel job) (fun r fl' h' => r = None -> free fl' h') fl h.
Proof.
  intros Ho Hn. unfold serve, runJobWithDrain. apply always_bind. eapply always_mono; [by apply runJob_spec|].
  intros [[]|e] fl1 h1 Hf.
  - apply checked_spec. left. left. by destruct Hf as [?|[? _]].
  - assert (held (open_job h1) job) as Hh by (destruct Hf as [?|[_ ->]]; [by right|by left]).
    assert (forall s, e = s -> permits (if store_lease_lost s then Ret (Some (Err (A:=unit) WLeaseLost)) else
        u ← resolve_loop float_text config fuel job;
        match u with
        | Some e => Ret (Some (Err e))
        | None => lost ← vis (CtxErr RunCtx); Ret (if (lost : bool) then Some (Err WLeaseLost) else None)
        end) (fun r fl' h' => r = None -> free fl' h') fl1 h1) as Hresolve.
    { intros s <-. destruct (store_lease_lost e); [ret; done|]. apply always_bind.
      eapply always_mono; [by apply resolve_loop_spec|]. intros [e'|] fl2 h2 H2; [ret; done|]. apply checked_spec. auto. }
    destruct e; try (ret; done); by apply Hresolve.
Qed.

Lemma idle_spec fl h : open_job h = None -> permits (idle config) (fun r fl' h' => r = None -> free fl' h') fl h.
Proof.
  intros Ho. apply always_sleep. intros fl' b h' _ Hx _. destruct b.
  - apply always_vis; [done|]. intros; by ret.
  - ret. intros _. left. by rewrite (ext_open _ _ Hx).
Qed.

Lemma work_spec fuel fl h : open_job h = None ->
  permits (work float_text config fuel) (fun r fl' h' => r = None -> free fl' h') fl h.
Proof.
  intros Ho. unfold work. call. set (h1 := Ev _ x :: h). destruct (match x with Err e => _ | Ok _ => _ end); [ret; done|].
  apply always_bind. eapply always_mono; [apply replay_spec|]. intros r0 fl2 h2 Hx2. cbv beta in Hx2. clear r0.
  assert (open_job h2 = None) as Ho2 by (by rewrite (ext_open _ _ Hx2)).
  apply always_vis; [done|]. intros fl3 [job|e] _ _.
  - apply serve_spec; [done|]. intros ev Hev. by apply elem_of_nil in Hev.
  - destruct e; try (destruct (is_lease_lost _); [ret; done|]); by apply idle_spec.
Qed.

Lemma main_loop_spec fuel : forall turns fl h, free fl h ->
  permits (main_loop float_text config turns fuel) (fun _ _ _ => True) fl h.
Proof.
  induction turns as [|turns IH]; intros fl h Hf; [done|]. cbn [main_loop].
  apply always_vis; [done|]. intros fl1 ch Hle Ha.
  set (h1 := Ev SelectMain ch :: h). assert (free fl1 h1) as Hf1 by (by eapply free_mono).
  destruct ch; [ret; done|ret; done| |].
  - call. apply IH. by eapply free_mono.
  - apply always_bind. eapply always_mono; [apply work_spec|].
    + destruct Hf1 as [?|Hs]; [done|]. simpl in Ha. by rewrite (Ha eq_refl) in Hs.
    + intros [o|] fl2 h2 H2; [ret; done|]. apply IH. auto.
Qed.

Lemma before_recovery_spec h0 : forall fuel fl h, extends h0 h -> permits (before_recovery config fuel) (fun _ _ h' => extends h0 h') fl h.
Proof.
  induction fuel as [|fuel IH]; intros fl h Hx; [done|]. cbn [before_recovery]. call.
  destruct x; [ret; auto with news|]. apply always_sleep. intros fl2 b h2 _ H2 _.
  assert (extends h0 h2) by (eapply extends_trans; [|exact H2]; auto with news). destruct b; [ret; done|by apply IH].
Qed.

Lemma run_leased_spec turns fuel info fl h : open_job h = None ->
  permits (run_leased float_text config turns fuel info) (fun _ _ _ => True) fl h.
Proof.
  intros Ho. unfold run_leased. apply always_bind.
  apply (always_mono _ _ (fun _ _ h' => open_job h' = None)).
  { destruct (cfg_BeforeRecovery config); [|ret; done].
    eapply always_mono; [apply (before_recovery_spec h), extends_refl|]. intros ? ? h' Hx. by rewrite (ext_open _ _ Hx). }
  intros [[]|e] fl1 h1 Ho1; [|ret; done]. apply always_bind. unfold recoverBeforeClaim.
  apply (always_mono _ _ (fun _ _ h' => open_job h' = None)).
  { call. destruct x; [by apply recover_all_spec|ret; done]. }
  intros [[]|e] fl2 h2 Ho2; [|ret; done]. apply always_bind. eapply always_mono; [apply replay_spec|].
  intros [[]|e] fl3 h3 Hx3; [|ret; done]. call. destruct (request x) as [[]|e]; [|ret; done].
  apply main_loop_spec. left. simpl. by rewrite (ext_open _ _ Hx3).
Qed.

Lemma acquire_spec maxWait interval h0 : forall fuel fl h, extends h0 h ->
  permits (acquireLeaseWithRetry fuel maxWait interval) (fun _ _ h' => extends h0 h') fl h.
Proof.
  induction fuel as [|fuel IH]; intros fl h Hx; [done|]. cbn [acquireLeaseWithRetry].
  destruct (_ || _); [ret; done|]. call. destruct x as [info|e]; [ret; auto with news|].
  destruct e; try (call; ret; auto with news; fail).
  call. destruct x as [| |[]]; try (ret; auto with news; fail). apply IH. auto with news.
Qed.

Lemma Run_spec turns fuel fl : permits (Run float_text config turns fuel) (fun _ _ _ => True) fl [].
Proof.
  unfold Run. call. destruct x as [[]|e]; [|ret; done]. apply always_bind.
  eapply always_mono; [apply (acquire_spec _ _ [Ev CheckSchema (Ok tt)]), extends_refl|].
  intros [info|e] fl1 h1 Hx; [|ret; done]. apply always_bind. eapply always_mono; [apply run_leased_spec; by rewrite (ext_open _ _ Hx)|].
  intros r fl2 h2 _. call. ret. done.
Qed.
End Proofs.

(** ** The store behind the process *)

Section Interp.
Context `{Postgres} (sha256hex : string -> string).
Context (serbian_admission viber_admission : option (stmt qtables unit)).

(** A store call runs the operation of [WorkerStore]; [pid] is the backend a
    new lease connection gets.  Every other call is answered by the environment. *)
Definition perform (e : env) (pid : Z) (n : nat) {X} (c : call X) (s : Store) : WM (X * Store) :=
  let on {A} (m : WM A) : WM (result worker_error A * Store) := r ← try m; mret (r, s) in
  match c in call X return X -> WM (X * Store) with
  | SAcquire => fun _ => Acquire s pid
  | SRelease => fun _ => Release s
  | SHeartbeat => fun _ => Heartbeat s
  | SPrune retention batch => fun _ => on (Prune s retention batch)
  | SFailExhausted maxAttempts batch => fun _ => on (FailExhaustedInterrupted sha256hex s maxAttempts batch)
  | SClaim maxAttempts => fun _ => on (Claim serbian_admission viber_admission s maxAttempts)
  | SActiveJobs => fun _ => on ActiveJobs
  | STerminalJobs limit => fun _ => on (TerminalJobsNeedingEvents limit)
  | SDatabaseNow => fun _ => on DatabaseNow
  | SInfo => fun _ => mret (Info s, s)
  | SFinish recovered job state res code => fun _ => on (finish sha256hex s job state res code recovered)
  | _ => fun x => mret (x, s)
  end (respond e n c).

Definition beat_first (due : bool) (s : Store) : WM Store :=
  if due then x ← Heartbeat s; mret x.2 else mret s.

(** The process on its store; [beats n] says that the heartbeat goroutine runs
    a heartbeat before step [n]. *)
Fixpoint interp {A} (e : env) (beats : nat -> bool) (pid : Z) (n : nat) (p : prog A) (s : Store) (h : history) :
    WM (history * option A) :=
  match p with
  | Ret a => mret (h, Some a)
  | Unfinished => mret (h, None)
  | Vis c k =>
      s ← beat_first (beats n) s;
      xs ← perform e pid n c s;
      interp e beats pid (S n) (k xs.1) xs.2 (Ev c xs.1 :: h)
  end.

Context (serbian_admits : forall f, serbian_admission = Some f -> forall lk now d, admitted d (f lk now d).2).
Context (viber_admits : forall f, viber_admission = Some f -> forall lk now d, admitted d (f lk now d).2).

Lemma perform_evolves e pid n {X} (c : call X) s : keeps q_evolves (perform e pid n c s).
Proof using Type*.
  assert (forall A (m : WM A), keeps q_evolves m -> keeps q_evolves (r ← try m; mret (r, s))) as Hon.
  { intros A m Hm. apply keeps_bind; [by apply keeps_try|]. intros. apply keeps_ret. }
  destruct c; simpl; try apply keeps_ret;
    auto using Acquire_evolves, Heartbeat_evolves, Release_evolves, Prune_evolves, finish_evolves, FailExhaustedInterrupted_evolves.
  - apply Hon. by apply job_claim_evolves.
  - apply Hon, keeps_read, _.
  - apply Hon, keeps_bind; [|intros; apply keeps_ret]. apply keeps_exec; [apply _|]. intros; reflexivity.
  - apply Hon, keeps_read, _.
Qed.

Lemma interp_evolves {A} e beats pid (p : prog A) : forall n s h, keeps q_evolves (interp e beats pid n p s h).
Proof using Type*.
  induction p as [a| |X c k IH]; intros n s h; simpl; [apply keeps_ret..|].
  apply keeps_bind.
  { unfold beat_first. destruct (beats n); [|apply keeps_ret]. apply keeps_bind; [apply Heartbeat_evolves|]. intros. apply keeps_ret. }
  intros s1. apply keeps_bind; [apply perform_evolves|]. intros [x s2]. apply IH.
Qed.

(** Store answers are among those [always] allows for. *)
Lemma perform_ok e pid n {X} (c : call X) s w x s' w' :
  env_ok e -> perform e pid n c s w = (Ok (x, s'), w') -> answer_ok (flags_at e n) c x.
Proof.
  intros He. pose proof (respond_ok e n c He) as Hr. destruct c; try done; intros [= <- <- <-]; exact Hr.
Qed.

Lemma interp_meets {A} (P : history -> forall X, call X -> Prop) (Q : A -> flags -> history -> Prop) e beats pid (p : prog A) :
  env_ok e -> forall n s h fl w h' o w', flags_le fl (flags_at e n) -> always P p Q fl h -> calls_meet P h ->
  interp e beats pid n p s h w = (Ok (h', o), w') -> calls_meet P h'.
Proof.
  intros He. induction p as [a| |X c k IH]; intros n s h fl w h' o w' Hle Hp Hh Hr; simpl in Hr.
  - by injection Hr as <- <- <-.
  - by injection Hr as <- <- <-.
  - unfold mbind, M_bind in Hr. destruct (beat_first (beats n) s w) as [[s1|err] w1]; [|done].
    destruct (perform e pid n c s1 w1) as [[[x s2]|err] w2] eqn:Hx; [|done].
    destruct Hp as [H1 H2]. eapply (IH x (S n) s2 (Ev c x :: h) (flags_at e n)); [| |exact (conj H1 Hh)|exact Hr].
    2:{ apply H2; [done|]. by eapply perform_ok. }
    destruct (He n) as (E1 & E2 & _). by split.
Qed.
End Interp.

(** ** The guarantees *)

Lemma calls_meet_at (P : history -> forall X, call X -> Prop) post {X} (c : call X) x pre :
  calls_meet P (post ++ Ev c x :: pre) -> P pre X c.
Proof. induction post as [|[Y d y] post IH]; simpl; [by intros [? _]|]. intros [_ ?]. auto. Qed.

Section Guarantees.
Context `{QueuePolicy} (float_text : string -> option string) (config : Config).

Lemma Run_permitted e turns fuel : env_ok e ->
  calls_meet (permitted float_text config) (run e 0 (Run float_text config turns fuel) []).1.
Proof.
  intros He. apply (always_sound _ e 0 _ (fun _ _ _ => True) (flags_at e 0) []); [done|by split|apply Run_spec|done].
Qed.

(** One job at a time.  In every run of the worker, however the store, the
    executor and the contexts behave, it claims a job only when every job it
    claimed before has had its outcome recorded: an attempt whose outcome is
    not confirmed is never left behind for the next one. *)
Theorem worker_one_job_at_a_time e turns fuel post max x pre :
  env_ok e ->
  (run e 0 (Run float_text config turns fuel) []).1 = post ++ Ev (SClaim max) x :: pre ->
  open_job pre = None.
Proof. intros He Hr. pose proof (Run_permitted e turns fuel He) as Hp. rewrite Hr in Hp. by apply calls_meet_at in Hp. Qed.


Lemma justified_requeue pre recovered job res code :
  justified float_text config pre recovered job "interrupted" res code ->
  policy_MayDeliver (j_kind (job_row_of job)) (j_payload (job_row_of job)) = true ->
  (exists r, seen_receipt pre job r /\ rc_State r = "interrupted") \/ (recovered = false /\ not_posted pre).
Proof.
  intros Hj Hd. remember "interrupted" as st eqn:Hst. destruct Hj; try done.
  - by right.
  - left. eauto.
  - exfalso. unfold recoveredOutcome in *. rewrite Hd in *. congruence.
Qed.

(** C39: a delivery is not repeated.  A job that may deliver to subscribers is put
    back in the queue (finished as interrupted) only when the executor's own
    receipt for the attempt says interrupted, or when this claim of the job was
    never posted to the executor. *)
Theorem requeue_never_repeats_delivery e turns fuel post recovered job res code x pre :
  env_ok e ->
  (run e 0 (Run float_text config turns fuel) []).1 = post ++ Ev (SFinish recovered job "interrupted" res code) x :: pre ->
  policy_MayDeliver (j_kind (job_row_of job)) (j_payload (job_row_of job)) = true ->
  (exists r, seen_receipt pre job r /\ rc_State r = "interrupted") \/
  (recovered = false /\ open_job pre = Some job /\ not_posted pre).
Proof.
  intros He Hr Hd. pose proof (Run_permitted e turns fuel He) as Hp. rewrite Hr in Hp.
  apply calls_meet_at in Hp as [Hj Ho]. destruct (justified_requeue _ _ _ _ _ Hj Hd) as [?|[-> ?]]; auto.
Qed.

(** the process on its store.  Unfinished the worker against the operations of
    the queue store, with heartbeats interleaved anywhere, with any driver
    failures and with other sessions that keep the queue's relation, the tables
    evolve as the queue requires, and the calls the process made are permitted
    ones: no claim over an open job, no unjustified finish. *)
Theorem worker_process_safe `{Postgres} sha256hex serbian viber e beats pid turns fuel s w h o w' :
  (forall f, serbian = Some f -> forall lk now d, admitted d (f lk now d).2) ->
  (forall f, viber = Some f -> forall lk now d, admitted d (f lk now d).2) ->
  env_ok e -> w_tx w = None -> rely q_evolves (w_env w) ->
  interp sha256hex serbian viber e beats pid 0 (Run float_text config turns fuel) s [] w = (Ok (h, o), w') ->
  q_evolves (w_db w) (w_db w') /\ calls_meet (permitted float_text config) h.
Proof.
  intros Hs Hv He Htx Hr Hrun. split.
  - replace w' with (interp sha256hex serbian viber e beats pid 0 (Run float_text config turns fuel) s [] w).2 by (by rewrite Hrun).
    apply keeps_sound; [apply _|by apply interp_evolves|done|done].
  - eapply (interp_meets _ _ _ _ (fun _ _ _ => True)); [exact He| |apply Run_spec| |exact Hrun]; [|done].
    apply (conj (fun x => x) (fun x => x)).
Qed.
End Guarantees.

Definition is_loss (e : event) : bool := match e with Ev c _ => match c with NotifyLoss => true | _ => false end end.
Definition beat_failed (e : event) : bool :=
  match e with
  | Ev c x => match c in call X return X -> bool with
              | SHeartbeat => fun r => negb (is_ok r)
              | _ => fun _ => false
              end x
  end.

Lemma heartbeatLoop_runs e fuel : forall n h0,
  exists h1, Forall (fun ev => is_loss ev = false /\ beat_failed ev = false) h1 /\
    ((run e n (heartbeatLoop fuel) h0).1 = h1 ++ h0 \/
     exists err, run e n (heartbeatLoop fuel) h0 = (Ev NotifyLoss tt :: Ev SHeartbeat (Err err) :: h1 ++ h0, Some tt)).
Proof.
  induction fuel as [|fuel IH]; intros n h0; [exists []; split; [constructor|by left]|].
  cbn [heartbeatLoop]. set (tick := respond e n BeatTick).
  change (run e n _ h0) with (run e (S n) (if tick then r ← vis SHeartbeat; match r with Ok _ => heartbeatLoop fuel | Err _ => vis NotifyLoss end
    else Ret tt) (Ev BeatTick tick :: h0)).
  destruct tick eqn:Ht; [|exists [Ev BeatTick false]; split; [by repeat constructor|by left]].
  set (r := respond e (S n) SHeartbeat).
  change (run e (S n) _ ?h) with (run e (S (S n)) (match r with Ok _ => heartbeatLoop fuel | Err _ => vis NotifyLoss end) (Ev SHeartbeat r :: h)).
  destruct r as [[]|err] eqn:Hr.
  - destruct (IH (S (S n)) (Ev SHeartbeat (Ok tt) :: Ev BeatTick true :: h0)) as (h1 & Hq & Hh).
    exists (h1 ++ [Ev SHeartbeat (Ok tt); Ev BeatTick true]). split.
    + apply Forall_app. split; [done|]. by repeat constructor.
    + rewrite <- app_assoc. exact Hh.
  - exists [Ev BeatTick true]. split; [by repeat constructor|]. right. exists err.
    change (run e (S (S n)) (vis NotifyLoss) ?h) with
      (Ev NotifyLoss (respond e (S (S n)) NotifyLoss) :: h, Some (respond e (S (S n)) NotifyLoss)).
    by destruct (respond e (S (S n)) NotifyLoss).
Qed.


(** ** A concrete run *)

Module RunSample.
#[export] Instance news_policy : QueuePolicy := Adapter (fun lit => Some lit).
Definition float_text (lit : string) : option string := Some lit.
Definition config : Config := MkConfig false Second (7 * Day) 3 (5 * Second).
Definition row (kind : string) : job_row := JobRow kind (JObj []) None 1 Running (Some 5) 1 0 None None None None None None.
Definition digest_job : Job := MkJob "job" (row "telegram_digest").

Definition ok_reply (j : json) : reply := Some (ExecReply 200 (HttpBody false 100 (lex_of j) AtEof) 2).
Definition status_reply (code : Z) : reply := Some (ExecReply code (HttpBody false 0 [] AtEof) 0).
Definition receipt_reply (state : string) : reply := ok_reply (JObj [("job_id", JStr "job"); ("owner_id", JStr "owner");
  ("generation", JNum "5"); ("attempt_generation", JNum "1"); ("deadline_at", JStr "2023-11-14T23:13:20.000000Z");
  ("executor_instance_id", JStr "exec"); ("state", JStr state); ("result", JObj [])]).

(** The executor has no receipt until the POST at step 14, then an interrupted one. *)
Definition answers (n : nat) (X : Type) (c : call X) : X :=
  match c in call X return X with
  | CheckSchema => Ok tt
  | SAcquire => Ok (MkLeaseInfo "owner" 5 77)
  | SRelease | SHeartbeat => Ok tt
  | SPrune _ _ | SFailExhausted _ _ => Ok 0
  | SClaim _ => Ok digest_job
  | SActiveJobs | STerminalJobs _ => Ok []
  | SDatabaseNow => Ok (1700000000 * Second)
  | SInfo => MkLeaseInfo "owner" 5 77
  | SFinish _ _ _ _ _ => Ok tt
  | HStatus => ok_reply (JObj [("executor_instance_id", JStr "exec"); ("ready", JBool true)])
  | HPolicy _ => ok_reply (JObj [("timeout_seconds", JNum "3600")])
  | HAccept _ => status_reply 202
  | HReceipt _ _ => if (n <? 15)%nat then status_reply 404 else receipt_reply "interrupted"
  | HCancel _ _ => status_reply 500
  | HFinalized _ _ | HRecovered _ _ => status_reply 200
  | CtxErr _ | SleepFor _ _ => false
  | BeforeRecovery => true
  | SelectMain => SelDefault
  | SelectLease => LeaseDeadline
  | BeatTick => true
  | NotifyLoss => tt
  end.
Definition world_env : env := Env answers (fun n => (20 <=? n)%nat) (fun _ => false) (fun _ => false) (fun _ => false) (fun _ => false).

Lemma world_env_ok : env_ok world_env.
Proof.
  intros n. split_and!; [|done|done]. unfold shut, world_env. intros Hn. apply Nat.leb_le in Hn. apply Nat.leb_le. lia.
Qed.

Definition the_run : history := (run world_env 0 (Run float_text config 3 3) []).1.

(** The calls of the run, by name. *)
Definition finished (e : event) : option (string * string) :=
  match e with Ev c _ => match c with SFinish _ job state _ _ => Some (job_ID job, state) | _ => None end end.
End RunSample.

Import QueueSample RunSample.

(** The event at a position from the end of a history, and what surrounds it. *)
Lemma run_split (h : history) k ev : h !! k = Some ev -> h = take k h ++ ev :: drop (S k) h.
Proof. intros Hk. symmetry. by apply take_drop_middle. Qed.

Lemma worker_one_job_at_a_time_witness :
  the_run !! 14%nat = Some (Ev (SClaim 3) (Ok digest_job)) /\ open_job (drop 15 the_run) = None.
Proof.
  split; [by_eval|].
  apply (worker_one_job_at_a_time float_text config world_env 3 3 (take 14 the_run) 3 (Ok digest_job) (drop 15 the_run));
    [exact world_env_ok|]. apply run_split. by_eval.
Defined.


Lemma requeue_never_repeats_delivery_witness :
  (exists r, seen_receipt (drop 4 the_run) digest_job r /\ rc_State r = "interrupted") \/
  (false = false /\ open_job (drop 4 the_run) = Some digest_job /\ not_posted (drop 4 the_run)).
Proof.
  apply (requeue_never_repeats_delivery float_text config world_env 3 3 (take 3 the_run) false digest_job
    (Some []) (Some "worker_error") (Ok tt) (drop 4 the_run)); [exact world_env_ok| |by_eval]. apply run_split. by_eval.
Defined.

(** The same process on the tables of the queue sample. *)
Definition live : result worker_error (history * option (result werr unit)) * world qtables :=
  Eval vm_compute in interp sha admits admits world_env (fun _ => false) 77 0 (Run float_text config 2 2) fresh [] (at_time start t0).
Definition live_history : history * option (result werr unit) :=
  Eval vm_compute in match live.1 with Ok r => r | Err _ => ([], None) end.

Lemma worker_process_safe_witness :
  q_evolves start (w_db live.2) /\ calls_meet (permitted float_text config) live_history.1.
Proof.
  apply (worker_process_safe float_text config sha admits admits world_env (fun _ => false) 77 2 2 fresh
    (at_time start t0) live_history.1 live_history.2 live.2);
    [exact admission_admits..|exact world_env_ok|done|constructor|by_eval].
Defined.
