(* ===== verification/ExecPayload.v ===== *)
(** * ExecPayload: go-execution/validation.go and delivery_risk.go

    What the executor accepts as the payload of a stored job and as the result
    of a pipeline, and which jobs may deliver to subscribers.

    Texts are given as what encoding/json reads from them (a document or not)
    together with their length.  [canonical_uuid] stands for the round trip
    through the uuid package: the text parses and prints as itself. *)

From Stdlib Require Import Floats.SpecFloat.
From S2P Require Import Prelude JsonStrict GoTime GoText GoDecode GoParseTime.

Inductive exec_error := ErrInvalidPayload | ErrLeaseLost | ErrNotReady | ErrStaleAttempt | ErrConflict | ErrDeadline | ErrDatabase.

#[export] Instance exec_error_eq_dec : EqDecision exec_error.
Proof. solve_decision. Defined.

(** [strings.Contains] on bytes *)
Fixpoint has_prefix (p l : list Z) : bool :=
  match p, l with
  | [], _ => true
  | x :: p', y :: l' => (x =? y) && has_prefix p' l'
  | _, [] => false
  end.
Fixpoint contains_bytes (l p : list Z) : bool :=
  has_prefix p l || match l with [] => false | _ :: l' => contains_bytes l' p end.
Definition Contains (s sub : string) : bool := contains_bytes (bytes_of s) (bytes_of sub).
(** [strings.ContainsAny] *)
Definition ContainsAny (s chars : string) : bool := existsb (fun c => bool_decide (c ∈ bytes_of chars)) (bytes_of s).

(** ** Scalars *)

(** [rawInt]; a missing member is [None] *)
Definition rawInt (raw : option json) : option Z :=
  match raw with
  | Some (JNum lit) => if ContainsAny lit ".eE+" then None else ParseInt lit
  | _ => None
  end.

(** The layouts of [validISODateTime]: with microseconds or not, and three zones. *)
Inductive iso_zone := NoZone | ZoneMinutes | ZoneSeconds.

(** What [time.Parse] with a numeric zone layout followed by the comparison with
    [Format] accepts: an offset up to 24 hours, written the way Format does (no
    negative zero); the seconds layout is skipped when the seconds are zero. *)
Definition iso_offset (zone : iso_zone) (l : list Z) : bool :=
  match zone, l with
  | NoZone, [] => true
  | ZoneMinutes, [s; h1; h2; c1; m1; m2] =>
      match getnum true [h1; h2], getnum true [m1; m2] with
      | Some (hh, _), Some (mm, _) =>
          ((s =? 43) || (s =? 45)) && (c1 =? 58) && (hh <=? 24) && (mm <=? 59) &&
          negb ((s =? 45) && (hh * 60 + mm =? 0))
      | _, _ => false
      end
  | ZoneSeconds, [s; h1; h2; c1; m1; m2; c2; s1; s2] =>
      match getnum true [h1; h2], getnum true [m1; m2], getnum true [s1; s2] with
      | Some (hh, _), Some (mm, _), Some (ss, _) =>
          ((s =? 43) || (s =? 45)) && (c1 =? 58) && (c2 =? 58) && (hh <=? 24) && (mm <=? 59) &&
          (1 <=? ss) && (ss <=? 59) && negb ((s =? 45) && (hh * 60 + mm =? 0))
      | _, _, _ => false
      end
  | _, _ => false
  end.

(** The fraction of the layout [.000000], skipped when it is zero. *)
Definition iso_fraction (micro : bool) (l : list Z) : option (list Z) :=
  if micro then
    match l with
    | 46 :: a :: b :: c :: d :: e :: f :: r =>
        if forallb is_digit [a; b; c; d; e; f] && negb (nanoseconds [a; b; c; d; e; f] =? 0) then Some r else None
    | _ => None
    end
  else Some l.

Definition iso_layout (micro : bool) (zone : iso_zone) (value : string) : bool :=
  match
    '(year, l) ← year4 (bytes_of value);
    l ← literal 45 l;
    '(month, l) ← getnum true l;
    l ← literal 45 l;
    '(day, l) ← getnum true l;
    l ← literal 84 l;
    '(hour, l) ← getnum true l;
    l ← literal 58 l;
    '(minute, l) ← getnum true l;
    l ← literal 58 l;
    '(sec, l) ← getnum true l;
    l ← iso_fraction micro l;
    Some ((1 <=? month) && (month <=? 12) && (1 <=? day) && (day <=? daysIn month year) &&
          (hour <? 24) && (minute <? 60) && (sec <? 60) && iso_offset zone l)
  with
  | Some b => b
  | None => false
  end.

Definition validISODateTime (value : string) : bool :=
  negb (value =? "")%string &&
  existsb (fun layout => iso_layout layout.1 layout.2 value)
    [(false, NoZone); (true, NoZone); (false, ZoneMinutes); (true, ZoneMinutes); (false, ZoneSeconds); (true, ZoneSeconds)].

(** ** Payloads *)

Definition scheduled_keys : list string := ["schedule_id"; "scheduled_for"; "timeout_seconds"].

(** The keys each kind allows; [None] for an unknown kind. *)
Definition allowed_keys (kind : string) : option (list string) :=
  if bool_decide (kind ∈ ["news_processing"; "telegram_digest"; "backup"]) then Some scheduled_keys
  else if (kind =? "news_digest")%string then Some (scheduled_keys ++ ["run_processing"; "send_telegram"])
  else if (kind =? "reprocess_failed")%string then Some (scheduled_keys ++ ["limit"; "dry_run"])
  else if (kind =? "article_reprocess")%string then Some ["article_ids"; "force"; "reextract_media"]
  else if (kind =? "summaries_generate")%string then Some []
  else if (kind =? "source_test")%string then Some ["source_id"]
  else if (kind =? "serbian_digest_retry")%string then Some ["russian_edition_id"]
  else if (kind =? "viber_digest_delivery")%string then Some ["delivery_id"]
  else None.

(** The exchange sort on [vals]: one turn of the outer loop, then the rest. *)
Fixpoint sift (x : Z) (l : list Z) : Z * list Z :=
  match l with
  | [] => (x, [])
  | y :: l' => if y <? x then let '(m, r) := sift y l' in (m, x :: r) else let '(m, r) := sift x l' in (m, y :: r)
  end.
Fixpoint exchange_sort (fuel : nat) (l : list Z) : list Z :=
  match fuel, l with
  | S fuel, x :: l' => let '(m, r) := sift x l' in m :: exchange_sort fuel r
  | _, _ => l
  end.

(** The loop over [ids]: positive, distinct. *)
Fixpoint article_values (seen : list Z) (ids : list json) : option (list Z) :=
  match ids with
  | [] => Some []
  | v :: ids' =>
      match rawInt (Some v) with
      | Some n => if (n <=? 0) || bool_decide (n ∈ seen) then None
                  else vals ← article_values (n :: seen) ids'; Some (n :: vals)
      | None => None
      end
  end.

Section Payload.
Context (canonical_uuid : string -> bool).

(** [json.Unmarshal(p[key], &id)] and [canonicalUUID(id)], the only key *)
Definition single_uuid (p : list (string * json)) (key : string) : bool :=
  (Z.of_nat (length p) =? 1) &&
  match get p key with
  | Some (JStr id) => canonical_uuid id
  | Some JNull => canonical_uuid ""
  | _ => false
  end.

Definition check_bool (p : list (string * json)) (k : string) : bool :=
  match get p k with None | Some (JBool _) => true | _ => false end.
Definition check_int (lo : Z) (hi : option Z) (p : list (string * json)) (k : string) : bool :=
  match get p k with
  | None => true
  | raw => match rawInt raw with
           | Some n => (lo <=? n) && match hi with Some h => n <=? h | None => true end
           | None => false
           end
  end.

Definition check_schedule (p : list (string * json)) : bool :=
  bool_decide (is_Some (get p "schedule_id") <-> is_Some (get p "scheduled_for")) &&
  match get p "schedule_id" with
  | None => true
  | raw => match rawInt raw with
           | Some n => (0 <? n) && match get p "scheduled_for" with
                                   | Some (JStr stamp) => validISODateTime stamp
                                   | Some JNull => validISODateTime ""
                                   | _ => false
                                   end
           | None => false
           end
  end.

Definition default_member (k : string) (v : json) (p : list (string * json)) : list (string * json) :=
  match get p k with None => upsert k v p | Some _ => p end.

(** [validatePayload]: the members of the validated object *)
Definition validatePayload (kind : string) (len_ : Z) (payload : option json) : result exec_error (list (string * json)) :=
  match payload with
  | Some (JObj ms) =>
      let p := raw_map ms in
      _ ← guard_err (4096 <? len_) ErrInvalidPayload;
      match allowed_keys kind with
      | None => Err ErrInvalidPayload
      | Some allowed =>
          _ ← guard_err ((kind =? "serbian_digest_retry")%string && negb (single_uuid p "russian_edition_id")) ErrInvalidPayload;
          _ ← guard_err ((kind =? "viber_digest_delivery")%string && negb (single_uuid p "delivery_id")) ErrInvalidPayload;
          _ ← guard_err (negb (forallb (fun kv => bool_decide (kv.1 ∈ allowed)) p)) ErrInvalidPayload;
          _ ← guard_err (negb (check_schedule p)) ErrInvalidPayload;
          _ ← guard_err (negb (check_int 1 (Some 86400) p "timeout_seconds")) ErrInvalidPayload;
          _ ← guard_err (negb (forallb (check_bool p) ["run_processing"; "send_telegram"; "dry_run"; "force"; "reextract_media"]))
                ErrInvalidPayload;
          _ ← guard_err (negb (check_int 1 (Some 100) p "limit" && check_int 1 None p "source_id")) ErrInvalidPayload;
          p ← (if (kind =? "article_reprocess")%string then
                 match get p "article_ids" with
                 | Some (JArr ids) =>
                     _ ← guard_err ((Z.of_nat (length ids) <? 1) || (100 <? Z.of_nat (length ids))) ErrInvalidPayload;
                     match article_values [] ids with
                     | None => Err ErrInvalidPayload
                     | Some vals =>
                         let sorted := exchange_sort (length vals) vals in
                         let p := upsert "article_ids" (JArr (map (fun n => JNum (itoa n)) sorted)) p in
                         Ok (default_member "reextract_media" (JBool false) (default_member "force" (JBool true) p))
                     end
                 | _ => Err ErrInvalidPayload
                 end
               else Ok p);
          _ ← guard_err ((kind =? "source_test")%string && negb (bool_decide (is_Some (get p "source_id")))) ErrInvalidPayload;
          Ok p
      end
  | _ => Err ErrInvalidPayload
  end.
End Payload.

Definition mayDeliver (kind : string) (payload : option json) : bool :=
  if bool_decide (kind ∈ ["telegram_digest"; "serbian_digest_retry"; "viber_digest_delivery"]) then true
  else if negb (kind =? "news_digest")%string then false
  else match payload with
       | Some (JObj ms) =>
           match get (raw_map ms) "send_telegram" with
           | Some (JBool b) => b
           | Some JNull => false
           | _ => true
           end
       | _ => true
       end.

(** ** Results *)

(** The exponent of a literal, which has at least one digit. *)
Definition exponent (l : list Z) : option Z :=
  match l with
  | 45 :: ds => Z.opp <$> decimal_value 0 ds
  | 43 :: ds | ds => decimal_value 0 ds
  end.

(** The value of a JSON number literal: sign, digits and decimal exponent. *)
Definition parse_decimal (lit : string) : option (bool * Z * Z) :=
  let l := bytes_of lit in
  let '(neg, l) := match l with 45 :: l' => (true, l') | _ => (false, l) end in
  let '(int, l) := span_digits l in
  let '(frac, l) := match l with 46 :: l' => span_digits l' | _ => ([], l) end in
  m ← decimal_value 0 (int ++ frac);
  e ← match l with
      | [] => Some 0
      | c :: l' => if (c =? 101) || (c =? 69) then exponent l' else None
      end;
  Some (neg, m, e - Z.of_nat (length frac)).

(** The binary64 nearest to m * 10^e: the quotient to more than 60 bits, its
    remainder as a last sticky bit, rounded once. *)
Definition float_of_decimal (m e : Z) : spec_float :=
  let p := if 0 <=? e then m * 10 ^ e else m in
  let q := if 0 <=? e then 1 else 10 ^ (- e) in
  let k := Z.max 0 (64 + Z.log2 q - Z.log2 p) in
  binary_normalize 53 1024 (2 * (p * 2 ^ k / q) + (if p * 2 ^ k mod q =? 0 then 0 else 1)) (- k - 1) false.

(** [m * 10^e > a / 2^k] *)
Definition exceeds (m e a k : Z) : bool :=
  if 0 <=? e then a <? m * 10 ^ e * 2 ^ k else a * 10 ^ (- e) <? m * 2 ^ k.

(** [z.Float64()] succeeds with [0 <= f <= 1e9].  The nearest float64 is negative
    below -2^-1075 and above 1e9 beyond half a unit in the last place, 2^-24. *)
Definition float_in_range (lit : string) : bool :=
  match parse_decimal lit with
  | Some (neg, m, e) => if neg then negb (exceeds m e 1 1075) else negb (exceeds m e (10 ^ 9 * 2 ^ 24 + 1) 24)
  | None => false
  end.

Definition result_keys : list string :=
  ["status"; "success"; "settled"; "retryable"; "articles_fetched"; "articles_processed"; "articles_summarized";
   "articles_categorized"; "articles_requeued"; "articles_rejected"; "articles_retrying"; "articles_exhausted";
   "total_candidates"; "found_candidates"; "processed"; "improved"; "summaries_generated"; "parts_sent"; "errors_count";
   "duration_seconds"; "backup_bytes"; "requeued_count"; "dry_run"; "connection_ok"; "article_outcomes";
   "article_outcomes_total"; "article_outcomes_omitted"].

(** [strictRawObject] of a text that reads as [raw] *)
Definition strictRawObject (raw : option json) : option (list (string * json)) :=
  match raw with
  | Some (JObj ms) => if bool_decide (NoDup ms.*1) then Some ms else None
  | _ => None
  end.

Definition piped (choices st : string) : bool := Contains choices ("|" +:+ st +:+ "|").
Definition unmarshal_string (raw : option json) : option string :=
  match raw with Some (JStr s) => Some s | Some JNull => Some "" | _ => None end.

(** One item of [article_outcomes]: its id. *)
Definition outcome_id (raw : json) : option Z :=
  outcome ← strictRawObject (Some raw);
  if negb (Z.of_nat (length outcome) =? 3) ||
     negb (forallb (fun kv => bool_decide (kv.1 ∈ ["article_id"; "state"; "reason"])) outcome) then None
  else
    id ← rawInt (get outcome "article_id");
    state ← unmarshal_string (get outcome "state");
    reason ← unmarshal_string (get outcome "reason");
    if (id <=? 0) || (2147483647 <? id) ||
       negb (piped "|completed|rejected|exhausted|pending|retry_wait|processing|" state) ||
       negb (piped "|advertisement|resource_limit|category_mapping_failed|missing_summary|smart_filter_rejected|extraction_challenge|provider_timeout|other|" reason)
    then None else Some id.

Fixpoint outcome_ids (seen : list Z) (l : list json) : option (list Z) :=
  match l with
  | [] => Some []
  | raw :: l' =>
      id ← outcome_id raw;
      if bool_decide (id ∈ seen) then None
      else ids ← outcome_ids (id :: seen) l'; Some (id :: ids)
  end.

Definition validateArticleOutcomes (m : list (string * json)) : bool :=
  match get m "article_outcomes", get m "article_outcomes_total", get m "article_outcomes_omitted" with
  | None, None, None => true
  | Some (JArr outcomes), Some total, Some omitted =>
      (Z.of_nat (length outcomes) <=? 100) &&
      bool_decide (is_Some (outcome_ids [] outcomes)) &&
      match rawInt (Some total), rawInt (Some omitted) with
      | Some t, Some o => (Z.of_nat (length outcomes) <=? t) && (t <=? 100) && (o =? t - Z.of_nat (length outcomes))
      | _, _ => false
      end
  | _, _, _ => false
  end.

Definition check_member (kv : string * json) : bool :=
  let '(k, v) := kv in
  if negb (bool_decide (k ∈ result_keys)) then false
  else if (k =? "status")%string then
    match unmarshal_string (Some v) with
    | Some st => piped "|success|warning|deferred|dry_run|completed|rejected|exhausted|retry_wait|incomplete|settled|busy|" st
    | None => false
    end
  else if (k =? "article_outcomes")%string then true
  else if piped "|success|settled|retryable|dry_run|connection_ok|" k then
    match v with JBool _ => true | _ => false end
  else match v with JNum lit => float_in_range lit | _ => false end.

(** [safeResult]: the accepted text is returned as it is, an empty one as the
    empty object *)
Definition safeResult (len_ : Z) (raw : option json) : result exec_error (list (string * json)) :=
  if len_ =? 0 then Ok []
  else
    _ ← guard_err (4096 <? len_) ErrInvalidPayload;
    match strictRawObject raw with
    | None => Err ErrInvalidPayload
    | Some m =>
        _ ← guard_err (negb (validateArticleOutcomes m)) ErrInvalidPayload;
        _ ← guard_err (negb (forallb check_member m)) ErrInvalidPayload;
        Ok m
    end.

(** ** Delivery risk *)

(** What the code asks of a handler's error: does it carry a [DeliveryRisk],
    and is it [context.Canceled]? *)
Record failure := Failure { fl_risk : option bool; fl_canceled : bool }.

Definition DeliveryOutcomeUnknown (kind : string) (payload : option json) (err : option failure) : bool :=
  match err with
  | Some (Failure (Some started) _) => started
  | _ => mayDeliver kind payload
  end.

Inductive context_end := StillOpen | Canceled | DeadlineExceeded.

Definition pipelineFailureDisposition (kind : string) (payload : option json) (runErr : option failure)
    (contextErr : context_end) : string * string :=
  if DeliveryOutcomeUnknown kind payload runErr then ("delivery_unknown", "external_outcome_unknown")
  else if match contextErr with Canceled => true | _ => false end ||
          match runErr with Some f => fl_canceled f | None => false end
  then ("interrupted", "worker_interrupted")
  else ("failed", "worker_error").

(** The closed vocabulary of [status] is not closed: a text with a bar between
    two of its words passes the substring test. *)
Example piped_status_accepted :
  safeResult 28 (Some (JObj [("status", JStr "success|warning")])) = Ok [("status", JStr "success|warning")].
Proof. by_eval. Qed.

(** ** The sort of article ids *)

Lemma sift_spec x l m r : sift x l = (m, r) -> x :: l ≡ₚ m :: r /\ Forall (fun y => m <= y) r /\ m <= x.
Proof.
  revert x m r. induction l as [|y l IH]; intros x m r; simpl; [intros [= <- <-]; split_and!; [done|constructor|lia]|].
  destruct (y <? x) eqn:Hyx; bool_to_prop.
  - destruct (sift y l) as [m' r'] eqn:Hs. intros [= <- <-]. destruct (IH _ _ _ Hs) as (Hp & Hall & Hle).
    split_and!; [|constructor; [lia|done]|lia]. etransitivity; [apply perm_skip, Hp|]. apply perm_swap.
  - destruct (sift x l) as [m' r'] eqn:Hs. intros [= <- <-]. destruct (IH _ _ _ Hs) as (Hp & Hall & Hle).
    split_and!; [|constructor; [lia|done]|lia].
    etransitivity; [apply perm_swap|]. etransitivity; [apply perm_skip, Hp|]. apply perm_swap.
Qed.
Lemma sift_length x l m r : sift x l = (m, r) -> length r = length l.
Proof. intros Hs. apply sift_spec in Hs as [Hp _]. apply Permutation_length in Hp. simpl in Hp. lia. Qed.

Lemma exchange_sort_spec fuel : forall l, (length l <= fuel)%nat ->
  exchange_sort fuel l ≡ₚ l /\ StronglySorted Z.le (exchange_sort fuel l).
Proof.
  induction fuel as [|fuel IH]; intros [|x l] Hl; simpl in *; try (split; [done|apply SSorted_nil]); [lia|].
  destruct (sift x l) as [m r] eqn:Hs. pose proof (sift_length _ _ _ _ Hs) as Hlen.
  apply sift_spec in Hs as (Hp & Hall & _). destruct (IH r) as [Hpr Hsr]; [lia|]. split.
  - by rewrite Hpr, Hp.
  - constructor; [done|]. by rewrite Hpr.
Qed.

Lemma sift_sorted x l : Forall (fun y => x <= y) l -> sift x l = (x, l).
Proof.
  induction 1 as [|y l Hy Hl IH]; simpl; [done|]. rewrite (proj2 (Z.ltb_ge _ _)) by done. by rewrite IH.
Qed.
Lemma exchange_sort_sorted fuel l : StronglySorted Z.le l -> exchange_sort fuel l = l.
Proof.
  revert l. induction fuel as [|fuel IH]; intros l Hl; [done|]. destruct Hl as [|x l Hl Hx]; [done|].
  simpl. rewrite sift_sorted by done. by rewrite IH.
Qed.

(** ** Integers of payloads read back *)

Lemma rawInt_itoa n : 0 <= n < 2 ^ 63 -> rawInt (Some (JNum (itoa n))) = Some n.
Proof.
  intros Hn. unfold rawInt. replace (ContainsAny (itoa n) ".eE+") with false; [by apply ParseInt_itoa|].
  symmetry. unfold ContainsAny. apply not_true_iff_false. rewrite existsb_exists. intros (c & Hc & Hin).
  pose proof (itoa_digits n ltac:(lia)) as Hd. rewrite List.Forall_forall in Hd. specialize (Hd c Hc).
  bool_to_prop. revert Hin. change (bytes_of ".eE+") with [46; 101; 69; 43]. set_unfold. lia.
Qed.
Lemma rawInt_bound raw n : rawInt raw = Some n -> n < 2 ^ 63.
Proof.
  unfold rawInt. destruct raw as [[]|]; try done. destruct (ContainsAny _ _); [done|]. apply ParseInt_bound.
Qed.

Lemma article_values_spec ids : forall seen vals, article_values seen ids = Some vals ->
  length vals = length ids /\ Forall (fun n => 0 < n < 2 ^ 63) vals /\ NoDup vals /\ (forall n, n ∈ vals -> n ∉ seen).
Proof.
  induction ids as [|v ids IH]; intros seen vals; cbn [article_values]; [intros [= <-]; split_and!; [done|constructor|constructor|set_solver]|].
  destruct (rawInt (Some v)) as [n|] eqn:Hn; [|done]. destruct (_ || _) eqn:Hg; [done|]. bool_to_prop.
  destruct (article_values (n :: seen) ids) as [vals'|] eqn:Hv; [|done]. intros [= <-].
  destruct (IH _ _ Hv) as (H1 & H2 & H3 & H4). apply rawInt_bound in Hn. split_and!.
  - csimpl. congruence.
  - constructor; [lia|done].
  - constructor; [|done]. intros Hi. apply H4 in Hi. set_solver.
  - intros m Hm. apply elem_of_cons in Hm as [->|Hm]; [done|]. apply H4 in Hm. set_solver.
Qed.

Lemma article_values_itoa vals : Forall (fun n => 0 < n < 2 ^ 63) vals -> NoDup vals -> forall seen,
  (forall n, n ∈ vals -> n ∉ seen) -> article_values seen (map (fun n => JNum (itoa n)) vals) = Some vals.
Proof.
  induction 1 as [|n vals Hn Hvals IH]; intros Hnd seen Hs; cbn [article_values map]; [done|]. apply NoDup_cons in Hnd as [Hni Hnd].
  rewrite rawInt_itoa by lia. rewrite (proj2 (Z.leb_gt _ _)) by lia.
  rewrite bool_decide_eq_false_2 by (apply Hs; left). cbn [orb]. rewrite IH; [done|done|].
  intros m Hm. rewrite not_elem_of_cons. split; [intros ->; done|]. apply Hs. by right.
Qed.

(** ** Validation is a normal form *)

Section Validation.
Context (canonical_uuid : string -> bool).

(** The checks that do not depend on the normalisation of article ids. *)
Record payload_ok (kind : string) (p : list (string * json)) : Prop := {
  po_keys : exists allowed, allowed_keys kind = Some allowed /\ forallb (fun kv => bool_decide (kv.1 ∈ allowed)) p = true;
  po_serbian : kind = "serbian_digest_retry" -> single_uuid canonical_uuid p "russian_edition_id" = true;
  po_viber : kind = "viber_digest_delivery" -> single_uuid canonical_uuid p "delivery_id" = true;
  po_schedule : check_schedule p = true;
  po_timeout : check_int 1 (Some 86400) p "timeout_seconds" = true;
  po_bools : forallb (check_bool p) ["run_processing"; "send_telegram"; "dry_run"; "force"; "reextract_media"] = true;
  po_limit : check_int 1 (Some 100) p "limit" = true;
  po_source : check_int 1 None p "source_id" = true;
}.

(** What the article branch makes of the ids. *)
Definition article_ok (p p' : list (string * json)) : Prop :=
  exists ids vals, get p "article_ids" = Some (JArr ids) /\ 1 <= Z.of_nat (length ids) <= 100 /\
    article_values [] ids = Some vals /\
    p' = default_member "reextract_media" (JBool false) (default_member "force" (JBool true)
           (upsert "article_ids" (JArr (map (fun n => JNum (itoa n)) (exchange_sort (length vals) vals))) p)).

Lemma kind_test kind k (b : bool) : (kind =? k)%string && negb b = false <-> (kind = k -> b = true).
Proof. destruct (String.eqb_spec kind k), b; simpl; naive_solver. Qed.

Lemma validatePayload_ok kind n payload p' :
  validatePayload canonical_uuid kind n payload = Ok p' <->
  n <= 4096 /\ exists ms, payload = Some (JObj ms) /\ payload_ok kind (raw_map ms) /\
    (kind = "source_test" -> is_Some (get p' "source_id")) /\
    (if (kind =? "article_reprocess")%string then article_ok (raw_map ms) p' else p' = raw_map ms).
Proof.
  unfold validatePayload. split.
  - destruct payload as [[]|]; try done. intros Hv. ok_inv.
    destruct (allowed_keys kind) as [allowed|] eqn:Hal; [|done].
    repeat match goal with H : mbind _ _ = Ok _ |- _ => apply result_bind_ok in H as (? & ? & ?) end.
    repeat match goal with H : guard_err _ _ = Ok _ |- _ => apply guard_err_ok in H end.
    repeat match goal with H : (kind =? _)%string && negb _ = false |- _ => rewrite kind_test in H end.
    bool_to_prop. simplify_eq/=. split; [done|]. eexists. split; [done|]. split; [by split; eauto|].
    split; [intros Hk; eapply bool_decide_eq_true_1; eauto|].
    destruct (kind =? "article_reprocess")%string; [|by simplify_eq].
    destruct (get _ "article_ids") as [[]|] eqn:Hget; try done. ok_inv.
    destruct (article_values [] _) as [vals|] eqn:Hvals; [|done]. simplify_eq.
    do 2 eexists. split; [done|]. split; [lia|]. split; [done|]. done.
  - intros (Hn & ms & -> & [(allowed & Hal & Hk) Hs Hvb Hsch Hto Hb Hl Hsrc] & Hst & Hart). rewrite Hal.
    rewrite (proj2 (Z.ltb_ge _ _)) by done. cbn [guard_err mbind result_bind].
    rewrite (proj2 (kind_test kind _ _) Hs), (proj2 (kind_test kind _ _) Hvb), Hk, Hsch, Hto, Hb, Hl, Hsrc.
    cbn [guard_err mbind result_bind negb andb].
    assert (forall q : list (string * json), is_Some (get q "source_id") \/ kind <> "source_test" ->
      (kind =? "source_test")%string && negb (bool_decide (is_Some (get q "source_id"))) = false) as Hg.
    { intros q Hq. apply kind_test. intros ->. apply bool_decide_eq_true. destruct Hq; [done|congruence]. }
    destruct (String.eqb_spec kind "article_reprocess") as [->|Hne].
    + destruct Hart as (ids & vals & -> & Hids & -> & ->).
      rewrite (proj2 (Z.ltb_ge _ _)), (proj2 (Z.ltb_ge _ _)) by lia. done.
    + subst p'. cbn [mbind result_bind]. rewrite Hg; [done|].
      destruct (decide (kind = "source_test")); [left; auto|by right].
Qed.

Lemma get_default k v p k' :
  get (default_member k v p) k' = if (k' =? k)%string then Some (default v (get p k)) else get p k'.
Proof.
  unfold default_member. destruct (get p k) as [u|] eqn:Hg; [|apply get_upsert].
  by destruct (String.eqb_spec k' k) as [->|].
Qed.
Lemma default_same k v p : is_Some (get p k) -> default_member k v p = p.
Proof. intros [u Hu]. unfold default_member. by rewrite Hu. Qed.
Lemma default_nodup k v p : NoDup p.*1 -> NoDup (default_member k v p).*1.
Proof. intros Hp. unfold default_member. destruct (get p k); [done|by apply upsert_nodup]. Qed.

Definition keys_in (allowed : list string) (p : list (string * json)) : bool :=
  forallb (fun kv => bool_decide (kv.1 ∈ allowed)) p.
Lemma keys_in_upsert allowed k v p : k ∈ allowed -> keys_in allowed p = true -> keys_in allowed (upsert k v p) = true.
Proof.
  intros Hk. induction p as [|[k1 v1] p IH]; csimpl; [intros _; by rewrite bool_decide_eq_true_2|].
  intros Hp. bool_to_prop. destruct (String.eqb_spec k k1) as [->|]; csimpl; apply andb_true_intro; split;
    try (by apply bool_decide_eq_true); auto.
Qed.
Lemma keys_in_default allowed k v p : k ∈ allowed -> keys_in allowed p = true -> keys_in allowed (default_member k v p) = true.
Proof. intros. unfold default_member. destruct (get p k); [done|by apply keys_in_upsert]. Qed.
Lemma keys_in_get allowed p k : keys_in allowed p = true -> k ∉ allowed -> get p k = None.
Proof.
  intros Hp Hk. apply get_none. intros ([k' v] & -> & Hin)%list_elem_of_fmap. apply Hk.
  unfold keys_in in Hp. rewrite forallb_forall in Hp. specialize (Hp (k', v)).
  rewrite <- list_elem_of_In in Hp. apply Hp in Hin. by bool_to_prop.
Qed.

(** An article payload is checked by its three keys only. *)
Lemma article_payload_ok p :
  keys_in ["article_ids"; "force"; "reextract_media"] p = true ->
  check_bool p "force" = true -> check_bool p "reextract_media" = true ->
  payload_ok "article_reprocess" p.
Proof.
  intros Hk Hf Hr. assert (forall k, k ∉ ["article_ids"; "force"; "reextract_media"] -> get p k = None) as Hnone
    by (intros; by eapply keys_in_get).
  split; try done.
  - by eexists.
  - unfold check_schedule. by rewrite !Hnone by set_solver.
  - unfold check_int. by rewrite Hnone by set_solver.
  - cbn [forallb]. unfold check_bool at 1 2 3. rewrite !Hnone by set_solver. by rewrite Hf, Hr.
  - unfold check_int. by rewrite Hnone by set_solver.
  - unfold check_int. by rewrite Hnone by set_solver.
Qed.

Definition id_list (vals : list Z) : json := JArr (map (fun n => JNum (itoa n)) vals).

Lemma sorted_nodup_lt l : StronglySorted Z.le l -> NoDup l -> StronglySorted Z.lt l.
Proof.
  induction 1 as [|x l Hl IH Hx]; [constructor|]. intros [Hn Hnd]%NoDup_cons. constructor; [auto|].
  rewrite List.Forall_forall in Hx |- *. intros y Hy. specialize (Hx y Hy). apply list_elem_of_In in Hy.
  assert (x <> y) by (intros ->; done). lia.
Qed.

Lemma article_normal ms p' :
  payload_ok "article_reprocess" (raw_map ms) -> article_ok (raw_map ms) p' ->
  NoDup p'.*1 /\ payload_ok "article_reprocess" p' /\ article_ok p' p' /\
  exists vals, get p' "article_ids" = Some (id_list vals) /\ 1 <= Z.of_nat (length vals) <= 100 /\
    StronglySorted Z.lt vals /\ Forall (fun n => 0 < n < 2 ^ 63) vals.
Proof.
  intros [(allowed & Hal & Hk) _ _ _ _ Hb _ _] (ids & vals & Hget & Hlen & Hvals & Hp').
  injection Hal as <-. fold (keys_in ["article_ids"; "force"; "reextract_media"] (raw_map ms)) in Hk.
  cbn [forallb] in Hb. bool_to_prop.
  pose proof (raw_map_nodup ms) as Hnd. set (p := raw_map ms) in *.
  destruct (article_values_spec _ _ _ Hvals) as (Hl & Hpos & Hvnd & _).
  destruct (exchange_sort_spec (length vals) vals (le_n _)) as [Hperm Hsort].
  set (sorted := exchange_sort (length vals) vals) in *. fold (id_list sorted) in Hp'.
  assert (length sorted = length ids) as Hls by (by rewrite Hperm).
  assert (Forall (fun n => 0 < n < 2 ^ 63) sorted) as Hspos by (by rewrite Hperm).
  assert (NoDup sorted) as Hsnd by (by rewrite Hperm).
  assert (get p' "article_ids" = Some (id_list sorted)) as Hg by (by rewrite Hp', !get_default, !get_upsert).
  assert (is_Some (get p' "force") /\ is_Some (get p' "reextract_media")) as [Hf Hr].
  { rewrite Hp', !get_default, !get_upsert. split; eexists; reflexivity. }
  assert (NoDup p'.*1) as Hpnd by (rewrite Hp'; by repeat apply default_nodup; apply upsert_nodup).
  assert (check_bool p' "force" = true /\ check_bool p' "reextract_media" = true) as [Hcf Hcr].
  { unfold check_bool in *. rewrite Hp', !get_default, !get_upsert. cbn [String.eqb Ascii.eqb Bool.eqb].
    split; [destruct (get p "force")|destruct (get p "reextract_media")]; simpl in *; done. }
  split_and!; [done| | |].
  - apply article_payload_ok; [|done|done]. rewrite Hp'.
    repeat (apply keys_in_default; [set_solver|]). apply keys_in_upsert; [set_solver|done].
  - exists (map (fun n => JNum (itoa n)) sorted), sorted. split; [done|]. rewrite length_map. split; [lia|].
    split; [apply article_values_itoa; [done|done|set_solver]|].
    rewrite exchange_sort_sorted by done. fold (id_list sorted).
    by rewrite (upsert_same _ _ _ Hg), (default_same "force"), default_same.
  - exists sorted. split; [done|]. split; [lia|]. split; [by apply sorted_nodup_lt|done].
Qed.

End Validation.


(** ** Accepted results *)

Lemma outcome_ids_spec l : forall seen ids, outcome_ids seen l = Some ids ->
  map outcome_id l = map Some ids /\ NoDup ids /\ (forall n, n ∈ ids -> n ∉ seen).
Proof.
  induction l as [|raw l IH]; intros seen ids; cbn [outcome_ids]; [intros [= <-]; split_and!; [done|constructor|set_solver]|].
  destruct (outcome_id raw) as [id|] eqn:Hid; [|done]. cbn [mbind option_bind]. case_bool_decide as Hs; [done|].
  destruct (outcome_ids (id :: seen) l) as [ids'|] eqn:Hl; [|done]. intros [= <-].
  destruct (IH _ _ Hl) as (H1 & H2 & H3). split_and!.
  - cbn [map]. by rewrite Hid, H1.
  - constructor; [|done]. intros Hi. apply H3 in Hi. set_solver.
  - intros n Hn. apply elem_of_cons in Hn as [->|Hn]; [done|]. apply H3 in Hn. set_solver.
Qed.

Lemma outcome_id_range raw id : outcome_id raw = Some id -> 1 <= id <= 2147483647.
Proof.
  unfold outcome_id. destruct (strictRawObject (Some raw)) as [o|]; [|done]. cbn [mbind option_bind].
  destruct (_ || _); [done|]. destruct (rawInt (get o "article_id")) as [n|]; [|done]. cbn [mbind option_bind].
  destruct (unmarshal_string (get o "state")); [|done]. cbn [mbind option_bind].
  destruct (unmarshal_string (get o "reason")); [|done]. cbn [mbind option_bind].
  destruct (_ || _) eqn:E; [done|]. intros [= <-]. bool_to_prop. lia.
Qed.

(** The shape of a persisted result. *)
Record result_shape (m : list (string * json)) : Prop := {
  rs_unique : NoDup m.*1;
  rs_known : forall k v, (k, v) ∈ m -> k ∈ result_keys /\ check_member (k, v) = true;
  rs_outcomes : forall v, get m "article_outcomes" = Some v -> exists items ids total omitted,
    v = JArr items /\ map outcome_id items = map Some ids /\ NoDup ids /\ Forall (fun id => 1 <= id <= 2147483647) ids /\
    rawInt (get m "article_outcomes_total") = Some total /\ rawInt (get m "article_outcomes_omitted") = Some omitted /\
    Z.of_nat (length ids) + omitted = total /\ 0 <= omitted /\ total <= 100;
}.

(** Results have the closed shape.  safeResult accepts a text only when it
    is empty, or when it is at most 4096 bytes of one object with distinct
    members, all of them known and of their member's type, whose article
    outcomes, if any, have distinct positive 32-bit ids and totals that add up;
    what it returns is the object itself. *)
Theorem safeResult_shape n raw m :
  safeResult n raw = Ok m ->
  (n = 0 /\ m = []) \/ (n <> 0 /\ n <= 4096 /\ raw = Some (JObj m) /\ result_shape m).
Proof.
  unfold safeResult. destruct (Z.eqb_spec n 0) as [->|Hn]; [intros [= <-]; by left|]. intros Hs. right.
  apply result_bind_ok in Hs as (u & Hlen & Hs). apply guard_err_ok in Hlen. bool_to_prop.
  unfold strictRawObject in Hs. destruct raw as [[]|]; try done. case_bool_decide as Hnd; [|done].
  apply result_bind_ok in Hs as (u' & Hval & Hs). apply guard_err_ok, negb_false_iff in Hval.
  apply result_bind_ok in Hs as (u'' & Hmem & Hs). apply guard_err_ok, negb_false_iff in Hmem. injection Hs as <-.
  rewrite forallb_forall in Hmem. split_and!; [done|done|done|]. split; [done| |].
  - intros k v Hin. apply list_elem_of_In, Hmem in Hin. split; [|done]. unfold check_member in Hin.
    destruct (negb _) eqn:E; [done|]. by bool_to_prop.
  - intros v Hv. unfold validateArticleOutcomes in Hval. rewrite Hv in Hval.
    destruct v; try (destruct (get l "article_outcomes_total"), (get l "article_outcomes_omitted"); done).
    destruct (get l "article_outcomes_total") as [t|] eqn:Ht; [|done].
    destruct (get l "article_outcomes_omitted") as [o|] eqn:Ho; [|done].
    apply andb_true_iff in Hval as [Hval Hc]. apply andb_true_iff in Hval as [Hlen' Hids].
    apply bool_decide_eq_true_1 in Hids as [ids Hids]. apply outcome_ids_spec in Hids as (H1 & H2 & _).
    destruct (rawInt (Some t)) as [total|] eqn:Hrt; [|done]. destruct (rawInt (Some o)) as [omitted|] eqn:Hro; [|done].
    assert (length ids = length l0) as Hl by (apply (f_equal length) in H1; by rewrite !length_map in H1).
    bool_to_prop. exists l0, ids, total, omitted. split_and!; try done; try lia.
    apply List.Forall_forall. intros id Hid. assert (In (Some id) (map outcome_id l0)) as Hin by (rewrite H1; by apply in_map).
    apply in_map_iff in Hin as (raw & Hraw & _). by apply outcome_id_range in Hraw.
Qed.

Lemma safeResult_shape_witness :
  let m := [("status", JStr "success"); ("parts_sent", JNum "2")] in
  (40 = 0 /\ m = []) \/ (40 <> 0 /\ 40 <= 4096 /\ Some (JObj m) = Some (JObj m) /\ result_shape m).
Proof.
  apply (safeResult_shape 40 (Some (JObj [("status", JStr "success"); ("parts_sent", JNum "2")]))). by_eval.
Defined.
