(* ===== verification/GoRune.v ===== *)
(** * GoRune: UTF-8 texts and binary64 numbers of Go's standard library

    Strings are byte sequences.  [range s], [[]rune(s)], unicode/utf8 and
    [strings.ToValidUTF8] split them into characters; an invalid byte is a
    character of its own.  The second half is [strconv.ParseFloat] and the
    conversions between float64 and integers.

    The tables of package unicode are not repeated: the class [Unicode] has
    [strings.ToLower] and the two script classes the program asks for. *)

From S2P Require Import Prelude GoText GoDecode GoParseTime ExecPayload.
From Stdlib Require Import SpecFloat.

Class Unicode := {
  ToLower : string -> string;
  unicode_Latin : Z -> bool;
  unicode_Cyrillic : Z -> bool;
}.

(** ** Characters *)

Definition between (lo hi c : Z) : bool := (lo <=? c) && (c <=? hi).

(** The length of the character [range] finds at the head of a string: an invalid
    encoding is one byte. *)
Definition rune_width (l : list Z) : nat :=
  match l with
  | a :: b :: r =>
      let lo := if a =? 224 then 160 else if a =? 240 then 144 else 128 in
      let hi := if a =? 237 then 159 else if a =? 244 then 143 else 191 in
      if between 194 223 a && between 128 191 b then 2%nat
      else match r with
           | c :: r' =>
               if between 224 239 a && between lo hi b && between 128 191 c then 3%nat
               else match r' with
                    | d :: _ => if between 240 244 a && between lo hi b && between 128 191 c && between 128 191 d then 4%nat else 1%nat
                    | [] => 1%nat
                    end
           | [] => 1%nat
           end
  | _ => 1%nat
  end.

(** The characters of a text, each with its bytes. *)
Fixpoint split_runes (fuel : nat) (l : list Z) : list (list Z) :=
  match fuel, l with
  | S fuel, _ :: _ => let w := rune_width l in take w l :: split_runes fuel (drop w l)
  | _, _ => []
  end.
Definition rune_chunks (l : list Z) : list (list Z) := split_runes (length l) l.

(** A single byte that is not ASCII is an invalid encoding. *)
Definition valid_chunk (c : list Z) : bool := match c with [a] => a <? 128 | _ => true end.

Definition RuneError : Z := 65533.
Definition rune_value (c : list Z) : Z :=
  match c with
  | [a] => if a <? 128 then a else RuneError
  | [a; b] => Z.land a 31 * 64 + Z.land b 63
  | [a; b; c] => Z.land a 15 * 4096 + Z.land b 63 * 64 + Z.land c 63
  | [a; b; c; d] => Z.land a 7 * 262144 + Z.land b 63 * 4096 + Z.land c 63 * 64 + Z.land d 63
  | _ => RuneError
  end.

(** [for _, r := range s] *)
Definition runes (s : string) : list Z := map rune_value (rune_chunks (bytes_of s)).
(** [utf8.RuneCountInString(s)], [len([]rune(s))] *)
Definition RuneCount (s : string) : Z := Z.of_nat (length (rune_chunks (bytes_of s))).
(** [utf8.ValidString(s)] *)
Definition ValidString (s : string) : bool := forallb valid_chunk (rune_chunks (bytes_of s)).

(** [strings.ToValidUTF8(s, "\uFFFD")]: a run of invalid bytes becomes one
    replacement; [inside] tells whether the run has begun. *)
Fixpoint to_valid (inside : bool) (cs : list (list Z)) : list Z :=
  match cs with
  | [] => []
  | c :: cs' =>
      if valid_chunk c then c ++ to_valid false cs'
      else (if inside then [] else [239; 191; 189]) ++ to_valid true cs'
  end.
Definition ToValidUTF8 (s : string) : string := string_of (to_valid false (rune_chunks (bytes_of s))).

(** [string([]rune(s)[:n])] of a valid text *)
Definition take_runes (n : Z) (s : string) : string := string_of (concat (take (Z.to_nat n) (rune_chunks (bytes_of s)))).

(** ** strconv.ParseFloat *)

Definition lower_byte (c : Z) : Z := if between 65 90 c then c + 32 else c.

(** [underscoreOK] after the sign and a base prefix: an underscore stands between
    digits, and the prefix counts as one.  What was seen last: a digit, an
    underscore or anything else. *)
Inductive last_seen := SawDigit | SawUnderscore | SawOther.
Fixpoint underscores_ok (hex : bool) (last : last_seen) (l : list Z) : bool :=
  match l with
  | [] => match last with SawUnderscore => false | _ => true end
  | c :: l' =>
      if is_digit c || (hex && between 97 102 (lower_byte c)) then underscores_ok hex SawDigit l'
      else if c =? 95 then match last with SawDigit => underscores_ok hex SawUnderscore l' | _ => false end
      else match last with SawUnderscore => false | _ => underscores_ok hex SawOther l' end
  end.

(** The mantissa, up to the first character that is none of it: its value, how
    many digits follow the point, whether there was a digit, and the rest. *)
Fixpoint mantissa (hex dot seen : bool) (m frac : Z) (l : list Z) : Z * Z * bool * list Z :=
  match l with
  | [] => (m, frac, seen, [])
  | c :: l' =>
      let frac' := if dot then frac + 1 else frac in
      if c =? 95 then mantissa hex dot seen m frac l'
      else if (c =? 46) && negb dot then mantissa hex true seen m frac l'
      else if is_digit c then mantissa hex dot true (m * (if hex then 16 else 10) + (c - 48)) frac' l'
      else if hex && between 97 102 (lower_byte c) then mantissa hex dot true (m * 16 + (lower_byte c - 87)) frac' l'
      else (m, frac, seen, l)
  end.

(** The exponent after its letter: a sign, a digit, then digits and underscores. *)
Fixpoint exponent_digits (acc : Z) (l : list Z) : option Z :=
  match l with
  | [] => Some acc
  | c :: l' => if is_digit c then exponent_digits (acc * 10 + (c - 48)) l'
               else if c =? 95 then exponent_digits acc l' else None
  end.
Definition float_exponent (l : list Z) : option Z :=
  let '(neg, l) := match l with 45 :: l' => (true, l') | 43 :: l' => (false, l') | _ => (false, l) end in
  match l with
  | c :: _ => if is_digit c then (if neg : bool then Z.opp else id) <$> exponent_digits 0 l else None
  | [] => None
  end.

(** [readFloat] after the sign and the prefix: mantissa and exponent of the
    base's radix (two or ten); a hexadecimal number must have an exponent. *)
Definition readFloat (hex : bool) (l : list Z) : option (Z * Z) :=
  let '(m, frac, seen, rest) := mantissa hex false false 0 0 l in
  if negb seen || negb (underscores_ok hex (if hex then SawDigit else SawOther) l) then None
  else match rest with
       | [] => if hex then None else Some (m, - frac)
       | p :: e =>
           if lower_byte p =? (if hex then 112 else 101) then e' ← float_exponent e; Some (m, e' - (if hex then 4 * frac else frac))
           else None
       end.

Definition float_sign (neg : bool) (f : spec_float) : spec_float := if neg then SFopp f else f.

(** The rounded value; out of range is an error. *)
Definition in_range (neg : bool) (f : spec_float) : option spec_float :=
  match f with S754_infinity _ | S754_nan => None | _ => Some (float_sign neg f) end.

(** [strconv.ParseFloat(s, 64)]; [None] is an error. *)
Definition ParseFloat (s : string) : option spec_float :=
  let '(signed, neg, l) := match bytes_of s with
                           | 45 :: l' => (true, true, l') | 43 :: l' => (true, false, l') | l => (false, false, l)
                           end in
  let word := string_of (map lower_byte l) in
  if (word =? "inf")%string || (word =? "infinity")%string then Some (S754_infinity neg)
  else if (word =? "nan")%string && negb signed then Some S754_nan
  else match l with
       | 48 :: x :: l' =>
           if lower_byte x =? 120 then '(m, e) ← readFloat true l'; in_range neg (binary_normalize 53 1024 m e false)
           else '(m, e) ← readFloat false l; in_range neg (float_of_decimal m e)
       | _ => '(m, e) ← readFloat false l; in_range neg (float_of_decimal m e)
       end.

(** ** Floats and integers *)

(** [float64(n)] *)
Definition binary64 (n : Z) : spec_float := binary_normalize 53 1024 n 0 false.

(** The conversion of a finite float64 to an integer: towards zero. *)
Definition float_trunc (f : spec_float) : Z :=
  match f with
  | S754_finite s m e =>
      let n := if 0 <=? e then Zpos m * 2 ^ e else Zpos m / 2 ^ (- e) in
      if s then - n else n
  | _ => 0
  end.
Definition finite (f : spec_float) : bool := match f with S754_zero _ | S754_finite _ _ _ => true | _ => false end.

(** ** Texts cut at characters *)

Definition byte (n : Z) : Prop := 0 <= n < 256.

Lemma bytes_of_range s : Forall byte (bytes_of s).
Proof.
  unfold bytes_of. apply Forall_forall. intros n (c & -> & _)%list_elem_of_fmap. unfold byte, ord.
  pose proof (Ascii.nat_ascii_bounded c). lia.
Qed.

Lemma rune_width_pos l : (1 <= rune_width l)%nat.
Proof. unfold rune_width. repeat case_match; lia. Qed.

(** A character that is decoded the same whatever follows it. *)
Definition whole (c : list Z) : Prop := c <> [] /\ forall r, rune_width (c ++ r) = length c.

Lemma rune_width_le a l : (rune_width (a :: l) <= S (length l))%nat.
Proof. unfold rune_width. repeat case_match; simpl; lia. Qed.

Lemma whole_ascii a : a <? 128 = true -> whole [a].
Proof.
  intros Ha. bool_to_prop. split; [done|]. intros r. simpl. destruct r as [|b r]; [done|].
  assert (forall lo hi, 194 <= lo -> between lo hi a = false) as Hb.
  { intros lo hi Hl. unfold between. apply andb_false_iff. left. apply Z.leb_gt. lia. }
  rewrite (Hb 194 223), (Hb 224 239), (Hb 240 244) by lia. by destruct r as [|? [|? ?]].
Qed.

Lemma whole_chunk a l : valid_chunk (take (rune_width (a :: l)) (a :: l)) = true -> whole (take (rune_width (a :: l)) (a :: l)).
Proof.
  destruct l as [|b r]; [by apply whole_ascii|]. unfold rune_width.
  destruct (between 194 223 a && between 128 191 b) eqn:E2.
  { intros _. split; [done|]. intros r'. simpl. by rewrite E2. }
  destruct r as [|c r]; [apply whole_ascii|].
  match goal with |- context [if ?b then 3%nat else _] => destruct b eqn:E3 end.
  { intros _. split; [done|]. intros r'. simpl. by rewrite E2, E3. }
  destruct r as [|d r]; [apply whole_ascii|].
  match goal with |- context [if ?b then 4%nat else _] => destruct b eqn:E4 end; [|apply whole_ascii].
  intros _. split; [done|]. intros r'. simpl. by rewrite E2, E3, E4.
Qed.

Lemma split_runes_concat fuel : forall l, (length l <= fuel)%nat -> concat (split_runes fuel l) = l.
Proof.
  induction fuel as [|fuel IH]; intros [|a l] Hl; simpl in *; [done|lia|done|].
  rewrite IH; [apply (take_drop _ (a :: l))|]. rewrite length_skipn. pose proof (rune_width_pos (a :: l)). simpl in *. lia.
Qed.

Lemma split_runes_whole fuel : forall l, forallb valid_chunk (split_runes fuel l) = true -> Forall whole (split_runes fuel l).
Proof.
  induction fuel as [|fuel IH]; intros [|a l] Hv; try by constructor.
  cbn [split_runes forallb] in *. apply andb_true_iff in Hv as [H1 H2]. constructor; [by apply whole_chunk|by apply IH].
Qed.

Lemma split_whole cs : Forall whole cs -> forall fuel, (length (concat cs) <= fuel)%nat -> split_runes fuel (concat cs) = cs.
Proof.
  induction 1 as [|c cs [Hne Hw] Hcs IH]; intros fuel Hf; [by destruct fuel|].
  destruct c as [|a c]; [done|]. cbn [concat] in *. rewrite length_app in Hf. simpl in Hf.
  destruct fuel as [|fuel]; [lia|]. cbn [split_runes app].
  change (a :: c ++ concat cs) with ((a :: c) ++ concat cs). rewrite (Hw (concat cs)), take_app_length, drop_app_length.
  rewrite IH; [done|lia].
Qed.

Lemma chunks_whole cs : Forall whole cs -> rune_chunks (concat cs) = cs.
Proof. intros H. by apply split_whole. Qed.

Lemma RuneCount_whole cs : Forall whole cs -> Forall byte (concat cs) -> RuneCount (string_of (concat cs)) = Z.of_nat (length cs).
Proof. intros Hw Hb. unfold RuneCount. rewrite bytes_string, chunks_whole; done. Qed.

(** [ToValidUTF8] leaves whole characters. *)
Lemma to_valid_whole fuel : forall l inside, Forall byte l ->
  exists cs, to_valid inside (split_runes fuel l) = concat cs /\ Forall whole cs /\ Forall byte (concat cs).
Proof.
  induction fuel as [|fuel IH]; intros [|a l] inside Hb; try by (exists []; split_and!; constructor).
  cbn [split_runes to_valid]. set (c := take (rune_width (a :: l)) (a :: l)). set (rest := drop (rune_width (a :: l)) (a :: l)).
  assert (Forall byte c /\ Forall byte rest) as [Hc Hr].
  { apply Forall_app. unfold c, rest. by rewrite take_drop. }
  destruct (valid_chunk c) eqn:Hv.
  - destruct (IH rest false Hr) as (cs & -> & Hw & Hcs). exists (c :: cs). cbn [concat]. split_and!; [done| |by apply Forall_app].
    constructor; [by apply whole_chunk|done].
  - destruct (IH rest true Hr) as (cs & -> & Hw & Hcs). destruct inside; [by exists cs|].
    exists ([239; 191; 189] :: cs). split_and!; [done| |].
    + constructor; [|done]. split; [done|]. by intros [|? [|? ?]].
    + apply Forall_app. split; [|done]. unfold byte. repeat constructor; lia.
Qed.

Lemma take_concat_bytes n cs : Forall byte (concat cs) -> Forall byte (concat (take n cs)).
Proof. rewrite <- (take_drop n cs) at 1. rewrite concat_app. by intros [? _]%Forall_app. Qed.

Definition whole_text (s : string) : Prop := Forall whole (rune_chunks (bytes_of s)).

Lemma ValidString_whole s : ValidString s = true -> whole_text s.
Proof. apply split_runes_whole. Qed.
Lemma ToValidUTF8_whole s : whole_text (ToValidUTF8 s).
Proof.
  unfold ToValidUTF8. destruct (to_valid_whole (length (bytes_of s)) (bytes_of s) false (bytes_of_range s)) as (cs & E & Hw & Hb).
  unfold whole_text. unfold rune_chunks at 2. by rewrite E, bytes_string, chunks_whole.
Qed.

(** Cutting a text to [n] characters leaves [n] characters at most. *)
Lemma take_runes_count n s : whole_text s -> 0 <= n -> RuneCount (take_runes n s) <= n.
Proof.
  intros Hw Hn. unfold take_runes. rewrite RuneCount_whole.
  - rewrite length_take. lia.
  - by apply Forall_take.
  - apply take_concat_bytes. unfold rune_chunks. rewrite split_runes_concat by lia. apply bytes_of_range.
Qed.
