(* ===== verification/JobPayload.v ===== *)
(** * JobPayload: go-web/internal/jobs/jobs.go

    What the web service accepts as a job: the normalisation of payloads, the
    validation of the scheduler's occurrences, and the calls of [Service] that
    lead to the repository.

    The values of a [map[string]any] are [value]: the Go types its callers put
    there.  What [ValidatePayload] returns holds integers, booleans, texts and
    integer slices only, and is kept as the JSON that Marshal makes of it.

    Parameters: SHA-256; [shortest], strconv's shortest decimal of a float64 that
    is not a small integer; [int_of_2_63], the result of converting the float64
    2^63 to an int, which Go leaves to the implementation. *)

From Stdlib Require Import Floats.SpecFloat.
From S2P Require Import Prelude JsonStrict GoTime Db GoText GoDecode GoParseTime Calendar ExecPayload.

Inductive jobs_error :=
| ErrQueueFull | ErrIdempotencyConflict | ErrWorkerUnavailable | ErrNotFound
| ErrText (text : string)      (* errors.New and fmt.Errorf *)
| ErrDriver (e : dberr).

#[export] Instance jobs_error_eq_dec : EqDecision jobs_error.
Proof. solve_decision. Defined.

Definition MaxPendingJobs : Z := 32.
Definition MaxSelectedIDs : Z := 100.
Definition MaxPayloadBytes : Z := 4096.
Definition MaxIdempotencyAliasesPerJob : Z := 32.
Definition MaxSchedulerOccurrenceReceipts : Z := 100000.

(** ** Values *)

(** [int], [int32] and [int64] are one constructor, and so are [[]int] and [[]int64]. *)
Inductive value :=
| VNull
| VBool (b : bool)
| VInt (n : Z)
| VFloat (f : spec_float)
| VStr (s : string)
| VArr (l : list value)
| VInts (l : list Z)
| VObj (l : list (string * value)).

(** A map; nil is [None]. *)
Notation vmap := (option (list (string * value))).

Fixpoint vget (l : list (string * value)) (k : string) : option value :=
  match l with
  | [] => None
  | (k', v) :: l' => if (k =? k')%string then Some v else vget l' k
  end.

(** The integer a float64 is, if it is one. *)
Definition float_integer (f : spec_float) : option Z :=
  match f with
  | S754_zero _ => Some 0
  | S754_finite s m e =>
      let n := if 0 <=? e then Some (Zpos m * 2 ^ e)
               else if Zpos m mod 2 ^ (- e) =? 0 then Some (Zpos m / 2 ^ (- e)) else None in
      if s then Z.opp <$> n else n
  | _ => None
  end.

(** ** The timestamps of Python's isoformat *)

(** [t.Format("-07:00")] *)
Definition offset_text (offset : Z) : list Z :=
  let minutes := Z.quot offset 60 in
  (if minutes <? 0 then 45 else 43) :: two (Z.abs minutes / 60) ++ [58] ++ two (Z.abs minutes mod 60).

(** [strings.LastIndex(value, "-")] of the bytes from index [i] *)
Fixpoint last_index (c i : Z) (l : list Z) : Z :=
  match l with
  | [] => -1
  | x :: l' => let r := last_index c (i + 1) l' in if (x =? c) && (r =? -1) then i else r
  end.

(** What is left of the loop body when [time.Parse] read [local] and [offset]. *)
Definition python_canonical (value : string) (local offset : Z) : string :=
  let nano := local_nano (FixedZone 0) local in
  string_of (stamp local (if nano / 1000 =? 0 then [] else micros nano) ++
             (if ContainsAny value "Z+" || (9 <? last_index 45 0 (bytes_of value)) then offset_text offset else [])).

Definition python_layout (zoned : bool) (value : string) : option Z :=
  '(local, offset) ← parse_fields zoned value;
  if (python_canonical value local offset =? value)%string then Some (local - offset * Second) else None.

(** The layouts: RFC 3339 with an offset, then twice without one, since a fraction
    is accepted after the seconds whether the layout has it or not. *)
Definition parsePythonISOTime (value : string) : option Z :=
  foldl (fun r zoned => match r with Some t => Some t | None => python_layout zoned value end) None [true; false; false].

(** ** Payloads *)

Section Payloads.
Context (int_of_2_63 : Z) (shortest : spec_float -> string).

Definition integer (v : option value) : option Z :=
  match v with
  | Some (VInt n) => Some n
  | Some (VFloat f) =>
      match float_integer f with
      | Some n => if (- 2 ^ 63 <=? n) && (n <=? 2 ^ 63) then Some (if n =? 2 ^ 63 then int_of_2_63 else n) else None
      | None => None
      end
  | _ => None
  end.

Definition allowedByKind (kind : string) : option (list string) :=
  if (kind =? "news_processing")%string then Some ["schedule_id"; "scheduled_for"; "timeout_seconds"]
  else if (kind =? "news_digest")%string then Some ["schedule_id"; "scheduled_for"; "run_processing"; "send_telegram"; "timeout_seconds"]
  else if (kind =? "telegram_digest")%string then Some ["schedule_id"; "scheduled_for"; "timeout_seconds"]
  else if (kind =? "backup")%string then Some ["schedule_id"; "scheduled_for"; "timeout_seconds"]
  else if (kind =? "reprocess_failed")%string then Some ["schedule_id"; "scheduled_for"; "limit"; "dry_run"; "timeout_seconds"]
  else if (kind =? "article_reprocess")%string then Some ["article_ids"; "force"; "reextract_media"]
  else if (kind =? "summaries_generate")%string then Some []
  else if (kind =? "source_test")%string then Some ["source_id"]
  else None.

Notation PM := (result string).
Notation members := (list (string * json)).

Definition int_json (n : Z) : json := JNum (itoa n).

(** [schedule_id] and [scheduled_for], together or not at all *)
Definition schedule_part (payload : list (string * value)) (out : members) : PM members :=
  let sid := bool_decide (is_Some (vget payload "schedule_id")) in
  let sf := bool_decide (is_Some (vget payload "scheduled_for")) in
  _ ← guard_err (negb (Bool.eqb sid sf)) "schedule_id and scheduled_for must be supplied together";
  if sid then
    match integer (vget payload "schedule_id") with
    | Some id =>
        _ ← guard_err (id <=? 0) "schedule_id must be a positive integer";
        match vget payload "scheduled_for" with
        | Some (VStr due) =>
            _ ← guard_err (negb (bool_decide (is_Some (parsePythonISOTime due)))) "scheduled_for must be a canonical ISO timestamp";
            Ok (upsert "scheduled_for" (JStr due) (upsert "schedule_id" (int_json id) out))
        | _ => Err "scheduled_for must be an ISO timestamp"
        end
    | None => Err "schedule_id must be a positive integer"
    end
  else Ok out.

(** An optional integer member with its bounds. *)
Definition int_part (k : string) (lo hi : Z) (text : string) (payload : list (string * value)) (out : members) : PM members :=
  match vget payload k with
  | None => Ok out
  | Some v => match integer (Some v) with
              | Some n => _ ← guard_err ((n <? lo) || (hi <? n)) text; Ok (upsert k (int_json n) out)
              | None => Err text
              end
  end.

(** A boolean member; absent, it is left out or takes its default. *)
Definition bool_part (k : string) (otherwise : option bool) (payload : list (string * value)) (out : members) : PM members :=
  match vget payload k with
  | Some (VBool b) => Ok (upsert k (JBool b) out)
  | Some _ => Err (k +:+ " must be a boolean")
  | None => match otherwise with Some b => Ok (upsert k (JBool b) out) | None => Ok out end
  end.

(** The loop over the ids. *)
Fixpoint selected_ids (seen : list Z) (ids : list value) : PM (list Z) :=
  match ids with
  | [] => Ok []
  | x :: ids' =>
      match integer (Some x) with
      | Some n =>
          _ ← guard_err (n <=? 0) "article_ids must contain positive integer IDs";
          _ ← guard_err (bool_decide (n ∈ seen)) "article_ids must not contain duplicates";
          ints ← selected_ids (n :: seen) ids'; Ok (n :: ints)
      | None => Err "article_ids must contain positive integer IDs"
      end
  end.

(** The range over the two defaults visits them in any order, which shows only
    when both members are wrong. *)
Definition article_part (payload : list (string * value)) (out : members) : PM members :=
  match (match vget payload "article_ids" with Some (VArr l) => Some l | Some (VInts l) => Some (map VInt l) | _ => None end) with
  | None => Err "article_ids must contain 1 to 100 IDs"
  | Some ids =>
      _ ← guard_err ((Z.of_nat (length ids) <? 1) || (MaxSelectedIDs <? Z.of_nat (length ids))) "article_ids must contain 1 to 100 IDs";
      ints ← selected_ids [] ids;
      out ← bool_part "force" (Some true) payload (upsert "article_ids" (JArr (map int_json (merge_sort Z.le ints))) out);
      bool_part "reextract_media" (Some false) payload out
  end.

Definition source_part (payload : list (string * value)) (out : members) : PM members :=
  match integer (vget payload "source_id") with
  | Some id => _ ← guard_err (id <=? 0) "source_id must be a positive integer"; Ok (upsert "source_id" (int_json id) out)
  | None => Err "source_id must be a positive integer"
  end.

Definition when_kind (kind k : string) (part : members -> PM members) (out : members) : PM members :=
  if (kind =? k)%string then part out else Ok out.

Definition ValidatePayload (kind : string) (payload : vmap) : PM members :=
  match allowedByKind kind with
  | None => Err "unsupported job kind"
  | Some allowed =>
      match payload with
      | None => Err "job payload must be an object"
      | Some payload =>
          _ ← guard_err (negb (forallb (fun kv => bool_decide (kv.1 ∈ allowed)) payload)) "unsupported job payload field";
          out ← schedule_part payload [];
          out ← int_part "timeout_seconds" 1 86400 "timeout_seconds must be an integer from 1 to 86400" payload out;
          out ← when_kind kind "news_digest" (fun out =>
            out ← bool_part "run_processing" None payload out; bool_part "send_telegram" None payload out) out;
          out ← when_kind kind "reprocess_failed" (fun out =>
            out ← int_part "limit" 1 100 "limit must be an integer from 1 to 100" payload out; bool_part "dry_run" None payload out) out;
          out ← when_kind kind "article_reprocess" (article_part payload) out;
          out ← when_kind kind "source_test" (source_part payload) out;
          _ ← guard_err (MaxPayloadBytes <? len (marshal (JObj out))) "job payload exceeds the 4096-byte limit";
          Ok out
      end
  end.

(** ** Occurrences *)

(** What Marshal prints for a float64; infinities and NaN are errors. *)
Definition float_text (f : spec_float) : option string :=
  match f with
  | S754_infinity _ | S754_nan => None
  | S754_zero s => Some (if s then "-0" else "0")
  | _ => Some (match float_integer f with
               | Some n => if Z.abs n <? 2 ^ 53 then itoa n else shortest f
               | None => shortest f
               end)
  end.

Fixpoint value_json (v : value) : option json :=
  match v with
  | VNull => Some JNull
  | VBool b => Some (JBool b)
  | VInt n => Some (int_json n)
  | VFloat f => JNum <$> float_text f
  | VStr s => Some (JStr s)
  | VArr l => JArr <$> (fix items l := match l with
                        | [] => Some []
                        | x :: l' => y ← value_json x; ys ← items l'; Some (y :: ys)
                        end) l
  | VInts l => Some (JArr (map int_json l))
  | VObj l => JObj <$> (fix fields l := match l with
                        | [] => Some []
                        | (k, x) :: l' => y ← value_json x; ys ← fields l'; Some ((k, y) :: ys)
                        end) l
  end.

Record OccurrenceCommand := MkOccurrenceCommand {
  oc_Version : Z;
  oc_OccurrenceID : string;
  oc_ScheduleKey : string;
  oc_ScheduleRevision : Z;
  oc_ScheduledFor : string;
  oc_Operation : string;
  oc_Payload : vmap;
  oc_IdempotencyKey : string;
  oc_WorkerMode : bool;
  oc_DispatchMode : string;
  oc_ReceiptLimit : Z;
}.

Record OccurrenceMetadata := MkOccurrenceMetadata {
  om_ScheduleKey : string;
  om_ScheduleRevision : Z;
  om_OccurrenceID : string;
  om_ScheduledFor : Z;
}.

(** [^[A-Za-z0-9][A-Za-z0-9._:+-]{0,199}$] *)
Definition idempotencyPattern : string -> bool :=
  match_pattern (fun c => is_lower_or_digit c || is_upper c) (fun c => is_lower_or_digit c || is_upper c || is_one_of "._:+-" c) 199.
(** [^[a-z0-9][a-z0-9._:-]{0,127}$] *)
Definition schedulePattern : string -> bool :=
  match_pattern is_lower_or_digit (fun c => is_lower_or_digit c || is_one_of "._:-" c) 127.

(** [^\d{4}-\d\d-\d\dT\d\d:\d\d:\d\d(?:\.\d{1,6})?Z$]: the fixed part by its
    shape, in which 100 stands for a digit *)
Fixpoint match_shape (shape l : list Z) : option (list Z) :=
  match shape, l with
  | [], _ => Some l
  | c :: shape', x :: l' => if (if c =? 100 then is_digit x else x =? c) then match_shape shape' l' else None
  | _, [] => None
  end.
Definition occurrenceTimePattern (value : string) : bool :=
  match match_shape [100; 100; 100; 100; 45; 100; 100; 45; 100; 100; 84; 100; 100; 58; 100; 100; 58; 100; 100] (bytes_of value) with
  | Some [90] => true
  | Some (46 :: l) => let '(ds, r) := span_digits l in
      bool_decide (r = [90]) && (1 <=? Z.of_nat (length ds)) && (Z.of_nat (length ds) <=? 6)
  | _ => false
  end.

(** [hex.DecodeString] succeeds. *)
Definition is_hex (c : Z) : bool := is_hex_lower c || ((65 <=? c) && (c <=? 70)).
Definition hex_decodes (l : list Z) : bool := (Z.of_nat (length l) mod 2 =? 0) && forallb is_hex l.

(** [strings.ToLower(s) != s] for the texts that get past the hex decoding, which
    are ASCII. *)
Definition isCanonicalUUID (s : string) : bool :=
  let l := bytes_of s in
  negb (negb (len s =? 36) || existsb (fun c => (65 <=? c) && (c <=? 90)) l ||
        negb (nth 8 l 0 =? 45) || negb (nth 13 l 0 =? 45) || negb (nth 18 l 0 =? 45) || negb (nth 23 l 0 =? 45)) &&
  hex_decodes (filter (fun c => c <> 45) l).

Definition invalid_envelope : string := "invalid scheduled job envelope".

Definition ValidateOccurrence (c : OccurrenceCommand) : PM unit :=
  _ ← guard_err (negb (oc_Version c =? 1) || negb (isCanonicalUUID (oc_OccurrenceID c)) ||
                 negb (oc_IdempotencyKey c =? oc_OccurrenceID c)%string || negb (schedulePattern (oc_ScheduleKey c)) ||
                 (oc_ScheduleRevision c <? 1) || negb (occurrenceTimePattern (oc_ScheduledFor c))) invalid_envelope;
  _ ← guard_err (negb (bool_decide (is_Some (parse_rfc3339nano (oc_ScheduledFor c))))) invalid_envelope;
  _ ← guard_err (negb (bool_decide (oc_Operation c ∈
        ["news_processing"; "news_digest"; "telegram_digest"; "backup"; "reprocess_failed"]))) invalid_envelope;
  guard_err (negb (bool_decide (is_Some (oc_Payload c)))) invalid_envelope.

Definition minPositive (a b : Z) : Z :=
  let a := if a <=? 0 then b else a in
  if b <? a then b else a.

(** The map that is hashed; nothing when Marshal fails. *)
Definition canonical_occurrence (c : OccurrenceCommand) : option json :=
  payload ← (match oc_Payload c with Some l => value_json (VObj l) | None => Some JNull end);
  Some (JObj [("version", int_json (oc_Version c)); ("occurrence_id", JStr (oc_OccurrenceID c));
              ("schedule_key", JStr (oc_ScheduleKey c)); ("schedule_revision", int_json (oc_ScheduleRevision c));
              ("scheduled_for", JStr (oc_ScheduledFor c)); ("operation", JStr (oc_Operation c)); ("payload", payload)]).

(** What [Service.AcceptOccurrence] passes to the repository. *)
Record occurrence_call := OccurrenceCall {
  call_payload : members;
  call_metadata : OccurrenceMetadata;
  call_hash : string;
  call_limit : Z;
}.

Definition prepare_occurrence (sha256hex : string -> string) (c : OccurrenceCommand) : PM occurrence_call :=
  _ ← ValidateOccurrence c;
  payload ← map_err (fun _ => invalid_envelope) (ValidatePayload (oc_Operation c) (oc_Payload c));
  _ ← guard_err (bool_decide (is_Some (get payload "schedule_id"))) invalid_envelope;
  _ ← guard_err (bool_decide (is_Some (get payload "scheduled_for"))) invalid_envelope;
  let parsed := default zero_time (parse_rfc3339nano (oc_ScheduledFor c)) in
  let due := truncate Microsecond parsed in
  match canonical_occurrence c with
  | None => Err invalid_envelope
  | Some canonical =>
      Ok (OccurrenceCall payload
            (MkOccurrenceMetadata (oc_ScheduleKey c) (oc_ScheduleRevision c) (oc_OccurrenceID c) due)
            (sha256hex (marshal canonical)) (minPositive (oc_ReceiptLimit c) MaxSchedulerOccurrenceReceipts))
  end.

(** What [Service.Submit] passes to the repository: payload and stored key. *)
Definition prepare_submit (sha256hex : string -> string) (kind : string) (payload : vmap) (key : string) : PM (members * string) :=
  out ← ValidatePayload kind payload;
  _ ← guard_err (negb (idempotencyPattern key)) "idempotency key must be a safe 1-200 character token";
  Ok (out, sha256hex key).
End Payloads.

(** ** The executor reads the timestamps the web service accepts *)

Lemma micros_digits ns : exists a b c d e f, micros ns = [46; a; b; c; d; e; f] /\ forallb is_digit [a; b; c; d; e; f] = true.
Proof. unfold micros. do 6 eexists. split; [reflexivity|]. cbn [forallb]. by rewrite !digit_ok. Qed.

Lemma micros_value ns : 0 <= ns < 10 ^ 9 -> nanoseconds (tl (micros ns)) = ns / 1000 * 1000.
Proof.
  intros Hn. unfold micros. cbn [tl map]. rewrite nanoseconds_short by (simpl; lia). unfold digits_value. cbn [foldl length].
  unfold digit. change (10 ^ (9 - Z.of_nat 6)) with 1000.
  change (10 ^ 8) with 100000000. change (10 ^ 7) with 10000000. change (10 ^ 6) with 1000000.
  change (10 ^ 5) with 100000. change (10 ^ 4) with 10000. change (10 ^ 3) with 1000. change (10 ^ 9) with 1000000000 in Hn.
  clear -Hn. dlia.
Qed.

Lemma two_bytes n : Forall (fun b => 0 <= b < 256) (two n).
Proof. unfold two. repeat constructor; apply digit_byte. Qed.

Lemma getnum_pair n : 0 <= n < 100 -> getnum true [digit (n / 10); digit n] = Some (n, []).
Proof. exact (fun H => getnum_two true n [] H). Qed.

(** The text of an offset that reads as an offset. *)
Definition zone_text (zone : iso_zone) (r : list Z) : Prop :=
  (zone = NoZone /\ r = []) \/
  (zone = ZoneMinutes /\ exists s hh mm, r = s :: two hh ++ [58] ++ two mm /\ (s = 43 \/ s = 45) /\ 0 <= hh <= 24 /\
     0 <= mm <= 59 /\ (s = 45 -> hh * 60 + mm <> 0)).

Lemma zone_text_ends zone r : zone_text zone r -> fraction_ends r /\ Forall (fun b => 0 <= b < 256) r.
Proof.
  intros [[_ ->]|(_ & s & hh & mm & -> & Hs & _)]; [done|]. split; [by destruct Hs as [->| ->]|].
  constructor; [destruct Hs; lia|]. apply Forall_app. split; [apply two_bytes|]. constructor; [lia|apply two_bytes].
Qed.

Lemma zone_text_offset zone r : zone_text zone r -> iso_offset zone r = true.
Proof.
  intros [[-> ->]|(-> & s & hh & mm & -> & Hs & Hh & Hm & Hz)]; [done|]. unfold iso_offset, two. cbn [app].
  rewrite !getnum_pair by lia.
  rewrite (proj2 (Z.leb_le hh 24)), (proj2 (Z.leb_le mm 59)) by lia.
  destruct Hs as [->| ->]; [done|]. cbn [Z.eqb Pos.eqb orb andb]. rewrite (proj2 (Z.eqb_neq _ 0)); auto.
Qed.

Lemma iso_layout_stamp t zone r :
  0 <= c_year (local_date (FixedZone 0) t) < 10000 -> zone_text zone r ->
  let nano := local_nano (FixedZone 0) t in
  iso_layout (negb (nano / 1000 =? 0)) zone
    (string_of (stamp t (if nano / 1000 =? 0 then [] else micros nano) ++ r)) = true.
Proof.
  intros Hy Hr nano. pose proof (local_nano_bound t) as Hn. fold nano in Hn. pose proof (zone_text_ends _ _ Hr) as [_ Hbr].
  set (micro := negb (nano / 1000 =? 0)). set (frac := if nano / 1000 =? 0 then [] else micros nano).
  assert (Forall (fun n => 0 <= n < 256) frac) as Hb.
  { unfold frac. destruct (nano / 1000 =? 0); [constructor|]. unfold micros. constructor; [lia|].
    apply List.Forall_forall. intros x (k & <- & _)%in_map_iff. apply digit_byte. }
  assert (iso_fraction micro (frac ++ r) = Some r) as Hf.
  { unfold iso_fraction, micro, frac. destruct (Z.eqb_spec (nano / 1000) 0) as [|Hne]; [done|]. cbn [negb].
    pose proof (micros_value nano Hn) as Hv. destruct (micros_digits nano) as (a & b & c & d & e & f & Hm & Hd).
    rewrite Hm in Hv |- *. cbn [tl] in Hv. cbn [app]. rewrite Hd, Hv. by rewrite (proj2 (Z.eqb_neq _ 0)) by lia. }
  unfold iso_layout. rewrite bytes_string.
  2:{ apply Forall_app. split; [by apply stamp_bytes|done]. }
  destruct (civil_from_days_valid (local_day (FixedZone 0) t)) as [Hm Hd].
  change (civil_from_days (local_day (FixedZone 0) t)) with (local_date (FixedZone 0) t) in Hm, Hd.
  set (c := local_date (FixedZone 0) t) in *.
  assert (c_day c <= 31) as Hd31 by (unfold daysIn in Hd; repeat case_match; lia).
  pose proof (local_hour_bound (FixedZone 0) t) as Hh. pose proof (local_minute_bound (FixedZone 0) t) as Hmin.
  assert (0 <= local_second (FixedZone 0) t <= 59) as Hs by (unfold local_second; generalize (wall_ns (FixedZone 0) t); intros; units; dlia).
  unfold stamp. fold c. rewrite <- !app_assoc. rewrite year4_four by lia. cbn [mbind option_bind app]. unfold dash.
  repeat first [rewrite literal_cons; cbn [mbind option_bind]|rewrite getnum_two by lia; cbn [mbind option_bind app]].
  rewrite Hf. cbn [mbind option_bind]. rewrite (zone_text_offset _ _ Hr).
  rewrite !(proj2 (Z.leb_le _ _)) by lia. rewrite !(proj2 (Z.ltb_lt _ _)) by lia. done.
Qed.

Lemma parse_offset_sign s l : s <> 90 -> parse_offset (s :: l) =
  match l with
  | h1 :: h2 :: colon :: m1 :: m2 :: r =>
      if negb (colon =? 58) then None
      else match getnum true [h1; h2], getnum true [m1; m2] with
           | Some (hr, _), Some (mm, _) =>
               if (24 <? hr) || (60 <? mm) then None
               else if s =? 43 then Some ((hr * 60 + mm) * 60, r)
               else if s =? 45 then Some (- ((hr * 60 + mm) * 60), r)
               else None
           | _, _ => None
           end
  | _ => None
  end.
Proof.
  intros Hs. unfold parse_offset. destruct s as [|p|p]; [done| |done].
  do 7 (destruct p as [p|p|]; try done).
Qed.

Lemma parse_offset_bound l offset r : parse_offset l = Some (offset, r) -> Z.abs offset <= 90000 /\ offset mod 60 = 0.
Proof.
  destruct l as [|s l]; [done|]. destruct (decide (s = 90)) as [->|Hs]; [by intros [= <- _]|].
  rewrite parse_offset_sign by done. destruct l as [|h1 [|h2 [|colon [|m1 [|m2 l]]]]]; try done.
  destruct (negb _); [done|]. destruct (getnum true [h1; h2]) as [[hh l1]|] eqn:E1; [|done].
  destruct (getnum true [m1; m2]) as [[mm l2]|] eqn:E2; [|done]. destruct ((24 <? hh) || (60 <? mm)) eqn:E; [done|].
  apply getnum_bound in E1, E2. bool_to_prop.
  assert (((hh * 60 + mm) * 60) mod 60 = 0) by (apply Z.mod_mul; lia).
  assert ((- ((hh * 60 + mm) * 60)) mod 60 = 0) by (rewrite <- Z.mul_opp_l; apply Z.mod_mul; lia).
  destruct (s =? 43); [intros [= <- _]; lia|]. destruct (s =? 45); [intros [= <- _]; lia|done].
Qed.

(** An offset that was read and reads back is less than 25 hours. *)
Lemma offset_text_zone l offset :
  parse_offset l = Some (offset, []) -> parse_offset (offset_text offset) = Some (offset, []) ->
  zone_text ZoneMinutes (offset_text offset).
Proof.
  intros [Hb H60]%parse_offset_bound Hp. right. split; [done|]. unfold offset_text in *. set (m := Z.quot offset 60) in *.
  assert (offset = 60 * m) as E by (unfold m; dlia). clearbody m. subst offset. clear H60.
  set (s := if m <? 0 then 45 else 43) in *. set (hh := Z.abs m / 60) in *. set (mm := Z.abs m mod 60) in *.
  assert (Z.abs m = 60 * hh + mm /\ 0 <= mm <= 59 /\ 0 <= hh <= 25) as (Hm & Hmm & Hh) by (unfold hh, mm; dlia).
  assert ((s = 45 /\ m < 0) \/ (s = 43 /\ 0 <= m)) as Hs
    by (unfold s; destruct (m <? 0) eqn:E; bool_to_prop; [left|right]; auto).
  exists s, hh, mm. split; [done|]. split; [tauto|]. clearbody s hh mm.
  rewrite parse_offset_sign in Hp by lia. unfold two in Hp. cbn [app] in Hp. rewrite !getnum_pair in Hp by lia. cbn in Hp.
  destruct (24 <? hh) eqn:E; bool_to_prop; [done|]. lia.
Qed.

Lemma last_index_app c l1 l2 i :
  last_index c i (l1 ++ l2) = let r := last_index c (i + Z.of_nat (length l1)) l2 in if r =? -1 then last_index c i l1 else r.
Proof.
  revert i. induction l1 as [|x l1 IH]; intros i; cbn [app last_index length].
  - rewrite Z.add_0_r. by destruct (Z.eqb_spec (last_index c i l2) (-1)).
  - rewrite IH. cbv zeta. replace (i + 1 + Z.of_nat (length l1)) with (i + Z.of_nat (S (length l1))) by lia.
    set (r := last_index c _ l2). destruct (Z.eqb_spec r (-1)) as [|Hr]; [done|].
    rewrite (proj2 (Z.eqb_neq r (-1))) by done. by rewrite andb_false_r.
Qed.

Lemma parse_fields_offset zoned value t offset :
  parse_fields zoned value = Some (t, offset) -> exists l, (if zoned then parse_offset l else Some (0, l)) = Some (offset, []).
Proof.
  unfold parse_fields. intros H.
  repeat match type of H with
  | mbind _ _ = _ => apply bind_Some in H as ([? ?] & ? & H) || apply bind_Some in H as (? & ? & H)
  | (if ?b then None else _) = _ => destruct b eqn:?; [done|]
  | (let '(_, _) := ?p in _) = _ => destruct p eqn:?
  | Some _ = Some _ => injection H as <- <-
  end.
  bool_to_prop. subst. by eexists.
Qed.

Lemma stamp_truncate t frac : stamp (truncate Microsecond t) frac = stamp t frac.
Proof.
  assert (forall d, d mod 1000 = 0 -> 0 < d -> truncate 1000 t / d = t / d) as Hdiv.
  { intros d Hd Hp. unfold truncate. assert (d = 1000 * (d / 1000)) as -> by dlia. set (k := d / 1000).
    rewrite <- !Z.div_div by (unfold k; dlia). f_equal. dlia. }
  unfold stamp, local_date, local_hour, local_minute, local_second, local_day. rewrite !wall_ns_fixed, !Z.add_0_r.
  unfold Microsecond.
  assert (forall m d, m mod d = 0 -> d mod 1000 = 0 -> 0 < d -> 0 < m -> truncate 1000 t mod m / d = t mod m / d) as Hmod.
  { intros m d Hmd Hd Hp Hm. rewrite !Z.mod_eq by lia. rewrite (Hdiv m) by (units; dlia).
    assert (m = d * (m / d)) as E by dlia. rewrite E at 1 3. 
    replace (truncate 1000 t - d * (m / d) * (t / m)) with (truncate 1000 t + (- (m / d * (t / m))) * d) by ring.
    replace (t - d * (m / d) * (t / m)) with (t + (- (m / d * (t / m))) * d) by ring.
    rewrite !Z.div_add by lia. by rewrite Hdiv. }
  rewrite Hdiv, !Hmod by (units; done). done.
Qed.

(** What the loop body prints, whatever lies below the microseconds. *)
Lemma python_stamp local :
  let t := truncate Microsecond local in
  let frac nano := if nano / 1000 =? 0 then [] else micros nano in
  stamp local (frac (local_nano (FixedZone 0) local)) = stamp t (frac (local_nano (FixedZone 0) t)) /\
  fraction_text (frac (local_nano (FixedZone 0) t)) (local_nano (FixedZone 0) t) /\
  local_date (FixedZone 0) t = local_date (FixedZone 0) local.
Proof.
  intros t frac. set (nano := local_nano (FixedZone 0) local). pose proof (local_nano_bound local) as Hn. fold nano in Hn.
  assert (local_nano (FixedZone 0) t = truncate Microsecond nano) as Ht.
  { unfold nano, t, local_nano. rewrite !wall_ns_fixed, !Z.add_0_r. unfold truncate, Microsecond. units. dlia. }
  assert (truncate Microsecond nano / 1000 = nano / 1000 /\ truncate Microsecond nano mod 1000 = 0 /\
          0 <= truncate Microsecond nano < 10 ^ 9) as (H1 & H2 & H3)
    by (unfold truncate, Microsecond; clear -Hn; change (10 ^ 9) with 1000000000 in *; dlia).
  assert (micros (truncate Microsecond nano) = micros nano) as Hm.
  { unfold micros. f_equal. apply map_ext_in. intros k Hk.
    assert (10 ^ k = 1000 * 10 ^ (k - 3) /\ 0 < 10 ^ (k - 3)) as [E Hp].
    { cbn in Hk. split; [|apply Z.pow_pos_nonneg; lia]. replace k with (3 + (k - 3)) at 1 by lia. rewrite Z.pow_add_r by lia. done. }
    rewrite E, <- !Z.div_div by lia. by rewrite H1. }
  rewrite Ht. split_and!.
  - unfold t. rewrite stamp_truncate. unfold frac. by rewrite H1, Hm.
  - unfold frac. destruct (Z.eqb_spec (truncate Microsecond nano / 1000) 0) as [E|E]; [|by apply micros_is_text].
    left. split; [done|]. clear -E H2 H3. dlia.
  - unfold local_date, local_day. rewrite !wall_ns_fixed, !Z.add_0_r. f_equal. unfold t, truncate, Microsecond. units. dlia.
Qed.

(** Whatever the service accepts as a timestamp of Python's isoformat, the
    executor accepts too. *)
Lemma python_layout_valid zoned value t : python_layout zoned value = Some t -> validISODateTime value = true.
Proof.
  unfold python_layout. destruct (parse_fields zoned value) as [[local offset]|] eqn:Hp; [|done]. cbn [mbind option_bind].
  destruct (String.eqb_spec (python_canonical value local offset) value) as [Hc|]; [|done]. intros _.
  destruct (parse_fields_offset _ _ _ _ Hp) as [l Hl]. pose proof (parse_fields_year _ _ _ _ Hp) as Hy.
  unfold python_canonical in Hc. destruct (python_stamp local) as (Hst & Hfr & Hdate). cbv zeta in Hst, Hfr.
  set (u := truncate Microsecond local) in *. rewrite Hst in Hc. rewrite <- Hdate in Hy. clear Hst Hdate.
  assert (exists zone suffix, zone_text zone suffix /\
    string_of (stamp u (if local_nano (FixedZone 0) u / 1000 =? 0 then [] else micros (local_nano (FixedZone 0) u)) ++ suffix) = value)
    as (zone & suffix & Hz & <-).
  { assert (forall r, fraction_ends r -> Forall (fun b => 0 <= b < 256) r ->
      string_of (stamp u (if local_nano (FixedZone 0) u / 1000 =? 0 then [] else micros (local_nano (FixedZone 0) u)) ++ r) = value ->
      (if zoned then parse_offset r else Some (0, r)) = Some (offset, [])) as Hread.
    { intros r Hr Hb Hv. rewrite <- Hv, parse_fields_stamp in Hp; [idtac|exact Hy|exact Hfr|exact Hr| |exact Hb].
      - destruct (if zoned then _ else _) as [[off [|]]|]; [|done|done]. by injection Hp as _ ->.
      - destruct (_ =? 0); [constructor|]. unfold micros. constructor; [lia|].
        apply List.Forall_forall. intros x (k & <- & _)%in_map_iff. apply digit_byte. }
    destruct (ContainsAny value "Z+" || _).
    - assert ((if zoned then parse_offset (offset_text offset) else Some (0, offset_text offset)) = Some (offset, [])) as Ho.
      { apply Hread; [unfold offset_text; by destruct (_ <? 0)| |done].
        unfold offset_text. constructor; [destruct (_ <? 0); lia|]. apply Forall_app. split; [apply two_bytes|].
        constructor; [lia|apply two_bytes]. }
      destruct zoned; [|by injection Ho as _ ?]. exists ZoneMinutes, (offset_text offset). split; [|done].
        by eapply offset_text_zone.
    - exists NoZone, []. split; [by left|done]. }
  unfold validISODateTime. apply andb_true_intro. split.
  - apply negb_true_iff, String.eqb_neq. by unfold stamp.
  - apply existsb_exists. exists (negb (local_nano (FixedZone 0) u / 1000 =? 0), zone). split; [|by apply iso_layout_stamp].
    destruct (_ =? 0), Hz as [[-> _]|[-> _]]; simpl; tauto.
Qed.

Lemma parsePythonISOTime_valid value t : parsePythonISOTime value = Some t -> validISODateTime value = true.
Proof.
  unfold parsePythonISOTime. cbn [foldl]. destruct (python_layout true value) eqn:H1; [by apply python_layout_valid in H1|].
  destruct (python_layout false value) eqn:H2; [by apply python_layout_valid in H2|]. done.
Qed.

(** ** Accepted payloads *)

Definition int64 (n : Z) : Prop := - 2 ^ 63 <= n < 2 ^ 63.

(** The integers of a value are Go ints. *)
Fixpoint value_ok (v : value) : Prop :=
  match v with
  | VInt n => int64 n
  | VInts l => Forall int64 l
  | VArr l => (fix all l := match l with [] => True | x :: l' => value_ok x /\ all l' end) l
  | VObj l => (fix all l := match l with [] => True | (_, x) :: l' => value_ok x /\ all l' end) l
  | _ => True
  end.

Definition payload_values_ok (payload : list (string * value)) : Prop := Forall (fun kv => value_ok kv.2) payload.

Lemma vget_in l k v : vget l k = Some v -> (k, v) ∈ l.
Proof.
  induction l as [|[k' v'] l IH]; cbn [vget]; [done|]. destruct (String.eqb_spec k k') as [->|]; [intros [= ->]; left|right; auto].
Qed.

Section Accepted.
Context (int_of_2_63 : Z).
Hypothesis conversion_in_range : int64 int_of_2_63.

Lemma integer_range v n : value_ok v -> integer int_of_2_63 (Some v) = Some n -> int64 n.
Proof using conversion_in_range.
  destruct v; try done; cbn [integer value_ok]; [by intros ? [= <-]|]. intros _. destruct (float_integer f) as [k|]; [|done].
  destruct (_ && _) eqn:E; [|done]. bool_to_prop. destruct (Z.eqb_spec k (2 ^ 63)); intros [= <-]; [done|]. unfold int64. lia.
Qed.

Lemma selected_ids_spec ids : Forall value_ok ids -> forall seen ints, selected_ids int_of_2_63 seen ids = Ok ints ->
  length ints = length ids /\ Forall (fun n => 0 < n < 2 ^ 63) ints /\ NoDup ints /\ (forall n, n ∈ ints -> n ∉ seen).
Proof using conversion_in_range.
  induction 1 as [|v ids Hv Hids IH]; intros seen ints; cbn [selected_ids]; [intros [= <-]; split_and!; [done|constructor|constructor|set_solver]|].
  destruct (integer _ (Some v)) as [n|] eqn:Hn; [|done]. intros H. ok_inv. apply (integer_range _ _ Hv) in Hn.
  match goal with H : selected_ids _ _ _ = Ok _ |- _ => destruct (IH _ _ H) as (E1 & E2 & E3 & E4) end. unfold int64 in Hn. split_and!.
  - csimpl. congruence.
  - constructor; [lia|done].
  - constructor; [|done]. intros Hi. apply E4 in Hi. set_solver.
  - intros m Hm. apply elem_of_cons in Hm as [->|Hm]; [done|]. apply E4 in Hm. set_solver.
Qed.

Context (canonical_uuid : string -> bool).
Notation payload_ok := (payload_ok canonical_uuid).

(** The web service knows the executor's kinds but the two it never submits. *)
Lemma allowed_agree kind allowed : allowedByKind kind = Some allowed ->
  kind <> "serbian_digest_retry" /\ kind <> "viber_digest_delivery" /\
  exists allowed', allowed_keys kind = Some allowed' /\ allowed ⊆ allowed'.
Proof.
  unfold allowedByKind. intros H.
  repeat match type of H with (if (?k =? ?s)%string then _ else _) = _ => destruct (String.eqb_spec k s) as [->|]; [|] end; try done;
    injection H as <-; (split; [discriminate|]); (split; [discriminate|]); eexists; (split; [reflexivity|]);
    intros k; rewrite ?elem_of_cons, ?elem_of_nil; rewrite !elem_of_app || idtac; set_solver.
Qed.

(** Which value a key may take. *)
Definition fits (k : string) (v : json) : bool :=
  if bool_decide (k ∈ ["schedule_id"; "scheduled_for"]) then false
  else if bool_decide (k ∈ ["run_processing"; "send_telegram"; "dry_run"; "force"; "reextract_media"]) then
    match v with JBool _ => true | _ => false end
  else if (k =? "timeout_seconds")%string then check_int 1 (Some 86400) [(k, v)] k
  else if (k =? "limit")%string then check_int 1 (Some 100) [(k, v)] k
  else if (k =? "source_id")%string then check_int 1 None [(k, v)] k
  else true.

Lemma check_int_upsert lo hi p k v k' :
  check_int lo hi (upsert k v p) k' = if (k' =? k)%string then check_int lo hi [(k, v)] k else check_int lo hi p k'.
Proof. unfold check_int. rewrite get_upsert. destruct (String.eqb_spec k' k) as [->|]; [|done]. cbn [get]. by rewrite String.eqb_refl. Qed.
Lemma check_bool_upsert p k v k' :
  check_bool (upsert k v p) k' = if (k' =? k)%string then check_bool [(k, v)] k else check_bool p k'.
Proof. unfold check_bool. rewrite get_upsert. destruct (String.eqb_spec k' k) as [->|]; [|done]. cbn [get]. by rewrite String.eqb_refl. Qed.

Record out_ok (kind : string) (p : list (string * json)) : Prop := { oo_payload : payload_ok kind p; oo_unique : NoDup p.*1 }.

Lemma out_ok_upsert kind p k v allowed :
  out_ok kind p -> allowedByKind kind = Some allowed -> k ∈ allowed -> fits k v = true -> out_ok kind (upsert k v p).
Proof.
  intros [[(al & Hal & Hk) Hs Hv Hsch Hto Hb Hl Hsrc] Hnd] Hkind Hin Hf. split; [|by apply upsert_nodup].
  destruct (allowed_agree _ _ Hkind) as (Hns & Hnv & al' & Hal' & Hsub). assert (al' = al) as -> by congruence.
  unfold fits in Hf. case_bool_decide as Hsc; [done|]. split; try done.
  - exists al. split; [done|]. apply keys_in_upsert; [by apply Hsub|done].
  - unfold check_schedule in *. rewrite !get_upsert.
    rewrite (proj2 (String.eqb_neq "schedule_id" k)), (proj2 (String.eqb_neq "scheduled_for" k)) by (intros <-; apply Hsc; repeat constructor). done.
  - rewrite check_int_upsert. destruct (String.eqb_spec "timeout_seconds" k) as [<-|]; [exact Hf|done].
  - apply forallb_forall. intros b Hbin. rewrite forallb_forall in Hb. rewrite check_bool_upsert.
    destruct (String.eqb_spec b k) as [<-|]; [|by apply Hb]. rewrite bool_decide_eq_true_2 in Hf by (by apply list_elem_of_In).
    unfold check_bool. cbn [get]. rewrite String.eqb_refl. by destruct v.
  - rewrite check_int_upsert. destruct (String.eqb_spec "limit" k) as [<-|]; [exact Hf|done].
  - rewrite check_int_upsert. destruct (String.eqb_spec "source_id" k) as [<-|]; [exact Hf|done].
Qed.

Lemma check_int_json k n lo (hi : option Z) :
  0 <= n < 2 ^ 63 -> lo <= n -> match hi with Some h => n <= h | None => True end -> check_int lo hi [(k, int_json n)] k = true.
Proof.
  intros Hn Hlo Hhi. unfold check_int. cbn [get]. rewrite String.eqb_refl. unfold int_json. rewrite rawInt_itoa by done.
  rewrite (proj2 (Z.leb_le _ _)) by done. destruct hi; [by apply Z.leb_le|done].
Qed.

Lemma int_part_ok kind allowed payload k lo hi text out out' :
  payload_values_ok payload -> out_ok kind out -> allowedByKind kind = Some allowed -> k ∈ allowed -> 0 <= lo ->
  (forall n, 0 <= n < 2 ^ 63 -> lo <= n <= hi -> fits k (int_json n) = true) ->
  int_part int_of_2_63 k lo hi text payload out = Ok out' -> out_ok kind out'.
Proof using conversion_in_range.
  intros Hp Ho Hk Hin Hlo Hf. unfold int_part. destruct (vget payload k) as [v|] eqn:Hv; [|by intros [= <-]].
  apply vget_in in Hv. unfold payload_values_ok in Hp. rewrite List.Forall_forall in Hp. apply list_elem_of_In, Hp in Hv. simpl in Hv.
  destruct (integer _ (Some v)) as [n|] eqn:Hn; [|done]. intros H. ok_inv. apply (integer_range _ _ Hv) in Hn. unfold int64 in Hn.
  eapply out_ok_upsert; [done|done|done|]. apply Hf; lia.
Qed.

Lemma bool_part_ok kind allowed payload k otherwise out out' :
  out_ok kind out -> allowedByKind kind = Some allowed -> k ∈ allowed -> (forall b, fits k (JBool b) = true) ->
  bool_part k otherwise payload out = Ok out' -> out_ok kind out'.
Proof.
  intros Ho Hk Hin Hf. unfold bool_part. destruct (vget payload k) as [[]|]; try done; [|destruct otherwise]; intros [= <-];
    try done; by eapply out_ok_upsert.
Qed.

(** The empty object, and the schedule's two members. *)
Lemma empty_ok kind allowed : allowedByKind kind = Some allowed -> out_ok kind [].
Proof.
  intros Hk. destruct (allowed_agree _ _ Hk) as (H1 & H2 & al & Hal & _). split; [|constructor]. split; try done. by exists al.
Qed.

Lemma schedule_part_ok kind allowed payload out :
  payload_values_ok payload -> allowedByKind kind = Some allowed -> (forall k v, vget payload k = Some v -> k ∈ allowed) ->
  schedule_part int_of_2_63 payload [] = Ok out -> out_ok kind out.
Proof using conversion_in_range.
  intros Hp Hk Hin. unfold schedule_part. intros H. ok_inv. destruct (allowed_agree _ _ Hk) as (Hns & Hnv & al & Hal & Hsub).
  case_bool_decide as Hs; [|simplify_eq; by eapply empty_ok].
  destruct (vget payload "schedule_id") as [v|] eqn:Hv; [|by destruct Hs].
  pose proof (Hin _ _ Hv) as Hin1. apply vget_in in Hv. unfold payload_values_ok in Hp. rewrite List.Forall_forall in Hp.
  apply list_elem_of_In, Hp in Hv. simpl in Hv. destruct (integer _ (Some v)) as [n|] eqn:Hn; [|done]. ok_inv.
  apply (integer_range _ _ Hv) in Hn. unfold int64 in Hn.
  destruct (vget payload "scheduled_for") as [[]|] eqn:Hd; try done. ok_inv.
  match goal with H : is_Some (parsePythonISOTime _) |- _ => destruct H as [t Ht] end. apply parsePythonISOTime_valid in Ht.
  pose proof (Hin _ _ Hd) as Hin2. cbn [upsert String.eqb Ascii.eqb Bool.eqb]. split; [|by apply (bool_decide_eq_true (NoDup _)); by_eval].
  split; try done.
  - exists al. split; [done|]. cbn [forallb fst]. rewrite !bool_decide_eq_true_2 by auto. done.
  - unfold check_schedule. cbn [get String.eqb Ascii.eqb Bool.eqb]. unfold int_json. rewrite rawInt_itoa by lia.
    rewrite (proj2 (Z.ltb_lt 0 n)) by lia. rewrite Ht. rewrite bool_decide_eq_true_2; [done|]. split; by eexists.
Qed.

(** The three members of an article job. *)
Lemma article_part_ok payload out :
  payload_values_ok payload -> article_part int_of_2_63 payload [] = Ok out ->
  exists ints force media, out = [("article_ids", id_list ints); ("force", JBool force); ("reextract_media", JBool media)] /\
    1 <= Z.of_nat (length ints) <= 100 /\ StronglySorted Z.lt ints /\ Forall (fun n => 0 < n < 2 ^ 63) ints.
Proof using conversion_in_range.
  intros Hp. unfold article_part. unfold payload_values_ok in Hp. rewrite List.Forall_forall in Hp.
  set (ids := match vget payload "article_ids" with Some (VArr l) => Some l | Some (VInts l) => Some (map VInt l) | _ => None end).
  assert (forall l, ids = Some l -> Forall value_ok l) as Hids.
  { unfold ids. intros l Hl. destruct (vget payload "article_ids") as [v|] eqn:Hv; [|done].
    apply vget_in, list_elem_of_In, Hp in Hv. simpl in Hv. destruct v as [| | | | |l0|l0|]; try done; injection Hl as <-.
    - clear -Hv. cbn [value_ok] in Hv. induction l0 as [|x l0 IH]; [constructor|]. destruct Hv. constructor; auto.
    - clear -Hv. cbn [value_ok] in Hv. induction Hv; constructor; auto. }
  destruct ids as [l|]; [|done]. specialize (Hids l eq_refl). intros H. ok_inv.
  match goal with H : selected_ids _ _ _ = Ok ?i |- _ => destruct (selected_ids_spec _ Hids _ _ H) as (Hlen & Hpos & Hnd & _);
    set (sorted := merge_sort Z.le i) in *; assert (sorted ≡ₚ i) as Hperm by apply merge_sort_Permutation;
    assert (StronglySorted Z.le sorted) as Hs by (apply (StronglySorted_merge_sort Z.le)) end.
  fold (id_list sorted) in *. exists sorted.
  assert (exists b, x1 = [("article_ids", id_list sorted); ("force", JBool b)]) as [force ->].
  { match goal with H : bool_part "force" _ _ _ = Ok _ |- _ => revert H end. unfold bool_part.
    destruct (vget payload "force") as [[]|]; try done; intros [= <-]; eauto. }
  exists force. match goal with H : bool_part "reextract_media" _ _ _ = Ok _ |- _ => revert H end. unfold bool_part.
  unfold MaxSelectedIDs in *.
  assert (1 <= Z.of_nat (length sorted) <= 100 /\ StronglySorted Z.lt sorted /\ Forall (fun n => 0 < n < 2 ^ 63) sorted) as Hprops.
  { split_and!; [rewrite Hperm; lia|rewrite Hperm; lia|apply sorted_nodup_lt; [done|by rewrite Hperm]|by rewrite Hperm]. }
  destruct (vget payload "reextract_media") as [[]|]; try done; intros [= <-]; by eexists.
Qed.

Lemma source_part_ok payload out out' :
  payload_values_ok payload -> out_ok "source_test" out -> source_part int_of_2_63 payload out = Ok out' ->
  out_ok "source_test" out' /\ is_Some (get out' "source_id").
Proof using conversion_in_range.
  intros Hp Ho. unfold source_part. destruct (vget payload "source_id") as [v|] eqn:Hv; [|done].
  apply vget_in in Hv. unfold payload_values_ok in Hp. rewrite List.Forall_forall in Hp. apply list_elem_of_In, Hp in Hv. simpl in Hv.
  destruct (integer _ (Some v)) as [n|] eqn:Hn; [|done]. intros H. ok_inv. apply (integer_range _ _ Hv) in Hn. unfold int64 in Hn.
  split; [|rewrite get_upsert; by eexists]. eapply out_ok_upsert; [done|reflexivity|by left|]. apply (check_int_json "source_id" n 1 None); [lia|lia|done].
Qed.

(** What [ValidatePayload] builds. *)
Definition article_members (kind : string) (out : list (string * json)) : Prop :=
  kind = "article_reprocess" -> exists ints force media,
    out = [("article_ids", id_list ints); ("force", JBool force); ("reextract_media", JBool media)] /\
    1 <= Z.of_nat (length ints) <= 100 /\ StronglySorted Z.lt ints /\ Forall (fun n => 0 < n < 2 ^ 63) ints.

Lemma when_kind_ok kind k (part : list (string * json) -> result string (list (string * json))) out out' (P : list (string * json) -> Prop) :
  P out -> (kind = k -> part out = Ok out' -> P out') -> when_kind kind k part out = Ok out' -> P out'.
Proof. unfold when_kind. destruct (String.eqb_spec kind k); [auto|]. by intros ? _ [= <-]. Qed.

Lemma article_members_ok out : article_members "article_reprocess" out -> out_ok "article_reprocess" out.
Proof.
  intros (ints & force & media & -> & _); [done|]. split; [|apply (bool_decide_eq_true (NoDup _)); by_eval].
  by apply article_payload_ok.
Qed.

Lemma ValidatePayload_out kind payload out :
  payload_values_ok payload -> ValidatePayload int_of_2_63 kind (Some payload) = Ok out ->
  out_ok kind out /\ article_members kind out /\ (kind = "source_test" -> is_Some (get out "source_id")).
Proof using conversion_in_range.
  intros Hp. unfold ValidatePayload. destruct (allowedByKind kind) as [allowed|] eqn:Hk; [|done]. intros H.
  apply result_bind_ok in H as (u & Hkeys & H). apply guard_err_ok, negb_false_iff in Hkeys.
  assert (forall k v, vget payload k = Some v -> k ∈ allowed) as Hin.
  { intros k v Hv. apply vget_in, list_elem_of_In in Hv. rewrite forallb_forall in Hkeys. apply Hkeys in Hv. simpl in Hv. by bool_to_prop. }
  clear u Hkeys.
  apply result_bind_ok in H as (o1 & H1 & H). apply result_bind_ok in H as (o2 & H2 & H). apply result_bind_ok in H as (o3 & H3 & H).
  apply result_bind_ok in H as (o4 & H4 & H). apply result_bind_ok in H as (o5 & H5 & H). apply result_bind_ok in H as (o6 & H6 & H).
  apply result_bind_ok in H as (u & _ & H). injection H as <-.
  assert (out_ok kind o1) as K1 by (by eapply schedule_part_ok).
  assert (out_ok kind o2) as K2.
  { destruct (vget payload "timeout_seconds") as [v|] eqn:Hv; [|unfold int_part in H2; rewrite Hv in H2; by simplify_eq].
    eapply (int_part_ok _ _ _ "timeout_seconds" 1 86400); [done..|by eapply Hin|lia| |done].
    intros n Hn Hb. apply (check_int_json "timeout_seconds" n 1 (Some 86400)); simpl; lia. }
  assert (out_ok kind o3) as K3.
  { eapply when_kind_ok, H3; [done|]. intros -> H. injection Hk as <-. apply result_bind_ok in H as (o & Ha & Hb).
    eapply bool_part_ok, Hb; [|reflexivity|apply (bool_decide_eq_true _); by_eval|done].
    by eapply bool_part_ok, Ha; [|reflexivity|apply (bool_decide_eq_true _); by_eval|]. }
  assert (out_ok kind o4) as K4.
  { eapply when_kind_ok, H4; [done|]. intros -> H. injection Hk as <-. apply result_bind_ok in H as (o & Ha & Hb).
    eapply bool_part_ok, Hb; [|reflexivity|apply (bool_decide_eq_true _); by_eval|done].
    eapply (int_part_ok _ _ _ "limit" 1 100), Ha; [done|done|reflexivity|apply (bool_decide_eq_true _); by_eval|lia|].
    intros n Hn Hr. apply (check_int_json "limit" n 1 (Some 100)); simpl; lia. }
  assert (out_ok kind o5 /\ article_members kind o5) as [K5 K5'].
  { destruct (decide (kind = "article_reprocess")) as [->|Hne].
    - injection Hk as <-. cbn in H3, H4, H5. simplify_eq.
      assert (forall k, k ∉ ["article_ids"; "force"; "reextract_media"] -> vget payload k = None) as Hnone.
      { intros k Hk. destruct (vget payload k) as [v|] eqn:Hv; [|done]. by apply Hin in Hv. }
      unfold schedule_part in H1. rewrite !Hnone in H1 by (apply (bool_decide_eq_true _); by_eval). cbn in H1. simplify_eq.
      unfold int_part in H2. rewrite !Hnone in H2 by (apply (bool_decide_eq_true _); by_eval). simplify_eq.
      assert (article_members "article_reprocess" o5) as Ha by (intros _; by eapply article_part_ok).
      split; [by apply article_members_ok|done].
    - unfold when_kind in H5. rewrite (proj2 (String.eqb_neq _ _) Hne) in H5. simplify_eq. split; [done|]. by intros ->. }
  destruct (decide (kind = "source_test")) as [->|Hne].
  - cbn in H6. apply source_part_ok in H6 as [K6 Ks]; [|done|done]. split; [done|]. split; [done|]. done.
  - unfold when_kind in H6. rewrite (proj2 (String.eqb_neq _ _) Hne) in H6. simplify_eq. done.
Qed.

(** ** In any order of the members *)

Lemma get_perm p q k : NoDup p.*1 -> p ≡ₚ q -> get p k = get q k.
Proof.
  intros Hp Hpq. assert (NoDup q.*1) as Hq by (by rewrite <- Hpq). destruct (get p k) as [v|] eqn:Hg.
  - apply get_in in Hg; [|done]. rewrite Hpq in Hg. symmetry. by apply get_in.
  - apply get_none in Hg. rewrite Hpq in Hg. symmetry. by apply get_none.
Qed.

Lemma payload_ok_perm kind p q : NoDup p.*1 -> p ≡ₚ q -> payload_ok kind p -> payload_ok kind q.
Proof.
  intros Hp Hpq [(al & Hal & Hk) Hs Hv Hsch Hto Hb Hl Hsrc]. pose proof (fun k => get_perm p q k Hp Hpq) as Hg.
  unfold single_uuid in Hs, Hv. unfold check_schedule in Hsch. unfold check_int in Hto, Hl, Hsrc.
  rewrite Hg in Hs, Hv, Hto, Hl, Hsrc. rewrite (Hg "schedule_id"), (Hg "scheduled_for") in Hsch. rewrite (Permutation_length Hpq) in Hs, Hv. split; try done.
  - exists al. split; [done|]. rewrite forallb_forall in Hk |- *. intros kv Hin. apply Hk. apply list_elem_of_In. rewrite Hpq. by apply list_elem_of_In.
  - rewrite forallb_forall in Hb. apply forallb_forall. intros b Hin. specialize (Hb b Hin). unfold check_bool in *. by rewrite <- Hg.
Qed.
End Accepted.

(** C27: The executor accepts what the web service stores.  Whatever
    ValidatePayload returns is, in any order of its members, a payload the
    executor validates to itself: no job accepted by the web service is refused by
    the executor as invalid, and the payload an attempt works on is the one that was
    stored. *)
Theorem accepted_payload_executable int_of_2_63 canonical_uuid kind payload out ms n :
  int64 int_of_2_63 -> payload_values_ok payload ->
  ValidatePayload int_of_2_63 kind (Some payload) = Ok out -> ms ≡ₚ out -> n <= 4096 ->
  validatePayload canonical_uuid kind n (Some (JObj ms)) = Ok ms /\ NoDup ms.*1.
Proof.
  intros Hi Hp Hv Hms Hn. destruct (ValidatePayload_out _ Hi canonical_uuid _ _ _ Hp Hv) as ([Hok Hnd] & Hart & Hsrc).
  symmetry in Hms. pose proof (fun k => get_perm out ms k Hnd Hms) as Hg. apply (payload_ok_perm _ _ _ ms Hnd Hms) in Hok.
  assert (NoDup ms.*1) as Hnd' by (by rewrite <- Hms). split; [|done]. apply validatePayload_ok. split; [done|].
  exists ms. rewrite raw_map_id by done. split; [done|]. split; [done|]. split; [by rewrite <- Hg|].
  destruct (String.eqb_spec kind "article_reprocess") as [->|]; [|done].
  destruct Hart as (ints & force & media & -> & Hlen & Hs & Hpos); [done|].
  assert (StronglySorted Z.le ints) as Hle.
  { clear -Hs. induction Hs as [|x l Hs IH Hx]; constructor; [done|]. eapply Forall_impl; [done|]. simpl. lia. }
  assert (NoDup ints) as Hni.
  { clear -Hs. induction Hs as [|x l Hs IH Hx]; constructor; [|done]. intros Hin. rewrite List.Forall_forall in Hx.
    apply list_elem_of_In, Hx in Hin. lia. }
  exists (map (fun n => JNum (itoa n)) ints), ints. rewrite <- Hg. split; [done|]. rewrite length_map. split; [done|].
  split; [apply article_values_itoa; [done|done|set_solver]|]. rewrite exchange_sort_sorted by done. fold (id_list ints).
  rewrite (upsert_same "article_ids") by (by rewrite <- Hg).
  rewrite (default_same "force") by (rewrite <- Hg; by eexists). by rewrite default_same by (rewrite <- Hg; by eexists).
Qed.

Definition sample_ids : list (string * value) := [("article_ids", VInts [9; 2]); ("reextract_media", VBool true)].
Definition sample_out : list (string * json) := [("article_ids", id_list [2; 9]); ("force", JBool true); ("reextract_media", JBool true)].

Lemma accepted_payload_executable_witness :
  ValidatePayload (- 2 ^ 63) "article_reprocess" (Some sample_ids) = Ok sample_out /\
  validatePayload canonicalUUID "article_reprocess" 70 (Some (JObj sample_out)) = Ok sample_out /\ NoDup sample_out.*1.
Proof.
  split; [by_eval|].
  apply (accepted_payload_executable (- 2 ^ 63) canonicalUUID "article_reprocess" sample_ids sample_out sample_out 70).
  - unfold int64. lia.
  - repeat constructor; simpl; unfold int64; lia.
  - by_eval.
  - reflexivity.
  - lia.
Defined.

Lemma length_bytes_of s : length (bytes_of s) = String.length s.
Proof. unfold bytes_of. rewrite length_map. induction s; simpl; congruence. Qed.

Lemma canonical_chars_spec cs : forall i, canonical_chars i cs = true ->
  forallb is_hex (filter (fun c => c <> 45) cs) = true /\ existsb (fun c => (65 <=? c) && (c <=? 90)) cs = false /\
  length (filter (fun c => c <> 45) cs) = length (filter (fun k => dash_at k = false) (seq i (length cs))) /\
  (forall k, (k < length cs)%nat -> dash_at (i + k) = true -> nth k cs 0 = 45).
Proof.
  induction cs as [|c cs IH]; intros i; cbn [canonical_chars]; [intros _; split_and!; [done..|]; intros k Hk; simpl in Hk; lia|].
  intros [Hc Hcs]%andb_true_iff. destruct (IH _ Hcs) as (H1 & H2 & H3 & H4).
  assert ((dash_at i = true /\ c = 45) \/ (dash_at i = false /\ is_hex_lower c = true /\ c <> 45)) as Hcase.
  { unfold dash, is_hex_lower in *. destruct (dash_at i); [left; by bool_to_prop|right; split; [done|split; [done|]]]. intros ->. done. }
  assert (((65 <=? c) && (c <=? 90)) = false) as Hu.
  { destruct Hcase as [[_ ->]|(_ & Hx & _)]; [done|]. unfold is_hex_lower in Hx. apply not_true_iff_false. intros Hy. bool_to_prop.
    destruct Hx as [Hx|Hx]; bool_to_prop; lia. }
  split_and!.
  - rewrite filter_cons. case_decide as Hd; [|done]. cbn [forallb]. destruct Hcase as [[_ ?]|(_ & Hx & _)]; [done|].
    unfold is_hex. by rewrite Hx.
  - cbn [existsb]. by rewrite Hu.
  - cbn [length seq]. rewrite !filter_cons. destruct Hcase as [[Hd ->]|(Hd & _ & Hne)].
    + rewrite decide_False by (intros E; by apply E). rewrite decide_False by congruence. done.
    + rewrite decide_True by done. rewrite decide_True by done. cbn [length]. by rewrite H3.
  - intros [|k] Hk Hd; cbn [nth length] in *; [rewrite Nat.add_0_r in Hd; destruct Hcase as [[_ ->]|(? & _)]; congruence|].
    apply H4; [lia|]. by rewrite Nat.add_succ_comm.
Qed.

(** The two tests of UUIDs: whatever has the canonical form passes the test of
    the web service, which also lets pairs of further hyphens through. *)
Lemma canonicalUUID_passes s : canonicalUUID s = true -> isCanonicalUUID s = true.
Proof.
  unfold canonicalUUID, isCanonicalUUID. intros [Hl Hc]%andb_true_iff. rewrite Hl.
  assert (length (bytes_of s) = 36%nat) as Hlen.
  { rewrite length_bytes_of. bool_to_prop. unfold len in Hl. lia. }
  destruct (canonical_chars_spec _ _ Hc) as (Hhex & Hup & Hcount & Hdash). rewrite Hup.
  rewrite !Hdash by (rewrite ?Hlen; (reflexivity || lia)). cbn [negb orb Z.eqb Pos.eqb andb]. unfold hex_decodes.
  rewrite Hhex, Hcount, Hlen. done.
Qed.

Lemma isCanonicalUUID_lenient :
  isCanonicalUUID "--000000-0000-4000-8000-000000000001" = true /\ canonicalUUID "--000000-0000-4000-8000-000000000001" = false.
Proof. split; by_eval. Qed.
