(* ===== verification/JobIntake.v ===== *)
(** * JobIntake: go-web/internal/repositories/jobs.go and the Service of go-web/internal/jobs

    How jobs get into the queue: requests of the management pages
    ([Submit]) and occurrences of the scheduler ([AcceptOccurrence]).

    The tables are those of [QueueTables], the columns of [background_jobs] that
    only the intake reads ([key_columns], in a map of its own with the same
    ids), the idempotency aliases and the receipts of occurrences
    (go-domain/migration/sql/009.sql and 010.sql).  All producers take one
    advisory lock for the whole transaction, so between two of their
    transactions the tables change as other sessions leave them.
    [CURRENT_TIMESTAMP] is the time the transaction began, [tx_clock].

    Parameters: SHA-256, and [float_text], what Marshal prints for the float64
    that encoding/json reads from a literal. *)

From S2P Require Import Prelude JsonStrict GoTime Db GoText GoDecode QueueTables JobPayload.

(** ** Tables *)

Record key_columns := KeyColumns {
  k_idempotency : string;
  k_coalesce : option string;
  k_occurrence : option string;
  k_scheduled_for : option Z;
}.

Record itables := ITables {
  i_queue : qtables;
  i_columns : gmap string key_columns;
  i_aliases : gmap string string;                (* key -> job *)
  i_receipts : gmap string (string * string);    (* occurrence -> envelope hash, job *)
  i_sequence : Z;                                (* queue_position *)
}.

Notation IM := (M itables jobs_error).

Definition set_aliases (m : gmap string string) (d : itables) : itables :=
  ITables (i_queue d) (i_columns d) m (i_receipts d) (i_sequence d).
Definition set_receipts (m : gmap string (string * string)) (d : itables) : itables :=
  ITables (i_queue d) (i_columns d) (i_aliases d) m (i_sequence d).

(** The rows of [background_jobs] with all their columns. *)
Definition job_at (d : itables) (id : string) : option (job_row * key_columns) :=
  j ← q_jobs (i_queue d) !! id; c ← i_columns d !! id; Some (j, c).

(** [SELECT ... FROM background_jobs WHERE P], the row QueryRow takes *)
Definition find_where (P : job_row * key_columns -> bool) (d : itables) : option (string * (job_row * key_columns)) :=
  head (filter (fun kv => P kv.2 = true) (map_to_list (map_zip (q_jobs (i_queue d)) (i_columns d)))).

Definition find_alias (key : string) (d : itables) : option (string * (job_row * key_columns)) :=
  id ← i_aliases d !! key; row ← job_at d id; Some (id, row).

Definition active (s : jstate) : bool := match s with Queued | Running | Interrupted => true | _ => false end.
Definition waiting (s : jstate) : bool := match s with Queued | Interrupted => true | _ => false end.

(** [SELECT count(ROWS) ... WHERE state IN ('queued','interrupted')] *)
Definition pending_jobs (d : itables) : Z :=
  Z.of_nat (size (filter (fun kv => waiting (j_state kv.2) = true) (q_jobs (i_queue d)))).
Definition alias_count (id : string) (d : itables) : Z :=
  Z.of_nat (size (filter (fun kv => kv.2 = id) (i_aliases d))).

Definition insert_alias (key id : string) : stmt itables unit := fun _ _ d =>
  if bool_decide (is_Some (i_aliases d !! key)) then (Err UniqueViolation, d) else (Ok tt, set_aliases (<[key := id]> (i_aliases d)) d).
(** [ON CONFLICT(key) DO NOTHING] *)
Definition insert_alias_if_absent (key id : string) : stmt itables unit := fun _ _ d =>
  if bool_decide (is_Some (i_aliases d !! key)) then (Ok tt, d) else (Ok tt, set_aliases (<[key := id]> (i_aliases d)) d).

(** The INSERT into [background_jobs], with its primary key and unique indexes. *)
Definition insert_job (id : string) (row : Z -> job_row) (c : key_columns) : stmt itables unit := fun _ _ d =>
  if bool_decide (is_Some (q_jobs (i_queue d) !! id)) ||
     bool_decide (is_Some (find_where (fun r => bool_decide (k_idempotency r.2 = k_idempotency c)) d)) ||
     (bool_decide (is_Some (k_occurrence c)) &&
      bool_decide (is_Some (find_where (fun r => bool_decide (k_occurrence r.2 = k_occurrence c)) d))) ||
     (bool_decide (is_Some (k_coalesce c)) &&
      bool_decide (is_Some (find_where (fun r => bool_decide (k_coalesce r.2 = k_coalesce c) && active (j_state r.1)) d)))
  then (Err UniqueViolation, d)
  else (Ok tt, ITables (set_jobs (<[id := row (i_sequence d)]> (q_jobs (i_queue d))) (i_queue d))
                 (<[id := c]> (i_columns d)) (i_aliases d) (i_receipts d) (i_sequence d + 1)).

Definition insert_receipt (occurrence hash job : string) : stmt itables unit := fun _ _ d =>
  if bool_decide (is_Some (i_receipts d !! occurrence)) then (Err UniqueViolation, d)
  else (Ok tt, set_receipts (<[occurrence := (hash, job)]> (i_receipts d)) d).

(** ** Results *)

Record Job := MkJob {
  jb_ID : string;
  jb_Kind : string;
  jb_Status : jstate;
  jb_CreatedAt : option Z;
  jb_StartedAt : option Z;
  jb_FinishedAt : option Z;
  jb_Result : gomap;
  jb_ErrorCode : option string;
  jb_WorkerAvailable : bool;
}.

Record SubmitResult := MkSubmitResult { sr_Job : Job; sr_Created : bool }.
Record AcceptedOccurrence := MkAcceptedOccurrence { ao_OccurrenceID : string; ao_JobID : string; ao_Created : bool }.
Record WorkerStatus := MkWorkerStatus { wk_Generation : Z; wk_Status : bool; wk_HeartbeatAt : option Z; wk_Healthy : bool }.

Definition no_rows : jobs_error := ErrText "no rows in result set".

(** [status='running' AND heartbeat_at >= now - interval '20 seconds']; NULL is [None] *)
Definition healthy_column (now : Z) (s : status_row) : option bool :=
  match ws_heartbeat s with
  | Some hb => Some (ws_running s && (now - 20 * Second <=? hb))
  | None => if ws_running s then None else Some false
  end.

Section Repository.
Context `{Postgres} (sha256hex : string -> string) (float_text : string -> option string).

(** Two documents that decode into [any] and print alike. *)
Definition jsonSemanticEqual (a b : json) : bool :=
  match go_any float_text a, go_any float_text b with
  | Some x, Some y => (marshal x =? marshal y)%string
  | _, _ => false
  end.

Definition sameMetadata (j : job_row) (c : key_columns) (m : option OccurrenceMetadata) : bool :=
  match m with
  | None => bool_decide (j_schedule_key j = None) && bool_decide (j_schedule_revision j = None) &&
            bool_decide (k_occurrence c = None) && bool_decide (k_scheduled_for c = None)
  | Some m => bool_decide (j_schedule_key j = Some (om_ScheduleKey m)) &&
              bool_decide (j_schedule_revision j = Some (om_ScheduleRevision m)) &&
              bool_decide (k_occurrence c = Some (om_OccurrenceID m)) &&
              bool_decide (k_scheduled_for c = Some (om_ScheduledFor m))
  end.

Definition scanJob (id : string) (j : job_row) : result jobs_error Job :=
  let job res := Ok (MkJob id (j_kind j) (j_state j) (Some (j_created j)) (j_started j) (j_finished j) res (j_error j) false) in
  match j_result j with
  | None => job None
  | Some raw => match go_any float_text raw with
                | Some (JObj l) => job (Some l)
                | Some JNull => job None
                | _ => Err (ErrText "json: cannot unmarshal")
                end
  end.

Definition loadJob (id : string) : IM Job :=
  row ← exec ErrDriver (read (fun _ d => q_jobs (i_queue d) !! id));
  match row with Some j => lift (scanJob id j) | None => raise ErrNotFound end.

Definition semantics_differ (r : job_row * key_columns) (kind : string) (payload : list (string * json))
    (meta : option OccurrenceMetadata) : bool :=
  negb (j_kind r.1 =? kind)%string || negb (jsonSemanticEqual (j_payload r.1) (JObj payload)) || negb (sameMetadata r.1 r.2 meta).

Definition existingJob (id kind : string) (payload : list (string * json)) (key : string) (meta : option OccurrenceMetadata) : IM SubmitResult :=
  row ← exec ErrDriver (read (fun _ d => job_at d id));
  match row with
  | None => raise no_rows
  | Some r =>
      _ ← guard_m (semantics_differ r kind payload meta) ErrIdempotencyConflict;
      known ← exec ErrDriver (read (fun _ d => bool_decide (is_Some (i_aliases d !! key))));
      _ ← (if known : bool then mret tt else exec ErrDriver (insert_alias_if_absent key id));
      j ← loadJob id;
      mret (MkSubmitResult j false)
  end.

Definition coalesce_hash (kind : string) (payload : list (string * json)) : string :=
  sha256hex (kind +:+ string_of [0] +:+ marshal (JObj payload)).

(** The columns of the new row. *)
Definition new_row (kind : string) (payload : list (string * json)) (meta : option OccurrenceMetadata) (created position : Z) : job_row :=
  JobRow kind (jsonb (JObj payload)) None position Queued None 0 created None None None
    (om_ScheduleKey <$> meta) (om_ScheduleRevision <$> meta) None.
Definition new_columns (storedKey : string) (coalesceKey : option string) (meta : option OccurrenceMetadata) : key_columns :=
  KeyColumns storedKey coalesceKey (om_OccurrenceID <$> meta) (om_ScheduledFor <$> meta).

(** [enqueue], where an active job with the same content is found. *)
Definition coalesced (kind : string) (payload : list (string * json)) (storedKey : string) (meta : option OccurrenceMetadata)
    (id : string) (r : job_row * key_columns) : IM SubmitResult :=
  _ ← guard_m (semantics_differ r kind payload meta) ErrIdempotencyConflict;
  aliases ← exec ErrDriver (read (fun _ d => alias_count id d));
  _ ← guard_m (MaxIdempotencyAliasesPerJob <=? aliases) ErrQueueFull;
  _ ← exec ErrDriver (insert_alias storedKey id);
  j ← loadJob id;
  mret (MkSubmitResult j false).

(** [enqueue], where nothing is found; [now] is the transaction's timestamp. *)
Definition new_job (now : Z) (kind : string) (payload : list (string * json)) (storedKey : string) (coalesceKey : option string)
    (meta : option OccurrenceMetadata) : IM SubmitResult :=
  pending ← exec ErrDriver (read (fun _ d => pending_jobs d));
  _ ← guard_m (MaxPendingJobs <=? pending) ErrQueueFull;
  idBytes ← rand_read (ErrText "crypto/rand");
  let id := uuid_text idBytes in
  _ ← exec ErrDriver (insert_job id (new_row kind payload meta now) (new_columns storedKey coalesceKey meta));
  _ ← exec ErrDriver (insert_alias storedKey id);
  j ← loadJob id;
  mret (MkSubmitResult j true).

Definition enqueue (now : Z) (kind : string) (payload : list (string * json)) (storedKey : string) (coalesce : bool)
    (meta : option OccurrenceMetadata) : IM SubmitResult :=
  by_alias ← exec ErrDriver (read (fun _ d => find_alias storedKey d));
  found ← (match by_alias with
           | Some r => mret (Some r)
           | None => exec ErrDriver (read (fun _ d => find_where (fun r => bool_decide (k_idempotency r.2 = storedKey)) d))
           end);
  match found with
  | Some (id, _) => existingJob id kind payload storedKey meta
  | None =>
      by_occurrence ← (match meta with
                       | Some m => exec ErrDriver (read (fun _ d =>
                           find_where (fun r => bool_decide (k_occurrence r.2 = Some (om_OccurrenceID m))) d))
                       | None => mret None
                       end);
      match by_occurrence with
      | Some (id, _) => existingJob id kind payload storedKey meta
      | None =>
          let coalesceKey := if coalesce then Some (coalesce_hash kind payload) else None in
          same ← (if coalesce then exec ErrDriver (read (fun _ d =>
                    find_where (fun r => bool_decide (k_coalesce r.2 = coalesceKey) && active (j_state r.1)) d))
                  else mret None);
          match same with
          | Some (id, r) => coalesced kind payload storedKey meta id r
          | None => new_job now kind payload storedKey coalesceKey meta
          end
      end
  end.

(** The advisory lock excludes the other producers; it changes nothing else. *)
Definition producerLock : IM unit := exec ErrDriver (read (fun _ _ => tt)).

Definition submit_body (kind : string) (payload : list (string * json)) (storedKey : string) : IM SubmitResult :=
  now ← tx_clock;
  _ ← producerLock;
  r ← enqueue now kind payload storedKey true None;
  _ ← commit (ErrDriver DbFault);
  mret r.

(** [JobRepository.Submit] *)
Definition repository_Submit (kind : string) (payload : list (string * json)) (storedKey : string) : IM SubmitResult :=
  with_tx (ErrDriver DbFault) (submit_body kind payload storedKey).

Definition occurrence_key (occurrence : string) : string := sha256hex ("scheduler:v1:" +:+ occurrence).

Definition check_worker (now : Z) : IM unit :=
  row ← exec ErrDriver (read (fun _ d => q_status (i_queue d)));
  match row with
  | None => raise ErrWorkerUnavailable
  | Some s => match healthy_column now s with
              | None => raise (ErrText "cannot scan NULL into *bool")
              | Some healthy => guard_m (negb healthy) ErrWorkerUnavailable
              end
  end.

Definition accept_body (workerMode : bool) (dispatchMode operation : string) (call : occurrence_call) : IM AcceptedOccurrence :=
  let meta := call_metadata call in
  let occurrence := om_OccurrenceID meta in
  now ← tx_clock;
  _ ← producerLock;
  prior ← exec ErrDriver (read (fun _ d => i_receipts d !! occurrence));
  match prior with
  | Some (priorHash, priorJob) =>
      _ ← guard_m (negb (priorHash =? call_hash call)%string) ErrIdempotencyConflict;
      _ ← commit (ErrDriver DbFault);
      mret (MkAcceptedOccurrence occurrence priorJob false)
  | None =>
      _ ← guard_m (negb workerMode || negb (dispatchMode =? "service")%string) ErrWorkerUnavailable;
      _ ← check_worker now;
      count ← exec ErrDriver (read (fun _ d => Z.of_nat (size (i_receipts d))));
      _ ← guard_m (call_limit call <=? count) ErrQueueFull;
      r ← enqueue now operation (call_payload call) (occurrence_key occurrence) false (Some meta);
      _ ← exec ErrDriver (insert_receipt occurrence (call_hash call) (jb_ID (sr_Job r)));
      _ ← commit (ErrDriver DbFault);
      mret (MkAcceptedOccurrence occurrence (jb_ID (sr_Job r)) (sr_Created r))
  end.

(** [JobRepository.AcceptOccurrence] *)
Definition repository_AcceptOccurrence (workerMode : bool) (dispatchMode operation : string) (call : occurrence_call) : IM AcceptedOccurrence :=
  with_tx (ErrDriver DbFault) (accept_body workerMode dispatchMode operation call).

(** [JobRepository.Get] *)
Definition Get (id : string) : IM Job :=
  j ← loadJob id;
  healthy ← exec ErrDriver (read (fun now d => healthy_column (pg_time now) <$> q_status (i_queue d)));
  match healthy with
  | None => mret (MkJob (jb_ID j) (jb_Kind j) (jb_Status j) (jb_CreatedAt j) (jb_StartedAt j) (jb_FinishedAt j) (jb_Result j) (jb_ErrorCode j) false)
  | Some (Some b) =>
      mret (MkJob (jb_ID j) (jb_Kind j) (jb_Status j) (jb_CreatedAt j) (jb_StartedAt j) (jb_FinishedAt j) (jb_Result j) (jb_ErrorCode j) b)
  | Some None => raise (ErrText "cannot scan NULL into *bool")
  end.

(** [JobRepository.Status] *)
Definition Status : IM WorkerStatus :=
  row ← exec ErrDriver (read (fun now d => s ← q_status (i_queue d); Some (s, healthy_column (pg_time now) s)));
  match row with
  | None => mret (MkWorkerStatus 0 false None false)
  | Some (s, Some healthy) => mret (MkWorkerStatus (ws_generation s) (ws_running s) (ws_heartbeat s) healthy)
  | Some (_, None) => raise (ErrText "cannot scan NULL into *bool")
  end.

(** ** The service *)

Context (int_of_2_63 : Z) (shortest : SpecFloat.spec_float -> string).

(** [Service.Submit] *)
Definition Submit (kind : string) (payload : option (list (string * value))) (key : string) : IM SubmitResult :=
  match prepare_submit int_of_2_63 sha256hex kind payload key with
  | Err text => raise (ErrText text)
  | Ok (out, storedKey) => repository_Submit kind out storedKey
  end.

(** [Service.AcceptOccurrence] *)
Definition AcceptOccurrence (c : OccurrenceCommand) : IM AcceptedOccurrence :=
  match prepare_occurrence int_of_2_63 shortest sha256hex c with
  | Err text => raise (ErrText text)
  | Ok call => repository_AcceptOccurrence (oc_WorkerMode c) (oc_DispatchMode c) (oc_Operation c) call
  end.
End Repository.

(** ** The invariant *)

(** Every job has its other columns, aliases point to jobs, keys are unique, and a
    job of an occurrence is the one its receipt names. *)
Record i_wf (d : itables) : Prop := {
  iw_columns : forall id, is_Some (i_columns d !! id) <-> is_Some (q_jobs (i_queue d) !! id);
  iw_alias : forall key id, i_aliases d !! key = Some id -> is_Some (q_jobs (i_queue d) !! id);
  iw_idempotency : forall a b ra rb, job_at d a = Some ra -> job_at d b = Some rb ->
    k_idempotency ra.2 = k_idempotency rb.2 -> a = b;
  iw_coalesce : forall a b ra rb key, job_at d a = Some ra -> job_at d b = Some rb ->
    k_coalesce ra.2 = Some key -> k_coalesce rb.2 = Some key ->
    active (j_state ra.1) = true -> active (j_state rb.1) = true -> a = b;
  iw_receipt : forall id r occurrence, job_at d id = Some r -> k_occurrence r.2 = Some occurrence ->
    exists hash, i_receipts d !! occurrence = Some (hash, id);
}.

(** Receipts are never taken back. *)
Record i_evolves (d d' : itables) : Prop := {
  ie_wf : i_wf d -> i_wf d';
  ie_receipts : i_receipts d ⊆ i_receipts d';
}.

#[export] Instance i_evolves_preorder : PreOrder i_evolves.
Proof.
  split; [intros d; by split|]. intros a b c [A1 A2] [B1 B2]. split; [auto|]. by etransitivity.
Qed.

Lemma job_at_spec d id r : job_at d id = Some r <-> q_jobs (i_queue d) !! id = Some r.1 /\ i_columns d !! id = Some r.2.
Proof.
  unfold job_at. destruct r as [j c]. simpl. destruct (q_jobs _ !! id) as [j'|]; cbn [mbind option_bind]; [|naive_solver].
  destruct (i_columns d !! id) as [c'|]; cbn [mbind option_bind]; naive_solver.
Qed.

Lemma find_where_spec P d :
  match find_where P d with
  | Some (id, r) => job_at d id = Some r /\ P r = true
  | None => forall id r, job_at d id = Some r -> P r = false
  end.
Proof.
  unfold find_where. set (l := filter _ _).
  assert (forall id r, (id, r) ∈ l <-> job_at d id = Some r /\ P r = true) as Hl.
  { intros id r. unfold l. rewrite list_elem_of_filter, elem_of_map_to_list, map_lookup_zip_Some, job_at_spec. simpl. tauto. }
  destruct l as [|[id r] l'] eqn:E; simpl.
  - intros id r Hj. destruct (P r) eqn:HP; [|done]. assert ((id, r) ∈ @nil (string * (job_row * key_columns))) as H by (by apply Hl).
    by apply elem_of_nil in H.
  - apply Hl. left.
Qed.

Lemma find_where_none P d : find_where P d = None <-> (forall id r, job_at d id = Some r -> P r = false).
Proof.
  pose proof (find_where_spec P d) as H. destruct (find_where P d) as [[id r]|]; [|tauto].
  split; [done|]. intros Hn. destruct H as [H1 H2]. rewrite (Hn _ _ H1) in H2. done.
Qed.

(** A new row under a fresh id, with its alias. *)
Definition added (id : string) (row : Z -> job_row) (c : key_columns) (d : itables) : itables :=
  ITables (set_jobs (<[id := row (i_sequence d)]> (q_jobs (i_queue d))) (i_queue d))
    (<[id := c]> (i_columns d)) (<[k_idempotency c := id]> (i_aliases d)) (i_receipts d) (i_sequence d + 1).

Record fresh (id : string) (c : key_columns) (d : itables) : Prop := {
  fr_id : q_jobs (i_queue d) !! id = None;
  fr_alias : i_aliases d !! k_idempotency c = None;
  fr_idempotency : forall a r, job_at d a = Some r -> k_idempotency r.2 <> k_idempotency c;
  fr_occurrence : forall a r o, job_at d a = Some r -> k_occurrence c = Some o -> k_occurrence r.2 <> Some o;
  fr_coalesce : forall a r k, job_at d a = Some r -> k_coalesce c = Some k -> k_coalesce r.2 = Some k -> active (j_state r.1) = false;
}.

Lemma insert_job_fresh id row c lk now d u t :
  i_aliases d !! k_idempotency c = None -> insert_job id row c lk now d = (Ok u, t) -> 
  fresh id c d /\ set_aliases (<[k_idempotency c := id]> (i_aliases t)) t = added id row c d /\ i_aliases t = i_aliases d /\
  q_jobs (i_queue t) !! id = Some (row (i_sequence d)).
Proof.
  unfold insert_job. intros Ha. destruct (_ || _) eqn:E; [done|]. intros [= _ <-].
  apply orb_false_iff in E as [E E4]. apply orb_false_iff in E as [E E3]. apply orb_false_iff in E as [E1 E2]. split; [|split; [done|]].
  - bool_to_prop. split; [by apply eq_None_not_Some|done| | |].
    + intros a r Hr Hk. apply E2. apply not_eq_None_Some. intros Hn. rewrite find_where_none in Hn. specialize (Hn _ _ Hr).
      by bool_to_prop.
    + intros a r o Hr Ho Hk. rewrite Ho in E3. destruct E3 as [E3|E3]; [done|]. bool_to_prop. apply E3. apply not_eq_None_Some. intros Hn.
      rewrite find_where_none in Hn. specialize (Hn _ _ Hr). by bool_to_prop.
    + intros a r k Hr Hc Hk. rewrite Hc in E4. destruct E4 as [E4|E4]; [done|]. bool_to_prop. apply not_true_iff_false. intros Hact. apply E4.
      apply not_eq_None_Some. intros Hn. rewrite find_where_none in Hn. specialize (Hn _ _ Hr). cbv beta in Hn.
      rewrite Hk, Hact in Hn. by bool_to_prop; destruct Hn; bool_to_prop.
  - split; [done|]. simpl. apply lookup_insert_eq.
Qed.

Section Specs.
Context `{Postgres} (sha256hex : string -> string) (float_text : string -> option string).
Notation semantics_differ := (semantics_differ float_text).

Lemma scanJob_id id j job : scanJob float_text id j = Ok job -> jb_ID job = id.
Proof. unfold scanJob. repeat case_match; try done; by intros [= <-]. Qed.

(** Errors that are not refusals: the driver's, a failed scan, a missing row. *)
Definition plain (e : jobs_error) : Prop :=
  e <> ErrIdempotencyConflict /\ e <> ErrQueueFull /\ e <> ErrWorkerUnavailable.

Lemma driver_plain e : plain (ErrDriver e).
Proof. by split_and!. Qed.
Lemma text_plain s : plain (ErrText s).
Proof. by split_and!. Qed.

Definition shows (job : Job) (d : itables) : Prop :=
  exists j, q_jobs (i_queue d) !! jb_ID job = Some j /\ scanJob float_text (jb_ID job) j = Ok job.

Lemma twp_loadJob {B} id (k : Job -> IM B) Q db t :
  (forall e t', plain e -> Q (Err e) db (Some t')) ->
  (forall job, jb_ID job = id -> shows job t -> twp (k job) Q db t) ->
  twp (loadJob float_text id ≫= k) Q db t.
Proof.
  intros He Hk. apply twp_bind. unfold loadJob. apply twp_exec; [|intros; apply He, driver_plain].
  intros lk ck. unfold read. destruct (q_jobs (i_queue t) !! id) as [j|] eqn:Hj; [|apply twp_raise, He; by split_and!].
  apply twp_lift. destruct (scanJob float_text id j) as [job|e] eqn:Hs.
  - exists t. split; [done|]. pose proof (scanJob_id _ _ _ Hs) as Hid. apply Hk; [done|]. exists j. by rewrite Hid.
  - apply He. unfold scanJob in Hs. destruct (j_result j) as [raw|]; [|done]. destruct (go_any float_text raw) as [[]|]; try done;
      injection Hs as <-; apply text_plain.
Qed.

Section Request.
Context (kind : string) (payload : list (string * json)) (key : string) (coalesceKey : option string) (meta : option OccurrenceMetadata).

(** A row that stands in the way of the request, or answers it. *)
Definition claims (d : itables) (id : string) (r : job_row * key_columns) : Prop :=
  job_at d id = Some r /\
  (i_aliases d !! key = Some id \/ k_idempotency r.2 = key \/
   (exists m, meta = Some m /\ k_occurrence r.2 = Some (om_OccurrenceID m)) \/
   (is_Some coalesceKey /\ k_coalesce r.2 = coalesceKey /\ active (j_state r.1) = true)).

(** An earlier job answers the request, which gets its alias. *)
Definition joined (id : string) (d d' : itables) : Prop :=
  (exists r, claims d id r /\ semantics_differ r kind payload meta = false) /\
  (d' = d \/ (i_aliases d !! key = None /\ d' = set_aliases (<[key := id]> (i_aliases d)) d)).

Definition created_job (now : Z) (id : string) (d d' : itables) : Prop :=
  let c := new_columns key coalesceKey meta in
  fresh id c d /\ pending_jobs d < MaxPendingJobs /\ (exists bytes, id = uuid_text bytes) /\
  d' = added id (new_row kind payload meta now) c d.

Definition enqueued (now : Z) (r : SubmitResult) (d d' : itables) : Prop :=
  shows (sr_Job r) d' /\
  if sr_Created r then created_job now (jb_ID (sr_Job r)) d d' else joined (jb_ID (sr_Job r)) d d'.

Definition refused (e : jobs_error) (d : itables) : Prop :=
  match e with
  | ErrIdempotencyConflict => exists id r, claims d id r /\ semantics_differ r kind payload meta = true
  | ErrQueueFull => MaxPendingJobs <= pending_jobs d \/ exists id, MaxIdempotencyAliasesPerJob <= alias_count id d
  | ErrWorkerUnavailable => False
  | _ => True
  end.

Definition enqueue_post (now : Z) (db t : itables) (r : result jobs_error SubmitResult) (db' : itables) (tx' : option itables) : Prop :=
  db' = db /\ exists t', tx' = Some t' /\ match r with Ok res => enqueued now res t t' | Err e => refused e t end.

Lemma plain_refused e d : plain e -> refused e d.
Proof. intros (H1 & H2 & H3). by destruct e. Qed.
Hint Resolve plain_refused driver_plain text_plain : core.

Ltac fault := intros; (split; [done|]); eexists; (split; [done|]); by auto.

Lemma loaded_spec now db t t' id (created : bool) :
  (forall job, jb_ID job = id -> shows job t' -> enqueued now (MkSubmitResult job created) t t') ->
  twp (j ← loadJob float_text id; mret (MkSubmitResult j created)) (enqueue_post now db t) db t'.
Proof.
  intros He. apply twp_loadJob; [intros e u Hp; split; [done|]; eexists; split; [done|]; by auto|].
  intros job Hid Hs. apply twp_ret. split; [done|]. exists t'. split; [done|]. by apply He.
Qed.

Lemma existingJob_spec now db t id r :
  claims t id r -> twp (existingJob float_text id kind payload key meta) (enqueue_post now db t) db t.
Proof.
  intros Hc. unfold existingJob. apply twp_exec; [|fault]. intros lk ck. unfold read. cbn [fst snd].
  pose proof Hc as [Hr _]. rewrite Hr. destruct (semantics_differ r kind payload meta) eqn:Hd; cbn [guard_m].
  - apply twp_bind. apply twp_raise. split; [done|]. exists t. split; [done|]. by exists id, r.
  - apply twp_bind, twp_ret. exists t. split; [done|]. apply twp_exec; [|fault]. intros lk' ck'. cbv beta iota.
    assert (forall u, u = t \/ (i_aliases t !! key = None /\ u = set_aliases (<[key := id]> (i_aliases t)) t) ->
      twp (j ← loadJob float_text id; mret (MkSubmitResult j false)) (enqueue_post now db t) db u) as Hload.
    { intros u Hu. apply loaded_spec. intros job Hid Hs. split; [done|]. cbn [sr_Created sr_Job]. rewrite Hid.
      split; [by exists r|]. exact Hu. }
    destruct (i_aliases t !! key) as [a|] eqn:Ha.
    + rewrite bool_decide_eq_true_2 by done. apply twp_bind, twp_ret. exists t. split; [done|]. apply Hload. by left.
    + rewrite bool_decide_eq_false_2 by (by intros []). apply twp_exec; [|fault]. intros lk'' ck''.
      unfold insert_alias_if_absent. rewrite Ha, bool_decide_eq_false_2 by (by intros []). apply Hload. by right.
Qed.

Lemma coalesced_spec now db t id r :
  claims t id r ->
  twp (coalesced float_text kind payload key meta id r) (enqueue_post now db t) db t.
Proof.
  intros Hc. unfold coalesced. destruct (semantics_differ r kind payload meta) eqn:Hd; cbn [guard_m].
  - apply twp_bind, twp_raise. split; [done|]. exists t. split; [done|]. by exists id, r.
  - apply twp_bind, twp_ret. exists t. split; [done|]. apply twp_exec; [|fault]. intros lk ck. unfold read. cbn [fst snd].
    destruct (MaxIdempotencyAliasesPerJob <=? alias_count id t) eqn:Hn; cbn [guard_m].
    + bool_to_prop. apply twp_bind, twp_raise. split; [done|]. exists t. split; [done|]. right. by exists id.
    + apply twp_bind, twp_ret. exists t. split; [done|]. apply twp_exec; [|fault]. intros lk' ck'. unfold insert_alias.
      case_bool_decide as Ha; [split; [done|]; exists t; by auto|]. apply loaded_spec. intros job Hid Hs. split; [done|].
      cbn [sr_Created sr_Job]. rewrite Hid. split; [by exists r|]. right. split; [by apply eq_None_not_Some|done].
Qed.

Lemma new_job_spec now db t :
  twp (new_job float_text now kind payload key coalesceKey meta) (enqueue_post now db t) db t.
Proof.
  unfold new_job. apply twp_exec; [|fault]. intros lk ck. unfold read. cbn [fst snd].
  destruct (MaxPendingJobs <=? pending_jobs t) eqn:Hn; cbn [guard_m]; bool_to_prop.
  - apply twp_bind, twp_raise. split; [done|]. exists t. split; [done|]. by left.
  - apply twp_bind, twp_ret. exists t. split; [done|]. apply twp_rand; [|split; [done|]; exists t; by auto].
    intros bs. cbv zeta. apply twp_exec; [|fault]. intros lk' ck'.
    destruct (insert_job _ _ _ lk' ck' t) as [[u|e] t'] eqn:Hi; [|split; [done|]; exists t'; by auto].
    apply twp_exec; [|fault]. intros lk'' ck''. unfold insert_alias. case_bool_decide as Ha; [split; [done|]; exists t'; by auto|].
    assert (i_aliases t !! key = None) as Hk.
    { apply eq_None_not_Some. intros Hs. apply Ha. unfold insert_job in Hi. destruct (_ || _); [done|]. by injection Hi as _ <-. }
    destruct (insert_job_fresh _ _ (new_columns key coalesceKey meta) _ _ _ _ _ Hk Hi) as (Hf & Hadd & _ & _).
    cbn [k_idempotency new_columns] in Hadd. rewrite Hadd. apply loaded_spec. intros job Hid Hs. split; [done|].
    cbn [sr_Created sr_Job]. rewrite Hid. split; [done|]. split; [done|]. split; [by exists bs|done].
Qed.

Lemma find_claims P t : (forall id r, job_at t id = Some r -> P r = true -> claims t id r) ->
  match find_where P t with Some (id, r) => claims t id r | None => True end.
Proof. intros HP. pose proof (find_where_spec P t). destruct (find_where P t) as [[id r]|]; [|done]. naive_solver. Qed.

Lemma lookup_spec now db t (f : itables -> option (string * (job_row * key_columns))) (k : _ -> IM SubmitResult) :
  match f t with Some (id, r) => claims t id r | None => True end ->
  (f t = None -> twp (k None) (enqueue_post now db t) db t) ->
  (forall id r, claims t id r -> twp (k (Some (id, r))) (enqueue_post now db t) db t) ->
  twp (exec ErrDriver (read (fun _ d => f d)) ≫= k) (enqueue_post now db t) db t.
Proof.
  intros Hf Hn Hs. apply twp_exec; [|fault]. intros lk ck. unfold read. cbn [fst snd].
  destruct (f t) as [[id r]|]; [by apply Hs|by apply Hn].
Qed.

Lemma enqueue_spec now db t (coalesce : bool) :
  coalesceKey = (if coalesce then Some (coalesce_hash sha256hex kind payload) else None) ->
  twp (enqueue sha256hex float_text now kind payload key coalesce meta) (enqueue_post now db t) db t.
Proof.
  intros Hck. unfold enqueue. rewrite <- Hck.
  apply lookup_spec.
  { unfold find_alias. destruct (i_aliases t !! key) as [a|] eqn:Ha; [|done]. cbn [mbind option_bind].
    destruct (job_at t a) as [r|] eqn:Hr; [|done]. cbn. split; [done|]. by left. }
  2:{ intros id r Hc. apply twp_bind, twp_ret. exists t. split; [done|]. by eapply existingJob_spec. }
  intros _. apply lookup_spec.
  { apply find_claims. intros id r Hr Hk. bool_to_prop. split; [done|]. by right; left. }
  2:{ intros id r Hc. by eapply existingJob_spec. }
  intros _.
  assert (twp (same ← (if coalesce then exec ErrDriver (read (fun _ d =>
                    find_where (fun r => bool_decide (k_coalesce r.2 = coalesceKey) && active (j_state r.1)) d))
                  else mret None);
          match same with
          | Some (id, r) => coalesced float_text kind payload key meta id r
          | None => new_job float_text now kind payload key coalesceKey meta
          end) (enqueue_post now db t) db t) as Hrest.
  { destruct coalesce.
    - apply lookup_spec; [|intros _; apply new_job_spec|intros id r Hc; by apply coalesced_spec].
      apply find_claims. intros id r Hr Hk. bool_to_prop. split; [done|]. right; right; right. by rewrite Hck in *.
    - apply twp_bind, twp_ret. exists t. split; [done|]. apply new_job_spec. }
  match goal with |- twp (match meta with Some _ => _ | None => _ end ≫= ?k) _ _ _ =>
    enough (forall o, meta = o -> twp ((match o with
      | Some m => exec ErrDriver (read (fun _ d => find_where (fun r => bool_decide (k_occurrence r.2 = Some (om_OccurrenceID m))) d))
      | None => mret None
      end) ≫= k) (enqueue_post now db t) db t) as Ho by (by apply Ho) end.
  intros [m|] Hm; [|by apply twp_bind, twp_ret; exists t].
  apply lookup_spec; [|intros _; exact Hrest|intros id r Hc; by eapply existingJob_spec].
  apply find_claims. intros id r Hr Hk. bool_to_prop. split; [done|]. right; right; left. by exists m.
Qed.
End Request.

(** ** What the transactions leave *)

Section Outcomes.
Context (kind : string) (payload : list (string * json)) (key : string).
Notation coalesceKey := (Some (coalesce_hash sha256hex kind payload)).

(** [Submit]: a success is what [enqueue] did, a refusal leaves everything, and a
    failed commit may have done either. *)
Definition submit_outcome (r : result jobs_error SubmitResult) (d d' : itables) : Prop :=
  match r with
  | Ok res => exists now, enqueued kind payload key coalesceKey None now res d d'
  | Err e => (d' = d /\ refused kind payload key coalesceKey None e d) \/
             (e = ErrDriver DbFault /\ exists now res, enqueued kind payload key coalesceKey None now res d d')
  end.

Lemma submit_spec d :
  twp (submit_body sha256hex float_text kind payload key) (fun r db' _ => submit_outcome r d db') d d.
Proof.
  unfold submit_body. apply twp_tx_clock. intros now. apply twp_bind. unfold producerLock.
  apply twp_ret_id, twp_exec; [|intros t; by left]. intros lk ck. unfold read. apply twp_ret. exists d. split; [done|].
  apply twp_bind. eapply twp_mono; [by apply enqueue_spec|]. intros [res|e] db' tx' (-> & t' & -> & He); [|left; done].
  exists t'. split; [done|]. apply twp_commit; [by exists now|right; split; [done|]; by exists now, res|by left].
Qed.

Lemma Submit_outcome w : w_tx w = None ->
  submit_outcome (repository_Submit sha256hex float_text kind payload key w).1 (found w)
    (w_db (repository_Submit sha256hex float_text kind payload key w).2).
Proof.
  intros Ht. unfold repository_Submit.
  apply (with_tx_spec _ _ (fun r db' => submit_outcome r (found w) db')); [done|by left|apply submit_spec].
Qed.
End Outcomes.

Section Acceptance.
Context (workerMode : bool) (dispatchMode operation : string) (call : occurrence_call).
Notation occurrence := (om_OccurrenceID (call_metadata call)).

(** The worker answers and the intake is open. *)
Definition receiving (now : Z) (d : itables) : Prop :=
  workerMode = true /\ dispatchMode = "service" /\
  (exists s, q_status (i_queue d) = Some s /\ healthy_column now s = Some true) /\
  Z.of_nat (size (i_receipts d)) < call_limit call.

(** What an accepted occurrence leaves: its receipt, found or made. *)
Definition accepted (now : Z) (acc : AcceptedOccurrence) (d d' : itables) : Prop :=
  (exists job, i_receipts d !! occurrence = Some (call_hash call, job) /\
     acc = MkAcceptedOccurrence occurrence job false /\ d' = d) \/
  (i_receipts d !! occurrence = None /\ receiving now d /\ exists res t,
     enqueued operation (call_payload call) (occurrence_key sha256hex occurrence) None (Some (call_metadata call)) now res d t /\
     acc = MkAcceptedOccurrence occurrence (jb_ID (sr_Job res)) (sr_Created res) /\
     d' = set_receipts (<[occurrence := (call_hash call, jb_ID (sr_Job res))]> (i_receipts d)) t).

Definition turned_away (e : jobs_error) (d : itables) : Prop :=
  match i_receipts d !! occurrence with
  | Some (hash, _) => e = ErrIdempotencyConflict -> hash <> call_hash call
  | None =>
      match e with
      | ErrWorkerUnavailable => exists now, workerMode = false \/ dispatchMode <> "service" \/ q_status (i_queue d) = None \/
          exists s, q_status (i_queue d) = Some s /\ healthy_column now s = Some false
      | ErrQueueFull => call_limit call <= Z.of_nat (size (i_receipts d)) \/ MaxPendingJobs <= pending_jobs d \/
          exists id, MaxIdempotencyAliasesPerJob <= alias_count id d
      | _ => refused operation (call_payload call) (occurrence_key sha256hex occurrence) None (Some (call_metadata call)) e d
      end
  end.

Definition accept_outcome (r : result jobs_error AcceptedOccurrence) (d d' : itables) : Prop :=
  match r with
  | Ok acc => exists now, accepted now acc d d'
  | Err e => (d' = d /\ turned_away e d) \/ (e = ErrDriver DbFault /\ exists now acc, accepted now acc d d')
  end.

Lemma plain_turned_away e d : plain e -> turned_away e d.
Proof.
  intros (H1 & H2 & H3). unfold turned_away. destruct (i_receipts d !! occurrence) as [[h j]|]; [done|]. by destruct e.
Qed.

Lemma enqueued_receipts now res d t :
  enqueued operation (call_payload call) (occurrence_key sha256hex occurrence) None (Some (call_metadata call)) now res d t ->
  i_receipts t = i_receipts d.
Proof. intros [_ He]. destruct (sr_Created res); [by destruct He as (_ & _ & _ & ->)|by destruct He as (_ & [->|(_ & ->)])]. Qed.

(** The gates in front of the queue. *)
Lemma gates_spec {B} now (k : unit -> IM B) (Q : result jobs_error B -> itables -> option itables -> Prop) d t :
  i_receipts t !! occurrence = None ->
  (forall e t', turned_away e t -> Q (Err e) d (Some t')) ->
  (receiving now t -> twp (k tt) Q d t) ->
  twp (_ ← guard_m (negb workerMode || negb (dispatchMode =? "service")%string) ErrWorkerUnavailable;
       _ ← check_worker now;
       count ← exec ErrDriver (read (fun _ d => Z.of_nat (size (i_receipts d))));
       _ ← guard_m (call_limit call <=? count) ErrQueueFull; k tt) Q d t.
Proof.
  intros Hr He Hk. assert (forall e t', plain e -> Q (Err e) d (Some t')) as Hp by (intros; by apply He, plain_turned_away).
  destruct workerMode eqn:Hw, (String.eqb_spec dispatchMode "service") as [Hd|Hd]; cbn [negb orb guard_m];
    try (apply twp_bind, twp_raise, He; unfold turned_away; rewrite Hr; exists 0; tauto).
  apply twp_bind, twp_ret. exists t. split; [done|]. apply twp_bind. unfold check_worker.
  apply twp_exec; [|intros; apply Hp, driver_plain]. intros lk ck. unfold read. cbn [fst snd].
  destruct (q_status (i_queue t)) as [s|] eqn:Hs; [|apply twp_raise, He; unfold turned_away; rewrite Hr; exists 0; tauto].
  destruct (healthy_column now s) as [[]|] eqn:Hh; cbn [negb guard_m].
  - apply twp_ret. exists t. split; [done|]. apply twp_exec; [|intros; apply Hp, driver_plain]. intros lk' ck'. cbv beta iota.
    destruct (call_limit call <=? _) eqn:Hc; cbn [guard_m]; bool_to_prop.
    + apply twp_bind, twp_raise, He. unfold turned_away. rewrite Hr. by left.
    + apply twp_bind, twp_ret. exists t. split; [done|]. apply Hk. split; [done|]. split; [done|]. split; [by exists s|done].
  - apply twp_raise, He. unfold turned_away. rewrite Hr. exists now. right; right; right. by exists s.
  - apply twp_raise, Hp, text_plain.
Qed.

Lemma receive_spec d :
  twp (accept_body sha256hex float_text workerMode dispatchMode operation call) (fun r db' _ => accept_outcome r d db') d d.
Proof.
  pose proof (fun e H => plain_turned_away e d H) as Hplain.
  assert (forall e, plain e -> accept_outcome (Err e) d d) as Hdb by (intros e He; left; auto).
  unfold accept_body. apply twp_tx_clock. intros now. apply twp_bind. unfold producerLock.
  apply twp_ret_id, twp_exec; [|intros t; by apply Hdb, driver_plain]. intros lk ck. unfold read. apply twp_ret. exists d. split; [done|].
  apply twp_exec; [|intros t; by apply Hdb, driver_plain]. intros lk1 ck1. cbv beta iota.
  destruct (i_receipts d !! occurrence) as [[hash job]|] eqn:Hr.
  - destruct (String.eqb_spec hash (call_hash call)) as [->|Hne]; cbn [negb guard_m].
    + apply twp_bind, twp_ret. exists d. split; [done|].
      apply twp_commit; [exists now; left; by exists job|right; split; [done|]; exists now; eexists; left; by exists job|].
      by apply Hdb, driver_plain.
    + apply twp_bind, twp_raise. left. split; [done|]. unfold turned_away. by rewrite Hr.
  - eapply (gates_spec now (fun _ => _)); [done|intros e t' He; by left|]. intros Hopen.
    apply twp_bind. eapply twp_mono; [by apply enqueue_spec|]. intros [res|e] db' tx' (-> & t & -> & He).
    2:{ left. split; [done|]. unfold turned_away. rewrite Hr. destruct e; try done. destruct He as [He|He]; auto. }
    exists t. split; [done|]. apply twp_exec; [|intros t'; by apply Hdb, driver_plain]. intros lk2 ck2. unfold insert_receipt.
    pose proof (enqueued_receipts _ _ _ _ He) as Hrt. rewrite Hrt, Hr, bool_decide_eq_false_2 by (by intros []).
    assert (accepted now (MkAcceptedOccurrence occurrence (jb_ID (sr_Job res)) (sr_Created res)) d
      (set_receipts (<[occurrence := (call_hash call, jb_ID (sr_Job res))]> (i_receipts d)) t)) as Hacc.
    { right. split; [done|]. split; [done|]. by exists res, t. }
    apply twp_commit; [by exists now|right; split; [done|]; exists now; by eexists|by apply Hdb, driver_plain].
Qed.

Lemma Accept_outcome w : w_tx w = None ->
  accept_outcome (repository_AcceptOccurrence sha256hex float_text workerMode dispatchMode operation call w).1 (found w)
    (w_db (repository_AcceptOccurrence sha256hex float_text workerMode dispatchMode operation call w).2).
Proof.
  intros Ht. unfold repository_AcceptOccurrence.
  apply (with_tx_spec _ _ (fun r db' => accept_outcome r (found w) db')); [done| |apply receive_spec].
  left. split; [done|]. apply plain_turned_away, driver_plain.
Qed.
End Acceptance.

(** ** The invariant is kept *)

Lemma job_at_added id row c R d a r : job_at (set_receipts R (added id row c d)) a = Some r <->
  (a = id /\ r = (row (i_sequence d), c)) \/ (a <> id /\ job_at d a = Some r).
Proof.
  rewrite !job_at_spec. destruct r as [j c']. simpl. destruct (decide (a = id)) as [->|Hne].
  - rewrite !lookup_insert_eq. naive_solver.
  - rewrite !lookup_insert_ne by done. naive_solver.
Qed.

Lemma added_wf id row c R d :
  i_wf d -> fresh id c d -> i_receipts d ⊆ R ->
  (forall o, k_occurrence c = Some o -> exists h, R !! o = Some (h, id)) ->
  i_wf (set_receipts R (added id row c d)).
Proof.
  intros [W1 W2 W3 W4 W5] [F1 F2 F3 F4 F5] HR Ho.
  split; cbn [i_columns i_queue i_aliases i_receipts set_receipts added q_jobs set_jobs].
  - intros a. destruct (decide (a = id)) as [->|Hne]; [rewrite !lookup_insert_eq; by split; eexists|].
    rewrite !lookup_insert_ne by done. apply W1.
  - intros k a. destruct (decide (k = k_idempotency c)) as [->|Hne].
    + rewrite lookup_insert_eq. intros [= <-]. rewrite lookup_insert_eq. by eexists.
    + rewrite lookup_insert_ne by done. intros Ha. destruct (decide (a = id)) as [->|]; [rewrite lookup_insert_eq; by eexists|].
      rewrite lookup_insert_ne by done. by eapply W2.
  - intros a b ra rb [[-> ->]|[Ha Hra]]%job_at_added [[-> ->]|[Hb Hrb]]%job_at_added Hk; simpl in *.
    + done.
    + by destruct (F3 _ _ Hrb).
    + by destruct (F3 _ _ Hra).
    + by eapply W3.
  - intros a b ra rb k [[-> ->]|[Ha Hra]]%job_at_added [[-> ->]|[Hb Hrb]]%job_at_added Hk1 Hk2 Hs1 Hs2; simpl in *.
    + done.
    + rewrite (F5 _ _ _ Hrb Hk1 Hk2) in Hs2. done.
    + rewrite (F5 _ _ _ Hra Hk2 Hk1) in Hs1. done.
    + by eapply W4.
  - intros a r o [[-> ->]|[Ha Hr]]%job_at_added Hro; simpl in *; [by apply Ho|].
    destruct (W5 _ _ _ Hr Hro) as [h Hh]. exists h. by eapply lookup_weaken.
Qed.

Lemma alias_wf key id r d : i_wf d -> job_at d id = Some r -> i_wf (set_aliases (<[key := id]> (i_aliases d)) d).
Proof.
  intros [W1 W2 W3 W4 W5] Hr%job_at_spec. split; try done. simpl. intros k a.
  destruct (decide (k = key)) as [->|]; [rewrite lookup_insert_eq; intros [= <-]; by eexists; apply Hr|].
  rewrite lookup_insert_ne by done. apply W2.
Qed.

Lemma added_evolves id row c d : fresh id c d -> k_occurrence c = None -> i_evolves d (added id row c d).
Proof.
  intros Hf Hc. split; [|done]. intros Hw. apply (added_wf _ row c (i_receipts d) _ Hw Hf); [done|]. by rewrite Hc.
Qed.

Lemma joined_evolves kind payload key coalesceKey meta id d d' :
  joined kind payload key coalesceKey meta id d d' -> i_evolves d d'.
Proof.
  intros [(r & [Hr _] & _) [->|(_ & ->)]]; [done|]. split; [|done]. intros Hw. by eapply alias_wf.
Qed.

Lemma submit_outcome_evolves kind payload key r d d' : submit_outcome kind payload key r d d' -> i_evolves d d'.
Proof.
  assert (forall now res, enqueued kind payload key (Some (coalesce_hash sha256hex kind payload)) None now res d d' -> i_evolves d d') as H0.
  { intros now res [_ He]. destruct (sr_Created res); [|by eapply joined_evolves]. destruct He as (Hf & _ & _ & ->).
    by apply added_evolves. }
  destruct r as [res|e]; [intros [now He]; by eapply H0|]. intros [[-> _]|(_ & now & res & He)]; [done|by eapply H0].
Qed.

Section AcceptedEvolves.
Context (workerMode : bool) (dispatchMode operation : string) (call : occurrence_call).
Notation occurrence := (om_OccurrenceID (call_metadata call)).
Notation accepted := (accepted workerMode dispatchMode operation call).

(** Where the invariant holds an occurrence without a receipt has no job yet, so
    it gets a new one. *)
Definition first_accepted (now : Z) (id : string) (d d' : itables) : Prop :=
  i_receipts d !! occurrence = None /\ receiving workerMode dispatchMode call now d /\
  exists t, created_job operation (call_payload call) (occurrence_key sha256hex occurrence) None (Some (call_metadata call)) now id d t /\
    d' = set_receipts (<[occurrence := (call_hash call, id)]> (i_receipts d)) t.

Lemma accepted_cases now acc d d' : i_wf d -> accepted now acc d d' ->
  (exists job, i_receipts d !! occurrence = Some (call_hash call, job) /\ acc = MkAcceptedOccurrence occurrence job false /\ d' = d) \/
  (exists id, first_accepted now id d d' /\ acc = MkAcceptedOccurrence occurrence id true).
Proof.
  intros Hw [Hp|(Hr & Hopen & res & t & [_ He] & -> & ->)]; [by left|right]. exists (jb_ID (sr_Job res)).
  destruct (sr_Created res); [split; [|done]; split; [done|]; split; [done|]; by exists t|].
  destruct He as [(r & [Hj _] & Hs) _]. unfold semantics_differ in Hs.
  apply orb_false_iff in Hs as [_ Hs]. apply negb_false_iff in Hs. cbn [sameMetadata] in Hs.
  apply andb_true_iff in Hs as [Hs _]. apply andb_true_iff in Hs as [_ Hs]. apply bool_decide_eq_true_1 in Hs.
  destruct (iw_receipt _ Hw _ _ _ Hj Hs) as [h Hh]. congruence.
Qed.

Lemma first_accepted_receipt now id d d' : first_accepted now id d d' ->
  i_receipts d' = <[occurrence := (call_hash call, id)]> (i_receipts d).
Proof. by intros (_ & _ & t & _ & ->). Qed.

Lemma accepted_evolves now acc d d' : accepted now acc d d' -> i_evolves d d'.
Proof.
  intros Ha. split.
  - intros Hw. destruct (accepted_cases _ _ _ _ Hw Ha) as [(job & _ & _ & ->)|(id & (Hr & _ & t & (Hf & _ & _ & ->) & ->) & _)]; [done|].
    change (i_wf (set_receipts (<[occurrence := (call_hash call, id)]> (i_receipts d))
      (added id (new_row operation (call_payload call) (Some (call_metadata call)) now)
         (new_columns (occurrence_key sha256hex occurrence) None (Some (call_metadata call))) d))).
    apply added_wf; [done|done|by apply insert_subseteq|]. cbn. intros o [= <-]. exists (call_hash call). by rewrite lookup_insert_eq.
  - destruct Ha as [(job & _ & _ & ->)|(Hr & _ & res & t & _ & _ & ->)]; [done|]. by apply insert_subseteq.
Qed.

Lemma accept_outcome_evolves r d d' : accept_outcome workerMode dispatchMode operation call r d d' -> i_evolves d d'.
Proof.
  destruct r as [acc|e]; [intros [now Ha]; by eapply accepted_evolves|].
  intros [[-> _]|(_ & now & acc & Ha)]; [done|by eapply accepted_evolves].
Qed.
End AcceptedEvolves.
End Specs.

(** ** Requests and histories *)

Section Service.
Context `{Postgres} (sha256hex : string -> string) (float_text : string -> option string).
Context (int_of_2_63 : Z) (shortest : SpecFloat.spec_float -> string).
Notation prepare := (prepare_occurrence int_of_2_63 shortest sha256hex).
Notation Accept := (AcceptOccurrence sha256hex float_text int_of_2_63 shortest).
Notation SubmitJob := (Submit sha256hex float_text int_of_2_63).

Lemma Submit_evolves kind payload key : keeps i_evolves (SubmitJob kind payload key).
Proof.
  unfold Submit. destruct (prepare_submit _ _ _ _ _) as [[out stored]|text]; [|apply keeps_raise].
  apply keeps_with_tx_twp; [apply _|]. intros d. eapply twp_mono; [apply submit_spec|].
  intros r db' tx' Ho. eapply submit_outcome_evolves, Ho.
Qed.

Lemma Accept_evolves c : keeps i_evolves (Accept c).
Proof.
  unfold AcceptOccurrence. destruct (prepare c) as [call|text]; [|apply keeps_raise].
  apply keeps_with_tx_twp; [apply _|]. intros d. eapply twp_mono; [apply receive_spec|].
  intros r db' tx' Ho. eapply accept_outcome_evolves, Ho.
Qed.

(** What accepting an occurrence does, on every branch.  An envelope that does
    not validate changes nothing.  Otherwise, in tables that satisfy the invariant:
    a success is either the answer of the occurrence's receipt, which must carry the
    hash of this very envelope, with nothing changed; or, for an occurrence without
    a receipt, while the worker is healthy, the intake is open and fewer than 32
    jobs wait, exactly one new queued job with the occurrence's payload and metadata,
    its alias, and the receipt that names it.  A refusal changes nothing and has one
    of the stated causes; only a failed commit leaves open which of the two
    happened. *)
Theorem AcceptOccurrence_exact c w :
  w_tx w = None -> i_wf (found w) ->
  (exists text, prepare c = Err text /\ Accept c w = (Err (ErrText text), w)) \/
  exists call, prepare c = Ok call /\
    let occurrence := om_OccurrenceID (call_metadata call) in
    let first := first_accepted sha256hex (oc_WorkerMode c) (oc_DispatchMode c) (oc_Operation c) call in
    let d := found w in let d' := w_db (Accept c w).2 in
    match (Accept c w).1 with
    | Ok acc =>
        (exists job, i_receipts d !! occurrence = Some (call_hash call, job) /\
           acc = MkAcceptedOccurrence occurrence job false /\ d' = d) \/
        (exists now id, first now id d d' /\ acc = MkAcceptedOccurrence occurrence id true)
    | Err e =>
        (d' = d /\ turned_away sha256hex float_text (oc_WorkerMode c) (oc_DispatchMode c) (oc_Operation c) call e d) \/
        (e = ErrDriver DbFault /\ exists now id, first now id d d')
    end.
Proof.
  intros Ht Hw. unfold AcceptOccurrence. destruct (prepare c) as [call|text]; [right|left; by exists text].
  exists call. split; [done|]. cbv zeta.
  pose proof (Accept_outcome sha256hex float_text (oc_WorkerMode c) (oc_DispatchMode c) (oc_Operation c) call w Ht) as Ho.
  destruct (_ w).1 as [acc|e].
  - destruct Ho as [now Ho]. destruct (accepted_cases _ _ _ _ _ _ _ _ _ _ Hw Ho) as [?|[id ?]]; [by left|right; by exists now, id].
  - destruct Ho as [Ho|[He (now & acc & Ho)]]; [by left|]. subst e.
    destruct (accepted_cases _ _ _ _ _ _ _ _ _ _ Hw Ho) as [(job & Hj & _ & ->)|[id [? _]]]; [|right; split; [done|]; by exists now, id].
    left. split; [done|]. apply plain_turned_away, driver_plain.
Qed.

(** The intake's requests; other sessions act through the events of the script. *)
Inductive irequest :=
| ISubmit (kind : string) (payload : option (list (string * value))) (key : string)
| IAccept (c : OccurrenceCommand).

(** The occurrences that were answered, in order. *)
Definition istep (r : irequest) : IM (list (OccurrenceCommand * AcceptedOccurrence)) :=
  match r with
  | ISubmit kind payload key => _ ← try (SubmitJob kind payload key); mret []
  | IAccept c => r ← try (Accept c); match r with Ok acc => mret [(c, acc)] | Err _ => mret [] end
  end.

Fixpoint irun (rs : list irequest) : IM (list (OccurrenceCommand * AcceptedOccurrence)) :=
  match rs with
  | [] => mret []
  | r :: rs' => l ← istep r; l' ← irun rs'; mret (l ++ l')
  end.

Definition envelope_hash (c : OccurrenceCommand) : option string :=
  match prepare c with Ok call => Some (call_hash call) | Err _ => None end.

(** An answer agrees with a receipt. *)
Definition answers (R : gmap string (string * string)) (a : OccurrenceCommand * AcceptedOccurrence) : Prop :=
  exists hash, R !! ao_OccurrenceID a.2 = Some (hash, ao_JobID a.2) /\ envelope_hash a.1 = Some hash /\
    ao_OccurrenceID a.2 = oc_OccurrenceID a.1.

Lemma prepare_occurrence_id c call : prepare c = Ok call -> om_OccurrenceID (call_metadata call) = oc_OccurrenceID c.
Proof.
  unfold prepare_occurrence. intros H'. repeat (apply result_bind_ok in H' as (? & _ & H')).
  destruct (canonical_occurrence _ _); [|done]. by injection H' as <-.
Qed.

Lemma Submit_closed kind payload key w : w_tx w = None -> w_tx (SubmitJob kind payload key w).2 = None.
Proof. intros Hw. unfold Submit. destruct (prepare_submit _ _ _ _ _) as [[out stored]|text]; [apply with_tx_closed|done]. Qed.
Lemma Accept_closed c w : w_tx w = None -> w_tx (Accept c w).2 = None.
Proof. intros Hw. unfold AcceptOccurrence. destruct (prepare c) as [call|text]; [apply with_tx_closed|done]. Qed.

Lemma found_evolves w : w_tx w = None -> rely i_evolves (w_env w) -> i_evolves (w_db w) (found w).
Proof.
  intros Ht Hr. unfold found. destruct (next_event w) as [ev w1] eqn:Hn.
  apply (rely_next i_evolves _ _ _ (w_db w)) in Hn as [[Hg _] _]; [done|]. split_and!; [done|by rewrite Ht|done].
Qed.

(** A session between two requests: no transaction is open and the invariant holds. *)
Record ready (w : world itables) : Prop := {
  rd_tx : w_tx w = None;
  rd_env : rely i_evolves (w_env w);
  rd_wf : i_wf (w_db w);
}.

Lemma keeps_ready {A} (m : IM A) w : keeps i_evolves m -> ready w -> w_tx (m w).2 = None ->
  ready (m w).2 /\ i_evolves (w_db w) (w_db (m w).2).
Proof.
  intros Hm [Ht He Hw] Ht'. destruct (Hm (w_db w) w) as (Hg & _ & He'); [split_and!; [done|by rewrite Ht|done]|].
  split; [|done]. split; [done|done|]. by apply Hg.
Qed.

Lemma receipt_answers c w acc : ready w -> (Accept c w).1 = Ok acc ->
  answers (i_receipts (w_db (Accept c w).2)) (c, acc) /\
  (ao_Created acc = true -> i_receipts (w_db w) !! ao_OccurrenceID acc = None).
Proof.
  intros [Ht He Hw]. destruct (found_evolves w Ht He) as [Hwf Hsub]. specialize (Hwf Hw).
  unfold AcceptOccurrence, answers, envelope_hash. simpl. destruct (prepare c) as [call|text] eqn:Hp; [|done].
  pose proof (prepare_occurrence_id _ _ Hp) as Hid.
  pose proof (Accept_outcome sha256hex float_text (oc_WorkerMode c) (oc_DispatchMode c) (oc_Operation c) call w Ht) as Ho.
  intros Hr. rewrite Hr in Ho. destruct Ho as [now Ho].
  destruct (accepted_cases _ _ _ _ _ _ _ _ _ _ Hwf Ho) as [(job & Hj & -> & ->)|(id & Hf & ->)]; simpl.
  - split; [by exists (call_hash call)|done].
  - split.
    + exists (call_hash call). rewrite (first_accepted_receipt _ _ _ _ _ _ _ _ _ Hf), lookup_insert_eq. done.
    + intros _. destruct Hf as [Hn _]. destruct (i_receipts (w_db w) !! _) as [x|] eqn:Hx; [|done].
      eapply lookup_weaken in Hx; [|exact Hsub]. congruence.
Qed.

Lemma istep_spec r w : ready w ->
  exists l, (istep r w).1 = Ok l /\ ready (istep r w).2 /\ i_evolves (w_db w) (w_db (istep r w).2) /\
    (l = [] \/ exists c acc, l = [(c, acc)] /\ answers (i_receipts (w_db (istep r w).2)) (c, acc) /\
       (ao_Created acc = true -> i_receipts (w_db w) !! ao_OccurrenceID acc = None)).
Proof.
  intros Hw. destruct r as [kind payload key|c]; unfold istep, mbind, M_bind, try.
  - pose proof (keeps_ready _ _ (Submit_evolves kind payload key) Hw (Submit_closed kind payload key w (rd_tx _ Hw))) as [H1 H2].
    destruct (SubmitJob kind payload key w) as [x w']. exists []. by auto.
  - pose proof (keeps_ready _ _ (Accept_evolves c) Hw (Accept_closed c w (rd_tx _ Hw))) as [H1 H2].
    pose proof (receipt_answers c w) as Ha. destruct (Accept c w) as [[acc|e] w']; simpl in *; [|exists []; by auto].
    exists [(c, acc)]. split_and!; [done..|]. right. exists c, acc. split; [done|]. by apply Ha.
Qed.

Lemma answers_weaken R R' a : R ⊆ R' -> answers R a -> answers R' a.
Proof. intros Hs (h & Hh & ?). exists h. split; [by eapply lookup_weaken|done]. Qed.

(** Answers to the same occurrence: the same job, the same envelope, and the later
    one made nothing. *)
Definition agree (a b : OccurrenceCommand * AcceptedOccurrence) : Prop :=
  ao_OccurrenceID a.2 = ao_OccurrenceID b.2 ->
  ao_JobID a.2 = ao_JobID b.2 /\ envelope_hash a.1 = envelope_hash b.1 /\ ao_Created b.2 = false.

Lemma irun_spec rs : forall w, ready w ->
  exists l, (irun rs w).1 = Ok l /\ ready (irun rs w).2 /\ i_evolves (w_db w) (w_db (irun rs w).2) /\
    Forall (answers (i_receipts (w_db (irun rs w).2))) l /\
    Forall (fun a => ao_Created a.2 = true -> i_receipts (w_db w) !! ao_OccurrenceID a.2 = None) l /\
    ForallOrdPairs agree l.
Proof.
  induction rs as [|r rs IH]; intros w Hw; cbn [irun].
  - exists []. split_and!; try done; constructor.
  - destruct (istep_spec r w Hw) as (l & Hl & Hw1 & Hg1 & Hc). unfold mbind, M_bind.
    destruct (istep r w) as [x w1]. simpl in Hl, Hw1, Hg1, Hc. subst x.
    destruct (IH w1 Hw1) as (l' & Hl' & Hw2 & Hg2 & Ha & Hcr & Hp). destruct (irun rs w1) as [x w2]. simpl in *. subst x.
    exists (l ++ l'). assert (Forall (fun a => ao_Created a.2 = true -> i_receipts (w_db w) !! ao_OccurrenceID a.2 = None) l') as Hcr'.
    { eapply Forall_impl; [exact Hcr|]. intros a Hn Hc'. specialize (Hn Hc'). eapply lookup_weaken_None; [exact Hn|]. apply Hg1. }
    destruct Hc as [->|(c & acc & -> & Hans & Hnone)]; [split_and!; try done; by etransitivity|]. cbn [app].
    pose proof (answers_weaken _ _ _ (ie_receipts _ _ Hg2) Hans) as Hans2.
    split_and!; [done|done|by etransitivity|by constructor|by constructor|]. constructor; [|done].
    rewrite List.Forall_forall in Ha, Hcr |- *. intros b Hb Heq. destruct (Ha b Hb) as (h & Hh & Hbh & _).
    destruct Hans2 as (h2 & Hh2 & Hah & _). destruct Hans as (h1 & Hh1 & _). simpl in *. rewrite Heq in Hh2, Hh1.
    split; [congruence|]. split; [congruence|]. destruct (ao_Created b.2) eqn:Eb; [|done].
    rewrite (Hcr b Hb Eb) in Hh1. done.
Qed.

(** C11: One job per occurrence.  Over any history of requests, with any failures,
    lost commits and interference of other sessions, all successful answers to an
    occurrence name the same job and were given to the same envelope, and at most
    the first of them says that the job was created; the final tables hold their
    receipt, and every job of an occurrence is the one its receipt names, so no
    second job of that occurrence can exist. *)
Theorem one_job_per_occurrence rs w :
  ready w ->
  exists l, (irun rs w).1 = Ok l /\ ForallOrdPairs agree l /\
    let d := w_db (irun rs w).2 in
    Forall (answers (i_receipts d)) l /\
    forall a id r, In a l -> job_at d id = Some r -> k_occurrence r.2 = Some (ao_OccurrenceID a.2) -> id = ao_JobID a.2.
Proof.
  intros Hw. destruct (irun_spec rs w Hw) as (l & Hl & Hw' & _ & Ha & _ & Hp). exists l. split; [done|]. split; [done|]. cbv zeta. split; [done|].
  intros a id r Hin Hr Hk. rewrite List.Forall_forall in Ha. destruct (Ha a Hin) as (h & Hh & _).
  destruct (iw_receipt _ (rd_wf _ Hw') _ _ _ Hr Hk) as [h' Hh']. congruence.
Qed.

(** What submitting a job does, on every branch.  A success shows a row of the
    queue and is one of three things: a new queued job with the normalised payload,
    while fewer than 32 wait; an existing job with the same kind, payload and no
    schedule, found by its key; or an active job with the same content, which gets
    the key as an alias.  A refusal changes nothing: a conflict means that the key is
    taken by different work, a full queue that 32 jobs wait or that a job has its 32
    aliases.  Only a failed commit leaves open whether it happened. *)
Theorem Submit_exact kind payload key w :
  w_tx w = None ->
  (exists text, prepare_submit int_of_2_63 sha256hex kind payload key = Err text /\
     SubmitJob kind payload key w = (Err (ErrText text), w)) \/
  exists out stored, prepare_submit int_of_2_63 sha256hex kind payload key = Ok (out, stored) /\
    let d := found w in let d' := w_db (SubmitJob kind payload key w).2 in
    let made := enqueued float_text kind out stored (Some (coalesce_hash sha256hex kind out)) None in
    match (SubmitJob kind payload key w).1 with
    | Ok res => exists now, made now res d d'
    | Err e => (d' = d /\ refused float_text kind out stored (Some (coalesce_hash sha256hex kind out)) None e d) \/
               (e = ErrDriver DbFault /\ exists now res, made now res d d')
    end.
Proof.
  intros Ht. unfold Submit. destruct (prepare_submit _ _ _ _ _) as [[out stored]|text]; [right|left; by exists text].
  exists out, stored. split; [done|]. exact (Submit_outcome sha256hex float_text kind out stored w Ht).
Qed.
End Service.

(** ** With the other services *)

(** What another session may do to the queue: tables [q'] with no new jobs, the
    columns and aliases of deleted jobs going with them. *)
Definition queue_turn (q' : qtables) (d : itables) : itables :=
  ITables q' (filter (fun kv => is_Some (q_jobs q' !! kv.1)) (i_columns d))
    (filter (fun kv => is_Some (q_jobs q' !! kv.2)) (i_aliases d)) (i_receipts d) (i_sequence d).

(** The worker and the executor respect what the intake relies on. *)
Lemma queue_turn_evolves q' d :
  q_wf (i_queue d) -> q_evolves (i_queue d) q' ->
  (forall id, is_Some (q_jobs q' !! id) -> is_Some (q_jobs (i_queue d) !! id)) ->
  i_evolves d (queue_turn q' d).
Proof.
  intros Hq He Hold. split; [|done]. intros [W1 W2 W3 W4 W5]. pose proof (ev_wf _ _ He Hq) as Hq'.
  assert (forall id r, job_at (queue_turn q' d) id = Some r ->
    exists j, job_at d id = Some (j, r.2) /\ (active (j_state r.1) = true -> active (j_state j) = true)) as Hback.
  { intros id r [Hj Hc]%job_at_spec. simpl in Hj, Hc. apply map_lookup_filter_Some in Hc as [Hc _].
    destruct (Hold id) as [j Hj0]; [by eexists|]. exists j. split; [by apply job_at_spec|].
    destruct (ev_jobs _ _ He _ _ Hj0) as [(j' & Hj' & _ & _ & Ht)|[Hr _]]; [|by rewrite (wf_retired _ Hq' _ Hr) in Hj].
    assert (j' = r.1) as -> by congruence. destruct (j_state j) eqn:Es; simpl; try done;
      (destruct Ht as [-> _]; [reflexivity|]); done. }
  split; simpl.
  - intros id. split; [intros [c Hc]; apply map_lookup_filter_Some in Hc as [_ Hc]; exact Hc|].
    intros Hs. destruct (proj2 (W1 id) (Hold _ Hs)) as [c Hc]. exists c. by apply map_lookup_filter_Some.
  - intros key id [_ Hs]%map_lookup_filter_Some. exact Hs.
  - intros a b ra rb (ja & Ha & _)%Hback (jb & Hb & _)%Hback Hk. by eapply (W3 _ _ _ _ Ha Hb).
  - intros a b ra rb key (ja & Ha & Sa)%Hback (jb & Hb & Sb)%Hback K1 K2 S1 S2.
    by eapply (W4 _ _ _ _ key Ha Hb K1 K2); [apply Sa|apply Sb].
  - intros id r o (j & Hj & _)%Hback Ho. by eapply (W5 _ _ _ Hj).
Qed.

(** A new job keeps the rules of the queue, since its id was not used before. *)
Lemma created_evolves `{Postgres} kind payload key ck meta now id d d' :
  created_job kind payload key ck meta now id d d' -> id ∉ q_retired (i_queue d) ->
  q_evolves (i_queue d) (i_queue d') /\ pending_jobs d' = pending_jobs d + 1 /\ pending_jobs d' <= MaxPendingJobs.
Proof.
  intros (Hf & Hp & _ & ->) Hr. simpl. split; [by apply q_evolves_new_job; [apply Hf|..]|].
  assert (pending_jobs (added id (new_row kind payload meta now) (new_columns key ck meta) d) = pending_jobs d + 1) as ->; [|lia].
  unfold pending_jobs. simpl. rewrite map_filter_insert_True by done. rewrite map_size_insert_None; [lia|].
  apply map_lookup_filter_None. left. apply Hf.
Qed.

(** ** A concrete intake *)

Module IntakeSample.
#[local] Instance sample_postgres : Postgres := {
  jsonb := fun j => j;
  jsonb_eqb := fun a b => (marshal a =? marshal b)%string;
  text_leb := String.leb;
  uuid_leb := String.leb;
}.
Definition sha (s : string) : string := s.
Definition float_text (lit : string) : option string := Some lit.
Definition shortest (_ : SpecFloat.spec_float) : string := "".
Definition t0 : Z := 1700000000 * Second.
(** A healthy worker and an empty queue. *)
Definition start : itables :=
  ITables (QTables ∅ (Some (StatusRow 3 (Some "w") (Some 7) (Some t0) true)) ∅ (Some 7) None ∅ ∅) ∅ ∅ ∅ 1.
Definition occurrence : OccurrenceCommand :=
  MkOccurrenceCommand 1 "00000000-0000-4000-8000-000000000001" "daily.digest" 2 "2026-10-26T10:00:00Z" "news_digest"
    (Some [("send_telegram", VBool false)]) "00000000-0000-4000-8000-000000000001" true "service" 0.
(** The commit of the first transaction is executed, but its reply is lost. *)
Definition lost_reply : list (event itables) :=
  repeat quiet 9 ++ [Event 0 NoFault (fun d => d) (fun _ => false) [1; 2; 3] 0] ++ repeat quiet 4 ++
  [Event 0 Unacked (fun d => d) (fun _ => false) [] 0].
Definition before : world itables := World start None t0 lost_reply.
Definition requests : list irequest := [IAccept occurrence; ISubmit "source_test" (Some [("source_id", VInt 5)]) "web:1"; IAccept occurrence; IAccept occurrence].
Definition run : IM (list (OccurrenceCommand * AcceptedOccurrence)) := irun sha float_text (- 2 ^ 63) shortest requests.

(** The retries are answered with the job of the first, whose reply was lost. *)
Example retries_answered : exists c, (run before).1 =
  Ok [(c, MkAcceptedOccurrence "00000000-0000-4000-8000-000000000001" "01020300-0000-4000-8000-000000000000" false);
      (c, MkAcceptedOccurrence "00000000-0000-4000-8000-000000000001" "01020300-0000-4000-8000-000000000000" false)].
Proof. eexists. by_eval. Qed.

Lemma no_jobs id : job_at start id = None.
Proof. unfold job_at, start. simpl. by rewrite lookup_empty. Qed.
Lemma start_wf : i_wf start.
Proof.
  split.
  - intros id. simpl. rewrite !lookup_empty. split; by intros [].
  - intros key id Hk. simpl in Hk. by rewrite lookup_empty in Hk.
  - intros a b ra rb Ha. by rewrite no_jobs in Ha.
  - intros a b ra rb key Ha. by rewrite no_jobs in Ha.
  - intros id r o Ha. by rewrite no_jobs in Ha.
Qed.
Lemma before_ready : ready before.
Proof.
  split; [done| |apply start_wf]. repeat (apply Forall_cons; split; [intros d; reflexivity|]). constructor.
Qed.
End IntakeSample.
#[local] Existing Instance IntakeSample.sample_postgres.

Lemma AcceptOccurrence_exact_witness :
  let w := IntakeSample.before in let c := IntakeSample.occurrence in
  let m := AcceptOccurrence IntakeSample.sha IntakeSample.float_text (- 2 ^ 63) IntakeSample.shortest c in
  exists call, prepare_occurrence (- 2 ^ 63) IntakeSample.shortest IntakeSample.sha c = Ok call /\
    (m w).1 = Err (ErrDriver DbFault) /\
    exists now id, first_accepted IntakeSample.sha true "service" "news_digest" call now id IntakeSample.start (w_db (m w).2).
Proof.
  intros w c m. destruct (AcceptOccurrence_exact IntakeSample.sha IntakeSample.float_text (- 2 ^ 63)
    IntakeSample.shortest c w eq_refl IntakeSample.start_wf) as [(text & Hp & _)|(call & Hp & Ho)].
  { exfalso. revert Hp. vm_compute. discriminate. }
  exists call. split; [exact Hp|]. fold m in Ho. cbv zeta in Ho.
  assert ((m w).1 = Err (ErrDriver DbFault)) as Hm by (vm_compute; reflexivity). split; [exact Hm|]. rewrite Hm in Ho.
  destruct Ho as [[Hd _]|[_ Hf]]; [|exact Hf]. exfalso.
  apply (f_equal i_sequence) in Hd. revert Hd. vm_compute. discriminate.
Defined.

Lemma one_job_per_occurrence_witness :
  exists l, (IntakeSample.run IntakeSample.before).1 = Ok l /\ length l = 2%nat /\
    ForallOrdPairs (agree IntakeSample.sha (- 2 ^ 63) IntakeSample.shortest) l.
Proof.
  destruct (one_job_per_occurrence IntakeSample.sha IntakeSample.float_text (- 2 ^ 63) IntakeSample.shortest
    IntakeSample.requests IntakeSample.before IntakeSample.before_ready) as (l & Hl & Hp & _).
  exists l. split; [exact Hl|]. split; [|exact Hp]. destruct IntakeSample.retries_answered as [c Hr].
  injection (eq_trans (eq_sym Hl) Hr) as Heq. rewrite Heq. reflexivity.
Defined.

Lemma Submit_exact_witness :
  let w := IntakeSample.before in let p := Some [("source_id", VInt 5)] in
  exists out stored res now,
    prepare_submit (- 2 ^ 63) IntakeSample.sha "source_test" p "web:1" = Ok (out, stored) /\
    enqueued IntakeSample.float_text "source_test" out stored
      (Some (coalesce_hash IntakeSample.sha "source_test" out)) None now res IntakeSample.start
      (w_db (Submit IntakeSample.sha IntakeSample.float_text (- 2 ^ 63) "source_test" p "web:1" w).2) /\
    sr_Created res = true.
Proof.
  intros w p. destruct (Submit_exact IntakeSample.sha IntakeSample.float_text (- 2 ^ 63)
    "source_test" p "web:1" w eq_refl) as [(text & Hp & _)|(out & stored & Hp & Ho)].
  { exfalso. revert Hp. vm_compute. discriminate. }
  cbv zeta in Ho. remember (Submit IntakeSample.sha IntakeSample.float_text (- 2 ^ 63) "source_test" p "web:1" w).1 as r eqn:Hr.
  vm_compute in Hr. subst r. destruct Ho as [now Ho]. do 4 eexists. split; [exact Hp|]. split; [exact Ho|reflexivity].
Defined.
