(* ===== verification/ArticleOutcome.v ===== *)
(** * ArticleOutcome: what an attempt to process an article ends with

    go-processing/internal/processing: outcome.go, analyze.go, mapping.go and
    locale_text.go, with the limits of runner.go.  The analysis is what
    encoding/json decodes from the provider's answer into a [map[string]any]; the
    fields of an outcome are the columns the store will write.

    Strings are byte texts; the class [Unicode] stands for the tables of package
    unicode. *)

From S2P Require Import Prelude GoText GoDecode GoTime ExecPayload GoRune JobPayload.
From Stdlib Require Import SpecFloat.

Definition StatePending := "pending".
Definition StateRetryWait := "retry_wait".
Definition StateCompleted := "completed".
Definition StateRejected := "rejected".
Definition StateExhausted := "exhausted".

Record Category := MkCategory { ct_Name : string; ct_Confidence : spec_float; ct_AICategory : string }.
(** [store.Category] *)
Record StoreCategory := MkStoreCategory {
  sc_Name : string;
  sc_Confidence : spec_float;
  sc_AICategory : string;
  sc_DisplayCategory : string;
}.

(** The values the code puts into [Fields]. *)
Inductive field :=
| FAny (v : value)
| FCategories (l : list Category)
| FStored (l : list StoreCategory)
| FTime (t : Z)
| FMedia (l : list (list (string * value))).

Record Outcome := MkOutcome {
  ou_State : string;
  ou_Fields : gmap string field;
  ou_Error : string;
  ou_RetryAfterSeconds : value;
}.

Record Limits := MkLimits { lm_MaxAttempts : Z; lm_Initial : Z; lm_Later : Z }.

Record Persisted := MkPersisted {
  pr_State : string;
  pr_Fields : gmap string field;
  pr_Attempts : Z;
  pr_NextAttemptAt : option Z;
  pr_Error : option string;
  pr_Processed : bool;
}.

(** [n.(type)] of a number as a float64 *)
Definition number (v : value) : option spec_float :=
  match v with VFloat f => Some f | VInt n => Some (binary64 n) | _ => None end.

Definition maxDuration : Z := 2 ^ 63 - 1.

Definition retryAfter (v : value) : Z :=
  match (match v with VStr s => ParseFloat s | _ => number v end) with
  | None => 0
  | Some seconds =>
      if negb (finite seconds) || SFltb seconds (binary64 0) then 0
      else if SFltb (binary64 (maxDuration / Second - 1)) seconds then maxDuration - Second
      else float_trunc (SFmul 53 1024 seconds (binary64 Second))
  end.

(** [runeLimit] *)
Definition runeLimit (s : string) (n : Z) : string :=
  let s := if ValidString s then s else ToValidUTF8 s in
  if n <? RuneCount s then take_runes n s else s.

(** Limits that are not positive are replaced. *)
Definition effective (l : Limits) : Limits :=
  MkLimits (if lm_MaxAttempts l <? 1 then 3 else lm_MaxAttempts l)
    (if lm_Initial l <=? 0 then 30 * Minute else lm_Initial l)
    (if lm_Later l <=? 0 then 6 * Hour else lm_Later l).

Definition busy (o : Outcome) : bool := (ou_Error o =? "busy")%string || (ou_Error o =? "native_browser_busy")%string.

Definition Persist (o : Outcome) (attempt now : Z) (limits : Limits) : Persisted :=
  let limits := effective limits in
  let '(state, attempts, next) :=
    if negb (ou_State o =? StateRetryWait)%string then (ou_State o, attempt, None)
    else if busy o then
      (ou_State o, Z.max 0 (attempt - 1), Some (now + Z.max Minute (retryAfter (ou_RetryAfterSeconds o))))
    else if lm_MaxAttempts limits <=? attempt then (StateExhausted, attempt, None)
    else
      let delay := if attempt =? 1 then lm_Initial limits else lm_Later limits in
      (ou_State o, attempt, Some (now + Z.max delay (retryAfter (ou_RetryAfterSeconds o)))) in
  let error := if (TrimSpace (ou_Error o) =? "")%string then None else Some (runeLimit (ou_Error o) 2000) in
  MkPersisted state (ou_Fields o) attempts next error
    ((state =? StateCompleted)%string || (state =? StateRejected)%string || (state =? StateExhausted)%string).

(** ** Categories *)

Definition vfield (v : value) (k : string) : value :=
  match v with VObj l => default VNull (vget l k) | _ => VNull end.
Definition as_string (v : value) : string := match v with VStr s => s | _ => "" end.

Definition finiteConfidence (v : value) (fallback : spec_float) : spec_float :=
  match number v with
  | Some n =>
      if negb (finite n) then fallback
      else
        let low := if SFltb n (binary64 1) then n else binary64 1 in
        if SFltb (binary64 0) low then low else binary64 0
  | None => fallback
  end.

(** A member of the analysis; a missing one reads as nil. *)
Definition member (a : gmap string value) (k : string) : value := default VNull (a !! k).

Definition is_true (v : value) : bool := match v with VBool true => true | _ => false end.
(** [len(l) > 0] *)
Definition has_any {A} (l : list A) : bool := match l with [] => false | _ => true end.
Definition blank (s : string) : bool := (TrimSpace s =? "")%string.

(** One turn of the loop of [NormalizeCategories]. *)
Definition normal_category (confidences originals : list value) (fallback : spec_float) (i : nat) (v : value) : option Category :=
  let '(name, c, original) :=
    match v with
    | VObj _ => (as_string (vfield v "name"), vfield v "confidence", as_string (vfield v "ai_category"))
    | _ => (as_string v, VNull, "")
    end in
  let name := TrimSpace name in
  if (name =? "")%string then None
  else
    let aligned := nth i confidences VNull in
    let confidence := finiteConfidence c (finiteConfidence aligned fallback) in
    let original := if blank original && (i <? length originals)%nat then as_string (nth i originals VNull) else original in
    let original := if blank original then name else original in
    Some (MkCategory name confidence (TrimSpace original)).

Definition category_confidence_default : spec_float := float_of_decimal 8 (-1).

Definition NormalizeCategories (analysis : gmap string value) : list Category :=
  match member analysis "categories" with
  | VArr raw =>
      let confidences := match analysis !! "category_confidences" with
                         | Some (VArr l) => l | Some single => [single] | None => []
                         end in
      let originals := match member analysis "original_categories" with VArr l => l | _ => [] end in
      let fallback := finiteConfidence (member analysis "category_confidence") category_confidence_default in
      omap id (imap (normal_category confidences originals fallback) raw)
  | _ => []
  end.

Definition defaultCategoryMapping : list (string * string) :=
  [("technology", "Tech"); ("tech", "Tech"); ("software", "Tech"); ("ai", "AI"); ("artificial intelligence", "AI");
   ("computer", "Tech"); ("digital", "Tech"); ("internet", "Tech"); ("programming", "Tech"); ("innovation", "Tech");
   ("технологии", "Tech"); ("компьютер", "Tech"); ("программирование", "Tech"); ("интернет", "Tech");
   ("цифровой", "Tech"); ("business", "Business"); ("economy", "Business"); ("finance", "Business");
   ("market", "Business"); ("trade", "Business"); ("investment", "Business"); ("company", "Business");
   ("startup", "Business"); ("бизнес", "Business"); ("экономика", "Business"); ("финансы", "Business");
   ("торговля", "Business"); ("инвестиции", "Business"); ("компания", "Business"); ("politics", "Politics");
   ("government", "Politics"); ("election", "Politics"); ("policy", "Politics"); ("law", "Politics");
   ("legal", "Politics"); ("parliament", "Politics"); ("president", "Politics"); ("minister", "Politics");
   ("политика", "Politics"); ("правительство", "Politics"); ("выборы", "Politics"); ("закон", "Politics");
   ("парламент", "Politics"); ("президент", "Politics"); ("министр", "Politics"); ("international", "International");
   ("world", "International"); ("global", "International"); ("foreign", "International"); ("europe", "International");
   ("usa", "International"); ("china", "International"); ("russia", "International"); ("nato", "International");
   ("eu", "International"); ("международные", "International"); ("мир", "International");
   ("глобальный", "International"); ("европа", "International"); ("россия", "International");
   ("китай", "International"); ("serbia", "Serbia"); ("belgrade", "Serbia"); ("serbian", "Serbia");
   ("вучич", "Serbia"); ("белград", "Serbia"); ("сербия", "Serbia"); ("сербский", "Serbia"); ("science", "Science");
   ("research", "Science"); ("study", "Science"); ("health", "Science"); ("medicine", "Science");
   ("environment", "Science"); ("climate", "Science"); ("nature", "Science"); ("наука", "Science");
   ("исследование", "Science"); ("здоровье", "Science"); ("медицина", "Science"); ("природа", "Science");
   ("климат", "Science"); ("news", "Other"); ("general", "Other"); ("other", "Other"); ("society", "Other");
   ("culture", "Other"); ("sports", "Other"); ("entertainment", "Other"); ("новости", "Other"); ("общество", "Other");
   ("культура", "Other"); ("спорт", "Other"); ("развлечения", "Other"); ("образование", "Other"); ("общее", "Other")].

Section Unicode.
Context `{Unicode}.

Definition MapCategory (ai : string) : string :=
  let ai := ToLower (TrimSpace ai) in
  if (ai =? "")%string then "Other"
  else match find (fun kv => (ai =? kv.1)%string) defaultCategoryMapping with
       | Some (_, category) => category
       | None =>
           match find (fun kv => Contains ai kv.1 || Contains kv.1 ai) defaultCategoryMapping with
           | Some (_, category) => category
           | None => "Other"
           end
       end.

Definition challenge_titles : list string := ["just a moment"; "just a moment..."; "access denied"; "forbidden"].
Definition challenge_markers : list string :=
  ["enable javascript and cookies to continue"; "checking your browser before accessing"; "checking if the site connection is secure";
   "verify you are human"; "verify that you are human"; "performing security verification"; "проверка вашего браузера";
   "включите javascript и файлы cookie"].

Definition IsChallengeText (s : string) : bool :=
  let s := ToLower (TrimSpace s) in
  if 1500 <? RuneCount s then false
  else bool_decide (s ∈ challenge_titles) || existsb (Contains s) challenge_markers.

(** ** Serbian prose *)

(** The character that ends a quotation which [r] opens. *)
Definition closing_of (r : Z) : option Z :=
  if r =? 171 then Some 187 else if r =? 8222 then Some 8220 else if r =? 8220 then Some 8221 else if r =? 34 then Some 34 else None.

Fixpoint count_scripts (closing : option Z) (latin cyrillic : Z) (rs : list Z) : Z * Z :=
  match rs with
  | [] => (latin, cyrillic)
  | r :: rs' =>
      match closing with
      | Some c => count_scripts (if r =? c then None else closing) latin cyrillic rs'
      | None =>
          match closing_of r with
          | Some c => count_scripts (Some c) latin cyrillic rs'
          | None => count_scripts None (latin + (if unicode_Latin r then 1 else 0)) (cyrillic + (if unicode_Cyrillic r then 1 else 0)) rs'
          end
      end
  end.

Definition serbianLatinProse (text : string) : bool :=
  let '(latin, cyrillic) := count_scripts None 0 0 (runes text) in
  (0 <? latin) && (cyrillic * 2 <? latin).

(** ** The analysis *)

Definition version2 (analysis : gmap string value) : bool :=
  match member analysis "analysis_version" with
  | VFloat f => SFeqb f (binary64 2)
  | VInt n => n =? 2
  | _ => false
  end.

Definition requireBilingualResult (analysis : gmap string value) (enabled : bool) : gmap string value :=
  if enabled && negb (version2 analysis) && (match member analysis "_processing_error" with VNull => true | _ => false end)
  then {[ "_processing_error" := VStr "invalid_bilingual_result" ]} else analysis.

Definition good_title (title : string) : bool :=
  negb (title =? "")%string && (RuneCount title <=? 200) && negb (IsChallengeText title).
Definition good_summary (summary : string) : bool := negb (summary =? "")%string && negb (IsChallengeText summary).

(** The title, the summary and their validity for one locale. *)
Definition localized (analysis : gmap string value) (locale : string) : string * string * bool :=
  let raw := vfield (member analysis "localizations") locale in
  let title := TrimSpace (as_string (vfield raw "title")) in
  let summary := TrimSpace (as_string (vfield raw "summary")) in
  let valid := good_title title && good_summary summary in
  (title, summary,
   if (locale =? "sr-Latn")%string then valid && serbianLatinProse (title +:+ string_of [10] +:+ summary) else valid).

Definition locale_entry (l : string * string * bool) : value :=
  VObj [("title", VStr l.1.1); ("summary", VStr l.1.2); ("valid", VBool l.2)].

(** The part of [AnalyzeOutcome] for the second version of the contract: the
    analysis with its Russian texts in place, and the fields so far. *)
Definition second_version (analysis : gmap string value) (summaryDone : bool) : gmap string value * gmap string field :=
  let ru := localized analysis "ru" in
  let sr := localized analysis "sr-Latn" in
  let validated := (if summaryDone then [] else [("ru", locale_entry ru)]) ++ [("sr-Latn", locale_entry sr)] in
  let '(title, summary, valid) := ru in
  let analysis' := if valid : bool then <["optimized_title" := VStr title]> (<["summary" := VStr summary]> analysis)
                   else <["optimized_title" := VNull]> (<["summary" := VNull]> analysis) in
  let fields := if valid && negb summaryDone
                then <["title" := FAny (VStr title)]> (<["summary" := FAny (VStr summary)]> {[ "summary_processed" := FAny (VBool true) ]})
                else (∅ : gmap string field) in
  (analysis',
   <["localizations" := FAny (VObj validated)]>
     (<["localization_prompt_version" := FAny (member analysis "localization_prompt_version")]>
       (<["localization_model" := FAny (member analysis "localization_model")]> fields))).

Definition put_summary (summary : string) (fields : gmap string field) : gmap string field :=
  <["summary" := FAny (VStr summary)]> (<["summary_processed" := FAny (VBool true)]> fields).
Definition put_categories (cats : list Category) (fields : gmap string field) : gmap string field :=
  <["categories" := FCategories cats]> (<["category_processed" := FAny (VBool true)]> fields).
Definition put_ad (isAd : bool) (analysis : gmap string value) (fields : gmap string field) : gmap string field :=
  <["ad_processed" := FAny (VBool true)]> (<["is_advertisement" := FAny (VBool isAd)]>
    (<["ad_confidence" := FAny (VFloat (finiteConfidence (member analysis "ad_confidence") (binary64 0)))]>
      (<["ad_type" := FAny (member analysis "ad_type")]> (<["ad_reasoning" := FAny (member analysis "ad_reasoning")]> fields)))).

Definition outcome (state : string) (fields : gmap string field) (error : string) : Outcome := MkOutcome state fields error VNull.

(** [AnalyzeOutcome] once the version is dealt with. *)
Definition analyze_stages (analysis : gmap string value) (summaryDone categoryDone adDone : bool) (fields : gmap string field) : Outcome :=
  let summary := TrimSpace (as_string (member analysis "summary")) in
  let unversioned := match member analysis "analysis_version" with VNull => true | _ => false end in
  let fields := match member analysis "optimized_title" with
                | VStr title =>
                    if (negb summaryDone || unversioned) && good_title (TrimSpace title)
                    then <["title" := FAny (VStr (TrimSpace title))]> fields else fields
                | _ => fields
                end in
  let cats := NormalizeCategories analysis in
  if is_true (member analysis "is_advertisement") then
    let fields := put_ad true analysis fields in
    let fields := if negb summaryDone && good_summary summary then put_summary summary fields else fields in
    let fields := if negb categoryDone && has_any cats then put_categories cats fields else fields in
    outcome StateRejected fields "advertisement"
  else if negb summaryDone && (summary =? "")%string then outcome StateRetryWait fields "missing_summary"
  else if negb summaryDone && IsChallengeText summary then outcome StateRetryWait fields "summary_describes_challenge"
  else
    let fields := if summaryDone then fields else put_summary summary fields in
    if negb categoryDone && negb (has_any cats) then outcome StateRetryWait fields "missing_categories"
    else
      let fields := if categoryDone then fields else put_categories cats fields in
      if adDone then outcome StateCompleted fields ""
      else match member analysis "is_advertisement" with
           | VBool isAd => outcome StateCompleted (put_ad isAd analysis fields) ""
           | _ => outcome StateRetryWait fields "missing_ad_classification"
           end.

Definition AnalyzeOutcome (analysis : gmap string value) (summaryDone categoryDone adDone : bool) : Outcome :=
  let failed := as_string (member analysis "_processing_error") in
  if negb (failed =? "")%string then
    MkOutcome (if is_true (member analysis "_processing_terminal") then StateRejected else StateRetryWait)
      ∅ failed (member analysis "_retry_after_seconds")
  else if version2 analysis then
    if negb (has_any (NormalizeCategories analysis)) then outcome StateRetryWait ∅ "missing_categories"
    else match member analysis "is_advertisement" with
         | VBool _ =>
             let '(analysis', fields) := second_version analysis summaryDone in
             analyze_stages analysis' summaryDone categoryDone adDone fields
         | _ => outcome StateRetryWait ∅ "missing_ad_classification"
         end
  else analyze_stages analysis summaryDone categoryDone adDone ∅.
End Unicode.

(** ** Limits of what is stored *)

Lemma runeLimit_count s n : 0 <= n -> RuneCount (runeLimit s n) <= n.
Proof.
  intros Hn. unfold runeLimit. set (s' := if ValidString s then s else ToValidUTF8 s).
  assert (whole_text s') as Hw.
  { unfold s'. destruct (ValidString s) eqn:Hv; [by apply ValidString_whole|apply ToValidUTF8_whole]. }
  destruct (n <? RuneCount s') eqn:E; [by apply take_runes_count|bool_to_prop; lia].
Qed.

Definition nonnegative (f : spec_float) : bool :=
  match f with S754_finite true _ _ | S754_infinity true => false | _ => true end.

Lemma round_nonnegative m e l : nonnegative (binary_round_aux 53 1024 false m e l) = true.
Proof.
  unfold binary_round_aux. destruct (shr_fexp _ _ _ _ _) as [mrs e']. destruct (shr_fexp _ _ _ _ _) as [mrs' e''].
  by destruct (shr_m mrs') as [|p|p]; [|destruct (Z.leb _ _)|].
Qed.

Lemma mul_nonnegative a b : nonnegative a = true -> nonnegative b = true -> nonnegative (SFmul 53 1024 a b) = true.
Proof. destruct a as [| [] | | []], b as [| [] | | []]; try done. intros _ _. apply round_nonnegative. Qed.

Lemma trunc_nonnegative f : nonnegative f = true -> 0 <= float_trunc f.
Proof. destruct f as [| | |[] m e]; try done. intros _. simpl. destruct (0 <=? e) eqn:E; bool_to_prop; [apply Z.mul_nonneg_nonneg; lia|apply Z.div_pos; lia]. Qed.

Lemma not_below_zero f : finite f = true -> SFltb f (binary64 0) = false -> f = S754_zero true \/ nonnegative f = true.
Proof. destruct f as [[]| | |[] m e]; try done; auto. Qed.

Lemma retryAfter_nonneg v : 0 <= retryAfter v.
Proof.
  unfold retryAfter. destruct (match v with VStr s => _ | _ => _ end) as [x|]; [|done].
  destruct (negb (finite x) || SFltb x (binary64 0)) eqn:E; [done|]. bool_to_prop.
  destruct (SFltb _ x); [done|]. destruct (not_below_zero x) as [->|Hx]; [done|done|done|].
  by apply trunc_nonnegative, mul_nonnegative.
Qed.

(** [effective] limits are positive. *)
Lemma effective_pos l : 1 <= lm_MaxAttempts (effective l) /\ 0 < lm_Initial (effective l) /\ 0 < lm_Later (effective l).
Proof.
  unfold effective. units. simpl. destruct (_ <? 1) eqn:E1, (lm_Initial l <=? 0) eqn:E2, (lm_Later l <=? 0) eqn:E3; bool_to_prop; lia.
Qed.

(** What [Persist] decides, case by case: another state than a retry is kept; a
    retry because someone was busy costs no attempt; a retry of the last attempt
    is exhausted; and any other waits at least as long as configured and as the
    service asked. *)
Inductive persisted_case (o : Outcome) (attempt now : Z) (l : Limits) : string -> Z -> option Z -> Prop :=
| PKept : ou_State o <> StateRetryWait -> persisted_case o attempt now l (ou_State o) attempt None
| PBusy t : ou_State o = StateRetryWait -> busy o = true -> now + Minute <= t -> now + retryAfter (ou_RetryAfterSeconds o) <= t ->
    persisted_case o attempt now l StateRetryWait (Z.max 0 (attempt - 1)) (Some t)
| PExhausted : ou_State o = StateRetryWait -> busy o = false -> lm_MaxAttempts (effective l) <= attempt ->
    persisted_case o attempt now l StateExhausted attempt None
| PRetry t : ou_State o = StateRetryWait -> busy o = false -> attempt < lm_MaxAttempts (effective l) ->
    now + (if attempt =? 1 then lm_Initial (effective l) else lm_Later (effective l)) <= t ->
    now + retryAfter (ou_RetryAfterSeconds o) <= t -> now < t ->
    persisted_case o attempt now l StateRetryWait attempt (Some t).

Lemma Persist_cases o attempt now l :
  let p := Persist o attempt now l in persisted_case o attempt now l (pr_State p) (pr_Attempts p) (pr_NextAttemptAt p).
Proof.
  destruct (effective_pos l) as (H1 & H2 & H3). unfold Persist. destruct (ou_State o =? StateRetryWait)%string eqn:Hs; cbn [negb];
    [|bool_to_prop; by constructor]. bool_to_prop.
  destruct (busy o) eqn:Hb; [rewrite Hs; constructor; [done|done|lia..]|].
  destruct (lm_MaxAttempts (effective l) <=? attempt) eqn:Hm; bool_to_prop; [by constructor|].
  rewrite Hs. cbn [pr_State pr_Attempts pr_NextAttemptAt]. destruct (attempt =? 1) eqn:E1; constructor; try done; rewrite ?E1; lia.
Qed.

(** An attempt always ends in a state from which the article goes on or
    stops.  What is stored waits for a retry exactly when it carries the instant
    of the next attempt; that instant is at least a minute, respectively the
    configured delay, ahead; only a busy service gives the attempt back; the last
    allowed attempt never waits; an article is marked processed exactly in a
    final state; and the stored error has two thousand characters at most. *)
Theorem Persist_exact o attempt now l :
  let p := Persist o attempt now l in
  ou_State o ∈ [StatePending; StateRetryWait; StateCompleted; StateRejected; StateExhausted] ->
  (pr_State p = StateRetryWait <-> is_Some (pr_NextAttemptAt p)) /\
  (forall t, pr_NextAttemptAt p = Some t -> now < t /\ now + retryAfter (ou_RetryAfterSeconds o) <= t) /\
  (pr_Attempts p = attempt \/ busy o = true /\ pr_Attempts p = Z.max 0 (attempt - 1)) /\
  (lm_MaxAttempts (effective l) <= attempt -> busy o = false -> pr_State p <> StateRetryWait) /\
  (pr_Processed p = true <-> pr_State p <> StatePending /\ pr_State p <> StateRetryWait) /\
  (forall e, pr_Error p = Some e -> RuneCount e <= 2000) /\
  pr_Fields p = ou_Fields o.
Proof.
  intros p Hs. pose proof (Persist_cases o attempt now l) as Hc. fold p in Hc.
  assert (pr_Processed p = ((pr_State p =? StateCompleted) || (pr_State p =? StateRejected) || (pr_State p =? StateExhausted))%string) as Hp.
  { unfold p, Persist. by destruct (if negb _ then _ else _) as [[st at_] nx]. }
  split_and!.
  - destruct Hc; split; try done; try (intros [? [=]]); by eexists.
  - destruct Hc; intros u [= <-]; units; split; lia.
  - destruct Hc; auto.
  - destruct Hc; try done; [congruence|lia].
  - rewrite Hp. destruct Hc; [|split; [|intros []]; done..]. rewrite !elem_of_cons, elem_of_nil in Hs. by destruct Hs as [->|[->|[->|[->|[->|[]]]]]]; split; try done; intros [].
  - unfold p, Persist. destruct (if negb _ then _ else _) as [[st at_] nx]. cbn [pr_Error]. intros e He.
    destruct (TrimSpace _ =? "")%string; [done|]. injection He as <-. by apply runeLimit_count.
  - unfold p, Persist. by destruct (if negb _ then _ else _) as [[st at_] nx].
Qed.

(** ** What an analysis may store *)

Definition unit_confidence (f : spec_float) : bool := SFleb (binary64 0) f && SFleb f (binary64 1).

Lemma SFltb_leb a b : SFltb a b = true -> SFleb a b = true.
Proof. unfold SFltb, SFleb. destruct (SFcompare a b) as [[]|]; done. Qed.

Lemma finiteConfidence_unit v fallback : unit_confidence fallback = true -> unit_confidence (finiteConfidence v fallback) = true.
Proof.
  intros Hf. unfold finiteConfidence. destruct (number v) as [n|]; [|done]. destruct (negb (finite n)); [done|]. cbv zeta.
  destruct (SFltb n (binary64 1)) eqn:E1; destruct (SFltb (binary64 0) _) eqn:E0; try done.
  unfold unit_confidence. by rewrite (SFltb_leb _ _ E0), (SFltb_leb _ _ E1).
Qed.

Definition good_category (c : Category) : Prop := ct_Name c <> "" /\ unit_confidence (ct_Confidence c) = true.

Lemma NormalizeCategories_good a : Forall good_category (NormalizeCategories a).
Proof.
  unfold NormalizeCategories. destruct (member a "categories") as [| | | | |raw| |]; try constructor.
  set (fallback := finiteConfidence _ _). assert (unit_confidence fallback = true) as Hf by by apply finiteConfidence_unit.
  apply Forall_forall. intros c (o & Ho & Hc)%list_elem_of_omap. simpl in Hc. subst o.
  apply elem_of_lookup_imap_1 in Ho as (i & v & Hc & _). unfold normal_category in Hc.
  destruct (match v with VObj _ => _ | _ => _ end) as [[name x] original].
  destruct (TrimSpace name =? "")%string eqn:Hn; [done|]. injection Hc as ->. bool_to_prop.
  split; [done|]. by apply finiteConfidence_unit, finiteConfidence_unit.
Qed.

Section Stages.
Context `{Unicode}.
Implicit Types fields : gmap string field.

(** A stage is marked done only together with what it produced, and a stage that
    was done before is left alone. *)
Record stages_ok (summaryDone categoryDone : bool) fields : Prop := {
  so_summary : is_Some (fields !! "summary_processed") \/ is_Some (fields !! "summary") ->
    summaryDone = false /\ exists s, fields !! "summary" = Some (FAny (VStr s)) /\ good_summary s = true;
  so_categories : is_Some (fields !! "category_processed") \/ is_Some (fields !! "categories") ->
    categoryDone = false /\ exists cats, fields !! "categories" = Some (FCategories cats) /\ cats <> [] /\ Forall good_category cats;
  so_ad : is_Some (fields !! "ad_processed") ->
    exists b c, fields !! "is_advertisement" = Some (FAny (VBool b)) /\
      fields !! "ad_confidence" = Some (FAny (VFloat c)) /\ unit_confidence c = true;
  so_title : forall v, fields !! "title" = Some v -> exists s, v = FAny (VStr s) /\ good_title s = true;
}.

Lemma stages_empty s c : stages_ok s c ∅.
Proof. split; rewrite ?lookup_empty; try done; intros [[? [=]]|[? [=]]] || intros [? [=]]. Qed.

Definition stage_keys : list string :=
  ["summary"; "summary_processed"; "categories"; "category_processed"; "ad_processed"; "is_advertisement"; "ad_confidence"; "title"].

Lemma stages_other s c k v fields : k ∉ stage_keys -> stages_ok s c fields -> stages_ok s c (<[k := v]> fields).
Proof.
  intros Hk [H1 H2 H3 H4]. unfold stage_keys in Hk. rewrite !not_elem_of_cons in Hk. destruct Hk as (?&?&?&?&?&?&?&?&_).
  split; rewrite !lookup_insert_ne by done; auto.
Qed.

Lemma stages_title s c t fields : good_title t = true -> stages_ok s c fields -> stages_ok s c (<["title" := FAny (VStr t)]> fields).
Proof.
  intros Ht [H1 H2 H3 H4]. split; rewrite ?lookup_insert_ne by done; [done..|].
  rewrite lookup_insert_eq. intros v [= <-]. by exists t.
Qed.

Lemma stages_summary c t fields : good_summary t = true -> stages_ok false c fields -> stages_ok false c (put_summary t fields).
Proof.
  intros Ht [H1 H2 H3 H4]. unfold put_summary. split; [|by simpl_map..].
  intros _. split; [done|]. exists t. by simpl_map.
Qed.

Lemma stages_categories s cats fields :
  cats <> [] -> Forall good_category cats -> stages_ok s false fields -> stages_ok s false (put_categories cats fields).
Proof.
  intros Hn Hc [H1 H2 H3 H4]. unfold put_categories. split; [by simpl_map| |by simpl_map..].
  intros _. split; [done|]. exists cats. by simpl_map.
Qed.

Lemma stages_ad s c b a fields : stages_ok s c fields -> stages_ok s c (put_ad b a fields).
Proof.
  intros [H1 H2 H3 H4]. unfold put_ad. split; [by simpl_map|by simpl_map| |by simpl_map].
  intros _. eexists b, _. simpl_map. split_and!; [done..|]. by apply finiteConfidence_unit.
Qed.

Lemma stages_second s c a : stages_ok s c (second_version a s).2.
Proof.
  unfold second_version. destruct (localized a "ru") as [[title summary] valid] eqn:Hl.
  assert (valid = true -> good_title title = true /\ good_summary summary = true) as Hv.
  { unfold localized in Hl. simpl in Hl. injection Hl as <- <- <-. by intros ?%andb_true_iff. }
  cbn [snd]. repeat (apply stages_other; [unfold stage_keys; rewrite !not_elem_of_cons; split_and!; done || apply not_elem_of_nil|]).
  destruct valid, s; simpl; try apply stages_empty. destruct Hv as [Ht Hs]; [done|].
  apply stages_title; [done|]. apply (stages_summary c summary ∅); [done|apply stages_empty].
Qed.

(** The stages that a completed article has behind it. *)
Definition stages_done (summaryDone categoryDone adDone : bool) fields : Prop :=
  (summaryDone = true \/ fields !! "summary_processed" = Some (FAny (VBool true))) /\
  (categoryDone = true \/ fields !! "category_processed" = Some (FAny (VBool true))) /\
  (adDone = true \/ fields !! "ad_processed" = Some (FAny (VBool true)) /\ fields !! "is_advertisement" = Some (FAny (VBool false))).
End Stages.

Section Analysis.
Context `{Unicode}.

(** What [analyze_stages] and [AnalyzeOutcome] promise. *)
Definition outcome_ok (analysis : gmap string value) (summaryDone categoryDone adDone : bool) (o : Outcome) : Prop :=
  stages_ok summaryDone categoryDone (ou_Fields o) /\
  (ou_State o = StateCompleted -> ou_Error o = "" /\ member analysis "is_advertisement" <> VBool true /\
     stages_done summaryDone categoryDone adDone (ou_Fields o)) /\
  (ou_State o <> StateCompleted -> ou_Error o <> "") /\
  (ou_State o = StateRejected ->
     ou_Error o = "advertisement" /\ member analysis "is_advertisement" = VBool true \/
     ou_Error o = as_string (member analysis "_processing_error") /\ member analysis "_processing_terminal" = VBool true) /\
  ou_State o ∈ [StateRetryWait; StateCompleted; StateRejected].

Lemma stages_ad_done s c d b a fields :
  (s = true \/ fields !! "summary_processed" = Some (FAny (VBool true))) ->
  (c = true \/ fields !! "category_processed" = Some (FAny (VBool true))) -> b = false ->
  stages_done s c d (put_ad b a fields).
Proof. intros Hs Hc ->. unfold stages_done, put_ad. simpl_map. split_and!; [done|done|by right]. Qed.

Lemma retry_outcome a s c d fields error :
  error <> "" -> stages_ok s c fields -> outcome_ok a s c d (outcome StateRetryWait fields error).
Proof. intros He Hf. split_and!; try done. set_solver. Qed.

Lemma good_summary_parts s : good_summary s = negb (s =? "")%string && negb (IsChallengeText s).
Proof. done. Qed.

(** The last part: the summary and the categories are settled. *)
Lemma analyze_tail a s c d fields :
  stages_ok s c fields ->
  (s = true \/ fields !! "summary_processed" = Some (FAny (VBool true))) ->
  (c = true \/ fields !! "category_processed" = Some (FAny (VBool true))) ->
  member a "is_advertisement" <> VBool true ->
  outcome_ok a s c d
    (if d then outcome StateCompleted fields ""
     else match member a "is_advertisement" with
          | VBool isAd => outcome StateCompleted (put_ad isAd a fields) ""
          | _ => outcome StateRetryWait fields "missing_ad_classification"
          end).
Proof.
  intros Hf Hs Hc Ha. destruct d.
  { split_and!; try done; [|set_solver]. intros _. split_and!; [done..|]. split_and!; [done|done|by left]. }
  destruct (member a "is_advertisement") as [|b| | | | | |] eqn:E; try by apply retry_outcome.
  destruct b; [done|]. split_and!; try done; [by apply stages_ad| |set_solver].
  intros _. split_and!; [done|by rewrite E|]. by apply stages_ad_done.
Qed.

Lemma analyze_stages_ok a s c d fields :
  stages_ok s c fields -> outcome_ok a s c d (analyze_stages a s c d fields).
Proof.
  intros Hf. unfold analyze_stages. cbv zeta.
  set (summary := TrimSpace (as_string (member a "summary"))).
  set (f1 := match member a "optimized_title" with VStr _ => _ | _ => _ end).
  assert (stages_ok s c f1) as H1.
  { unfold f1. destruct (member a "optimized_title") as [| | | |t| | |]; try done.
    destruct (_ && good_title (TrimSpace t)) eqn:E; [|done]. apply andb_true_iff in E as [_ E]. by apply stages_title. }
  clearbody f1. pose proof (NormalizeCategories_good a) as Hgood. set (cats := NormalizeCategories a) in *.
  assert (has_any cats = true -> cats <> []) as Hne by by destruct cats.
  destruct (is_true (member a "is_advertisement")) eqn:Had.
  { set (f2 := if negb s && _ then _ else _). assert (stages_ok s c f2) as H2.
    { unfold f2. destruct s; [by apply stages_ad|]. destruct (good_summary summary) eqn:E; [|by apply stages_ad]. by apply stages_summary, stages_ad. }
    split_and!; try done; [|left|set_solver].
    - cbn. destruct c; [done|]. destruct (has_any cats) eqn:E; [|done]. apply stages_categories; auto.
    - split; [done|]. by destruct (member a "is_advertisement") as [|[]| | | | | |]. }
  assert (member a "is_advertisement" <> VBool true) as Hn by (intros E; by rewrite E in Had).
  destruct (negb s && (summary =? "")%string) eqn:E1; [by apply retry_outcome|].
  destruct (negb s && IsChallengeText summary) eqn:E2; [by apply retry_outcome|].
  set (f2 := if s then f1 else _).
  assert (stages_ok s c f2 /\ (s = true \/ f2 !! "summary_processed" = Some (FAny (VBool true)))) as [H2 Hs].
  { unfold f2. destruct s; [by auto|]. cbn [negb andb] in *. split.
    - apply stages_summary; [|done]. unfold good_summary. by rewrite E1, E2.
    - right. unfold put_summary. by simpl_map. }
  clearbody f2. destruct (negb c && negb (has_any cats)) eqn:E3; [by apply retry_outcome|].
  apply analyze_tail; [| |destruct c; [by left|right; unfold put_categories; by simpl_map]|done].
  - destruct c; [done|]. apply negb_false_iff in E3. apply stages_categories; auto.
  - destruct c; [done|]. destruct Hs as [Hs|Hs]; [by left|right]. unfold put_categories. by simpl_map.
Qed.

Lemma second_version_ad a s : member (second_version a s).1 "is_advertisement" = member a "is_advertisement" /\
  member (second_version a s).1 "_processing_error" = member a "_processing_error" /\
  member (second_version a s).1 "_processing_terminal" = member a "_processing_terminal".
Proof. unfold second_version. destruct (localized a "ru") as [[t u] []]; unfold member; cbn [fst]; by rewrite !lookup_insert_ne. Qed.

Lemma AnalyzeOutcome_ok analysis summaryDone categoryDone adDone :
  outcome_ok analysis summaryDone categoryDone adDone (AnalyzeOutcome analysis summaryDone categoryDone adDone).
Proof.
  unfold AnalyzeOutcome. destruct (as_string (member analysis "_processing_error") =? "")%string eqn:He; cbn [negb].
  - destruct (version2 analysis); [|apply analyze_stages_ok, stages_empty].
    destruct (has_any (NormalizeCategories analysis)); cbn [negb]; [|apply retry_outcome; [done|apply stages_empty]].
    destruct (member analysis "is_advertisement") eqn:Ha; try (apply retry_outcome; [done|apply stages_empty]).
    pose proof (second_version_ad analysis summaryDone) as (E1 & E2 & E3).
    pose proof (stages_second summaryDone categoryDone analysis) as Hf.
    destruct (second_version analysis summaryDone) as [a' fields]. cbn [fst snd] in *.
    destruct (analyze_stages_ok a' summaryDone categoryDone adDone fields Hf) as (H1 & H2 & H3 & H4 & H5).
    rewrite E1 in H2, H4. rewrite E2, E3 in H4. done.
  - bool_to_prop. split_and!; cbn [ou_State ou_Error ou_Fields].
    + apply stages_empty.
    + by destruct (is_true _).
    + done.
    + destruct (is_true _) eqn:Ht; [|done]. intros _. right. split; [done|]. by destruct (member analysis "_processing_terminal") as [|[]| | | | | |].
    + destruct (is_true _); set_solver.
Qed.

(** C25: What an analysis leads to.  An article is completed only when every stage
    is behind it: a summary that is neither empty nor a challenge page, at least
    one category, and the verdict that it is no advertisement, each from before
    or stored now; a stage is marked done only together with its product, with
    confidences between zero and one, and one done before is not written again;
    an article is rejected only as an advertisement or for a terminal error; and
    an outcome that is not completed names its error. *)
Theorem AnalyzeOutcome_sound analysis summaryDone categoryDone adDone :
  outcome_ok analysis summaryDone categoryDone adDone (AnalyzeOutcome analysis summaryDone categoryDone adDone).
Proof. apply AnalyzeOutcome_ok. Qed.
End Analysis.

Lemma Persist_exact_witness :
  let o := MkOutcome StateRetryWait ∅ "busy" VNull in
  let p := Persist o 1 0 (MkLimits 0 0 0) in
  pr_State p = StateRetryWait /\ pr_Attempts p = 0 /\
  (pr_State p = StateRetryWait <-> is_Some (pr_NextAttemptAt p)) /\ (forall t, pr_NextAttemptAt p = Some t -> 0 < t).
Proof.
  intros o p. assert (ou_State o ∈ [StatePending; StateRetryWait; StateCompleted; StateRejected; StateExhausted]) as Hs
    by (apply (bool_decide_eq_true (_ ∈ _)); by_eval).
  destruct (Persist_exact o 1 0 (MkLimits 0 0 0) Hs) as (H1 & H2 & _). split; [by_eval|]. split; [by_eval|]. split; [exact H1|].
  intros t Ht. by destruct (H2 t Ht).
Defined.
