(* ===== verification/ContentFilter.v ===== *)
(** * ContentFilter: which texts are worth processing

    go-processing/internal/processing: smart_filter.go and the tests of runner.go on
    extracted text.  The regular expressions are lists of pieces over the runes of
    a text; [cases.Lower] (golang.org/x/text), the MD5 sum and the categories of
    package unicode are parameters. *)

From S2P Require Import Prelude JsonStrict GoText GoDecode GoTime ExecPayload GoRune JobPayload ArticleOutcome.
From Stdlib Require Import SpecFloat.

(** The general categories [\p{L}], [\p{N}], [\p{Nd}] and [\p{Z}], with
    [cases.Lower(language.Und)] and [md5.Sum]. *)
Class TextTables := {
  is_letter : Z -> bool;
  is_number : Z -> bool;
  is_decimal_digit : Z -> bool;
  is_separator : Z -> bool;
  lower : string -> string;
  md5 : list Z -> list Z;
}.

(** ** Regular expressions *)

Inductive re :=
  | Exactly (n : nat) (P : Z -> bool)
  | Many (least : nat) (P : Z -> bool)
  | Optional (p : list re)
  | Either (ps : list (list re)).

(** What may remain of a text after [n] characters in [P]. *)
Fixpoint eat (n : nat) (P : Z -> bool) (l : list Z) : list (list Z) :=
  match n, l with
  | O, _ => [l]
  | S n, c :: l' => if P c then eat n P l' else []
  | S _, [] => []
  end.
(** ... after any number of them, the longest match first. *)
Fixpoint eat_all (P : Z -> bool) (l : list Z) : list (list Z) :=
  match l with
  | c :: l' => if P c then eat_all P l' ++ [l] else [l]
  | [] => [l]
  end.

Fixpoint rests (r : re) (l : list Z) : list (list Z) :=
  let fix pattern (p : list re) (ls : list (list Z)) : list (list Z) :=
    match p with [] => ls | r :: p' => pattern p' (ls ≫= rests r) end in
  match r with
  | Exactly n P => eat n P l
  | Many n P => eat n P l ≫= eat_all P
  | Optional p => pattern p [l] ++ [l]
  | Either ps => (fix either ps := match ps with [] => [] | p :: ps' => pattern p [l] ++ either ps' end) ps
  end.
(** The rests after a whole pattern that begins at the head of [l], in order of preference. *)
Definition pattern_rests (p : list re) (l : list Z) : list (list Z) := foldl (fun ls r => ls ≫= rests r) [l] p.

Fixpoint suffixes {A} (l : list A) : list (list A) := l :: match l with [] => [] | _ :: l' => suffixes l' end.

(** [MatchString], without and with [^] in front and [$] behind. *)
Definition found_at_head (p : list re) (l : list Z) : bool := negb (bool_decide (pattern_rests p l = [])).
Definition matches_head_to_end (p : list re) (l : list Z) : bool := bool_decide ([] ∈ pattern_rests p l).
Definition matches (p : list re) (s : string) : bool := existsb (found_at_head p) (suffixes (runes s)).

(** [FindAllStringIndex(s, -1)], as the texts before and after each match. *)
Fixpoint find_all (fuel : nat) (p : list re) (before l : list Z) : list (list Z * list Z) :=
  match fuel with
  | O => []
  | S fuel =>
      match pattern_rests p l with
      | r :: _ =>
          let n := (length l - length r)%nat in
          (before, r) :: (if (n =? 0)%nat then match l with [] => [] | c :: l' => find_all fuel p (before ++ [c]) l' end
                          else find_all fuel p (before ++ take n l) r)
      | [] => match l with [] => [] | c :: l' => find_all fuel p (before ++ [c]) l' end
      end
  end.
Definition FindAll (p : list re) (s : string) : list (list Z * list Z) := find_all (S (length (runes s))) p [] (runes s).

Definition lit (s : string) : list re := map (fun c => Exactly 1 (Z.eqb c)) (runes s).
Definition words (l : list string) : re := Either (map lit l).
(** A letter under [(?i)] *)
Definition folded (s : string) : list re :=
  map (fun c => Exactly 1 (fun x => (x =? c) || (between 97 122 c && (x =? c - 32)) || ((c =? 107) && (x =? 8490)) || ((c =? 115) && (x =? 383)))) (runes s).

(** ** Texts *)

(** [strings.Fields] *)
Fixpoint fields_of (word : list Z) (cs : list (list Z)) : list string :=
  let flush := match word with [] => [] | _ => [string_of word] end in
  match cs with
  | [] => flush
  | c :: cs' => if bool_decide (c ∈ space_seqs) then flush ++ fields_of [] cs' else fields_of (word ++ c) cs'
  end.
Definition Fields (s : string) : list string := fields_of [] (rune_chunks (bytes_of s)).

(** [strings.Split] at a text that is not empty, and [strings.Count] *)
Fixpoint split_at (fuel : nat) (sep piece l : list Z) : list (list Z) :=
  match fuel with
  | O => [piece]
  | S fuel =>
      match strip_prefix sep l with
      | Some r => piece :: split_at fuel sep [] r
      | None => match l with [] => [piece] | c :: l' => split_at fuel sep (piece ++ [c]) l' end
      end
  end.
Definition Split (s sep : string) : list string := map string_of (split_at (S (length (bytes_of s))) (bytes_of sep) [] (bytes_of s)).
Definition Count (s sub : string) : Z := Z.of_nat (length (Split s sub)) - 1.

Definition HasPrefix (s p : string) : bool := has_prefix (bytes_of p) (bytes_of s).
Definition HasSuffix (s p : string) : bool := has_prefix (rev (bytes_of p)) (rev (bytes_of s)).

(** [strings.TrimRight(s, " .→\n\t")] *)
Definition trim_ending (s : string) : string :=
  string_of (rev (trim_left (length (bytes_of s)) [[32]; [46]; [146; 134; 226]; [10]; [9]] (rev (bytes_of s)))).

Definition dec (m e : Z) : spec_float := float_of_decimal m e.
Definition div (a b : Z) : spec_float := SFdiv 53 1024 (binary64 a) (binary64 b).
Definition times (a : Z) (f : spec_float) : spec_float := SFmul 53 1024 (binary64 a) f.
Definition plus (a b : spec_float) : spec_float := SFadd 53 1024 a b.
Definition minus (a b : spec_float) : spec_float := SFsub 53 1024 a b.

(** ["%.2f"] of a value in [0, 1]: the exact value to the nearest hundredth, ties to even *)
Definition round_half_even (n d : Z) : Z :=
  let q := n / d in let r := n mod d in
  if 2 * r <? d then q else if d <? 2 * r then q + 1 else if Z.even q then q else q + 1.
Definition hundredths (f : spec_float) : Z :=
  match f with
  | S754_finite _ m e => if 0 <=? e then Zpos m * 2 ^ e * 100 else round_half_even (Zpos m * 100) (2 ^ (- e))
  | _ => 0
  end.
Definition formatTwoDecimals (f : spec_float) : string :=
  let n := hundredths f in itoa (n / 100) +:+ "." +:+ itoa (n / 10 mod 10) +:+ itoa (n mod 10).

(** ** smart_filter.go *)

Section Filter.
Context `{TextTables}.

Definition filterMinContent := 10.
Definition filterMaxContent := 50000.
Definition filterMinTitle := 10.

(** [[\p{Z}\t\n\r\f\v]] *)
Definition space (c : Z) : bool := is_separator c || between 9 13 c.
Definition spaces : re := Many 1 space.
Definition some_spaces : re := Many 0 space.
Definition isPythonWordRune (c : Z) : bool := (c =? 95) || is_letter c || is_number c.

Definition metadataMinuteRead : list re := [Many 1 is_decimal_digit; spaces] ++ lit "min" ++ [spaces] ++ lit "read".
Definition metadataMonthDay : list re :=
  [words ["jan"; "feb"; "mar"; "apr"; "may"; "jun"; "jul"; "aug"; "sep"; "oct"; "nov"; "dec"]; spaces; Exactly 2 is_decimal_digit].
Definition metadataDateRead : list re :=
  [some_spaces; Exactly 3 isPythonWordRune; spaces; Exactly 2 is_decimal_digit; spaces; Many 0 (fun c => negb (c =? 10)); Many 1 is_decimal_digit;
   spaces] ++ lit "min" ++ [spaces] ++ lit "read" ++ [some_spaces].
Definition metadataSubscribe : list re := lit "subscribe" ++ [spaces; words ["now"; "here"; "today"]].
Definition metadataShare : list re := lit "share" ++ [spaces; words ["this"; "on"; "now"]].
Definition metadataShareRu := "poделиться".
Definition metadataSubscribeRu := "подписаться".
(** The first one is anchored at both ends. *)
Definition metadataNavWhole : list re :=
  [some_spaces; words ["home"; "главная"; "news"; "новости"; "about"; "о нас"; "contact"; "контакты"]; some_spaces].
Definition metadataNavPrefix : list (list re) :=
  [[some_spaces; words ["menu"; "меню"; "navigation"; "навигация"]; some_spaces];
   [some_spaces; words ["cookie"; "куки"]; spaces; words ["policy"; "политика"]];
   [some_spaces; words ["privacy"; "конфиденциальность"]; spaces; words ["policy"; "политика"]];
   [some_spaces; words ["terms"; "условия"]; spaces; words ["of service"; "использования"]];
   [some_spaces; words ["404"; "error"; "ошибка"]; some_spaces]].
Definition metadataSpamPhrasePatterns : list string :=
  ["click here"; "кликни здесь"; "жми сюда"; "buy now"; "купи сейчас"; "заказать сейчас"; "free download"; "бесплатно скачать";
   "limited time"; "ограниченное время"; "act now"; "действуй сейчас"].
Definition personalServicePatterns : list (list re) :=
  [lit "я" ++ [spaces] ++ lit "программист"; lit "мой" ++ [spaces] ++ lit "опыт"; lit "моя" ++ [spaces] ++ lit "компания";
   lit "предлагаю" ++ [spaces] ++ lit "услуги"; lit "обращайтесь" ++ [spaces] ++ lit "по" ++ [spaces] ++ lit "телефону";
   lit "консультаци" ++ [words ["и"; "я"]; spaces] ++ lit "по" ++ [spaces] ++ lit "телефону"; lit "специализируюсь";
   lit "оказываю" ++ [spaces] ++ lit "услуги"; lit "свяжитесь" ++ [spaces] ++ lit "со" ++ [spaces] ++ lit "мной"].
Definition extractionSkipDomains : list string := ["t.me"; "telegram.me"; "twitter.com"; "x.com"; "instagram.com"].

(** The characters around a match are no word characters. *)
Definition at_boundaries (m : list Z * list Z) : bool :=
  (match last m.1 with Some c => negb (isPythonWordRune c) | None => true end) &&
  (match m.2 with c :: _ => negb (isPythonWordRune c) | [] => true end).

(** The loop over the occurrences of the phrase; one may begin inside another. *)
Fixpoint phrase_in (phrase before l : list Z) : bool :=
  (match strip_prefix phrase l with Some r => at_boundaries (before, r) | None => false end) ||
  match l with [] => false | c :: l' => phrase_in phrase (before ++ [c]) l' end.
Definition containsUnicodeWordPhrase (text phrase : string) : bool := phrase_in (runes phrase) [] (runes text).
Definition matchesPythonWordBoundaryPattern (text : string) (p : list re) : bool := existsb at_boundaries (FindAll p text).

Definition isNavigationContent (text : string) : bool :=
  matches_head_to_end metadataNavWhole (runes text) || existsb (fun p => found_at_head p (runes text)) metadataNavPrefix.

Definition russian (r : Z) : bool := between 1072 1103 r || between 1040 1071 r || (r =? 1105) || (r =? 1025).
Definition english (r : Z) : bool := between 97 122 r || between 65 90 r.
Definition count_if (P : Z -> bool) (l : list Z) : Z := Z.of_nat (length (filter (fun r => P r = true) l)).
Definition isTargetLanguage (content : string) : bool :=
  let cyrillic := count_if russian (runes content) in
  let total := cyrillic + count_if english (runes content) in
  if total <? 50 then true
  else let ratio := div cyrillic total in SFleb (dec 3 (-1)) ratio || SFleb ratio (dec 1 (-1)).

(** ["!{2}!{3,}"] *)
Definition isSpamContent (text : string) : bool :=
  existsb (containsUnicodeWordPhrase text) metadataSpamPhrasePatterns || Contains text "$$$" ||
  matches [Exactly 2 (Z.eqb 33); Many 3 (Z.eqb 33)] text.

(** The number of different texts in a list, as the size of a map they are keys of. *)
Definition distinct (l : list string) : Z := Z.of_nat (length (remove_dups l)).

Definition isMetadataContent (content : string) : bool :=
  if (content =? "")%string then false
  else
    let text := lower (TrimSpace content) in
    matches metadataMinuteRead text || matches metadataMonthDay text || matches_head_to_end metadataDateRead (runes text) ||
    matchesPythonWordBoundaryPattern text metadataSubscribe || containsUnicodeWordPhrase text metadataSubscribeRu ||
    matchesPythonWordBoundaryPattern text metadataShare || containsUnicodeWordPhrase text metadataShareRu ||
    ((RuneCount (TrimSpace content) <? 100) &&
     (let words := Fields content in
      (5 <? Z.of_nat (length words)) && SFltb (div (distinct (map lower words)) (Z.of_nat (length words))) (dec 6 (-1)))).

Fixpoint upper_run (run : Z) (l : list Z) : bool :=
  match l with
  | [] => false
  | r :: l' => if between 65 90 r then if 10 <=? run + 1 then true else upper_run (run + 1) l' else upper_run 0 l'
  end.
Definition containsTenASCIIUpper (s : string) : bool := upper_run 0 (runes s).

(** What a score gains from the content, its source and what it loses. *)
Definition sentence_bonus (n : Z) (score : spec_float) : spec_float :=
  if (3 <=? n) && (n <=? 50) then plus score (dec 15 (-2)) else if 50 <? n then plus score (dec 5 (-2)) else score.
Definition word_bonus (n : Z) (score : spec_float) : spec_float :=
  if (50 <=? n) && (n <=? 2000) then plus score (dec 1 (-1)) else if 2000 <? n then plus score (dec 5 (-2)) else score.
Definition source_bonus (sourceType : string) (score : spec_float) : spec_float :=
  if (sourceType =? "rss")%string then plus score (dec 5 (-2)) else if (sourceType =? "telegram")%string then plus score (dec 2 (-2))
  else if (sourceType =? "extraction")%string then plus score (dec 1 (-1)) else score.
Definition content_bonus (content : string) (score : spec_float) : spec_float :=
  if (content =? "")%string then score
  else
    let score := sentence_bonus (Z.of_nat (length (FindAll [Many 1 (fun c => bool_decide (c ∈ [46; 33; 63]))] content))) score in
    let paragraphs := filter (fun p => negb (blank p) = true) (Split content (string_of [10; 10])) in
    let score := if 2 <=? Z.of_nat (length paragraphs) then plus score (dec 1 (-1)) else score in
    word_bonus (Z.of_nat (length (Fields content))) score.

Definition scoreQuality (title content sourceType : string) : spec_float :=
  let score := dec 5 (-1) in
  let score := if negb (title =? "")%string && (20 <? RuneCount (TrimSpace title)) then plus score (dec 1 (-1)) else score in
  let score := source_bonus sourceType (content_bonus content score) in
  let score := if containsTenASCIIUpper content then minus score (dec 1 (-1)) else score in
  let score := if 3 <? Z.of_nat (length (FindAll [Many 2 (Z.eqb 33)] content)) then minus score (dec 1 (-1)) else score in
  let text := lower (title +:+ " " +:+ content) in
  let score := foldl (fun score p => if matches p text then minus score (dec 3 (-1)) else score) score personalServicePatterns in
  if SFltb score (binary64 0) then binary64 0 else if SFltb (binary64 1) score then binary64 1 else score.

Definition extractionURLPrefix (rawURL : string) : bool := HasPrefix rawURL "http://" || HasPrefix rawURL "https://".
Definition hasExtractionSkipDomain (rawURL : string) : bool := existsb (Contains (lower rawURL)) extractionSkipDomains.

Definition reasonNeedsExtraction (reason : string) : bool :=
  let reason := lower reason in
  Contains reason "needs extraction" || Contains reason "content too short" || Contains reason "metadata/low-quality content detected".

(** The reason a short teaser is sent to extraction, if it is one. *)
Definition suspiciously_short (title content : string) : option string :=
  let wordCount := Z.of_nat (length (Fields content)) in
  let charCount := RuneCount (TrimSpace content) in
  let counts := itoa charCount +:+ " chars, " +:+ itoa wordCount +:+ " words)" in
  if (charCount <? 300) && (wordCount <? 50) then
    if (5 <=? Z.of_nat (length (Fields title))) && (charCount <? 200) then
      Some ("Content suspiciously short (" +:+ counts +:+ " for detailed title (needs extraction)")
    else if charCount <? 150 then Some ("Content very short (" +:+ counts +:+ " - likely RSS summary (needs extraction)")
    else None
  else None.

Definition shouldProcess (title content rawURL sourceType : string) (allowExtraction : bool) : bool * string :=
  let contentLength := RuneCount (TrimSpace content) in
  if (content =? "")%string || (contentLength <? filterMinContent) || (filterMaxContent <? contentLength) then
    (false, "Content too short (" +:+ itoa (RuneCount content) +:+ " chars < 10)")
  else if filterMaxContent <? RuneCount content then
    (false, "Content too long (" +:+ itoa (RuneCount content) +:+ " chars > 50000)")
  else if (title =? "")%string || (RuneCount (TrimSpace title) <? filterMinTitle) then
    (false, "Title too short or low quality (" +:+ itoa (RuneCount title) +:+ " chars)")
  else
    let text := lower (title +:+ " " +:+ content) in
    if isNavigationContent text then (false, "Navigation/boilerplate content detected")
    else if negb (isTargetLanguage content) then (false, "Content not in target language (Russian/English)")
    else if isSpamContent text then (false, "Spam patterns detected")
    else
      let metadata := isMetadataContent content in
      let extractable := allowExtraction && extractionURLPrefix rawURL in
      let skipped := hasExtractionSkipDomain rawURL in
      if metadata && extractable && skipped then (false, "Metadata/low-quality content detected (non-extractable URL)")
      else if metadata && negb extractable then (false, "Metadata/low-quality content detected (no extraction possible)")
      else match (if extractable && negb skipped then suspiciously_short title content else None) with
           | Some reason => (false, reason)
           | None =>
               let quality := scoreQuality title content sourceType in
               if metadata && extractable && negb skipped then (false, "Metadata/low-quality content detected (needs extraction)")
               else if SFltb quality (if (sourceType =? "extraction")%string then dec 35 (-2) else dec 4 (-1)) then
                 (false, "Content quality too low (score: " +:+ formatTwoDecimals quality +:+ ")")
               else (true, "Passed all filters (quality: " +:+ formatTwoDecimals quality +:+ ")")
           end.

(** ** The cache of recent texts *)

Record duplicateCacheEntry := MkCacheEntry { de_seenAt : Z; de_owner : option Z }.
Record DuplicateCache := MkDuplicateCache { dc_recent : gmap string duplicateCacheEntry; dc_window : Z }.
Definition NewDuplicateCache : DuplicateCache := MkDuplicateCache ∅ (24 * Hour).

Definition contentHash (content : string) : string := string_of (hex_encode (md5 (bytes_of (lower (TrimSpace content))))).
Definition window_of (c : DuplicateCache) : Z := if dc_window c <=? 0 then 24 * Hour else dc_window c.

(** [hash, duplicate, cacheHit] *)
Definition Lookup (c : DuplicateCache) (content : string) (articleID now : Z) : (string * bool * bool) * DuplicateCache :=
  if (TrimSpace content =? "")%string then (("", false, false), c)
  else
    let w := window_of c in
    let recent := filter (fun kv => now - w < de_seenAt kv.2) (dc_recent c) in
    let hash := contentHash content in
    (match recent !! hash with
     | None => (hash, false, false)
     | Some entry => (hash, negb ((0 <? articleID) && bool_decide (de_owner entry = Some articleID)), true)
     end, MkDuplicateCache recent w).

Definition Remember (c : DuplicateCache) (hash : string) (owner : option Z) (now : Z) : DuplicateCache :=
  if (hash =? "")%string then c else MkDuplicateCache (<[hash := MkCacheEntry now owner]> (dc_recent c)) (window_of c).
End Filter.

(** ** Extracted text *)

(** What [url.Parse] makes of a text: the scheme, [Hostname()], [Port()] and the path. *)
Record url_parts := UrlParts { u_Scheme : string; u_Hostname : string; u_Port : string; u_Path : string }.
Class Urls := { url_parse : string -> option url_parts }.

Section Extraction.
Context `{Unicode} `{Urls}.

Definition in_domain (host d : string) : bool := (host =? d)%string || HasSuffix host ("." +:+ d).

Definition ExtractableURL (raw : string) : bool :=
  match url_parse raw with
  | None => false
  | Some u =>
      if (negb (u_Scheme u =? "http")%string && negb (u_Scheme u =? "https")%string) || (u_Hostname u =? "")%string then false
      else
        let host := ToLower (u_Hostname u) in
        if existsb (in_domain host)
             ["t.me"; "telegram.me"; "twitter.com"; "x.com"; "instagram.com"; "maps.app.goo.gl"; "maps.google.com"; "maps.google.ru"; "2gis.ru";
              "2gis.com"; "waze.com"; "play.google.com"; "apps.apple.com"] then false
        else negb (Contains (ToLower (u_Path u)) "/maps" &&
                   ((host =? "google.com")%string || (host =? "google.ru")%string || HasSuffix host ".google.com" || HasSuffix host ".google.ru" ||
                    Contains host "yandex"))
  end.

Definition scientificTitleFallback (title rawURL : string) : bool :=
  if RuneCount (TrimSpace title) <=? 20 then false
  else match url_parse rawURL with
       | None => false
       | Some u => negb (u_Hostname u =? "")%string &&
                   existsb (in_domain (ToLower (u_Hostname u))) ["nplus1.ru"; "arxiv.org"; "nature.com"; "sciencedirect.com"]
       end.

(** Whether the text exceeds the limit ([ErrResourceLimit]) *)
Definition EnforceTextLimit (s : string) (maxChars : Z) : bool := (if maxChars <? 1 then 100000 else maxChars) <? RuneCount s.

Definition isSummarySourceType (sourceType : string) : bool := bool_decide (sourceType ∈ ["rss"; "custom"; "telegram"]).

Definition consent_markers : list string :=
  ["включить javascript и файлы cookie"; "проверки безопасности"; "является ли пользователь ботом"; "just a moment";
   "checking if the site connection is secure"; "enable javascript and cookies"; "attention required";
   "checking your browser before accessing"; "before you continue to google"; "согласие на использование файлов cookie";
   "consent to the use of cookies"; "we use cookies and data to"; "uses cookies to deliver its services";
   "cookies help us deliver our services"; "javascript is not available"; "javascript не доступен"; "требуется включить javascript"].
Definition isShortBotOrConsentContent (content : string) : bool :=
  (RuneCount (TrimSpace content) <? 500) && existsb (Contains (ToLower content)) consent_markers.

(** [\s] and [\d] of Go's regular expressions *)
Definition re_space (c : Z) : bool := bool_decide (c ∈ [9; 10; 12; 13; 32]).
Definition re_digit (c : Z) : bool := between 48 57 c.
Definition subscriptionPricePattern : list re :=
  lit "$" ++ [Many 0 re_space; Many 1 re_digit; Optional (lit "." ++ [Many 1 re_digit]); Many 0 re_space] ++ lit "/" ++
  [Many 0 re_space; Either [folded "year"; folded "month"; folded "week"]].

Definition paywall (lower : string) : bool :=
  Contains (string_of (take 100 (bytes_of lower))) "membership" && (2 <=? Z.of_nat (length (FindAll subscriptionPricePattern lower))) &&
  (2 <=? Count lower "billed annually") && Contains lower "cancel anytime" && HasSuffix (trim_ending lower) "continue with free".

Definition navIndicators : list string :=
  ["menu"; "navigation"; "footer"; "sidebar"; "advertisement"; "cookie"; "subscribe"; "newsletter"; "copyright"; "all rights reserved";
   "terms of service"; "privacy policy"; "follow us"; "social media"].
Definition error_pages : list string :=
  ["404 not found"; "page not found"; "access denied"; "error 404"; "error 500"; "internal server error"; "page not available";
   "content not found"; "please enable javascript"; "javascript is required"].

Definition long_words (n : Z) (words : list string) : list string := map ToLower (filter (fun w => n <? RuneCount w = true) words).
Definition occurrences (w : string) (l : list string) : Z := Z.of_nat (length (filter (fun x => x = w) l)).

Definition isGoodExtractionContent (content : string) (maxChars : Z) : bool :=
  if (content =? "")%string || EnforceTextLimit content maxChars then false
  else if isShortBotOrConsentContent content then false
  else if paywall (ToLower content) then false
  else if RuneCount (TrimSpace content) <? 200 then false
  else
    let words := Fields content in
    let count := Z.of_nat (length words) in
    let ratio := div count (Z.max (RuneCount content) 1) in
    if SFltb ratio (dec 5 (-2)) || SFltb (dec 5 (-1)) ratio then false
    else
      let sentences := filter (fun s => 10 <? RuneCount s = true) (map TrimSpace (Split content ".")) in
      if Z.of_nat (length sentences) <? 2 then false
      else if SFltb (div (foldr Z.add 0 (map RuneCount sentences)) (Z.of_nat (length sentences))) (binary64 15) || (count <? 10) then false
      else if SFltb (div (distinct (long_words 3 words)) count) (dec 3 (-1)) then false
      else
        let nav := count_if (fun b => b =? 1) (map (fun w => if existsb (Contains (ToLower w)) navIndicators then 1 else 0) words) in
        if SFltb (times count (dec 1 (-1))) (binary64 nav) then false
        else if existsb (fun w => SFltb (times count (dec 15 (-2))) (binary64 (occurrences w (long_words 4 words)))) (long_words 4 words) then false
        else negb (existsb (Contains (ToLower (TrimSpace content))) error_pages).

Definition hasMediaFiles (raw : json) : bool := match raw with JArr (_ :: _) => true | _ => false end.

Definition articleExtractionMethod (method : string) : string :=
  if bool_decide (method ∈ ["source_content"; "enhanced_selectors"; "readability"; "browser_rendering"; "browser_heuristics";
     "fallback_extraction"; "json_ld"; "open_graph"; "meta_description"; "enhanced_heuristics"; "reddit_json"; "reddit_linked_article";
     "learned_pattern_browser_rendering"; "learned_pattern_browser_heuristics"]) then method else "fallback_extraction".

(** The code matches [^[a-z0-9_-]+$] and has forty bytes at most. *)
Definition callbackErrorCode (code : string) : string :=
  if (len code <=? 40) && negb (code =? "")%string &&
     forallb (fun c => between 97 122 c || between 48 57 c || (c =? 95) || (c =? 45)) (bytes_of code) then code else "extractor_failed".

Definition shouldFallbackSummary (analysis : option (gmap string value)) : bool :=
  match analysis with
  | None => false
  | Some a =>
      if is_true (member a "is_advertisement") then false
      else if negb (as_string (member a "_processing_error") =? "")%string then false
      else let summary := as_string (member a "summary") in blank summary || IsChallengeText summary
  end.
End Extraction.

(** ** The score stays between zero and one *)

#[local] Instance spec_float_eq_dec : EqDecision spec_float.
Proof. solve_decision. Defined.

(** Scores are sums of few constants, so all of them can be listed. *)
Definition either_way (f : spec_float -> spec_float) (l : list spec_float) : list spec_float := remove_dups (l ++ map f l).
Definition any_of (fs : list (spec_float -> spec_float)) (l : list spec_float) : list spec_float := remove_dups (l ++ (f ← fs; map f l)).

Lemma either_way_in f s l (b : bool) : s ∈ l -> (if b then f s else s) ∈ either_way f l.
Proof.
  intros Hs. unfold either_way. apply elem_of_remove_dups, elem_of_app. destruct b; [right|by left]. by apply list_elem_of_fmap_2.
Qed.
Lemma any_of_same fs s l : s ∈ l -> s ∈ any_of fs l.
Proof. intros Hs. unfold any_of. apply elem_of_remove_dups, elem_of_app. by left. Qed.
Lemma any_of_in fs f s l : f ∈ fs -> s ∈ l -> f s ∈ any_of fs l.
Proof.
  intros Hf Hs. unfold any_of. apply elem_of_remove_dups, elem_of_app. right. apply list_elem_of_bind. exists f. split; [|done].
  by apply list_elem_of_fmap_2.
Qed.

Definition add (m e : Z) (s : spec_float) : spec_float := plus s (dec m e).
Definition sub (m e : Z) (s : spec_float) : spec_float := minus s (dec m e).
Definition base_scores : list spec_float :=
  either_way (sub 1 (-1)) (either_way (sub 1 (-1)) (any_of [add 5 (-2); add 2 (-2); add 1 (-1)] (any_of [add 1 (-1); add 5 (-2)]
    (either_way (add 1 (-1)) (any_of [add 15 (-2); add 5 (-2)] (either_way (add 1 (-1)) [dec 5 (-1)])))))).
Fixpoint penalised (n : nat) (l : list spec_float) : list spec_float :=
  match n with O => l | S n => penalised n (either_way (sub 3 (-1)) l) end.
Definition comparable (s : spec_float) : bool :=
  (SFltb s (binary64 0) || SFleb (binary64 0) s) && (SFltb (binary64 1) s || SFleb s (binary64 1)).

Lemma scores_comparable : forallb comparable (penalised 9 base_scores) = true.
Proof. by_eval. Qed.

Section Scores.
Context `{TextTables}.

Lemma content_bonus_in content s l : s ∈ l ->
  content_bonus content s ∈ any_of [add 1 (-1); add 5 (-2)] (either_way (add 1 (-1)) (any_of [add 15 (-2); add 5 (-2)] l)).
Proof.
  intros Hs. unfold content_bonus. destruct (content =? "")%string.
  - apply any_of_same. apply (either_way_in _ _ _ false). by apply any_of_same.
  - set (n := Z.of_nat (length (FindAll _ _))). set (b := 2 <=? _). set (m := Z.of_nat _).
    assert (sentence_bonus n s ∈ any_of [add 15 (-2); add 5 (-2)] l) as H1.
    { unfold sentence_bonus. destruct (_ && _); [apply (any_of_in _ (add 15 (-2))); [left|done]|].
      destruct (50 <? n); [apply (any_of_in _ (add 5 (-2))); [right; left|done]|by apply any_of_same]. }
    apply (either_way_in (add 1 (-1)) _ _ b) in H1. unfold word_bonus.
    destruct (_ && _); [apply (any_of_in _ (add 1 (-1))); [left|exact H1]|].
    destruct (2000 <? m); [apply (any_of_in _ (add 5 (-2))); [right; left|exact H1]|by apply any_of_same].
Qed.

Lemma source_bonus_in sourceType s l : s ∈ l -> source_bonus sourceType s ∈ any_of [add 5 (-2); add 2 (-2); add 1 (-1)] l.
Proof.
  intros Hs. unfold source_bonus. destruct (sourceType =? "rss")%string; [apply (any_of_in _ (add 5 (-2))); [left|done]|].
  destruct (sourceType =? "telegram")%string; [apply (any_of_in _ (add 2 (-2))); [right; left|done]|].
  destruct (sourceType =? "extraction")%string; [apply (any_of_in _ (add 1 (-1))); [right; right; left|done]|by apply any_of_same].
Qed.

Lemma penalties_in text ps : forall s l, s ∈ l ->
  foldl (fun score p => if matches p text then minus score (dec 3 (-1)) else score) s ps ∈ penalised (length ps) l.
Proof. induction ps as [|p ps IH]; intros s l Hs; [done|]. cbn [foldl length penalised]. apply IH. by apply (either_way_in (sub 3 (-1))). Qed.

Definition in_unit (s : spec_float) : bool := SFleb (binary64 0) s && SFleb s (binary64 1).

Lemma scoreQuality_unit title content sourceType : in_unit (scoreQuality title content sourceType) = true.
Proof.
  unfold scoreQuality. cbv zeta. set (s := foldl _ _ _).
  assert (s ∈ penalised 9 base_scores) as Hin.
  { apply (penalties_in _ personalServicePatterns). apply (either_way_in (sub 1 (-1))), (either_way_in (sub 1 (-1))), source_bonus_in, content_bonus_in,
      (either_way_in (add 1 (-1))). left. }
  pose proof (proj1 (forallb_forall comparable (penalised 9 base_scores)) scores_comparable s (proj1 (list_elem_of_In _ _) Hin)) as Hc.
  unfold comparable in Hc. unfold in_unit. destruct (SFltb s (binary64 0)); [done|]. destruct (SFltb (binary64 1) s); [done|].
  cbn [orb] in Hc. exact Hc.
Qed.

(** What a text that passes is like. *)
Record worth_processing (title content sourceType : string) : Prop := {
  wp_content : filterMinContent <= RuneCount (TrimSpace content) <= filterMaxContent /\ RuneCount content <= filterMaxContent;
  wp_title : filterMinTitle <= RuneCount (TrimSpace title);
  wp_text : isNavigationContent (lower (title +:+ " " +:+ content)) = false /\ isSpamContent (lower (title +:+ " " +:+ content)) = false /\
    isTargetLanguage content = true /\ isMetadataContent content = false;
  wp_quality : SFltb (scoreQuality title content sourceType) (if (sourceType =? "extraction")%string then dec 35 (-2) else dec 4 (-1)) = false /\
    in_unit (scoreQuality title content sourceType) = true;
}.

(** What the smart filter lets through.  A text passes only if it has ten to
    fifty thousand characters and a title of ten, is in a language the service
    works on, is neither navigation nor spam nor metadata, is no teaser of an
    article that could still be extracted, and has a quality of at least the
    threshold; the quality is always a number between zero and one. *)
Theorem shouldProcess_sound title content rawURL sourceType allowExtraction reason :
  shouldProcess title content rawURL sourceType allowExtraction = (true, reason) ->
  worth_processing title content sourceType /\
  (allowExtraction = true -> extractionURLPrefix rawURL = true -> hasExtractionSkipDomain rawURL = false -> suspiciously_short title content = None).
Proof.
  unfold shouldProcess. destruct (_ || _ || _) eqn:E1; [done|]. destruct (filterMaxContent <? RuneCount content) eqn:E2; [done|].
  destruct (_ || (RuneCount (TrimSpace title) <? _)) eqn:E3; [done|]. cbv zeta.
  destruct (isNavigationContent _) eqn:E4; [done|]. destruct (negb (isTargetLanguage content)) eqn:E5; [done|].
  destruct (isSpamContent _) eqn:E6; [done|]. set (ex := allowExtraction && extractionURLPrefix rawURL).
  destruct (isMetadataContent content && ex && _) eqn:E7; [done|]. destruct (isMetadataContent content && negb ex) eqn:E8; [done|].
  destruct (if ex && negb _ then _ else None) eqn:E9; [done|]. destruct (isMetadataContent content && ex && negb _) eqn:E10; [done|].
  destruct (SFltb _ _) eqn:E11; [done|]. intros _. split.
  - assert (isMetadataContent content = false) as Hm by (by destruct (isMetadataContent content), ex, (hasExtractionSkipDomain rawURL)).
    apply negb_false_iff in E5. bool_to_prop. split; [unfold filterMinContent, filterMaxContent in *; lia|unfold filterMinTitle in *; lia|by split_and!|].
    split; [done|apply scoreQuality_unit].
  - intros -> Hp Hs. unfold ex in E9. rewrite Hp, Hs in E9. exact E9.
Qed.

(** A text that is too long is reported, and extracted again, as too short. *)
Lemma too_long_reported_short title content rawURL sourceType allowExtraction :
  filterMaxContent < RuneCount (TrimSpace content) ->
  shouldProcess title content rawURL sourceType allowExtraction = (false, "Content too short (" +:+ itoa (RuneCount content) +:+ " chars < 10)").
Proof.
  intros Hl. unfold shouldProcess. replace (filterMaxContent <? RuneCount (TrimSpace content)) with true by (symmetry; by apply Z.ltb_lt).
  by rewrite orb_true_r.
Qed.
End Scores.

(** ** The cache against the history of a whole process *)

Section CacheHistory.
Context `{TextTables}.

Inductive cache_op :=
  | OpLookup (content : string) (articleID now : Z)
  | OpRemember (hash : string) (owner : option Z) (now : Z).
Definition op_time (op : cache_op) : Z := match op with OpLookup _ _ t | OpRemember _ _ t => t end.

Fixpoint cache_run (c : DuplicateCache) (ops : list cache_op) : list (string * bool * bool) :=
  match ops with
  | [] => []
  | OpLookup content id now :: ops => let '(answer, c) := Lookup c content id now in answer :: cache_run c ops
  | OpRemember hash owner now :: ops => cache_run (Remember c hash owner now) ops
  end.

(** The reference keeps everything that was ever remembered, the latest first. *)
Notation log := (list (string * duplicateCacheEntry)).
Definition latest (hash : string) (l : log) : option duplicateCacheEntry := snd <$> find (fun kv => (kv.1 =? hash)%string) l.
Definition ideal_answer (l : log) (content : string) (articleID now : Z) : string * bool * bool :=
  if blank content then ("", false, false)
  else let hash := contentHash content in
       match latest hash l with
       | Some e => if now - 24 * Hour <? de_seenAt e then (hash, negb ((0 <? articleID) && bool_decide (de_owner e = Some articleID)), true)
                   else (hash, false, false)
       | None => (hash, false, false)
       end.
Fixpoint ideal_run (l : log) (ops : list cache_op) : list (string * bool * bool) :=
  match ops with
  | [] => []
  | OpLookup content id now :: ops => ideal_answer l content id now :: ideal_run l ops
  | OpRemember hash owner now :: ops => ideal_run (if (hash =? "")%string then l else (hash, MkCacheEntry now owner) :: l) ops
  end.

(** The cache holds the latest entries, and none that could still be asked for is missing. *)
Record cache_ok (c : DuplicateCache) (l : log) (now : Z) : Prop := {
  co_window : dc_window c = 24 * Hour;
  co_latest : forall h e, dc_recent c !! h = Some e -> latest h l = Some e;
  co_kept : forall h e, latest h l = Some e -> now - 24 * Hour < de_seenAt e -> dc_recent c !! h = Some e;
}.

Lemma day_positive : 24 * Hour <=? 0 = false.
Proof. by_eval. Qed.
Lemma cache_window_of c l now : cache_ok c l now -> window_of c = 24 * Hour.
Proof. intros [Hw _ _]. unfold window_of. by rewrite Hw, day_positive. Qed.

Lemma cache_ok_later c l t t' : t <= t' -> cache_ok c l t -> cache_ok c l t'.
Proof. intros Ht [H1 H2 H3]. split; [done|done|]. intros h e Hl He. apply H3; [done|lia]. Qed.

Lemma Lookup_ok c l content id t now : t <= now -> cache_ok c l t ->
  (Lookup c content id now).1 = ideal_answer l content id now /\ cache_ok (Lookup c content id now).2 l now.
Proof.
  intros Ht Hc. pose proof (cache_window_of _ _ _ Hc) as Hw. apply (cache_ok_later _ _ _ now Ht) in Hc as [H1 H2 H3].
  unfold Lookup, ideal_answer, blank. destruct (TrimSpace content =? "")%string; [by split|]. cbv zeta. rewrite Hw.
  set (recent := filter _ _). assert (forall h, recent !! h = (e ← latest h l; if now - 24 * Hour <? de_seenAt e then Some e else None)) as Hr.
  { intros h. apply option_eq. intros e. unfold recent. rewrite map_lookup_filter_Some. cbn [snd]. split.
    - intros [Hh He]. rewrite (H2 _ _ Hh). cbn. by rewrite (proj2 (Z.ltb_lt _ _)).
    - destruct (latest h l) as [e'|] eqn:E; [|done]. cbn. destruct (Z.ltb_spec (now - 24 * Hour) (de_seenAt e')); [|done]. intros [= <-]. auto. }
  split.
  - cbn [fst]. rewrite Hr. destruct (latest _ l) as [e|]; [|done]. cbn. by destruct (_ <? _).
  - split; cbn [snd dc_window dc_recent]; [done| |].
    + intros h e. rewrite Hr. destruct (latest h l) as [e'|]; [|done]. cbn. by destruct (_ <? _).
    + intros h e He Hn. rewrite Hr, He. cbn. by rewrite (proj2 (Z.ltb_lt _ _)).
Qed.

Lemma Remember_ok c l hash owner t now : t <= now -> cache_ok c l t ->
  cache_ok (Remember c hash owner now) (if (hash =? "")%string then l else (hash, MkCacheEntry now owner) :: l) now.
Proof.
  intros Ht Hc. pose proof (cache_window_of _ _ _ Hc) as Hw. apply (cache_ok_later _ _ _ now Ht) in Hc as [H1 H2 H3].
  unfold Remember. destruct (hash =? "")%string; [by split|]. rewrite Hw.
  split; cbn [dc_window dc_recent]; [done| |]; intros h e; unfold latest; cbn [find fst]; destruct (String.eqb_spec hash h) as [->|Hn].
  - by rewrite lookup_insert_eq.
  - rewrite lookup_insert_ne by done. apply H2.
  - by rewrite lookup_insert_eq.
  - rewrite lookup_insert_ne by done. apply H3.
Qed.

(** C26: The cache forgets nothing it may still be asked for.  Over any history of
    lookups and entries in order of time, the answers of the cache, which drops
    entries as they expire, are those of a full history: a text is a duplicate
    exactly when its latest entry is less than a day old and does not belong to
    the asking article. *)
Theorem duplicates_exact ops :
  StronglySorted Z.le (map op_time ops) -> cache_run NewDuplicateCache ops = ideal_run [] ops.
Proof.
  assert (forall c l t, cache_ok c l t -> StronglySorted Z.le (t :: map op_time ops) -> cache_run c ops = ideal_run l ops) as Hrun.
  { induction ops as [|op ops IH]; intros c l t Hc Hs; [done|]. cbn [map] in Hs. apply StronglySorted_inv in Hs as [Hs Ht].
    apply Forall_cons in Ht as [Ht _]. destruct op as [content id now|hash owner now]; cbn [op_time cache_run ideal_run] in *.
    - destruct (Lookup_ok c l content id t now Ht Hc) as [Ha Hok]. destruct (Lookup c content id now) as [answer c']. cbn in Ha, Hok.
      f_equal; [done|]. by apply (IH _ _ now).
    - apply (IH _ _ now); [by apply (Remember_ok _ _ _ _ t)|done]. }
  intros Hs. destruct ops as [|op ops]; [done|]. apply (Hrun _ _ (op_time op)).
  - split; [done|by intros h e|done].
  - cbn [map] in *. constructor; [done|]. apply StronglySorted_inv in Hs as [_ Hs]. constructor; [lia|done].
Qed.
End CacheHistory.

(** ** Witnesses *)

Module FilterSample.
#[local] Instance ascii : TextTables := {
  is_letter c := between 65 90 c || between 97 122 c; is_number := between 48 57; is_decimal_digit := between 48 57; is_separator c := c =? 32;
  lower s := string_of (map lower_byte (bytes_of s)); md5 l := take 16 l;
}.
Definition title := "The city council approved a new bridge".
Definition content :=
  "The council of the city approved the plan on Monday. The bridge will cross the river next to the old one. Work begins in spring.".
Definition history : list cache_op :=
  [OpLookup content 1 0; OpRemember (contentHash content) (Some 1) 1; OpLookup content 1 2; OpLookup content 2 3;
   OpLookup content 2 (24 * Hour + 1)].
End FilterSample.
#[local] Existing Instance FilterSample.ascii.

Lemma shouldProcess_sound_witness :
  let r := shouldProcess FilterSample.title FilterSample.content "https://a.example/1" "rss" false in
  r = (true, "Passed all filters (quality: 0.80)") /\ worth_processing FilterSample.title FilterSample.content "rss".
Proof.
  assert (shouldProcess FilterSample.title FilterSample.content "https://a.example/1" "rss" false =
    (true, "Passed all filters (quality: 0.80)")) as E by by_eval.
  split; [exact E|]. exact (proj1 (shouldProcess_sound _ _ _ _ _ _ E)).
Defined.

Lemma duplicates_exact_witness :
  cache_run NewDuplicateCache FilterSample.history = ideal_run [] FilterSample.history /\
  map (fun r => (r.1.2, r.2)) (cache_run NewDuplicateCache FilterSample.history) = [(false, false); (false, true); (true, true); (false, false)].
Proof.
  split; [|by_eval]. apply duplicates_exact. repeat constructor; vm_compute; discriminate.
Defined.
