(* ===== verification/MediaFiles.v ===== *)
(** * MediaFiles: the media an article's text refers to

    go-processing/internal/processing/media.go.  Text that is not UTF-8 is read
    as if every invalid byte were U+FFFD.  What package net/url makes of
    references is a parameter. *)

From S2P Require Import Prelude GoText GoDecode GoRune JobPayload ContentFilter.

(** [base.ResolveReference(relative).String()], nothing when one of the two texts
    is no URL, and [EscapedPath()]. *)
Class References := {
  url_resolve : string -> string -> option string;
  url_escaped_path : string -> option string;
}.

(** ** Patterns with one group *)

Definition encode_rune (c : Z) : list Z :=
  if c <? 128 then [c]
  else if c <? 2048 then [192 + c / 64; 128 + c mod 64]
  else if c <? 65536 then [224 + c / 4096; 128 + c / 64 mod 64; 128 + c mod 64]
  else [240 + c / 262144; 128 + c / 4096 mod 64; 128 + c / 64 mod 64; 128 + c mod 64].
Definition text_of (l : list Z) : string := string_of (concat (map encode_rune l)).

Record pattern := Pattern { pt_before : list re; pt_group : list re; pt_after : list re }.

(** The groups and rests of the matches at the head of a text, in order of preference. *)
Definition submatches_at (p : pattern) (l : list Z) : list (list Z * list Z) :=
  l1 ← pattern_rests (pt_before p) l; l2 ← pattern_rests (pt_group p) l1; r ← pattern_rests (pt_after p) l2;
  [(take (length l1 - length l2) l1, r)].

(** [FindAllStringSubmatch(s, -1)]: each match and its group.  No pattern here
    matches the empty text. *)
Fixpoint find_submatches (fuel : nat) (p : pattern) (l : list Z) : list (string * string) :=
  match fuel with
  | O => []
  | S fuel =>
      match submatches_at p l with
      | (group, r) :: _ => (text_of (take (length l - length r) l), text_of group) :: find_submatches fuel p r
      | [] => match l with [] => [] | _ :: l' => find_submatches fuel p l' end
      end
  end.
Definition FindAllSubmatch (p : pattern) (s : string) : list (string * string) := find_submatches (S (length (runes s))) p (runes s).

Definition quote_mark (c : Z) : bool := (c =? 34) || (c =? 39).
Definition equals_quote : list re := [Many 0 re_space] ++ lit "=" ++ [Many 0 re_space; Exactly 1 quote_mark].
Definition no_end (c : Z) : bool := negb (c =? 62).

(** A tag with a quoted attribute, which is the group *)
Definition tag_pattern (tag attribute : string) : pattern :=
  Pattern (folded ("<" +:+ tag) ++ [Many 1 no_end] ++ folded attribute ++ equals_quote)
    [Many 1 (fun c => negb (quote_mark c))] ([Exactly 1 quote_mark; Many 0 no_end] ++ lit ">").

Definition mediaImageTagRE : pattern := tag_pattern "img" "src".
Definition mediaVideoTagRE : pattern := tag_pattern "video" "src".
Definition mediaSourceTagRE : pattern := tag_pattern "source" "src".
Definition mediaLinkTagRE : pattern := tag_pattern "a" "href".
Definition mediaAltRE : pattern := Pattern (folded "alt" ++ equals_quote) [Many 0 (fun c => negb (quote_mark c))] [Exactly 1 quote_mark].

(** [[a-zA-Z0-9]] under [(?i)]: the Kelvin sign and the long s fold to letters. *)
Definition id_char (c : Z) : bool := between 48 57 c || between 65 90 c || between 97 122 c || (c =? 8490) || (c =? 383).
Definition video_pattern (host : string) (id : re) : pattern :=
  Pattern (folded "http" ++ [Optional (folded "s")] ++ lit "://" ++ [Optional (folded "www" ++ lit ".")] ++ folded host) [id] [].
Definition mediaEmbedREs : list pattern :=
  [video_pattern "youtube.com/watch?v=" (Many 1 (fun c => id_char c || (c =? 95) || (c =? 45)));
   video_pattern "youtu.be/" (Many 1 (fun c => id_char c || (c =? 95) || (c =? 45)));
   video_pattern "vimeo.com/" (Many 1 re_digit);
   video_pattern "dailymotion.com/video/" (Many 1 id_char)].

Definition mediaImageExtensions : list string := [".jpg"; ".jpeg"; ".png"; ".gif"; ".webp"; ".svg"; ".bmp"; ".tiff"; ".ico"].
Definition mediaVideoExtensions : list string := [".mp4"; ".avi"; ".mov"; ".webm"; ".mkv"; ".flv"; ".wmv"; ".m4v"].
Definition mediaDocumentExtensions : list string := [".pdf"; ".doc"; ".docx"; ".xls"; ".xlsx"; ".ppt"; ".pptx"; ".txt"; ".rtf"].

Section Media.
Context `{Unicode} `{References}.

Definition absolute (url : string) : bool := HasPrefix url "http://" || HasPrefix url "https://".

Definition resolveMediaURL (raw baseURL : string) : string :=
  if negb (baseURL =? "")%string && negb (absolute raw) then default raw (url_resolve baseURL raw) else raw.

Definition mediaElementURL (raw baseURL : string) : string :=
  let src := TrimSpace raw in
  if (src =? "")%string || HasPrefix src "data:" then "" else resolveMediaURL src baseURL.

Definition matchingMediaExtension (raw : string) (extensions : list string) : string :=
  match url_escaped_path raw with
  | None => ""
  | Some path => default "" (find (HasSuffix (ToLower path)) extensions)
  end.

Definition hasMediaLinkSkipPrefix (raw : string) : bool := existsb (HasPrefix raw) ["mailto:"; "tel:"; "#"; "javascript:"].

Notation item := (list (string * value)).
Definition media_url (i : item) : string := match vget i "url" with Some (VStr s) => s | _ => "" end.

(** The extension without its dot *)
Definition extension_name (ext : string) : string := default ext (string_of <$> strip_prefix [46] (bytes_of ext)).

Definition image_item (content_url : string) (m : string * string) : list item :=
  let src := TrimSpace m.2 in
  if (src =? "")%string || HasPrefix src "data:" then []
  else
    let src := resolveMediaURL src content_url in
    let alt := match FindAllSubmatch mediaAltRE m.1 with a :: _ => a.2 | [] => "" end in
    let ext := matchingMediaExtension src mediaImageExtensions in
    [[("url", VStr src); ("type", VStr "image");
      ("media_type", VStr (if (ext =? "")%string then "image" else "image/" +:+ extension_name ext)); ("alt_text", VStr alt); ("source", VStr "img_tag")]].

Definition element_item (source baseURL : string) (m : string * string) : list item :=
  let src := mediaElementURL m.2 baseURL in
  if (src =? "")%string then [] else [[("url", VStr src); ("type", VStr "video"); ("media_type", VStr "video"); ("source", VStr source)]].

Definition embed_item (m : string * string) : item :=
  [("url", VStr m.1); ("type", VStr "video"); ("media_type", VStr "video/embed"); ("source", VStr "embedded_video")].

Definition link_item (baseURL : string) (m : string * string) : list item :=
  let href := TrimSpace m.2 in
  if (href =? "")%string || hasMediaLinkSkipPrefix href then []
  else
    let href := resolveMediaURL href baseURL in
    let typed kind ext := [[("url", VStr href); ("type", VStr kind); ("media_type", VStr (kind +:+ "/" +:+ extension_name ext)); ("source", VStr "href_link")]] in
    let image := matchingMediaExtension href mediaImageExtensions in
    let video := matchingMediaExtension href mediaVideoExtensions in
    let document := matchingMediaExtension href mediaDocumentExtensions in
    if negb (image =? "")%string then typed "image" image
    else if negb (video =? "")%string then typed "video" video
    else if negb (document =? "")%string then typed "document" document
    else [].

(** The first item of each absolute URL *)
Fixpoint dedup (seen : list string) (media : list item) : list item :=
  match media with
  | [] => []
  | i :: media' =>
      let raw := media_url i in
      if (raw =? "")%string || negb (absolute raw) || bool_decide (raw ∈ seen) then dedup seen media' else i :: dedup (raw :: seen) media'
  end.
Definition deduplicateMediaURLs (media : list item) : list item := dedup [] media.

Definition extractMediaFiles (content baseURL : string) : list item :=
  if (content =? "")%string then []
  else deduplicateMediaURLs
    ((FindAllSubmatch mediaImageTagRE content ≫= image_item baseURL) ++
     (FindAllSubmatch mediaVideoTagRE content ≫= element_item "video_tag" baseURL) ++
     (FindAllSubmatch mediaSourceTagRE content ≫= element_item "source_tag" baseURL) ++
     (mediaEmbedREs ≫= fun p => map embed_item (FindAllSubmatch p content)) ++
     (FindAllSubmatch mediaLinkTagRE content ≫= link_item baseURL)).

(** ** What is extracted *)

(** An item names an absolute URL and one of three types. *)
Definition media_item (i : item) : Prop :=
  absolute (media_url i) = true /\ media_url i <> "" /\ exists kind, vget i "type" = Some (VStr kind) /\ kind ∈ ["image"; "video"; "document"].

Lemma dedup_spec media : forall seen,
  Forall (fun i => absolute (media_url i) = true /\ media_url i <> "" /\ i ∈ media /\ media_url i ∉ seen) (dedup seen media) /\
  NoDup (map media_url (dedup seen media)).
Proof.
  induction media as [|i media IH]; intros seen; cbn [dedup]; [by split; constructor|].
  destruct (_ || _ || bool_decide _) eqn:E.
  - destruct (IH seen) as [H1 H2]. split; [|done]. eapply Forall_impl; [exact H1|]. intros x Hx. cbn beta in *. set_solver.
  - apply orb_false_iff in E as [E E3%bool_decide_eq_false]. apply orb_false_iff in E as [E1%String.eqb_neq E2%negb_false_iff].
    destruct (IH (media_url i :: seen)) as [Hf Hn]. split.
    + constructor; [set_solver|]. eapply Forall_impl; [exact Hf|]. intros x Hx. cbn beta in *. set_solver.
    + cbn [map]. constructor; [|done]. intros (x & Hx & Hin)%list_elem_of_fmap. rewrite Forall_forall in Hf. destruct (Hf x Hin) as (_ & _ & _ & Hs).
      apply Hs. rewrite Hx. left.
Qed.

Lemma deduplicated media i : i ∈ deduplicateMediaURLs media -> absolute (media_url i) = true /\ media_url i <> "" /\ i ∈ media.
Proof.
  intros Hi. destruct (dedup_spec media []) as [Hd _]. rewrite Forall_forall in Hd. destruct (Hd i Hi) as (? & ? & ? & _). auto.
Qed.

Lemma typed_items content baseURL i :
  i ∈ extractMediaFiles content baseURL -> exists kind, vget i "type" = Some (VStr kind) /\ kind ∈ ["image"; "video"; "document"].
Proof.
  unfold extractMediaFiles. destruct (content =? "")%string; [by intros ?%elem_of_nil|]. intros (_ & _ & Hin)%deduplicated.
  rewrite !elem_of_app, !list_elem_of_bind in Hin. destruct Hin as [(m & Hin & _)|[(m & Hin & _)|[(m & Hin & _)|[(m & Hin & _)|(m & Hin & _)]]]].
  - unfold image_item in Hin. cbv zeta in Hin. destruct (_ || _); [exfalso; exact (proj1 (elem_of_nil _) Hin)|]. rewrite list_elem_of_singleton in Hin; subst i. exists "image". split; [exact eq_refl|left].
  - unfold element_item in Hin. cbv zeta in Hin. destruct (_ =? _)%string; [exfalso; exact (proj1 (elem_of_nil _) Hin)|]. rewrite list_elem_of_singleton in Hin; subst i. exists "video". split; [exact eq_refl|right; left].
  - unfold element_item in Hin. cbv zeta in Hin. destruct (_ =? _)%string; [exfalso; exact (proj1 (elem_of_nil _) Hin)|]. rewrite list_elem_of_singleton in Hin; subst i. exists "video". split; [exact eq_refl|right; left].
  - apply list_elem_of_fmap in Hin as (x & -> & _). exists "video". split; [exact eq_refl|right; left].
  - unfold link_item in Hin. cbv zeta in Hin. destruct (_ || _); [exfalso; exact (proj1 (elem_of_nil _) Hin)|].
    repeat (destruct (negb _); [rewrite list_elem_of_singleton in Hin; subst i; eexists; split; [exact eq_refl|set_solver]|]). exfalso; exact (proj1 (elem_of_nil _) Hin).
Qed.

(** Every item is one the store's readers can use, and no URL comes twice. *)
Theorem extractMediaFiles_sound content baseURL :
  Forall media_item (extractMediaFiles content baseURL) /\ NoDup (map media_url (extractMediaFiles content baseURL)).
Proof.
  split.
  - apply Forall_forall. intros i Hi. unfold media_item. pose proof (typed_items _ _ _ Hi) as Ht. revert Hi. unfold extractMediaFiles.
    destruct (content =? "")%string; [by intros ?%elem_of_nil|]. intros (? & ? & _)%deduplicated. auto.
  - unfold extractMediaFiles. destruct (content =? "")%string; [constructor|]. apply dedup_spec.
Qed.
End Media.

(** ** An example *)

Module MediaSample.
#[local] Instance ascii : Unicode := {
  ToLower s := string_of (map lower_byte (bytes_of s)); unicode_Latin := between 65 122; unicode_Cyrillic := between 1024 1279
}.
#[local] Instance plain : References := {
  url_resolve base r := Some (base +:+ r); url_escaped_path s := Some s
}.
Definition content : string :=
  "<p><IMG class='x' src='/a.PNG' alt='A'><a href='https://b.example/c.pdf'>c</a> https://youtu.be/x_1 <img src='/a.PNG'></p>".
Example extracted : map (fun i => (media_url i, vget i "media_type")) (extractMediaFiles content "https://a.example") =
  [("https://a.example/a.PNG", Some (VStr "image/png")); ("https://youtu.be/x_1", Some (VStr "video/embed"));
   ("https://b.example/c.pdf", Some (VStr "document/pdf"))].
Proof. by_eval. Qed.
End MediaSample.
