(* ===== verification/ScheduledJobs.v ===== *)
(** * ScheduledJobs: the endpoint that receives the scheduler's occurrences

    [acceptScheduledJob] of go-web/internal/httpui/management.go with what it
    calls: [Service.AcceptScheduledJob] of management/management.go, the readiness
    check of management/readiness.go and the intake of JobIntake.v.  Its client is
    the dispatcher of Dispatcher.v, and the theorems are about the pair: what the
    dispatcher concludes from an answer is true of the tables of the intake.

    Arguments: the request as net/http presents it, with the bounded read of its
    body, and what the private backend answers when asked for its readiness.
    Cancelled contexts are among the driver faults of the session. *)

From Stdlib Require Import Floats.SpecFloat.
From S2P Require Import Prelude JsonStrict GoTime Db GoText GoDecode GoParseTime Calendar GoRune.
From S2P Require SchedulerStore Dispatcher ExecutorClient.
From S2P Require Import ExecPayload JobPayload JobIntake.

(** ** Requests and answers *)

Record job_request := JobRequest {
  jr_Authorization : string;
  jr_ContentType : string;
  jr_ContentEncoding : string;
  jr_IdempotencyKey : string;
  jr_ContentLength : Z;
  jr_body : http_body;
}.

Record job_response := JobResponse { js_status : Z; js_retry_after : string; js_body : json }.

Definition writeJSON (status : Z) (data : json) : job_response := JobResponse status "" data.
Definition writeProblem (status : Z) (detail : string) : job_response :=
  writeJSON status (JObj [("detail", JStr detail)]).

(** The management handler's configuration, with what its service was given. *)
Record receiver := MkReceiver {
  rv_Token : string;
  rv_WorkerMode : bool;
  rv_DispatchMode : string;
  rv_ReceiptLimit : Z;
  rv_jobs : bool;
  rv_preflight : bool;
}.

(** ** Tokens *)

(** [for i := range a { diff |= a[i] ^ b[i] }]: [i] runs over the characters of
    [a], not over its bytes *)
Fixpoint range_diff (fuel : nat) (a b : list Z) (diff : Z) : Z :=
  match fuel, a, b with
  | S fuel, x :: _, y :: _ =>
      let w := rune_width a in range_diff fuel (drop w a) (drop w b) (Z.lor diff (Z.lxor x y))
  | _, _, _ => diff
  end.

Definition secureEqual (a b : string) : bool :=
  if negb (len a =? len b) then false
  else range_diff (length (bytes_of a)) (bytes_of a) (bytes_of b) 0 =? 0.

(** ** The envelope *)

Record scheduledJobWire := MkWire {
  wi_Version : Z;
  wi_OccurrenceID : string;
  wi_ScheduleKey : string;
  wi_ScheduleRevision : Z;
  wi_ScheduledFor : string;
  wi_Operation : string;
  wi_Payload : gomap;
}.

Definition wire_fields : list string :=
  ["version"; "occurrence_id"; "schedule_key"; "schedule_revision"; "scheduled_for"; "operation"; "payload"].

(** Decoding into a [map[string]any]: a map that is there keeps its entries, and
    [UseNumber] keeps the literals of numbers. *)
Definition as_map (old : gomap) (v : json) : option gomap :=
  match v with
  | JNull => Some None
  | JObj ms => m ← foldl (fun r kv => acc ← r; x ← go_any Some kv.2; Some (upsert kv.1 x acc)) (Some (default [] old)) ms; Some (Some m)
  | _ => None
  end.

Definition set_wire_field (f : string) (v : json) (w : scheduledJobWire) : option scheduledJobWire :=
  let 'MkWire ver id key rev at_ op p := w in
  if (f =? "version")%string then x ← ExecutorClient.as_int ver v; Some (MkWire x id key rev at_ op p)
  else if (f =? "occurrence_id")%string then x ← ExecutorClient.as_string id v; Some (MkWire ver x key rev at_ op p)
  else if (f =? "schedule_key")%string then x ← ExecutorClient.as_string key v; Some (MkWire ver id x rev at_ op p)
  else if (f =? "schedule_revision")%string then x ← ExecutorClient.as_int rev v; Some (MkWire ver id key x at_ op p)
  else if (f =? "scheduled_for")%string then x ← ExecutorClient.as_string at_ v; Some (MkWire ver id key rev x op p)
  else if (f =? "operation")%string then x ← ExecutorClient.as_string op v; Some (MkWire ver id key rev at_ x p)
  else x ← as_map p v; Some (MkWire ver id key rev at_ op x).

(** [x.Float64()] of a literal, its error dropped *)
Definition number_float (lit : string) : spec_float :=
  match parse_decimal lit with
  | Some (neg, m, e) => let f := float_of_decimal m e in if neg : bool then SFopp f else f
  | None => S754_zero false
  end.

Fixpoint normalizeJSONNumbers (v : json) : value :=
  match v with
  | JNull => VNull
  | JBool b => VBool b
  | JNum lit => match ParseInt lit with Some n => VInt n | None => VFloat (number_float lit) end
  | JStr s => VStr s
  | JArr l => VArr (map normalizeJSONNumbers l)
  | JObj l => VObj (map (fun kv => (kv.1, normalizeJSONNumbers kv.2)) l)
  end.

(** The strict reading of the body, and the tests on it. *)
Definition read_wire (b : http_body) : option scheduledJobWire :=
  if hasDuplicateJSONKeys (bd_lexemes b) (bd_ending b) then None
  else match decode_next (bd_lexemes b) (bd_ending b) with
       | Err _ => None
       | Ok (j, rest) =>
           match decode_struct wire_fields set_wire_field (MkWire 0 "" "" 0 "" "" None) j with
           | None => None
           | Some wire =>
               match decode_next rest (bd_ending b) with
               | Err EofErr => match wi_Payload wire with None => None | Some _ => Some wire end
               | _ => None
               end
           end
       end.

Definition wire_command (rv : receiver) (key : string) (wire : scheduledJobWire) : OccurrenceCommand :=
  MkOccurrenceCommand (wi_Version wire) (wi_OccurrenceID wire) (wi_ScheduleKey wire) (wi_ScheduleRevision wire)
    (wi_ScheduledFor wire) (wi_Operation wire)
    ((map (fun kv => (kv.1, normalizeJSONNumbers kv.2))) <$> wi_Payload wire)
    key (rv_WorkerMode rv) (rv_DispatchMode rv) (rv_ReceiptLimit rv).

(** ** Readiness *)

Record readiness := MkReadiness {
  cf_AI : bool;
  cf_Telegram : bool;
  cf_Viber : bool;
  cf_Processing : option bool;
  cf_Delivery : option bool;
}.

Definition as_bool_ptr (v : json) : option (option bool) :=
  match v with JNull => Some None | JBool b => Some (Some b) | _ => None end.

Definition set_readiness_field (f : string) (v : json) (s : readiness) : option readiness :=
  let 'MkReadiness ai tg vb pr de := s in
  if (f =? "ai_configured")%string then x ← ExecutorClient.as_bool ai v; Some (MkReadiness x tg vb pr de)
  else if (f =? "telegram_configured")%string then x ← ExecutorClient.as_bool tg v; Some (MkReadiness ai x vb pr de)
  else if (f =? "viber_configured")%string then x ← ExecutorClient.as_bool vb v; Some (MkReadiness ai tg x pr de)
  else if (f =? "processing_enabled")%string then x ← as_bool_ptr v; Some (MkReadiness ai tg vb x de)
  else x ← as_bool_ptr v; Some (MkReadiness ai tg vb pr x).

(** What [reader.Configuration(ctx, "GET", "readiness", nil)] returns: the text of
    an answer, or an error. *)
Notation readiness_answer := (option (list lexeme * ending)).

Definition read_readiness (answer : readiness_answer) : option readiness :=
  '(input, fin) ← answer;
  match decode_next input fin, fin with
  | Ok (j, []), AtEof =>
      unmarshal_struct ["ai_configured"; "telegram_configured"; "viber_configured"; "processing_enabled"; "delivery_enabled"]
        set_readiness_field (MkReadiness false false false None None) j
  | _, _ => None
  end.

(** [needsAI] and [needsTelegram] *)
Definition job_needs (kind : string) (payload : option (list (string * value))) : bool * bool :=
  if bool_decide (kind ∈ ["news_processing"; "article_reprocess"; "reprocess_failed"; "summaries_generate"]) then (true, false)
  else if (kind =? "news_digest")%string then
    (true, match vget (default [] payload) "send_telegram" with Some (VBool send) => send | _ => true end)
  else if (kind =? "telegram_digest")%string then (false, true)
  else (false, false).

Inductive service_error :=
| ErrAdapterUnavailable
| APIError (Status : Z) (Detail : string)
| JobsError (e : jobs_error).

Notation unavailable := (APIError 503 "Integration configuration unavailable").

Definition configuration_preflight (answer : readiness_answer) (kind : string) (payload : option (list (string * value))) :
    result service_error unit :=
  let '(needsAI, needsTelegram) := job_needs kind payload in
  if negb needsAI && negb needsTelegram then Ok tt
  else match read_readiness answer with
  | None => Err unavailable
  | Some state =>
      let disabled := bool_decide (cf_Processing state = Some false) in
      _ ← guard_err (disabled && bool_decide (kind ∈ ["article_reprocess"; "reprocess_failed"]))
            (APIError 409 "Article processing is disabled");
      let needsAI := needsAI && negb (disabled && (kind =? "news_processing")%string) in
      _ ← guard_err (needsTelegram && bool_decide (cf_Delivery state = Some false)) (APIError 409 "Delivery is disabled");
      _ ← guard_err (needsAI && negb (cf_AI state)) (APIError 409 "Configure AI before starting processing");
      guard_err (needsTelegram && negb (cf_Telegram state) && negb (cf_Viber state))
        (APIError 409 "Configure a delivery channel before starting delivery")
  end.

(** ** The endpoint *)

Section Endpoint.
Context `{Postgres} (sha256hex : string -> string) (float_text : string -> option string).
Context (int_of_2_63 : Z) (shortest : spec_float -> string).
Notation Accept := (AcceptOccurrence sha256hex float_text int_of_2_63 shortest).

(** [Service.AcceptScheduledJob] *)
Definition AcceptScheduledJob (rv : receiver) (answer : readiness_answer) (c : OccurrenceCommand) :
    IM (result service_error AcceptedOccurrence) :=
  if negb (rv_jobs rv) then mret (Err ErrAdapterUnavailable)
  else match ValidateOccurrence c with
  | Err _ => mret (Err (APIError 422 "invalid scheduled job envelope"))
  | Ok _ =>
      match (if rv_preflight rv then configuration_preflight answer (oc_Operation c) (oc_Payload c) else Ok tt) with
      | Err e => mret (Err e)
      | Ok _ => r ← try (Accept c); mret (match r with Ok a => Ok a | Err e => Err (JobsError e) end)
      end
  end.

(** The answer to what the service returns. *)
Definition job_answer (r : result service_error AcceptedOccurrence) : job_response :=
  match r with
  | Err (JobsError ErrIdempotencyConflict) => writeProblem 409 "occurrence content conflicts"
  | Err (JobsError ErrWorkerUnavailable) => writeProblem 503 "background worker unavailable"
  | Err (JobsError ErrQueueFull) => let x := writeProblem 503 "background queue is full" in JobResponse (js_status x) "10" (js_body x)
  | Err (APIError status detail) => writeProblem status detail
  | Err _ => writeProblem 503 "scheduled job receiver unavailable"
  | Ok accepted =>
      writeJSON (if ao_Created accepted then 202 else 200)
        (JObj [("job_id", JStr (ao_JobID accepted)); ("occurrence_id", JStr (ao_OccurrenceID accepted));
               ("status", JStr "accepted"); ("version", JNum "1")])
  end.

(** The part before the first semicolon. *)
Fixpoint before_semicolon (l : list Z) : list Z :=
  match l with [] => [] | 59 :: _ => [] | c :: l' => c :: before_semicolon l' end.

(** The refusals before the body is decoded. *)
Definition header_refusal (rv : receiver) (r : job_request) : option job_response :=
  if (rv_Token rv =? "")%string then Some (writeProblem 503 "scheduled job receiver unavailable")
  else match strip_prefix (bytes_of "Bearer ") (bytes_of (jr_Authorization r)) with
  | None => Some (writeProblem 401 "unauthorized")
  | Some token =>
      if negb (secureEqual (string_of token) (rv_Token rv)) then Some (writeProblem 401 "unauthorized")
      else if negb (EqualFold (TrimSpace (string_of (before_semicolon (bytes_of (jr_ContentType r))))) "application/json") then
        Some (writeProblem 415 "application/json required")
      else if negb (jr_ContentEncoding r =? "")%string && negb (EqualFold (jr_ContentEncoding r) "identity") then
        Some (writeProblem 415 "content encoding is not supported")
      else if 8192 <? jr_ContentLength r then Some (writeProblem 413 "scheduled job envelope too large")
      else if bd_failed (jr_body r) || (8192 <? bd_length (jr_body r)) then
        Some (writeProblem 413 "scheduled job envelope too large")
      else None
  end.

Definition acceptScheduledJob (rv : receiver) (answer : readiness_answer) (r : job_request) : IM job_response :=
  match header_refusal rv r with
  | Some x => mret x
  | None =>
      match read_wire (jr_body r) with
      | None => mret (writeProblem 422 "invalid scheduled job envelope")
      | Some wire =>
          res ← AcceptScheduledJob rv answer (wire_command rv (jr_IdempotencyKey r) wire);
          mret (job_answer res)
      end
  end.
End Endpoint.

(** ** Tokens are compared *)

Lemma string_of_bytes s : string_of (bytes_of s) = s.
Proof.
  unfold string_of, bytes_of. rewrite map_map.
  rewrite (map_ext _ (fun c => c)), map_id, String.string_of_list_ascii_of_string; [done|].
  intros c. unfold chr, ord. by rewrite Nat2Z.id, Ascii.ascii_nat_embedding.
Qed.
Lemma bytes_inj a b : bytes_of a = bytes_of b -> a = b.
Proof. intros H. by rewrite <- (string_of_bytes a), H, string_of_bytes. Qed.

Lemma rune_width_ascii x l : x < 128 -> rune_width (x :: l) = 1%nat.
Proof.
  intros Hx. unfold rune_width, between. assert (forall lo hi, 128 <= lo -> (lo <=? x) && (x <=? hi) = false) as Hno
    by (intros lo hi Hlo; apply andb_false_iff; left; apply Z.leb_gt; lia).
  rewrite !Hno by lia. cbn [andb]. repeat case_match; done.
Qed.

Lemma range_diff_zero fuel : forall a b d, range_diff fuel a b d = 0 -> d = 0.
Proof.
  induction fuel as [|fuel IH]; intros a b d; cbn [range_diff]; [done|]. destruct a as [|x a], b as [|y b]; try done.
  intros H. apply IH in H. by apply Z.lor_eq_0_iff in H as [-> _].
Qed.

Lemma range_diff_same fuel : forall a, range_diff fuel a a 0 = 0.
Proof.
  induction fuel as [|fuel IH]; intros a; cbn [range_diff]; [done|]. destruct a as [|x a]; [done|].
  rewrite Z.lxor_nilpotent. apply IH.
Qed.

Lemma range_diff_ascii fuel : forall a b, length a = length b -> (length a <= fuel)%nat ->
  Forall (fun c => 0 <= c < 128) b -> range_diff fuel a b 0 = 0 -> a = b.
Proof.
  induction fuel as [|fuel IH]; intros a b Hl Hf Hb H; [destruct a, b; simpl in *; by try lia|].
  destruct a as [|x a], b as [|y b]; try done. cbn [range_diff] in H. apply Forall_cons_1 in Hb as [Hy Hb].
  pose proof (range_diff_zero _ _ _ _ H) as Hd. rewrite Z.lor_0_l in Hd. apply Z.lxor_eq in Hd as ->.
  rewrite rune_width_ascii, Z.lxor_nilpotent in H by lia. f_equal.
  injection Hl as Hl. cbn [length] in Hf. cbn [drop] in H. apply IH; [done|lia|done|exact H].
Qed.

Definition ascii (s : string) : Prop := Forall (fun c => 0 <= c < 128) (bytes_of s).

(** A token of ASCII characters is matched by itself only. *)
Lemma secureEqual_ascii a b : ascii b -> secureEqual a b = true <-> a = b.
Proof.
  intros Hb. unfold secureEqual, len. destruct (Z.eqb_spec (Z.of_nat (String.length a)) (Z.of_nat (String.length b))) as [Hl|Hl]; cbn [negb].
  - rewrite Z.eqb_eq. split; [|intros ->; apply range_diff_same]. intros H. apply bytes_inj.
    eapply range_diff_ascii; [|done|exact Hb|exact H]. rewrite !length_bytes_of. lia.
  - split; [done|]. by intros ->.
Qed.

(** Not so for others: of a longer character only the first byte is compared. *)
Example secureEqual_multibyte :
  secureEqual (string_of [195; 168]) (string_of [195; 169]) = true /\ string_of [195; 168] <> string_of [195; 169].
Proof. split; [by_eval|discriminate]. Qed.

(** ** What the dispatcher sends *)

(** The headers and the body of [Dispatcher.send]; the payload's members come in
    the order of the text, which no reader depends on. *)
Definition occurrence_json (e : SchedulerStore.Envelope) (payload : list (string * json)) : json :=
  JObj [("version", JNum (itoa (SchedulerStore.env_Version e))); ("occurrence_id", JStr (SchedulerStore.env_OccurrenceID e));
        ("schedule_key", JStr (SchedulerStore.env_ScheduleKey e));
        ("schedule_revision", JNum (itoa (SchedulerStore.env_ScheduleRevision e)));
        ("scheduled_for", JStr (rfc3339nano (SchedulerStore.env_ScheduledFor e)));
        ("operation", JStr (SchedulerStore.env_Operation e)); ("payload", JObj payload)].

Definition dispatch_request (token : string) (e : SchedulerStore.Envelope) (payload : list (string * json)) (n : Z) : job_request :=
  JobRequest ("Bearer " +:+ token) "application/json" "" (SchedulerStore.env_OccurrenceID e) n
    (HttpBody false n (lex_of (occurrence_json e payload)) AtEof).

(** The command the endpoint makes of it. *)
Definition sent_command (rv : receiver) (e : SchedulerStore.Envelope) (payload : list (string * json)) : OccurrenceCommand :=
  MkOccurrenceCommand (SchedulerStore.env_Version e) (SchedulerStore.env_OccurrenceID e) (SchedulerStore.env_ScheduleKey e)
    (SchedulerStore.env_ScheduleRevision e) (rfc3339nano (SchedulerStore.env_ScheduledFor e)) (SchedulerStore.env_Operation e)
    (Some (map (fun kv => (kv.1, normalizeJSONNumbers kv.2)) payload))
    (SchedulerStore.env_OccurrenceID e) (rv_WorkerMode rv) (rv_DispatchMode rv) (rv_ReceiptLimit rv).

(** An occurrence of the scheduler: its store keeps microseconds, and the rest is
    what [newUUID] and [ValidateResource] give. *)
Record sendable (e : SchedulerStore.Envelope) : Prop := {
  sn_version : SchedulerStore.env_Version e = 1;
  sn_id : canonicalUUID (SchedulerStore.env_OccurrenceID e) = true;
  sn_key : schedulePattern (SchedulerStore.env_ScheduleKey e) = true;
  sn_revision : 1 <= SchedulerStore.env_ScheduleRevision e < 2 ^ 63;
  sn_micro : SchedulerStore.env_ScheduledFor e mod 1000 = 0;
  sn_year : 0 <= c_year (local_date (FixedZone 0) (SchedulerStore.env_ScheduledFor e)) < 10000;
  sn_operation : SchedulerStore.env_Operation e ∈ ["news_processing"; "news_digest"; "telegram_digest"; "backup"; "reprocess_failed"];
}.

Lemma strip_zeros_length l : (length (strip_zeros l) <= length l)%nat.
Proof. destruct (strip_zeros_spec l) as [k Hk]. rewrite Hk at 2. rewrite length_app. lia. Qed.

Lemma fraction_micro n : n mod 1000 = 0 -> 0 <= n < 10 ^ 9 ->
  fraction n = [] \/ exists ds, fraction n = 46 :: ds /\ Forall (fun d => is_digit d = true) ds /\ (1 <= length ds <= 6)%nat.
Proof.
  intros Hm Hn. destruct (fraction_is_text n Hn) as [[-> _]|(d & ds & E & Hd & _)]; [by left|right]. exists (d :: ds).
  split; [done|]. split; [done|]. split; [cbn [length]; lia|]. clear Hd.
  assert (digit (n / 10 ^ 0) = 48 /\ digit (n / 10 ^ 1) = 48 /\ digit (n / 10 ^ 2) = 48) as (E0 & E1 & E2).
  { unfold digit. change (10 ^ 0) with 1. change (10 ^ 1) with 10. change (10 ^ 2) with 100. clear -Hm. dlia. }
  unfold fraction in E. cbn [map] in E. rewrite E0, E1, E2 in E. cbn [rev app] in E.
  change (strip_zeros (48 :: 48 :: 48 :: ?l)) with (strip_zeros l) in E.
  match type of E with context [strip_zeros ?l] => pose proof (strip_zeros_length l) as Hle end.
  rewrite <- length_rev in Hle. destruct (rev (strip_zeros _)) as [|x l]; [done|]. injection E as -> ->. cbn [length] in *. lia.
Qed.

Lemma match_shape_digits k l r : length l = k -> Forall (fun d => is_digit d = true) l ->
  match_shape (repeat 100 k) (l ++ r) = Some r.
Proof.
  revert l. induction k as [|k IH]; intros [|x l] Hl Hd; try done. apply Forall_cons_1 in Hd as [Hx Hd].
  cbn [repeat app match_shape]. rewrite Hx. cbn [Z.eqb Pos.eqb]. apply IH; [by injection Hl|done].
Qed.
Lemma match_shape_app s1 s2 l : match_shape (s1 ++ s2) l = r ← match_shape s1 l; match_shape s2 r.
Proof.
  revert l. induction s1 as [|c s1 IH]; intros l; [done|]. destruct l as [|x l]; [done|]. cbn [app match_shape].
  destruct (if c =? 100 then _ else _); [apply IH|done].
Qed.

Lemma two_digits n : Forall (fun d => is_digit d = true) (two n).
Proof. unfold two. repeat constructor; apply digit_ok. Qed.
Lemma four_digits n : Forall (fun d => is_digit d = true) (four n).
Proof. unfold four. repeat constructor; apply digit_ok. Qed.

Lemma occurrence_time_text t : t mod 1000 = 0 -> occurrenceTimePattern (rfc3339nano t) = true.
Proof.
  intros Ht. rewrite rfc3339nano_stamp. unfold occurrenceTimePattern.
  pose proof (local_nano_bound t) as Hn. set (n := local_nano (FixedZone 0) t) in *.
  assert (n mod 1000 = 0) as Hm by (by apply local_nano_micro).
  rewrite bytes_string.
  2:{ apply Forall_app. split; [apply stamp_bytes, fraction_bytes|]. constructor; [lia|constructor]. }
  set (c := local_date (FixedZone 0) t).
  change [100; 100; 100; 100; 45; 100; 100; 45; 100; 100; 84; 100; 100; 58; 100; 100; 58; 100; 100] with
    (repeat 100 4 ++ [45] ++ repeat 100 2 ++ [45] ++ repeat 100 2 ++ [84] ++ repeat 100 2 ++ [58] ++ repeat 100 2 ++ [58] ++ repeat 100 2).
  unfold stamp, dash. fold c. rewrite <- !app_assoc. rewrite !match_shape_app.
  rewrite (match_shape_digits 4) by (done || apply four_digits). cbn [mbind option_bind].
  repeat first [rewrite match_shape_app | rewrite (match_shape_digits 2) by (done || apply two_digits); cbn [mbind option_bind]
               | progress cbn [match_shape app Z.eqb Pos.eqb mbind option_bind]].
  destruct (fraction_micro n Hm Hn) as [->|(ds & -> & Hd & Hl)]; [done|]. cbn [app].
  rewrite span_all by done. rewrite bool_decide_eq_true_2 by done. cbn [andb].
  apply andb_true_intro. split; apply Z.leb_le; lia.
Qed.

Lemma go_any_id j : unique_keys j -> go_any Some j = Some j.
Proof.
  induction j as [| | | |l IH|l IH] using json_ind; try done.
  - rewrite unique_keys_arr. intros Hu. cbn [go_any]. change (JArr l) with (JArr l).
    assert ((fix items l := match l with
                        | [] => Some []
                        | x :: l' => y ← go_any Some x; ys ← items l'; Some (y :: ys)
                        end) l = Some l) as ->; [|done].
    induction Hu as [|x l Hx Hl IHl]; [done|]. apply Forall_cons_1 in IH as [IHx IH].
    rewrite IHx by done. cbn [mbind option_bind]. by rewrite IHl.
  - rewrite unique_keys_obj. intros [Hnd Hu]. cbn [go_any].
    enough (forall acc, NoDup (acc ++ l).*1 -> (fix members acc l := match l with
                        | [] => Some acc
                        | (k, v) :: l' => y ← go_any Some v; members (upsert k y acc) l'
                        end) acc l = Some (acc ++ l)) as Hm by (by rewrite (Hm [] Hnd)).
    clear Hnd. induction Hu as [|[k v] l Hx Hl IHl]; intros acc Hnd; [by rewrite app_nil_r|].
    apply Forall_cons_1 in IH as [IHx IH]. cbn [snd] in *. rewrite IHx by done. cbn [mbind option_bind].
    rewrite fmap_app in Hnd. rewrite upsert_fresh.
    + rewrite IHl; [by rewrite <- app_assoc|done|]. rewrite <- app_assoc. by rewrite fmap_app.
    + apply NoDup_app in Hnd as (_ & Hnd & _). intros Hk. by apply (Hnd _ Hk); left.
Qed.

Lemma as_map_members p : NoDup p.*1 -> Forall (fun kv => unique_keys kv.2) p -> as_map None (JObj p) = Some (Some p).
Proof.
  intros Hnd Hu. cbn [as_map default].
  enough (forall acc, NoDup (acc ++ p).*1 ->
    foldl (fun r kv => acc ← r; x ← go_any Some kv.2; Some (upsert kv.1 x acc)) (Some acc) p = Some (acc ++ p)) as Hm.
  { by rewrite (Hm [] Hnd). }
  clear Hnd. induction Hu as [|[k v] p Hx Hp IH]; intros acc Hnd; [by rewrite app_nil_r|].
  cbn [foldl fst snd mbind option_bind]. cbn [snd] in Hx. rewrite (go_any_id v Hx). cbn [mbind option_bind].
  rewrite fmap_app in Hnd. rewrite upsert_fresh.
  - rewrite IH; [by rewrite <- app_assoc|]. rewrite <- app_assoc. by rewrite fmap_app.
  - apply NoDup_app in Hnd as (_ & Hnd & _). intros Hk. by apply (Hnd _ Hk); left.
Qed.

Lemma envelope_unique e p : unique_keys (JObj p) -> unique_keys (occurrence_json e p).
Proof.
  intros Hp. unfold occurrence_json. apply unique_keys_obj. split; [by apply (bool_decide_eq_true _); by_eval|].
  repeat (constructor; [done|]). constructor.
Qed.

Lemma read_dispatched e p n :
  sendable e -> unique_keys (JObj p) ->
  read_wire (HttpBody false n (lex_of (occurrence_json e p)) AtEof) =
  Some (MkWire (SchedulerStore.env_Version e) (SchedulerStore.env_OccurrenceID e) (SchedulerStore.env_ScheduleKey e)
    (SchedulerStore.env_ScheduleRevision e) (rfc3339nano (SchedulerStore.env_ScheduledFor e)) (SchedulerStore.env_Operation e) (Some p)).
Proof.
  intros [Hv _ _ Hr _ _ _] Hp. unfold read_wire. cbn [bd_lexemes bd_ending].
  rewrite (proj2 (has_duplicate_iff _ _)) by (split; [done|]; eexists; split; [done|]; by apply envelope_unique).
  pose proof (decode_next_document (occurrence_json e p) [] AtEof) as Hd. rewrite app_nil_r in Hd. rewrite Hd. clear Hd.
  apply unique_keys_obj in Hp as [Hnd Hu].
  assert (decode_struct wire_fields set_wire_field (MkWire 0 "" "" 0 "" "" None) (occurrence_json e p) =
    Some (MkWire (SchedulerStore.env_Version e) (SchedulerStore.env_OccurrenceID e) (SchedulerStore.env_ScheduleKey e)
    (SchedulerStore.env_ScheduleRevision e) (rfc3339nano (SchedulerStore.env_ScheduledFor e)) (SchedulerStore.env_Operation e) (Some p))) as ->;
    [|done].
  unfold decode_struct, occurrence_json. cbn [foldl fst snd].
  assert (forall f, f ∈ wire_fields -> find_field wire_fields f = Some f) as Hf
    by (intros f Hf; unfold find_field; by rewrite bool_decide_eq_true_2).
  repeat (rewrite Hf by (unfold wire_fields; set_solver)). clear Hf. unfold set_wire_field, ExecutorClient.as_int, ExecutorClient.as_string.
  repeat first [progress cbn [mbind option_bind String.eqb Ascii.eqb Bool.eqb]|rewrite ParseInt_itoa by lia].
  by rewrite as_map_members.
Qed.

Lemma header_passes rv e p n :
  rv_Token rv <> "" -> n <= 8192 -> header_refusal rv (dispatch_request (rv_Token rv) e p n) = None.
Proof.
  intros Ht Hn. unfold header_refusal, dispatch_request.
  cbn [jr_Authorization jr_ContentType jr_ContentEncoding jr_ContentLength jr_body bd_failed bd_length].
  rewrite (proj2 (String.eqb_neq _ _) Ht).
  assert (strip_prefix (bytes_of "Bearer ") (bytes_of ("Bearer " +:+ rv_Token rv)) = Some (bytes_of (rv_Token rv))) as -> by done.
  rewrite string_of_bytes. assert (secureEqual (rv_Token rv) (rv_Token rv) = true) as ->.
  { unfold secureEqual. by rewrite Z.eqb_refl, range_diff_same. }
  assert (EqualFold (TrimSpace (string_of (before_semicolon (bytes_of "application/json")))) "application/json" = true) as -> by by_eval.
  by rewrite (proj2 (Z.ltb_ge 8192 n)) by lia.
Qed.

Lemma sent_valid rv e p : sendable e -> ValidateOccurrence (sent_command rv e p) = Ok tt.
Proof.
  intros [Hv Hi Hk Hr Hm Hy Ho]. unfold ValidateOccurrence, sent_command.
  cbn [oc_Version oc_OccurrenceID oc_IdempotencyKey oc_ScheduleKey oc_ScheduleRevision oc_ScheduledFor oc_Operation oc_Payload].
  rewrite Hv, (canonicalUUID_passes _ Hi), String.eqb_refl, Hk, (proj2 (Z.ltb_ge _ _)) by lia.
  rewrite (occurrence_time_text _ Hm), (parse_rfc3339nano_text _ Hy), (bool_decide_eq_true_2 _ Ho). done.
Qed.

(** ** What the dispatcher concludes *)

Section Settlement.
Context `{Postgres} (sha256hex : string -> string) (float_text : string -> option string).
Context (int_of_2_63 : Z) (shortest : spec_float -> string).
Context (ParseMediaType : string -> option string) (targets : gmap string Target).
Hypothesis media_type_json : ParseMediaType "application/json" = Some "application/json".
Notation Accept := (AcceptOccurrence sha256hex float_text int_of_2_63 shortest).
Notation AcceptJob := (AcceptScheduledJob sha256hex float_text int_of_2_63 shortest).
Notation endpoint := (acceptScheduledJob sha256hex float_text int_of_2_63 shortest).

(** The answer as the dispatcher reads it, [m] bytes long. *)
Definition answer_read (m : Z) (x : job_response) : Dispatcher.http_result :=
  Dispatcher.Response (js_status x) (js_retry_after x) "application/json" (HttpBody false m (lex_of (js_body x)) AtEof).

(** The occurrence is posted: its target is known and its envelope fits. *)
Definition posted (item : SchedulerStore.Claimed) : Prop :=
  is_Some (targets !! SchedulerStore.cl_TargetAlias item) /\
  len (Dispatcher.marshal_envelope (SchedulerStore.cl_Envelope item)) <= Dispatcher.maxEnvelopeBytes.

Notation verdict m x item := (Dispatcher.disposition ParseMediaType targets (answer_read m x) item).

Lemma verdict_other m x item : posted item -> js_status x <> 200 -> js_status x <> 202 -> js_status x <> 429 ->
  verdict m x item = if 500 <=? js_status x then Dispatcher.VRetry "target_unavailable" else Dispatcher.VBlock "target_rejected".
Proof.
  intros [Ht Hl] H0 H2 H4. unfold Dispatcher.disposition, answer_read. rewrite (bool_decide_eq_true_2 _ Ht).
  rewrite (proj2 (Z.ltb_ge _ _)) by done. cbn [negb]. rewrite bool_decide_eq_false_2 by lia.
  destruct (Z.leb_spec 500 (js_status x)); [by rewrite bool_decide_eq_true_2 by lia|by rewrite bool_decide_eq_false_2 by lia].
Qed.

Lemma read_accepted item m acc : m <= 8192 ->
  Dispatcher.read_receipt ParseMediaType item "application/json"
    (HttpBody false m (lex_of (js_body (job_answer (Ok acc)))) AtEof) =
  if (ao_OccurrenceID acc =? SchedulerStore.env_OccurrenceID (SchedulerStore.cl_Envelope item))%string && canonicalUUID (ao_JobID acc)
  then Some (ao_JobID acc) else None.
Proof using media_type_json.
  intros Hm. unfold Dispatcher.read_receipt. rewrite media_type_json. cbn [negb String.eqb Ascii.eqb Bool.eqb bd_failed bd_length orb].
  unfold Dispatcher.maxReceiptBytes. rewrite (proj2 (Z.ltb_ge _ _)) by done. cbn [bd_lexemes bd_ending].
  set (j := js_body _).
  assert (unique_keys j) as Hu.
  { apply unique_keys_obj. split; [by apply (bool_decide_eq_true _); by_eval|]. repeat (constructor; [done|]). constructor. }
  rewrite (proj2 (reject_iff _ _)) by (split; [done|]; by exists j).
  pose proof (decode_next_document j [] AtEof) as Hd. rewrite app_nil_r in Hd. rewrite Hd. clear Hd.
  assert (Dispatcher.decode_receipt j = Some (Dispatcher.MkReceipt 1 (ao_OccurrenceID acc) (ao_JobID acc) "accepted")) as ->.
  { unfold Dispatcher.decode_receipt, j, job_answer, writeJSON. cbn [js_body foldl fst snd].
    unfold Dispatcher.set_receipt_field. cbn [fst snd].
    assert (forall f, f ∈ Dispatcher.receipt_fields -> find_field Dispatcher.receipt_fields f = Some f) as Hf
      by (intros f Hf; unfold find_field; by rewrite bool_decide_eq_true_2).
    rewrite !Hf by (unfold Dispatcher.receipt_fields; set_solver). done. }
  cbn [decode_next Dispatcher.rcp_Version Dispatcher.rcp_OccurrenceID Dispatcher.rcp_JobID Dispatcher.rcp_Status].
  by destruct (_ =? _)%string, (canonicalUUID _).
Qed.

Lemma verdict_accepted item m acc : posted item -> m <= 8192 ->
  verdict m (job_answer (Ok acc)) item =
  if (ao_OccurrenceID acc =? SchedulerStore.env_OccurrenceID (SchedulerStore.cl_Envelope item))%string && canonicalUUID (ao_JobID acc)
  then Dispatcher.VAck (ao_JobID acc) else Dispatcher.VRetry "invalid_receipt".
Proof using media_type_json.
  intros [Ht Hl] Hm. unfold Dispatcher.disposition, answer_read. rewrite (bool_decide_eq_true_2 _ Ht).
  rewrite (proj2 (Z.ltb_ge _ _)) by done. cbn [negb]. rewrite read_accepted by done.
  rewrite bool_decide_eq_true_2 by (cbn [js_status job_answer writeJSON]; destruct (ao_Created acc); auto).
  by destruct (_ && _).
Qed.

Lemma header_refusal_status rv r x : header_refusal rv r = Some x -> js_status x ∈ [401; 413; 415; 503].
Proof.
  unfold header_refusal. intros Hx.
  repeat match type of Hx with
  | (if ?b then _ else _) = _ => destruct b
  | match strip_prefix ?p ?l with Some _ => _ | None => _ end = _ => destruct (strip_prefix p l)
  end; try done; injection Hx as <-; cbn [js_status writeProblem writeJSON]; set_solver.
Qed.

Lemma preflight_status answer kind payload e : configuration_preflight answer kind payload = Err e ->
  exists status detail, e = APIError status detail /\ (status = 409 \/ status = 503).
Proof.
  unfold configuration_preflight. destruct (job_needs kind payload) as [ai tg]. destruct (negb ai && negb tg); [done|].
  destruct (read_readiness answer) as [s|]; [|intros [= <-]; eauto]. 
  assert (forall b (e0 : service_error) (k : unit -> result service_error unit), (guard_err b e0 ≫= k) = Err e -> e0 = e \/ k tt = Err e) as Hg
    by (intros [] e0 k Hk; [left; by injection Hk|by right]).
  intros Hr. repeat (apply Hg in Hr as [<-|Hr]; [eauto|]). destruct (_ && negb (cf_Viber s)); [injection Hr as <-; eauto|done].
Qed.

(** Nothing was written: the tables are as they were, or as others left them. *)
Definition untouched (w w' : world itables) : Prop := w_db w' = w_db w \/ w_db w' = found w.

Lemma Accept_conflict c w : w_tx w = None ->
  (Accept c w).1 = Err ErrIdempotencyConflict -> w_db (Accept c w).2 = found w.
Proof.
  intros Ht. unfold AcceptOccurrence. destruct (prepare_occurrence _ _ _ c) as [call|text]; [|done].
  pose proof (Accept_outcome sha256hex float_text (oc_WorkerMode c) (oc_DispatchMode c) (oc_Operation c) call w Ht) as Ho.
  intros Hr. rewrite Hr in Ho. by destruct Ho as [[? _]|[? _]].
Qed.

(** What an answer of the service means to the dispatcher. *)
Definition settled (w w' : world itables) (item : SchedulerStore.Claimed) (v : Dispatcher.verdict) : Prop :=
  match v with
  | Dispatcher.VAck job => exists hash,
      i_receipts (w_db w') !! SchedulerStore.env_OccurrenceID (SchedulerStore.cl_Envelope item) = Some (hash, job)
  | Dispatcher.VBlock _ => untouched w w'
  | Dispatcher.VRetry _ => True
  end.

Lemma settled_refusal m x item w w' : posted item -> js_status x <> 200 -> js_status x <> 202 -> js_status x <> 429 ->
  (js_status x < 500 -> untouched w w') -> settled w w' item (verdict m x item).
Proof.
  intros Hp H0 H2 H4 Hu. rewrite verdict_other by done. destruct (Z.leb_spec 500 (js_status x)); [done|]. by apply Hu.
Qed.

Lemma AcceptJob_settled rv answer c m item w : ready w -> posted item -> m <= 8192 ->
  exists r, (AcceptJob rv answer c w).1 = Ok r /\
    settled w (AcceptJob rv answer c w).2 item (verdict m (job_answer r) item).
Proof using media_type_json.
  intros Hw Hp Hm. unfold AcceptScheduledJob. destruct (negb (rv_jobs rv)).
  { eexists. split; [done|]. by apply settled_refusal. }
  destruct (ValidateOccurrence c) as [[]|text].
  2:{ eexists. split; [done|]. apply settled_refusal; try done. by left. }
  destruct (if rv_preflight rv then _ else _) as [[]|e] eqn:Hpre.
  2:{ eexists. split; [done|]. destruct (rv_preflight rv); [|done].
      apply preflight_status in Hpre as (st & detail & -> & Hst). apply settled_refusal; [done|cbn; lia..|]. intros _. by left. }
  unfold mbind, M_bind, try.
  pose proof (receipt_answers sha256hex float_text int_of_2_63 shortest c w) as Ha.
  pose proof (Accept_conflict c w (rd_tx _ Hw)) as Hc.
  destruct (Accept c w) as [[acc|e] w']; cbn [fst snd] in *; eexists; (split; [done|]).
  - rewrite verdict_accepted by done. destruct (Ha acc Hw eq_refl) as [(hash & Hh & _) _].
    destruct (String.eqb_spec (ao_OccurrenceID acc) (SchedulerStore.env_OccurrenceID (SchedulerStore.cl_Envelope item))) as [Hid|]; [|done].
    destruct (canonicalUUID (ao_JobID acc)); [|done]. exists hash. by rewrite <- Hid.
  - destruct (decide (e = ErrIdempotencyConflict)) as [->|Hne].
    + apply settled_refusal; try done. intros _. right. by apply Hc.
    + assert (js_status (job_answer (Err (JobsError e))) = 503) as Hst by (by destruct e).
      apply settled_refusal; rewrite ?Hst; try lia. done.
Qed.

(** C10: The dispatcher's verdict is true of the intake.  Whatever request reaches the
    endpoint, in whatever state between two requests, with any configuration, driver
    failure and interference: the endpoint answers, and if the dispatcher reads the
    answer as the acknowledgement of its occurrence by a job, the tables hold a
    receipt of that occurrence which names that job; if it reads it as a rejection,
    which it never retries, the request has written nothing.  Only answers that
    leave the question open are retried. *)
Theorem verdict_sound rv answer r item m w :
  ready w -> posted item -> m <= 8192 ->
  exists x, (endpoint rv answer r w).1 = Ok x /\
    settled w (endpoint rv answer r w).2 item (verdict m x item).
Proof using media_type_json.
  intros Hw Hp Hm. unfold acceptScheduledJob. destruct (header_refusal rv r) as [x|] eqn:Hh.
  { exists x. split; [done|]. apply header_refusal_status in Hh. rewrite !elem_of_cons, elem_of_nil in Hh.
    apply settled_refusal; [done|lia..|]. intros _. by left. }
  destruct (read_wire (jr_body r)) as [wire|].
  2:{ eexists. split; [done|]. apply settled_refusal; try done. intros _. by left. }
  destruct (AcceptJob_settled rv answer (wire_command rv (jr_IdempotencyKey r) wire) m item w Hw Hp Hm) as (res & Hr & Hs).
  unfold mbind, M_bind. destruct (AcceptJob rv answer _ w) as [y w']. cbn [fst snd] in *. subst y. by exists (job_answer res).
Qed.

End Settlement.

(** ** Two answers that miss their meaning *)

(** A payload that its operation does not take is an invalid envelope for good, but
    only the service's second validation looks at it, and that error has no status
    of its own: the endpoint answers 503 and the dispatcher tries for ever. *)
Lemma invalid_payload_retried `{Postgres} sha256hex float_text int_of_2_63 shortest ParseMediaType targets rv answer c text m item w :
  rv_jobs rv = true -> (rv_preflight rv = true -> configuration_preflight answer (oc_Operation c) (oc_Payload c) = Ok tt) ->
  ValidateOccurrence c = Ok tt -> ValidatePayload int_of_2_63 (oc_Operation c) (oc_Payload c) = Err text -> posted targets item ->
  let r := Err (JobsError (ErrText invalid_envelope)) in
  AcceptScheduledJob sha256hex float_text int_of_2_63 shortest rv answer c w = (Ok r, w) /\
  Dispatcher.disposition ParseMediaType targets (answer_read m (job_answer r)) item = Dispatcher.VRetry "target_unavailable".
Proof.
  intros Hj Hpre Hv Hp Hi. split; [|by apply verdict_other].
  unfold AcceptScheduledJob. rewrite Hj, Hv. cbn [negb].
  assert ((if rv_preflight rv then configuration_preflight answer (oc_Operation c) (oc_Payload c) else Ok tt) = Ok tt) as ->
    by (destruct (rv_preflight rv); auto).
  unfold mbind, M_bind, try, AcceptOccurrence, prepare_occurrence. rewrite Hv. cbn [mbind result_bind]. rewrite Hp. done.
Qed.

(** ** Concrete exchanges *)

Module ReceiverSample.
Export IntakeSample.
#[export] Existing Instance IntakeSample.sample_postgres.

Definition rv : receiver := MkReceiver "tok" true "service" 0 true true.
Definition media (s : string) : option string := Some s.
Definition members : list (string * json) := [("send_telegram", JBool false)].
Definition envelope : SchedulerStore.Envelope :=
  SchedulerStore.MkEnvelope 1 "00000000-0000-4000-8000-000000000001" "daily.digest" 2
    ((days_from_civil (Civil 2026 10 26) * 86400 + 36000) * Second) "news_digest" (Some members).
Definition item : SchedulerStore.Claimed := SchedulerStore.MkClaimed envelope "web" "lease" 1.
Definition targets : gmap string Target := {["web" := MkTarget "http://web/internal/v1/scheduled-jobs" "tok"]}.
Definition request : job_request := dispatch_request "tok" envelope members 220.

(** What the private backend says about its readiness. *)
Definition says (ai : bool) : readiness_answer :=
  Some (lex_of (JObj [("ai_configured", JBool ai); ("telegram_configured", JBool false); ("delivery_enabled", JBool true)]), AtEof).
Definition post (ready : readiness_answer) : IM job_response :=
  acceptScheduledJob sha float_text (- 2 ^ 63) shortest rv ready request.
Definition after : world itables := World (w_db (run before).2) None t0 [].

(** The occurrence is queued, and a repeated delivery is acknowledged by its job. *)
Definition verdict_of (r : result jobs_error job_response) : option Dispatcher.verdict :=
  match r with Ok x => Some (Dispatcher.disposition media targets (answer_read 150 x) item) | Err _ => None end.
Example delivered : verdict_of (post (says true) (World start None t0 [])).1 = Some (Dispatcher.VAck "00000000-0000-4000-8000-000000000000").
Proof. by_eval. Qed.

(** The readiness check comes before the look at the receipts: when AI has been
    switched off since, the repeated delivery of an occurrence whose job exists is
    refused, and the dispatcher blocks it for good. *)
Example accepted_but_blocked :
  i_receipts (w_db after) !! "00000000-0000-4000-8000-000000000001" <> None /\
  verdict_of (post (says true) after).1 = Some (Dispatcher.VAck "01020300-0000-4000-8000-000000000000") /\
  verdict_of (post (says false) after).1 = Some (Dispatcher.VBlock "target_rejected").
Proof. split; [|split]; [vm_compute; discriminate|by_eval..]. Qed.

Lemma item_posted : posted targets item.
Proof. split; [eexists; reflexivity|vm_compute; discriminate]. Qed.
Lemma envelope_sendable : sendable envelope.
Proof. split; [reflexivity..|split; [discriminate|reflexivity]|reflexivity|vm_compute; split; [discriminate|reflexivity]|by apply (bool_decide_eq_true _)]. Qed.
End ReceiverSample.
Import ReceiverSample.

Lemma verdict_sound_witness :
  exists x, (post (says true) before).1 = Ok x /\ settled before (post (says true) before).2 item (Dispatcher.disposition media targets (answer_read 150 x) item).
Proof.
  exact (verdict_sound sha float_text (- 2 ^ 63) shortest media targets eq_refl rv (says true) request item 150 before
    before_ready item_posted ltac:(lia)).
Defined.

