(* ===== verification/Admission.v ===== *)
(** * Admission: the limits on calls to AI providers

    go-domain/airuntime: the rolling window of admission.go, the circuit breaker of
    breaker.go and the retry series of [managedProvider.Generate] (provider.go),
    which runs inside the breaker and passes the window before every request.

    Both objects are shared by all goroutines and change only inside their mutex,
    so a history is the sequence of those critical sections with the clock each one
    reads; the clock is monotonic.  The provider, a library outside the repository,
    is an argument of the series: what each request gives. *)

From S2P Require Import Prelude GoTime.
From Stdlib Require Import Sorting.Sorted.

(** ** The rolling window *)

Section Window.
Context (limit : nat) (window : Z).

(** [for first < len(w.calls) && !w.calls[first].After(cutoff) { first++ }] and the
    copy of the rest *)
Fixpoint expire (cutoff : Z) (calls : list Z) : list Z :=
  match calls with
  | [] => []
  | c :: calls' => if c <=? cutoff then expire cutoff calls' else calls
  end.

(** One turn of the loop of [Acquire] under the mutex: admitted, or the time to
    wait before the next turn. *)
Definition acquire_turn (now : Z) (calls : list Z) : list Z * option Z :=
  let calls := expire (now - window) calls in
  if (length calls <? limit)%nat then (calls ++ [now], None)
  else (calls, Some (let wait := hd now calls + window - now in if wait <? 0 then 0 else wait)).

(** A goroutine's call: its context's error before each turn, the clock under the
    mutex, and the outcome of [w.wait]; [others] are the turns other goroutines
    take while it waits. *)
Inductive turn := Turn (cancelled : bool) (now : Z) (wait_fails : bool) (others : list Z).
Inductive acquired := Passed (at_ : Z) | Cancelled | Waiting.

Definition others_turns (ts : list Z) (calls : list Z) : list Z := foldl (fun c t => (acquire_turn t c).1) calls ts.

Fixpoint Acquire (turns : list turn) (calls : list Z) : list Z * acquired :=
  match turns with
  | [] => (calls, Waiting)
  | Turn cancelled now wait_fails others :: turns' =>
      if cancelled then (calls, Cancelled)
      else match acquire_turn now calls with
           | (calls', None) => (calls', Passed now)
           | (calls', Some _) =>
               let calls'' := others_turns others calls' in
               if wait_fails then (calls'', Cancelled) else Acquire turns' calls''
           end
  end.

(** ** A history of turns, by any goroutines *)

Fixpoint history (calls : list Z) (ts : list Z) : list (Z * option Z) * list Z :=
  match ts with
  | [] => ([], calls)
  | t :: ts' =>
      let '(calls', r) := acquire_turn t calls in
      let '(rs, final) := history calls' ts' in ((t, r) :: rs, final)
  end.

Definition admissions (h : list (Z * option Z)) : list Z := (filter (fun x => x.2 = None) h).*1.

(** The reference: all admissions are remembered, and a turn is admitted when fewer
    than [limit] of them are younger than the window. *)
Definition recent (now : Z) (past : list Z) : list Z := filter (fun a => now - window < a) past.

Fixpoint ideal (past : list Z) (ts : list Z) : list (Z * bool) :=
  match ts with
  | [] => []
  | t :: ts' =>
      let ok := (length (recent t past) <? limit)%nat in
      (t, ok) :: ideal (if ok then past ++ [t] else past) ts'
  end.

Definition monotonic (from : Z) (ts : list Z) : Prop := Sorted Z.le (from :: ts).

(** The window keeps what may still count. *)
Record keeps_recent (now : Z) (past calls : list Z) : Prop := {
  kr_sorted : StronglySorted Z.le calls;
  kr_past : Forall (fun a => a <= now) past;
  kr_split : exists old, past = old ++ calls /\ Forall (fun a => a <= now - window) old;
}.

Lemma expire_spec cutoff calls : StronglySorted Z.le calls ->
  exists old, calls = old ++ expire cutoff calls /\ Forall (fun a => a <= cutoff) old /\
    Forall (fun a => cutoff < a) (expire cutoff calls) /\ StronglySorted Z.le (expire cutoff calls).
Proof.
  induction 1 as [|c calls Hs IH Hc]; cbn [expire]; [exists []; split_and!; try done; constructor|].
  destruct (Z.leb_spec c cutoff).
  - destruct IH as (old & E & H1 & H2 & H3). exists (c :: old). cbn [app]. rewrite <- E. split_and!; [done|by constructor|done|done].
  - exists []. split_and!; [done|done| |by constructor]. constructor; [done|]. eapply Forall_impl; [exact Hc|]. intros; simpl in *; lia.
Qed.

Lemma recent_app now a b : recent now (a ++ b) = recent now a ++ recent now b.
Proof. apply filter_app. Qed.
Lemma recent_old now l : Forall (fun a => a <= now - window) l -> recent now l = [].
Proof. induction 1 as [|a l Ha _ IH]; [done|]. unfold recent in *. rewrite filter_cons_False by lia. done. Qed.
Lemma recent_all now l : Forall (fun a => now - window < a) l -> recent now l = l.
Proof. induction 1 as [|a l Ha _ IH]; [done|]. unfold recent in *. rewrite filter_cons_True by done. by rewrite IH. Qed.

Lemma sorted_snoc l (x : Z) : StronglySorted Z.le l -> Forall (fun a => a <= x) l -> StronglySorted Z.le (l ++ [x]).
Proof.
  induction 1 as [|a l Hs IH Ha]; intros Hx; cbn [app]; [by repeat constructor|]. apply Forall_cons_1 in Hx as [Hax Hx].
  constructor; [by apply IH|]. apply Forall_app. split; [done|]. by constructor.
Qed.

(** One turn does what the reference does. *)
Lemma turn_spec from now past calls : keeps_recent from past calls -> from <= now -> 0 <= window ->
  let '(calls', r) := acquire_turn now calls in
  let ok := (length (recent now past) <? limit)%nat in
  (r = None <-> ok = true) /\ keeps_recent now (if ok then past ++ [now] else past) calls' /\
  expire (now - window) calls = recent now past.
Proof.
  intros [Hs Hp (old & -> & Hold)] Hle Hw. destruct (expire_spec (now - window) calls Hs) as (more & E & H1 & H2 & H3).
  assert (Forall (fun a => a <= now - window) (old ++ more)) as Hgone.
  { apply Forall_app. split; [|done]. eapply Forall_impl; [exact Hold|]. intros; simpl in *; lia. }
  assert (recent now (old ++ calls) = expire (now - window) calls) as Hr.
  { rewrite E at 1. rewrite app_assoc, recent_app, (recent_old _ _ Hgone), recent_all by done. done. }
  assert (Forall (fun a => a <= now) (old ++ calls)) as Hp' by (eapply Forall_impl; [exact Hp|]; intros; simpl in *; lia).
  assert (old ++ calls = (old ++ more) ++ expire (now - window) calls) as Esplit by (rewrite <- app_assoc; by rewrite <- E).
  unfold acquire_turn. cbv zeta. rewrite Hr. destruct (length (expire (now - window) calls) <? limit)%nat; (split; [done|]); (split; [|done]).
  - split.
    + apply sorted_snoc; [done|]. rewrite Esplit in Hp'. by apply Forall_app in Hp' as [_ ?].
    + apply Forall_app. split; [done|]. constructor; [lia|constructor].
    + exists (old ++ more). split; [|done]. rewrite Esplit. by rewrite <- !app_assoc.
  - split; [done|done|]. by exists (old ++ more).
Qed.

Lemma keeps_recent_start from : keeps_recent from [] [].
Proof. split; [constructor|constructor|]. by exists []. Qed.

Lemma monotonic_cons from t ts : monotonic from (t :: ts) <-> from <= t /\ monotonic t ts.
Proof.
  unfold monotonic. split; [intros [Hm Hle]%Sorted_inv; by apply HdRel_inv in Hle|]. intros [Hle Hm].
  constructor; [done|]. by constructor.
Qed.

Lemma history_ideal ts : forall from past calls, 0 <= window -> keeps_recent from past calls -> monotonic from ts ->
  map (fun x => (x.1, bool_decide (x.2 = None))) (history calls ts).1 = ideal past ts /\
  exists last, keeps_recent last (past ++ admissions (history calls ts).1) (history calls ts).2 /\
    forall t, monotonic from (ts ++ [t]) -> last <= t.
Proof.
  induction ts as [|t ts IH]; intros from past calls Hw Hk Hm; cbn [history ideal].
  { split; [done|]. exists from. rewrite app_nil_r. split; [done|]. by intros t [? _]%monotonic_cons. }
  apply monotonic_cons in Hm as [Hle Hm].
  pose proof (turn_spec from t past calls Hk Hle Hw) as Ht. destruct (acquire_turn t calls) as [calls' r].
  destruct Ht as (Hr & Hk' & _). set (ok := (length (recent t past) <? limit)%nat) in *. cbv zeta.
  destruct (IH t (if ok then past ++ [t] else past) calls' Hw Hk' Hm) as (E & last & Hl & Hts).
  destruct (history calls' ts) as [rs final]. cbn [fst snd map] in *. rewrite E.
  assert (bool_decide (r = None) = ok) as ->.
  { destruct ok; [by apply bool_decide_eq_true_2, Hr|]. apply bool_decide_eq_false_2. intros Hn. by apply Hr in Hn. }
  split; [done|]. exists last. split; [|by intros u [_ Hu]%monotonic_cons; apply Hts].
  revert Hl. unfold admissions. destruct ok.
  - destruct Hr as [_ ->]; [|done]. rewrite filter_cons_True by done. csimpl. by rewrite <- app_assoc.
  - rewrite filter_cons_False; [done|]. intros Hn. by apply Hr in Hn.
Qed.

(** How many of [l] lie in the window that ends at [t]. *)
Definition in_window (t : Z) (l : list Z) : nat := length (filter (fun a => t - window < a /\ a <= t) l).

Lemma in_window_app t a b : in_window t (a ++ b) = (in_window t a + in_window t b)%nat.
Proof. unfold in_window. by rewrite filter_app, length_app. Qed.

Lemma in_window_recent now t past : now <= t -> (in_window t past <= length (recent now past))%nat.
Proof.
  intros Ht. unfold in_window, recent. induction past as [|a past IH]; [done|].
  destruct (decide (t - window < a /\ a <= t)) as [[H1 H2]|Hno].
  - rewrite !filter_cons_True by (split; lia) || rewrite (filter_cons_True _ a) by (split; lia).
    rewrite (filter_cons_True (fun a => now - window < a) a) by lia. cbn [length]. lia.
  - rewrite (filter_cons_False _ a) by done. etransitivity; [exact IH|].
    destruct (decide (now - window < a)); [rewrite (filter_cons_True (fun a => now - window < a) a) by done; cbn [length]; lia|].
    by rewrite (filter_cons_False (fun a => now - window < a) a) by done.
Qed.

Lemma ideal_bound ts : forall from past, Forall (fun a => a <= from) past -> monotonic from ts ->
  (forall t, (in_window t past <= limit)%nat) ->
  forall t, (in_window t (past ++ (filter (fun x : Z * bool => x.2 = true) (ideal past ts)).*1) <= limit)%nat.
Proof.
  induction ts as [|u ts IH]; intros from past Hp Hm Hb t; cbn [ideal]; [by rewrite app_nil_r|].
  apply monotonic_cons in Hm as [Hle Hm]. cbv zeta.
  assert (Forall (fun a => a <= u) past) as Hpu by (eapply Forall_impl; [exact Hp|]; intros; simpl in *; lia).
  destruct (length (recent u past) <? limit)%nat eqn:Hok.
  - rewrite filter_cons_True by done. csimpl. change (u :: ?l) with ([u] ++ l). rewrite app_assoc.
    apply (IH u); [apply Forall_app; split; [done|]; constructor; [lia|constructor]|done|].
    intros t'. rewrite in_window_app. destruct (decide (u <= t')) as [Hu|Hu].
    + pose proof (in_window_recent u t' past Hu). apply Nat.ltb_lt in Hok.
      assert (in_window t' [u] <= 1)%nat by (unfold in_window; etransitivity; [apply length_filter|done]). lia.
    + assert (in_window t' [u] = 0%nat) as ->; [|specialize (Hb t'); lia].
      unfold in_window. by rewrite filter_cons_False by lia.
  - rewrite filter_cons_False by done. by apply (IH u).
Qed.

Lemma expire_length cutoff calls : (length (expire cutoff calls) <= length calls)%nat.
Proof. induction calls as [|c calls IH]; [done|]. cbn [expire]. destruct (c <=? cutoff); cbn [length] in *; lia. Qed.

Lemma history_length ts : forall calls, (length calls <= limit)%nat -> (length (history calls ts).2 <= limit)%nat.
Proof.
  induction ts as [|t ts IH]; intros calls Hl; cbn [history]; [done|].
  pose proof (expire_length (t - window) calls) as He. unfold acquire_turn. cbv zeta.
  destruct (length (expire (t - window) calls) <? limit)%nat eqn:E.
  - apply Nat.ltb_lt in E. specialize (IH (expire (t - window) calls ++ [t])). destruct (history _ ts). cbn [snd] in *.
    apply IH. rewrite length_app. cbn [length]. lia.
  - specialize (IH (expire (t - window) calls)). destruct (history _ ts). cbn [snd] in *. apply IH. lia.
Qed.

(** A refused caller's wait ends when the oldest admission leaves the window. *)
Lemma wait_suffices from now past calls calls' d :
  keeps_recent from past calls -> from <= now -> 0 <= window -> (1 <= limit)%nat -> (length calls <= limit)%nat ->
  acquire_turn now calls = (calls', Some d) -> 0 <= d <= window /\ (acquire_turn (now + d) calls').2 = None.
Proof.
  intros Hk Hle Hw Hl Hlen. pose proof (expire_length (now - window) calls) as He.
  destruct Hk as [Hs Hp (old & -> & _)]. destruct (expire_spec (now - window) calls Hs) as (more & Em & _ & Hy & _).
  assert (Forall (fun a => a <= now) (expire (now - window) calls)) as Hn.
  { rewrite Em in Hp. rewrite !Forall_app in Hp. destruct Hp as (_ & _ & Hp). eapply Forall_impl; [exact Hp|]. intros; simpl in *; lia. }
  unfold acquire_turn at 1. cbv zeta. destruct (length (expire _ calls) <? limit)%nat eqn:E; [done|]. intros [= <- <-].
  apply Nat.ltb_ge in E. destruct (expire (now - window) calls) as [|c l]; [cbn [length] in E; lia|]. cbn [hd].
  apply Forall_inv in Hy, Hn. destruct (Z.ltb_spec (c + window - now) 0); [lia|]. split; [lia|].
  unfold acquire_turn. cbv zeta. replace (now + (c + window - now) - window) with c by lia. cbn [expire].
  rewrite Z.leb_refl. pose proof (expire_length c l). cbn [length] in *.
  by rewrite (proj2 (Nat.ltb_lt _ _)) by lia.
Qed.

(** What a goroutine does is part of a history. *)
Lemma others_history ts : forall calls, others_turns ts calls = (history calls ts).2.
Proof.
  induction ts as [|t ts IH]; intros calls; [done|]. cbn [others_turns foldl history] in *. fold (others_turns ts (acquire_turn t calls).1).
  rewrite IH. destruct (acquire_turn t calls) as [c r]. cbn [fst]. by destruct (history c ts).
Qed.
Lemma history_app a : forall calls b, history calls (a ++ b) =
  let '(h, mid) := history calls a in let '(h', final) := history mid b in (h ++ h', final).
Proof.
  induction a as [|t a IH]; intros calls b; cbn [history app]; [by destruct (history calls b)|].
  destruct (acquire_turn t calls) as [c r]. rewrite IH. destruct (history c a) as [h mid]. by destruct (history mid b).
Qed.

Lemma Acquire_history turns : forall calls, exists ts,
  (Acquire turns calls).1 = (history calls ts).2 /\
  forall t, (Acquire turns calls).2 = Passed t -> exists ts', ts = ts' ++ [t] /\ In t (admissions (history calls ts).1).
Proof.
  induction turns as [|[cancelled now fails others] turns IH]; intros calls; cbn [Acquire]; [by exists []|].
  destruct cancelled; [by exists []|]. destruct (acquire_turn now calls) as [c r] eqn:Et. destruct r as [d|].
  - assert (history calls (now :: others) = ((now, Some d) :: (history c others).1, (history c others).2)) as Eh
      by (cbn [history]; rewrite Et; by destruct (history c others)).
    rewrite others_history. destruct fails; [exists (now :: others); by rewrite Eh|].
    destruct (IH (history c others).2) as (ts & E & Hadm). exists ((now :: others) ++ ts).
    rewrite history_app, Eh. destruct (history (history c others).2 ts) as [h final] eqn:Ef. cbn [snd] in *. split; [done|].
    intros t Ht. destruct (Hadm t Ht) as (ts' & -> & Hin). exists ((now :: others) ++ ts'). split; [by rewrite <- app_assoc|].
    unfold admissions in *. cbn [fst] in Hin |- *. rewrite filter_app, fmap_app. apply in_or_app. by right.
  - exists [now]. cbn [history]. rewrite Et. split; [done|]. intros t [= <-]. exists []. split; [done|]. by left.
Qed.

(** C28: The rolling window is exact.  For any interleaving of the callers' turns, on a
    clock that does not run backwards: a turn is admitted exactly when fewer than
    [limit] of all past admissions are younger than the window, although the code
    keeps only some of them; hence no window of that length, wherever it ends, sees
    more than [limit] admissions; and a caller that is refused is told a wait of at
    most one window, after which it is admitted unless others were first. *)
Theorem window_exact from ts now :
  (1 <= limit)%nat -> 0 <= window -> monotonic from (ts ++ [now]) ->
  let '(h, calls) := history [] ts in
  map (fun x => (x.1, bool_decide (x.2 = None))) h = ideal [] ts /\
  (forall t, (in_window t (admissions h) <= limit)%nat) /\
  forall calls' d, acquire_turn now calls = (calls', Some d) -> 0 <= d <= window /\ (acquire_turn (now + d) calls').2 = None.
Proof.
  intros Hl Hw Hm. assert (monotonic from ts) as Hm0.
  { clear -Hm. revert from Hm. induction ts as [|t ts IH]; intros from; [by repeat constructor|].
    cbn [app]. rewrite !monotonic_cons. intros [? ?]. split; [done|by apply IH]. }
  destruct (history_ideal ts from [] [] Hw (keeps_recent_start from) Hm0) as (E & last & Hk & Hlast).
  pose proof (history_length ts [] ltac:(simpl; lia)) as Hlen.
  pose proof (ideal_bound ts from [] (Forall_nil_2 _) Hm0) as Hb. destruct (history [] ts) as [h calls]. cbn [fst snd app] in *.
  split; [exact E|]. split.
  - intros t. rewrite <- E in Hb. specialize (Hb (fun t => Nat.le_0_l _) t).
    replace (admissions h) with (filter (fun x : Z * bool => x.2 = true) (map (fun x => (x.1, bool_decide (x.2 = None))) h)).*1; [done|].
    unfold admissions. clear. induction h as [|[a r] h IH]; [done|]. cbn [map]. destruct (decide (r = None)) as [->|Hr].
    + rewrite !filter_cons_True by done. csimpl. by rewrite <- IH.
    + rewrite !filter_cons_False by (simpl; rewrite ?bool_decide_eq_true; done). done.
  - intros calls' d. by apply (wait_suffices last now (admissions h)); [|apply Hlast|..].
Qed.
End Window.

(** [NewSlidingWindow] *)
Definition NewSlidingWindow_limit (limit : Z) : nat := Z.to_nat (if limit <? 1 then 1 else limit).
Definition sliding_window : Z := Second.

(** ** The circuit breaker *)

Inductive breakerState := closed | open | halfOpen.
#[export] Instance breakerState_eq_dec : EqDecision breakerState.
Proof. solve_decision. Defined.

Record Breaker := MkBreaker {
  br_state : breakerState;
  br_failures : Z;
  br_lastFailure : Z;
  br_threshold : Z;
  br_recovery : Z;
}.

Definition NewBreaker (zero : Z) : Breaker := MkBreaker closed 0 zero 5 (60 * Second).

(** The first critical section of [Do]: the call may run, or is refused with the
    time that remains ([now2] is the second reading of the clock). *)
Definition breaker_enter (now now2 : Z) (b : Breaker) : Breaker * option Z :=
  match br_state b with
  | open =>
      if br_recovery b <=? now - br_lastFailure b then
        (MkBreaker halfOpen (br_failures b) (br_lastFailure b) (br_threshold b) (br_recovery b), None)
      else (b, Some (br_recovery b - (now2 - br_lastFailure b)))
  | _ => (b, None)
  end.

(** How the call ended: [err == nil], [ctx.Err() != nil], a provider error that is
    not retryable, or any other error. *)
Inductive call_outcome := Success | CallerGone | NotRetryable | Failure.

(** The second critical section. *)
Definition breaker_finish (now : Z) (o : call_outcome) (b : Breaker) : Breaker :=
  let 'MkBreaker state failures last threshold recovery := b in
  match o with
  | Success =>
      match state with
      | halfOpen => MkBreaker closed 0 last threshold recovery
      | closed => MkBreaker closed 0 last threshold recovery
      | open => b
      end
  | CallerGone | NotRetryable => b
  | Failure =>
      let failures := failures + 1 in
      MkBreaker (if threshold <=? failures then open else state) failures now threshold recovery
  end.

(** [Snapshot] *)
Definition Snapshot (b : Breaker) : string * Z :=
  (match br_state b with closed => "closed" | open => "open" | halfOpen => "half_open" end, br_failures b).

(** A history of critical sections; any number of calls may be under way. *)
Inductive section := Enter (now now2 : Z) | Finish (now : Z) (o : call_outcome).
Definition section_time (s : section) : Z := match s with Enter now _ => now | Finish now _ => now end.
Definition breaker_step (b : Breaker) (s : section) : Breaker :=
  match s with Enter now now2 => (breaker_enter now now2 b).1 | Finish now o => breaker_finish now o b end.
Definition breaker_run (b : Breaker) (h : list section) : Breaker := foldl breaker_step b h.

(** [closed] means that the failures are below the threshold. *)
Record br_wf (b : Breaker) : Prop := {
  bw_threshold : 1 <= br_threshold b;
  bw_failures : 0 <= br_failures b;
  bw_closed : br_state b = closed <-> br_failures b < br_threshold b;
}.

Lemma breaker_step_wf s b : br_wf b -> br_wf (breaker_step b s).
Proof.
  destruct b as [st f l th rec]. intros [H1 H2 H3]. cbn [br_threshold br_failures br_state] in *. destruct s as [now now2|now o]; cbn [breaker_step].
  - unfold breaker_enter. cbn [br_state br_recovery br_lastFailure]. destruct st; cbn [fst]; try by split.
    destruct (rec <=? now - l); cbn [fst]; split; cbn [br_threshold br_failures br_state]; try done.
    split; [done|]. intros Hlt. by apply H3 in Hlt.
  - destruct o; cbn [breaker_finish]; [|by split..|].
    + destruct st; (split; cbn [br_threshold br_failures br_state]; [done|lia|]); [split; [intros; lia|done]|done|split; [intros; lia|done]].
    + split; cbn [br_threshold br_failures br_state]; [done|lia|]. destruct (Z.leb_spec th (f + 1)).
      * split; [done|lia].
      * split; [lia|]. intros _. apply H3. lia.
Qed.

Lemma breaker_run_wf h : forall b, br_wf b -> br_wf (breaker_run b h).
Proof. induction h as [|s h IH]; intros b Hb; [done|]. apply IH. by apply breaker_step_wf. Qed.
Lemma NewBreaker_wf zero : br_wf (NewBreaker zero).
Proof. by split. Qed.

Lemma breaker_run_app b h h' : breaker_run b (h ++ h') = breaker_run (breaker_run b h) h'.
Proof. apply foldl_app. Qed.
Lemma last_default (l : list Z) d d' : l <> [] -> List.last l d = List.last l d'.
Proof. induction l as [|x [|y l] IH]; [done|done|]. intros _. exact (IH ltac:(done)). Qed.
Lemma monotonic_last ts : forall from t, monotonic from (ts ++ [t]) -> Forall (fun u => u <= t) ts.
Proof.
  induction ts as [|u ts IH]; intros from t Hm; [constructor|]. apply monotonic_cons in Hm as [_ Hm]. constructor; [|by eapply IH].
  clear IH. revert u Hm. induction ts as [|v ts IH]; intros u [H1 H2]%monotonic_cons; [done|]. specialize (IH v H2). lia.
Qed.

(** The counted failures of a history, and their times. *)
Definition failure_times (h : list section) : list Z :=
  omap (fun s => match s with Finish now Failure => Some now | _ => None end) h.
Definition no_success (h : list section) : Prop := Forall (fun s => match s with Finish _ Success => False | _ => True end) h.

Lemma breaker_constants h : forall b, br_threshold (breaker_run b h) = br_threshold b /\ br_recovery (breaker_run b h) = br_recovery b.
Proof.
  induction h as [|s h IH]; intros b; [done|]. change (breaker_run b (s :: h)) with (breaker_run (breaker_step b s) h). destruct (IH (breaker_step b s)) as [-> ->].
  destruct b as [st f l th rec], s as [now now2|now o]; cbn [breaker_step].
  - unfold breaker_enter. cbn [br_state]. by destruct st; [|destruct (_ <=? _)|].
  - by destruct o, st.
Qed.

(** Without a success in between, failures add up and the last one is remembered. *)
Lemma no_success_counts h : forall b, no_success h ->
  br_failures (breaker_run b h) = br_failures b + Z.of_nat (length (failure_times h)) /\
  br_lastFailure (breaker_run b h) = List.last (failure_times h) (br_lastFailure b).
Proof.
  induction h as [|s h IH]; intros b Hn; [cbn; split; [lia|done]|]. apply Forall_cons_1 in Hn as [Hs Hn].
  change (breaker_run b (s :: h)) with (breaker_run (breaker_step b s) h). destruct (IH (breaker_step b s) Hn) as [-> ->].
  destruct s as [now now2|now o]; cbn [breaker_step failure_times omap list_omap].
  - unfold breaker_enter. destruct (br_state b); cbn [fst]; try done. by destruct (_ <=? _).
  - destruct b as [st f l th rec], o; [done|done|done|]. cbn [breaker_finish br_failures br_lastFailure].
    fold (failure_times h). split; [cbn [length]; lia|]. generalize (failure_times h). intros l0. clear. revert now.
    induction l0 as [|x l0 IH]; intros now; [done|]. cbn [List.last] in *. destruct l0; [done|apply IH].
Qed.

(** It opens at the threshold, and stays open until the recovery is over. *)
Lemma open_until_recovery b h :
  br_wf b -> no_success h -> br_threshold b <= br_failures b + Z.of_nat (length (failure_times h)) -> failure_times h <> [] ->
  Forall (fun s => section_time s < List.last (failure_times h) 0 + br_recovery b) h ->
  br_state (breaker_run b h) = open.
Proof.
  intros Hwf. induction h as [|s h IH] using rev_ind; intros Hn Hth Hne Ht; [done|].
  apply Forall_app in Hn as [Hn Hs]. apply Forall_inv in Hs. rewrite breaker_run_app. cbn [breaker_run foldl].
  destruct (no_success_counts h b Hn) as [Hf Hlast]. destruct (breaker_constants h b) as [Hc1 Hc2].
  unfold failure_times in *. rewrite omap_app in *. fold (failure_times h) in *.
  destruct s as [now now2|now o]; cbn [omap list_omap breaker_step] in *.
  - rewrite app_nil_r in *. apply Forall_app in Ht as [Ht Hnow]. apply Forall_inv in Hnow. specialize (IH Hn Hth Hne Ht).
    unfold breaker_enter. rewrite IH, Hc2, Hlast, (last_default _ _ 0) by done. cbn [section_time] in Hnow.
    by rewrite (proj2 (Z.leb_gt _ _)) by lia.
  - destruct o; [done|..].
    1,2: rewrite app_nil_r in *; apply Forall_app in Ht as [Ht _]; specialize (IH Hn Hth Hne Ht);
      destruct (breaker_run b h); exact IH.
    destruct (breaker_run b h) as [st f l th rec]. cbn [br_failures br_threshold br_state breaker_finish] in *.
    rewrite length_app in Hth. cbn [length] in Hth. by rewrite (proj2 (Z.leb_le _ _)) by lia.
Qed.

(** What the breaker lets through.  From any state a new breaker can reach, after
    any further history without a success, with any number of calls under way: the
    failure count is exact; below five failures every call runs; with five or more,
    a call is refused exactly while less than a minute has passed since the last
    counted failure, and the first call after that runs on trial: its success closes
    the breaker and clears the count, its failure opens it for another minute.
    Calls given up by their callers and errors that are not retryable count for
    nothing. *)
Theorem breaker_protects zero h0 h from t now2 :
  no_success h -> monotonic from (map section_time h ++ [t]) ->
  let b := breaker_run (NewBreaker zero) h0 in
  let b' := breaker_run b h in
  let n := br_failures b + Z.of_nat (length (failure_times h)) in
  br_failures b' = n /\
  (n < 5 -> breaker_enter t now2 b' = (b', None)) /\
  (5 <= n -> failure_times h <> [] ->
   let last := List.last (failure_times h) 0 in
   if t - last <? 60 * Second then breaker_enter t now2 b' = (b', Some (60 * Second - (now2 - last)))
   else exists trial, breaker_enter t now2 b' = (trial, None) /\
     (forall u, Snapshot (breaker_finish u Success trial) = ("closed", 0)) /\
     (forall u, Snapshot (breaker_finish u Failure trial) = ("open", n + 1) /\ br_lastFailure (breaker_finish u Failure trial) = u)).
Proof.
  intros Hn Hm b b' n. pose proof (breaker_run_wf h0 _ (NewBreaker_wf zero)) as Hb. fold b in Hb.
  pose proof (breaker_run_wf h b Hb) as Hb'. fold b' in Hb'.
  destruct (no_success_counts h b Hn) as [Hf Hl]. fold b' in Hf, Hl. fold n in Hf.
  destruct (breaker_constants h b) as [Hth Hrec]. fold b' in Hth, Hrec.
  destruct (breaker_constants h0 (NewBreaker zero)) as [Hth0 Hrec0]. fold b in Hth0, Hrec0. cbn [NewBreaker br_threshold br_recovery] in Hth0, Hrec0.
  rewrite Hth0 in Hth. rewrite Hrec0 in Hrec. destruct Hb' as [_ _ Hcl]. rewrite Hf, Hth in Hcl.
  split; [done|]. split.
  - intros Hlt. unfold breaker_enter. by rewrite (proj2 Hcl Hlt).
  - intros Hge Hne last. rewrite (last_default _ _ 0 Hne) in Hl. fold last in Hl. destruct (Z.ltb_spec (t - last) (60 * Second)) as [Hy|Hy].
    + assert (br_state b' = open) as Ho.
      { apply open_until_recovery; try done; [rewrite Hth0; exact Hge|]. rewrite Hrec0. fold last. apply List.Forall_forall. intros s Hs.
        pose proof (monotonic_last (map section_time h) from t Hm) as Hle. rewrite List.Forall_forall in Hle.
        specialize (Hle _ (in_map _ _ _ Hs)). cbv beta in Hle. lia. }
      unfold breaker_enter. rewrite Ho, Hrec, Hl. by rewrite (proj2 (Z.leb_gt _ _)) by lia.
    + assert (br_state b' <> closed) as Hnc by (intros E; apply Hcl in E; lia).
      exists (MkBreaker halfOpen n last 5 (60 * Second)). destruct b' as [st f l th rec].
      cbn [br_state br_failures br_lastFailure br_threshold br_recovery] in *. subst f l th rec. split.
      * unfold breaker_enter. cbn [br_state br_recovery br_lastFailure]. destruct st; [done| |done].
        by rewrite (proj2 (Z.leb_le _ _)) by lia.
      * split; [done|]. intros u. cbn [breaker_finish]. rewrite (proj2 (Z.leb_le _ _)) by lia. done.
Qed.

(** ** The series of requests inside one breaker call *)

(** The fields of go-ai's error that the code reads. *)
Record ai_error := AiError { ae_Retryable : bool; ae_RetryAfter : Z }.
Inductive gen_error := ProviderError (e : ai_error) | OtherError (text : string).

(** What one request gives: a response with its completeness, or an error. *)
Inductive provider_answer := Response (complete : bool) | Failed (e : gen_error).

(** What one turn of the loop meets: [Acquire] succeeds, the answer, the time left
    to the caller's deadline, if it has one, and whether the wait was sat out. *)
Record attempt := Attempt { at_acquired : bool; at_answer : provider_answer; at_remaining : option Z; at_waited : bool }.

Inductive series_event := Requested (timeout : Z) | Waited (delay : Z).

Section Series.
(** [ai.NewError(response.Provider, string(response.Status), nil)] *)
Context (incomplete_error : ai_error) (GenerationTimeout : Z).

Definition attempt_timeout (purpose : string) (schema : bool) : Z :=
  let timeout := if (purpose =? "article")%string || schema then 40 * Second else 30 * Second in
  if (purpose =? "digest")%string then GenerationTimeout else timeout.

Definition retry_delay (e : ai_error) : Z := if 4 * Second <? ae_RetryAfter e then ae_RetryAfter e else 4 * Second.

(** The loop from attempt [k], with [fuel] turns left. *)
Fixpoint series (fuel : nat) (k : Z) (timeout : Z) (world : Z -> attempt) : result gen_error unit * list series_event :=
  match fuel with
  | O => (Err (OtherError "provider_failed"), [])
  | S fuel =>
      let a := world k in
      if negb (at_acquired a) then (Err (OtherError "admission"), [])
      else match at_answer a with
      | Response true => (Ok tt, [Requested timeout])
      | Response false => (Err (ProviderError incomplete_error), [Requested timeout])
      | Failed (OtherError text) => (Err (OtherError text), [Requested timeout])
      | Failed (ProviderError e) =>
          if negb (ae_Retryable e) || (k =? 2) then (Err (ProviderError e), [Requested timeout])
          else
            let delay := retry_delay e in
            if match at_remaining a with Some remaining => remaining <=? delay | None => false end
            then (Err (ProviderError e), [Requested timeout])
            else if negb (at_waited a) then (Err (OtherError "wait"), [Requested timeout; Waited delay])
            else let '(r, log) := series fuel (k + 1) timeout world in (r, Requested timeout :: Waited delay :: log)
      end
  end.

Definition Generate (purpose : string) (schema : bool) (world : Z -> attempt) : result gen_error unit * list series_event :=
  series 3 0 (attempt_timeout purpose schema) world.

(** What the breaker sees of it. *)
Definition generate_outcome (gone : bool) (r : result gen_error unit) : call_outcome :=
  match r with
  | Ok _ => Success
  | Err e => if gone then CallerGone
             else match e with ProviderError e => if ae_Retryable e then Failure else NotRetryable | OtherError _ => Failure end
  end.

Definition requests (log : list series_event) : list Z :=
  omap (fun e => match e with Requested t => Some t | Waited _ => None end) log.

(** At most three requests, at least four seconds and the provider's hint apart; a
    later one follows only a retryable error. *)
Lemma Generate_bounded purpose schema world :
  let '(r, log) := Generate purpose schema world in
  (length (requests log) <= 3)%nat /\
  Forall (fun e => match e with Requested t => t = attempt_timeout purpose schema | Waited d => 4 * Second <= d end) log /\
  (r = Ok tt <-> exists k, 0 <= k <= 2 /\ at_acquired (world k) = true /\ at_answer (world k) = Response true /\
     forall i, 0 <= i < k -> at_acquired (world i) = true /\ at_waited (world i) = true /\
       exists e, at_answer (world i) = Failed (ProviderError e) /\ ae_Retryable e = true /\
         (forall remaining, at_remaining (world i) = Some remaining -> retry_delay e < remaining)).
Proof.
  unfold Generate. set (tm := attempt_timeout purpose schema). clearbody tm.
  enough (forall fuel k, 0 <= k -> k + Z.of_nat fuel = 3 -> let '(r, log) := series fuel k tm world in
    (length (requests log) <= fuel)%nat /\
    Forall (fun e => match e with Requested t => t = tm | Waited d => 4 * Second <= d end) log /\
    (r = Ok tt <-> exists n, k <= n <= 2 /\ at_acquired (world n) = true /\ at_answer (world n) = Response true /\
       forall i, k <= i < n -> at_acquired (world i) = true /\ at_waited (world i) = true /\
         exists e, at_answer (world i) = Failed (ProviderError e) /\ ae_Retryable e = true /\
           (forall remaining, at_remaining (world i) = Some remaining -> retry_delay e < remaining))) as Hgen
    by exact (Hgen 3%nat 0 ltac:(lia) ltac:(lia)).
  induction fuel as [|fuel IH]; intros k Hk Hf; cbn [series].
  { split_and!; [done|constructor|]. split; [done|]. intros (n & Hn & _). lia. }
  assert (forall e, 4 * Second <= retry_delay e) as Hd by (intros e; unfold retry_delay; destruct (Z.ltb_spec (4 * Second) (ae_RetryAfter e)); lia).
  (* a refusal at attempt k rules out every later success *)
  assert (forall (P : Prop), P -> (at_acquired (world k) = true -> at_answer (world k) <> Response true) ->
    ~ (at_acquired (world k) = true /\ at_waited (world k) = true /\
       exists e, at_answer (world k) = Failed (ProviderError e) /\ ae_Retryable e = true /\ k <> 2 /\
         (forall remaining, at_remaining (world k) = Some remaining -> retry_delay e < remaining)) ->
    ~ exists n, k <= n <= 2 /\ at_acquired (world n) = true /\ at_answer (world n) = Response true /\
       forall i, k <= i < n -> at_acquired (world i) = true /\ at_waited (world i) = true /\
         exists e, at_answer (world i) = Failed (ProviderError e) /\ ae_Retryable e = true /\
           (forall remaining, at_remaining (world i) = Some remaining -> retry_delay e < remaining)) as Hno.
  { intros P _ H1 H2 (n & Hn & Ha & Hr & Hi). destruct (decide (n = k)) as [->|Hne]; [by apply H1|].
    destruct (Hi k ltac:(lia)) as (A & B & e & C & D & E). apply H2. split; [done|]. split; [done|]. exists e. split_and!; [done|done|lia|done]. }
  specialize (Hno True I). destruct (at_acquired (world k)) eqn:Ea; cbn [negb].
  2:{ split_and!; [simpl; lia|constructor|]. split; [done|]. intros Hx. exfalso. apply Hno; [done|by intros [? _]|exact Hx]. }
  destruct (at_answer (world k)) as [[]|[e|text]] eqn:Er.
  - split_and!; [simpl; lia|by repeat constructor|]. split; [|done]. intros _. exists k. split_and!; [lia|lia|done|done|intros; lia].
  - split_and!; [simpl; lia|by repeat constructor|]. split; [done|]. intros Hx. exfalso. apply Hno; [done|naive_solver|exact Hx].
  - destruct (negb (ae_Retryable e) || (k =? 2)) eqn:Eb.
    { split_and!; [simpl; lia|by repeat constructor|]. split; [done|]. intros Hx. exfalso. apply Hno; [done| |exact Hx].
      intros (_ & _ & e' & He & Hret & Hk2 & _). injection He as <-. bool_to_prop. destruct Eb; bool_to_prop; congruence || lia. }
    destruct (match at_remaining (world k) with Some remaining => remaining <=? retry_delay e | None => false end) eqn:El.
    { split_and!; [simpl; lia|by repeat constructor|]. split; [done|]. intros Hx. exfalso. apply Hno; [done| |exact Hx].
      intros (_ & _ & e' & He & _ & _ & Hl). injection He as <-. destruct (at_remaining (world k)) as [l|]; [|done].
      specialize (Hl l eq_refl). bool_to_prop. lia. }
    destruct (at_waited (world k)) eqn:Ew; cbn [negb].
    2:{ split_and!; [simpl; lia|by repeat constructor|]. split; [done|]. intros Hx. exfalso. apply Hno; [done|by intros (_ & ? & _)|exact Hx]. }
    specialize (IH (k + 1) ltac:(lia) ltac:(lia)). destruct (series fuel (k + 1) tm world) as [r log]. destruct IH as (I1 & I2 & I3).
    split_and!; [simpl; lia|by repeat constructor|]. rewrite I3. apply orb_false_iff in Eb as [Eb1 Eb2]. bool_to_prop. split.
    + intros (n & Hn & A & B & C). exists n. split_and!; [lia|lia|done|done|]. intros i Hi. destruct (decide (i = k)) as [->|]; [|apply C; lia].
      split; [done|]. split; [done|]. exists e. split; [done|]. split; [by destruct (ae_Retryable e)|]. intros l Hl. rewrite Hl in El. bool_to_prop. lia.
    + intros (n & Hn & A & B & C). exists n. destruct (decide (n = k)) as [->|]; [congruence|]. split_and!; [lia|lia|done|done|]. intros i Hi. apply C. lia.
  - split_and!; [simpl; lia|by repeat constructor|]. split; [done|]. intros Hx. exfalso. apply Hno; [done|naive_solver|exact Hx].
Qed.
End Series.

(** ** Concrete histories *)

Module AdmissionSample.
(** Two requests per second: the third waits until the first is a second old. *)
Definition ts : list Z := [0; 300 * Millisecond; 500 * Millisecond; 1000 * Millisecond; 1100 * Millisecond].
Example admitted_turns : admissions (history 2 Second [] ts).1 = [0; 300 * Millisecond; 1000 * Millisecond] /\
  acquire_turn 2 Second (500 * Millisecond) [0; 300 * Millisecond] = ([0; 300 * Millisecond], Some (500 * Millisecond)).
Proof. split; by_eval. Qed.

Definition five_failures : list section :=
  [Enter 1 1; Finish 2 Failure; Enter 3 3; Finish 4 Failure; Finish 5 CallerGone; Finish 6 Failure; Finish 7 NotRetryable;
   Finish 8 Failure; Finish 9 Failure].
Lemma no_success_sample : no_success five_failures.
Proof. repeat constructor. Qed.
Lemma monotonic_sample t : 9 <= t -> monotonic 0 (map section_time five_failures ++ [t]).
Proof. intros Ht. unfold five_failures. cbn [map app section_time]. rewrite !monotonic_cons. split_and!; try lia. repeat constructor. Qed.
End AdmissionSample.

Lemma window_exact_witness :
  (1 <= 2)%nat /\ 0 <= Second /\
  (forall t, (in_window Second t [0; 300 * Millisecond; 1000 * Millisecond]%Z <= 2)%nat) /\
  0 <= 200 * Millisecond <= Second.
Proof.
  assert (monotonic 0 (AdmissionSample.ts ++ [1100 * Millisecond])) as Hm
    by (unfold AdmissionSample.ts; cbn [app]; rewrite !monotonic_cons; split_and!; try (vm_compute; discriminate); repeat constructor).
  assert (1 <= 2)%nat as H1 by lia. assert (0 <= Second) as H2 by (vm_compute; discriminate).
  split; [exact H1|]. split; [exact H2|].
  pose proof (window_exact 2 Second 0 AdmissionSample.ts (1100 * Millisecond) H1 H2 Hm) as Hw.
  destruct (history 2 Second [] AdmissionSample.ts) as [h calls] eqn:E. destruct Hw as (_ & Hb & Hd).
  vm_compute in E. injection E as <- <-. split; [exact Hb|].
  destruct (Hd [300 * Millisecond; 1000 * Millisecond] (200 * Millisecond)) as [Hx _]; [by_eval|exact Hx].
Defined.

Lemma breaker_protects_witness :
  let b := breaker_run (NewBreaker 0) AdmissionSample.five_failures in
  breaker_enter (59 * Second) (59 * Second) b = (b, Some (1 * Second + 9)) /\
  exists trial, breaker_enter (70 * Second) (70 * Second) b = (trial, None) /\ Snapshot (breaker_finish 0 Success trial) = ("closed", 0).
Proof.
  destruct (breaker_protects 0 [] AdmissionSample.five_failures 0 (59 * Second) (59 * Second)) as (_ & _ & H1);
    [exact AdmissionSample.no_success_sample|apply AdmissionSample.monotonic_sample; vm_compute; discriminate|].
  destruct (breaker_protects 0 [] AdmissionSample.five_failures 0 (70 * Second) (70 * Second)) as (_ & _ & H2);
    [exact AdmissionSample.no_success_sample|apply AdmissionSample.monotonic_sample; vm_compute; discriminate|].
  cbv zeta in *. specialize (H1 ltac:(vm_compute; discriminate) ltac:(discriminate)).
  specialize (H2 ltac:(vm_compute; discriminate) ltac:(discriminate)).
  split; [exact H1|]. destruct H2 as (trial & He & Hs & _). exists trial. split; [exact He|apply Hs].
Defined.
