(* ===== verification/ExecStore.v ===== *)
(** * ExecStore: go-execution/store.go and lifecycle.go

    The executor's side of the queue: reading the worker's envelope, accepting
    an attempt (one durable receipt per attempt), and the fenced writes of its
    lifecycle.  Operations run on the tables of [QueueTables], which the worker
    writes at the same time; [Server] holds what they use of the Go server.

    Parameters: SHA-256, the uuid package ([canonical_uuid]) and the length of
    the text PostgreSQL prints for a jsonb payload. *)

From Stdlib Require Import Floats.SpecFloat.
From S2P Require Import Prelude JsonStrict GoTime Db GoText GoDecode GoParseTime QueueTables ExecPayload GoRune.

Notation EM := (M qtables exec_error).

Definition MaxEnvelopeBytes : Z := 8192.
Definition MaxDeadline : Z := 24 * Hour.
Definition HeartbeatStale : Z := 20 * Second.

(** ** Envelopes *)

(** A request body: its length, whether it is UTF-8, and its JSON lexemes. *)
Record raw_text := RawText { rt_length : Z; rt_utf8 : bool; rt_lexemes : list lexeme; rt_ending : ending }.

Record Envelope := MkEnvelope {
  xe_Version : Z;
  xe_JobID : string;
  xe_OwnerID : string;
  xe_Generation : Z;
  xe_Attempt : Z;
  xe_Deadline : Z;
  xe_DeadlineRaw : string;
  xe_Digest : string;
}.

Section Envelope.
Context (canonical_uuid : string -> bool) (sha256hex : string -> string).

Definition canonicalUUIDValue (v : option json) : result exec_error string :=
  match v with
  | Some (JStr s) => if canonical_uuid s then Ok s else Err ErrInvalidPayload
  | _ => Err ErrInvalidPayload
  end.

Definition positiveInt (v : option json) : result exec_error Z :=
  match v with
  | Some (JNum lit) =>
      match ParseInt lit with
      | Some i => if (i <? 1) || (2147483647 <? i) || ContainsAny lit ".eE+" then Err ErrInvalidPayload else Ok i
      | None => Err ErrInvalidPayload
      end
  | _ => Err ErrInvalidPayload
  end.

Definition required_keys : list string :=
  ["version"; "job_id"; "owner_id"; "generation"; "attempt_generation"; "deadline_at"].

(** The canonical map that is hashed. *)
Definition canonical_envelope (job owner : string) (generation attempt : Z) (deadline : string) : json :=
  JObj [("version", JNum "1"); ("job_id", JStr job); ("owner_id", JStr owner); ("generation", JNum (itoa generation));
        ("attempt_generation", JNum (itoa attempt)); ("deadline_at", JStr deadline)].

Definition parseEnvelope (raw : raw_text) : result exec_error Envelope :=
  _ ← guard_err ((MaxEnvelopeBytes <? rt_length raw) || negb (rt_utf8 raw)) ErrInvalidPayload;
  _ ← map_err (fun _ => ErrInvalidPayload) (rejectDuplicateKeys (rt_lexemes raw) (rt_ending raw));
  match decode_next (rt_lexemes raw) (rt_ending raw) with
  | Ok (JObj ms, rest) =>
      let m := raw_map ms in
      _ ← guard_err (match decode_next rest (rt_ending raw) with Err EofErr => false | _ => true end) ErrInvalidPayload;
      _ ← guard_err (negb (Z.of_nat (length m) =? 6)) ErrInvalidPayload;
      _ ← guard_err (negb (forallb (fun kv => bool_decide (kv.1 ∈ required_keys)) m)) ErrInvalidPayload;
      _ ← guard_err (match get m "version" with Some (JNum lit) => negb (lit =? "1")%string | _ => true end) ErrInvalidPayload;
      job ← canonicalUUIDValue (get m "job_id");
      owner ← canonicalUUIDValue (get m "owner_id");
      generation ← positiveInt (get m "generation");
      attempt ← positiveInt (get m "attempt_generation");
      match get m "deadline_at" with
      | Some (JStr text) =>
          match parse_rfc3339nano text with
          | None => Err ErrInvalidPayload
          | Some deadline =>
              Ok (MkEnvelope 1 job owner generation attempt deadline text
                    (sha256hex (marshal (canonical_envelope job owner generation attempt text))))
          end
      | _ => Err ErrInvalidPayload
      end
  | _ => Err ErrInvalidPayload
  end.
End Envelope.

(** ** Receipts *)

Definition xstate_text (s : xstate) : string :=
  match s with
  | XAccepted => "accepted" | XRunning => "running" | XSucceeded => "succeeded" | XFailed => "failed"
  | XInterrupted => "interrupted" | XDeliveryUnknown => "delivery_unknown"
  end.

Record Receipt := MkReceipt {
  xr_JobID : string;
  xr_Attempt : Z;
  xr_OwnerID : option string;
  xr_Generation : option Z;
  xr_DeadlineAt : option string;
  xr_Instance : string;
  xr_State : string;
  xr_AcceptedAt : string;
  xr_StartedAt : option string;
  xr_FinishedAt : option string;
  xr_Result : json;
  xr_ErrorCode : option string;
  xr_Digest : string;
  xr_Kind : string;
  xr_Payload : list (string * json);
}.

(** [scanReceipt] of the row that receiptSQL selects; the COALESCE to the empty
    text and [nullable] undo each other. *)
Definition scanReceipt (key : attempt_key) (x : exec_row) : Receipt :=
  MkReceipt key.1 key.2 (x_owner x) (x_generation x) (micro_stamp <$> x_deadline x) (x_instance x) (xstate_text (x_state x))
    (plain_stamp (x_accepted x)) (plain_stamp <$> x_started x) (plain_stamp <$> x_finished x)
    (default JNull (x_result x)) (x_error x) (x_digest x) "" [].

(** [Receipt.Map] *)
Definition opt_str (o : option string) : json := match o with Some s => JStr s | None => JNull end.
Definition Map (r : Receipt) : list (string * json) :=
  [("job_id", JStr (xr_JobID r)); ("attempt_generation", JNum (itoa (xr_Attempt r))); ("owner_id", opt_str (xr_OwnerID r));
   ("generation", match xr_Generation r with Some g => JNum (itoa g) | None => JNull end);
   ("deadline_at", opt_str (xr_DeadlineAt r)); ("executor_instance_id", JStr (xr_Instance r));
   ("state", JStr (xr_State r)); ("accepted_at", JStr (xr_AcceptedAt r)); ("started_at", opt_str (xr_StartedAt r));
   ("finished_at", opt_str (xr_FinishedAt r)); ("result", xr_Result r); ("error_code", opt_str (xr_ErrorCode r))].

(** ** The server *)

Record Handlers := MkHandlers { hs_Pipeline : bool; hs_Finalizer : bool; hs_Recovery : bool }.

Record Server := MkServer {
  sv_instance : string;
  sv_guardPID : Z;
  sv_handlers : Handlers;
  sv_active : list attempt_key;
  sv_ready : bool;
  sv_closed : bool;
  sv_guardLost : bool;
}.

Record ExecutionContext := MkContext {
  xc_JobID : string;
  xc_AttemptGeneration : Z;
  xc_OwnerID : string;
  xc_Generation : Z;
  xc_BackendPID : Z;
  xc_ExecutorInstanceID : string;
  xc_DeadlineAt : string;
  xc_ExecutorBackendPID : Z;
}.

(** [clock_timestamp() AT TIME ZONE 'UTC'] *)
Definition db_now : stmt qtables Z := read (fun now _ => pg_time now).
Definition as_err (e : exec_error) : dberr -> exec_error := fun _ => e.
Definition db_err : dberr -> exec_error := as_err ErrDatabase.

(** The worker status row as the fence reads it: this owner, generation and
    backend, running; its heartbeat. *)
Definition status_beat (owner : string) (generation pid : Z) (row : option status_row) : option Z :=
  match row with
  | Some (StatusRow g (Some o) (Some p) (Some beat) true) =>
      if (o =? owner)%string && (g =? generation) && (p =? pid) then Some beat else None
  | _ => None
  end.

Definition stale (beat now : Z) : bool := (now <? beat) || (HeartbeatStale <? now - beat).

Definition checkWorkerLeaseTx (owner : string) (generation pid : Z) : EM unit :=
  held ← exec (as_err ErrLeaseLost) (read (fun _ d => bool_decide (q_worker_lock d = Some pid)));
  _ ← guard_m (negb held) ErrLeaseLost;
  row ← exec (as_err ErrLeaseLost) (read (fun _ d => q_status d));
  match status_beat owner generation pid row with
  | None => raise ErrLeaseLost
  | Some beat =>
      now ← exec (as_err ErrLeaseLost) db_now;
      guard_m (stale beat now) ErrLeaseLost
  end.

(** The same checks on the pool, one connection each. *)
Definition checkWorkerLeasePool : string -> Z -> Z -> EM unit := checkWorkerLeaseTx.

Definition checkExecutionGuardTx (s : Server) : EM unit :=
  _ ← guard_m (sv_guardPID s <=? 0) ErrNotReady;
  held ← exec (as_err ErrNotReady) (read (fun _ d => bool_decide (q_guard_lock d = Some (sv_guardPID s))));
  guard_m (negb held) ErrNotReady.

Definition checkExecutionGuardPool : Server -> EM unit := checkExecutionGuardTx.

(** [GuardBackendPID]; the guard connection is open whenever the pid is set. *)
Definition GuardBackendPID (s : Server) : result exec_error Z :=
  if negb (sv_ready s) || sv_closed s || (sv_guardPID s <=? 0) then Err ErrNotReady else Ok (sv_guardPID s).

(** The running job row of an attempt. *)
Definition job_current (generation attempt : Z) (row : option job_row) : bool :=
  match row with
  | Some j => bool_decide (j_state j = Running) && bool_decide (j_owner j = Some generation) && (j_attempt j =? attempt)
  | None => false
  end.

Definition deadline_bad (deadline now : Z) : bool := (deadline <=? now) || (now + MaxDeadline <? deadline).

Definition insert_receipt (key : attempt_key) (row : Z -> exec_row) : stmt qtables Z := fun _ now d =>
  match q_execs d !! key with
  | Some _ => (Err UniqueViolation, d)
  | None => (Ok (pg_time now), set_execs (<[key := row (pg_time now)]> (q_execs d)) d)
  end.

Section Accept.
Context (canonical_uuid : string -> bool) (payload_length : json -> Z).

Definition accepted_row (s : Server) (e : Envelope) (digest : string) (generation : Z) (now : Z) : exec_row :=
  ExecRow digest (sv_instance s) (Some (xe_OwnerID e)) (Some generation) (Some (pg_time (xe_Deadline e))) XAccepted now
    None None None None None.

Definition accept_body (s : Server) (e : Envelope) (digest : string) : EM (Receipt * bool) :=
  let key := (xe_JobID e, xe_Attempt e) in
  row ← exec (as_err ErrLeaseLost) (read (fun _ d => q_status d));
  match row with
  | None => raise ErrLeaseLost
  | Some st =>
      prior ← exec db_err (read (fun _ d => q_execs d !! key));
      match prior with
      | Some x =>
          _ ← guard_m (negb (x_digest x =? digest)%string) ErrConflict;
          mret (scanReceipt key x, false)
      | None =>
          match ws_owner st, ws_pid st, ws_heartbeat st with
          | Some owner, Some backend, Some heartbeat =>
              _ ← guard_m (negb (ws_running st) || negb (owner =? xe_OwnerID e)%string ||
                           negb (ws_generation st =? xe_Generation e)) ErrLeaseLost;
              now ← exec db_err db_now;
              _ ← guard_m (stale heartbeat now) ErrLeaseLost;
              _ ← guard_m (deadline_bad (xe_Deadline e) now) ErrDeadline;
              job ← exec (as_err ErrStaleAttempt) (read (fun _ d => q_jobs d !! xe_JobID e));
              _ ← guard_m (negb (job_current (xe_Generation e) (xe_Attempt e) job)) ErrStaleAttempt;
              match job with
              | None => raise ErrStaleAttempt
              | Some j =>
                  payload ← lift (map_err (fun _ => ErrInvalidPayload)
                    (validatePayload canonical_uuid (j_kind j) (payload_length (j_payload j)) (Some (j_payload j))));
                  _ ← checkWorkerLeaseTx owner (ws_generation st) backend;
                  _ ← checkExecutionGuardTx s;
                  _ ← guard_m (deadline_bad (xe_Deadline e) now) ErrDeadline;
                  acceptedAt ← exec db_err (insert_receipt key (accepted_row s e digest (ws_generation st)));
                  _ ← commit ErrDatabase;
                  mret (MkReceipt (xe_JobID e) (xe_Attempt e) (Some (xe_OwnerID e)) (Some (ws_generation st))
                          (Some (xe_DeadlineRaw e)) (sv_instance s) "accepted" (plain_stamp acceptedAt) None None JNull None
                          digest (j_kind j) payload, true)
              end
          | _, _, _ => raise ErrLeaseLost
          end
      end
  end.

Definition acceptAttempt (s : Server) (e : Envelope) (digest : string) : EM (Receipt * bool) :=
  with_tx ErrDatabase (accept_body s e digest).
End Accept.

(** [loadReceipt]: [None] is [pgx.ErrNoRows] *)
Definition loadReceipt (key : attempt_key) : EM (option Receipt) :=
  x ← exec db_err (read (fun _ d => q_execs d !! key)); mret (scanReceipt key <$> x).

(** ** The fence of an attempt *)

Definition receipt_open (x : exec_row) : bool := negb (xterminal (x_state x)).

Definition fenceTx (s : Server) (key : attempt_key) (x : ExecutionContext) (enforceDeadline : bool) : EM unit :=
  _ ← guard_m (negb (xc_ExecutorInstanceID x =? sv_instance s)%string || negb (xc_ExecutorBackendPID x =? sv_guardPID s))
        ErrNotReady;
  _ ← checkExecutionGuardTx s;
  _ ← checkWorkerLeaseTx (xc_OwnerID x) (xc_Generation x) (xc_BackendPID x);
  job ← exec (as_err ErrStaleAttempt) (read (fun _ d => q_jobs d !! key.1));
  _ ← guard_m (negb (job_current (xc_Generation x) key.2 job)) ErrStaleAttempt;
  row ← exec (as_err ErrStaleAttempt) (read (fun _ d => q_execs d !! key));
  match row with
  | Some r =>
      match x_deadline r with
      | Some deadline =>
          _ ← guard_m (negb (x_instance r =? sv_instance s)%string) ErrStaleAttempt;
          _ ← guard_m (negb (receipt_open r)) ErrStaleAttempt;
          now ← exec (as_err ErrDeadline) db_now;
          guard_m (enforceDeadline && (deadline <=? now)) ErrDeadline
      | None => raise ErrStaleAttempt
      end
  | None => raise ErrStaleAttempt
  end.

(** [UPDATE background_job_executions SET ... WHERE key AND executor_instance_id=$ AND state IN (from)] *)
Definition update_receipt (key : attempt_key) (instance : string) (from : list xstate) (f : Z -> exec_row -> exec_row) :
    stmt qtables unit := write (fun now d =>
  match q_execs d !! key with
  | Some x => if (x_instance x =? instance)%string && bool_decide (x_state x ∈ from)
              then set_execs (<[key := f (pg_time now) x]> (q_execs d)) d else d
  | None => d
  end).

Definition start_receipt (now : Z) (x : exec_row) : exec_row :=
  set_exec XRunning (Some (default now (x_started x))) (x_finished x) (x_result x) (x_error x) x.

(** [fencedUpdate] with the statement of [setRunning] *)
Definition fencedUpdate (s : Server) (key : attempt_key) (x : ExecutionContext) (sql : stmt qtables unit) : EM unit :=
  with_tx ErrDatabase (
    _ ← fenceTx s key x true;
    _ ← exec db_err sql;
    _ ← commit ErrDatabase;
    mret tt).

Definition setRunning (s : Server) (key : attempt_key) (x : ExecutionContext) : EM unit :=
  fencedUpdate s key x (update_receipt key (sv_instance s) [XAccepted] start_receipt).

(** [contextForReceipt]: the owner, backend and deadline must not be NULL *)
Definition contextForReceipt (s : Server) (key : attempt_key) : EM ExecutionContext :=
  row ← exec db_err (read (fun _ d => (q_execs d !! key, q_status d)));
  match row with
  | (Some x, st) =>
      match x_owner x, x_generation x, st ≫= ws_pid, x_deadline x with
      | Some owner, Some generation, Some pid, Some deadline =>
          mret (MkContext key.1 key.2 owner generation pid (sv_instance s) (rfc3339nano deadline) (sv_guardPID s))
      | _, _, _, _ => raise ErrDatabase
      end
  | (None, _) => raise ErrDatabase
  end.

Definition executionContext (s : Server) (key : attempt_key) (e : Envelope) : EM ExecutionContext :=
  row ← exec (as_err ErrLeaseLost) (read (fun _ d => (q_execs d !! key, q_status d)));
  match row with
  | (Some x, Some st) =>
      match ws_owner st, ws_pid st, x_deadline x with
      | Some owner, Some pid, Some deadline =>
          _ ← guard_m (negb (owner =? xe_OwnerID e)%string || negb (ws_generation st =? xe_Generation e)) ErrLeaseLost;
          guardPID ← lift (GuardBackendPID s);
          mret (MkContext key.1 key.2 owner (ws_generation st) pid (sv_instance s) (canonicalDeadline deadline) guardPID)
      | _, _, _ => raise ErrLeaseLost
      end
  | _ => raise ErrLeaseLost
  end.

(** The terminal write of [finish]; NULLIF turns the empty code into NULL. *)
Definition close_receipt `{Postgres} (state : xstate) (code : string) (result : json) (now : Z) (x : exec_row) : exec_row :=
  set_exec state (x_started x) (Some now) (Some (jsonb result)) (if (code =? "")%string then None else Some code) x.

Definition finish_tx `{Postgres} (s : Server) (key : attempt_key) (x : ExecutionContext) (state : xstate) (code : string)
    (result : json) : EM unit :=
  _ ← fenceTx s key x false;
  _ ← exec db_err (update_receipt key (sv_instance s) [XAccepted; XRunning] (close_receipt state code result));
  _ ← commit ErrDatabase;
  mret tt.

(** [finish] drops its errors. *)
Definition finish `{Postgres} (s : Server) (key : attempt_key) (state : xstate) (code : string) (result : json) : EM unit :=
  x ← try (contextForReceipt s key);
  match x with
  | Err _ => mret tt
  | Ok x => _ ← try (with_tx ErrDatabase (finish_tx s key x state code result)); mret tt
  end.

(** [markCanceled]: the two reads on the pool, then the fenced write *)
Definition markCanceled `{Postgres} (s : Server) (key : attempt_key) : EM unit :=
  x ← contextForReceipt s key;
  job ← exec (as_err ErrStaleAttempt) (read (fun _ d => q_jobs d !! key.1));
  match job with
  | None => raise ErrStaleAttempt
  | Some j =>
      _ ← guard_m (negb (bool_decide (j_state j = Running))) ErrStaleAttempt;
      row ← exec (as_err ErrStaleAttempt) (read (fun _ d => q_execs d !! key));
      match row with
      | None => raise ErrStaleAttempt
      | Some r =>
          _ ← guard_m (negb (x_instance r =? sv_instance s)%string) ErrStaleAttempt;
          let '(state, code) :=
            if bool_decide (x_state r = XRunning) && mayDeliver (j_kind j) (Some (j_payload j))
            then (XDeliveryUnknown, "external_outcome_unknown") else (XInterrupted, "worker_interrupted") in
          with_tx ErrDatabase (finish_tx s key x state code (JObj [("status", JStr "warning")]))
      end
  end.

(** ** Article reprocessing *)

(** A member of an [int64] slice; null leaves the zero value. *)
Definition unmarshal_int64 (v : json) : option Z :=
  match v with JNum lit => ParseInt lit | JNull => Some 0 | _ => None end.

(** [json.Unmarshal(payload, &input)]: unknown members are ignored, a value of
    the wrong type is an error. *)
Definition unmarshal_reprocess (payload : list (string * json)) : option (list Z * option bool) :=
  foldl (fun r m => r ≫= fun '(ids, force) =>
    match find_field ["article_ids"; "force"] m.1 with
    | Some "article_ids" =>
        match m.2 with
        | JNull => Some ([], force)
        | JArr l => ids ← mapM unmarshal_int64 l; Some (ids, force)
        | _ => None
        end
    | Some _ =>
        match m.2 with
        | JNull => Some (ids, None)
        | JBool b => Some (ids, Some b)
        | _ => None
        end
    | None => Some (ids, force)
    end) (Some ([], None)) payload.

(** The two UPDATE statements on [articles]. *)
Definition reset_article (force : bool) (a : article_row) : article_row :=
  ArticleRow "pending" 0 None None false
    (if force then false else a_summary_processed a)
    (if force then false else a_category_processed a)
    (if force then false else a_ad_processed a).

Definition reset_articles (force : bool) (ids : list Z) : stmt qtables unit := write (fun _ d =>
  set_articles (map_imap (fun id a => Some (if bool_decide (id ∈ ids) then reset_article force a else a)) (q_articles d)) d).

Definition mark_initialized (now : Z) (j : job_row) : job_row :=
  JobRow (j_kind j) (j_payload j) (j_result j) (j_position j) (j_state j) (j_owner j) (j_attempt j) (j_created j)
    (j_started j) (j_finished j) (j_error j) (j_schedule_key j) (j_schedule_revision j) (Some now).

(** [UPDATE background_jobs SET initialized_at=now WHERE id=$1 AND initialized_at IS NULL] *)
Definition stamp_initialized (id : string) : stmt qtables unit := write (fun now d =>
  match q_jobs d !! id with
  | Some j => match j_initialized j with
              | None => set_jobs (<[id := mark_initialized (pg_time now) j]> (q_jobs d)) d
              | Some _ => d
              end
  | None => d
  end).

Definition reprocess_tx (s : Server) (key : attempt_key) (x : ExecutionContext) (force : bool) (ids : list Z) : EM unit :=
  _ ← fenceTx s key x true;
  job ← exec (as_err ErrStaleAttempt) (read (fun _ d => q_jobs d !! key.1));
  match job with
  | None => raise ErrStaleAttempt
  | Some j =>
      match j_initialized j with
      | Some _ => _ ← commit ErrDatabase; mret tt
      | None =>
          _ ← exec db_err (reset_articles force ids);
          _ ← exec db_err (stamp_initialized key.1);
          _ ← commit ErrDatabase;
          mret tt
      end
  end.

Definition initializeArticleReprocess (s : Server) (key : attempt_key) (x : ExecutionContext)
    (payload : list (string * json)) : EM unit :=
  match unmarshal_reprocess payload with
  | Some (ids, force) =>
      _ ← guard_m (Z.of_nat (length ids) =? 0) ErrInvalidPayload;
      with_tx ErrDatabase (reprocess_tx s key x (default true force) ids)
  | None => raise ErrInvalidPayload
  end.

(** ** Running an attempt *)

(** [math.Round(math.Max(0, math.Min(24*60*60, d.Seconds()))*1000)/1000] and its
    JSON text.  Seconds are computed in binary64; the quotient of an integer
    below 2^53 by 1000 prints as that decimal. *)
Definition Seconds (d : Z) : spec_float :=
  SFadd 53 1024 (binary64 (d / Second)) (SFdiv 53 1024 (binary64 (d mod Second)) (binary64 Second)).

(** [math.Round] of a number that is not negative: half away from zero. *)
Definition round_half_up (f : spec_float) : Z :=
  match f with
  | S754_finite _ m e => if 0 <=? e then Zpos m * 2 ^ e else (Zpos m + 2 ^ (- e - 1)) / 2 ^ (- e)
  | _ => 0
  end.

Definition duration_millis (elapsed : Z) : Z :=
  round_half_up (SFmul 53 1024 (Seconds (Z.max 0 (Z.min (Day) elapsed))) (binary64 1000)).

Definition millis_text (k : Z) : string :=
  let frac := [digit (k / 100); digit (k / 10); digit k] in
  itoa (k / 1000) +:+ (match rev (strip_zeros (rev frac)) with [] => "" | ds => string_of (46 :: ds) end).

Definition duration_seconds (elapsed : Z) : json := JNum (millis_text (duration_millis elapsed)).

Definition status_warning : list (string * json) := [("status", JStr "warning")].

(** What [Pipeline.Execute] leaves: the value's length and document, its error,
    and how the context of the attempt ended. *)
Record pipeline_outcome := PipelineOutcome {
  po_length : Z;
  po_value : option json;
  po_error : option failure;
  po_context : context_end;
}.

Definition unmarshal_bool (raw : option json) : option bool :=
  match raw with Some (JBool b) => Some b | Some JNull => Some false | _ => None end.

(** The projection of a [source_test] that succeeded. *)
Definition source_test_projection (bounded : list (string * json)) : xstate * string * list (string * json) :=
  let connectionOK := match unmarshal_bool (get bounded "connection_ok") with
                      | Some b => Some b
                      | None => unmarshal_bool (get bounded "success")
                      end in
  match connectionOK with
  | None => (XFailed, "worker_error", [("status", JStr "warning"); ("connection_ok", JBool false)])
  | Some ok =>
      let projected := upsert "connection_ok" (JBool ok) bounded in
      if ok then (XSucceeded, "", projected)
      else (XFailed, "worker_error", upsert "status" (JStr "warning") projected)
  end.

Definition xstate_of (s : string) : xstate :=
  if (s =? "delivery_unknown")%string then XDeliveryUnknown
  else if (s =? "interrupted")%string then XInterrupted
  else XFailed.

(** From the outcome of the pipeline to the terminal state, code and result:
    the failure of the run, then a result that is not acceptable. *)
Definition settle (kind : string) (payload : list (string * json)) (o : pipeline_outcome) :
    xstate * string * list (string * json) :=
  let failed := match po_error o, po_context o with None, StillOpen => false | _, _ => true end in
  let '(state, code) :=
    if failed then let '(s, c) := pipelineFailureDisposition kind (Some (JObj payload)) (po_error o) (po_context o) in
                   (xstate_of s, c)
    else (XSucceeded, "") in
  match (if failed then safeResult 20 (Some (JObj status_warning)) else safeResult (po_length o) (po_value o)) with
  | Ok m => (state, code, m)
  | Err _ => if mayDeliver kind (Some (JObj payload)) then (XDeliveryUnknown, "external_outcome_unknown", status_warning)
             else (XFailed, "worker_error", status_warning)
  end.

Definition disposition (kind : string) (payload : list (string * json)) (o : pipeline_outcome) (elapsed : Z) :
    xstate * string * list (string * json) :=
  let '(state, code, bounded) := settle kind payload o in
  let bounded := upsert "duration_seconds" (duration_seconds elapsed) bounded in
  if (kind =? "source_test")%string && bool_decide (state = XSucceeded) then source_test_projection bounded
  else (state, code, bounded).

Section RunAttempt.
Context `{Postgres} (pipeline : ExecutionContext -> string -> list (string * json) -> EM pipeline_outcome).

(** The domain's pipeline reports its failure in the outcome. *)
Definition run_pipeline (x : ExecutionContext) (kind : string) (payload : list (string * json)) : EM pipeline_outcome :=
  r ← try (pipeline x kind payload);
  match r with
  | Ok o => mret o
  | Err _ => mret (PipelineOutcome 0 None (Some (Failure None false)) StillOpen)
  end.

Definition fail_attempt (s : Server) (key : attempt_key) : EM unit :=
  finish s key XFailed "worker_error" (JObj status_warning).

(** [runAttempt]; its deferred removal from [active] is in [ExecServer]. *)
Definition runAttempt (s : Server) (key : attempt_key) (e : Envelope) (kind : string) (payload : list (string * json)) : EM unit :=
  startedAt ← app_now;
  if negb (hs_Pipeline (sv_handlers s)) then fail_attempt s key
  else
    x ← try (executionContext s key e);
    match x with
    | Err _ => fail_attempt s key
    | Ok x =>
        running ← try (setRunning s key x);
        match running with
        | Err err =>
            if bool_decide (err = ErrDeadline) then
              now ← app_now;
              let warning := upsert "duration_seconds" (duration_seconds (now - startedAt)) status_warning in
              if mayDeliver kind (Some (JObj payload))
              then finish s key XDeliveryUnknown "external_outcome_unknown" (JObj warning)
              else finish s key XFailed "worker_error" (JObj warning)
            else fail_attempt s key
        | Ok _ =>
            prepared ← (if (kind =? "article_reprocess")%string
                        then try (initializeArticleReprocess s key x payload) else mret (Ok tt));
            match prepared with
            | Err err =>
                if bool_decide (err = ErrLeaseLost) || bool_decide (err = ErrStaleAttempt) then mret tt
                else fail_attempt s key
            | Ok _ =>
                o ← run_pipeline x kind payload;
                now ← app_now;
                let '(state, code, bounded) := disposition kind payload o (now - startedAt) in
                finish s key state code (JObj bounded)
            end
        end
    end.
End RunAttempt.

(** ** The fence *)

(** The worker named by [owner], [generation] and [pid] held its lock, owned
    the status row and had a fresh heartbeat. *)
Definition worker_current (owner : string) (generation pid : Z) (d : qtables) : Prop :=
  q_worker_lock d = Some pid /\
  exists beat now, status_beat owner generation pid (q_status d) = Some beat /\ stale beat now = false.

Definition guard_held (s : Server) (d : qtables) : Prop := 0 < sv_guardPID s /\ q_guard_lock d = Some (sv_guardPID s).

(** Everything [fenceTx] asks of the tables. *)
Record fenced (s : Server) (key : attempt_key) (x : ExecutionContext) (d : qtables) : Prop := {
  fc_guard : guard_held s d;
  fc_worker : worker_current (xc_OwnerID x) (xc_Generation x) (xc_BackendPID x) d;
  fc_job : exists j, q_jobs d !! key.1 = Some j /\ job_current (xc_Generation x) key.2 (Some j) = true;
  fc_receipt : exists r deadline, q_execs d !! key = Some r /\ x_deadline r = Some deadline /\
    x_instance r = sv_instance s /\ receipt_open r = true;
}.

Section FenceRules.
Context {B : Type} (Q : result exec_error B -> qtables -> option qtables -> Prop) (db : qtables).
Implicit Types k : unit -> EM B.

Lemma twp_guard_lock s k t :
  (forall t', Q (Err ErrNotReady) db (Some t')) -> (guard_held s t -> twp (k tt) Q db t) ->
  twp (checkExecutionGuardTx s ≫= k) Q db t.
Proof.
  intros He Hk. unfold checkExecutionGuardTx. apply twp_bind, twp_guard; [apply He|]. intros Hpid.
  apply twp_exec; [|intros; apply He]. intros lk now. cbn [read].
  apply twp_ret_id, twp_guard; [apply He|]. intros Hh. apply twp_ret. exists t. split; [done|].
  bool_to_prop. apply Hk. done.
Qed.

Lemma twp_worker_lease owner generation pid k t :
  (forall t', Q (Err ErrLeaseLost) db (Some t')) -> (worker_current owner generation pid t -> twp (k tt) Q db t) ->
  twp (checkWorkerLeaseTx owner generation pid ≫= k) Q db t.
Proof.
  intros He Hk. unfold checkWorkerLeaseTx. apply twp_bind.
  apply twp_exec; [|intros; apply He]. intros lk now. cbn [read]. apply twp_guard; [apply He|]. intros Hheld.
  apply twp_exec; [|intros; apply He]. intros lk2 now2. cbn [read].
  destruct (status_beat _ _ _ _) as [beat|] eqn:Hb; [|apply twp_raise, He].
  apply twp_exec; [|intros; apply He]. intros lk3 now3. cbn [db_now read].
  apply twp_ret_id, twp_guard; [apply He|]. intros Hs. apply twp_ret. exists t. split; [done|].
  bool_to_prop. apply Hk. split; [done|]. by exists beat, (pg_time now3).
Qed.

End FenceRules.

Lemma twp_fence {B} (Q : result exec_error B -> qtables -> option qtables -> Prop) db s key x enforce k t :
  (forall e t', Q (Err e) db (Some t')) -> (fenced s key x t -> twp (k tt) Q db t) ->
  twp (fenceTx s key x enforce ≫= k) Q db t.
Proof.
  intros He Hk. unfold fenceTx. apply twp_bind, twp_guard; [apply He|]. intros Hself.
  apply twp_guard_lock; [done|]. intros Hg. apply twp_worker_lease; [done|]. intros Hw.
  apply twp_exec; [|intros; apply He]. intros lk now. cbn [read]. apply twp_guard; [apply He|]. intros Hj.
  apply twp_exec; [|intros; apply He]. intros lk2 now2. cbn [read].
  destruct (q_execs t !! key) as [r|] eqn:Hr; [|apply twp_raise, He].
  destruct (x_deadline r) as [deadline|] eqn:Hd; [|apply twp_raise, He].
  apply twp_guard; [apply He|]. intros Hi. apply twp_guard; [apply He|]. intros Ho.
  apply twp_exec; [|intros; apply He]. intros lk3 now3. cbn [db_now read].
  apply twp_ret_id, twp_guard; [apply He|]. intros _. apply twp_ret. exists t. split; [done|].
  bool_to_prop. apply Hk. split; [done|done| |].
  - destruct (q_jobs t !! key.1) as [j|]; [|done]. eauto.
  - exists r, deadline. split_and!; [done..|]. by destruct (receipt_open r).
Qed.

(** ** Fenced writes *)

(** What a fenced write of a receipt may do: nothing, or move this receipt by
    [f] while the fence holds and its state is in [from]. *)
Definition receipt_effect (s : Server) (key : attempt_key) (x : ExecutionContext) (from : list xstate)
    (f : Z -> exec_row -> exec_row) (d d' : qtables) : Prop :=
  d' = d \/
  fenced s key x d /\ exists r now, q_execs d !! key = Some r /\ x_state r ∈ from /\
    d' = set_execs (<[key := f (pg_time now) r]> (q_execs d)) d.

(** What it did when it reports success. *)
Definition receipt_written (s : Server) (key : attempt_key) (x : ExecutionContext) (from : list xstate)
    (f : Z -> exec_row -> exec_row) (d d' : qtables) : Prop :=
  fenced s key x d /\ exists r now, q_execs d !! key = Some r /\
    d' = (if bool_decide (x_state r ∈ from) then set_execs (<[key := f (pg_time now) r]> (q_execs d)) d else d).

Lemma receipt_written_effect s key x from f d d' : receipt_written s key x from f d d' -> receipt_effect s key x from f d d'.
Proof. intros (Hf & r & now & Hr & ->). case_bool_decide; [right|by left]. split; [done|]. by exists r, now. Qed.

Lemma twp_update_receipt {B} (Q : result exec_error B -> qtables -> option qtables -> Prop) db s key x from f (k : unit -> EM B) t :
  (forall e t', Q (Err e) db (Some t')) ->
  fenced s key x t -> (forall t', receipt_written s key x from f t t' -> twp (k tt) Q db t') ->
  twp (exec db_err (update_receipt key (sv_instance s) from f) ≫= k) Q db t.
Proof.
  intros He Hf Hk. apply twp_exec; [|intros; apply He]. intros lk now. cbn [update_receipt write].
  apply Hk. split; [done|]. destruct (fc_receipt _ _ _ _ Hf) as (r & dl & Hr & _ & Hi & _). rewrite Hr, Hi, String.eqb_refl.
  by exists r, now.
Qed.

(** A transaction that fences, updates the receipt and commits. *)
Lemma fenced_write_spec s key x enforce from f d :
  twp (_ ← fenceTx s key x enforce; _ ← exec db_err (update_receipt key (sv_instance s) from f);
       _ ← commit ErrDatabase; mret tt)
    (fun r d' _ => receipt_effect s key x from f d d' /\ (r = Ok tt -> receipt_written s key x from f d d')) d d.
Proof.
  apply twp_fence; [split; [by left|done]|]. intros Hf.
  eapply twp_update_receipt; [split; [by left|done]|done|]. intros t Hw.
  pose proof (receipt_written_effect _ _ _ _ _ _ _ Hw).
  apply twp_commit; [done|done|]. split; [by left|done].
Qed.

Lemma fencedUpdate_spec s key x from f w :
  w_tx w = None ->
  receipt_effect s key x from f (found w) (w_db (fencedUpdate s key x (update_receipt key (sv_instance s) from f) w).2).
Proof.
  intros Htx. unfold fencedUpdate.
  apply (with_tx_spec _ _ (fun _ d' => receipt_effect s key x from f (found w) d')); [done|by left|].
  eapply twp_mono; [apply fenced_write_spec|]. by intros r d' tx' [He _].
Qed.

Lemma start_evolves now r : x_state r = XAccepted -> exec_evolves r (start_receipt now r).
Proof. intros Hs. unfold start_receipt, exec_evolves; simpl. rewrite Hs. split_and!; [done|simpl; lia|done]. Qed.

Lemma close_evolves `{Postgres} state code result now r :
  x_state r ∈ [XAccepted; XRunning] -> xterminal state = true -> exec_evolves r (close_receipt state code result now r).
Proof.
  intros Hs Ht. unfold close_receipt, exec_evolves; simpl. split_and!; [done| |].
  - destruct state; try done; destruct (x_state r); simpl; lia.
  - apply elem_of_cons in Hs as [->|Hs%list_elem_of_singleton]; [done|]. by rewrite Hs.
Qed.

Lemma receipt_effect_evolves s key x from f d d' :
  (forall now r, x_state r ∈ from -> exec_evolves r (f now r)) -> receipt_effect s key x from f d d' -> q_evolves d d'.
Proof.
  intros Hf [->|(_ & r & now & Hr & Hin & ->)]; [reflexivity|].
  destruct key as [id a]. eapply q_evolves_exec; [done|]. by apply Hf.
Qed.

Lemma setRunning_evolves s key x : keeps q_evolves (setRunning s key x).
Proof.
  apply keeps_with_tx_twp; [apply _|]. intros d. eapply twp_mono; [apply fenced_write_spec|].
  intros r d' _ [He _]. eapply receipt_effect_evolves, He. intros now r0 Hin.
  apply start_evolves. by apply list_elem_of_singleton in Hin.
Qed.

Section TerminalWrites.
Context `{Postgres}.

Lemma finish_tx_spec s key x state code result d :
  twp (finish_tx s key x state code result)
    (fun r d' _ => receipt_effect s key x [XAccepted; XRunning] (close_receipt state code result) d d' /\
       (r = Ok tt -> receipt_written s key x [XAccepted; XRunning] (close_receipt state code result) d d')) d d.
Proof. apply fenced_write_spec. Qed.

Lemma finish_tx_evolves s key x state code result :
  xterminal state = true -> keeps q_evolves (with_tx ErrDatabase (finish_tx s key x state code result)).
Proof.
  intros Ht. apply keeps_with_tx_twp; [apply _|]. intros d. eapply twp_mono; [apply finish_tx_spec|].
  intros r d' _ [He _]. eapply receipt_effect_evolves, He. intros now r0 Hin. by apply close_evolves.
Qed.

Lemma contextForReceipt_evolves s key : keeps q_evolves (contextForReceipt s key).
Proof.
  apply keeps_bind; [apply keeps_read, _|]. intros [[x|] st]; [|apply keeps_raise].
  repeat case_match; first [apply keeps_ret|apply keeps_raise].
Qed.

Lemma close_attempt_evolves s key state code result : xterminal state = true -> keeps q_evolves (finish s key state code result).
Proof.
  intros Ht. apply keeps_bind; [apply keeps_try, contextForReceipt_evolves|]. intros [x|e]; [|apply keeps_ret].
  apply keeps_bind; [by apply keeps_try, finish_tx_evolves|]. intros. apply keeps_ret.
Qed.

Lemma markCanceled_evolves s key : keeps q_evolves (markCanceled s key).
Proof.
  apply keeps_bind; [apply contextForReceipt_evolves|]. intros x. apply keeps_bind; [apply keeps_read, _|].
  intros [j|]; [|apply keeps_raise]. apply keeps_bind; [apply keeps_guard|]. intros _.
  apply keeps_bind; [apply keeps_read, _|]. intros [r|]; [|apply keeps_raise].
  apply keeps_bind; [apply keeps_guard|]. intros _.
  destruct (_ && _); by apply finish_tx_evolves.
Qed.
End TerminalWrites.

(** ** Accepting an attempt *)

Section AcceptSpec.
Context (canonical_uuid : string -> bool) (payload_length : json -> Z).

(** What a new receipt rests on: the current worker sent it, its job runs this
    attempt with a valid payload, this executor holds its guard, and the deadline
    was in the window when the tables were read. *)
Record admitted (s : Server) (e : Envelope) (d : qtables) (j : job_row) (payload : list (string * json)) : Prop := {
  ad_worker : exists pid, worker_current (xe_OwnerID e) (xe_Generation e) pid d;
  ad_guard : guard_held s d;
  ad_job : q_jobs d !! xe_JobID e = Some j /\ job_current (xe_Generation e) (xe_Attempt e) (Some j) = true;
  ad_payload : validatePayload canonical_uuid (j_kind j) (payload_length (j_payload j)) (Some (j_payload j)) = Ok payload;
  ad_deadline : exists now, deadline_bad (xe_Deadline e) now = false;
}.

Definition receipt_inserted (s : Server) (e : Envelope) (digest : string) (now : Z) (d d' : qtables) : Prop :=
  q_execs d !! (xe_JobID e, xe_Attempt e) = None /\
  d' = set_execs (<[(xe_JobID e, xe_Attempt e) := accepted_row s e digest (xe_Generation e) now]> (q_execs d)) d.

Definition accept_effect (s : Server) (e : Envelope) (digest : string) (r : result exec_error (Receipt * bool)) (d d' : qtables) : Prop :=
  let key := (xe_JobID e, xe_Attempt e) in
  match r with
  | Ok (receipt, false) =>
      d' = d /\ exists x, q_execs d !! key = Some x /\ x_digest x = digest /\ receipt = scanReceipt key x
  | Ok (receipt, true) =>
      exists j payload now, admitted s e d j payload /\ receipt_inserted s e digest now d d' /\
        receipt = MkReceipt key.1 key.2 (Some (xe_OwnerID e)) (Some (xe_Generation e)) (Some (xe_DeadlineRaw e)) (sv_instance s)
                    "accepted" (plain_stamp now) None None JNull None digest (j_kind j) payload
  | Err ErrConflict => d' = d /\ exists x, q_execs d !! key = Some x /\ x_digest x <> digest
  | Err ErrDatabase => d' = d \/ exists j payload now, admitted s e d j payload /\ receipt_inserted s e digest now d d'
  | Err _ => d' = d
  end.

Lemma status_beat_owner owner generation pid st beat :
  status_beat owner generation pid (Some st) = Some beat ->
  ws_owner st = Some owner /\ ws_generation st = generation /\ ws_pid st = Some pid.
Proof.
  unfold status_beat. destruct st as [g [o|] [p|] [b|] []]; try done.
  destruct (_ && _) eqn:E; [|done]. bool_to_prop. by subst.
Qed.

Lemma validate_error kind n p e : map_err (fun _ => ErrInvalidPayload) (validatePayload canonical_uuid kind n p) = Err e ->
  e = ErrInvalidPayload.
Proof. destruct (validatePayload _ _ _ _); simpl; [done|]. by intros [= <-]. Qed.

Lemma accept_body_spec s e digest d :
  twp (accept_body canonical_uuid payload_length s e digest) (fun r d' _ => accept_effect s e digest r d d') d d.
Proof.
  unfold accept_body. apply twp_exec; [|done]. intros lk now. cbn [read].
  destruct (q_status d) as [st|] eqn:Hst; [|by apply twp_raise].
  apply twp_exec; [|by left]. intros lk1 now1. cbn [read].
  destruct (q_execs d !! _) as [x|] eqn:Hx.
  { unfold guard_m. destruct (x_digest x =? digest)%string eqn:Hd; bool_to_prop; simpl.
    - apply twp_ret. split; [done|]. by exists x.
    - apply twp_raise. split; [done|]. by exists x. }
  destruct (ws_owner st) as [owner|] eqn:Ho; [|by apply twp_raise].
  destruct (ws_pid st) as [pid|] eqn:Hp; [|by apply twp_raise].
  destruct (ws_heartbeat st) as [hb|] eqn:Hh; [|by apply twp_raise].
  apply twp_guard; [done|]. intros Hown. apply twp_exec; [|by left]. intros lk2 now2. cbn [db_now read].
  apply twp_guard; [done|]. intros Hstale. apply twp_guard; [done|]. intros Hdl.
  apply twp_exec; [|done]. intros lk3 now3. cbn [read]. apply twp_guard; [done|]. intros Hj.
  destruct (q_jobs d !! xe_JobID e) as [j|] eqn:Hjob; [|done].
  destruct (validatePayload _ _ _ _) as [payload|err] eqn:Hv; cbn [map_err].
  2: { apply twp_bind, twp_lift. done. }
  apply twp_bind, twp_lift. exists d. split; [done|].
  assert (ws_running st = true /\ owner = xe_OwnerID e /\ ws_generation st = xe_Generation e) as (Hrun & -> & Hg).
  { bool_to_prop. auto. }
  rewrite Hg. bool_to_prop.
  apply twp_worker_lease; [done|]. intros Hw. apply twp_guard_lock; [done|]. intros Hguard.
  apply twp_guard; [done|]. intros _.
  apply twp_exec; [|by left]. intros lk4 now4. unfold insert_receipt. rewrite Hx.
  assert (admitted s e d j payload) as Had by (split; eauto).
  assert (receipt_inserted s e digest (pg_time now4) d (set_execs (<[(xe_JobID e, xe_Attempt e) :=
    accepted_row s e digest (xe_Generation e) (pg_time now4)]> (q_execs d)) d)) as Hins by done.
  apply twp_commit; [|right; eauto|by left]. cbn [accept_effect]. eauto 6.
Qed.

Lemma accept_effect_evolves s e digest r d d' : accept_effect s e digest r d d' -> q_evolves d d'.
Proof.
  assert (forall j payload now, admitted s e d j payload -> receipt_inserted s e digest now d d' -> q_evolves d d') as Hins.
  { intros j payload now Ha [Hx E]. destruct (ad_job _ _ _ _ _ Ha) as [Hj Hc]. rewrite E. eapply q_evolves_new_exec; [exact Hj| |done].
    unfold job_current in Hc. bool_to_prop. lia. }
  destruct r as [[receipt []]|[]]; cbn [accept_effect]; try (by intros E; rewrite E).
  - intros (j & payload & now & Ha & Hi & _). eauto.
  - by intros [E _]; rewrite E.
  - by intros [E _]; rewrite E.
  - intros [E|(j & payload & now & Ha & Hi)]; [by rewrite E|eauto].
Qed.

Lemma acceptAttempt_evolves s e digest : keeps q_evolves (acceptAttempt canonical_uuid payload_length s e digest).
Proof.
  apply keeps_with_tx_twp; [apply _|]. intros d. eapply twp_mono; [apply accept_body_spec|].
  intros r d' tx'. apply accept_effect_evolves.
Qed.

(** C9: Whatever fails and whoever else writes, accepting an attempt either
    changes nothing or adds exactly one receipt.  It answers with the stored
    receipt when one with the same digest exists, with a conflict when its digest
    differs, and it creates a receipt only when the current worker sent the
    envelope for the attempt its job is running, with a valid payload, under this
    executor's guard and within the deadline window; the answer then carries the
    validated payload.  A receipt may also have been created by a commit that
    reported a database error. *)
Theorem acceptAttempt_exact s e digest w :
  w_tx w = None ->
  accept_effect s e digest (acceptAttempt canonical_uuid payload_length s e digest w).1 (found w)
    (w_db (acceptAttempt canonical_uuid payload_length s e digest w).2).
Proof.
  intros Htx. unfold acceptAttempt.
  apply (with_tx_spec _ _ (fun r d' => accept_effect s e digest r (found w) d')); [done|by left|]. apply accept_body_spec.
Qed.
End AcceptSpec.

(** ** Reprocessing resets a job's articles once *)

Definition articles_reset (force : bool) (ids : list Z) (m : gmap Z article_row) : gmap Z article_row :=
  map_imap (fun id a => Some (if bool_decide (id ∈ ids) then reset_article force a else a)) m.

Definition reprocess_effect (s : Server) (key : attempt_key) (x : ExecutionContext) (force : bool) (ids : list Z)
    (d d' : qtables) : Prop :=
  d' = d \/
  fenced s key x d /\ exists j now, q_jobs d !! key.1 = Some j /\ j_initialized j = None /\
    d' = set_jobs (<[key.1 := mark_initialized (pg_time now) j]> (q_jobs d))
           (set_articles (articles_reset force ids (q_articles d)) d).

Lemma reprocess_tx_spec s key x force ids d :
  twp (reprocess_tx s key x force ids)
    (fun r d' _ => reprocess_effect s key x force ids d d' /\
       (r = Ok tt -> fenced s key x d /\ exists j, q_jobs d' !! key.1 = Some j /\ is_Some (j_initialized j))) d d.
Proof.
  apply twp_fence; [split; [by left|done]|]. intros Hf.
  apply twp_exec; [|split; [by left|done]]. intros lk now. cbn [read].
  destruct (q_jobs d !! key.1) as [j|] eqn:Hj; [|apply twp_raise; split; [by left|done]].
  destruct (j_initialized j) as [i|] eqn:Hi.
  { apply twp_commit; [|split; [by left|done]..]. split; [by left|]. intros _. split; [done|]. exists j. rewrite Hi. eauto. }
  apply twp_exec; [|split; [by left|done]]. intros lk1 now1. cbn [reset_articles write].
  apply twp_exec; [|split; [by left|done]]. intros lk2 now2. unfold stamp_initialized. cbn [write q_jobs set_articles].
  rewrite Hj, Hi.
  assert (reprocess_effect s key x force ids d (set_jobs (<[key.1 := mark_initialized (pg_time now2) j]> (q_jobs d))
           (set_articles (articles_reset force ids (q_articles d)) d))) as He by (right; eauto 6).
  apply twp_commit; [|split; done|split; [by left|done]]. split; [done|]. intros _. split; [done|].
  exists (mark_initialized (pg_time now2) j). cbn [q_jobs set_jobs]. rewrite lookup_insert_eq. eauto.
Qed.

Lemma reprocess_effect_evolves s key x force ids d d' : reprocess_effect s key x force ids d d' -> q_evolves d d'.
Proof.
  intros [->|(Hf & j & now & Hj & _ & ->)]; [reflexivity|].
  transitivity (set_articles (articles_reset force ids (q_articles d)) d); [apply q_evolves_articles|].
  set (t := set_articles _ d). change (q_jobs d) with (q_jobs t).
  apply (q_evolves_owned_job t key.1 j); [done|split_and!; [done|simpl; lia|done]|done|by left].
Qed.

Lemma initializeArticleReprocess_evolves s key x payload : keeps q_evolves (initializeArticleReprocess s key x payload).
Proof.
  unfold initializeArticleReprocess. destruct (unmarshal_reprocess payload) as [[ids force]|]; [|apply keeps_raise].
  apply keeps_bind; [apply keeps_guard|]. intros _. apply keeps_with_tx_twp; [apply _|]. intros d.
  eapply twp_mono; [apply reprocess_tx_spec|]. intros r d' tx' [He _]. eapply reprocess_effect_evolves, He.
Qed.

(** The reset of a reprocessing job writes at most once in the job's life: in
    one commit it resets the selected articles (all four flags when forced, only
    [processed] otherwise), leaves every other article alone and marks the job
    initialized, and it does so only under the attempt's fence while the mark is
    absent; success means that the mark is there. *)
Theorem reprocess_once s key x payload w :
  w_tx w = None ->
  let '(r, w') := initializeArticleReprocess s key x payload w in
  let d := found w in let d' := w_db w' in
  (r = Ok tt -> exists j, q_jobs d' !! key.1 = Some j /\ is_Some (j_initialized j)) /\
  (d' = w_db w \/ d' = d \/ exists ids force, unmarshal_reprocess payload = Some (ids, force) /\ fenced s key x d /\
     (exists j, q_jobs d !! key.1 = Some j /\ j_initialized j = None) /\
     (forall id, q_articles d' !! id =
        (fun a => if bool_decide (id ∈ ids) then reset_article (default true force) a else a) <$> q_articles d !! id) /\
     q_execs d' = q_execs d /\ q_status d' = q_status d /\ (forall id, id <> key.1 -> q_jobs d' !! id = q_jobs d !! id)).
Proof.
  intros Htx. unfold initializeArticleReprocess.
  destruct (unmarshal_reprocess payload) as [[ids force]|] eqn:Hu; [|by split; [|left]].
  destruct (Z.of_nat (length ids) =? 0); [by split; [|left]|]. cbn [guard_m].
  change ((mret tt ≫= fun _ => with_tx ErrDatabase (reprocess_tx s key x (default true force) ids)) w)
    with (with_tx ErrDatabase (reprocess_tx s key x (default true force) ids) w).
  pose proof (with_tx_spec ErrDatabase (reprocess_tx s key x (default true force) ids)
    (fun r d' => reprocess_effect s key x (default true force) ids (found w) d' /\
       (r = Ok tt -> exists j, q_jobs d' !! key.1 = Some j /\ is_Some (j_initialized j))) w Htx) as Hs.
  destruct (with_tx _ _ w) as [r w']. destruct Hs as [He Hok].
  { split; [by left|done]. }
  { eapply twp_mono; [apply reprocess_tx_spec|]. intros r0 d' _ [He Hok]. split; [done|]. intros E. by apply Hok. }
  cbn [fst snd] in He, Hok |- *. split; [done|]. right. destruct He as [->|(Hf & j & now & Hj & Hi & ->)]; [by left|right].
  exists ids, force. split_and!; [done|done|eauto| |done|done|].
  - intros id. cbn [q_articles set_jobs set_articles]. unfold articles_reset. rewrite map_lookup_imap.
    by destruct (q_articles (found w) !! id).
  - intros id Hne. cbn [q_jobs set_jobs]. by rewrite lookup_insert_ne.
Qed.

(** ** The outcome of an attempt *)

Lemma xterminal_of s : xterminal (xstate_of s) = true.
Proof. unfold xstate_of. by repeat case_match. Qed.

Definition error_code (state : xstate) : string :=
  match state with
  | XDeliveryUnknown => "external_outcome_unknown"
  | XInterrupted => "worker_interrupted"
  | XFailed => "worker_error"
  | _ => ""
  end.

Lemma failure_disposition kind payload e c state code :
  pipelineFailureDisposition kind payload e c = (state, code) ->
  xstate_of state <> XSucceeded /\ code = error_code (xstate_of state) /\
  (xstate_of state = XDeliveryUnknown <-> DeliveryOutcomeUnknown kind payload e = true).
Proof.
  unfold pipelineFailureDisposition. destruct (DeliveryOutcomeUnknown _ _ _); [by intros [= <- <-]|].
  by destruct (_ || _); intros [= <- <-].
Qed.

Lemma upsert_allowed (allowed : list string) k (v : json) m : k ∈ allowed -> Forall (fun kv => kv.1 ∈ allowed) m -> Forall (fun kv => kv.1 ∈ allowed) (upsert k v m).
Proof.
  intros Hk. induction 1 as [|[k' v'] m Hx Hm IH]; simpl; [by repeat constructor|].
  destruct (k =? k')%string; constructor; done.
Qed.

Lemma safeResult_keys n raw m : safeResult n raw = Ok m -> Forall (fun kv => kv.1 ∈ result_keys) m.
Proof.
  unfold safeResult. destruct (n =? 0); [intros [= <-]; constructor|]. intros H. ok_inv.
  destruct (strictRawObject raw) as [m'|]; [|done]. ok_inv.
  apply Forall_forall. intros [k v] Hin.
  match goal with H : negb (forallb check_member _) = false |- _ => apply negb_false_iff in H | _ => idtac end.
  match goal with H : forallb check_member _ = true |- _ =>
    rewrite forallb_forall in H; specialize (H (k, v) (proj1 (list_elem_of_In _ _) Hin)); revert H end.
  unfold check_member. case_bool_decide as E; [done|]. done.
Qed.

Lemma source_test_projection_spec bounded state code m :
  source_test_projection bounded = (state, code, m) ->
  code = error_code state /\ (state = XSucceeded \/ state = XFailed) /\
  (state = XSucceeded <-> get m "connection_ok" = Some (JBool true)) /\
  (Forall (fun kv => kv.1 ∈ result_keys) bounded -> Forall (fun kv => kv.1 ∈ result_keys) m).
Proof.
  assert (forall k, k ∈ ["connection_ok"; "status"] -> k ∈ result_keys) as Hk.
  { intros k. rewrite !elem_of_cons, elem_of_nil. intros [->|[->|[]]]; by apply (bool_decide_eq_true _). }
  unfold source_test_projection. destruct (match unmarshal_bool _ with Some b => _ | None => _ end) as [[]|]; intros [= <- <- <-].
  - split_and!; [done|by left|by rewrite get_upsert|]. intros. apply upsert_allowed; [|done]. apply Hk. left.
  - split_and!; [done|by right| |].
    + rewrite !get_upsert. done.
    + intros. apply upsert_allowed; [|apply upsert_allowed; [|done]]; apply Hk; [right; left|left].
  - split_and!; [done|by right|done|]. intros _. apply (bool_decide_eq_true _). by_eval.
Qed.

(** The state and code before the projection of source tests. *)
Definition settled (kind : string) (payload : list (string * json)) (o : pipeline_outcome) (state : xstate) : Prop :=
  xterminal state = true /\
  (state = XSucceeded -> po_error o = None /\ po_context o = StillOpen /\ is_ok (safeResult (po_length o) (po_value o)) = true) /\
  (mayDeliver kind (Some (JObj payload)) = true ->
     match po_error o with Some (Failure (Some false) _) => False | _ => True end -> state = XSucceeded \/ state = XDeliveryUnknown) /\
  (mayDeliver kind (Some (JObj payload)) = false -> state = XDeliveryUnknown ->
     exists canceled, po_error o = Some (Failure (Some true) canceled)).

Lemma failure_settled kind payload o state code :
  pipelineFailureDisposition kind (Some (JObj payload)) (po_error o) (po_context o) = (state, code) ->
  settled kind payload o (xstate_of state) /\ code = error_code (xstate_of state).
Proof.
  intros Hd. apply failure_disposition in Hd as (Hs & Hc & Hu). split; [|done].
  split_and!; [apply xterminal_of|done| |].
  - intros Hm He. right. apply Hu. unfold DeliveryOutcomeUnknown. by destruct (po_error o) as [[[[]|] ?]|].
  - intros Hm Hx%Hu. unfold DeliveryOutcomeUnknown in Hx. destruct (po_error o) as [[[[]|] c]|]; try congruence. by exists c.
Qed.

Lemma warning_keys : Forall (fun kv : string * json => kv.1 ∈ result_keys) status_warning.
Proof. apply (bool_decide_eq_true _). by_eval. Qed.

Lemma settle_spec kind payload o state code bounded :
  settle kind payload o = (state, code, bounded) ->
  settled kind payload o state /\ code = error_code state /\ Forall (fun kv => kv.1 ∈ result_keys) bounded.
Proof.
  unfold settle. assert (safeResult 20 (Some (JObj status_warning)) = Ok status_warning) as -> by by_eval.
  destruct (match po_error o with Some _ => true | None => _ end) eqn:Hf.
  - destruct (pipelineFailureDisposition _ _ _ _) as [s c] eqn:Hd. intros [= <- <- <-].
    apply failure_settled in Hd as [Hs Hc]. auto using warning_keys.
  - assert (po_error o = None /\ po_context o = StillOpen) as [He Hx]
      by (destruct (po_error o), (po_context o); done).
    destruct (safeResult _ _) as [m|e] eqn:Hv.
    + intros [= <- <- <-]. split_and!; [|done|by eapply safeResult_keys]. unfold settled. rewrite He, Hx, Hv. naive_solver.
    + unfold settled. rewrite He. destruct (mayDeliver _ _); intros [= <- <- <-]; (split_and!; [..|done|apply warning_keys]); naive_solver.
Qed.

(** The terminal state of an attempt follows from what its pipeline left.
    The state is terminal and its error code is the one of that state; success
    means that the handler reported no error, the context was still open, the
    result was acceptable and a source test reached its source.  A job that may
    deliver never ends as plain failed or interrupted unless its handler declared
    that no delivery had started, and a job that cannot deliver ends as unknown
    only when its handler declared that one may have started.  The stored result
    has only the known members. *)
Theorem disposition_safe kind payload o elapsed state code m :
  disposition kind payload o elapsed = (state, code, m) ->
  xterminal state = true /\ code = error_code state /\
  (state = XSucceeded ->
     po_error o = None /\ po_context o = StillOpen /\ is_ok (safeResult (po_length o) (po_value o)) = true /\
     (kind = "source_test" -> get m "connection_ok" = Some (JBool true))) /\
  (mayDeliver kind (Some (JObj payload)) = true ->
     match po_error o with Some (Failure (Some false) _) => False | _ => True end -> state = XSucceeded \/ state = XDeliveryUnknown) /\
  (mayDeliver kind (Some (JObj payload)) = false -> state = XDeliveryUnknown ->
     exists canceled, po_error o = Some (Failure (Some true) canceled)) /\
  Forall (fun kv => kv.1 ∈ result_keys) m.
Proof.
  unfold disposition. destruct (settle kind payload o) as [[state1 code1] b] eqn:Hs.
  apply settle_spec in Hs as ((S1 & S2 & S3 & S4) & -> & Hb).
  apply (upsert_allowed _ "duration_seconds" (duration_seconds elapsed)) in Hb; [|by apply (bool_decide_eq_true _)].
  destruct ((kind =? "source_test")%string && bool_decide (state1 = XSucceeded)) eqn:E.
  - intros Hp. apply source_test_projection_spec in Hp as (-> & Hst & Hok & Hkeys). bool_to_prop. subst.
    split_and!; [by destruct Hst as [->| ->]|done|intros E; naive_solver|..|by apply Hkeys].
    + done.
    + intros _ ->. by destruct Hst.
  - intros [= <- <- <-]. split_and!; try done. intros Hsu. destruct (S2 Hsu) as (A & B & C). split_and!; [done..|].
    intros ->. by rewrite Hsu in E.
Qed.

Lemma disposition_safe_witness :
  let o := PipelineOutcome 2 (Some (JObj [])) (Some (Failure None true)) Canceled in
  let m := [("status", JStr "warning"); ("duration_seconds", JNum "1.5")] in
  disposition "telegram_digest" [] o (3 * Second / 2) = (XDeliveryUnknown, "external_outcome_unknown", m) /\
  xterminal XDeliveryUnknown = true.
Proof.
  set (o := PipelineOutcome _ _ _ _). set (m := [_; _]).
  assert (disposition "telegram_digest" [] o (3 * Second / 2) = (XDeliveryUnknown, "external_outcome_unknown", m)) as H by by_eval.
  split; [exact H|]. exact (proj1 (disposition_safe _ _ _ _ _ _ _ H)).
Defined.

(** ** What an executor may write to a receipt *)

Section Authority.
Context `{Postgres}.

Definition authority (s : Server) (key : attempt_key) (r : exec_row) (d : qtables) : Prop :=
  exists x, fenced s key x d /\ x_owner r = Some (xc_OwnerID x) /\ x_generation r = Some (xc_Generation x).

(** Nothing, or the open receipt of this attempt is closed while the worker that
    it names still owns the job. *)
Definition closing_effect (s : Server) (key : attempt_key) (closed : exec_row -> option (xstate * string * json)) (d d' : qtables) : Prop :=
  d' = d \/ exists r state code result now,
    q_execs d !! key = Some r /\ receipt_open r = true /\ x_instance r = sv_instance s /\ authority s key r d /\
    closed r = Some (state, code, result) /\
    d' = set_execs (<[key := close_receipt state code result (pg_time now) r]> (q_execs d)) d.

Lemma contextForReceipt_spec s key d (Q : result exec_error ExecutionContext -> qtables -> Prop) :
  (forall e, Q (Err e) d) ->
  (forall r x, q_execs d !! key = Some r -> x_owner r = Some (xc_OwnerID x) -> x_generation r = Some (xc_Generation x) -> Q (Ok x) d) ->
  qwp (contextForReceipt s key) Q d.
Proof.
  intros He Hok. unfold contextForReceipt. apply qwp_bind, qwp_read; [|apply He]. intros now.
  destruct (q_execs d !! key) as [r|] eqn:Hr; [|apply qwp_raise, He].
  destruct (x_owner r) as [o|] eqn:Ho; [|apply qwp_raise, He].
  destruct (x_generation r) as [g|] eqn:Hg; [|apply qwp_raise, He].
  destruct (q_status d ≫= ws_pid) as [p|]; [|apply qwp_raise, He].
  destruct (x_deadline r) as [dl|]; [|apply qwp_raise, He].
  apply qwp_ret. eapply Hok; [done|by rewrite Ho|by rewrite Hg].
Qed.

Lemma closing_of_receipt_effect s key x r state code result d d' :
  q_execs d !! key = Some r -> x_owner r = Some (xc_OwnerID x) -> x_generation r = Some (xc_Generation x) ->
  receipt_effect s key x [XAccepted; XRunning] (close_receipt state code result) d d' ->
  closing_effect s key (fun _ => Some (state, code, result)) d d'.
Proof.
  intros Hr Ho Hg [->|(Hf & r' & now & Hr' & Hin & ->)]; [by left|right].
  assert (r' = r) as -> by congruence. exists r, state, code, result, now.
  destruct (fc_receipt _ _ _ _ Hf) as (r2 & dl & Hr2 & _ & Hi & Hop). assert (r2 = r) as -> by congruence.
  split_and!; [done..| |done|done]. by exists x.
Qed.

Lemma finish_spec s key state code result d :
  qwp (finish s key state code result)
    (fun r d' => r = Ok tt /\ closing_effect s key (fun _ => Some (state, code, result)) d d') d.
Proof.
  unfold finish. apply qwp_bind, qwp_try, contextForReceipt_spec; [intros e; apply qwp_ret; split; [done|by left]|].
  intros r x Hr Ho Hg. apply qwp_bind, qwp_try, qwp_with_tx.
  - eapply twp_mono; [apply finish_tx_spec|]. intros res d' _ [He _]. apply qwp_ret. split; [done|].
    by eapply closing_of_receipt_effect.
  - apply qwp_ret. split; [done|by left].
Qed.

(** The state in which a cancelled attempt is closed. *)
Definition canceled_as (j : job_row) (r : exec_row) : xstate * string * json :=
  (if bool_decide (x_state r = XRunning) && mayDeliver (j_kind j) (Some (j_payload j))
   then (XDeliveryUnknown, "external_outcome_unknown") else (XInterrupted, "worker_interrupted"),
   JObj [("status", JStr "warning")]).

(** The attempt of a job is closed as [canceled_as] says. *)
Definition canceled_in (d : qtables) (key : attempt_key) (r : exec_row) : option (xstate * string * json) :=
  (fun j => canceled_as j r) <$> q_jobs d !! key.1.

Lemma markCanceled_spec s key d :
  qwp (markCanceled s key)
    (fun r d' => closing_effect s key (canceled_in d key) d d' /\ (r = Ok tt -> d' <> d)) d.
Proof.
  assert (forall e : exec_error, closing_effect s key (canceled_in d key) d d /\ (Err (A:=unit) e = Ok tt -> d <> d)) as He
    by (intros; split; [by left|done]).
  apply qwp_bind, contextForReceipt_spec; [apply He|]. intros r x Hr Ho Hg.
  apply qwp_bind, qwp_read; [|apply He]. intros _. destruct (q_jobs d !! key.1) as [j|] eqn:Hj; [|apply qwp_raise, He].
  apply qwp_bind, qwp_guard; [intros _; apply He|]. intros Hrun.
  apply qwp_bind, qwp_read; [|apply He]. intros _. rewrite Hr.
  apply qwp_bind, qwp_guard; [intros _; apply He|]. intros Hinst.
  destruct (if _ && _ then _ else _) as [state code] eqn:Hcode.
  assert (canceled_in d key r = Some (state, code, JObj [("status", JStr "warning")])) as Hc.
  { unfold canceled_in. rewrite Hj. simpl. unfold canceled_as. by rewrite Hcode. }
  apply qwp_with_tx; [|apply He]. eapply twp_mono; [apply finish_tx_spec|]. intros res d' _ [Heff Hok]. split.
  - eapply closing_of_receipt_effect in Heff; [|done..]. destruct Heff as [->|(r' & st & c & re & now & H1 & H2 & H3 & H4 & H5 & ->)]; [by left|right].
    assert (r' = r) as -> by congruence. injection H5 as <- <- <-. exists r, state, code, (JObj [("status", JStr "warning")]), now. done.
  - intros E. destruct (Hok E) as (Hf & r' & now & Hr' & ->). assert (r' = r) as -> by congruence.
    destruct (fc_receipt _ _ _ _ Hf) as (r2 & dl & Hr2 & _ & Hi & Hop). assert (r2 = r) as -> by congruence.
    unfold receipt_open in Hop.
    rewrite bool_decide_eq_true_2 by (destruct (x_state r); [left|right; left|..]; done).
    intros E2. apply (f_equal (fun d => q_execs d !! key)) in E2. cbn [q_execs set_execs] in E2.
    rewrite lookup_insert_eq, Hr in E2. injection E2 as E2. apply (f_equal x_state) in E2. cbn [close_receipt set_exec x_state] in E2.
    rewrite <- E2 in Hop. by destruct (_ && _); injection Hcode as <- <-.
Qed.

(** While no other session writes, cancelling an attempt either changes
    nothing or closes its open receipt, and it does so only while the worker named
    in the receipt still owns the running job and this executor its guard.  The
    receipt becomes unknown exactly when it was running a job that may deliver, and
    interrupted otherwise; a success of the call means that this happened. *)
Theorem cancel_exact s key w :
  w_tx w = None -> calm (w_env w) ->
  let '(r, w') := markCanceled s key w in
  closing_effect s key (canceled_in (w_db w) key) (w_db w) (w_db w') /\ (r = Ok tt -> w_db w' <> w_db w).
Proof.
  intros Htx Hc. destruct (markCanceled_spec s key (w_db w) w eq_refl Htx Hc) as [H1 _]. by destruct (markCanceled s key w).
Qed.
End Authority.

(** ** Running an attempt *)

Lemma bind_agree {A B} (m : EM A) (k1 k2 : A -> EM B) (Q : A -> qtables -> Prop) w :
  w_tx w = None -> calm (w_env w) ->
  qwp m (fun r d => match r with Ok a => Q a d | Err _ => True end) (w_db w) ->
  (forall a w', w_tx w' = None -> calm (w_env w') -> Q a (w_db w') -> k1 a w' = k2 a w') ->
  (m ≫= k1) w = (m ≫= k2) w.
Proof.
  intros Htx Hc Hm Hk. destruct (Hm w eq_refl Htx Hc) as (HQ & H1 & H2). unfold mbind, M_bind.
  destruct (m w) as [[a|e] w']; [by apply Hk|done].
Qed.

Section Run.
Context `{Postgres}.

Lemma fail_attempt_evolves s key : keeps q_evolves (fail_attempt s key).
Proof. by apply close_attempt_evolves. Qed.

Lemma executionContext_evolves s key e : keeps q_evolves (executionContext s key e).
Proof.
  apply keeps_bind; [apply keeps_read, _|]. intros [[x|] [st|]]; try apply keeps_raise.
  destruct (ws_owner st), (ws_pid st), (x_deadline x); try apply keeps_raise.
  apply keeps_bind; [apply keeps_guard|]. intros _. apply keeps_bind; [apply keeps_lift|]. intros. apply keeps_ret.
Qed.

Lemma runAttempt_evolves pipeline s key e kind payload :
  (forall x k p, keeps q_evolves (pipeline x k p)) -> keeps q_evolves (runAttempt pipeline s key e kind payload).
Proof.
  intros Hp. apply keeps_bind; [apply keeps_app_now, _|]. intros t.
  destruct (negb _); [apply fail_attempt_evolves|].
  apply keeps_bind; [apply keeps_try, executionContext_evolves|]. intros [x|err]; [|apply fail_attempt_evolves].
  apply keeps_bind; [apply keeps_try, setRunning_evolves|]. intros [[]|err].
  2: { case_bool_decide; [|apply fail_attempt_evolves]. apply keeps_bind; [apply keeps_app_now, _|]. intros now.
       destruct (mayDeliver _ _); by apply close_attempt_evolves. }
  apply keeps_bind.
  { destruct (kind =? _)%string; [apply keeps_try, initializeArticleReprocess_evolves|apply keeps_ret]. }
  intros [[]|err]; [|destruct (_ || _); [apply keeps_ret|apply fail_attempt_evolves]].
  apply keeps_bind.
  { apply keeps_bind; [apply keeps_try, Hp|]. intros [o|err]; apply keeps_ret. }
  intros o. apply keeps_bind; [apply keeps_app_now, _|]. intros now.
  destruct (disposition kind payload o (now - t)) as [[state code] m] eqn:Hd.
  apply close_attempt_evolves. unfold disposition in Hd. destruct (settle kind payload o) as [[st1 c1] b] eqn:Hs.
  apply settle_spec in Hs as ((Ht & _) & _). destruct (_ && _); [|by injection Hd as <- _].
  apply source_test_projection_spec in Hd as (_ & [->| ->] & _); done.
Qed.

(** The receipt of the attempt is running, here and now. *)
Definition attempt_running (s : Server) (key : attempt_key) (d : qtables) : Prop :=
  exists x r, fenced s key x d /\ q_execs d !! key = Some r /\ x_state r = XRunning.

Lemma fenced_receipt s key x r r' d :
  q_execs d !! key = Some r -> fenced s key x d ->
  x_deadline r' = x_deadline r -> x_instance r' = x_instance r -> xterminal (x_state r') = false ->
  fenced s key x (set_execs (<[key := r']> (q_execs d)) d).
Proof.
  intros Hr [F1 F2 F3 (r2 & dl & Hr2 & Hd & Hi & Ho)] E1 E2 E3. split; [done|done|done|].
  assert (r2 = r) as -> by congruence. exists r', dl. cbn [q_execs set_execs]. rewrite lookup_insert_eq.
  split_and!; [done|congruence|congruence|]. unfold receipt_open. by rewrite E3.
Qed.

Lemma setRunning_running s key x d :
  qwp (setRunning s key x) (fun r d' => match r with Ok _ => attempt_running s key d' | Err _ => True end) d.
Proof.
  apply qwp_with_tx; [|done]. eapply twp_mono; [apply fenced_write_spec|]. intros [[]|e] d' _ [_ Hok]; [|done].
  destruct (Hok eq_refl) as (Hf & r & now & Hr & ->).
  destruct (fc_receipt _ _ _ _ Hf) as (r2 & dl & Hr2 & _ & _ & Ho). assert (r2 = r) as -> by congruence.
  case_bool_decide as Hin.
  - exists x, (start_receipt (pg_time now) r). split_and!; [by eapply fenced_receipt| |done].
    cbn [q_execs set_execs]. by rewrite lookup_insert_eq.
  - exists x, r. split_and!; [done..|]. unfold receipt_open in Ho. destruct (x_state r); try done. destruct Hin. left.
Qed.

Lemma initialize_running s key x payload d :
  attempt_running s key d ->
  qwp (initializeArticleReprocess s key x payload) (fun _ d' => attempt_running s key d') d.
Proof.
  intros Hr. unfold initializeArticleReprocess.
  destruct (unmarshal_reprocess payload) as [[ids force]|]; [|by apply qwp_raise].
  apply qwp_bind, qwp_guard; [done|]. intros _. apply qwp_with_tx; [|done].
  eapply twp_mono; [apply reprocess_tx_spec|]. intros r d' _ [[->|(Hf & j & now & Hj & _ & ->)] _]; [done|].
  destruct Hr as (x' & r' & [F1 F2 (j' & Hj' & Hc) F4] & Hx & Hst).
  exists x', r'. split_and!; [|done..]. split; [done|done| |done].
  exists (mark_initialized (pg_time now) j). cbn [q_jobs set_jobs]. rewrite lookup_insert_eq. split; [done|].
  by assert (j' = j) as -> by congruence.
Qed.

Lemma executionContext_total s key e d : qwp (executionContext s key e) (fun _ _ => True) d.
Proof.
  apply qwp_bind, qwp_read; [|done]. intros _. destruct (q_execs d !! key) as [x|]; [|by apply qwp_raise].
  destruct (q_status d) as [st|]; [|by apply qwp_raise].
  destruct (ws_owner st), (ws_pid st), (x_deadline x); try by apply qwp_raise.
  apply qwp_bind, qwp_guard; [done|]. intros _. apply qwp_bind, qwp_lift.
  destruct (GuardBackendPID s); [by apply qwp_ret|done].
Qed.

(** The pipeline of an attempt is only ever entered while its receipt is
    running under a held fence: two pipelines that agree on such worlds make the
    same attempt, from every world in which no other session interferes.  In
    particular an attempt whose start was refused, or whose articles could not be
    reset, never reaches the pipeline. *)
Theorem pipeline_runs_fenced p1 p2 s key e kind payload w :
  (forall x k p w', attempt_running s key (w_db w') -> p1 x k p w' = p2 x k p w') ->
  w_tx w = None -> calm (w_env w) ->
  runAttempt p1 s key e kind payload w = runAttempt p2 s key e kind payload w.
Proof.
  intros Hp Htx Hc. unfold runAttempt.
  eapply (bind_agree _ _ _ (fun _ _ => True)); [done|done|by apply qwp_app_now|]. clear w Htx Hc. intros t w Htx Hc _.
  destruct (negb _); [done|].
  eapply (bind_agree _ _ _ (fun _ _ => True)); [done|done| |].
  { apply qwp_try. eapply qwp_mono; [apply executionContext_total|done]. }
  clear w Htx Hc. intros [x|err] w Htx Hc _; [|done].
  eapply (bind_agree _ _ _ (fun r d => match r with Ok _ => attempt_running s key d | _ => True end)); [done|done| |].
  { apply qwp_try, setRunning_running. }
  clear w Htx Hc. intros [[]|err] w Htx Hc Hrun; [|done].
  eapply (bind_agree _ _ _ (fun r d => attempt_running s key d)); [done|done| |].
  { destruct (kind =? _)%string; [by apply qwp_try, initialize_running|by apply qwp_ret]. }
  clear w Htx Hc Hrun. intros [[]|err] w Htx Hc Hrun; [|done].
  assert (run_pipeline p1 x kind payload w = run_pipeline p2 x kind payload w) as E.
  { unfold run_pipeline, mbind, M_bind, try. by rewrite (Hp x kind payload w Hrun). }
  unfold mbind at 1, M_bind at 1. rewrite E. done.
Qed.
End Run.

(** ** Histories of the executor *)

(** One call that reaches the tables; each names the server as it was then. *)
Inductive xrequest :=
| XAccept (s : Server) (e : Envelope) (digest : string)
| XRun (s : Server) (key : attempt_key) (e : Envelope) (kind : string) (payload : list (string * json))
| XCancel (s : Server) (key : attempt_key)
| XLoad (key : attempt_key).

Section History.
Context `{Postgres} (canonical_uuid : string -> bool) (payload_length : json -> Z)
  (pipeline : ExecutionContext -> string -> list (string * json) -> EM pipeline_outcome).

(** A call whose error has been answered to its caller. *)
Definition xstep (r : xrequest) : EM unit :=
  match r with
  | XAccept s e digest => _ ← try (acceptAttempt canonical_uuid payload_length s e digest); mret tt
  | XRun s key e kind payload => _ ← try (runAttempt pipeline s key e kind payload); mret tt
  | XCancel s key => _ ← try (markCanceled s key); mret tt
  | XLoad key => _ ← try (loadReceipt key); mret tt
  end.

Lemma xstep_evolves r : (forall x k p, keeps q_evolves (pipeline x k p)) -> keeps q_evolves (xstep r).
Proof.
  intros Hp. destruct r; apply keeps_bind; try (intros; apply keeps_ret); apply keeps_try;
    auto using acceptAttempt_evolves, runAttempt_evolves, markCanceled_evolves.
  apply keeps_bind; [apply keeps_read, _|]. intros. apply keeps_ret.
Qed.

(** Every history of executor calls, under any failures and among any
    sessions that keep the queue's rules (the worker's do), keeps them too: at
    most one job runs, jobs and receipts only move forward, a terminal receipt and
    a terminal job never change again, receipts belong to attempts that were
    made, and a job of unknown delivery is never removed. *)
Theorem executor_history_safe rs w :
  (forall x k p, keeps q_evolves (pipeline x k p)) ->
  w_tx w = None -> rely q_evolves (w_env w) ->
  q_evolves (w_db w) (w_db (for_each xstep rs w).2).
Proof.
  intros Hp Htx Hr. apply keeps_sound; [apply _| |done|done]. apply keeps_for_each. intros r. by apply xstep_evolves.
Qed.
End History.

(** ** A sample executor *)

Module ExecSample.

#[local] Instance pg_plain : Postgres := {
  jsonb j := j; jsonb_eqb a b := bool_decide (marshal a = marshal b); text_leb := String.leb; uuid_leb := String.leb;
}.

Definition owner : string := "11111111-1111-4111-8111-111111111111".
Definition instance : string := "22222222-2222-4222-8222-222222222222".
Definition now : Z := 1700000000 * Second.
Definition server : Server := MkServer instance 7 (MkHandlers true true true) [] true false false.
Definition job : job_row :=
  JobRow "telegram_digest" (JObj []) None 1 Running (Some 3) 1 0 (Some now) None None None None None.
Definition tables : qtables :=
  QTables {[ "j" := job ]} (Some (StatusRow 3 (Some owner) (Some 5) (Some now) true)) ∅ (Some 5) (Some 7) ∅ ∅.
Definition envelope : Envelope := MkEnvelope 1 "j" owner 3 1 (now + 600 * Second) (rfc3339nano (now + 600 * Second)) "d".
Definition world0 : world qtables := World tables None now [].
Definition accept1 : EM (Receipt * bool) := acceptAttempt (fun _ => true) (fun _ => 2) server envelope "d".
Definition world1 : world qtables := (accept1 world0).2.
(** A pipeline that fails after its delivery may have started. *)
Definition lost_pipeline : ExecutionContext -> string -> list (string * json) -> EM pipeline_outcome :=
  fun _ _ _ => mret (PipelineOutcome 0 None (Some (Failure None true)) Canceled).
Definition world2 : world qtables := (runAttempt lost_pipeline server ("j", 1) envelope "telegram_digest" [] world1).2.

End ExecSample.
#[local] Existing Instance ExecSample.pg_plain.

Lemma acceptAttempt_exact_witness :
  let '(r, w') := acceptAttempt (fun _ => true) (fun _ => 2) ExecSample.server ExecSample.envelope "d" ExecSample.world0 in
  (x_state <$> q_execs (w_db w') !! ("j", 1)) = Some XAccepted /\
  accept_effect (fun _ => true) (fun _ => 2) ExecSample.server ExecSample.envelope "d" r (found ExecSample.world0) (w_db w').
Proof.
  assert ((x_state <$> q_execs (w_db ExecSample.world1) !! ("j", 1)) = Some XAccepted) as H1 by by_eval.
  pose proof (acceptAttempt_exact (fun _ => true) (fun _ => 2) ExecSample.server ExecSample.envelope "d" ExecSample.world0 eq_refl) as H2.
  unfold ExecSample.world1, ExecSample.accept1 in H1.
  destruct (acceptAttempt _ _ _ _ _ _) as [r w']. exact (conj H1 H2).
Defined.

Lemma executor_history_safe_witness :
  let w := World ExecSample.tables None ExecSample.now [] in
  let rs := [XAccept ExecSample.server ExecSample.envelope "d";
             XRun ExecSample.server ("j", 1) ExecSample.envelope "telegram_digest" []] in
  (x_state <$> q_execs ExecSample.world2.(w_db) !! ("j", 1)) = Some XDeliveryUnknown /\
  q_evolves (w_db w) (w_db (for_each (xstep (fun _ => true) (fun _ => 2) ExecSample.lost_pipeline) rs w).2).
Proof.
  split; [by_eval|]. apply executor_history_safe; [|done|constructor]. intros x k p. apply keeps_ret.
Defined.

Lemma cancel_exact_witness :
  let '(r, w') := markCanceled ExecSample.server ("j", 1) ExecSample.world1 in
  (x_state <$> q_execs (w_db w') !! ("j", 1)) = Some XInterrupted /\
  closing_effect ExecSample.server ("j", 1) (canceled_in (w_db ExecSample.world1) ("j", 1)) (w_db ExecSample.world1) (w_db w') /\
  (r = Ok tt -> w_db w' <> w_db ExecSample.world1).
Proof.
  assert ((x_state <$> q_execs (w_db (markCanceled ExecSample.server ("j", 1) ExecSample.world1).2) !! ("j", 1)) = Some XInterrupted)
    as H1 by by_eval.
  assert (w_env ExecSample.world1 = []) as E by by_eval. assert (w_tx ExecSample.world1 = None) as Etx by by_eval.
  pose proof (cancel_exact ExecSample.server ("j", 1) ExecSample.world1 Etx) as H2. rewrite E in H2.
  specialize (H2 (Forall_nil_2 _)). destruct (markCanceled _ _ _) as [r w']. exact (conj H1 H2).
Defined.

(** A pipeline that would misbehave on tables without receipts is never asked
    there. *)
Lemma pipeline_runs_fenced_witness :
  let p1 : ExecutionContext -> string -> list (string * json) -> EM pipeline_outcome := fun x k p w =>
    match map_to_list (q_execs (w_db w)) with [] => (Err ErrDatabase, w) | _ => ExecSample.lost_pipeline x k p w end in
  runAttempt p1 ExecSample.server ("j", 1) ExecSample.envelope "telegram_digest" [] ExecSample.world1 =
  runAttempt ExecSample.lost_pipeline ExecSample.server ("j", 1) ExecSample.envelope "telegram_digest" [] ExecSample.world1.
Proof.
  intros p1. apply (pipeline_runs_fenced p1).
  - intros x k p w (y & r & _ & Hr & _). unfold p1.
    destruct (map_to_list (q_execs (w_db w))) eqn:E; [|done].
    apply map_to_list_empty_iff in E. by rewrite E, lookup_empty in Hr.
  - by_eval.
  - assert (w_env ExecSample.world1 = []) as E by by_eval. rewrite E. constructor.
Defined.

Definition reprocess_world : world qtables :=
  let job := JobRow "article_reprocess" (JObj []) None 1 Running (Some 3) 1 0 (Some ExecSample.now) None None None None None in
  let row := ExecRow "d" ExecSample.instance (Some ExecSample.owner) (Some 3) (Some (ExecSample.now + 600 * Second)) XRunning
               ExecSample.now None None None None None in
  World (QTables {[ "j" := job ]} (q_status ExecSample.tables) {[ ("j", 1) := row ]} (Some 5) (Some 7) ∅
           {[ 4 := ArticleRow "completed" 2 None None true true true true; 9 := ArticleRow "completed" 1 None None true true true true ]})
    None ExecSample.now [].

Definition reprocess_context : ExecutionContext := MkContext "j" 1 ExecSample.owner 3 5 ExecSample.instance "" 7.
Definition reprocess_payload : list (string * json) := [("article_ids", JArr [JNum "4"]); ("force", JBool false)].

Lemma reprocess_once_witness :
  let '(r, w') := initializeArticleReprocess ExecSample.server ("j", 1) reprocess_context reprocess_payload reprocess_world in
  (a_processed <$> q_articles (w_db w') !! 4) = Some false /\ (a_processed <$> q_articles (w_db w') !! 9) = Some true /\
  (r = Ok tt -> exists j, q_jobs (w_db w') !! "j" = Some j /\ is_Some (j_initialized j)).
Proof.
  pose proof (reprocess_once ExecSample.server ("j", 1) reprocess_context reprocess_payload reprocess_world eq_refl) as Hr.
  assert ((a_processed <$> q_articles (w_db (initializeArticleReprocess ExecSample.server ("j", 1) reprocess_context
    reprocess_payload reprocess_world).2) !! 4) = Some false) as H4 by by_eval.
  assert ((a_processed <$> q_articles (w_db (initializeArticleReprocess ExecSample.server ("j", 1) reprocess_context
    reprocess_payload reprocess_world).2) !! 9) = Some true) as H9 by by_eval.
  destruct (initializeArticleReprocess _ _ _ _ _) as [r w']. exact (conj H4 (conj H9 (proj1 Hr))).
Defined.
