(* ===== verification/ExecServer.v ===== *)
(** * ExecServer: go-execution/http.go and execution.go

    The executor's HTTP handlers and the life of its server.  A handler works on
    the tables (monad [EM]) and on the fields of [Server] that [mu] protects;
    [mem k] is what other goroutines did to those fields before the handler's
    k-th use of the lock.  A handler answers a [response] and the fields it
    leaves; [accept] also says which attempt it started.

    Parameters: the uuid package, SHA-256, the length of the jsonb text, the cast
    of text to bigint, the table schedule_settings, and the handlers of the
    domain (pipeline readiness, finalizer, recovery). *)

From Stdlib Require Import Floats.SpecFloat.
From S2P Require Import Prelude JsonStrict GoTime Db GoText GoDecode GoParseTime QueueTables ExecPayload GoRune ExecStore.

(** ** Requests and responses *)

Record http_request := HttpRequest {
  rq_method : string;
  rq_rest : string;                (* the path after /internal/v1/job-executions/ *)
  rq_authorization : list string;  (* the values of the Authorization header *)
  rq_content_length : Z;
  rq_read_failed : bool;
  rq_body : raw_text;
}.

Record response := Response { rs_status : Z; rs_body : json }.

Definition writeErr (status : Z) (detail : string) : response := Response status (JObj [("detail", JStr detail)]).

(** [writeError] *)
Definition writeError (e : exec_error) : response :=
  match e with
  | ErrConflict => writeErr 409 "Execution attempt conflicts with its receipt"
  | ErrLeaseLost | ErrStaleAttempt => writeErr 409 "Worker lease or job attempt is not current"
  | ErrDeadline => writeErr 422 "deadline_at is outside the allowed window"
  | ErrInvalidPayload => writeErr 422 "Stored job is invalid"
  | ErrDatabase | ErrNotReady => writeErr 503 "Execution database unavailable"
  end.

(** [readBounded] *)
Definition readBounded (r : http_request) (limit : Z) : option raw_text :=
  if limit <? rq_content_length r then None
  else if rq_read_failed r || (limit <? rt_length (rq_body r)) then None
  else Some (rq_body r).

(** [json.Unmarshal(raw, &m)] into a map: nothing on an error or null *)
Definition unmarshal_map (raw : raw_text) : option (list (string * json)) :=
  match decode_next (rt_lexemes raw) (rt_ending raw) with
  | Ok (JObj ms, _) => Some (raw_map ms)
  | _ => None
  end.

(** [isExactEvent] *)
Definition isExactEvent (raw : raw_text) (name : string) : bool :=
  is_ok (rejectDuplicateKeys (rt_lexemes raw) (rt_ending raw)) &&
  match unmarshal_map raw with
  | Some [("event", JStr e)] => (e =? name)%string
  | _ => false
  end.

(** [strings.Split(rest, "/")] *)
Fixpoint split_slash (acc : list Z) (l : list Z) : list string :=
  match l with
  | [] => [string_of (rev acc)]
  | c :: l' => if c =? 47 then string_of (rev acc) :: split_slash [] l' else split_slash (c :: acc) l'
  end.

(** ** The fields under [mu] *)

Definition set_active (l : list attempt_key) (s : Server) : Server :=
  MkServer (sv_instance s) (sv_guardPID s) (sv_handlers s) l (sv_ready s) (sv_closed s) (sv_guardLost s).
Definition set_flags (ready closed lost : bool) (s : Server) : Server :=
  MkServer (sv_instance s) (sv_guardPID s) (sv_handlers s) (sv_active s) ready closed lost.
Definition SetHandlers (h : Handlers) (s : Server) : Server :=
  MkServer (sv_instance s) (sv_guardPID s) h (sv_active s) (sv_ready s) (sv_closed s) (sv_guardLost s).
Definition set_guardPID (pid : Z) (s : Server) : Server :=
  MkServer (sv_instance s) pid (sv_handlers s) (sv_active s) (sv_ready s) (sv_closed s) (sv_guardLost s).

(** [delete(s.active, key)] when an attempt's goroutine ends *)
Definition attempt_done (key : attempt_key) (s : Server) : Server :=
  set_active (filter (fun k => k <> key) (sv_active s)) s.

Definition InstanceID (s : Server) : string := sv_instance s.

(** What [watch] does when the guard is lost. *)
Definition guard_lost (s : Server) : Server := set_flags false (sv_closed s) true s.

Section Handlers.
Context (Token : string) (canonical_uuid : string -> bool) (sha256hex : string -> string) (payload_length : json -> Z).

(** [auth] *)
Definition auth (r : http_request) : option response :=
  if (Token =? "")%string then Some (writeErr 503 "Executor authentication is unavailable")
  else match rq_authorization r with
       | [v] => if (v =? "Bearer " +:+ Token)%string then None else Some (writeErr 401 "Unauthorized")
       | _ => Some (writeErr 401 "Unauthorized")
       end.

(** [ensureReady] *)
Definition ensureReady (s : Server) : option response :=
  if sv_ready s && negb (sv_closed s) then None else Some (writeErr 503 "Executor is not ready").

(** [if !s.check(w) { return }] *)
Definition unless {A} (r : option response) (stop : response -> A) (k : A) : A :=
  match r with Some x => stop x | None => k end.

(** An attempt whose goroutine [accept] starts. *)
Record launch := Launch { la_key : attempt_key; la_envelope : Envelope; la_kind : string; la_payload : list (string * json) }.

Definition receipt_reply (job : string) (attempt : Z) (instance state acceptedAt : string) (duplicate : bool) : response :=
  Response 202 (JObj [("job_id", JStr job); ("attempt_generation", JNum (itoa attempt)); ("executor_instance_id", JStr instance);
    ("state", JStr state); ("accepted_at", JStr acceptedAt); ("duplicate", JBool duplicate)]).

(** [accept] after the body has been read: it holds [admission] until it
    answers, so no other accept and no Close runs meanwhile. *)
Definition accept_envelope (mem : nat -> Server -> Server) (pipelineReady : bool) (s : Server) (e : Envelope) :
    EM (response * Server * option launch) :=
  let key := (xe_JobID e, xe_Attempt e) in
  let s := mem 1%nat s in
  let answer r := mret (r, s, None) in
  unless (ensureReady s) answer (
    prior ← try (loadReceipt key);
    match prior with
    | Err _ => answer (writeErr 503 "Execution receipt unavailable")
    | Ok (Some prior) =>
        if negb (xr_Digest prior =? xe_Digest e)%string then answer (writeErr 409 "Execution attempt conflicts with its receipt")
        else answer (receipt_reply (xr_JobID prior) (xr_Attempt prior) (xr_Instance prior) (xr_State prior) (xr_AcceptedAt prior) true)
    | Ok None =>
        let s := mem 2%nat s in
        let answer r := mret (r, s, None) in
        if negb (bool_decide (sv_active s = [])) then answer (writeErr 503 "Executor is busy")
        else if negb pipelineReady then answer (writeErr 503 "Execution pipeline is unavailable")
        else
          accepted ← try (acceptAttempt canonical_uuid payload_length s e (xe_Digest e));
          match accepted with
          | Err err => answer (writeError err)
          | Ok (receipt, false) =>
              answer (receipt_reply (xe_JobID e) (xe_Attempt e) (xr_Instance receipt) (xr_State receipt) (xr_AcceptedAt receipt) true)
          | Ok (receipt, true) =>
              let s := mem 3%nat s in
              if negb (bool_decide (sv_active s = [])) then mret (writeErr 503 "Executor is busy", s, None)
              else mret (receipt_reply (xe_JobID e) (xe_Attempt e) (xr_Instance receipt) (xr_State receipt) (xr_AcceptedAt receipt) false,
                         set_active (key :: sv_active s) s, Some (Launch key e (xr_Kind receipt) (xr_Payload receipt)))
          end
    end).

Definition accept (mem : nat -> Server -> Server) (pipelineReady : bool) (s : Server) (r : http_request) :
    EM (response * Server * option launch) :=
  let s := mem 0%nat s in
  let answer x := mret (x, s, None) in
  if negb (rq_method r =? "POST")%string then answer (writeErr 405 "Method not allowed")
  else unless (auth r) answer (unless (ensureReady s) answer (
    if negb (hs_Pipeline (sv_handlers s)) then answer (writeErr 503 "Execution pipeline is unavailable")
    else match readBounded r MaxEnvelopeBytes with
         | None => answer (writeErr 422 "request body is invalid")
         | Some raw =>
             match parseEnvelope canonical_uuid sha256hex raw with
             | Err _ => answer (writeErr 422 "request body is invalid")
             | Ok e => accept_envelope mem pipelineReady s e
             end
         end)).

(** [status] *)
Definition status (pipelineReady : bool) (s : Server) (r : http_request) : EM response :=
  unless (auth r) mret (
    if negb (sv_ready s) then mret (writeErr 503 "Executor is not ready")
    else
      ping ← try (exec db_err (read (fun _ _ => tt)));
      guard ← (match ping with Ok _ => try (checkExecutionGuardPool s) | Err e => mret (Err e) end);
      match guard with
      | Err _ => mret (writeErr 503 "Executor database is unavailable")
      | Ok _ =>
          if negb pipelineReady then mret (writeErr 503 "Execution pipeline is unavailable")
          else mret (Response 200 (JObj [("executor_instance_id", JStr (sv_instance s));
                 ("active_executions", JNum (itoa (Z.of_nat (length (sv_active s))))); ("ready", JBool true)]))
      end).

(** *** Reading a receipt, its context and its policy *)

Definition context_json (x : ExecutionContext) : json :=
  JObj [("version", JNum "1"); ("job_id", JStr (xc_JobID x)); ("attempt_generation", JNum (itoa (xc_AttemptGeneration x)));
        ("owner_id", JStr (xc_OwnerID x)); ("generation", JNum (itoa (xc_Generation x)));
        ("backend_pid", JNum (itoa (xc_BackendPID x))); ("executor_instance_id", JStr (xc_ExecutorInstanceID x));
        ("deadline_at", JStr (xc_DeadlineAt x))].

(** The job, the worker and the receipt are those of one running attempt. *)
Definition context_current (key : attempt_key) (rec : Receipt) (j : job_row) (w : status_row) : option (string * Z * Z) :=
  match xr_Generation rec, ws_owner w, xr_OwnerID rec, ws_pid w, ws_heartbeat w with
  | Some g, Some owner, Some receiptOwner, Some pid, Some _ =>
      if job_current g key.2 (Some j) && (owner =? receiptOwner)%string && (ws_generation w =? g) && ws_running w
      then Some (owner, g, pid) else None
  | _, _, _, _, _ => None
  end.

(** [contextEndpoint] *)
Definition contextEndpoint (mem : nat -> Server -> Server) (s : Server) (key : attempt_key) : EM response :=
  let s := mem 1%nat s in
  if negb (sv_ready s) then mret (writeErr 503 "Executor is not ready")
  else if negb (bool_decide (key ∈ sv_active s)) then mret (writeErr 409 "Execution attempt is not active")
  else
    rec ← try (loadReceipt key);
    match rec with
    | Ok None => mret (writeErr 404 "Execution receipt not found")
    | Err _ => mret (writeErr 503 "Execution receipt unavailable")
    | Ok (Some rec) =>
        if negb (xr_Instance rec =? sv_instance s)%string || negb (xr_State rec =? "running")%string
        then mret (writeErr 409 "Execution attempt is not current")
        else
          row ← try (exec db_err (read (fun _ d => (q_jobs d !! key.1, q_status d))));
          match row with
          | Ok (Some j, Some w) =>
              match context_current key rec j w with
              | None => mret (writeErr 409 "Execution attempt is not current")
              | Some (owner, gen, pid) =>
                  lease ← try (checkWorkerLeasePool owner gen pid);
                  match lease with
                  | Err _ => mret (writeErr 409 "Worker lease is not current")
                  | Ok _ =>
                      match GuardBackendPID (mem 2%nat s) with
                      | Err _ => mret (writeErr 503 "Executor guard is unavailable")
                      | Ok guardPID =>
                          match validatePayload canonical_uuid (j_kind j) (payload_length (j_payload j)) (Some (j_payload j)), xr_DeadlineAt rec with
                          | Err _, _ => mret (writeErr 422 "Stored job is invalid")
                          | Ok _, None => mret (writeErr 409 "Execution deadline is not current")
                          | Ok validated, Some text =>
                              match GuardBackendPID (mem 3%nat (mem 2%nat s)) with
                              | Err _ => mret (writeErr 503 "Executor guard is unavailable")
                              | Ok guardBackendPID =>
                                  now ← try (exec db_err db_now);
                                  match now, parse_rfc3339nano text with
                                  | Ok now, Some deadline =>
                                      if deadline <=? now then mret (writeErr 409 "Execution deadline is no longer current")
                                      else
                                        held ← try (exec db_err (read (fun _ d => bool_decide (q_guard_lock d = Some guardPID))));
                                        match held with
                                        | Ok true =>
                                            mret (Response 200 (JObj [("version", JNum "1");
                                              ("envelope", context_json (MkContext key.1 key.2 owner gen pid (sv_instance s)
                                                                           (canonicalDeadline deadline) guardBackendPID));
                                              ("executor_backend_pid", JNum (itoa guardPID)); ("kind", JStr (j_kind j)); ("payload", JObj validated)]))
                                        | _ => mret (writeErr 409 "Executor guard is no longer current")
                                        end
                                  | _, _ => mret (writeErr 409 "Execution deadline is no longer current")
                                  end
                              end
                          end
                      end
                  end
              end
          | _ => mret (writeErr 503 "Execution authority unavailable")
          end
    end.

Definition defaultTimeout (kind : string) : Z :=
  if (kind =? "telegram_digest")%string then 600
  else if (kind =? "backup")%string || (kind =? "reprocess_failed")%string then 1800
  else if (kind =? "source_test")%string then 300
  else 3600.

(** The float64 case of the configured timeout: [x > 0 && x <= 86400]. *)
Definition config_seconds (lit : string) : option Z :=
  '(neg, m, e) ← parse_decimal lit;
  let x := float_of_decimal m e in
  if negb neg && SFltb (S754_zero false) x && SFleb x (binary64 86400) then Some (float_trunc x) else None.

Section Policy.
Context (bigint_in : string -> option Z) (task_config : Z -> option json).

(** [(payload->>'schedule_id')::bigint]: nothing, NULL or a number. *)
Definition schedule_id_column (payload : json) : option (option Z) :=
  match payload with
  | JObj ms =>
      match get (raw_map ms) "schedule_id" with
      | None | Some JNull => Some None
      | Some (JNum text) | Some (JStr text) => Some <$> bigint_in text
      | Some _ => None
      end
  | _ => Some None
  end.

(** The timeout the schedule's configuration gives. *)
Definition config_timeout (config : json) (timeout : Z) : Z :=
  match config with
  | JObj ms =>
      match get (raw_map ms) "timeout_seconds" with
      | Some (JNum lit) => default timeout (config_seconds lit)
      | Some (JBool true) => 1
      | Some (JStr x) => match ParseInt x with
                         | Some parsed => if 0 <? parsed then Z.min parsed 86400 else timeout
                         | None => timeout
                         end
      | _ => timeout
      end
  | _ => timeout
  end.

Definition payload_timeout (payload : json) : option json :=
  match payload with JObj ms => get (raw_map ms) "timeout_seconds" | _ => None end.

(** The timeout a scheduled job carries in its payload. *)
Definition stored_timeout (raw : json) (timeout : Z) : Z :=
  match rawInt (Some raw) with
  | Some n => if (0 <? n) && (n <=? 86400) then n else timeout
  | None => timeout
  end.

Definition timeout_reply (n : Z) : response := Response 200 (JObj [("timeout_seconds", JNum (itoa n))]).

(** [policy]; [task_config] is the row of schedule_settings, if any *)
Definition policy (rawID : string) : EM response :=
  if negb (canonical_uuid rawID) then mret (writeErr 404 "Job not found")
  else
    row ← try (exec db_err (read (fun _ d => q_jobs d !! rawID)));
    match row with
    | Err _ => mret (writeErr 503 "Execution policy unavailable")
    | Ok None => mret (writeErr 404 "Job not found")
    | Ok (Some j) =>
        let timeout := defaultTimeout (j_kind j) in
        match schedule_id_column (j_payload j), j_schedule_key j, payload_timeout (j_payload j) with
        | None, _, _ => mret (writeErr 503 "Execution policy unavailable")
        | Some _, Some _, Some raw => mret (timeout_reply (stored_timeout raw timeout))
        | Some None, _, _ => mret (timeout_reply timeout)
        | Some (Some id), _, _ =>
            config ← try (exec db_err (read (fun _ _ => task_config id)));
            mret (timeout_reply (match config with Ok (Some c) => config_timeout c timeout | _ => timeout end))
        end
    end.
End Policy.

(** *** Cancelling, and the events of the worker *)

Definition receipt_not_found : response := writeErr 404 "Execution receipt not found".

(** [cancel]: stop the goroutine, revoke the attempt in the tables, wait for the
    goroutine for two seconds, answer the receipt as it is *)
Definition cancel `{Postgres} (mem : nat -> Server -> Server) (s : Server) (key : attempt_key) : EM (response * Server) :=
  let s := mem 1%nat s in
  _ ← (if bool_decide (key ∈ sv_active s) then _ ← try (markCanceled s key); mret tt else mret tt);
  let s := mem 2%nat s in
  rec ← try (loadReceipt key);
  match rec with
  | Ok None => mret (receipt_not_found, s)
  | Err _ => mret (writeErr 503 "Execution receipt unavailable", s)
  | Ok (Some rec) =>
      let s := mem 3%nat s in
      mret (Response 200 (JObj (Map rec ++ [("execution_stopped", JBool (negb (bool_decide (key ∈ sv_active s))));
                                            ("current_executor_instance_id", JStr (sv_instance s))])), s)
  end.

(** The worker's status row as the event handlers read it; the owner and the
    backend must not be NULL. *)
Definition running_worker (row : option status_row) : option (string * Z * Z) :=
  match row with
  | Some (StatusRow generation (Some owner) (Some pid) _ true) => Some (owner, generation, pid)
  | _ => None
  end.

Section Events.
Context (Finalize : ExecutionContext -> EM (option json)) (Recover : string -> Z -> Z -> EM (option json)).

(** An empty reply of a handler is replaced. *)
Definition handler_reply (out : option json) (empty : json) : response := Response 200 (default empty out).

(** [finalize] *)
Definition finalize (mem : nat -> Server -> Server) (s : Server) (r : http_request) (key : attempt_key) : EM response :=
  if negb (hs_Finalizer (sv_handlers s)) then mret (writeErr 503 "Finalization is unavailable")
  else if negb (match readBounded r MaxEnvelopeBytes with Some raw => isExactEvent raw "finalized" | None => false end)
  then mret (writeErr 422 "Unsupported job event")
  else
    row ← try (exec db_err (read (fun _ d => running_worker (q_status d))));
    match row with
    | Ok (Some (owner, generation, pid)) =>
        lease ← try (checkWorkerLeasePool owner generation pid);
        match lease with
        | Err _ => mret (writeErr 409 "Worker lease is not current")
        | Ok _ =>
            rec ← try (loadReceipt key);
            match rec with
            | Err _ => mret receipt_not_found
            | Ok rec =>
                match rec, key.2 with
                | None, Zpos _ | None, Zneg _ => mret receipt_not_found
                | _, _ =>
                    let deadline := default "" (rec ≫= xr_DeadlineAt) in
                    match GuardBackendPID (mem 1%nat s) with
                    | Err _ => mret (writeErr 503 "Executor guard is unavailable")
                    | Ok guardPID =>
                        out ← try (Finalize (MkContext key.1 key.2 owner generation pid (sv_instance s) deadline guardPID));
                        match out with
                        | Err _ => mret (writeErr 409 "Finalization could not be applied")
                        | Ok out => mret (handler_reply out (JObj []))
                        end
                    end
                end
            end
        end
    | _ => mret (writeErr 409 "Worker lease is not current")
    end.

(** The event of [workerEvents]: its owner and generation. *)
Definition recovered_event (raw : raw_text) : option (string * Z) :=
  if negb (is_ok (rejectDuplicateKeys (rt_lexemes raw) (rt_ending raw))) then None
  else match unmarshal_map raw with
       | Some m =>
           if negb (Z.of_nat (length m) =? 3) || negb (match get m "event" with Some (JStr e) => (e =? "recovered")%string | _ => false end)
           then None
           else match canonicalUUIDValue canonical_uuid (get m "owner_id"), positiveInt (get m "generation") with
                | Ok owner, Ok gen => Some (owner, gen)
                | _, _ => None
                end
       | None => None
       end.

(** [workerEvents] *)
Definition workerEvents (s : Server) (r : http_request) : EM response :=
  if negb (rq_method r =? "POST")%string then mret (writeErr 405 "Method not allowed")
  else unless (auth r) mret (unless (ensureReady s) mret (
    if negb (hs_Recovery (sv_handlers s)) then mret (writeErr 503 "Recovery is unavailable")
    else match readBounded r MaxEnvelopeBytes ≫= recovered_event with
         | None => mret (writeErr 422 "Worker event body is invalid")
         | Some (owner, gen) =>
             row ← try (exec db_err (read (fun _ d => running_worker (q_status d))));
             match row with
             | Ok (Some (o, g, pid)) =>
                 if negb ((o =? owner)%string && (g =? gen)) then mret (writeErr 409 "Worker lease is not current")
                 else
                   lease ← try (checkWorkerLeasePool owner gen pid);
                   match lease with
                   | Err _ => mret (writeErr 409 "Worker lease is not current")
                   | Ok _ =>
                       out ← try (Recover owner gen pid);
                       match out with
                       | Err _ => mret (writeErr 409 "Recovery could not be applied")
                       | Ok out => mret (handler_reply out (JObj [("event", JStr "recovered"); ("schedules_reconciled", JNum "0")]))
                       end
                   end
             | _ => mret (writeErr 409 "Worker lease is not current")
             end
         end)).

(** The routes under one attempt. *)
Inductive route := RPolicy (id : string) | RContext (key : attempt_key) | RCancel (key : attempt_key) | REvents (key : attempt_key)
  | RReceipt (key : attempt_key) | RNotFound.

Definition attempt_route (get_ post : bool) (key : attempt_key) (action : list string) : route :=
  if (key.2 =? 0) && negb (bool_decide (action = ["events"]) && post) then RNotFound
  else if bool_decide (action = ["context"]) && get_ then RContext key
  else if bool_decide (action = ["cancel"]) && post then RCancel key
  else if bool_decide (action = ["events"]) && post then REvents key
  else if bool_decide (action = []) && get_ then RReceipt key
  else RNotFound.

Definition route_of (r : http_request) : route :=
  let get_ := (rq_method r =? "GET")%string in
  let post := (rq_method r =? "POST")%string in
  match split_slash [] (bytes_of (rq_rest r)) with
  | id :: second :: action =>
      if bool_decide (action = []) && (second =? "policy")%string && get_ then RPolicy id
      else match ParseInt second with
           | Some attempt =>
               if negb (canonical_uuid id) || (attempt <? 0) || (2147483647 <? attempt) then RNotFound
               else attempt_route get_ post (id, attempt) action
           | None => RNotFound
           end
  | _ => RNotFound
  end.

Definition get_receipt (key : attempt_key) : EM response :=
  rec ← try (loadReceipt key);
  match rec with
  | Ok (Some rec) => mret (Response 200 (JObj (Map rec)))
  | Ok None => mret receipt_not_found
  | Err _ => mret (writeErr 503 "Execution receipt unavailable")
  end.

(** [executions] *)
Definition executions `{Postgres} (bigint_in : string -> option Z) (task_config : Z -> option json)
    (mem : nat -> Server -> Server) (s : Server) (r : http_request) : EM (response * Server) :=
  let s := mem 0%nat s in
  let with_server (m : EM response) : EM (response * Server) := m ≫= fun x => mret (x, s) in
  match auth r, ensureReady s with
  | Some x, _ | None, Some x => mret (x, s)
  | None, None =>
      match route_of r with
      | RPolicy id => with_server (policy bigint_in task_config id)
      | RContext key => with_server (contextEndpoint mem s key)
      | RCancel key => cancel mem s key
      | REvents key => with_server (finalize mem s r key)
      | RReceipt key => with_server (get_receipt key)
      | RNotFound => mret (receipt_not_found, s)
      end
  end.
End Events.
End Handlers.

(** ** The life of the server *)

Record Config := MkConfig {
  cf_DatabaseURL : string;
  cf_InstanceID : string;
  cf_MaxConns : Z;
  cf_QueryTimeout : Z;
  cf_GuardInterval : Z;
}.

Definition or_default (zero : Z) (v : Z) : Z := if v =? 0 then zero else v.

(** [New]; [random] is what uuid.NewRandom gives *)
Definition New (canonical_uuid : string -> bool) (random : option string) (cfg : Config) (h : Handlers) : option (Config * Server) :=
  let conns := or_default 2 (cf_MaxConns cfg) in
  let timeout := or_default (2 * Second) (cf_QueryTimeout cfg) in
  let interval := or_default (2 * Second) (cf_GuardInterval cfg) in
  if (cf_DatabaseURL cfg =? "")%string || (conns <? 1) || (timeout <=? 0) || (interval <=? 0) then None
  else
    instance ← (if (cf_InstanceID cfg =? "")%string then random
                else if canonical_uuid (cf_InstanceID cfg) then Some (cf_InstanceID cfg) else None);
    Some (MkConfig (cf_DatabaseURL cfg) (cf_InstanceID cfg) conns timeout interval, MkServer instance 0 h [] false false false).

(** The advisory lock of the guard's session: [pg_try_advisory_lock], and its
    release by [pg_advisory_unlock] or by the end of the session. *)
Definition try_guard (pid : Z) : stmt qtables bool := fun _ _ d =>
  match q_guard_lock d with
  | None => (Ok true, set_guard_lock (Some pid) d)
  | Some _ => (Ok false, d)
  end.
Definition release_guard (pid : Z) : stmt qtables bool := fun _ _ d =>
  if bool_decide (q_guard_lock d = Some pid) then (Ok true, set_guard_lock None d) else (Ok false, d).
Definition close_guard (pid : Z) : EM unit := _ ← try_exec (release_guard pid); mret tt.

(** A statement of which only success or failure matters. *)
Definition probe : EM bool := r ← try_exec (read (fun _ _ => tt)); mret (is_ok r).

(** [checkSchema]: the tables and the columns exist *)
Definition checkSchema : EM (option string) :=
  tables ← probe;
  if negb tables then mret (Some "execution schema is unavailable")
  else jobs ← probe;
    if negb jobs then mret (Some "execution job schema is incompatible")
    else worker ← probe;
      if negb worker then mret (Some "execution worker schema is incompatible")
      else receipts ← probe;
        if negb receipts then mret (Some "execution receipt schema is incompatible") else mret None.

(** [Close]; [drained] says that the attempts ended within the bound *)
Definition Close (drained : bool) (s : Server) : EM (option string * Server) :=
  if sv_closed s then mret (None, s)
  else
    let s := set_flags false true (sv_guardLost s) s in
    if negb drained then _ ← close_guard (sv_guardPID s); mret (Some "execution shutdown exceeded bound", s)
    else
      unlocked ← try_exec (release_guard (sv_guardPID s));
      match unlocked with
      | Ok true => mret (None, s)
      | _ => _ ← close_guard (sv_guardPID s); mret (Some "execution guard release failed", s)
      end.

(** [open]; [pid] is the backend of the guard's new session *)
Definition open (config_ok : bool) (pid : Z) (s : Server) : EM (option string * Server) :=
  let fail (text : string) : EM (option string * Server) := mret (Some text, s) in
  if negb config_ok then fail "execution configuration is invalid"
  else
    pool ← probe;
    ping ← (if negb pool then mret false else probe);
    if negb ping then fail "execution database unavailable"
    else
      guard ← probe;
      if negb guard then fail "execution guard connection unavailable"
      else
        acquired ← try_exec (try_guard pid);
        match acquired with
        | Err _ => _ ← close_guard pid; fail "execution guard unavailable"
        | Ok false => _ ← close_guard pid; fail "another executor owns this database"
        | Ok true =>
            identity ← probe;
            if negb identity || (pid <=? 0) then _ ← close_guard pid; fail "execution guard identity unavailable"
            else
              let s := set_guardPID pid s in
              schema ← checkSchema;
              match schema with
              | Some text => r ← Close true s; mret (Some text, r.2)
              | None => mret (None, s)
              end
        end.

(** [Open] *)
Definition Open (config_ok : bool) (pid : Z) (s : Server) : EM (option string * Server) :=
  r ← open config_ok pid s;
  match r with
  | (None, s) => mret (None, set_flags true (sv_closed s) (sv_guardLost s) s)
  | (Some e, s) => mret (Some e, s)
  end.

(** One tick of [watch]: [true] when it goes on. *)
Definition watch_tick (s : Server) : EM (bool * Server) :=
  held ← try_exec (read (fun _ d => bool_decide (q_guard_lock d = Some (sv_guardPID s))));
  match held with
  | Ok true => mret (true, s)
  | _ => mret (false, guard_lost s)
  end.

(** ** An attempt is started at most once *)

(** The receipt of the attempt exists, or its job has been pruned. *)
Definition seen (key : attempt_key) (d : qtables) : Prop := is_Some (q_execs d !! key) \/ key.1 ∈ q_retired d.

Lemma seen_evolves key d d' : q_evolves d d' -> seen key d -> seen key d'.
Proof.
  destruct key as [id a]. intros He [[x Hx]|Hr]; [|right; by apply (ev_retired _ _ He)].
  destruct (ev_execs _ _ He id a x Hx) as [(x' & Hx' & _)|Hr]; [left; eauto|by right].
Qed.

(** What other goroutines may do to the server's fields while [admission] is
    held: attempts end, the flags change. *)
Definition mem_rely (mem : nat -> Server -> Server) : Prop :=
  forall k s, sv_instance (mem k s) = sv_instance s /\ sv_guardPID (mem k s) = sv_guardPID s /\
    sv_active (mem k s) `sublist_of` sv_active s.

Section Admission.
Context (Token : string) (canonical_uuid : string -> bool) (sha256hex : string -> string) (payload_length : json -> Z).

(** What a launch rests on. *)
Definition launch_ok (s : Server) (la : launch) (d : qtables) : Prop :=
  la_key la = (xe_JobID (la_envelope la), xe_Attempt (la_envelope la)) /\
  (exists now, q_execs d !! la_key la =
     Some (accepted_row s (la_envelope la) (xe_Digest (la_envelope la)) (xe_Generation (la_envelope la)) now)) /\
  exists j, q_jobs d !! (la_key la).1 = Some j /\ j_state j = Running /\ la_kind la = j_kind j /\
    validatePayload canonical_uuid (j_kind j) (payload_length (j_payload j)) (Some (j_payload j)) = Ok (la_payload la).

(** The answer of [accept] for an envelope, and what it left. *)
Definition admit_post (s : Server) (e : Envelope) (d : qtables) (r : result exec_error (response * Server * option launch)) (d' : qtables) : Prop :=
  let key := (xe_JobID e, xe_Attempt e) in
  q_evolves d d' /\ exists x s' l, r = Ok (x, s', l) /\ sv_instance s' = sv_instance s /\
    (rs_status x = 202 -> exists row, q_execs d' !! key = Some row /\ x_digest row = xe_Digest e) /\
    match l with
    | None => sv_active s' `sublist_of` sv_active s
    | Some la => rs_status x = 202 /\ la_key la = key /\ sv_active s' = [key] /\ ~ seen key d /\ launch_ok s la d'
    end.

Lemma not_seen_before key d d1 j : q_wf d -> q_evolves d d1 -> q_execs d1 !! key = None -> q_jobs d1 !! key.1 = Some j -> ~ seen key d.
Proof.
  intros Hwf He Hx Hj Hs. apply (seen_evolves _ _ _ He) in Hs as [[x Hs]|Hr]; [congruence|].
  apply (wf_retired _ (ev_wf _ _ He Hwf)) in Hr. congruence.
Qed.

Lemma admit_spec mem ready s e d :
  mem_rely mem -> q_wf d ->
  rwp q_evolves (accept_envelope canonical_uuid payload_length mem ready s e) (admit_post s e d) d.
Proof.
  intros Hmem Hwf. unfold accept_envelope.
  assert (forall k1 s1, sv_instance (mem k1 s1) = sv_instance s1 /\ sv_active (mem k1 s1) `sublist_of` sv_active s1) as Hm
    by (intros; split; apply Hmem).
  destruct (Hm 1%nat s) as [Hi1 Ha1]. set (s1 := mem 1%nat s) in *.
  assert (forall x s' d', q_evolves d d' -> rs_status x <> 202 -> sv_instance s' = sv_instance s -> sv_active s' `sublist_of` sv_active s ->
    admit_post s e d (Ok (x, s', None)) d') as Hno.
  { intros x s' d' He Hst Hi Ha. split; [done|]. exists x, s', None. split_and!; done. }
  unfold unless. destruct (ensureReady s1) as [x|] eqn:Hready.
  { apply rwp_ret, Hno; [reflexivity| |done|done]. unfold ensureReady in Hready. destruct (_ && _); [done|]. by injection Hready as <-. }
  apply rwp_bind, rwp_try, rwp_bind, rwp_read; [apply _| |intros d1 He1; apply rwp_ret; by apply Hno].
  intros _ d1 He1. apply rwp_ret. destruct (q_execs d1 !! (xe_JobID e, xe_Attempt e)) as [x|] eqn:Hx; cbn [fmap option_fmap option_map].
  { cbn [xr_Digest scanReceipt]. destruct (x_digest x =? xe_Digest e)%string eqn:Hd; bool_to_prop; apply rwp_ret; [|by apply Hno].
    split; [done|]. eexists _, s1, None. split_and!; [done|done| |done]. intros _. by exists x. }
  destruct (Hm 2%nat s1) as [Hi2 Ha2]. set (s2 := mem 2%nat s1) in *.
  assert (sv_instance s2 = sv_instance s) as Hi by congruence. assert (sv_active s2 `sublist_of` sv_active s) as Ha by by etransitivity.
  destruct (negb (bool_decide (sv_active s2 = []))) eqn:Hbusy; [apply rwp_ret; by apply Hno|].
  destruct ready; [|apply rwp_ret; by apply Hno]. cbn [negb].
  apply rwp_bind, rwp_try, rwp_with_tx; [apply _|]. intros d2 He2.
  assert (q_evolves d d2) as He02 by by etransitivity.
  split; [|apply rwp_ret; by apply Hno].
  eapply twp_mono; [apply accept_body_spec|]. intros r d3 tx3 Hacc.
  assert (q_evolves d d3) as He03.
  { transitivity d2; [done|]. exact (accept_effect_evolves _ _ _ _ _ _ _ _ Hacc). }
  destruct r as [[receipt []]|err].
  3: { apply rwp_ret, Hno; [done| |done|done]. by destruct err. }
  2: { destruct Hacc as (E & row & Hrow & Hd & Er). subst d3 receipt. apply rwp_ret. split; [done|]. eexists _, s2, None.
       split_and!; [done|done| |done]. intros _. by exists row. }
  destruct Hacc as (j & payload & now & Had & [Hnone ->] & ->).
  destruct (Hm 3%nat s2) as [Hi3 Ha3]. set (s3 := mem 3%nat s2) in *. bool_to_prop. rewrite Hbusy in Ha3.
  apply sublist_nil_r in Ha3. rewrite Ha3. cbn [negb]. rewrite bool_decide_eq_true_2 by done. cbn [negb].
  apply rwp_ret. split; [done|]. eexists _, _, (Some _). split; [done|]. split; [cbn [set_active sv_instance]; congruence|]. split.
  - intros _. eexists. cbn [q_execs set_execs]. rewrite lookup_insert_eq. split; [done|done].
  - split; [done|]. split; [done|]. split; [done|]. split.
    + destruct Had as [_ _ [Hj _] _ _]. exact (not_seen_before (xe_JobID e, xe_Attempt e) d d2 j Hwf He02 Hnone Hj).
    + destruct Had as [_ _ [Hj Hc] Hv _]. split; [done|]. split.
      * exists now. cbn [la_key la_envelope q_execs set_execs]. rewrite lookup_insert_eq.
        unfold accepted_row. by replace (sv_instance s2) with (sv_instance s).
      * exists j. unfold job_current in Hc. bool_to_prop. split_and!; done.
Qed.

Lemma accept_spec mem ready s r d :
  mem_rely mem -> q_wf d ->
  rwp q_evolves (accept Token canonical_uuid sha256hex payload_length mem ready s r)
    (fun res d' => exists x s' l, res = Ok (x, s', l) /\ q_evolves d d' /\ sv_instance s' = sv_instance s /\
       match l with
       | None => sv_active s' `sublist_of` sv_active s
       | Some la => rs_status x = 202 /\ sv_active s' = [la_key la] /\ ~ seen (la_key la) d /\ launch_ok s la d'
       end) d.
Proof.
  intros Hmem Hwf. unfold accept. destruct (Hmem 0%nat s) as (Hi & _ & Ha). set (s0 := mem 0%nat s) in *.
  assert (forall x d', q_evolves d d' -> exists x0 s' l, Ok (x, s0, None) = Ok (E:=exec_error) (x0, s', l) /\ q_evolves d d' /\
       sv_instance s' = sv_instance s /\
       match l with
       | None => sv_active s' `sublist_of` sv_active s
       | Some la => rs_status x0 = 202 /\ sv_active s' = [la_key la] /\ ~ seen (la_key la) d /\ launch_ok s la d'
       end) as Hno by (intros; exists x, s0, None; done).
  unfold unless. destruct (negb _); [apply rwp_ret; by apply Hno|].
  destruct (auth Token r); [apply rwp_ret; by apply Hno|]. destruct (ensureReady s0); [apply rwp_ret; by apply Hno|].
  destruct (negb _); [apply rwp_ret; by apply Hno|]. destruct (readBounded r MaxEnvelopeBytes) as [raw|]; [|apply rwp_ret; by apply Hno].
  destruct (parseEnvelope _ _ raw) as [e|]; [|apply rwp_ret; by apply Hno].
  eapply rwp_mono; [by apply admit_spec|]. intros res d' (He & x & s' & l & -> & Hi' & _ & Hl).
  exists x, s', l. split_and!; [done|done|congruence|]. destruct l as [la|]; [|by etransitivity].
  destruct Hl as (H1 & H2 & H3 & H4 & H5). rewrite H2. split_and!; [done|done|done|].
  destruct H5 as (H5 & (now & H6) & H7). split_and!; [done| |done]. exists now. rewrite H6. unfold accepted_row. by rewrite Hi.
Qed.
End Admission.

(** ** Histories of the server *)

Section ServerHistory.
Context `{Postgres} (Token : string) (canonical_uuid : string -> bool) (sha256hex : string -> string) (payload_length : json -> Z).

(** What happens to a server once it is open.  [OpDone] is the end of an
    attempt's goroutine, whose own writes are among those of the other sessions. *)
Inductive server_op :=
| OpAccept (mem : nat -> Server -> Server) (pipelineReady : bool) (r : http_request)
| OpCancel (mem : nat -> Server -> Server) (key : attempt_key)
| OpDone (key : attempt_key)
| OpWatch
| OpHandlers (h : Handlers)
| OpClose (drained : bool).

Definition op_ok (o : server_op) : Prop :=
  match o with OpAccept mem _ _ | OpCancel mem _ => mem_rely mem | _ => True end.

Definition serve_op (o : server_op) (st : Server * list launch) : EM (Server * list launch) :=
  let '(s, log) := st in
  match o with
  | OpAccept mem ready r =>
      x ← accept Token canonical_uuid sha256hex payload_length mem ready s r;
      mret (x.1.2, match x.2 with Some la => la :: log | None => log end)
  | OpCancel mem key => x ← cancel mem s key; mret (x.2, log)
  | OpDone key => mret (attempt_done key s, log)
  | OpWatch => x ← watch_tick s; mret (x.2, log)
  | OpHandlers h => mret (SetHandlers h s, log)
  | OpClose drained => x ← Close drained s; mret (x.2, log)
  end.

Fixpoint serve (ops : list server_op) (st : Server * list launch) : EM (Server * list launch) :=
  match ops with
  | [] => mret st
  | o :: ops => st ← serve_op o st; serve ops st
  end.

(** The receipt of a started attempt. *)
Definition launched_by (instance : string) (la : launch) (d : qtables) : Prop :=
  (exists x, q_execs d !! la_key la = Some x /\ x_digest x = xe_Digest (la_envelope la) /\ x_instance x = instance) \/
  (la_key la).1 ∈ q_retired d.

Lemma launched_evolves instance la d d' : q_evolves d d' -> launched_by instance la d -> launched_by instance la d'.
Proof.
  unfold launched_by. destruct (la_key la) as [id a]. intros He [(x & Hx & H1 & H2)|Hr]; [|right; by apply (ev_retired _ _ He)].
  destruct (ev_execs _ _ He id a x Hx) as [(x' & Hx' & Hev & _)|Hr]; [left; exists x'|by right].
  injection Hev as E1 E2 E3 E4 E5 E6. split_and!; congruence.
Qed.
Lemma launched_seen instance la d : launched_by instance la d -> seen (la_key la) d.
Proof. intros [(x & Hx & _)|Hr]; [left; eauto|by right]. Qed.

Record server_inv (instance : string) (st : Server * list launch) (d : qtables) : Prop := {
  si_wf : q_wf d;
  si_instance : sv_instance st.1 = instance;
  si_once : NoDup (map la_key st.2);
  si_receipts : Forall (fun la => launched_by instance la d) st.2;
  si_active : (length (sv_active st.1) <= 1)%nat /\ sv_active st.1 ⊆ map la_key st.2;
}.

Lemma server_inv_moves instance s log s' d d' :
  server_inv instance (s, log) d -> q_evolves d d' -> sv_instance s' = sv_instance s -> sv_active s' `sublist_of` sv_active s ->
  server_inv instance (s', log) d'.
Proof.
  intros [W I O R [A1 A2]] He Hi Ha. split; [by apply He|by rewrite <- I|done| |split].
  - eapply Forall_impl; [exact R|]. intros la. by apply launched_evolves.
  - apply sublist_length in Ha. simpl in *. lia.
  - simpl in *. etransitivity; [|exact A2]. by apply sublist_subseteq.
Qed.

Definition op_post (instance : string) (r : result exec_error (Server * list launch)) (d : qtables) : Prop :=
  exists st, r = Ok st /\ server_inv instance st d.

Lemma markCanceled_closed s key : closed (markCanceled s key).
Proof.
  apply closed_bind.
  - apply closed_bind; [apply closed_exec|]. intros [[x|] st]; [|apply closed_raise]. repeat case_match; auto with news.
  - intros x. apply closed_bind; [apply closed_exec|]. intros [j|]; [|apply closed_raise].
    apply closed_bind; [apply closed_guard|]. intros _. apply closed_bind; [apply closed_exec|]. intros [r|]; [|apply closed_raise].
    apply closed_bind; [apply closed_guard|]. intros _. destruct (_ && _); apply closed_with_tx.
Qed.

Lemma loadReceipt_rwp key (Q : result exec_error (result exec_error (option Receipt)) -> qtables -> Prop) d :
  (forall r d', q_evolves d d' -> Q (Ok r) d') -> rwp q_evolves (try (loadReceipt key)) Q d.
Proof.
  intros HQ. apply rwp_try, rwp_keeps; [apply _| | |auto].
  - apply keeps_bind; [apply keeps_read, _|]. intros. apply keeps_ret.
  - unfold loadReceipt. auto with news.
Qed.

Lemma cancel_request_spec mem s key d :
  mem_rely mem ->
  rwp q_evolves (cancel mem s key) (fun r d' => exists x s', r = Ok (x, s') /\ q_evolves d d' /\
    sv_instance s' = sv_instance s /\ sv_active s' `sublist_of` sv_active s) d.
Proof.
  intros Hmem. unfold cancel. destruct (Hmem 1%nat s) as (I1 & _ & A1). set (s1 := mem 1%nat s) in *.
  destruct (Hmem 2%nat s1) as (I2 & _ & A2). set (s2 := mem 2%nat s1) in *.
  destruct (Hmem 3%nat s2) as (I3 & _ & A3). set (s3 := mem 3%nat s2) in *.
  assert (forall d1, q_evolves d d1 -> rwp q_evolves (rec ← try (loadReceipt key);
    match rec with
    | Ok None => mret (receipt_not_found, s2)
    | Err _ => mret (writeErr 503 "Execution receipt unavailable", s2)
    | Ok (Some rec) => mret (Response 200 (JObj (Map rec ++ [("execution_stopped", JBool (negb (bool_decide (key ∈ sv_active s3))));
                                            ("current_executor_instance_id", JStr (sv_instance s3))])), s3)
    end) (fun r d' => exists x s', r = Ok (x, s') /\ q_evolves d d' /\
    sv_instance s' = sv_instance s /\ sv_active s' `sublist_of` sv_active s) d1) as Hread.
  { intros d1 H1. apply rwp_bind, loadReceipt_rwp. intros r d2 H2.
    assert (q_evolves d d2) by by etransitivity.
    destruct r as [[rec|]|e]; apply rwp_ret; eexists _, _; (split; [done|]); split_and!; try done; try congruence;
      repeat (etransitivity; [eassumption|]); done. }
  apply rwp_bind. destruct (bool_decide (key ∈ sv_active s1)); [|apply rwp_ret, Hread; reflexivity].
  apply rwp_bind, rwp_try, rwp_keeps; [apply _|apply markCanceled_evolves|apply markCanceled_closed|].
  intros r d1 H1. apply rwp_ret. by apply Hread.
Qed.

Lemma rwp_release pid (Q : result exec_error (result dberr bool) -> qtables -> Prop) d :
  (forall r d', q_evolves d d' -> Q (Ok r) d') -> rwp q_evolves (try_exec (release_guard pid)) Q d.
Proof.
  intros HQ. apply rwp_try_exec; [apply _|]. intros lk now d1 H1. unfold release_guard.
  case_bool_decide; [|by split_and!; apply HQ]. assert (q_evolves d (set_guard_lock None d1)).
  { etransitivity; [exact H1|]. apply q_evolves_guard. }
  split_and!; by apply HQ.
Qed.
Lemma rwp_close_guard pid (Q : result exec_error unit -> qtables -> Prop) d :
  (forall d', q_evolves d d' -> Q (Ok tt) d') -> rwp q_evolves (close_guard pid) Q d.
Proof. intros HQ. apply rwp_bind, rwp_release. intros r d' H'. apply rwp_ret. by apply HQ. Qed.

Lemma Close_spec drained s d :
  rwp q_evolves (Close drained s) (fun r d' => exists e s', r = Ok (e, s') /\ q_evolves d d' /\
    sv_instance s' = sv_instance s /\ sv_active s' = sv_active s) d.
Proof.
  unfold Close. destruct (sv_closed s) eqn:Hc; [apply rwp_ret; by eexists _, s|].
  set (s1 := set_flags _ _ _ s).
  assert (forall (e : option string) d', q_evolves d d' -> exists e' s', Ok (E:=exec_error) (e, s1) = Ok (e', s') /\ q_evolves d d' /\
    sv_instance s' = sv_instance s /\ sv_active s' = sv_active s) as Hs by (intros e d' Hd; by exists e, s1).
  destruct (negb drained).
  - apply rwp_bind, rwp_close_guard. intros d1 H1. apply rwp_ret. by apply Hs.
  - apply rwp_bind, rwp_release. intros [[]|e] d1 H1; [by apply rwp_ret, Hs|..];
      (apply rwp_bind, rwp_close_guard; intros d2 H2; apply rwp_ret, Hs; by etransitivity).
Qed.

Lemma watch_spec s d :
  rwp q_evolves (watch_tick s) (fun r d' => exists b s', r = Ok (b, s') /\ q_evolves d d' /\
    sv_instance s' = sv_instance s /\ sv_active s' = sv_active s) d.
Proof.
  apply rwp_bind, rwp_try_exec; [apply _|]. intros lk now d1 H1. cbn [read].
  destruct (bool_decide _); split_and!; apply rwp_ret; by eexists _, _.
Qed.

Lemma serve_op_spec instance o st d :
  op_ok o -> server_inv instance st d -> rwp q_evolves (serve_op o st) (op_post instance) d.
Proof.
  destruct st as [s log]. intros Hok Hi.
  assert (forall s' d', q_evolves d d' -> sv_instance s' = sv_instance s -> sv_active s' `sublist_of` sv_active s ->
    op_post instance (Ok (s', log)) d') as Hmove.
  { intros s' d' He Hin Ha. exists (s', log). split; [done|]. by eapply server_inv_moves. }
  destruct o; cbn [serve_op].
  - apply rwp_bind. eapply rwp_mono; [apply accept_spec; [done|apply Hi]|].
    intros res d' (x & s' & l & -> & He & Hin & Hl). apply rwp_ret. cbn [fst snd].
    destruct l as [la|]; [|by apply Hmove]. destruct Hl as (_ & Ha & Hns & Hk & (now & Hrow) & _).
    exists (s', la :: log). split; [done|]. destruct Hi as [W I O R A]. split; cbn [fst snd map].
    + by apply He.
    + by rewrite <- I.
    + constructor; [|done]. intros Hin'. apply Hns. apply list_elem_of_fmap in Hin' as (la' & -> & Hla').
      rewrite Forall_forall in R. by eapply launched_seen, R.
    + constructor; [|eapply Forall_impl; [exact R|]; intros la'; by apply launched_evolves].
      left. eexists. split; [exact Hrow|]. by split.
    + rewrite Ha. simpl. split; [lia|]. set_solver.
  - apply rwp_bind. eapply rwp_mono; [by apply cancel_request_spec|]. intros res d' (x & s' & -> & He & Hin & Ha).
    apply rwp_ret. by apply Hmove.
  - apply rwp_ret, Hmove; [reflexivity|done|]. apply sublist_filter.
  - apply rwp_bind. eapply rwp_mono; [apply watch_spec|]. intros res d' (x & s' & -> & He & Hin & Ha).
    apply rwp_ret, Hmove; [done|done|]. cbn [snd]. by rewrite Ha.
  - apply rwp_ret, Hmove; done.
  - apply rwp_bind. eapply rwp_mono; [apply Close_spec|]. intros res d' (x & s' & -> & He & Hin & Ha).
    apply rwp_ret, Hmove; [done|done|]. cbn [snd]. by rewrite Ha.
Qed.

Lemma serve_ops_spec instance ops st d :
  Forall op_ok ops -> server_inv instance st d -> rwp q_evolves (serve ops st) (op_post instance) d.
Proof.
  revert st d. induction ops as [|o ops IH]; intros st d Hok Hi; cbn [serve].
  - apply rwp_ret. by exists st.
  - apply Forall_cons in Hok as [Ho Hops]. apply rwp_bind. eapply rwp_mono; [by apply serve_op_spec|].
    intros r d' (st' & -> & Hi'). by apply IH.
Qed.

(** C7: Whatever requests, ends of attempts, guard checks, shutdowns and
    failures a server sees, and whatever sessions that keep the queue's rules do
    meanwhile, it starts each attempt at most once, it never runs two attempts at
    the same time, and every attempt it started has a receipt with the digest of
    its envelope and this server's identity, unless the job has been pruned. *)
Theorem attempts_start_once ops s w :
  Forall op_ok ops -> sv_active s = [] -> q_wf (w_db w) -> w_tx w = None -> rely q_evolves (w_env w) ->
  exists s' log, (serve ops (s, []) w).1 = Ok (s', log) /\
    NoDup (map la_key log) /\ (length (sv_active s') <= 1)%nat /\ sv_active s' ⊆ map la_key log /\
    Forall (fun la => launched_by (sv_instance s) la (w_db (serve ops (s, []) w).2)) log.
Proof.
  intros Hok Ha Hwf Htx Hr.
  assert (server_inv (sv_instance s) (s, []) (w_db w)) as Hi.
  { split; cbn [fst snd map]; [done|done|constructor|constructor|]. rewrite Ha. simpl. split; [lia|done]. }
  destruct (serve_ops_spec _ ops _ _ Hok Hi w eq_refl Htx Hr) as [([s' log] & E & [_ _ O R [A1 A2]]) _].
  exists s', log. split_and!; done.
Qed.
End ServerHistory.

(** ** What the answers of [accept] mean *)

Section Answers.
Context (Token : string) (canonical_uuid : string -> bool) (sha256hex : string -> string) (payload_length : json -> Z).

Definition accept_meaning (s : Server) (r : http_request) (d : qtables) (x : response) (l : option launch) (d' : qtables) : Prop :=
  (rs_status x = 202 -> Token <> "" /\ rq_authorization r = ["Bearer " +:+ Token] /\
     exists raw e row, readBounded r MaxEnvelopeBytes = Some raw /\
     parseEnvelope canonical_uuid sha256hex raw = Ok e /\
     q_execs d' !! (xe_JobID e, xe_Attempt e) = Some row /\ x_digest row = xe_Digest e) /\
  (forall la, l = Some la -> rs_status x = 202 /\ ~ seen (la_key la) d /\ launch_ok canonical_uuid payload_length s la d').

Lemma auth_ok r : auth Token r = None -> Token <> "" /\ rq_authorization r = ["Bearer " +:+ Token].
Proof.
  unfold auth. destruct (Token =? "")%string eqn:Ht; [done|]. destruct (rq_authorization r) as [|v [|]]; try done.
  destruct (v =? _)%string eqn:Hv; [|done]. bool_to_prop. by subst.
Qed.

Lemma accept_answers_spec mem ready s r d :
  mem_rely mem -> q_wf d ->
  rwp q_evolves (accept Token canonical_uuid sha256hex payload_length mem ready s r)
    (fun res d' => exists x s' l, res = Ok (x, s', l) /\ accept_meaning s r d x l d') d.
Proof.
  intros Hmem Hwf. unfold accept. destruct (Hmem 0%nat s) as (Hi & _ & Ha). set (s0 := mem 0%nat s) in *.
  assert (forall x d', rs_status x <> 202 ->
    exists x0 s' l, Ok (x, s0, None) = Ok (E:=exec_error) (x0, s', l) /\ accept_meaning s r d x0 l d') as Hno
    by (intros; exists x, s0, None; by split_and!).
  unfold unless. destruct (negb _); [apply rwp_ret; by apply Hno|].
  destruct (auth Token r) as [x|] eqn:Hauth.
  { apply rwp_ret, Hno. revert Hauth. unfold auth. repeat case_match; try done; by intros [= <-]. }
  apply auth_ok in Hauth as [Htok Hauth].
  destruct (ensureReady s0) as [x|] eqn:Hready.
  { apply rwp_ret. unfold ensureReady in Hready. destruct (_ && _); [done|]. injection Hready as <-. by apply Hno. }
  destruct (negb _); [apply rwp_ret; by apply Hno|]. destruct (readBounded r MaxEnvelopeBytes) as [raw|] eqn:Hraw; [|apply rwp_ret; by apply Hno].
  destruct (parseEnvelope _ _ raw) as [e|] eqn:He; [|apply rwp_ret; by apply Hno].
  eapply rwp_mono; [by apply admit_spec|]. intros res d' (_ & x & s' & l & -> & Hi' & H202 & Hl).
  exists x, s', l. split; [done|]. split_and!.
  - intros E. destruct (H202 E) as (row & H1 & H2). split_and!; [done|done|]. by exists raw, e, row.
  - intros la ->. destruct Hl as (H1 & H2 & H3 & H4 & H5). split_and!; [done|by rewrite H2|].
    destruct H5 as (H5 & (now & H6) & H7). split_and!; [done| |done]. exists now. rewrite H6. unfold accepted_row. by rewrite Hi.
Qed.

(** C8: An answer 202 is never empty: it is given only to the bearer of the
    token, for a bounded body that parses as an envelope, and when it is sent a
    durable receipt of that attempt with the envelope's digest exists.  An attempt
    is started only with such an answer, when no receipt of it existed before, for
    the running job it names, with the validated form of that job's stored
    payload.  This holds under every failure and among all sessions that keep the
    queue's rules. *)
Theorem accept_answers mem ready s r w :
  mem_rely mem -> q_wf (w_db w) -> w_tx w = None -> rely q_evolves (w_env w) ->
  let '(res, w') := accept Token canonical_uuid sha256hex payload_length mem ready s r w in
  exists x s' l, res = Ok (x, s', l) /\ accept_meaning s r (w_db w) x l (w_db w').
Proof.
  intros Hmem Hwf Htx Hr. destruct (accept_answers_spec mem ready s r (w_db w) Hmem Hwf w eq_refl Htx Hr) as [H _].
  by destruct (accept _ _ _ _ _ _ _ _ w).
Qed.
End Answers.

(** ** One executor per database *)

Lemma qwp_probe (Q : result exec_error bool -> qtables -> Prop) d : (forall b, Q (Ok b) d) -> qwp probe Q d.
Proof.
  intros HQ. apply qwp_bind, qwp_try_exec; [|apply qwp_ret, HQ]. intros lk now. cbn [read].
  split; apply qwp_ret, HQ.
Qed.

Lemma qwp_close_guard pid (Q : result exec_error unit -> qtables -> Prop) d :
  Q (Ok tt) d -> (q_guard_lock d = Some pid -> Q (Ok tt) (set_guard_lock None d)) -> qwp (close_guard pid) Q d.
Proof.
  intros H1 H2. apply qwp_bind, qwp_try_exec; [|by apply qwp_ret]. intros lk now. unfold release_guard.
  case_bool_decide; split; apply qwp_ret; auto.
Qed.

Lemma qwp_checkSchema (Q : result exec_error (option string) -> qtables -> Prop) d : (forall r, Q (Ok r) d) -> qwp checkSchema Q d.
Proof.
  intros HQ. unfold checkSchema. repeat (apply qwp_bind, qwp_probe; intros []; cbn [negb]; [|by apply qwp_ret]). by apply qwp_ret.
Qed.

(** What opening a server with the guard session [pid] does to the tables. *)
Definition open_post (pid : Z) (s : Server) (d : qtables) (r : result exec_error (option string * Server)) (d' : qtables) : Prop :=
  exists e s', r = Ok (e, s') /\
    (e = None -> q_guard_lock d = None /\ d' = set_guard_lock (Some pid) d /\ sv_ready s' = true /\ sv_guardPID s' = pid /\ 0 < pid /\
                 sv_instance s' = sv_instance s /\ sv_active s' = sv_active s) /\
    (forall other, q_guard_lock d = Some other -> other <> pid -> is_Some e /\ d' = d).

Lemma guard_twice l l' d : set_guard_lock l (set_guard_lock l' d) = set_guard_lock l d.
Proof. done. Qed.

Lemma open_spec config_ok pid s d :
  qwp (open config_ok pid s) (fun r d' => exists e s', r = Ok (e, s') /\
    (e = None -> q_guard_lock d = None /\ d' = set_guard_lock (Some pid) d /\ sv_guardPID s' = pid /\ 0 < pid /\
       sv_instance s' = sv_instance s /\ sv_active s' = sv_active s /\ sv_closed s' = sv_closed s) /\
    (forall other, q_guard_lock d = Some other -> other <> pid -> is_Some e /\ d' = d)) d.
Proof.
  unfold open. set (Q := fun (r : result exec_error (option string * Server)) d' => exists e s', r = Ok (e, s') /\ _).
  assert (forall e s', Q (Ok (Some e, s')) d) as Hd by (intros e s'; exists (Some e), s'; by split_and!).
  assert (forall e s' d', q_guard_lock d = None -> Q (Ok (Some e, s')) d') as Hf.
  { intros e s' d' Hn. exists (Some e), s'. split_and!; [done|done|]. congruence. }
  destruct config_ok; [|by apply qwp_ret]. cbn [negb].
  apply qwp_bind, qwp_probe. intros pool. apply qwp_bind, (qwp_mono _ (fun r d' => d' = d /\ is_ok r = true)).
  { destruct pool; cbn [negb]; [by apply qwp_probe|by apply qwp_ret]. }
  intros [[]|] d' [-> Hok]; try done; cbn [negb]; [|by apply qwp_ret].
  apply qwp_bind, qwp_probe. intros []; cbn [negb]; [|by apply qwp_ret].
  assert (forall text d1, Q (Ok (Some text, s)) d1 -> (q_guard_lock d1 = Some pid -> Q (Ok (Some text, s)) (set_guard_lock None d1)) ->
    qwp (close_guard pid ≫= fun _ => mret (Some text, s)) Q d1) as Hclose.
  { intros text d1 H1 H2. apply qwp_bind, qwp_close_guard; [by apply qwp_ret|]. intros Hp. by apply qwp_ret, H2. }
  assert (forall text, q_guard_lock d = Some pid -> Q (Ok (Some text, s)) (set_guard_lock None d)) as Hself.
  { intros text Hp. exists (Some text), s. split_and!; [done|done|]. congruence. }
  apply qwp_bind, qwp_try_exec; [|apply Hclose; auto]. intros lk now. unfold try_guard.
  destruct (q_guard_lock d) as [other|] eqn:Hl; [split; (apply Hclose; [apply Hd|intros Hp; apply Hself; congruence])|].
  split; [|apply Hclose; auto].
  set (t := set_guard_lock (Some pid) d).
  apply qwp_bind, qwp_probe. intros identity. destruct (negb identity || (pid <=? 0)) eqn:Hid; [apply Hclose; auto|]. bool_to_prop.
  apply qwp_bind, qwp_checkSchema. intros [text|].
  - apply qwp_bind. eapply (qwp_mono _ (fun r d' => is_ok r = true)); [|intros [[e s']|] d' Hr; [by apply qwp_ret, Hf|done]].
    unfold Close. destruct (sv_closed _); [by apply qwp_ret|]. cbn [negb].
    apply qwp_bind, qwp_try_exec; [|by apply qwp_bind, qwp_close_guard; [apply qwp_ret|intros; apply qwp_ret]].
    intros lk2 now2. destruct (release_guard _ _ _ _) as [r t2].
    assert (forall r : result dberr bool, qwp (match r with
       | Ok true => mret (None, set_flags false true (sv_guardLost (set_guardPID pid s)) (set_guardPID pid s))
       | _ => _ ← close_guard (sv_guardPID (set_flags false true (sv_guardLost (set_guardPID pid s)) (set_guardPID pid s)));
              mret (Some "execution guard release failed", set_flags false true (sv_guardLost (set_guardPID pid s)) (set_guardPID pid s))
       end : EM (option string * Server)) (fun r _ => is_ok r = true) t2) as Hr.
    { intros [[]|]; [by apply qwp_ret|..]; (apply qwp_bind, qwp_close_guard; [by apply qwp_ret|intros; by apply qwp_ret]). }
    split; [apply Hr|apply (Hr (Err DbFault))].
  - apply qwp_ret. exists None, (set_guardPID pid s). split; [done|]. split; [|congruence]. intros _. by split_and!.
Qed.

(** While no other session writes, opening a server takes the execution
    guard or leaves it alone: it succeeds only when nobody held the guard, the
    guard is then held by the server's own session and nothing else changed; when
    another session holds it, opening fails and changes nothing.  So at most one
    open server is the executor of a database. *)
Theorem Open_exclusive config_ok pid s w :
  w_tx w = None -> calm (w_env w) ->
  let '(r, w') := Open config_ok pid s w in open_post pid s (w_db w) r (w_db w').
Proof.
  intros Htx Hc. assert (qwp (Open config_ok pid s) (open_post pid s (w_db w)) (w_db w)) as H.
  { apply qwp_bind. eapply qwp_mono; [apply open_spec|]. intros r d' (e & s' & -> & Hok & Hno). destruct e as [e|].
    - apply qwp_ret. exists (Some e), s'. by split_and!.
    - apply qwp_ret. eexists None, _. split; [done|]. split; [|done]. intros _. destruct (Hok eq_refl) as (H1 & H2 & H3 & H4 & H5 & H6 & _).
      by split_and!. }
  destruct (H w eq_refl Htx Hc) as [HQ _]. by destruct (Open config_ok pid s w).
Qed.

(** ** A sample server *)

Module ServerSample.
Definition body : raw_text :=
  RawText 200 true (lex_of (canonical_envelope "j" ExecSample.owner 3 1 "2023-11-14T22:20:00Z")) AtEof.
Definition request : http_request := HttpRequest "POST" "" ["Bearer t"] 200 false body.
Definition mem0 : nat -> Server -> Server := fun _ s => s.
Definition ops : list server_op := [OpAccept mem0 true request; OpAccept mem0 true request; OpCancel mem0 ("j", 1); OpDone ("j", 1); OpClose true].

Lemma mem0_ok : mem_rely mem0.
Proof. intros k s. by split_and!. Qed.

Lemma tables_wf : q_wf ExecSample.tables.
Proof.
  split; cbn [ExecSample.tables q_jobs q_execs q_retired].
  - intros a b ja jb [<- _]%lookup_singleton_Some [<- _]%lookup_singleton_Some. done.
  - intros id j [_ <-]%lookup_singleton_Some. simpl. split; [lia|]. intros _. split; [by eexists|lia].
  - intros id a x. by rewrite lookup_empty.
  - set_solver.
Qed.
End ServerSample.
#[local] Existing Instance ExecSample.pg_plain.

Lemma accept_answers_witness :
  let '(res, w') := accept "t" (fun _ => true) (fun _ => "d") (fun _ => 2) ServerSample.mem0 true ExecSample.server
                      ServerSample.request ExecSample.world0 in
  (rs_status ∘ fst ∘ fst <$> (match res with Ok x => Some x | Err _ => None end)) = Some 202 /\
  exists x s' l, res = Ok (x, s', l) /\
    accept_meaning "t" (fun _ => true) (fun _ => "d") (fun _ => 2) ExecSample.server ServerSample.request
      (w_db ExecSample.world0) x l (w_db w').
Proof.
  pose proof (accept_answers "t" (fun _ => true) (fun _ => "d") (fun _ => 2) ServerSample.mem0 true ExecSample.server
    ServerSample.request ExecSample.world0 ServerSample.mem0_ok ServerSample.tables_wf eq_refl (Forall_nil_2 _)) as H.
  assert ((rs_status ∘ fst ∘ fst <$> (match (accept "t" (fun _ => true) (fun _ => "d") (fun _ => 2) ServerSample.mem0 true
    ExecSample.server ServerSample.request ExecSample.world0).1 with Ok x => Some x | Err _ => None end)) = Some 202) as H1 by by_eval.
  destruct (accept _ _ _ _ _ _ _ _ _) as [res w']. exact (conj H1 H).
Defined.

Lemma attempts_start_once_witness :
  exists s' log, (serve "t" (fun _ => true) (fun _ => "d") (fun _ => 2) ServerSample.ops (ExecSample.server, []) ExecSample.world0).1
      = Ok (s', log) /\ NoDup (map la_key log) /\ (length (sv_active s') <= 1)%nat /\ sv_active s' ⊆ map la_key log /\
    Forall (fun la => launched_by (sv_instance ExecSample.server) la
      (w_db (serve "t" (fun _ => true) (fun _ => "d") (fun _ => 2) ServerSample.ops (ExecSample.server, []) ExecSample.world0).2)) log.
Proof.
  apply (attempts_start_once "t" (fun _ => true) (fun _ => "d") (fun _ => 2) ServerSample.ops ExecSample.server ExecSample.world0).
  - apply List.Forall_forall. intros o Ho. simpl in Ho. repeat destruct Ho as [<-|Ho]; try exact ServerSample.mem0_ok; done.
  - reflexivity.
  - exact ServerSample.tables_wf.
  - reflexivity.
  - apply Forall_nil_2.
Defined.

(** One of the two equal requests started the attempt. *)
Example duplicate_started_once :
  (fun r => map la_key r.2) <$> (match (serve "t" (fun _ => true) (fun _ => "d") (fun _ => 2) ServerSample.ops (ExecSample.server, [])
    ExecSample.world0).1 with Ok x => Some x | Err _ => None end) = Some [("j", 1)].
Proof. by_eval. Qed.

Lemma Open_exclusive_witness :
  let w := World (set_guard_lock (Some 9) ExecSample.tables) None ExecSample.now [] in
  let '(r, w') := Open true 7 ExecSample.server w in open_post 7 ExecSample.server (w_db w) r (w_db w').
Proof. intros w. apply (Open_exclusive true 7 ExecSample.server w); [reflexivity|apply Forall_nil_2]. Defined.
