(* ===== verification/ArticleStore.v ===== *)
(** * ArticleStore: go-processing/internal/store

    How the processing service keeps its work: runs (one per attempt of a job),
    the articles it claims, the outcomes it saves.  Every change is made in a
    transaction that first calls the SQL function
    [fence_article_processing_attempt] (go-domain/migration/sql/013.sql), which
    checks that the caller's job, worker and receipt are the current ones.

    The tables are those of [QueueTables], the columns of [articles] that only
    this service reads (in a map of its own with the same ids), the tables of
    013.sql and 017.sql with the trigger of 018.sql, and the categories.  The
    session's time zone is UTC, so that [now()] compares with the timestamps
    without a zone.  [lower] of the server, the tables of unicode and SHA-256 are
    parameters.  The columns [started_at] and [updated_at], which nothing reads,
    are left out, and so are CHECK constraints and the length limits other than that
    of [ad_type], which can only
    turn a write into a failure. *)

From S2P Require Import Prelude JsonStrict GoTime Db GoText GoDecode QueueTables GoParseTime ExecPayload GoRune JobPayload ArticleOutcome ExecStore.

(** ** Tables *)

(** The CHECK constraint of [article_processing_runs.state]. *)
Inductive rstate := RRunning | RSucceeded | RFailed | RCancelled | RInterrupted.
(** The CHECK constraint of [article_processing_items.state]. *)
Inductive istate := IRunning | ICompleted | IRetryWait | IRejected | IExhausted | ICancelled.
(** The CHECK constraint of [article_localizations.status]. *)
Inductive lstate := LCompleted | LRetryWait | LExhausted.

#[export] Instance rstate_eq_dec : EqDecision rstate.
Proof. solve_decision. Defined.
#[export] Instance istate_eq_dec : EqDecision istate.
Proof. solve_decision. Defined.
#[export] Instance lstate_eq_dec : EqDecision lstate.
Proof. solve_decision. Defined.

Definition rstate_text (s : rstate) : string :=
  match s with RRunning => "running" | RSucceeded => "succeeded" | RFailed => "failed" | RCancelled => "cancelled" | RInterrupted => "interrupted" end.

(** The state a text names; any other text violates the constraint. *)
Definition istate_of (s : string) : option istate :=
  if (s =? "running")%string then Some IRunning else if (s =? "completed")%string then Some ICompleted
  else if (s =? "retry_wait")%string then Some IRetryWait else if (s =? "rejected")%string then Some IRejected
  else if (s =? "exhausted")%string then Some IExhausted else if (s =? "cancelled")%string then Some ICancelled else None.

Record run_row := RunRow {
  r_job : string;
  r_attempt : Z;
  r_digest : string;
  r_owner : string;
  r_generation : Z;
  r_pid : Z;
  r_instance : string;
  r_deadline : Z;
  r_state : rstate;
  r_finished : option Z;
  r_result : json;
  r_error : option string;
}.

Record item_row := ItemRow {
  it_attempt : Z;
  it_fingerprint : string;
  it_token : string;
  it_state : istate;
  it_result : json;
}.

(** The columns of [articles] besides those of [article_row].  A NULL in the
    boolean columns of [article_row] counts as false, as every query reads them. *)
Record text_row := TextRow {
  t_source : option Z;
  t_title : string;
  t_url : string;
  t_content : option string;
  t_summary : option string;
  t_image : option string;
  t_media : option json;
  t_published : option Z;
  t_hash : option string;
  t_advertisement : option bool;
  t_ad_confidence : option SpecFloat.spec_float;
  t_ad_type : option string;
  t_ad_reasoning : option string;
}.

Record local_row := LocalRow {
  l_title : string;
  l_summary : string;
  l_fingerprint : string;
  l_prompt : string;
  l_model : string;
  l_status : lstate;
  l_attempts : Z;
  l_next_retry : option Z;
  l_error : option string;
}.

Record mapping_row := MappingRow { mp_fixed : string; mp_active : bool; mp_usage : option Z; mp_last_used : option Z }.
Record label_row := LabelRow { lb_confidence : SpecFloat.spec_float; lb_ai_category : string; lb_created : Z }.
Record source_row := SourceRow { src_type : string; src_name : string }.

(** [p_gone] records the ids of deleted articles, which are not reused. *)
Record ptables := PTables {
  p_queue : qtables;
  p_texts : gmap Z text_row;
  p_runs : gmap string run_row;
  p_items : gmap (string * Z) item_row;
  p_locals : gmap (Z * string) local_row;
  p_categories : gmap Z string;
  p_mappings : gmap string mapping_row;          (* by ai_category, which is unique *)
  p_labels : gmap (Z * Z) label_row;             (* article_categories *)
  p_sources : gmap Z source_row;
  p_gone : gset Z;
}.

Definition set_queue (q : qtables) (d : ptables) : ptables :=
  PTables q (p_texts d) (p_runs d) (p_items d) (p_locals d) (p_categories d) (p_mappings d) (p_labels d) (p_sources d) (p_gone d).
Definition set_texts (m : gmap Z text_row) (d : ptables) : ptables :=
  PTables (p_queue d) m (p_runs d) (p_items d) (p_locals d) (p_categories d) (p_mappings d) (p_labels d) (p_sources d) (p_gone d).
Definition set_runs (m : gmap string run_row) (d : ptables) : ptables :=
  PTables (p_queue d) (p_texts d) m (p_items d) (p_locals d) (p_categories d) (p_mappings d) (p_labels d) (p_sources d) (p_gone d).
Definition set_items (m : gmap (string * Z) item_row) (d : ptables) : ptables :=
  PTables (p_queue d) (p_texts d) (p_runs d) m (p_locals d) (p_categories d) (p_mappings d) (p_labels d) (p_sources d) (p_gone d).
Definition set_locals (m : gmap (Z * string) local_row) (d : ptables) : ptables :=
  PTables (p_queue d) (p_texts d) (p_runs d) (p_items d) m (p_categories d) (p_mappings d) (p_labels d) (p_sources d) (p_gone d).
Definition set_mappings (m : gmap string mapping_row) (d : ptables) : ptables :=
  PTables (p_queue d) (p_texts d) (p_runs d) (p_items d) (p_locals d) (p_categories d) m (p_labels d) (p_sources d) (p_gone d).
Definition set_labels (m : gmap (Z * Z) label_row) (d : ptables) : ptables :=
  PTables (p_queue d) (p_texts d) (p_runs d) (p_items d) (p_locals d) (p_categories d) (p_mappings d) m (p_sources d) (p_gone d).

(** A row of [articles] with all its columns. *)
Definition article_at (d : ptables) (id : Z) : option (article_row * text_row) :=
  a ← q_articles (p_queue d) !! id; t ← p_texts d !! id; Some (a, t).
Definition put_article (id : Z) (a : article_row) (t : text_row) (d : ptables) : ptables :=
  set_texts (<[id := t]> (p_texts d)) (set_queue (set_articles (<[id := a]> (q_articles (p_queue d))) (p_queue d)) d).

Definition set_item (s : istate) (result : json) (i : item_row) : item_row :=
  ItemRow (it_attempt i) (it_fingerprint i) (it_token i) s result.

(** ** Errors *)

(** [errors.New] texts that no caller tells apart are [ErrText]. *)
Inductive proc_error := ErrStaleFence | ErrRunConflict | ErrCancelled | ErrCategoryMapping | ErrText (s : string).
#[export] Instance proc_error_eq_dec : EqDecision proc_error.
Proof. solve_decision. Defined.

Notation PM := (M ptables proc_error).
Definition fails (s : string) : dberr -> proc_error := fun _ => ErrText s.

(** ** Envelopes and fences *)

(** [time.Time] keeps the offset it was read with, in seconds. *)
Record Envelope := MkEnvelope {
  en_Version : Z;
  en_JobID : string;
  en_AttemptGeneration : Z;
  en_OwnerID : string;
  en_Generation : Z;
  en_BackendPID : Z;
  en_ExecutorInstanceID : string;
  en_DeadlineAt : Z;
  en_offset : Z;
}.
Record Fence := MkFence { fe_RunID : string; fe_Envelope : Envelope; fe_EnvelopeSHA256 : string }.

(** [$1::uuid] of a text in the pattern the service accepts *)
Definition uuid (s : string) : string := string_of (map lower_byte (bytes_of s)).

(** ["%08x-%04x-%04x-%04x-%012x"] of sixteen bytes *)
Definition uuid_format (b : list Z) : string :=
  let part i j := hex_encode (take (j - i) (drop i b)) in
  string_of (part 0 4 ++ [dash] ++ part 4 6 ++ [dash] ++ part 6 8 ++ [dash] ++ part 8 10 ++ [dash] ++ part 10 16)%nat.

(** [t.Format(time.RFC3339Nano)] at an offset *)
Definition time_text (t offset : Z) : string :=
  let local := t + offset * Second in
  string_of (stamp local (fraction (local_nano (FixedZone 0) local)) ++ (if offset =? 0 then [90] else offset_text offset)).

Section Names.
Context (sha256 : list Z -> list Z).

Definition sha256_hex (l : list Z) : string := string_of (hex_encode (sha256 l)).

Definition RunID (job : string) (attempt : Z) : string :=
  let b := take 16 (sha256 (bytes_of "evening-news-processing-v1" ++ [0] ++ bytes_of job ++ [0] ++ bytes_of (itoa attempt))) in
  let b := alter (fun x => Z.lor (Z.land x 15) 80) 6%nat b in
  uuid_format (alter (fun x => Z.lor (Z.land x 63) 128) 8%nat b).

Definition marshal_run_envelope (e : Envelope) : string :=
  obj [("version", itoa (en_Version e)); ("job_id", marshal_string (en_JobID e));
       ("attempt_generation", itoa (en_AttemptGeneration e)); ("owner_id", marshal_string (en_OwnerID e));
       ("generation", itoa (en_Generation e)); ("backend_pid", itoa (en_BackendPID e));
       ("executor_instance_id", marshal_string (en_ExecutorInstanceID e));
       ("deadline_at", marshal_string (time_text (en_DeadlineAt e) (en_offset e)))].
(** Marshal refuses the offset of 24 hours that reading lets through; the error is
    dropped and nothing is hashed. *)
Definition EnvelopeHash (e : Envelope) : string :=
  sha256_hex (if 24 * 3600 <=? Z.abs (en_offset e) then [] else bytes_of (marshal_run_envelope e)).
Definition NewFence (e : Envelope) : Fence := MkFence (RunID (en_JobID e) (en_AttemptGeneration e)) e (EnvelopeHash e).
End Names.

(** ** Fingerprints *)

(** [appendString] without HTML escaping: [<], [>] and [&] stay as they are. *)
Fixpoint escape_plain (l : list Z) : list Z :=
  match l with
  | [] => []
  | 226 :: ((128 :: ((168 :: l') as _)) as _) => hex4 8232 ++ escape_plain l'
  | 226 :: ((128 :: ((169 :: l') as _)) as _) => hex4 8233 ++ escape_plain l'
  | c :: l' =>
      (if (c =? 34) || (c =? 92) then [92; c]
       else if c =? 8 then [92; 98] else if c =? 12 then [92; 102] else if c =? 10 then [92; 110]
       else if c =? 13 then [92; 114] else if c =? 9 then [92; 116]
       else if c <? 32 then hex4 c
       else [c]) ++ escape_plain l'
  end.
Definition quoted (s : string) : list Z := [quote] ++ escape_plain (bytes_of s) ++ [quote].

(** An object of an encoder with [SetEscapeHTML(false)]; the keys are sorted. *)
Definition plain_object (members : list (string * list Z)) : list Z :=
  [123] ++ concat (imap (fun i kv => (if (i =? 0)%nat then [] else [44]) ++ quoted kv.1 ++ [58] ++ kv.2) members) ++ [125].

(** The columns of an article that a claim pins. *)
Record Snapshot := MkSnapshot {
  sn_Title : string;
  sn_URL : string;
  sn_Content : string;
  sn_Summary : string;
  sn_SummaryProcessed : bool;
  sn_CategoryProcessed : bool;
  sn_AdProcessed : bool;
  sn_IsAdvertisement : option bool;
}.
#[export] Instance snapshot_eq_dec : EqDecision Snapshot.
Proof. solve_decision. Defined.

Record Article := MkArticle {
  ar_ID : Z;
  ar_Title : string;
  ar_URL : string;
  ar_Content : string;
  ar_Summary : string;
  ar_SourceID : option Z;
  ar_SourceType : string;
  ar_SourceName : string;
  ar_PublishedAt : option Z;
  ar_SummaryProcessed : bool;
  ar_CategoryProcessed : bool;
  ar_AdProcessed : bool;
  ar_IsAdvertisement : option bool;
  ar_ProcessingAttempts : Z;
  ar_ProcessingState : string;
  ar_ImageURL : string;
  ar_MediaFiles : json;
  ar_Processed : bool;
  ar_ClaimToken : string;
}.

Definition article_snapshot (a : Article) : Snapshot :=
  MkSnapshot (ar_Title a) (ar_URL a) (ar_Content a) (ar_Summary a) (ar_SummaryProcessed a) (ar_CategoryProcessed a)
    (ar_AdProcessed a) (ar_IsAdvertisement a).
(** The columns read through COALESCE *)
Definition row_snapshot (r : article_row * text_row) : Snapshot :=
  MkSnapshot (t_title r.2) (t_url r.2) (default "" (t_content r.2)) (default "" (t_summary r.2)) (a_summary_processed r.1)
    (a_category_processed r.1) (a_ad_processed r.1) (t_advertisement r.2).

Definition bool_text (b : bool) : list Z := bytes_of (if b then "true" else "false").

Definition snapshot_text (s : Snapshot) : list Z :=
  plain_object
    [("ad_processed", bool_text (sn_AdProcessed s)); ("category_processed", bool_text (sn_CategoryProcessed s));
     ("content", quoted (sn_Content s));
     ("is_advertisement", match sn_IsAdvertisement s with Some b => bool_text b | None => bytes_of "null" end);
     ("summary", quoted (sn_Summary s)); ("summary_processed", bool_text (sn_SummaryProcessed s));
     ("title", quoted (sn_Title s)); ("url", quoted (sn_URL s))].

Section Fingerprints.
Context (sha256 : list Z -> list Z).

Definition sourceSnapshotFingerprint (s : Snapshot) : string := sha256_hex sha256 (snapshot_text s).

Definition fingerprint (title content url : string) (original : option string) : string :=
  sha256_hex sha256 (plain_object
    ([("content", quoted content)] ++ (match original with Some o => [("original_context", quoted o)] | None => [] end) ++
     [("title", quoted title); ("url", quoted url)])).

Definition localizationFingerprint (a : Article) : string :=
  sha256_hex sha256 (plain_object
    [("content", quoted (ar_Summary a)); ("locales", [91] ++ quoted "sr-Latn" ++ [93]); ("title", quoted (ar_Title a)); ("url", quoted (ar_URL a))]).

(** The receipt a claim leaves in its item, and what [json.Unmarshal] into a map
    of strings reads back. *)
Definition claim_receipt (s : Snapshot) : json := JObj [("snapshot_fingerprint", JStr (sourceSnapshotFingerprint s))].
Definition receipt_fingerprint (j : json) : string :=
  match j with JObj l => match get l "snapshot_fingerprint" with Some (JStr s) => s | _ => "" end | _ => "" end.
End Fingerprints.

(** ** The fence *)

(** Whether the job is one that may process articles; nothing when a cast of its
    payload fails.  The condition is NULL, and so raises nothing, for a payload
    without [article_ids].  A limit is written in decimal digits. *)
Definition fence_kind (j : job_row) : option bool :=
  let m k := match j_payload j with JObj l => get l k | _ => None end in
  if (j_kind j =? "news_processing")%string then Some true
  else if (j_kind j =? "news_digest")%string then Some (match m "run_processing" with None | Some (JBool true) => true | _ => false end)
  else if (j_kind j =? "article_reprocess")%string then
    Some (match m "article_ids" with Some (JArr l) => (1 <=? Z.of_nat (length l)) && (Z.of_nat (length l) <=? 100) | Some _ => false | None => true end)
  else if (j_kind j =? "reprocess_failed")%string then
    match m "limit" with
    | None | Some JNull => Some true
    | Some (JNum s) | Some (JStr s) =>
        match ParseInt s with
        | Some n => if (- 2 ^ 31 <=? n) && (n <? 2 ^ 31) then Some ((1 <=? n) && (n <=? 100)) else None
        | None => None
        end
    | Some _ => None
    end
  else Some false.

Definition find_run (job : string) (attempt : Z) (d : ptables) : option (string * run_row) :=
  head (filter (fun kv => r_job kv.2 = job /\ r_attempt kv.2 = attempt) (map_to_list (p_runs d))).

(** The row the function inserts. *)
Definition new_run (f : Fence) : run_row :=
  let e := fe_Envelope f in
  RunRow (uuid (en_JobID e)) (en_AttemptGeneration e) (fe_EnvelopeSHA256 f) (uuid (en_OwnerID e)) (en_Generation e)
    (en_BackendPID e) (uuid (en_ExecutorInstanceID e)) (pg_time (en_DeadlineAt e)) RRunning None (JObj []) None.

(** The existing row is the one of this envelope. *)
Definition same_run (f : Fence) (id : string) (r : run_row) : bool :=
  let n := new_run f in
  (r_digest r =? r_digest n)%string && (id =? fe_RunID f)%string && (r_owner r =? r_owner n)%string &&
  (r_generation r =? r_generation n) && (r_pid r =? r_pid n) && (r_instance r =? r_instance n)%string && (r_deadline r =? r_deadline n).

(** [fence_article_processing_attempt] up to the run: [Ok None] is an exception
    with code P0001.  A statement that fails aborts its transaction. *)
Definition fence_attempt (f : Fence) : stmt ptables (option (string * run_row)) := fun _ now d =>
  let now := pg_time now in
  let e := fe_Envelope f in
  let q := p_queue d in
  let refuse := (Ok None, d) in
  match status_beat (uuid (en_OwnerID e)) (en_Generation e) (en_BackendPID e) (q_status q) with
  | None => refuse
  | Some beat =>
      if stale beat now || negb (bool_decide (q_worker_lock q = Some (en_BackendPID e))) then refuse
      else match q_jobs q !! uuid (en_JobID e) with
           | None => refuse
           | Some j =>
               if negb (job_current (en_Generation e) (en_AttemptGeneration e) (Some j)) then refuse
               else match fence_kind j with
                    | None => (Err DbFault, d)
                    | Some false => refuse
                    | Some true =>
                        match find_run (uuid (en_JobID e)) (en_AttemptGeneration e) d with
                        | Some (id, r) => if same_run f id r then (Ok (Some (id, r)), d) else refuse
                        | None =>
                            if pg_time (en_DeadlineAt e) <=? now then refuse
                            else if bool_decide (is_Some (p_runs d !! fe_RunID f)) then (Err UniqueViolation, d)
                            else (Ok (Some (fe_RunID f, new_run f)), set_runs (<[fe_RunID f := new_run f]> (p_runs d)) d)
                        end
                    end
           end
  end.

(** The rest of the function: the executor's receipt, and the heartbeat again at a
    later reading of the clock. *)
Definition fence_receipt (f : Fence) : stmt ptables bool := read (fun now d =>
  let now := pg_time now in
  let e := fe_Envelope f in
  match q_execs (p_queue d) !! (uuid (en_JobID e), en_AttemptGeneration e),
        status_beat (uuid (en_OwnerID e)) (en_Generation e) (en_BackendPID e) (q_status (p_queue d)) with
  | Some x, Some beat =>
      (x_instance x =? uuid (en_ExecutorInstanceID e))%string && bool_decide (x_owner x = Some (uuid (en_OwnerID e))) &&
      bool_decide (x_generation x = Some (en_Generation e)) && bool_decide (x_deadline x = Some (pg_time (en_DeadlineAt e))) &&
      bool_decide (x_state x = XRunning) && (now <? pg_time (en_DeadlineAt e)) && negb (stale beat now)
  | _, _ => false
  end).

Definition FenceTx (f : Fence) : PM (string * rstate) :=
  run ← exec (fails "processing fence check failed") (fence_attempt f);
  match run with
  | None => raise ErrStaleFence
  | Some (id, r) =>
      active ← exec (fails "processing fence check failed") (fence_receipt f);
      _ ← guard_m (negb active) ErrStaleFence;
      _ ← guard_m (negb (id =? fe_RunID f)%string) ErrRunConflict;
      mret (id, r_state r)
  end.

(** The opening of every operation on a run: [FenceTx], and the run still running. *)
Definition fence_running (f : Fence) : PM unit :=
  run ← FenceTx f;
  guard_m (negb (bool_decide (run.2 = RRunning))) ErrCancelled.

(** ** Runs *)

(** What [ExistingRun] and [GetRun] return of a row; [result] is what Unmarshal
    makes of the column. *)
Record run_view := RunView {
  rv_id : string;
  rv_job_id : string;
  rv_attempt_generation : Z;
  rv_state : rstate;
  rv_result : option (list (string * json));
  rv_error_code : option string;
  rv_envelope_sha256 : option string;
}.
Definition view_of (id : string) (r : run_row) (digest : option string) : run_view :=
  RunView id (r_job r) (r_attempt r) (r_state r) (match r_result r with JObj l => Some l | _ => None end) (r_error r) digest.

Definition ExistingRun (f : Fence) : PM (option run_view) :=
  row ← exec (fails "processing run lookup failed")
    (read (fun _ d => find_run (uuid (en_JobID (fe_Envelope f))) (en_AttemptGeneration (fe_Envelope f)) d));
  mret ((fun '(id, r) => view_of id r (Some (r_digest r))) <$> row).

(** The id is returned as it was given. *)
Definition GetRun (id : string) : PM run_view :=
  row ← exec (fails "processing run unavailable") (read (fun _ d => p_runs d !! uuid id));
  match row with
  | None => raise (ErrText "processing run unavailable")
  | Some r => mret (view_of id r None)
  end.

(** An UPDATE of one run that is still running. *)
Definition end_run (id : string) (s : rstate) (now : Z) (result : run_row -> json) (error : run_row -> option string) : stmt ptables unit :=
  write (fun _ d =>
    match p_runs d !! id with
    | Some r =>
        if bool_decide (r_state r = RRunning)
        then set_runs (<[id := RunRow (r_job r) (r_attempt r) (r_digest r) (r_owner r) (r_generation r) (r_pid r) (r_instance r)
                                (r_deadline r) s (Some now) (result r) (error r)]> (p_runs d)) d
        else d
    | None => d
    end).

(** An UPDATE of the items that satisfy [P] to "cancelled". *)
Definition cancel_items (P : ptables -> string * Z -> item_row -> bool) : stmt ptables unit := write (fun _ d =>
  set_items (map_imap (fun k i => Some (if P d k i then set_item ICancelled (it_result i) i else i)) (p_items d)) d).

Definition cancel_body (id : string) : PM unit :=
  now ← tx_clock;
  row ← exec (fails "processing run unavailable") (read (fun _ d => p_runs d !! id));
  match row with
  | None => raise (ErrText "processing run unavailable")
  | Some r =>
      _ ← (if bool_decide (r_state r = RRunning) then
             _ ← exec (fails "processing cancellation failed") (end_run id RCancelled now r_result r_error);
             exec (fails "processing item cancellation failed")
               (cancel_items (fun _ k i => (k.1 =? id)%string && bool_decide (it_state i = IRunning)))
           else mret tt);
      _ ← commit (ErrText "commit");
      mret tt
  end.
Definition Cancel (id : string) : PM unit := with_tx (ErrText "processing cancellation unavailable") (cancel_body (uuid id)).

Definition fail_body (f : Fence) (code : string) : PM unit :=
  now ← tx_clock;
  _ ← fence_running f;
  _ ← exec (fails "processing run update failed") (end_run (fe_RunID f) RFailed now r_result (fun _ => Some code));
  _ ← commit (ErrText "commit");
  mret tt.
Definition FailRun (f : Fence) (code : string) : PM unit :=
  with_tx (ErrText "processing result transaction unavailable") (fail_body f code).

Definition finish_run_body (f : Fence) (receipt : json) : PM unit :=
  now ← tx_clock;
  _ ← fence_running f;
  _ ← exec (fails "processing run update failed") (end_run (fe_RunID f) RSucceeded now (fun _ => receipt) r_error);
  _ ← commit (ErrText "commit");
  mret tt.
Definition FinishRun (f : Fence) (receipt : json) : PM unit :=
  with_tx (ErrText "processing result transaction unavailable") (finish_run_body f receipt).

Definition canonical_body (f : Fence) : PM (string * json) :=
  _ ← FenceTx f;
  row ← exec (fails "canonical processing job unavailable") (read (fun _ d => q_jobs (p_queue d) !! uuid (en_JobID (fe_Envelope f))));
  match row with
  | None => raise (ErrText "canonical processing job unavailable")
  | Some j =>
      _ ← commit (ErrText "processing transaction failed");
      mret (j_kind j, j_payload j)
  end.
Definition CanonicalJob (f : Fence) : PM (string * json) :=
  with_tx (ErrText "processing transaction unavailable") (canonical_body f).

(** ** Recovery *)

(** The item's run can no longer settle it. *)
Definition abandoned (now : Z) (d : ptables) (k : string * Z) (i : item_row) : bool :=
  bool_decide (it_state i = IRunning) &&
  match p_runs d !! k.1 with
  | Some r =>
      negb (bool_decide (r_state r = RRunning)) || (r_deadline r <=? now) ||
      negb (match q_jobs (p_queue d) !! r_job r with
            | Some j => bool_decide (j_state j = Running) && (j_attempt j =? r_attempt r)
            | None => false
            end)
  | None => false
  end.

Definition recover_body (f : Fence) : PM unit :=
  now ← tx_clock;
  _ ← fence_running f;
  _ ← exec (fails "processing claim recovery failed") (cancel_items (abandoned now));
  _ ← commit (ErrText "commit");
  mret tt.
Definition RecoverClaims (f : Fence) : PM unit := with_tx (ErrText "processing claim recovery unavailable") (recover_body f).

Definition open_state (s : string) : bool := (s =? StatePending)%string || (s =? StateRetryWait)%string.

Definition exhaust_article (maxAttempts now : Z) (a : article_row) : article_row :=
  if open_state (a_state a) && (maxAttempts <=? a_attempts a) &&
     (match a_next_attempt a with None => true | Some t => t <=? now end)
  then ArticleRow StateExhausted (a_attempts a) None (a_last_error a) true (a_summary_processed a) (a_category_processed a) (a_ad_processed a)
  else a.

Definition exhaust_body (f : Fence) (maxAttempts now : Z) : PM unit :=
  _ ← fence_running f;
  _ ← exec (fails "processing exhaustion recovery failed") (write (fun _ d =>
        set_queue (set_articles (exhaust_article maxAttempts (pg_time now) <$> q_articles (p_queue d)) (p_queue d)) d));
  _ ← commit (ErrText "commit");
  mret tt.
Definition RecoverExhausted (f : Fence) (maxAttempts now : Z) : PM unit :=
  with_tx (ErrText "processing exhaustion recovery unavailable") (exhaust_body f maxAttempts now).

(** ** Selection *)

Definition by_id {A} (x y : Z * A) : Prop := x.1 <= y.1.
#[export] Instance by_id_dec {A} : RelDecision (@by_id A).
Proof. intros x y. unfold by_id. apply _. Defined.

(** The rows a query finds, by id. *)
Definition articles_where (P : Z -> article_row * text_row -> bool) (d : ptables) : list (Z * (article_row * text_row)) :=
  merge_sort by_id
    (filter (fun kv => P kv.1 kv.2 = true) (map_to_list (map_zip (q_articles (p_queue d)) (p_texts d)))).

Definition scan_article (sources : gmap Z source_row) (id : Z) (r : article_row * text_row) : Article :=
  let source := s ← t_source r.2; sources !! s in
  let s := row_snapshot r in
  MkArticle id (sn_Title s) (sn_URL s) (sn_Content s) (sn_Summary s) (t_source r.2) (default "rss" (src_type <$> source))
    (default "Unknown" (src_name <$> source)) (t_published r.2) (sn_SummaryProcessed s) (sn_CategoryProcessed s) (sn_AdProcessed s)
    (sn_IsAdvertisement s) (a_attempts r.1) (a_state r.1) (default "" (t_image r.2)) (default (JArr []) (t_media r.2))
    (a_processed r.1) "".

(** The article can be claimed: attempts are left and it is pending, or its wait is over. *)
Definition claimable (maxAttempts now : Z) (a : article_row) : bool :=
  (a_attempts a <? maxAttempts) &&
  ((a_state a =? StatePending)%string ||
   ((a_state a =? StateRetryWait)%string && match a_next_attempt a with Some t => t <=? now | None => false end)).

(** The two queries: of explicitly selected articles, or of those published in
    a range ([None] is no bound). *)
Definition due (now cursor : Z) (selected : list Z) (dateFrom dateTo : option Z) (maxAttempts : Z) (id : Z) (r : article_row * text_row) : bool :=
  (cursor <? id) && claimable maxAttempts now r.1 &&
  match selected with
  | [] =>
      (match dateFrom with None => true | Some from => match t_published r.2 with Some p => pg_time from <=? p | None => false end end) &&
      (match dateTo with None => true | Some to => match t_published r.2 with Some p => p <=? pg_time to | None => false end end)
  | _ => bool_decide (id ∈ selected)
  end.

Definition select_body (f : Fence) (limit cursor : Z) (selected : list Z) (dateFrom dateTo : option Z) (maxAttempts : Z) : PM (list Article) :=
  now ← tx_clock;
  _ ← fence_running f;
  rows ← exec (fails "article selection failed") (fun _ _ d =>
    (limit_rows limit (articles_where (due now cursor selected dateFrom dateTo maxAttempts) d) ≫= fun l =>
     Ok (map (fun kv => scan_article (p_sources d) kv.1 kv.2) l), d));
  _ ← commit (ErrText "article selection commit failed");
  mret rows.
Definition SelectDue (f : Fence) (limit cursor : Z) (selected : list Z) (dateFrom dateTo : option Z) (maxAttempts : Z) : PM (list Article) :=
  with_tx (ErrText "article selection transaction unavailable") (select_body f limit cursor selected dateFrom dateTo maxAttempts).

(** ** Claims *)

(** An UPDATE with a WHERE clause, and the number of rows it changed. *)
Definition update_article (id : Z) (P : article_row -> bool) (f : article_row -> article_row) : stmt ptables Z := fun _ _ d =>
  match q_articles (p_queue d) !! id with
  | Some a => if P a then (Ok 1, set_queue (set_articles (<[id := f a]> (q_articles (p_queue d))) (p_queue d)) d) else (Ok 0, d)
  | None => (Ok 0, d)
  end.

Definition item_key (f : Fence) (article : Z) : string * Z := (fe_RunID f, article).

Definition running_claim (article : Z) (d : ptables) : bool :=
  bool_decide (filter (fun kv => kv.1.2 = article /\ it_state kv.2 = IRunning) (map_to_list (p_items d)) <> []).

(** The primary key, the unique index on running claims and the foreign keys. *)
Definition insert_item (k : string * Z) (i : item_row) : stmt ptables unit := fun _ _ d =>
  if bool_decide (is_Some (p_items d !! k)) || (bool_decide (it_state i = IRunning) && running_claim k.2 d) then (Err UniqueViolation, d)
  else if negb (bool_decide (is_Some (p_runs d !! k.1))) || negb (bool_decide (is_Some (q_articles (p_queue d) !! k.2))) then (Err DbFault, d)
  else (Ok tt, set_items (<[k := i]> (p_items d)) d).

(** [WHERE run_id=$1 AND article_id=$2 AND P] *)
Definition update_item (k : string * Z) (P : item_row -> bool) (f : item_row -> item_row) : stmt ptables Z := fun _ _ d =>
  match p_items d !! k with
  | Some i => if P i then (Ok 1, set_items (<[k := f i]> (p_items d)) d) else (Ok 0, d)
  | None => (Ok 0, d)
  end.

Definition claimed_article (attempt deadline : Z) (a : article_row) : article_row :=
  ArticleRow StateRetryWait attempt (Some (pg_time deadline)) (Some "Attempt interrupted before outcome was saved") (a_processed a)
    (a_summary_processed a) (a_category_processed a) (a_ad_processed a).

Definition claim_delay (timeout retryDelay : Z) : Z :=
  let delay := Z.max (timeout + 60 * Second) retryDelay in if delay <=? 0 then 30 * Minute else delay.

(** A telegram text that is long enough is sent as its own context. *)
Definition original_context (a : Article) (content : string) : option string :=
  if (ar_SourceType a =? "telegram")%string && (30 <=? RuneCount (TrimSpace content)) then Some content else None.

Section Operations.
Context (sha256 : list Z -> list Z).

Definition claim_body (f : Fence) (a : Article) (timeout retryDelay : Z) : PM (Z * string * string) :=
  _ ← fence_running f;
  row ← exec (fails "article claim target unavailable") (read (fun _ d => article_at d (ar_ID a)));
  match row with
  | None => raise (ErrText "article claim target unavailable")
  | Some r =>
      let current := a_attempts r.1 in
      let s := row_snapshot r in
      _ ← guard_m (negb (current =? ar_ProcessingAttempts a) || negb (open_state (a_state r.1))) (ErrText "article claim no longer eligible");
      _ ← guard_m (negb (bool_decide (s = article_snapshot a))) (ErrText "article changed before processing claim");
      let attempt := current + 1 in
      now ← app_now;
      changed ← exec (fails "article claim lost")
        (update_article (ar_ID a) (fun x => a_attempts x =? current) (claimed_article attempt (now + claim_delay timeout retryDelay)));
      _ ← guard_m (negb (changed =? 1)) (ErrText "article claim lost");
      random ← rand_read (ErrText "article claim token unavailable");
      let token := uuid_format (byte16 random) in
      let input := fingerprint sha256 (sn_Title s) (sn_Content s) (sn_URL s) (original_context a (sn_Content s)) in
      _ ← exec (fails "article claim receipt unavailable")
        (insert_item (item_key f (ar_ID a)) (ItemRow attempt input token IRunning (claim_receipt sha256 (article_snapshot a))));
      _ ← commit (ErrText "article claim commit failed");
      mret (attempt, input, token)
  end.
Definition ClaimArticle (f : Fence) (a : Article) (timeout retryDelay : Z) : PM (Z * string * string) :=
  with_tx (ErrText "article claim transaction unavailable") (claim_body f a timeout retryDelay).

Definition refingerprint_body (f : Fence) (article attempt : Z) (token input : string) : PM unit :=
  _ ← fence_running f;
  changed ← exec (fails "article claim changed") (update_item (item_key f article)
    (fun i => (it_attempt i =? attempt) && (it_token i =? token)%string && bool_decide (it_state i = IRunning))
    (fun i => ItemRow (it_attempt i) input (it_token i) (it_state i) (it_result i)));
  _ ← guard_m (negb (changed =? 1)) (ErrText "article claim changed");
  _ ← commit (ErrText "commit");
  mret tt.
Definition UpdateItemFingerprint (f : Fence) (article attempt : Z) (token input : string) : PM unit :=
  with_tx (ErrText "article claim update unavailable") (refingerprint_body f article attempt token input).
End Operations.

(** ** Outcomes *)

Section Columns.
Context (shortest : SpecFloat.spec_float -> string).

(** [media_files] is marshalled; nothing is stored when Marshal fails. *)
Definition media_json (v : field) : option json :=
  match v with
  | FAny v => value_json shortest v
  | FMedia l => value_json shortest (VArr (map VObj l))
  | _ => None
  end.

Definition nullable {A} (of_value : value -> option A) (v : field) : option (option A) :=
  match v with
  | FAny VNull => Some None
  | FAny v => Some <$> of_value v
  | _ => None
  end.
Definition text_value (v : value) : option string := match v with VStr s => Some s | _ => None end.
Definition bool_value (v : value) : option bool := match v with VBool b => Some b | _ => None end.
Definition float_value (v : value) : option SpecFloat.spec_float := match v with VFloat f => Some f | _ => None end.

(** A text in a column of at most [n] characters: a longer one is an error, unless
    only spaces are cut off. *)
Definition varchar (n : Z) (s : string) : option string :=
  if RuneCount s <=? n then Some s
  else if forallb (fun c => bool_decide (c = [32])) (drop (Z.to_nat n) (rune_chunks (bytes_of s))) then Some (take_runes n s) else None.

(** One column of the UPDATE; a value the driver cannot send, or NULL in a column
    that has none, is an error. *)
Definition put_column (k : string) (v : field) (r : article_row * text_row) : option (article_row * text_row) :=
  let '(a, TextRow src title url content summary image media published hash ad conf type reason) := r in
  let flag set := b ← nullable bool_value v; Some (set (default false b), r.2) in
  if (k =? "title")%string then s ← nullable text_value v; s ← s; Some (a, TextRow src s url content summary image media published hash ad conf type reason)
  else if (k =? "content")%string then s ← nullable text_value v; Some (a, TextRow src title url s summary image media published hash ad conf type reason)
  else if (k =? "summary")%string then s ← nullable text_value v; Some (a, TextRow src title url content s image media published hash ad conf type reason)
  else if (k =? "summary_processed")%string then
    flag (fun b => ArticleRow (a_state a) (a_attempts a) (a_next_attempt a) (a_last_error a) (a_processed a) b (a_category_processed a) (a_ad_processed a))
  else if (k =? "category_processed")%string then
    flag (fun b => ArticleRow (a_state a) (a_attempts a) (a_next_attempt a) (a_last_error a) (a_processed a) (a_summary_processed a) b (a_ad_processed a))
  else if (k =? "ad_processed")%string then
    flag (fun b => ArticleRow (a_state a) (a_attempts a) (a_next_attempt a) (a_last_error a) (a_processed a) (a_summary_processed a) (a_category_processed a) b)
  else if (k =? "is_advertisement")%string then b ← nullable bool_value v; Some (a, TextRow src title url content summary image media published hash b conf type reason)
  else if (k =? "ad_confidence")%string then c ← nullable float_value v; Some (a, TextRow src title url content summary image media published hash ad c type reason)
  else if (k =? "ad_type")%string then
    s ← nullable text_value v;
    s ← match s with Some s => Some <$> varchar 50 s | None => Some None end;
    Some (a, TextRow src title url content summary image media published hash ad conf s reason)
  else if (k =? "ad_reasoning")%string then s ← nullable text_value v; Some (a, TextRow src title url content summary image media published hash ad conf type s)
  else if (k =? "image_url")%string then s ← nullable text_value v; Some (a, TextRow src title url content summary s media published hash ad conf type reason)
  else if (k =? "media_files")%string then Some (a, TextRow src title url content summary image (media_json v) published hash ad conf type reason)
  else match v with
       | FTime t => Some (a, TextRow src title url content summary image media (Some (pg_time t)) hash ad conf type reason)
       | FAny VNull => Some (a, TextRow src title url content summary image media None hash ad conf type reason)
       | _ => None
       end.

Definition outcome_columns : list string :=
  ["title"; "content"; "summary"; "summary_processed"; "category_processed"; "ad_processed"; "is_advertisement"; "ad_confidence";
   "ad_type"; "ad_reasoning"; "image_url"; "media_files"; "published_at"].

(** The row after the UPDATE. *)
Definition outcome_row (p : Persisted) (r : article_row * text_row) : option (article_row * text_row) :=
  let a := r.1 in
  let a' := ArticleRow (pr_State p) (pr_Attempts p) (pg_time <$> pr_NextAttemptAt p) (pr_Error p) (pr_Processed p)
              (a_summary_processed a) (a_category_processed a) (a_ad_processed a) in
  foldl (fun r k => r ≫= fun r => match pr_Fields p !! k with Some v => put_column k v r | None => Some r end)
    (Some (a', r.2)) outcome_columns.
End Columns.

(** The trigger [trg_article_serbian_invalidation]; [now] is the transaction's time. *)
Definition source_changed (t t' : text_row) : bool :=
  negb (t_title t =? t_title t')%string || negb (bool_decide (t_content t = t_content t')) ||
  negb (bool_decide (t_summary t = t_summary t')) || negb (t_url t =? t_url t')%string.
Definition invalidate (now : Z) (l : local_row) : local_row :=
  LocalRow (l_title l) (l_summary l) (l_fingerprint l) (l_prompt l) (l_model l) LRetryWait 0 (Some (now + 30 * Minute)) (Some "source_changed").
Definition article_updated (now id : Z) (t t' : text_row) (d : ptables) : ptables :=
  if source_changed t t' then set_locals (alter (invalidate now) (id, "sr-Latn") (p_locals d)) d else d.

(** [UPDATE articles SET ... WHERE id=$1] with its trigger; no row is no error. *)
Definition write_outcome (shortest : SpecFloat.spec_float -> string) (now id : Z) (p : Persisted) : stmt ptables unit := fun _ _ d =>
  match article_at d id with
  | None => (Ok tt, d)
  | Some r =>
      match outcome_row shortest p r with
      | None => (Err DbFault, d)
      | Some r' => (Ok tt, article_updated now id r.2 r'.2 (put_article id r'.1 r'.2 d))
      end
  end.

(** The upsert of one localization. *)
Definition upsert_local (now id : Z) (locale title summary input prompt model : string) (valid : bool) : stmt ptables unit := write (fun _ d =>
  let status := if valid then LCompleted else LRetryWait in
  let error := if valid then None else Some "invalid_localization" in
  let next := if valid then None else Some (now + 30 * Minute) in
  match p_locals d !! (id, locale) with
  | None => set_locals (<[(id, locale) := LocalRow title summary input prompt model status 1 next error]> (p_locals d)) d
  | Some l =>
      if valid || negb (bool_decide (l_status l = LCompleted)) || negb (l_fingerprint l =? input)%string
      then set_locals (<[(id, locale) := LocalRow title summary input prompt model status
                           (if (l_fingerprint l =? input)%string then l_attempts l + 1 else 1) next error]> (p_locals d)) d
      else d
  end).

Definition field_value (fields : gmap string field) (k : string) : value :=
  match fields !! k with Some (FAny v) => v | _ => VNull end.

Definition save_locale (now id : Z) (input prompt model : string) (locales : list (string * value)) (locale : string) : PM unit :=
  match vget locales locale with
  | None => mret tt
  | Some entry =>
      exec (fails "localization update failed")
        (upsert_local now id locale (as_string (vfield entry "title")) (as_string (vfield entry "summary")) input prompt model
           (is_true (vfield entry "valid")))
  end.

Section Categories.
Context (pg_lower : string -> string).

(** [SELECT id FROM categories WHERE lower(name)=lower($1) LIMIT 1] *)
Definition find_category (name : string) (d : ptables) : option Z :=
  fst <$> head (filter (fun kv => pg_lower kv.2 = pg_lower name) (map_to_list (p_categories d))).

Definition find_mapping (exact : bool) (name : string) (d : ptables) : option (string * mapping_row) :=
  head (filter (fun kv => (if exact then (kv.1 =? name)%string else (pg_lower kv.1 =? pg_lower name)%string) && mp_active kv.2 = true)
          (map_to_list (p_mappings d))).

Definition use_mapping (now : Z) (name : string) : stmt ptables unit := write (fun _ d =>
  set_mappings (alter (fun m => MappingRow (mp_fixed m) (mp_active m) (Some (default 0 (mp_usage m) + 1)) (Some now)) name (p_mappings d)) d).

Definition lookupFixedCategory (now : Z) (name : string) : PM (option string) :=
  exact ← exec (fails "category mapping lookup failed") (read (fun _ => find_mapping true name));
  row ← (match exact with
         | Some r => mret (Some r)
         | None => exec (fails "category mapping lookup failed") (read (fun _ => find_mapping false name))
         end);
  match row with
  | None => mret None
  | Some (mappingName, m) =>
      _ ← exec (fails "category mapping lookup failed") (use_mapping now mappingName);
      mret (Some (mp_fixed m))
  end.

Definition category_query (name : string) : PM (option Z) :=
  exec (fails "category target lookup failed") (read (fun _ => find_category name)).

(** The category of one label: by its name, by the mapping of its name or its
    display category, else "Other". *)
Definition category_target (now : Z) (c : StoreCategory) : PM Z :=
  named ← category_query (sc_Name c);
  target ← (match named with
            | Some id => mret (Some id)
            | None =>
                mapped ← lookupFixedCategory now (sc_Name c);
                let fixed := match mapped with Some s => s | None => sc_DisplayCategory c end in
                let fixed := if (fixed =? "")%string then "Other" else fixed in
                found ← category_query fixed;
                match found with
                | Some id => mret (Some id)
                | None => if EqualFold fixed "Other" then mret None else category_query "other"
                end
            end);
  match target with Some id => mret id | None => raise ErrCategoryMapping end.

(** [ON CONFLICT(article_id,category_id) DO NOTHING] *)
Definition insert_label (now article category : Z) (c : StoreCategory) : stmt ptables unit := write (fun _ d =>
  match p_labels d !! (article, category) with
  | Some _ => d
  | None => set_labels (<[(article, category) := LabelRow (sc_Confidence c) (sc_AICategory c) now]> (p_labels d)) d
  end).

Definition save_category (now article : Z) (c : StoreCategory) : PM unit :=
  category ← category_target now c;
  exec (fails "category insert failed") (insert_label now article category c).

Definition clear_labels (article : Z) : stmt ptables unit := write (fun _ d =>
  set_labels (filter (fun kv => kv.1.1 <> article) (p_labels d)) d).

Definition save_categories (now article : Z) (fields : gmap string field) : PM unit :=
  match fields !! "categories" with
  | Some (FStored cats) =>
      _ ← exec (fails "category replacement failed") (clear_labels article);
      for_each (save_category now article) cats
  | _ => mret tt
  end.

Definition save_locales (now article : Z) (input : string) (fields : gmap string field) : PM unit :=
  match field_value fields "localizations" with
  | VObj locales =>
      for_each (save_locale now article input (as_string (field_value fields "localization_prompt_version"))
                  (as_string (field_value fields "localization_model")) locales) ["ru"; "sr-Latn"]
  | _ => mret tt
  end.

Definition outcome_result (state : string) (error : option string) : json :=
  JObj [("error", match error with Some e => JStr e | None => JNull end); ("state", JStr state)].

(** The last UPDATE of an outcome: the claim takes the outcome's state; a text that
    is no state of an item violates the constraint. *)
Definition settle_item (k : string * Z) (attempt : Z) (token input state : string) (result : json) : stmt ptables Z :=
  match istate_of state with
  | None => fun _ _ d => (Err DbFault, d)
  | Some s => update_item k (fun i => (it_attempt i =? attempt) && (it_token i =? token)%string && (it_fingerprint i =? input)%string &&
                                        bool_decide (it_state i = IRunning)) (set_item s result)
  end.

Context (sha256 : list Z -> list Z) (shortest : SpecFloat.spec_float -> string).

(** The claim is the caller's, still running, and the article is the one claimed. *)
Definition claim_current (attempt : Z) (token input : string) (i : item_row) : bool :=
  (it_attempt i =? attempt) && (it_fingerprint i =? input)%string && (it_token i =? token)%string && bool_decide (it_state i = IRunning).
Definition unchanged (i : item_row) (r : article_row * text_row) : bool :=
  (sourceSnapshotFingerprint sha256 (row_snapshot r) =? receipt_fingerprint (it_result i))%string.

Definition save_body (f : Fence) (a : Article) (attempt : Z) (token input : string) (p : Persisted) : PM unit :=
  now ← tx_clock;
  _ ← fence_running f;
  let k := item_key f (ar_ID a) in
  let claim := "article outcome claim changed" in
  item ← exec (fails claim) (read (fun _ d => p_items d !! k));
  match item with
  | None => raise (ErrText claim)
  | Some i =>
      _ ← guard_m (negb (claim_current attempt token input i)) (ErrText claim);
      row ← exec (fails "article changed during processing") (read (fun _ d => article_at d (ar_ID a)));
      match row with
      | None => raise (ErrText "article changed during processing")
      | Some r =>
          _ ← guard_m (negb (a_attempts r.1 =? attempt) || negb (unchanged i r)) (ErrText "article changed during processing");
          _ ← exec (fails "article update failed") (write_outcome shortest now (ar_ID a) p);
          _ ← save_locales now (ar_ID a) input (pr_Fields p);
          _ ← save_categories now (ar_ID a) (pr_Fields p);
          changed ← exec (fails "article item update failed")
            (settle_item k attempt token input (pr_State p) (outcome_result (pr_State p) (pr_Error p)));
          _ ← guard_m (negb (changed =? 1)) (ErrText "article item update failed");
          _ ← commit (ErrText "commit");
          mret tt
      end
  end.
Definition SaveOutcome (f : Fence) (a : Article) (attempt : Z) (token input : string) (p : Persisted) : PM unit :=
  with_tx (ErrText "article outcome transaction unavailable") (save_body f a attempt token input p).

Definition mapping_failed_row (attempt : Z) (a : article_row) : article_row :=
  ArticleRow (a_state a) (a_attempts a) (a_next_attempt a) (Some "category_mapping_failed") (a_processed a) (a_summary_processed a)
    (a_category_processed a) (a_ad_processed a).

Definition record_failure_body (f : Fence) (a : Article) (attempt : Z) (token input : string) : PM unit :=
  _ ← fence_running f;
  let k := item_key f (ar_ID a) in
  let claim := "category failure claim changed" in
  item ← exec (fails claim) (read (fun _ d => p_items d !! k));
  match item with
  | None => raise (ErrText claim)
  | Some i =>
      _ ← guard_m (negb (claim_current attempt token input i)) (ErrText claim);
      row ← exec (fails "category failure article unavailable") (read (fun _ d => article_at d (ar_ID a)));
      match row with
      | None => raise (ErrText "category failure article unavailable")
      | Some r =>
          _ ← guard_m (negb (unchanged i r)) (ErrText "article changed during category failure handling");
          _ ← exec (fails "category failure article update unavailable")
            (update_article (ar_ID a) (fun x => a_attempts x =? attempt) (mapping_failed_row attempt));
          changed ← exec (fails "category failure item update unavailable")
            (settle_item k attempt token input StateRetryWait (outcome_result StateRetryWait (Some "category_mapping_failed")));
          _ ← guard_m (negb (changed =? 1)) (ErrText "category failure item update unavailable");
          _ ← commit (ErrText "commit");
          mret tt
      end
  end.
Definition RecordCategoryMappingFailure (f : Fence) (a : Article) (attempt : Z) (token input : string) : PM unit :=
  with_tx (ErrText "category failure receipt unavailable") (record_failure_body f a attempt token input).
End Categories.

(** ** Localizations *)

Section Localizations.
Context (sha256 : list Z -> list Z).

(** Waiting Serbian texts without attempts left are given up. *)
Definition exhaust_local (maxAttempts now : Z) (k : Z * string) (l : local_row) : local_row :=
  if (k.2 =? "sr-Latn")%string && bool_decide (l_status l = LRetryWait) && (maxAttempts <=? l_attempts l) &&
     (match l_next_retry l with Some t => t <=? now | None => false end)
  then LocalRow (l_title l) (l_summary l) (l_fingerprint l) (l_prompt l) (l_model l) LExhausted (l_attempts l) None (Some "retry_interrupted")
  else l.

Definition local_due (maxAttempts now : Z) (run : string) (locked : string -> bool) (d : ptables) (kv : Z * string * local_row) : bool :=
  let id := kv.1.1 in
  (kv.1.2 =? "sr-Latn")%string && bool_decide (l_status kv.2 = LRetryWait) && (l_attempts kv.2 <? maxAttempts) &&
  (match l_next_retry kv.2 with Some t => t <=? now | None => false end) &&
  (match q_articles (p_queue d) !! id with
   | Some a => (a_state a =? StateCompleted)%string && (0 <? a_attempts a)
   | None => false
   end) &&
  negb (running_claim id d) && negb (bool_decide (is_Some (p_items d !! (run, id)))) && negb (locked (itoa id)).

(** [ORDER BY next_retry_at, id] *)
Definition retry_order (x y : Z * string * local_row) : Prop :=
  default 0 (l_next_retry x.2) < default 0 (l_next_retry y.2) \/
  default 0 (l_next_retry x.2) = default 0 (l_next_retry y.2) /\ x.1.1 <= y.1.1.
#[export] Instance retry_order_dec : RelDecision retry_order.
Proof. intros x y. unfold retry_order. apply _. Defined.

(** The first due localization whose article no other session has locked. *)
Definition next_local (maxAttempts now : Z) (run : string) : stmt ptables (option (Z * (article_row * text_row))) := fun locked _ d =>
  (Ok (kv ← head (merge_sort retry_order (filter (fun kv => local_due maxAttempts now run locked d kv = true) (map_to_list (p_locals d))));
       r ← article_at d kv.1.1; Some (kv.1.1, r)), d).

(** The columns the query reads into an [Article]; the others keep zero values. *)
Definition localized_article (id : Z) (r : article_row * text_row) (token : string) : Article :=
  let s := row_snapshot r in
  MkArticle id (sn_Title s) (sn_URL s) (sn_Content s) (sn_Summary s) None "" "" None (sn_SummaryProcessed s) (sn_CategoryProcessed s)
    (sn_AdProcessed s) (sn_IsAdvertisement s) (a_attempts r.1) "" "" JNull false token.

Definition update_local (id : Z) (f : local_row -> local_row) : stmt ptables unit := write (fun _ d =>
  set_locals (alter f (id, "sr-Latn") (p_locals d)) d).

Definition claim_local_body (f : Fence) (maxAttempts delay : Z) : PM (option (Article * string)) :=
  now ← tx_clock;
  _ ← fence_running f;
  _ ← exec (fails "localization recovery failed") (write (fun _ d =>
        set_locals (map_imap (fun k l => Some (exhaust_local maxAttempts now k l)) (p_locals d)) d));
  row ← exec (fails "localization selection failed") (next_local maxAttempts now (fe_RunID f));
  match row with
  | None =>
      _ ← commit (ErrText "localization recovery commit failed");
      mret None
  | Some (id, r) =>
      random ← rand_read (ErrText "localization token unavailable");
      let a := localized_article id r (uuid_format (byte16 random)) in
      let input := localizationFingerprint sha256 a in
      _ ← exec (fails "localization claim receipt failed") (insert_item (item_key f id)
            (ItemRow (ar_ProcessingAttempts a) input (ar_ClaimToken a) IRunning (claim_receipt sha256 (article_snapshot a))));
      at_ ← app_now;
      _ ← exec (fails "localization claim update failed") (update_local id (fun l =>
            LocalRow (l_title l) (l_summary l) (l_fingerprint l) (l_prompt l) (l_model l) (l_status l) (l_attempts l + 1)
              (Some (pg_time (at_ + delay))) (Some "retry_interrupted")));
      _ ← commit (ErrText "localization claim commit failed");
      mret (Some (a, input))
  end.
Definition ClaimLocalizationRetry (f : Fence) (maxAttempts delay : Z) : PM (option (Article * string)) :=
  with_tx (ErrText "localization claim unavailable") (claim_local_body f maxAttempts delay).

(** The CASE expressions of [SaveLocalizationRetry]. *)
Definition retried_local (valid : bool) (title summary input prompt model : string) (maxAttempts : Z) (l : local_row) : local_row :=
  if negb (bool_decide (l_status l = LRetryWait)) then l
  else if valid then LocalRow title summary input prompt model LCompleted (l_attempts l) None None
  else LocalRow (l_title l) (l_summary l) (l_fingerprint l) (l_prompt l) (l_model l)
         (if maxAttempts <=? l_attempts l then LExhausted else LRetryWait) (l_attempts l)
         (if maxAttempts <=? l_attempts l then None else l_next_retry l) (Some "invalid_localization").

Definition save_local_body (f : Fence) (a : Article) (input title summary prompt model : string) (valid : bool) (maxAttempts : Z) : PM unit :=
  _ ← fence_running f;
  let k := item_key f (ar_ID a) in
  item ← exec (fails "localization claim changed") (read (fun _ d => p_items d !! k));
  match item with
  | None => raise (ErrText "localization claim changed")
  | Some i =>
      _ ← guard_m (negb (claim_current (ar_ProcessingAttempts a) (ar_ClaimToken a) input i)) (ErrText "localization claim changed");
      row ← exec (fails "article changed during localization") (read (fun _ d => article_at d (ar_ID a)));
      match row with
      | None => raise (ErrText "article changed during localization")
      | Some r =>
          _ ← guard_m (negb (a_attempts r.1 =? it_attempt i) || negb (unchanged sha256 i r)) (ErrText "article changed during localization");
          _ ← exec (fails "localization outcome update failed")
            (update_local (ar_ID a) (retried_local valid title summary input prompt model maxAttempts));
          let status := if valid then ICompleted else IRetryWait in
          changed ← exec (fails "localization receipt update failed")
            (update_item k (fun i => bool_decide (it_state i = IRunning) && (it_token i =? ar_ClaimToken a)%string && (it_fingerprint i =? input)%string)
               (fun i => set_item status (it_result i) i));
          _ ← guard_m (negb (changed =? 1)) (ErrText "localization receipt update failed");
          _ ← commit (ErrText "commit");
          mret tt
      end
  end.
Definition SaveLocalizationRetry (f : Fence) (a : Article) (input title summary prompt model : string) (valid : bool) (maxAttempts : Z) : PM unit :=
  with_tx (ErrText "localization outcome unavailable") (save_local_body f a input title summary prompt model valid maxAttempts).
End Localizations.

(** ** Reports *)

Record ArticleOutcome := MkArticleOutcome {
  ao_ArticleID : Z;
  ao_State : string;
  ao_Reason : option string;
  ao_NextAttemptAt : option Z;
}.

Definition articleOutcomeReasonCodes : list string :=
  ["advertisement"; "category_mapping_failed"; "content_refresh_unavailable"; "extraction_challenge"; "extraction_unavailable";
   "extractor_failed"; "http_error"; "invalid_response"; "missing_ad_classification"; "missing_categories"; "missing_summary";
   "provider_error"; "provider_timeout"; "provider_unavailable"; "resource_limit"; "smart_filter_rejected";
   "summary_describes_challenge"; "timeout"; "processing_error"; "busy"; "cancelled"].

Definition sanitizeArticleOutcomeReason (raw : option string) : option string :=
  match raw with
  | None => None
  | Some s =>
      let code := TrimSpace s in
      if (code =? "")%string then None
      else Some (if bool_decide (code ∈ articleOutcomeReasonCodes) then code else "other")
  end.

Definition ArticleOutcomes (ids : list Z) : PM (list ArticleOutcome) :=
  match ids with
  | [] => mret []
  | _ =>
      rows ← exec (fails "article outcome read failed") (read (fun _ => articles_where (fun id _ => bool_decide (id ∈ ids))));
      mret (map (fun kv => MkArticleOutcome kv.1 (a_state kv.2.1) (sanitizeArticleOutcomeReason (a_last_error kv.2.1)) (a_next_attempt kv.2.1)) rows)
  end.

Definition HasDuplicateHash (hash : string) (article : Z) : PM bool :=
  exec (fails "duplicate lookup failed") (read (fun _ d =>
    bool_decide (filter (fun kv => t_hash kv.2 = Some hash /\ kv.1 <> article) (map_to_list (p_texts d)) <> []))).

(** ** The invariant and the evolution of the tables *)

(** Runs belong to jobs and have keys of their own, items belong to runs and
    articles, an article has one running claim at most, and the ids of articles
    are positive integers of 32 bits. *)
Record p_wf (d : ptables) : Prop := {
  pw_queue : q_wf (p_queue d);
  pw_texts : forall id, is_Some (p_texts d !! id) <-> is_Some (q_articles (p_queue d) !! id);
  pw_key : forall a b ra rb, p_runs d !! a = Some ra -> p_runs d !! b = Some rb ->
    r_job ra = r_job rb -> r_attempt ra = r_attempt rb -> a = b;
  pw_job : forall id r, p_runs d !! id = Some r -> exists j, q_jobs (p_queue d) !! r_job r = Some j /\ r_attempt r <= j_attempt j;
  pw_item : forall k i, p_items d !! k = Some i -> is_Some (p_runs d !! k.1) /\ is_Some (q_articles (p_queue d) !! k.2);
  pw_claim : forall k k' i i', p_items d !! k = Some i -> p_items d !! k' = Some i' ->
    it_state i = IRunning -> it_state i' = IRunning -> k.2 = k'.2 -> k = k';
  pw_gone : forall id, id ∈ p_gone d -> q_articles (p_queue d) !! id = None;
  pw_ids : forall id, is_Some (q_articles (p_queue d) !! id) -> 0 < id < 2 ^ 31;   (* SERIAL *)
}.

(** A run keeps its envelope, and once ended nothing of it changes. *)
Definition run_evolves (r r' : run_row) : Prop :=
  (r_job r', r_attempt r', r_digest r', r_owner r', r_generation r', r_pid r', r_instance r', r_deadline r') =
  (r_job r, r_attempt r, r_digest r, r_owner r, r_generation r, r_pid r, r_instance r, r_deadline r) /\
  (r_state r <> RRunning -> r' = r).

(** A claim keeps its attempt and token, and once settled nothing of it changes. *)
Definition item_evolves (i i' : item_row) : Prop :=
  it_attempt i' = it_attempt i /\ it_token i' = it_token i /\ (it_state i <> IRunning -> i' = i).

(** Runs disappear only with their job, items with their run or their article. *)
Record p_evolves (d d' : ptables) : Prop := {
  pe_queue : q_evolves (p_queue d) (p_queue d');
  pe_wf : p_wf d -> p_wf d';
  pe_gone : p_gone d ⊆ p_gone d';
  pe_articles : forall id, is_Some (q_articles (p_queue d) !! id) -> is_Some (q_articles (p_queue d') !! id) \/ id ∈ p_gone d';
  pe_runs : forall id r, p_runs d !! id = Some r ->
    (exists r', p_runs d' !! id = Some r' /\ run_evolves r r') \/ r_job r ∈ q_retired (p_queue d');
  pe_items : forall k i r, p_items d !! k = Some i -> p_runs d !! k.1 = Some r ->
    (exists i', p_items d' !! k = Some i' /\ item_evolves i i') \/ k.2 ∈ p_gone d' \/ r_job r ∈ q_retired (p_queue d');
}.

Lemma run_evolves_refl r : run_evolves r r.
Proof. done. Qed.
Lemma run_evolves_trans a b c : run_evolves a b -> run_evolves b c -> run_evolves a c.
Proof.
  intros [H1 H2] [H3 H4]. split; [congruence|]. intros Ha. specialize (H2 Ha) as ->. auto.
Qed.
Lemma item_evolves_refl i : item_evolves i i.
Proof. done. Qed.
Lemma item_evolves_trans a b c : item_evolves a b -> item_evolves b c -> item_evolves a c.
Proof. intros (H1 & H2 & H3) (H4 & H5 & H6). split_and!; [congruence..|]. intros Ha. specialize (H3 Ha) as ->. auto. Qed.
#[export] Hint Resolve run_evolves_refl item_evolves_refl : news.

#[export] Instance p_evolves_preorder : PreOrder p_evolves.
Proof.
  split.
  - intros d. split; eauto with news.
  - intros a b c [A1 A2 A3 A4 A5 A6] [B1 B2 B3 B4 B5 B6]. pose proof (ev_retired _ _ B1) as Hret. split.
    + by transitivity (p_queue b).
    + auto.
    + set_solver.
    + intros id H. destruct (A4 id H) as [H'|H']; [auto|right; set_solver].
    + intros id r H. destruct (A5 id r H) as [(r' & H' & E)|H']; [|right; set_solver].
      destruct (B5 id r' H') as [(r'' & H'' & E')|H'']; [left; eauto using run_evolves_trans|].
      right. destruct E as [[= E _ _ _ _ _ _ _] _]. congruence.
    + intros k i r H Hr. destruct (A6 k i r H Hr) as [(i' & H' & E)|[H'|H']]; [|right; left; set_solver|right; right; set_solver].
      destruct (A5 k.1 r Hr) as [(r' & Hr' & Er)|Hr']; [|right; right; set_solver].
      destruct (B6 k i' r' H' Hr') as [(i'' & H'' & E')|[H''|H'']]; [left; eauto using item_evolves_trans|by right; left|].
      right. right. destruct Er as [[= E1 _ _ _ _ _ _ _] _]. congruence.
Qed.
Lemma p_evolves_refl d : p_evolves d d.
Proof. reflexivity. Qed.
#[export] Hint Resolve p_evolves_refl : news.

(** *** How each kind of write evolves them *)

(** Columns of the articles *)
Lemma p_evolves_articles m d :
  (forall id, is_Some (m !! id) <-> is_Some (q_articles (p_queue d) !! id)) ->
  p_evolves d (set_queue (set_articles m (p_queue d)) d).
Proof.
  intros Hm. split; simpl; eauto with news.
  - apply q_evolves_articles.
  - intros [W1 W2 W3 W4 W5 W6 W7 W8]. split; simpl; eauto.
    + by destruct W1.
    + intros id. by rewrite Hm.
    + intros k i Hi. rewrite Hm. eauto.
    + intros id Hid. apply eq_None_not_Some. rewrite Hm. rewrite (W7 id Hid). by intros [].
    + intros id Hid. apply W8. by apply Hm.
  - intros id Hid. left. by apply Hm.
Qed.
Lemma p_evolves_texts m d :
  (forall id, is_Some (m !! id) <-> is_Some (p_texts d !! id)) -> p_evolves d (set_texts m d).
Proof.
  intros Hm. split; simpl; eauto with news. intros [W1 W2 W3 W4 W5 W6 W7 W8]. split; simpl; eauto. intros id. by rewrite Hm.
Qed.

Lemma is_Some_insert {A} (m : gmap Z A) k v id : is_Some (m !! k) -> is_Some (<[k := v]> m !! id) <-> is_Some (m !! id).
Proof.
  intros Hk. destruct (decide (k = id)) as [<-|Hn]; [rewrite lookup_insert_eq; split; [done|by eexists]|by rewrite lookup_insert_ne].
Qed.

Lemma p_evolves_put_article id a t d : is_Some (article_at d id) -> p_evolves d (put_article id a t d).
Proof.
  intros [r Hr]. unfold article_at in Hr. apply bind_Some in Hr as (x & Hx & (y & Hy & _)%bind_Some).
  transitivity (set_queue (set_articles (<[id := a]> (q_articles (p_queue d))) (p_queue d)) d).
  - apply p_evolves_articles. intros k. apply is_Some_insert. by eexists.
  - apply p_evolves_texts. intros k. apply is_Some_insert. by eexists.
Qed.

(** Tables without rules *)
Lemma p_evolves_locals m d : p_evolves d (set_locals m d).
Proof. split; simpl; eauto with news. intros []. by split. Qed.
Lemma p_evolves_mappings m d : p_evolves d (set_mappings m d).
Proof. split; simpl; eauto with news. intros []. by split. Qed.
Lemma p_evolves_labels m d : p_evolves d (set_labels m d).
Proof. split; simpl; eauto with news. intros []. by split. Qed.
#[export] Hint Resolve p_evolves_locals p_evolves_mappings p_evolves_labels : news.

(** A run begins, with a key no other run has. *)
Lemma p_evolves_new_run id r j d :
  p_runs d !! id = None -> q_jobs (p_queue d) !! r_job r = Some j -> r_attempt r <= j_attempt j ->
  (forall k x, p_runs d !! k = Some x -> ~ (r_job x = r_job r /\ r_attempt x = r_attempt r)) ->
  p_evolves d (set_runs (<[id := r]> (p_runs d)) d).
Proof.
  intros Hid Hj Ha Hk. split; simpl; eauto with news.
  - intros [W1 W2 W3 W4 W5 W6 W7 W8]. split; simpl; eauto.
    + intros a b ra rb [[<- <-]|[_ Hra]]%lookup_insert_Some [[<- <-]|[_ Hrb]]%lookup_insert_Some E1 E2;
        [done|by destruct (Hk _ _ Hrb)|by destruct (Hk _ _ Hra)|eauto].
    + intros k x [[<- <-]|[_ Hx]]%lookup_insert_Some; eauto.
    + intros k i Hi. destruct (W5 k i Hi) as [[x Hx] H2]. split; [|done]. exists x. rewrite lookup_insert_ne; congruence.
  - intros k x Hx. left. exists x. rewrite lookup_insert_ne by congruence. auto with news.
Qed.

(** A run moves on. *)
Lemma p_evolves_run id r r' d :
  p_runs d !! id = Some r -> run_evolves r r' -> p_evolves d (set_runs (<[id := r']> (p_runs d)) d).
Proof.
  intros Hr He. pose proof He as [[= E1 E2 _ _ _ _ _ _] _]. split; simpl; eauto with news.
  - intros [W1 W2 W3 W4 W5 W6 W7 W8]. split; simpl; eauto.
    + intros a b ra rb [[<- <-]|[_ Hra]]%lookup_insert_Some [[<- <-]|[_ Hrb]]%lookup_insert_Some F1 F2;
        [done|by eapply W3; [exact Hr|exact Hrb|congruence..]|by eapply W3; [exact Hra|exact Hr|congruence..]|eauto].
    + intros k x [[<- <-]|[_ Hx]]%lookup_insert_Some; [|eauto]. rewrite E1, E2. eauto.
    + intros k i Hi. destruct (W5 k i Hi) as [[x Hx] H2]. split; [|done].
      destruct (decide (id = k.1)) as [->|Hn]; [rewrite lookup_insert_eq|rewrite lookup_insert_ne by done]; by eexists.
  - intros k x Hx. left. destruct (decide (id = k)) as [<-|Hn].
    + exists r'. rewrite lookup_insert_eq. split; [done|congruence].
    + exists x. rewrite lookup_insert_ne by done. auto with news.
Qed.

(** A claim begins. *)
Lemma p_evolves_new_item k i d :
  p_items d !! k = None -> is_Some (p_runs d !! k.1) -> is_Some (q_articles (p_queue d) !! k.2) ->
  (it_state i = IRunning -> forall k' i', p_items d !! k' = Some i' -> k'.2 = k.2 -> it_state i' <> IRunning) ->
  p_evolves d (set_items (<[k := i]> (p_items d)) d).
Proof.
  intros Hk Hr Ha Hc. split; simpl; eauto with news.
  - intros [W1 W2 W3 W4 W5 W6 W7 W8]. split; simpl; eauto.
    + intros k' i' [[<- <-]|[_ Hi]]%lookup_insert_Some; eauto.
    + intros k1 k2 i1 i2 [[<- <-]|[_ H1]]%lookup_insert_Some [[<- <-]|[_ H2]]%lookup_insert_Some S1 S2 E;
        [done|by destruct (Hc S1 k2 i2)|by destruct (Hc S2 k1 i1)|eauto].
  - intros k' i' r Hi _. left. exists i'. rewrite lookup_insert_ne by congruence. auto with news.
Qed.

(** Claims are settled. *)
Lemma p_evolves_items m d :
  (forall k, match p_items d !! k, m !! k with
             | Some i, Some i' => item_evolves i i' /\ (it_state i' = IRunning -> it_state i = IRunning)
             | None, None => True
             | _, _ => False
             end) ->
  p_evolves d (set_items m d).
Proof.
  intros Hm. split; simpl; eauto with news.
  - intros [W1 W2 W3 W4 W5 W6 W7 W8]. split; simpl; eauto.
    + intros k i Hi. specialize (Hm k). rewrite Hi in Hm. destruct (p_items d !! k) eqn:E; [|done]. eauto.
    + intros k1 k2 i1 i2 H1 H2 S1 S2. pose proof (Hm k1) as M1. pose proof (Hm k2) as M2. rewrite H1 in M1. rewrite H2 in M2.
      destruct (p_items d !! k1) eqn:E1; [|done]. destruct (p_items d !! k2) eqn:E2; [|done].
      eapply W6; [exact E1|exact E2|by apply M1|by apply M2].
  - intros k i r Hi _. left. specialize (Hm k). rewrite Hi in Hm. destruct (m !! k) as [i'|]; [|done]. exists i'. tauto.
Qed.

(** *** The statements keep the tables' rules *)

Definition stmt_keeps {A} (f : stmt ptables A) : Prop := forall lk now d, p_evolves d (f lk now d).2.

Lemma find_run_spec job attempt d :
  match find_run job attempt d with
  | Some (id, r) => p_runs d !! id = Some r /\ r_job r = job /\ r_attempt r = attempt
  | None => forall id r, p_runs d !! id = Some r -> ~ (r_job r = job /\ r_attempt r = attempt)
  end.
Proof.
  unfold find_run. set (l := filter _ _). assert (forall kv, kv ∈ l <-> (r_job kv.2 = job /\ r_attempt kv.2 = attempt) /\ p_runs d !! kv.1 = Some kv.2) as Hl.
  { intros [k v]. unfold l. by rewrite list_elem_of_filter, elem_of_map_to_list. }
  destruct l as [|[id r] l]; simpl.
  - intros id r Hr Hk. specialize (proj2 (Hl (id, r)) (conj Hk Hr)). by intros ?%elem_of_nil.
  - destruct (proj1 (Hl (id, r))) as [Hk Hr]; [by left|done].
Qed.

Lemma fence_attempt_keeps f : stmt_keeps (fence_attempt f).
Proof.
  intros lk now d. unfold fence_attempt. cbv zeta.
  destruct (status_beat _ _ _ _) as [beat|]; [|apply p_evolves_refl].
  destruct (_ || _); [apply p_evolves_refl|].
  destruct (q_jobs (p_queue d) !! _) as [j|] eqn:Hj; [|apply p_evolves_refl].
  destruct (negb (job_current _ _ _)) eqn:Hc; [apply p_evolves_refl|].
  destruct (fence_kind j) as [[]|]; [|apply p_evolves_refl..].
  pose proof (find_run_spec (uuid (en_JobID (fe_Envelope f))) (en_AttemptGeneration (fe_Envelope f)) d) as Hf.
  destruct (find_run _ _ _) as [[id r]|]; [destruct (same_run f id r); apply p_evolves_refl|].
  destruct (_ <=? _); [apply p_evolves_refl|]. case_bool_decide as Hn; [apply p_evolves_refl|].
  apply negb_false_iff in Hc. unfold job_current in Hc. bool_to_prop. simpl.
  apply (p_evolves_new_run _ _ j); simpl; [by apply eq_None_not_Some|done|lia|done].
Qed.

Lemma end_run_keeps id s now result error : stmt_keeps (end_run id s now result error).
Proof.
  intros lk now' d. unfold end_run, write. simpl. destruct (p_runs d !! id) as [r|] eqn:Hr; [|apply p_evolves_refl].
  case_bool_decide as Hs; [|apply p_evolves_refl]. eapply p_evolves_run; [done|]. by split.
Qed.

(** An item that is settled, or only refingerprinted while it runs. *)
Definition item_step (i i' : item_row) : Prop := item_evolves i i' /\ (it_state i' = IRunning -> it_state i = IRunning).

Lemma items_imap_keeps (f : string * Z -> item_row -> item_row) d :
  (forall k i, item_step i (f k i)) -> p_evolves d (set_items (map_imap (fun k i => Some (f k i)) (p_items d)) d).
Proof.
  intros Hf. apply p_evolves_items. intros k. rewrite map_lookup_imap. destruct (p_items d !! k) as [i|]; [apply Hf|done].
Qed.

Lemma cancel_items_keeps P : (forall d k i, P d k i = true -> it_state i = IRunning) -> stmt_keeps (cancel_items P).
Proof.
  intros HP lk now d. unfold cancel_items, write. simpl. apply (items_imap_keeps (fun k i => if P d k i then _ else i)).
  intros k i. destruct (P d k i) eqn:E; [|by repeat split]. apply HP in E. split; [by repeat split|done].
Qed.

Lemma update_item_keeps k P f :
  (forall i, P i = true -> it_state i = IRunning) -> (forall i, it_attempt (f i) = it_attempt i /\ it_token (f i) = it_token i) ->
  stmt_keeps (update_item k P f).
Proof.
  intros HP Hf lk now d. unfold update_item. destruct (p_items d !! k) as [i|] eqn:Hi; [|apply p_evolves_refl].
  destruct (P i) eqn:E; [|apply p_evolves_refl]. apply HP in E. apply p_evolves_items. intros k'.
  destruct (decide (k = k')) as [<-|Hn].
  - rewrite Hi, lookup_insert_eq. destruct (Hf i). by repeat split.
  - rewrite lookup_insert_ne by done. by destruct (p_items d !! k').
Qed.

Lemma running_claim_spec id d :
  running_claim id d = false -> forall k i, p_items d !! k = Some i -> k.2 = id -> it_state i <> IRunning.
Proof.
  unfold running_claim. intros H k i Hi Hk Hs. bool_to_prop. apply H. intros Hn.
  assert ((k, i) ∈ filter (fun kv => kv.1.2 = id /\ it_state kv.2 = IRunning) (map_to_list (p_items d))) as Hin.
  { apply list_elem_of_filter. split; [done|]. by apply elem_of_map_to_list. }
  rewrite Hn in Hin. by apply elem_of_nil in Hin.
Qed.

Lemma insert_item_keeps k i : stmt_keeps (insert_item k i).
Proof.
  intros lk now d. unfold insert_item. destruct (_ || _) eqn:E1; [apply p_evolves_refl|].
  destruct (negb _ || _) eqn:E2; [apply p_evolves_refl|]. bool_to_prop. apply p_evolves_new_item; [by apply eq_None_not_Some|done|done|].
  intros Hs k' i' Hk' Hid. match goal with H : _ \/ _ |- _ => destruct H as [H|H] end; [by bool_to_prop|by eapply running_claim_spec].
Qed.

Lemma articles_fmap_keeps g d : p_evolves d (set_queue (set_articles (g <$> q_articles (p_queue d)) (p_queue d)) d).
Proof. apply p_evolves_articles. intros id. rewrite lookup_fmap. by rewrite fmap_is_Some. Qed.

Lemma update_article_keeps id P f : stmt_keeps (update_article id P f).
Proof.
  intros lk now d. unfold update_article. destruct (q_articles (p_queue d) !! id) eqn:E; [|apply p_evolves_refl].
  destruct (P _); [|apply p_evolves_refl]. apply p_evolves_articles. intros k. apply is_Some_insert. by eexists.
Qed.

Lemma write_outcome_keeps shortest now id p : stmt_keeps (write_outcome shortest now id p).
Proof.
  intros lk now' d. unfold write_outcome. destruct (article_at d id) as [r|] eqn:Hr; [|apply p_evolves_refl].
  destruct (outcome_row shortest p r) as [r'|]; [|apply p_evolves_refl]. simpl.
  transitivity (put_article id r'.1 r'.2 d); [apply p_evolves_put_article; by eexists|].
  unfold article_updated. destruct (source_changed _ _); [apply p_evolves_locals|apply p_evolves_refl].
Qed.

Lemma settle_item_keeps k attempt token input state result : stmt_keeps (settle_item k attempt token input state result).
Proof.
  unfold settle_item. destruct (istate_of state) as [s|]; [|intros lk now d; apply p_evolves_refl].
  apply update_item_keeps; [|done]. intros i Hi. by bool_to_prop.
Qed.

(** *** The operations keep them *)

Notation pkeeps := (keeps p_evolves).

Lemma keeps_stmt {A} mk (f : stmt ptables A) : stmt_keeps f -> pkeeps (exec (E:=proc_error) mk f).
Proof. intros Hf. by apply keeps_exec; [apply _|]. Qed.
Lemma read_keeps {A} (f : Z -> ptables -> A) : stmt_keeps (read f).
Proof. intros lk now d. apply p_evolves_refl. Qed.

#[export] Hint Resolve keeps_stmt read_keeps fence_attempt_keeps end_run_keeps update_article_keeps insert_item_keeps write_outcome_keeps
  settle_item_keeps : news.

(** Walks through a method: transactions, binds, branches and statements. *)
Ltac keep_step :=
  match goal with
  | |- keeps _ (with_tx _ _) => apply keeps_with_tx; [apply _|]
  | |- keeps _ (mbind _ _) => apply keeps_bind; [|intros]
  | |- keeps _ (match ?x with _ => _ end) => destruct x
  | |- keeps _ (exec _ _) => apply keeps_stmt
  | |- keeps _ _ => solve [eauto with news]
  | |- stmt_keeps _ => solve [eauto with news]
  end.
Ltac keep := cbv zeta; repeat (keep_step; cbv beta zeta).

Lemma FenceTx_keeps f : pkeeps (FenceTx f).
Proof. unfold FenceTx, fence_receipt. keep. Qed.
Lemma fence_running_keeps f : pkeeps (fence_running f).
Proof. unfold fence_running. apply keeps_bind; [apply FenceTx_keeps|]. intros. keep. Qed.
#[export] Hint Resolve FenceTx_keeps fence_running_keeps : news.

Lemma Cancel_keeps id : pkeeps (Cancel id).
Proof. unfold Cancel, cancel_body. keep. apply cancel_items_keeps. intros d k i H. by bool_to_prop. Qed.
Lemma FailRun_keeps f code : pkeeps (FailRun f code).
Proof. unfold FailRun, fail_body. keep. Qed.
Lemma FinishRun_keeps f receipt : pkeeps (FinishRun f receipt).
Proof. unfold FinishRun, finish_run_body. keep. Qed.
Lemma CanonicalJob_keeps f : pkeeps (CanonicalJob f).
Proof. unfold CanonicalJob, canonical_body. keep. Qed.
Lemma RecoverClaims_keeps f : pkeeps (RecoverClaims f).
Proof. unfold RecoverClaims, recover_body. keep. apply cancel_items_keeps. intros d k i H. unfold abandoned in H. by bool_to_prop. Qed.
Lemma RecoverExhausted_keeps f maxAttempts now : pkeeps (RecoverExhausted f maxAttempts now).
Proof. unfold RecoverExhausted, exhaust_body. keep. intros lk t d. apply articles_fmap_keeps. Qed.
Lemma SelectDue_keeps f limit cursor selected from to maxAttempts : pkeeps (SelectDue f limit cursor selected from to maxAttempts).
Proof. unfold SelectDue, select_body. keep. intros lk t d. apply p_evolves_refl. Qed.

Section Kept.
Context (pg_lower : string -> string) (sha256 : list Z -> list Z) (shortest : SpecFloat.spec_float -> string).

Lemma ClaimArticle_keeps f a timeout retryDelay : pkeeps (ClaimArticle sha256 f a timeout retryDelay).
Proof. unfold ClaimArticle, claim_body. keep. Qed.
Lemma UpdateItemFingerprint_keeps f article attempt token input : pkeeps (UpdateItemFingerprint f article attempt token input).
Proof.
  unfold UpdateItemFingerprint, refingerprint_body. keep. apply update_item_keeps; [|done]. intros i H. by bool_to_prop.
Qed.

Lemma save_locales_keeps now article input fields : pkeeps (save_locales now article input fields).
Proof.
  unfold save_locales. keep. apply keeps_for_each. intros locale. unfold save_locale. keep.
  intros lk t d. unfold upsert_local, write. cbn [snd]. destruct (p_locals d !! _); [destruct (_ || _)|]; eauto with news.
Qed.
Lemma category_target_keeps now c : pkeeps (category_target pg_lower now c).
Proof.
  unfold category_target, lookupFixedCategory, category_query. keep; intros lk t d; unfold use_mapping, write; cbn [snd]; eauto with news.
Qed.
Lemma save_categories_keeps now article fields : pkeeps (save_categories pg_lower now article fields).
Proof.
  unfold save_categories. keep; [intros lk t d; unfold clear_labels, write; cbn [snd]; eauto with news|].
  apply keeps_for_each. intros c. unfold save_category. apply keeps_bind; [apply category_target_keeps|]. intros id. keep.
  intros lk t d. unfold insert_label, write. cbn [snd]. destruct (p_labels d !! _); eauto with news.
Qed.
Hint Resolve save_locales_keeps save_categories_keeps : news.

Lemma SaveOutcome_keeps f a attempt token input p : pkeeps (SaveOutcome pg_lower sha256 shortest f a attempt token input p).
Proof. unfold SaveOutcome, save_body. keep. Qed.
Lemma RecordCategoryMappingFailure_keeps f a attempt token input : pkeeps (RecordCategoryMappingFailure sha256 f a attempt token input).
Proof. unfold RecordCategoryMappingFailure, record_failure_body. keep. Qed.
Lemma ClaimLocalizationRetry_keeps f maxAttempts delay : pkeeps (ClaimLocalizationRetry sha256 f maxAttempts delay).
Proof.
  unfold ClaimLocalizationRetry, claim_local_body. keep; intros lk t d; unfold next_local, update_local, write; cbn [snd]; eauto with news.
Qed.
Lemma SaveLocalizationRetry_keeps f a input title summary prompt model valid maxAttempts :
  pkeeps (SaveLocalizationRetry sha256 f a input title summary prompt model valid maxAttempts).
Proof.
  unfold SaveLocalizationRetry, save_local_body. keep; [intros lk t d; unfold update_local, write; cbn [snd]; eauto with news|].
  apply update_item_keeps; [intros j H; by bool_to_prop|done].
Qed.
End Kept.

(** ** What the fence establishes *)

(** The caller's worker holds the lease, its job runs for it and may process
    articles, and its executor's receipt is running. *)
Record authority (f : Fence) (d : ptables) : Prop := {
  at_worker : worker_current (uuid (en_OwnerID (fe_Envelope f))) (en_Generation (fe_Envelope f)) (en_BackendPID (fe_Envelope f)) (p_queue d);
  at_job : exists j, q_jobs (p_queue d) !! uuid (en_JobID (fe_Envelope f)) = Some j /\
    job_current (en_Generation (fe_Envelope f)) (en_AttemptGeneration (fe_Envelope f)) (Some j) = true /\ fence_kind j = Some true;
  at_receipt : exists x, q_execs (p_queue d) !! (uuid (en_JobID (fe_Envelope f)), en_AttemptGeneration (fe_Envelope f)) = Some x /\
    x_instance x = uuid (en_ExecutorInstanceID (fe_Envelope f)) /\ x_owner x = Some (uuid (en_OwnerID (fe_Envelope f))) /\
    x_generation x = Some (en_Generation (fe_Envelope f)) /\ x_deadline x = Some (pg_time (en_DeadlineAt (fe_Envelope f))) /\
    x_state x = XRunning;
}.

(** The tables [t] of a transaction after the fence, with the run it found, or
    began when there was none. *)
Record fence_passed (f : Fence) (d t : ptables) (r : run_row) : Prop := {
  fp_authority : authority f d;
  fp_run : p_runs t !! fe_RunID f = Some r;
  fp_same : same_run f (fe_RunID f) r = true;
  fp_key : r_job r = uuid (en_JobID (fe_Envelope f)) /\ r_attempt r = en_AttemptGeneration (fe_Envelope f);
  fp_tables : t = d \/ p_runs d !! fe_RunID f = None /\ r = new_run f /\ t = set_runs (<[fe_RunID f := r]> (p_runs d)) d;
  fp_evolves : p_evolves d t;
}.

Lemma same_run_new f : same_run f (fe_RunID f) (new_run f) = true.
Proof. unfold same_run. by rewrite !String.eqb_refl, !Z.eqb_refl. Qed.

Lemma same_run_id f id r : same_run f id r = true -> id = fe_RunID f.
Proof. unfold same_run. intros H. by bool_to_prop. Qed.

Lemma fence_attempt_spec f lk now t :
  match fence_attempt f lk now t with
  | (Ok (Some (id, r)), t') => id = fe_RunID f /\ p_runs t' !! id = Some r /\ same_run f id r = true /\
      (r_job r = uuid (en_JobID (fe_Envelope f)) /\ r_attempt r = en_AttemptGeneration (fe_Envelope f)) /\
      (t' = t \/ p_runs t !! id = None /\ r = new_run f /\ t' = set_runs (<[id := r]> (p_runs t)) t) /\
      worker_current (uuid (en_OwnerID (fe_Envelope f))) (en_Generation (fe_Envelope f)) (en_BackendPID (fe_Envelope f)) (p_queue t) /\
      (exists j, q_jobs (p_queue t) !! uuid (en_JobID (fe_Envelope f)) = Some j /\
         job_current (en_Generation (fe_Envelope f)) (en_AttemptGeneration (fe_Envelope f)) (Some j) = true /\ fence_kind j = Some true)
  | (_, t') => t' = t
  end.
Proof.
  unfold fence_attempt. cbv zeta.
  destruct (status_beat _ _ _ _) as [beat|] eqn:Hb; [|done]. destruct (_ || _) eqn:Hs; [done|].
  destruct (q_jobs (p_queue t) !! _) as [j|] eqn:Hj; [|done]. destruct (negb (job_current _ _ _)) eqn:Hc; [done|].
  destruct (fence_kind j) as [[]|] eqn:Hk; [|done..]. apply negb_false_iff in Hc.
  apply orb_false_iff in Hs as [Hs Hl]. apply negb_false_iff, bool_decide_eq_true in Hl.
  assert (worker_current (uuid (en_OwnerID (fe_Envelope f))) (en_Generation (fe_Envelope f)) (en_BackendPID (fe_Envelope f)) (p_queue t)) as Hw.
  { split; [done|]. by exists beat, (pg_time now). }
  pose proof (find_run_spec (uuid (en_JobID (fe_Envelope f))) (en_AttemptGeneration (fe_Envelope f)) t) as Hf.
  destruct (find_run _ _ _) as [[id r]|].
  - destruct (same_run f id r) eqn:E; [|done]. destruct Hf as (H1 & H2 & H3). split_and!; eauto. by eapply same_run_id.
  - destruct (_ <=? _); [done|]. case_bool_decide as Hn; [done|]. simpl.
    split_and!; eauto using same_run_new; [apply lookup_insert_eq|]. right. split; [by apply eq_None_not_Some|done].
Qed.

Definition plain_error (e : proc_error) : bool := match e with ErrStaleFence | ErrRunConflict | ErrText _ => true | _ => false end.

Lemma twp_FenceTx {B} (Q : result proc_error B -> ptables -> option ptables -> Prop) db f (k : string * rstate -> PM B) t :
  (forall e t', plain_error e = true -> Q (Err e) db (Some t')) ->
  (forall t' r, fence_passed f t t' r -> twp (k (fe_RunID f, r_state r)) Q db t') ->
  twp (FenceTx f ≫= k) Q db t.
Proof.
  intros He Hk. unfold FenceTx. apply twp_bind, twp_exec; [|by intros; apply He]. intros lk now.
  pose proof (fence_attempt_spec f lk now t) as Hs. pose proof (fence_attempt_keeps f lk now t) as Hev.
  destruct (fence_attempt f lk now t) as [[[[id r]|]|e] t']; [|by apply twp_raise, He|by apply He].
  destruct Hs as (-> & Hr & Hsame & Hkey & Ht & Hw & Hj).
  apply twp_exec; [|by intros; apply He]. intros lk2 now2. unfold fence_receipt, read.
  apply twp_guard; [by apply He|]. intros Ha. apply negb_false_iff in Ha.
  apply twp_guard; [by apply He|]. intros _. apply twp_ret. exists t'. split; [done|]. apply Hk.
  assert (p_queue t' = p_queue t) as Hq by (destruct Ht as [->|(_ & _ & ->)]; done).
  rewrite Hq in Ha. destruct (q_execs _ !! _) as [x|] eqn:Hx; [|done]. destruct (status_beat _ _ _ _); [|done]. bool_to_prop.
  split; [split; [done|done|]|done|done|done|done|done]. exists x. by split_and!.
Qed.

Lemma twp_fence_running {B} (Q : result proc_error B -> ptables -> option ptables -> Prop) db f (k : unit -> PM B) t :
  (forall e t', plain_error e = true -> Q (Err e) db (Some t')) ->
  (forall t' r, fence_passed f t t' r -> r_state r <> RRunning -> Q (Err ErrCancelled) db (Some t')) ->
  (forall t' r, fence_passed f t t' r -> r_state r = RRunning -> twp (k tt) Q db t') ->
  twp (fence_running f ≫= k) Q db t.
Proof.
  intros He Hc Hk. unfold fence_running. apply twp_bind, twp_FenceTx; [done|]. intros t' r Hp.
  unfold guard_m. cbn [snd]. case_bool_decide as Hs; simpl.
  - apply twp_ret. exists t'. split; [done|]. by eapply Hk.
  - apply twp_raise. by eapply Hc.
Qed.

(** ** Outcomes are saved once *)

(** A claim, by the job, the attempt and the article. *)
Notation claim_key := (string * Z * Z)%type.
Definition claim_of (f : Fence) (article : Z) : claim_key :=
  (uuid (en_JobID (fe_Envelope f)), en_AttemptGeneration (fe_Envelope f), article).

Definition claim_item (k : claim_key) (d : ptables) (i : item_row) : Prop :=
  exists id r, p_runs d !! id = Some r /\ r_job r = k.1.1 /\ r_attempt r = k.1.2 /\ p_items d !! (id, k.2) = Some i.

(** The claim is settled for good: its item is, or it went with its job or article. *)
Definition settled (k : claim_key) (d : ptables) : Prop :=
  (exists i, claim_item k d i /\ it_state i <> IRunning) \/ k.2 ∈ p_gone d \/ k.1.1 ∈ q_retired (p_queue d).
Definition unsettled (k : claim_key) (d : ptables) : Prop :=
  (exists i, claim_item k d i /\ it_state i = IRunning) /\ is_Some (q_articles (p_queue d) !! k.2) /\ is_Some (q_jobs (p_queue d) !! k.1.1).

Lemma settled_evolves k d d' : p_evolves d d' -> settled k d -> settled k d'.
Proof.
  intros [E1 _ E3 _ E5 E6] [(i & (id & r & Hr & Hj & Ha & Hi) & Hs)|[H|H]].
  - destruct (E5 id r Hr) as [(r' & Hr' & [[= F1 F2 _ _ _ _ _ _] _])|H]; [|right; right; by rewrite <- Hj].
    destruct (E6 (id, k.2) i r Hi Hr) as [(i' & Hi' & (_ & _ & F))|[H|H]]; [|by right; left|right; right; by rewrite <- Hj].
    specialize (F Hs) as ->. left. exists i. split; [|done]. exists id, r'. split_and!; congruence.
  - right. left. set_solver.
  - right. right. pose proof (ev_retired _ _ E1). set_solver.
Qed.

Lemma settled_not_unsettled k d : p_wf d -> settled k d -> unsettled k d -> False.
Proof.
  intros [W1 W2 W3 W4 W5 W6 W7 W8] [(i & (id & r & Hr & Hj & Ha & Hi) & Hs)|[H|H]] ((i' & (id' & r' & Hr' & Hj' & Ha' & Hi') & Hs') & Hart & Hjob).
  - assert (id = id') as <- by (eapply (W3 id id'); [done|done|congruence..]). congruence.
  - rewrite (W7 _ H) in Hart. by destruct Hart.
  - rewrite (wf_retired _ W1 _ H) in Hjob. by destruct Hjob.
Qed.

Lemma update_item_spec k P g lk now t n t' : update_item k P g lk now t = (Ok n, t') -> n = 1 ->
  exists i, p_items t !! k = Some i /\ P i = true /\ t' = set_items (<[k := g i]> (p_items t)) t.
Proof. unfold update_item. destruct (p_items t !! k) as [i|]; [|by intros [= <-]]. destruct (P i) eqn:E; intros [= <- <-]; [by exists i|done]. Qed.

(** The last statement of a settling transaction, its count and the commit. *)
Lemma twp_settled (Q : result proc_error unit -> ptables -> option ptables -> Prop) db s f g P k s' c t :
  (forall s t', Q (Err (ErrText s)) db t') ->
  (forall i, p_items t !! k = Some i -> P i = true -> let t' := set_items (<[k := g i]> (p_items t)) t in
     Q (Ok tt) t' None /\ Q (Err (ErrText c)) t' None) ->
  (forall lk now, (exists x, f lk now t = (Err x, t)) \/ f lk now t = update_item k P g lk now t) ->
  twp (changed ← exec (fails s) f; _ ← guard_m (negb (changed =? 1)) (ErrText s'); _ ← commit (ErrText c); mret tt) Q db t.
Proof.
  intros He Hok Hf. apply twp_exec; [|by intros; apply He]. intros lk now. destruct (Hf lk now) as [[x ->]| ->]; [by apply He|].
  destruct (update_item k P g lk now t) as [[n|x] t'] eqn:Hu; [|by apply He].
  apply twp_guard; [by apply He|]. intros Hn. bool_to_prop. destruct (update_item_spec _ _ _ _ _ _ _ _ Hu Hn) as (i & Hi & HP & ->).
  destruct (Hok i Hi HP) as [H1 H2]. apply twp_commit; auto.
Qed.
(** The claim's last UPDATE of [SaveOutcome] and [RecordCategoryMappingFailure] *)
Lemma twp_settle_item (Q : result proc_error unit -> ptables -> option ptables -> Prop) db k attempt token input state result s s' c t i :
  (forall s t', Q (Err (ErrText s)) db t') -> p_items t !! k = Some i ->
  (forall st, istate_of state = Some st -> let t' := set_items (<[k := set_item st result i]> (p_items t)) t in
     Q (Ok tt) t' None /\ Q (Err (ErrText c)) t' None) ->
  twp (changed ← exec (fails s) (settle_item k attempt token input state result); _ ← guard_m (negb (changed =? 1)) (ErrText s');
       _ ← commit (ErrText c); mret tt) Q db t.
Proof.
  intros He Hi Hok. unfold settle_item. destruct (istate_of state) as [st|].
  - eapply twp_settled; [done| |by intros; right]. intros i' Hi' _. assert (i' = i) as -> by congruence. by apply Hok.
  - apply twp_exec; intros; apply He.
Qed.

(** ** The parts of an outcome *)

(** Only localizations of the article change. *)
Record locals_only (id : Z) (t t' : ptables) : Prop := {
  lo_tables : t' = set_locals (p_locals t') t;
  lo_other : forall k, k.1 <> id -> p_locals t' !! k = p_locals t !! k;
}.
Lemma locals_only_refl id t : locals_only id t t.
Proof. by destruct t. Qed.
Lemma locals_only_insert id locale l t : locals_only id t (set_locals (<[(id, locale) := l]> (p_locals t)) t).
Proof. split; [done|]. intros [a b] Ha. simpl. apply lookup_insert_ne. intros [= -> ->]. done. Qed.
Lemma locals_only_trans id a b c : locals_only id a b -> locals_only id b c -> locals_only id a c.
Proof. intros [E1 H1] [E2 H2]. split; [rewrite E2, E1; done|]. intros k Hk. by rewrite H2, H1. Qed.

(** A valid text is stored as completed. *)
Definition locale_stored (id : Z) (input : string) (locales : list (string * value)) (locale : string) (t : ptables) : Prop :=
  forall entry, vget locales locale = Some entry -> is_true (vfield entry "valid") = true ->
    exists l, p_locals t !! (id, locale) = Some l /\ l_status l = LCompleted /\ l_fingerprint l = input /\
      l_title l = as_string (vfield entry "title") /\ l_summary l = as_string (vfield entry "summary").

Definition locales_stored (id : Z) (input : string) (fields : gmap string field) (t : ptables) : Prop :=
  forall locales, field_value fields "localizations" = VObj locales ->
    locale_stored id input locales "ru" t /\ locale_stored id input locales "sr-Latn" t.

Lemma upsert_local_spec lk now' now id locale title summary input prompt model valid t :
  let t' := (upsert_local now id locale title summary input prompt model valid lk now' t).2 in
  locals_only id t t' /\ (forall locale', locale' <> locale -> p_locals t' !! (id, locale') = p_locals t !! (id, locale')) /\
  (valid = true -> exists l, p_locals t' !! (id, locale) = Some l /\ l_status l = LCompleted /\ l_fingerprint l = input /\
    l_title l = title /\ l_summary l = summary).
Proof.
  unfold upsert_local, write. cbn [snd].
  assert (forall l, let t' := set_locals (<[(id, locale) := l]> (p_locals t)) t in
    locals_only id t t' /\ (forall locale', locale' <> locale -> p_locals t' !! (id, locale') = p_locals t !! (id, locale')) /\
    p_locals t' !! (id, locale) = Some l) as Hl.
  { intros l. split_and!; [apply locals_only_insert| |apply lookup_insert_eq]. intros l' Hl. simpl. apply lookup_insert_ne. congruence. }
  destruct (p_locals t !! (id, locale)) as [l|].
  - destruct (valid || _ || _) eqn:E.
    + edestruct Hl as (H1 & H2 & H3). split_and!; [exact H1|exact H2|]. intros ->. eexists. split; [exact H3|done].
    + split_and!; [apply locals_only_refl|done|]. by intros ->.
  - edestruct Hl as (H1 & H2 & H3). split_and!; [exact H1|exact H2|]. intros ->. eexists. split; [exact H3|done].
Qed.

Lemma twp_save_locale {B} (Q : result proc_error B -> ptables -> option ptables -> Prop) db now id input prompt model locales locale k t :
  (forall s t', Q (Err (ErrText s)) db (Some t')) ->
  (forall t', locals_only id t t' -> (forall locale', locale' <> locale -> p_locals t' !! (id, locale') = p_locals t !! (id, locale')) ->
     locale_stored id input locales locale t' -> twp (k tt) Q db t') ->
  twp (save_locale now id input prompt model locales locale ≫= k) Q db t.
Proof.
  intros He Hk. unfold save_locale. destruct (vget locales locale) as [entry|] eqn:Hv.
  - apply twp_exec; [|by intros; apply He]. intros lk now'.
    pose proof (upsert_local_spec lk now' now id locale (as_string (vfield entry "title")) (as_string (vfield entry "summary")) input prompt
      model (is_true (vfield entry "valid")) t) as Hs.
    destruct (upsert_local _ _ _ _ _ _ _ _ _ lk now' t) as [[[]|e] t']; [|by apply He]. destruct Hs as (H1 & H2 & H3).
    apply Hk; [done|done|]. intros entry' Hv' Hvalid. rewrite Hv in Hv'. injection Hv' as <-. by apply H3.
  - apply twp_bind, twp_ret. exists t. split; [done|]. apply Hk; [apply locals_only_refl|done|]. intros entry. by rewrite Hv.
Qed.

Lemma twp_save_locales {B} (Q : result proc_error B -> ptables -> option ptables -> Prop) db now id input fields k t :
  (forall s t', Q (Err (ErrText s)) db (Some t')) ->
  (forall t', locals_only id t t' -> locales_stored id input fields t' -> twp (k tt) Q db t') ->
  twp (save_locales now id input fields ≫= k) Q db t.
Proof.
  intros He Hk. unfold save_locales. destruct (field_value fields "localizations") as [| | | | | | |locales] eqn:Hf.
  1-7: apply twp_bind, twp_ret; exists t; split; [done|]; apply Hk; [apply locals_only_refl|]; intros ls; by rewrite Hf.
  apply twp_bind. cbn [for_each]. apply twp_save_locale; [done|]. intros t1 H1 _ Hru.
  apply twp_save_locale; [done|]. intros t2 H2 Hne Hsr. apply twp_ret. exists t2. split; [done|]. apply Hk; [by eapply locals_only_trans|].
  intros ls Hl. rewrite Hf in Hl. injection Hl as <-. split; [|done]. intros entry Hv Hvalid.
  destruct (Hru entry Hv Hvalid) as (x & Hx & Hrest). exists x. split; [|done]. by rewrite Hne.
Qed.

Section CategoryRules.
Context (pg_lower : string -> string).

(** A category has this name, whatever its case. *)
Definition named (name : string) (id : Z) (d : ptables) : Prop :=
  exists n, p_categories d !! id = Some n /\ pg_lower n = pg_lower name.

Definition mapping_matches (exact : bool) (name : string) (k : string) (m : mapping_row) : Prop :=
  (if exact then k = name else pg_lower k = pg_lower name) /\ mp_active m = true.
Definition mapped (exact : bool) (name : string) (d : ptables) : Prop :=
  exists k m, p_mappings d !! k = Some m /\ mapping_matches exact name k m.

(** The fixed name of a label that names no category: of an active mapping with
    this very name, else of one that differs in case, else the display category. *)
Definition fixed_name (c : StoreCategory) (s : string) (d : ptables) : Prop :=
  (exists exact k m, p_mappings d !! k = Some m /\ mapping_matches exact (sc_Name c) k m /\ mp_fixed m = s /\
     (exact = false -> ~ mapped true (sc_Name c) d)) \/
  (~ mapped true (sc_Name c) d /\ ~ mapped false (sc_Name c) d /\ s = sc_DisplayCategory c).

Definition or_other (s : string) : string := if (s =? "")%string then "Other" else s.

(** The category a label ends in. *)
Definition target (c : StoreCategory) (id : Z) (d : ptables) : Prop :=
  named (sc_Name c) id d \/
  (forall i, ~ named (sc_Name c) i d) /\ exists s, fixed_name c s d /\
    (named (or_other s) id d \/ (forall i, ~ named (or_other s) i d) /\ EqualFold (or_other s) "Other" = false /\ named "other" id d).

(** The label ends in none. *)
Definition unmapped (c : StoreCategory) (d : ptables) : Prop :=
  (forall i, ~ named (sc_Name c) i d) /\ exists s, fixed_name c s d /\ (forall i, ~ named (or_other s) i d) /\
    (EqualFold (or_other s) "Other" = true \/ forall i, ~ named "other" i d).

(** Only labels of the article and the use of mappings change. *)
Definition mapping_content (m : mapping_row) : string * bool := (mp_fixed m, mp_active m).
Record categories_only (id : Z) (t t' : ptables) : Prop := {
  co_tables : t' = set_labels (p_labels t') (set_mappings (p_mappings t') t);
  co_mappings : forall k, mapping_content <$> p_mappings t' !! k = mapping_content <$> p_mappings t !! k;
  co_other : forall k, k.1 <> id -> p_labels t' !! k = p_labels t !! k;
}.

Lemma categories_only_refl id t : categories_only id t t.
Proof. by destruct t. Qed.
Lemma categories_only_trans id a b c : categories_only id a b -> categories_only id b c -> categories_only id a c.
Proof.
  intros [E1 M1 H1] [E2 M2 H2]. split; [by rewrite E2, E1| |].
  - intros k. by rewrite M2, M1.
  - intros k Hk. by rewrite H2, H1.
Qed.
Lemma categories_only_named id t t' name i : categories_only id t t' -> named name i t' <-> named name i t.
Proof. intros [E _ _]. unfold named. by rewrite E. Qed.

Lemma mapped_content exact name t t' :
  (forall k, mapping_content <$> p_mappings t' !! k = mapping_content <$> p_mappings t !! k) -> mapped exact name t -> mapped exact name t'.
Proof.
  intros HM (k & m & Hm & H1 & H2). specialize (HM k). rewrite Hm in HM.
  destruct (p_mappings t' !! k) as [m'|] eqn:Hm'; [|done]. injection HM as HF HA. exists k, m'. split; [done|]. split; [done|congruence].
Qed.
Lemma fixed_name_content c s t t' :
  (forall k, mapping_content <$> p_mappings t' !! k = mapping_content <$> p_mappings t !! k) -> fixed_name c s t -> fixed_name c s t'.
Proof.
  intros HM [(exact & k & m & Hm & [H1 H2] & H3 & H4)|(H1 & H2 & H3)].
  - left. pose proof (HM k) as HMk. rewrite Hm in HMk. destruct (p_mappings t' !! k) as [m'|] eqn:Hm'; [|done]. injection HMk as HF HA.
    exists exact, k, m'. split_and!; [done|split; [done|congruence]|congruence|]. intros E Hx. by apply H4, (mapped_content _ _ t').
  - right. split_and!; [| |done]; intros Hx; [apply H1|apply H2]; by apply (mapped_content _ _ t').
Qed.
Lemma target_content id c i t t' : categories_only id t t' -> target c i t -> target c i t'.
Proof.
  intros Hc. pose proof (co_mappings _ _ _ Hc) as HM. pose proof (fun name i => categories_only_named id t t' name i Hc) as HN.
  intros [H|(H & s & Hs & H')]; [left; by apply HN|right]. split; [intros j Hj; by apply (H j), HN|].
  exists s. split; [by eapply fixed_name_content|]. destruct H' as [H'|(H1 & H2 & H3)]; [left; by apply HN|right].
  split_and!; [intros j Hj; by apply (H1 j), HN|done|by apply HN].
Qed.
Lemma categories_only_sym_content id t t' : categories_only id t t' ->
  forall k, mapping_content <$> p_mappings t !! k = mapping_content <$> p_mappings t' !! k.
Proof. intros [_ HM _] k. by rewrite HM. Qed.
Lemma target_content_iff id c i t t' : categories_only id t t' -> target c i t' <-> target c i t.
Proof.
  intros Hc. split; [|by apply (target_content id)]. pose proof (fun name i => categories_only_named id t t' name i Hc) as HN.
  intros [H|(H & s & Hs & H')]; [left; by apply HN|right]. split; [intros j Hj; by apply (H j), HN|].
  exists s. split; [eapply fixed_name_content; [by apply (categories_only_sym_content id)|done]|].
  destruct H' as [H'|(H1 & H2 & H3)]; [left; by apply HN|right].
  split_and!; [intros j Hj; by apply (H1 j), HN|done|by apply HN].
Qed.

Lemma find_category_spec name d :
  match find_category pg_lower name d with Some id => named name id d | None => forall id, ~ named name id d end.
Proof.
  unfold find_category. set (l := filter _ _). assert (forall kv, kv ∈ l <-> pg_lower kv.2 = pg_lower name /\ p_categories d !! kv.1 = Some kv.2) as Hl.
  { intros [k v]. unfold l. by rewrite list_elem_of_filter, elem_of_map_to_list. }
  destruct l as [|[id n] l]; simpl.
  - intros id (n & Hn & E). specialize (proj2 (Hl (id, n)) (conj E Hn)). by intros ?%elem_of_nil.
  - destruct (proj1 (Hl (id, n))) as [H1 H2]; [by left|by exists n].
Qed.

Lemma find_mapping_spec exact name d :
  match find_mapping pg_lower exact name d with
  | Some (k, m) => p_mappings d !! k = Some m /\ mapping_matches exact name k m
  | None => ~ mapped exact name d
  end.
Proof.
  unfold find_mapping. set (l := filter _ _).
  assert (forall kv, kv ∈ l <-> mapping_matches exact name kv.1 kv.2 /\ p_mappings d !! kv.1 = Some kv.2) as Hl.
  { intros [k v]. unfold l, mapping_matches. rewrite list_elem_of_filter, elem_of_map_to_list. simpl. rewrite andb_true_iff.
    destruct exact; by rewrite String.eqb_eq. }
  destruct l as [|[id n] l]; simpl.
  - intros (k & m & Hm & E). specialize (proj2 (Hl (k, m)) (conj E Hm)). by intros ?%elem_of_nil.
  - destruct (proj1 (Hl (id, n))) as [H1 H2]; [by left|done].
Qed.

Lemma use_mapping_only id now name t : categories_only id t (set_mappings
  (alter (fun m => MappingRow (mp_fixed m) (mp_active m) (Some (default 0 (mp_usage m) + 1)) (Some now)) name (p_mappings t)) t).
Proof.
  split; [by destruct t| |done]. intros k. simpl. destruct (decide (k = name)) as [->|Hn].
  - rewrite lookup_alter_eq. by destruct (p_mappings t !! name).
  - by rewrite lookup_alter_ne.
Qed.
End CategoryRules.

Section CategoryTx.
Context (pg_lower : string -> string) {B : Type} (Q : result proc_error B -> ptables -> option ptables -> Prop) (db : ptables).
Notation target := (target pg_lower).
Notation named := (named pg_lower).

Lemma twp_lookupFixed now c id k t :
  (forall s t', Q (Err (ErrText s)) db (Some t')) ->
  (forall o t', categories_only id t t' -> p_labels t' = p_labels t -> fixed_name pg_lower c (default (sc_DisplayCategory c) o) t -> twp (k o) Q db t') ->
  twp (lookupFixedCategory pg_lower now (sc_Name c) ≫= k) Q db t.
Proof.
  intros He Hk. unfold lookupFixedCategory. apply twp_bind, twp_exec; [|by intros; apply He]. intros lk1 now1. cbn [read].
  pose proof (find_mapping_spec pg_lower true (sc_Name c) t) as H1.
  assert (forall name m, p_mappings t !! name = Some m -> fixed_name pg_lower c (mp_fixed m) t ->
    twp (_ ← exec (fails "category mapping lookup failed") (use_mapping now name); mret (Some (mp_fixed m)))
      (fun r db' tx' => match r with Ok a => exists t', tx' = Some t' /\ twp (k a) Q db' t' | Err e => Q (Err e) db' tx' end) db t) as Huse.
  { intros name m Hm Hf. apply twp_exec; [|by intros; apply He]. intros lk3 now3. unfold use_mapping, write. apply twp_ret.
    eexists. split; [done|]. apply Hk; [apply use_mapping_only|done|done]. }
  destruct (find_mapping pg_lower true (sc_Name c) t) as [[name m]|].
  - apply twp_bind, twp_ret. exists t. split; [done|]. destruct H1 as [Hm Hx]. apply Huse; [done|]. left. exists true, name, m. by split_and!.
  - apply twp_bind, twp_ret_id, twp_exec; [|by intros; apply He]. intros lk2 now2. cbn [read].
    pose proof (find_mapping_spec pg_lower false (sc_Name c) t) as H2. apply twp_ret. exists t. split; [done|].
    destruct (find_mapping pg_lower false (sc_Name c) t) as [[name m]|].
    + destruct H2 as [Hm Hx]. apply Huse; [done|]. left. exists false, name, m. by split_and!.
    + apply twp_ret. exists t. split; [done|]. apply Hk; [apply categories_only_refl|done|]. right. by split_and!.
Qed.

Lemma twp_category_query name k t :
  (forall s t', Q (Err (ErrText s)) db (Some t')) ->
  (forall o, match o with Some id => named name id t | None => forall id, ~ named name id t end -> twp (k o) Q db t) ->
  twp (category_query pg_lower name ≫= k) Q db t.
Proof.
  intros He Hk. unfold category_query. apply twp_exec; [|by intros; apply He]. intros lk now. cbn [read]. apply Hk.
  pose proof (find_category_spec pg_lower name t). by destruct (find_category pg_lower name t).
Qed.
End CategoryTx.

Section CategoryLoop.
Context (pg_lower : string -> string).
Notation target := (target pg_lower).
Notation named := (named pg_lower).

Lemma twp_category_target {B} (Q : result proc_error B -> ptables -> option ptables -> Prop) db now c id k t :
  (forall s t', Q (Err (ErrText s)) db (Some t')) ->
  (forall t', unmapped pg_lower c t -> Q (Err ErrCategoryMapping) db (Some t')) ->
  (forall i t', categories_only id t t' -> p_labels t' = p_labels t -> target c i t -> twp (k i) Q db t') ->
  twp (category_target pg_lower now c ≫= k) Q db t.
Proof.
  intros He Hno Hk. unfold category_target. apply twp_bind, twp_category_query; [done|]. intros [i|] Hi.
  { apply twp_bind, twp_ret. exists t. split; [done|]. apply twp_ret. exists t. split; [done|].
    apply Hk; [apply categories_only_refl|done|by left]. }
  apply twp_bind, (twp_lookupFixed pg_lower _ _ now c id); [done|]. intros o t1 Ht1 Hl1 Hfix.
  fold (or_other (match o with Some s => s | None => sc_DisplayCategory c end)).
  assert (match o with Some s => s | None => sc_DisplayCategory c end = default (sc_DisplayCategory c) o) as -> by by destruct o.
  set (s := default (sc_DisplayCategory c) o) in *. fold (or_other s).
  assert (forall j, named (or_other s) j t1 \/ (forall i, ~ named (or_other s) i t1) /\ EqualFold (or_other s) "Other" = false /\ named "other" j t1 ->
    target c j t) as Htarget.
  { intros j Hj. right. split; [done|]. exists s. split; [done|].
    pose proof (fun name i => categories_only_named pg_lower id t t1 name i Ht1) as HN.
    destruct Hj as [Hj|(H1 & H2 & H3)]; [left; by apply HN|right]. split_and!; [intros i0 Hi0; by apply (H1 i0), HN|done|by apply HN]. }
  pose proof (fun name i => categories_only_named pg_lower id t t1 name i Ht1) as HN.
  apply twp_category_query; [done|]. intros [j|] Hj.
  { apply twp_ret. exists t1. split; [done|]. apply twp_ret. exists t1. split; [done|]. apply Hk; [done|done|]. apply Htarget. by left. }
  assert (forall i, ~ named (or_other s) i t) as Hj0 by (intros i Hx; by apply (Hj i), HN).
  destruct (EqualFold (or_other s) "Other") eqn:E.
  { apply twp_ret. exists t1. split; [done|]. apply twp_raise, Hno. split; [done|]. exists s. by split_and!; [| |left]. }
  apply twp_ret_id, twp_category_query; [done|]. intros [j|] Hj'; apply twp_ret; exists t1; (split; [done|]).
  - apply twp_ret. exists t1. split; [done|]. apply Hk; [done|done|]. apply Htarget. by right.
  - apply twp_raise, Hno. split; [done|]. exists s. split_and!; [done|done|right]. intros i Hx. by apply (Hj' i), HN.
Qed.

Lemma unmapped_content id c t t' : categories_only id t t' -> unmapped pg_lower c t' -> unmapped pg_lower c t.
Proof.
  intros Hc (H1 & s & H2 & H3 & H4). pose proof (fun name i => categories_only_named pg_lower id t t' name i Hc) as HN.
  split; [intros i Hi; by apply (H1 i), HN|]. exists s.
  split; [eapply fixed_name_content; [by apply (categories_only_sym_content id)|done]|].
  split; [intros i Hi; by apply (H3 i), HN|]. destruct H4 as [H4|H4]; [by left|right]. intros i Hi. by apply (H4 i), HN.
Qed.

(** The labels of the article so far: exactly the targets of the labels done. *)
Record labelled (id : Z) (done : list StoreCategory) (t0 t : ptables) : Prop := {
  lb_only : categories_only id t0 t;
  lb_sound : forall j, is_Some (p_labels t !! (id, j)) -> exists c, c ∈ done /\ target c j t0;
  lb_complete : forall c, c ∈ done -> exists j, target c j t0 /\ is_Some (p_labels t !! (id, j));
}.

Lemma insert_label_only id now j c lk now' t :
  let t' := (insert_label now id j c lk now' t).2 in
  categories_only id t t' /\ forall i, is_Some (p_labels t' !! (id, i)) <-> i = j \/ is_Some (p_labels t !! (id, i)).
Proof.
  unfold insert_label, write. cbn [snd]. destruct (p_labels t !! (id, j)) eqn:E.
  - split; [apply categories_only_refl|]. intros i. split; [by right|]. intros [->|?]; [by rewrite E|done].
  - split.
    + split; [by destruct t|done|]. intros [a b] Ha. simpl. apply lookup_insert_ne. intros [= -> ->]. done.
    + intros i. simpl. destruct (decide (i = j)) as [->|Hn].
      * rewrite lookup_insert_eq. split; [by left|by eexists].
      * rewrite lookup_insert_ne by congruence. split; [by right|]. by intros [?|?].
Qed.

Definition labels_saved (id : Z) (fields : gmap string field) (t t' : ptables) : Prop :=
  match fields !! "categories" with
  | Some (FStored cats) => labelled id cats t t'
  | _ => t' = t
  end.

Lemma clear_labels_only id lk now t :
  let t' := (clear_labels id lk now t).2 in categories_only id t t' /\ forall j, p_labels t' !! (id, j) = None.
Proof.
  unfold clear_labels, write. cbn [snd]. split.
  - split; [by destruct t|done|]. intros k Hk. simpl. rewrite map_lookup_filter. destruct (p_labels t !! k); [|done]. simpl.
    by rewrite option_guard_True.
  - intros j. simpl. apply map_lookup_filter_None. right. intros x _. simpl. tauto.
Qed.

Lemma twp_save_categories {B} (Q : result proc_error B -> ptables -> option ptables -> Prop) db now id fields k t :
  (forall s t', Q (Err (ErrText s)) db (Some t')) ->
  (forall t' cats c, fields !! "categories" = Some (FStored cats) -> c ∈ cats -> unmapped pg_lower c t -> Q (Err ErrCategoryMapping) db (Some t')) ->
  (forall t', labels_saved id fields t t' -> twp (k tt) Q db t') ->
  twp (save_categories pg_lower now id fields ≫= k) Q db t.
Proof.
  intros He Hno Hk. unfold save_categories. unfold labels_saved in Hk.
  destruct (fields !! "categories") as [[| |cats| |]|] eqn:Hf; try (apply twp_bind, twp_ret; exists t; split; [done|by apply Hk]).
  apply twp_bind, twp_exec; [|by intros; apply He]. intros lk1 now1. pose proof (clear_labels_only id lk1 now1 t) as [H1 H2].
  destruct (clear_labels id lk1 now1 t) as [[[]|e] t1]; [|by apply He]. cbn [snd] in *.
  apply twp_ret_id, (twp_for_each (fun todo t2 => exists done, cats = done ++ todo /\ labelled id done t t2)).
  - intros c todo t2 (done & -> & [L1 L2 L3]). apply (twp_category_target _ _ now c id).
    + intros s t'. apply He.
    + intros t' Hu. eapply Hno; [done|apply elem_of_app; right; by left|by eapply unmapped_content].
    + intros j t3 H3 Hl Hj. apply twp_ret_id, twp_exec; [|by intros; apply He]. intros lk4 now4.
      pose proof (insert_label_only id now j c lk4 now4 t3) as [H4 H5].
      destruct (insert_label now id j c lk4 now4 t3) as [[[]|e] t4]; [|by apply He]. cbn [snd] in *.
      apply (proj1 (target_content_iff pg_lower id c j t t2 L1)) in Hj. rewrite Hl in H5.
      apply twp_ret. split; [done|]. exists t4. split; [done|]. exists (done ++ [c]). split; [by rewrite <- app_assoc|]. split.
      * eapply categories_only_trans; [|done]. by eapply categories_only_trans.
      * intros i [->|Hi]%H5; [exists c; split; [set_solver|done]|]. destruct (L2 i Hi) as (c' & Hc' & Ht'). exists c'. split; [set_solver|done].
      * intros c' [Hc'| ->%list_elem_of_singleton]%elem_of_app; [|exists j; split; [done|]; apply H5; by left].
        destruct (L3 c' Hc') as (i & Hi & Hx). exists i. split; [done|]. apply H5. by right.
  - exists []. split; [done|]. split; [done| |by intros c ?%elem_of_nil]. intros j. rewrite H2. by intros [].
  - intros t2 (done & Hd & HL). rewrite app_nil_r in Hd. subst done. apply twp_ret. exists t2. split; [done|]. by apply Hk.
Qed.
End CategoryLoop.

(** ** Saving an outcome *)

Section Saving.
Context (pg_lower : string -> string) (sha256 : list Z -> list Z) (shortest : SpecFloat.spec_float -> string).
Notation target := (target pg_lower).

(** The labels after an outcome: those of a given list exactly, in terms of the
    categories and mappings before. *)
Definition labels_of (id : Z) (fields : gmap string field) (d d' : ptables) : Prop :=
  (forall k, k.1 <> id -> p_labels d' !! k = p_labels d !! k) /\
  match fields !! "categories" with
  | Some (FStored cats) =>
      (forall j, is_Some (p_labels d' !! (id, j)) -> exists c, c ∈ cats /\ target c j d) /\
      (forall c, c ∈ cats -> exists j, target c j d /\ is_Some (p_labels d' !! (id, j)))
  | _ => p_labels d' = p_labels d
  end.

(** Everything [SaveOutcome] does. *)
Record outcome_saved (f : Fence) (a : Article) (attempt : Z) (token input : string) (p : Persisted) (d d' : ptables) : Prop := {
  os_fence : exists t r, fence_passed f d t r /\ r_state r = RRunning /\ p_runs d' = p_runs t;
  os_claim : exists i s, p_items d !! item_key f (ar_ID a) = Some i /\ claim_current attempt token input i = true /\
    istate_of (pr_State p) = Some s /\
    p_items d' = <[item_key f (ar_ID a) := set_item s (outcome_result (pr_State p) (pr_Error p)) i]> (p_items d) /\
    exists row row', article_at d (ar_ID a) = Some row /\ a_attempts row.1 = attempt /\ unchanged sha256 i row = true /\
      outcome_row shortest p row = Some row' /\
      p_texts d' = <[ar_ID a := row'.2]> (p_texts d) /\
      p_queue d' = set_articles (<[ar_ID a := row'.1]> (q_articles (p_queue d))) (p_queue d);
  os_locals : (forall k, k.1 <> ar_ID a -> p_locals d' !! k = p_locals d !! k) /\ locales_stored (ar_ID a) input (pr_Fields p) d';
  os_labels : labels_of (ar_ID a) (pr_Fields p) d d';
  os_rest : p_categories d' = p_categories d /\ p_sources d' = p_sources d /\ p_gone d' = p_gone d /\
    forall k, mapping_content <$> p_mappings d' !! k = mapping_content <$> p_mappings d !! k;
}.

(** Why it was refused. *)
Definition save_refused (f : Fence) (p : Persisted) (e : proc_error) (d : ptables) : Prop :=
  match e with
  | ErrCancelled => exists t r, fence_passed f d t r /\ r_state r <> RRunning
  | ErrCategoryMapping => exists cats c, pr_Fields p !! "categories" = Some (FStored cats) /\ c ∈ cats /\ unmapped pg_lower c d
  | _ => True
  end.

Definition save_result (f : Fence) (a : Article) (attempt : Z) (token input : string) (p : Persisted) (r : result proc_error unit) (d d' : ptables) : Prop :=
  match r with
  | Ok _ => outcome_saved f a attempt token input p d d'
  | Err e => d' = d /\ save_refused f p e d \/ e = ErrText "commit" /\ outcome_saved f a attempt token input p d d'
  end.

Lemma fence_passed_tables f d t r : fence_passed f d t r -> t = set_runs (p_runs t) d.
Proof. intros [_ _ _ _ [->|(_ & _ & ->)] _]; by destruct d. Qed.

Lemma article_updated_locals now id x x' d : locals_only id d (article_updated now id x x' d).
Proof.
  unfold article_updated. destruct (source_changed x x'); [|apply locals_only_refl]. split; [done|].
  intros [i l] Hi. simpl. apply lookup_alter_ne. intros [= <- <-]. done.
Qed.

Lemma labels_of_saved id fields d runs locals row row' t t2 t' :
  t = set_runs runs d -> t2 = set_locals locals (put_article id row row' t) -> labels_saved pg_lower id fields t2 t' ->
  labels_of id fields d t' /\ t' = set_labels (p_labels t') (set_mappings (p_mappings t') t2) /\
  forall k, mapping_content <$> p_mappings t' !! k = mapping_content <$> p_mappings d !! k.
Proof.
  intros -> -> H. unfold labels_saved, labels_of in *.
  destruct (fields !! "categories") as [[| |cats| |]|]; try (rewrite H; by split_and!).
  destruct H as [[E M O] L1 L2]. split_and!; [exact O|exact L1|exact L2|exact E|exact M].
Qed.

Lemma save_body_spec f a attempt token input p d :
  twp (save_body pg_lower sha256 shortest f a attempt token input p) (fun r d' _ => save_result f a attempt token input p r d d') d d.
Proof.
  unfold save_body. assert (forall s, save_result f a attempt token input p (Err (ErrText s)) d d) as Hno by by left.
  apply twp_tx_clock. intros now. apply twp_fence_running; [by intros [| | | |]; left|intros t' r ? ?; left; split; [done|]; by exists t', r|].
  intros t r Hp Hr. cbv zeta. pose proof (fence_passed_tables _ _ _ _ Hp) as Ht.
  apply twp_exec; [|intros; apply Hno]. intros lk1 now1. cbn [read].
  destruct (p_items t !! item_key f (ar_ID a)) as [i|] eqn:Hi; [|apply twp_raise, Hno].
  apply twp_guard; [apply Hno|]. intros Hc%negb_false_iff. apply twp_exec; [|intros; apply Hno]. intros lk2 now2. cbn [read].
  destruct (article_at t (ar_ID a)) as [row|] eqn:Hrow; [|apply twp_raise, Hno].
  apply twp_guard; [apply Hno|]. intros Hu. apply orb_false_iff in Hu as [Hat%negb_false_iff Hun%negb_false_iff]. apply Z.eqb_eq in Hat.
  apply twp_exec; [|intros; apply Hno]. intros lk3 now3. unfold write_outcome. rewrite Hrow.
  destruct (outcome_row shortest p row) as [row'|] eqn:Hrow'; [|apply Hno].
  pose proof (article_updated_locals now (ar_ID a) row.2 row'.2 (put_article (ar_ID a) row'.1 row'.2 t)) as Hl1.
  apply twp_save_locales; [intros; apply Hno|]. intros t2 Hl2 Hst. pose proof (locals_only_trans _ _ _ _ Hl1 Hl2) as [Et2 Ho].
  assert (forall k, mapping_content <$> p_mappings t2 !! k = mapping_content <$> p_mappings d !! k) as Hm2 by by rewrite Et2, Ht.
  apply twp_save_categories; [intros; apply Hno| |].
  { intros t' cats c Hcats Hin Hunm. left. split; [done|]. exists cats, c. split_and!; [done..|]. rewrite Et2, Ht in Hunm. exact Hunm. }
  intros t3 Hlab. destruct (labels_of_saved _ _ _ _ _ _ _ _ _ _ Ht Et2 Hlab) as (Hlabels & E3 & Hmap).
  assert (p_items t3 = p_items d) as E4 by by rewrite E3, Et2, Ht.
  apply (twp_settle_item _ _ _ _ _ _ _ _ _ _ _ _ i); [intros; apply Hno|by rewrite E4, <- Hi, Ht|]. intros s Hs.
  enough (outcome_saved f a attempt token input p d (set_items (<[item_key f (ar_ID a) :=
    set_item s (outcome_result (pr_State p) (pr_Error p)) i]> (p_items t3)) t3)) as H by (split; [exact H|by right]).
  split.
  - exists t, r. split_and!; [done..|]. by rewrite E3, Et2.
  - exists i, s. rewrite E4. split_and!; [by rewrite <- Hi, Ht|done..|]. exists row, row'.
    split_and!; [by rewrite <- Hrow, Ht|done..|by rewrite E3, Et2, Ht|by rewrite E3, Et2, Ht].
  - split; [|exact (ltac:(rewrite E3; exact Hst))]. intros k Hk. cbn [p_locals set_items]. rewrite E3. cbn [p_locals set_labels set_mappings].
    rewrite Ho by done. by rewrite Ht.
  - exact Hlabels.
  - split_and!; [by rewrite E3, Et2, Ht..|exact Hmap].
Qed.
End Saving.

(** ** Histories of the store *)

(** A call of the store; [OpRead] stands for those that write nothing. *)
Section Histories.
Context (pg_lower : string -> string) (sha256 : list Z -> list Z) (shortest : SpecFloat.spec_float -> string).

Inductive store_op :=
  | OpExistingRun (f : Fence)
  | OpGetRun (id : string)
  | OpCancel (id : string)
  | OpFailRun (f : Fence) (code : string)
  | OpFinishRun (f : Fence) (receipt : json)
  | OpCanonicalJob (f : Fence)
  | OpRecoverClaims (f : Fence)
  | OpRecoverExhausted (f : Fence) (maxAttempts now : Z)
  | OpSelectDue (f : Fence) (limit cursor : Z) (selected : list Z) (dateFrom dateTo : option Z) (maxAttempts : Z)
  | OpClaimArticle (f : Fence) (a : Article) (timeout retryDelay : Z)
  | OpUpdateItemFingerprint (f : Fence) (article attempt : Z) (token input : string)
  | OpSaveOutcome (f : Fence) (a : Article) (attempt : Z) (token input : string) (p : Persisted)
  | OpRecordCategoryMappingFailure (f : Fence) (a : Article) (attempt : Z) (token input : string)
  | OpClaimLocalizationRetry (f : Fence) (maxAttempts delay : Z)
  | OpSaveLocalizationRetry (f : Fence) (a : Article) (input title summary prompt model : string) (valid : bool) (maxAttempts : Z)
  | OpArticleOutcomes (ids : list Z)
  | OpHasDuplicateHash (hash : string) (article : Z).

Definition ignore {A} (m : PM A) : PM unit := _ ← m; mret tt.

Definition store_call (op : store_op) : PM unit :=
  match op with
  | OpExistingRun f => ignore (ExistingRun f)
  | OpGetRun id => ignore (GetRun id)
  | OpCancel id => Cancel id
  | OpFailRun f code => FailRun f code
  | OpFinishRun f receipt => FinishRun f receipt
  | OpCanonicalJob f => ignore (CanonicalJob f)
  | OpRecoverClaims f => RecoverClaims f
  | OpRecoverExhausted f maxAttempts now => RecoverExhausted f maxAttempts now
  | OpSelectDue f limit cursor selected from to maxAttempts => ignore (SelectDue f limit cursor selected from to maxAttempts)
  | OpClaimArticle f a timeout retryDelay => ignore (ClaimArticle sha256 f a timeout retryDelay)
  | OpUpdateItemFingerprint f article attempt token input => UpdateItemFingerprint f article attempt token input
  | OpSaveOutcome f a attempt token input p => SaveOutcome pg_lower sha256 shortest f a attempt token input p
  | OpRecordCategoryMappingFailure f a attempt token input => RecordCategoryMappingFailure sha256 f a attempt token input
  | OpClaimLocalizationRetry f maxAttempts delay => ignore (ClaimLocalizationRetry sha256 f maxAttempts delay)
  | OpSaveLocalizationRetry f a input title summary prompt model valid maxAttempts =>
      SaveLocalizationRetry sha256 f a input title summary prompt model valid maxAttempts
  | OpArticleOutcomes ids => ignore (ArticleOutcomes ids)
  | OpHasDuplicateHash hash article => ignore (HasDuplicateHash hash article)
  end.

(** The claim the call settles; an outcome is never "running". *)
Definition settles (op : store_op) : option claim_key :=
  match op with
  | OpSaveOutcome f a _ _ _ p => if (pr_State p =? "running")%string then None else Some (claim_of f (ar_ID a))
  | OpRecordCategoryMappingFailure f a _ _ _ | OpSaveLocalizationRetry f a _ _ _ _ _ _ _ => Some (claim_of f (ar_ID a))
  | _ => None
  end.

(** One call after the other; the log holds the claims whose outcome was saved. *)
Fixpoint store_run (ops : list store_op) (w : world ptables) : list claim_key * world ptables :=
  match ops with
  | [] => ([], w)
  | op :: ops =>
      let '(r, w') := store_call op w in
      let '(log, w'') := store_run ops w' in
      (match r, settles op with Ok _, Some k => k :: log | _, _ => log end, w'')
  end.

Lemma ignore_keeps {A} (m : PM A) : pkeeps m -> pkeeps (ignore m).
Proof. intros H. unfold ignore. apply keeps_bind; [done|]. intros. apply keeps_ret. Qed.
Lemma ignore_closed {A} (m : PM A) : closed m -> closed (ignore m).
Proof. intros H. unfold ignore. eauto with news. Qed.

Lemma store_call_keeps op : pkeeps (store_call op).
Proof.
  destruct op; cbn [store_call]; try (apply ignore_keeps); eauto using Cancel_keeps, FailRun_keeps, FinishRun_keeps, CanonicalJob_keeps,
    RecoverClaims_keeps, RecoverExhausted_keeps, SelectDue_keeps, ClaimArticle_keeps, UpdateItemFingerprint_keeps, SaveOutcome_keeps,
    RecordCategoryMappingFailure_keeps, ClaimLocalizationRetry_keeps, SaveLocalizationRetry_keeps.
  - unfold ExistingRun. keep.
  - unfold GetRun. keep.
  - unfold ArticleOutcomes. keep.
  - unfold HasDuplicateHash. keep.
Qed.

Lemma store_call_closed op : closed (store_call op).
Proof.
  destruct op; cbn [store_call]; try (apply ignore_closed); try apply closed_with_tx.
  - unfold ExistingRun. eauto with news.
  - unfold GetRun. apply closed_bind; [eauto with news|]. intros [r|]; eauto with news.
  - unfold ArticleOutcomes. destruct ids; eauto with news.
  - unfold HasDuplicateHash. eauto with news.
Qed.

Definition is_ok {A} (r : result proc_error A) : Prop := match r with Ok _ => True | Err _ => False end.

(** A transaction body that settles the claim [k] when it succeeds. *)
Definition settling (k : claim_key) (body : PM unit) : Prop :=
  forall d, p_wf d -> twp body (fun r d' _ => is_ok r -> unsettled k d /\ settled k d') d d.

Lemma claim_settled f d t r article i i' d' :
  p_wf d -> fence_passed f d t r -> p_items d !! item_key f article = Some i -> it_state i = IRunning -> is_Some (q_articles (p_queue d) !! article) ->
  p_items d' !! item_key f article = Some i' -> p_runs d' = p_runs t -> it_state i' <> IRunning ->
  unsettled (claim_of f article) d /\ settled (claim_of f article) d'.
Proof.
  intros W [Ha Hr Hs [Hj Hat] Ht _] Hi Hrun Hart Hi' Hruns Hn.
  assert (p_runs d !! fe_RunID f = Some r) as Hrd.
  { destruct Ht as [->|(Hno & _ & _)]; [done|]. destruct (pw_item _ W _ _ Hi) as [[r0 Hr0] _]. cbn in Hr0. congruence. }
  split.
  - split_and!; [|done|destruct (at_job _ _ Ha) as (j & Hjob & _); by exists j].
    exists i. split; [|done]. by exists (fe_RunID f), r.
  - left. exists i'. split; [|done]. exists (fe_RunID f), r. by rewrite Hruns.
Qed.

Lemma claim_current_running attempt token input i : claim_current attempt token input i = true -> it_state i = IRunning.
Proof. unfold claim_current. intros H. by bool_to_prop. Qed.
Lemma article_at_queue d id row : article_at d id = Some row -> is_Some (q_articles (p_queue d) !! id).
Proof. unfold article_at. by destruct (q_articles (p_queue d) !! id). Qed.

Lemma save_settles f a attempt token input p : pr_State p <> "running" ->
  settling (claim_of f (ar_ID a)) (save_body pg_lower sha256 shortest f a attempt token input p).
Proof.
  intros Hp d W. eapply twp_mono; [apply save_body_spec|]. intros [[]|e] d' _; [|done].
  intros [(t & r & Hf & _ & Hruns) (i & s & Hi & Hc & Hs & Hitems & row & _ & Hrow & _) _ _ _] _.
  eapply (claim_settled _ _ _ _ _ _ (set_item s (outcome_result (pr_State p) (pr_Error p)) i));
    eauto using claim_current_running, article_at_queue; [by rewrite Hitems, lookup_insert_eq|].
  cbn. intros ->. unfold istate_of in Hs. destruct (pr_State p =? "running")%string eqn:E; [by apply String.eqb_eq in E|].
  repeat (match type of Hs with (if ?b then _ else _) = _ => destruct b; [done|] end). done.
Qed.

Lemma record_settles f a attempt token input : settling (claim_of f (ar_ID a)) (record_failure_body sha256 f a attempt token input).
Proof.
  intros d W. unfold record_failure_body.
  assert (forall s (t : ptables), is_ok (Err (A:=unit) (ErrText s)) -> unsettled (claim_of f (ar_ID a)) d /\ settled (claim_of f (ar_ID a)) d) as Hno by done.
  apply twp_fence_running; [done..|]. intros t r Hf _. cbv zeta. pose proof (fence_passed_tables _ _ _ _ Hf) as Ht.
  apply twp_exec; [|done]. intros lk1 now1. cbn [read].
  destruct (p_items t !! item_key f (ar_ID a)) as [i|] eqn:Hi; [|by apply twp_raise].
  apply twp_guard; [done|]. intros Hc%negb_false_iff. apply twp_exec; [|done]. intros lk2 now2. cbn [read].
  destruct (article_at t (ar_ID a)) as [row|] eqn:Hrow; [|by apply twp_raise].
  apply twp_guard; [done|]. intros _. apply twp_exec; [|done]. intros lk3 now3.
  assert (p_items d !! item_key f (ar_ID a) = Some i) as Hid by by rewrite <- Hi, Ht.
  assert (is_Some (q_articles (p_queue d) !! ar_ID a)) as Hq by (rewrite Ht in Hrow; by eapply article_at_queue).
  assert (forall t2, p_items t2 = p_items t -> p_runs t2 = p_runs t -> forall st, istate_of StateRetryWait = Some st ->
    unsettled (claim_of f (ar_ID a)) d /\ settled (claim_of f (ar_ID a)) (set_items (<[item_key f (ar_ID a) :=
      set_item st (outcome_result StateRetryWait (Some "category_mapping_failed")) i]> (p_items t2)) t2)) as Hdone.
  { intros t2 E1 E2 st [= <-]. eapply claim_settled; eauto using claim_current_running; [cbn; apply lookup_insert_eq|done]. }
  unfold update_article. destruct (q_articles (p_queue t) !! ar_ID a) as [x|]; [destruct (_ =? _)|];
    (eapply twp_settle_item; [done|cbn; exact Hi|]; intros st Hst; split; intros _; by eapply Hdone).
Qed.

Lemma save_local_settles f a input title summary prompt model valid maxAttempts :
  settling (claim_of f (ar_ID a)) (save_local_body sha256 f a input title summary prompt model valid maxAttempts).
Proof.
  intros d W. unfold save_local_body. apply twp_fence_running; [done..|]. intros t r Hf _. cbv zeta.
  pose proof (fence_passed_tables _ _ _ _ Hf) as Ht. apply twp_exec; [|done]. intros lk1 now1. cbn [read].
  destruct (p_items t !! item_key f (ar_ID a)) as [i|] eqn:Hi; [|by apply twp_raise].
  apply twp_guard; [done|]. intros Hc%negb_false_iff. apply twp_exec; [|done]. intros lk2 now2. cbn [read].
  destruct (article_at t (ar_ID a)) as [row|] eqn:Hrow; [|by apply twp_raise].
  apply twp_guard; [done|]. intros _. apply twp_exec; [|done]. intros lk3 now3. unfold update_local, write.
  eapply twp_settled; [done| |by intros; right]. intros i' Hi' _. assert (i' = i) as -> by (cbn in Hi'; congruence).
  assert (p_items d !! item_key f (ar_ID a) = Some i) as Hid by by rewrite <- Hi, Ht.
  assert (is_Some (q_articles (p_queue d) !! ar_ID a)) as Hq by (rewrite Ht in Hrow; by eapply article_at_queue).
  split; intros _; (eapply claim_settled; eauto using claim_current_running; [cbn; apply lookup_insert_eq|]; by destruct valid).
Qed.

(** A call that reports success found its claim open and left it settled. *)
Lemma call_settles op k w : settles op = Some k -> p_wf (w_db w) -> w_tx w = None -> rely p_evolves (w_env w) ->
  is_ok (store_call op w).1 -> exists d, p_evolves (w_db w) d /\ unsettled k d /\ settled k (w_db (store_call op w).2).
Proof.
  intros Hs W Ht Hr Hok.
  assert (exists e body, store_call op = with_tx e body /\ settling k body) as (e & body & E & Hb).
  { destruct op; try done; cbn [settles store_call] in *; [destruct (_ =? _)%string eqn:E; [done|]| |]; injection Hs as <-;
      (eexists _, _; split; [reflexivity|]).
    - apply save_settles. by apply String.eqb_neq.
    - apply record_settles.
    - apply save_local_settles. }
  rewrite E in Hok |- *. clear E Hs.
  assert (rwp p_evolves (with_tx e body) (fun r d' => is_ok r -> exists d, p_evolves (w_db w) d /\ unsettled k d /\ settled k d') (w_db w)) as H.
  { apply rwp_with_tx; [apply _|]. intros d1 Hd1. split; [|done]. eapply twp_mono; [apply Hb; by eapply pe_wf|].
    intros r d' tx H1 H2. exists d1. split; [done|auto]. }
  by apply (H w eq_refl Ht Hr).
Qed.

Lemma store_call_step op w : w_tx w = None -> rely p_evolves (w_env w) ->
  p_evolves (w_db w) (w_db (store_call op w).2) /\ w_tx (store_call op w).2 = None /\ rely p_evolves (w_env (store_call op w).2).
Proof.
  intros Ht Hr. destruct (store_call_keeps op (w_db w) w) as (H1 & _ & H3); [split_and!; [done|by rewrite Ht|done]|].
  split_and!; [done|by apply store_call_closed|done].
Qed.

(** C13: Every claim is settled at most once.  In any sequence of calls, among
    failures, lost commits and other sessions of the news services, a claim (an
    article in one attempt of a job) whose outcome was saved is settled for good:
    no later call saves an outcome for it, and the tables stay well formed, runs
    and items that ended unchanged. *)
Theorem outcomes_saved_once ops w :
  w_tx w = None -> p_wf (w_db w) -> rely p_evolves (w_env w) ->
  let '(log, w') := store_run ops w in
  NoDup log /\ (forall k, k ∈ log -> settled k (w_db w')) /\ p_wf (w_db w') /\ p_evolves (w_db w) (w_db w').
Proof.
  intros Ht W Hr. enough (forall old : list claim_key, (forall k, k ∈ old -> settled k (w_db w)) ->
    let '(log, w') := store_run ops w in
    NoDup log /\ (forall k, k ∈ old -> k ∉ log) /\ (forall k, k ∈ log -> settled k (w_db w')) /\ p_wf (w_db w') /\ p_evolves (w_db w) (w_db w')) as H.
  { specialize (H [] ltac:(set_solver)). destruct (store_run ops w). tauto. }
  revert w Ht W Hr. induction ops as [|op ops IH]; intros w Ht W Hr old Hd; cbn [store_run].
  { split_and!; try done; [constructor|set_solver..]. }
  destruct (store_call_step op w Ht Hr) as (H1 & H2 & H3). pose proof (call_settles op) as Hs. specialize (fun k => Hs k w).
  destruct (store_call op w) as [r w1]. cbn [fst snd] in *. pose proof (pe_wf _ _ H1 W) as W1.
  set (key := match r, settles op with Ok _, Some k => [k] | _, _ => [] end).
  assert (forall k, k ∈ key -> k ∉ old /\ settled k (w_db w1)) as Hk.
  { unfold key. intros k. destruct r as [u|e], (settles op) as [k0|]; try set_solver. intros ->%list_elem_of_singleton.
    destruct (Hs k0 eq_refl W Ht Hr I) as (d & E1 & E2 & E3). split; [|done]. intros Hin.
    eapply settled_not_unsettled; [by eapply pe_wf|by eapply settled_evolves; [|apply Hd]|done]. }
  specialize (IH w1 H2 W1 H3 (old ++ key)). destruct (store_run ops w1) as [log w'].
  destruct IH as (I1 & I2 & I3 & I4 & I5).
  { intros k [Hin|Hin]%elem_of_app; [by eapply settled_evolves; [|apply Hd]|by apply Hk]. }
  replace (match r, settles op with Ok _, Some k => k :: log | _, _ => log end) with (key ++ log)
    by (unfold key; by destruct r, (settles op)).
  split_and!; [| | |done|by etrans].
  - apply NoDup_app. split_and!; [unfold key; destruct r, (settles op); repeat constructor; set_solver| |done].
    intros k Hin. apply I2, elem_of_app. by right.
  - intros k Hin [Hk'|Hl]%elem_of_app; [by apply (Hk k Hk')|]. revert Hl. apply I2, elem_of_app. by left.
  - intros k [Hk'|Hl]%elem_of_app; [|auto]. eapply settled_evolves; [exact I5|]. by apply Hk.
Qed.
End Histories.

(** ** Recovery and claims *)

(** What is left of the items by the recovery at [now]. *)
Definition recovered (now : Z) (t t' : ptables) : Prop :=
  t' = set_items (p_items t') t /\
  forall k, p_items t' !! k = (fun i => if abandoned now t k i then set_item ICancelled (it_result i) i else i) <$> p_items t !! k.

(** Nothing but the caller's own run can still settle a claim. *)
Lemma own_claims f t r now k i : p_wf t -> authority f t -> p_runs t !! fe_RunID f = Some r ->
  r_job r = uuid (en_JobID (fe_Envelope f)) /\ r_attempt r = en_AttemptGeneration (fe_Envelope f) ->
  p_items t !! k = Some i -> it_state i = IRunning -> abandoned now t k i = false -> k.1 = fe_RunID f.
Proof.
  intros W Ha Hr [Hj Hat] Hi Hs Hab. destruct (pw_item _ W _ _ Hi) as [[r' Hr'] _].
  unfold abandoned in Hab. rewrite Hr', bool_decide_true in Hab by done. cbn [andb] in Hab.
  apply orb_false_iff in Hab as [_ Hab%negb_false_iff]. destruct (q_jobs (p_queue t) !! r_job r') as [j'|] eqn:Hj'; [|done].
  destruct (at_job _ _ Ha) as (j & Hjob & Hcur & _). unfold job_current in Hcur. bool_to_prop.
  assert (r_job r' = uuid (en_JobID (fe_Envelope f))) as E by (eapply (wf_running _ (pw_queue _ W)); eauto).
  assert (j' = j) as -> by congruence. eapply (pw_key _ W); [done|done|congruence|congruence].
Qed.

Lemma authority_evolves_run f d t r : fence_passed f d t r -> authority f t.
Proof. intros Hf. rewrite (fence_passed_tables _ _ _ _ Hf). destruct (fp_authority _ _ _ _ Hf). by split. Qed.

(** Everything [RecoverClaims] does. *)
Record claims_recovered (f : Fence) (d d' : ptables) : Prop := {
  cr_items : exists t r now, fence_passed f d t r /\ r_state r = RRunning /\ recovered now t d';
  cr_free : p_wf d -> forall k i, p_items d' !! k = Some i -> it_state i = IRunning -> k.1 = fe_RunID f;
}.

Lemma recover_body_spec f d :
  twp (recover_body f) (fun r d' _ => match r with
    | Ok _ => claims_recovered f d d'
    | Err e => d' = d \/ e = ErrText "commit" /\ claims_recovered f d d'
    end) d d.
Proof.
  unfold recover_body. apply twp_tx_clock. intros now. apply twp_fence_running; [by intros; left|by intros; left|].
  intros t r Hf Hr. apply twp_exec; [|by intros; left]. intros lk now'. unfold cancel_items, write.
  set (t' := set_items _ t). assert (claims_recovered f d t') as Hc.
  { assert (recovered now t t') as Hrec.
    { split; [done|]. intros k. subst t'. cbn [p_items set_items]. rewrite map_lookup_imap. by destruct (p_items t !! k). }
    split; [by exists t, r, now|]. intros W k i Hi Hs. destruct Hrec as [_ Hrec]. rewrite Hrec in Hi.
    destruct (p_items t !! k) as [i0|] eqn:Hi0; [|done]. injection Hi as <-. destruct (abandoned now t k i0) eqn:E; [done|].
    eapply own_claims; [by eapply pe_wf; [exact (fp_evolves _ _ _ _ Hf)|]|by eapply authority_evolves_run|exact (fp_run _ _ _ _ Hf)
      |exact (fp_key _ _ _ _ Hf)|done..]. }
  apply twp_commit; auto.
Qed.

(** After a successful recovery no abandoned claim blocks an article.
    [RecoverClaims] cancels exactly the running items whose run has ended, whose
    deadline has passed, or whose job runs no longer or runs a later attempt, and
    changes no other item; every claim that still runs afterwards is the caller's
    own.  A recovery that fails has changed nothing, unless only its commit's
    answer was lost. *)
Theorem RecoverClaims_exact f w :
  w_tx w = None ->
  let d := found w in
  let d' := w_db (RecoverClaims f w).2 in
  match (RecoverClaims f w).1 with
  | Ok _ => claims_recovered f d d'
  | Err e => d' = d \/ e = ErrText "commit" /\ claims_recovered f d d'
  end.
Proof.
  intros Ht d d'. subst d d'. unfold RecoverClaims. apply (with_tx_spec _ _ (fun r d' => match r with
    | Ok _ => claims_recovered f (found w) d'
    | Err e => d' = found w \/ e = ErrText "commit" /\ claims_recovered f (found w) d'
    end)); [done|by left|apply recover_body_spec].
Qed.

Section Claiming.
Context (sha256 : list Z -> list Z).

(** Everything [ClaimArticle] does when it returns the attempt, the input's
    fingerprint and the token of the claim. *)
Record article_claimed (f : Fence) (a : Article) (timeout retryDelay : Z) (attempt : Z) (input token : string) (d d' : ptables) : Prop := {
  ac_fence : exists t r, fence_passed f d t r /\ r_state r = RRunning /\ p_runs d' = p_runs t;
  ac_row : exists row now, article_at d (ar_ID a) = Some row /\ attempt = a_attempts row.1 + 1 /\
    a_attempts row.1 = ar_ProcessingAttempts a /\ open_state (a_state row.1) = true /\ row_snapshot row = article_snapshot a /\
    let row' := claimed_article attempt (now + claim_delay timeout retryDelay) row.1 in
    p_queue d' = set_articles (<[ar_ID a := row']> (q_articles (p_queue d))) (p_queue d) /\
    (forall maxAttempts now', now' < pg_time (now + claim_delay timeout retryDelay) -> claimable maxAttempts now' row' = false);
  ac_item : p_items d !! item_key f (ar_ID a) = None /\ running_claim (ar_ID a) d = false /\
    p_items d' = <[item_key f (ar_ID a) := ItemRow attempt input token IRunning (claim_receipt sha256 (article_snapshot a))]> (p_items d);
  ac_text : input = fingerprint sha256 (ar_Title a) (ar_Content a) (ar_URL a) (original_context a (ar_Content a));
  ac_ready : exists i row, p_items d' !! item_key f (ar_ID a) = Some i /\ claim_current attempt token input i = true /\
    article_at d' (ar_ID a) = Some row /\ a_attempts row.1 = attempt /\ unchanged sha256 i row = true;
  ac_rest : p_texts d' = p_texts d /\ p_locals d' = p_locals d /\ p_categories d' = p_categories d /\ p_mappings d' = p_mappings d /\
    p_labels d' = p_labels d /\ p_sources d' = p_sources d /\ p_gone d' = p_gone d;
}.

Lemma claim_receipt_read s : receipt_fingerprint (claim_receipt sha256 s) = sourceSnapshotFingerprint sha256 s.
Proof. done. Qed.

Lemma claimed_not_claimable attempt deadline a maxAttempts now : now < pg_time deadline -> claimable maxAttempts now (claimed_article attempt deadline a) = false.
Proof.
  intros H. unfold claimable, claimed_article. cbn. destruct (Z.leb_spec (pg_time deadline) now); [lia|]. by destruct (_ <? _).
Qed.

Lemma article_claim_spec f a timeout retryDelay d :
  twp (claim_body sha256 f a timeout retryDelay) (fun r d' _ => match r with
    | Ok (attempt, input, token) => article_claimed f a timeout retryDelay attempt input token d d'
    | Err e => d' = d \/ e = ErrText "article claim commit failed" /\
        exists attempt input token, article_claimed f a timeout retryDelay attempt input token d d'
    end) d d.
Proof.
  unfold claim_body. apply twp_fence_running; [by intros; left|by intros; left|]. intros t r Hf Hr.
  pose proof (fence_passed_tables _ _ _ _ Hf) as Ht. apply twp_exec; [|by intros; left]. intros lk1 now1. cbn [read].
  destruct (article_at t (ar_ID a)) as [row|] eqn:Hrow; [|by apply twp_raise; left]. cbv zeta.
  apply twp_guard; [by left|]. intros Hg1. apply twp_guard; [by left|]. intros Hg2%negb_false_iff%bool_decide_eq_true.
  apply orb_false_iff in Hg1 as [Hg1%negb_false_iff Hg3%negb_false_iff]. apply Z.eqb_eq in Hg1.
  apply twp_app_now. intros now. apply twp_exec; [|by intros; left]. intros lk2 now2.
  assert (exists x y, q_articles (p_queue t) !! ar_ID a = Some x /\ p_texts t !! ar_ID a = Some y /\ row = (x, y)) as (x & y & Hx & Hy & ->).
  { unfold article_at in Hrow. destruct (q_articles (p_queue t) !! ar_ID a) as [x|]; [|done]. cbn in Hrow.
    destruct (p_texts t !! ar_ID a) as [y|]; [|done]. exists x, y. injection Hrow as <-. done. }
  unfold update_article. cbn [fst snd] in *. rewrite Hx, Z.eqb_refl. apply twp_guard; [by left|]. intros _.
  apply twp_rand; [|by left]. intros random. apply twp_exec; [|by intros; left]. intros lk3 now3.
  unfold insert_item. destruct (_ || _) eqn:E1; [by left|]. destruct (negb _ || _) eqn:E2; [by left|].
  set (token := uuid_format _). set (input := fingerprint _ _ _ _ _). set (t' := set_items _ _).
  enough (article_claimed f a timeout retryDelay (a_attempts x + 1) input token d t') as Hc
    by (apply twp_commit; [exact Hc|right; split; [done|by eexists _, _, _]|by left]).
  apply orb_false_iff in E1 as [E1 E3]. rewrite bool_decide_true in E3 by done. cbn in E1, E3.
  apply bool_decide_eq_false, eq_None_not_Some in E1.
  assert (article_at d (ar_ID a) = Some (x, y)) as Hd by by rewrite <- Hrow, Ht.
  split.
  - by exists t, r.
  - exists (x, y), now. cbn [fst snd]. split_and!; try done; [by subst t'; cbn; rewrite Ht|]. intros. by apply claimed_not_claimable.
  - rewrite Ht in E1, E3. split_and!; [done|done|]. subst t'. cbn. by rewrite Ht.
  - subst input. rewrite Hg2. done.
  - exists (ItemRow (a_attempts x + 1) input token IRunning (claim_receipt sha256 (article_snapshot a))),
      (claimed_article (a_attempts x + 1) (now + claim_delay timeout retryDelay) x, y). split_and!.
    + subst t'. cbn. apply lookup_insert_eq.
    + unfold claim_current. cbn [it_attempt it_fingerprint it_token it_state]. by rewrite Z.eqb_refl, !String.eqb_refl, bool_decide_true.
    + unfold article_at. subst t'. cbn. rewrite lookup_insert_eq. cbn. by rewrite Hy.
    + done.
    + unfold unchanged. cbn [it_result]. rewrite claim_receipt_read.
      rewrite <- Hg2. apply String.eqb_refl.
  - subst t'. rewrite Ht. by split_and!.
Qed.

(** Claiming is safe against a crash.  A successful [ClaimArticle] found the
    article unchanged since it was selected, still open, with the attempts it was
    selected with and no other running claim; it counted the attempt and put the
    article into "retry_wait" with a deadline before which nobody selects it
    again, however high the limit; the claim it returns is current, so that
    [SaveOutcome] accepts it as long as the article stays as it is; and nothing
    else was written.  A claim that fails has changed nothing, unless only its
    commit's answer was lost. *)
Theorem ClaimArticle_exact f a timeout retryDelay w :
  w_tx w = None ->
  let d' := w_db (ClaimArticle sha256 f a timeout retryDelay w).2 in
  match (ClaimArticle sha256 f a timeout retryDelay w).1 with
  | Ok (attempt, input, token) => article_claimed f a timeout retryDelay attempt input token (found w) d'
  | Err e => d' = found w \/ e = ErrText "article claim commit failed" /\
      exists attempt input token, article_claimed f a timeout retryDelay attempt input token (found w) d'
  end.
Proof.
  intros Ht d'. subst d'. unfold ClaimArticle. apply (with_tx_spec _ _ (fun r d' => match r with
    | Ok (attempt, input, token) => article_claimed f a timeout retryDelay attempt input token (found w) d'
    | Err e => d' = found w \/ e = ErrText "article claim commit failed" /\
        exists attempt input token, article_claimed f a timeout retryDelay attempt input token (found w) d'
    end)); [done|by left|apply article_claim_spec].
Qed.
End Claiming.

(** C14: What saving an outcome does.  A successful [SaveOutcome] had the authority
    of a running run, a current claim and an article unchanged since the claim; it
    left the article's row as the outcome says, the localizations of the outcome
    with the claimed input, the labels exactly those of the categories' targets
    when the outcome has categories and untouched otherwise, and the claim settled
    with the outcome's state, and it changed nothing of other articles.  A call
    that fails has changed nothing, unless only its commit's answer was lost; it
    reports a cancelled run only when the run has ended, and a missing category
    mapping only when one of the categories has no target. *)
Theorem SaveOutcome_exact pg_lower sha256 shortest f a attempt token input p w :
  w_tx w = None ->
  save_result pg_lower sha256 shortest f a attempt token input p
    (SaveOutcome pg_lower sha256 shortest f a attempt token input p w).1 (found w)
    (w_db (SaveOutcome pg_lower sha256 shortest f a attempt token input p w).2).
Proof.
  intros Ht. unfold SaveOutcome.
  apply (with_tx_spec _ _ (fun r d' => save_result pg_lower sha256 shortest f a attempt token input p r (found w) d')); [done|by left|].
  apply save_body_spec.
Qed.

(** ** Witnesses *)

Module StoreSample.
(** A hash that keeps the length, and a server whose [lower] changes nothing. *)
Definition sum32 (l : list Z) : list Z :=
  map (fun i => foldl (fun s b => (s * 31 + b + i) mod 256) 7 l) (seqZ 0 32).
Definition lower (s : string) : string := s.
Definition shortest (_ : SpecFloat.spec_float) : string := "0".
Definition now : Z := 1700000000 * Second.
Definition owner : string := "11111111-1111-4111-8111-111111111111".
Definition instance : string := "22222222-2222-4222-8222-222222222222".
Definition envelope : Envelope := MkEnvelope 1 "j" 1 owner 3 5 instance (now + 600 * Second) 0.
Definition fence : Fence := NewFence sum32 envelope.

Definition job : job_row := JobRow "news_processing" (JObj []) None 1 Running (Some 3) 1 0 (Some now) None None None None None.
Definition receipt : exec_row :=
  ExecRow "d" instance (Some owner) (Some 3) (Some (now + 600 * Second)) XRunning now (Some now) None None None None.
Definition row : article_row := ArticleRow StatePending 0 None None false false false false.
Definition text : text_row :=
  TextRow None "Title" "https://a.example/1" (Some "Body") None None None None None None None None None.
(** An article whose claim was abandoned by an earlier attempt of another job. *)
Definition old_run : run_row := RunRow "k" 1 "d" owner 2 5 instance (now - 3600 * Second) RRunning None (JObj []) None.
Definition old_job : job_row := JobRow "news_processing" (JObj []) None 2 Interrupted None 1 0 (Some now) (Some now) None None None None.
Definition old_item : item_row := ItemRow 1 "f" "t" IRunning (JObj []).
Definition queue : qtables :=
  QTables {[ "j" := job; "k" := old_job ]} (Some (StatusRow 3 (Some owner) (Some 5) (Some now) true)) {[ ("j", 1) := receipt ]}
    (Some 5) (Some 7) ∅ {[ 1 := row; 2 := row ]}.
Definition tables : ptables :=
  PTables queue {[ 1 := text; 2 := text ]} {[ "old" := old_run ]} {[ ("old", 2) := old_item ]} ∅ {[ 4 := "Tech" ]} ∅ ∅ ∅ ∅.
Definition world0 : world ptables := World tables None now [].

Definition article : Article := scan_article ∅ 1 (row, text).
Definition claim_input : string := fingerprint sum32 "Title" "Body" "https://a.example/1" None.
Definition claim_token : string := uuid_format (byte16 []).
Definition outcome : Outcome :=
  MkOutcome StateCompleted
    (<["summary" := FAny (VStr "Short")]> (<["summary_processed" := FAny (VBool true)]>
      (<["categories" := FStored [MkStoreCategory "Tech" (binary64 1) "AI" "Tech"]]> (<["category_processed" := FAny (VBool true)]>
        (<["ad_processed" := FAny (VBool true)]> (<["is_advertisement" := FAny (VBool false)]> ∅)))))) "" VNull.
Definition persisted : Persisted := Persist outcome 1 now (MkLimits 0 0 0).
Definition save : store_op := OpSaveOutcome fence article 1 claim_token claim_input persisted.
(** The second save is refused, and so is the one after the run has finished. *)
Definition ops : list store_op :=
  [OpRecoverClaims fence; OpClaimArticle fence article 0 0; save; save; OpFinishRun fence (JObj []); save].

Ltac rows := unfold tables, queue in *; cbn in *;
  repeat match goal with
         | H : context [{[ _ := _; _ := _ ]} !! _] |- _ => rewrite !lookup_insert_Some, !lookup_singleton_Some in H
         | H : {[ _ := _ ]} !! _ = Some _ |- _ => rewrite lookup_singleton_Some in H
         | H : _ \/ _ |- _ => destruct H | H : _ /\ _ |- _ => destruct H
         end; simplify_eq; try done.

Lemma store_tables_wf : p_wf tables.
Proof.
  split.
  - split.
    + intros a b ja jb Ha Hb Hsa Hsb. rows.
    + intros id j Hj. rows; (split; [done|intros _; by split]).
    + intros id a x Hx. rows. all: by exists job.
    + intros id Hid. cbn in Hid. set_solver.
  - intros id. unfold tables, queue. cbn. split; intros [x Hx]; rows; by eexists.
  - intros a b ra rb Ha Hb _ _. rows.
  - intros id r Hr. rows. all: by exists old_job.
  - intros k i Hi. rows. all: split; by eexists.
  - intros k k' i i' Hk Hk' _ _ _. rows.
  - intros id Hid. cbn in Hid. set_solver.
  - intros id [x Hx]. rows; lia.
Qed.

Definition world1 : world ptables := (RecoverClaims fence world0).2.
Definition world2 : world ptables := (ClaimArticle sum32 fence article 0 0 world1).2.
End StoreSample.

Lemma found_quiet {D} (w : world D) : w_tx w = None -> w_env w = [] -> found w = w_db w.
Proof. unfold found, next_event. intros -> ->. done. Qed.

Lemma RecoverClaims_exact_witness :
  claims_recovered StoreSample.fence StoreSample.tables (w_db StoreSample.world1) /\
  (it_state <$> p_items (w_db StoreSample.world1) !! ("old", 2)) = Some ICancelled.
Proof.
  pose proof (RecoverClaims_exact StoreSample.fence StoreSample.world0 eq_refl) as H. cbv zeta in H.
  replace ((RecoverClaims StoreSample.fence StoreSample.world0).1) with (Ok (E:=proc_error) tt) in H by by_eval.
  split; [exact H|by_eval].
Defined.

Lemma ClaimArticle_exact_witness :
  article_claimed StoreSample.sum32 StoreSample.fence StoreSample.article 0 0 1 StoreSample.claim_input StoreSample.claim_token
    (w_db StoreSample.world1) (w_db StoreSample.world2).
Proof.
  assert (w_tx StoreSample.world1 = None) as Ht by by_eval.
  pose proof (ClaimArticle_exact StoreSample.sum32 StoreSample.fence StoreSample.article 0 0 StoreSample.world1 Ht) as H. cbv zeta in H.
  replace ((ClaimArticle StoreSample.sum32 StoreSample.fence StoreSample.article 0 0 StoreSample.world1).1)
    with (Ok (E:=proc_error) (1, StoreSample.claim_input, StoreSample.claim_token)) in H by by_eval.
  rewrite found_quiet in H by by_eval. exact H.
Defined.

Lemma SaveOutcome_exact_witness :
  outcome_saved StoreSample.lower StoreSample.sum32 StoreSample.shortest StoreSample.fence StoreSample.article 1 StoreSample.claim_token
    StoreSample.claim_input StoreSample.persisted (w_db StoreSample.world2)
    (w_db (SaveOutcome StoreSample.lower StoreSample.sum32 StoreSample.shortest StoreSample.fence StoreSample.article 1
             StoreSample.claim_token StoreSample.claim_input StoreSample.persisted StoreSample.world2).2).
Proof.
  assert (w_tx StoreSample.world2 = None) as Ht by by_eval.
  pose proof (SaveOutcome_exact StoreSample.lower StoreSample.sum32 StoreSample.shortest StoreSample.fence StoreSample.article 1
    StoreSample.claim_token StoreSample.claim_input StoreSample.persisted StoreSample.world2 Ht) as H.
  replace ((SaveOutcome StoreSample.lower StoreSample.sum32 StoreSample.shortest StoreSample.fence StoreSample.article 1
    StoreSample.claim_token StoreSample.claim_input StoreSample.persisted StoreSample.world2).1) with (Ok (E:=proc_error) tt) in H by by_eval.
  rewrite found_quiet in H by by_eval. exact H.
Defined.

Lemma outcomes_saved_once_witness :
  let '(log, w') := store_run StoreSample.lower StoreSample.sum32 StoreSample.shortest StoreSample.ops StoreSample.world0 in
  log = [("j", 1, 1)] /\ NoDup log /\ (forall k, k ∈ log -> settled k (w_db w')) /\ p_wf (w_db w') /\ p_evolves StoreSample.tables (w_db w').
Proof.
  pose proof (outcomes_saved_once StoreSample.lower StoreSample.sum32 StoreSample.shortest StoreSample.ops StoreSample.world0 eq_refl
    StoreSample.store_tables_wf (Forall_nil_2 _)) as H.
  assert ((store_run StoreSample.lower StoreSample.sum32 StoreSample.shortest StoreSample.ops StoreSample.world0).1 = [("j", 1, 1)]) as E by by_eval.
  destruct (store_run _ _ _ _ _) as [log w']. exact (conj E H).
Defined.
