(* ===== verification/ProviderClients.v ===== *)
(** * ProviderClients: the AI service and the extractor as go-processing calls them

    go-processing/internal/processing: clients.go and errors.go.  What an exchange
    over HTTP brings is a parameter ([service]): it may depend on everything that
    happened before and the tables may change meanwhile, within what the other
    services of the program do ([well_behaved]).  Every check of the clients on an
    answer is modelled, and so are the extractor's retries while it is busy and
    its second attempt with a browser.

    A context is its deadline and the instants at which it is cancelled.  Members
    that an answer repeats are read one after the other into fresh elements. *)

From S2P Require Import Prelude JsonStrict GoTime Db GoText GoDecode GoParseTime ExecutorClient QueueTables ExecPayload GoRune JobPayload.
From S2P Require Import ArticleOutcome ContentFilter ArticleStore.
From Stdlib Require Import SpecFloat.

(** [FatalProcessingError], [ErrResourceLimit] and the errors no caller tells apart *)
Inductive call_error := CallFatal (code : string) | CallResourceLimit | CallFailed (text : string).
#[export] Instance call_error_eq_dec : EqDecision call_error.
Proof. solve_decision. Defined.

Definition isFatal (e : call_error) : bool := match e with CallFatal _ => true | _ => false end.

Notation CM := (M ptables call_error).

(** ** Exchanges *)

Definition service (Q A : Type) : Type := Q -> world ptables -> A * world ptables.
Definition ask {E Q A} (s : service Q A) (q : Q) : M ptables E A := fun w => let '(a, w') := s q w in (Ok a, w').

(** A call whose error the code inspects *)
Definition inspect {D E F A} (m : M D E A) : M D F (result E A) := fun w => let '(r, w') := m w in (Ok r, w').

Record http_answer := HttpAnswer { an_status : Z; an_retry_after : string; an_encoding : string; an_body : http_body }.

(** ** Contexts *)

Record context := MkContext { cx_deadline : option Z; cx_cancelled : Z -> bool }.
Definition expired (c : context) (now : Z) : bool := match cx_deadline c with Some d => d <=? now | None => false end.
Definition Done (c : context) (now : Z) : bool := cx_cancelled c now || expired c now.
Definition WithTimeout (c : context) (now timeout : Z) : context :=
  MkContext (Some (match cx_deadline c with Some d => Z.min d (now + timeout) | None => now + timeout end)) (cx_cancelled c).
(** [deadline, ok := ctx.Deadline(); ok && time.Until(deadline) < d] *)
Definition until_below (c : context) (now d : Z) : bool := match cx_deadline c with Some t => t - now <? d | None => false end.

(** ** Values read into [any] *)

Fixpoint put (k : string) (v : value) (l : list (string * value)) : list (string * value) :=
  match l with
  | [] => [(k, v)]
  | (k', v') :: l' => if (k =? k')%string then (k, v) :: l' else (k', v') :: put k v l'
  end.

Fixpoint any_value (j : json) : option value :=
  match j with
  | JNull => Some VNull
  | JBool b => Some (VBool b)
  | JNum lit => VFloat <$> ParseFloat lit
  | JStr s => Some (VStr s)
  | JArr l => VArr <$> (fix items l := match l with
                        | [] => Some []
                        | x :: l' => y ← any_value x; ys ← items l'; Some (y :: ys)
                        end) l
  | JObj l => VObj <$> (fix members acc l := match l with
                        | [] => Some acc
                        | (k, x) :: l' => y ← any_value x; members (put k y acc) l'
                        end) [] l
  end.

(** A [map[string]any]; null makes it nil, an object adds to it. *)
Definition as_map (old : vmap) (j : json) : option vmap :=
  match j with
  | JNull => Some None
  | JObj l => Some <$> foldl (fun acc m => acc ← acc; v ← any_value m.2; Some (put m.1 v acc)) (Some (default [] old)) l
  | _ => None
  end.
Definition as_list {T} (f : json -> option T) (j : json) : option (list T) :=
  match j with JNull => Some [] | JArr l => mapM f l | _ => None end.
Definition as_pointer {T} (f : json -> option T) (j : json) : option (option T) :=
  match j with JNull => Some None | _ => Some <$> f j end.

(** [json.Unmarshal] of a whole body *)
Definition Unmarshal {T} (decode : json -> option T) (b : http_body) : option T :=
  match decode_next (bd_lexemes b) (bd_ending b) with
  | Ok (j, rest) => match decode_next rest (bd_ending b) with Err EofErr => decode j | _ => None end
  | Err _ => None
  end.

Definition maxResponseBytes : Z := 5 * 1024 * 1024.

(** ** The AI service *)

(** The input of an analysis; its keys are [content], [locales], [original_context],
    [title] and [url]. *)
Record AnalyzeInput := MkInput {
  in_title : string;
  in_content : string;
  in_url : string;
  in_locales : list string;
  in_context : option string;
}.
Inductive ai_input := InAnalyze (i : AnalyzeInput) | InContext (url : string) | InFeedback (l : list (string * value)).

Record AIRequest := MkAIRequest {
  rq_Fence : Fence;
  rq_ArticleID : Z;
  rq_ArticleAttempt : Z;
  rq_InputFingerprint : string;
  rq_Operation : string;
  rq_Input : ai_input;
}.

Definition input_text (i : AnalyzeInput) : list Z :=
  plain_object
    ([("content", quoted (in_content i))] ++
     (match in_locales i with
      | [] => []
      | ls => [("locales", [91] ++ concat (imap (fun n l => (if (n =? 0)%nat then [] else [44]) ++ quoted l) ls) ++ [93])]
      end) ++
     (match in_context i with Some c => [("original_context", quoted c)] | None => [] end) ++
     [("title", quoted (in_title i)); ("url", quoted (in_url i))]).

Record AIResult := MkAIResult {
  ai_Version : Z;
  ai_RunID : string;
  ai_ArticleID : Z;
  ai_ArticleAttempt : Z;
  ai_InputFingerprint : string;
  ai_Operation : string;
  ai_Result : vmap;
}.
Definition ai_fields : list string := ["version"; "run_id"; "article_id"; "article_attempt"; "input_fingerprint"; "operation"; "result"].
Definition set_ai_field (f : string) (v : json) (r : AIResult) : option AIResult :=
  let 'MkAIResult version run article attempt fp op res := r in
  if (f =? "version")%string then x ← as_int version v; Some (MkAIResult x run article attempt fp op res)
  else if (f =? "run_id")%string then x ← ExecutorClient.as_string run v; Some (MkAIResult version x article attempt fp op res)
  else if (f =? "article_id")%string then x ← as_int article v; Some (MkAIResult version run x attempt fp op res)
  else if (f =? "article_attempt")%string then x ← as_int attempt v; Some (MkAIResult version run article x fp op res)
  else if (f =? "input_fingerprint")%string then x ← ExecutorClient.as_string fp v; Some (MkAIResult version run article attempt x op res)
  else if (f =? "operation")%string then x ← ExecutorClient.as_string op v; Some (MkAIResult version run article attempt fp x res)
  else x ← as_map res v; Some (MkAIResult version run article attempt fp op x).

(** A nil map is [None]. *)
Notation analysis := (option (gmap string value)).

Definition retrySeconds (raw : string) : value := if (raw =? "")%string then VNull else VStr raw.

(** Statuses that mean the request itself was refused *)
Definition refused_status (s : Z) : bool := bool_decide (s ∈ [401; 403; 409; 400; 422]).

Definition read_analysis (q : AIRequest) (answer : option http_answer) : result call_error analysis :=
  match answer with
  | None => Err (CallFailed "article ai unavailable")
  | Some an =>
      if an_status an =? 429 then
        Ok (Some (<["_processing_error" := VStr "busy"]> {[ "_retry_after_seconds" := retrySeconds (an_retry_after an) ]}))
      else if an_status an =? 413 then Err CallResourceLimit
      else if refused_status (an_status an) then Err (CallFatal "article_ai_rejected")
      else if (an_status an <? 200) || (300 <=? an_status an) then Err (CallFailed "article ai rejected request")
      else if bd_failed (an_body an) || (maxResponseBytes <? bd_length (an_body an)) then Err (CallFailed "article ai response invalid")
      else match Unmarshal (unmarshal_struct ai_fields set_ai_field (MkAIResult 0 "" 0 0 "" "" None)) (an_body an) with
           | None => Err (CallFatal "article_ai_protocol")
           | Some out =>
               if negb (ai_Version out =? 1) || negb (ai_RunID out =? fe_RunID (rq_Fence q))%string ||
                  negb (ai_ArticleID out =? rq_ArticleID q) || negb (ai_ArticleAttempt out =? rq_ArticleAttempt q) ||
                  negb (ai_InputFingerprint out =? rq_InputFingerprint q)%string || negb (ai_Operation out =? rq_Operation q)%string
               then Err (CallFatal "article_ai_protocol") else Ok (list_to_map <$> ai_Result out)
           end
  end.

(** ** The extractor *)

Record ExtractorObservation := MkObservation { ob_Selector : string; ob_Method : string; ob_Success : bool }.
Record Extracted := MkExtracted {
  xt_Content : string;
  xt_Title : string;
  xt_PublicationDate : string;
  xt_ImageURL : string;
  xt_MediaFiles : list (list (string * value));
  xt_Method : string;
  xt_MethodUsed : string;
  xt_SelectorUsed : string;
  xt_Error : string;
  xt_Outcome : string;
  xt_RetryAfterSeconds : value;
  xt_Observations : list ExtractorObservation;
  xt_Retryable : bool;
  xt_Terminal : bool;
}.
(** An answer that is an error *)
Definition extraction_error (code : string) (retryable : bool) (retry : value) : Extracted :=
  MkExtracted "" "" "" "" [] "" "" "" code "" retry [] retryable false.

Record ExtractRequest := MkExtractRequest {
  xr_RequestID : string;
  xr_URL : string;
  xr_BudgetMS : Z;
  xr_MaxBytes : Z;
  xr_MaxChars : Z;
  xr_Title : string;
  xr_UseBrowser : bool;
  xr_Learned : option (string * string);    (* selector and method *)
}.
(** The request's members, by key *)
Definition extract_wire (q : ExtractRequest) : json :=
  JObj ([("budget_ms", JNum (itoa (xr_BudgetMS q)))] ++
    (match xr_Learned q with Some (selector, method) => [("learned_method", JStr method); ("learned_selector", JStr selector)] | None => [] end) ++
    [("max_bytes", JNum (itoa (xr_MaxBytes q))); ("max_chars", JNum (itoa (xr_MaxChars q))); ("request_id", JStr (xr_RequestID q));
     ("source_type", JStr "article"); ("strategy", JStr "auto"); ("title", JStr (xr_Title q)); ("url", JStr (xr_URL q));
     ("use_browser", JBool (xr_UseBrowser q))]).

(** *** Its answer *)

Definition observation_fields : list string := ["selector"; "method"; "success"].
Definition set_observation_field (f : string) (v : json) (o : ExtractorObservation) : option ExtractorObservation :=
  let 'MkObservation selector method success := o in
  if (f =? "selector")%string then x ← ExecutorClient.as_string selector v; Some (MkObservation x method success)
  else if (f =? "method")%string then x ← ExecutorClient.as_string method v; Some (MkObservation selector x success)
  else x ← as_bool success v; Some (MkObservation selector method x).
Definition as_observation : json -> option ExtractorObservation :=
  unmarshal_struct observation_fields set_observation_field (MkObservation "" "" false).

(** [envelope.Result] and [envelope.Error] *)
Record extract_result := ExtractResult {
  er_Content : string;
  er_Title : string;
  er_PublicationDate : string;
  er_ImageURL : string;
  er_Media : list vmap;
  er_Method : string;
  er_MethodUsed : string;
  er_SelectorUsed : string;
}.
Definition result_fields : list string :=
  ["content"; "title"; "publication_date"; "image_url"; "media"; "method"; "method_used"; "selector_used"].
Definition set_result_field (f : string) (v : json) (r : extract_result) : option extract_result :=
  let 'ExtractResult content title date image media method used selector := r in
  if (f =? "content")%string then x ← ExecutorClient.as_string content v; Some (ExtractResult x title date image media method used selector)
  else if (f =? "title")%string then x ← ExecutorClient.as_string title v; Some (ExtractResult content x date image media method used selector)
  else if (f =? "publication_date")%string then x ← ExecutorClient.as_string date v; Some (ExtractResult content title x image media method used selector)
  else if (f =? "image_url")%string then x ← ExecutorClient.as_string image v; Some (ExtractResult content title date x media method used selector)
  else if (f =? "media")%string then x ← as_list (as_map None) v; Some (ExtractResult content title date image x method used selector)
  else if (f =? "method")%string then x ← ExecutorClient.as_string method v; Some (ExtractResult content title date image media x used selector)
  else if (f =? "method_used")%string then x ← ExecutorClient.as_string used v; Some (ExtractResult content title date image media method x selector)
  else x ← ExecutorClient.as_string selector v; Some (ExtractResult content title date image media method used x).

Record extract_error := ExtractError { ee_Code : string; ee_Retryable : option bool; ee_RetryAfterSeconds : option Z }.
Definition error_fields : list string := ["code"; "retryable"; "retry_after_seconds"].
Definition set_error_field (f : string) (v : json) (e : extract_error) : option extract_error :=
  let 'ExtractError code retryable retry := e in
  if (f =? "code")%string then x ← ExecutorClient.as_string code v; Some (ExtractError x retryable retry)
  else if (f =? "retryable")%string then x ← as_pointer (as_bool false) v; Some (ExtractError code x retry)
  else x ← as_pointer (as_int 0) v; Some (ExtractError code retryable x).

Record extract_envelope := ExtractEnvelope {
  xe_ContractVersion : string;
  xe_RequestID : string;
  xe_OriginalURL : string;
  xe_FinalURL : string;
  xe_Outcome : string;
  xe_Result : extract_result;
  xe_Error : option extract_error;
  xe_Observations : list ExtractorObservation;
}.
Definition envelope_fields : list string :=
  ["contract_version"; "request_id"; "original_url"; "final_url"; "outcome"; "result"; "error"; "observations"].
Definition set_envelope_field (f : string) (v : json) (e : extract_envelope) : option extract_envelope :=
  let 'ExtractEnvelope version id original final outcome res err obs := e in
  if (f =? "contract_version")%string then x ← ExecutorClient.as_string version v; Some (ExtractEnvelope x id original final outcome res err obs)
  else if (f =? "request_id")%string then x ← ExecutorClient.as_string id v; Some (ExtractEnvelope version x original final outcome res err obs)
  else if (f =? "original_url")%string then x ← ExecutorClient.as_string original v; Some (ExtractEnvelope version id x final outcome res err obs)
  else if (f =? "final_url")%string then x ← ExecutorClient.as_string final v; Some (ExtractEnvelope version id original x outcome res err obs)
  else if (f =? "outcome")%string then x ← ExecutorClient.as_string outcome v; Some (ExtractEnvelope version id original final x res err obs)
  else if (f =? "result")%string then x ← unmarshal_struct result_fields set_result_field res v; Some (ExtractEnvelope version id original final outcome x err obs)
  else if (f =? "error")%string then
    x ← as_pointer (unmarshal_struct error_fields set_error_field (default (ExtractError "" None None) err)) v;
    Some (ExtractEnvelope version id original final outcome res x obs)
  else x ← as_list as_observation v; Some (ExtractEnvelope version id original final outcome res err x).
Definition empty_envelope : extract_envelope := ExtractEnvelope "" "" "" "" "" (ExtractResult "" "" "" "" [] "" "" "") None [].

Definition validOutcome (v : string) : bool := bool_decide (v ∈ ["success"; "rejected"; "failed"; "needs_selector_study"]).
Definition terminalExtractorError (code : string) : bool :=
  bool_decide (code ∈ ["resource_limit"; "invalid_input"; "unsupported_input"; "request_too_large"; "invalid_request"; "public_url_denied";
    "upstream_auth_required"; "native_browser_policy_denied"; "native_browser_unsupported"; "native_browser_challenge"; "native_browser_no_content";
    "native_browser_http_rejected"]).

Notation protocol_error := (CallFatal "extractor_protocol").

(** The members [error] and [outcome] as one code, with whether and when to retry *)
Definition error_of (outcome : string) (e : option extract_error) : result call_error (string * bool * value) :=
  '(code, retryable, retry) ← (match e with
    | None => Ok ("", false, VNull)
    | Some (ExtractError code retryable retry) =>
        match retryable with
        | None => Err protocol_error
        | Some r =>
            _ ← guard_err (code =? "")%string protocol_error;
            match retry with
            | None => Ok (code, r, VNull)
            | Some n => _ ← guard_err ((n <? 0) || (86400 <? n)) protocol_error; Ok (code, r, VInt n)
            end
        end
    end);
  Ok (if (code =? "")%string && negb (outcome =? "success")%string
      then (if (outcome =? "rejected")%string then "no_content" else if (outcome =? "needs_selector_study")%string then "needs_selector_study"
            else "extractor_failed") else code, retryable, retry).

(** A media item must have a type and a URL. *)
Definition typed_media (m : vmap) : bool :=
  match vget (default [] m) "type", vget (default [] m) "url" with Some (VStr _), Some (VStr _) => true | _, _ => false end.

Definition read_envelope (q : ExtractRequest) (e : extract_envelope) : result call_error Extracted :=
  _ ← guard_err (negb (xe_ContractVersion e =? "1")%string || negb (xe_RequestID e =? xr_RequestID q)%string ||
    negb (xe_OriginalURL e =? xr_URL q)%string || negb (validOutcome (xe_Outcome e)) || (64 <? Z.of_nat (length (xe_Observations e)))) protocol_error;
  let r := xe_Result e in
  '(code, retryable, retry) ← error_of (xe_Outcome e) (xe_Error e);
  _ ← guard_err (xr_MaxChars q <? RuneCount (er_Content r)) CallResourceLimit;
  _ ← guard_err ((xe_Outcome e =? "success")%string && blank (er_Content r)) protocol_error;
  _ ← guard_err (negb (forallb typed_media (er_Media r))) protocol_error;
  Ok (MkExtracted (er_Content r) (er_Title r) (er_PublicationDate r) (er_ImageURL r) (map (default []) (er_Media r)) (er_Method r)
    (if (er_MethodUsed r =? "")%string then er_Method r else er_MethodUsed r) (er_SelectorUsed r) code (xe_Outcome e) retry
    (xe_Observations e) retryable (terminalExtractorError code)).

Definition read_extracted `{Unicode} (q : ExtractRequest) (answer : option http_answer) : result call_error Extracted :=
  match answer with
  | None => Err (CallFailed "extractor unavailable")
  | Some an =>
      let s := an_status an in
      if negb (s =? 200) then
        if s =? 429 then Ok (extraction_error "busy" true (retrySeconds (an_retry_after an)))
        else if s =? 413 then Err CallResourceLimit
        else if refused_status s then Err (CallFatal "extractor_rejected")
        else Ok (extraction_error "http_error" ((s =? 502) || (s =? 503) || (s =? 504)) VNull)
      else
        let enc := ToLower (an_encoding an) in
        if negb (enc =? "")%string && negb (enc =? "identity")%string then Err protocol_error
        else if bd_failed (an_body an) || (xr_MaxBytes q <? bd_length (an_body an)) then Err CallResourceLimit
        else match Unmarshal (unmarshal_struct envelope_fields set_envelope_field empty_envelope) (an_body an) with
             | None => Err protocol_error
             | Some e => read_envelope q e
             end
  end.

(** *** The attempts *)

(** [*http.Client] apart, the fields of [ExtractorClient] *)
Record ExtractorClient := MkExtractorClient {
  ec_MaxBytes : Z;
  ec_UseBrowser : bool;
  ec_BrowserMaxBytes : Z;
  ec_AttemptTimeout : Z;
  ec_TotalBudget : Z;
}.

Definition appendObservationSets (first second : list ExtractorObservation) : list ExtractorObservation := take 64 (first ++ second).

Definition retryAfterDuration (v : value) : option Z :=
  seconds ← (match v with VStr s => ParseFloat s | VInt n => Some (binary64 n) | VFloat f => Some f | _ => None end);
  if SFltb seconds (binary64 0) || SFltb (binary64 86400) seconds then None
  else Some (float_trunc (SFmul 53 1024 seconds (binary64 Second))).

Definition browserLearnedMethod (method : string) : bool :=
  bool_decide (method ∈ ["browser_rendering"; "browser_heuristics"; "learned_pattern_browser_rendering"; "learned_pattern_browser_heuristics"]).
Definition nativeBrowserRetryAllowed (code : string) : bool :=
  bool_decide (code ∈ ["browser_required"; "no_content"; "needs_selector_study"; "upstream_forbidden"; "challenge"; "invalid_content"]).

Section Clients.
Context `{Unicode} `{Urls}.
Context (sha256 : list Z -> list Z).
Context (ai : service AIRequest (option http_answer)) (extractor : service ExtractRequest (option http_answer)).
(** Whether the extractor's single slot was had before the context ended; at most
    eight callers wait for it ([admission] below). *)
Context (admitted : service context bool).

Definition InputFingerprint (i : AnalyzeInput) : string := sha256_hex sha256 (input_text i).

Definition Call (f : Fence) (article attempt : Z) (fp op : string) (input : ai_input) : CM analysis :=
  let q := MkAIRequest f article attempt fp op input in
  answer ← ask ai q;
  lift (read_analysis q answer).

Definition browserEligible (raw : string) : bool :=
  match url_parse raw with
  | None => false
  | Some u => EqualFold (u_Scheme u) "https" && negb (u_Hostname u =? "")%string && ((u_Port u =? "")%string || (u_Port u =? "443")%string)
  end.

Definition extractOnce (c : context) (rawURL title selector method : string) (maxChars : Z) (useBrowser : bool) (maxBytes : Z) : CM Extracted :=
  let maxChars := if (maxChars <? 1) || (100000 <? maxChars) then 100000 else maxChars in
  now ← app_now;
  budget ← (if until_below c now (30 * Second) then now ← app_now; mret (default 0 (cx_deadline c) - now) else mret (30 * Second));
  _ ← guard_m (budget <=? 0) (CallFailed "extractor deadline exceeded");
  random ← rand_read (CallFailed "extractor request id unavailable");
  let q := MkExtractRequest (uuid_format (byte16 random)) rawURL (Z.max 1 (Z.min 30000 (budget / Millisecond))) maxBytes maxChars title useBrowser
             (if negb (selector =? "")%string || negb (method =? "")%string then Some (selector, method) else None) in
  _ ← guard_m (maxBytes <? len (marshal (extract_wire q))) (CallFailed "extractor request too large");
  answer ← ask extractor q;
  lift (read_extracted q answer).

Definition admittedAttempt (x : ExtractorClient) (c : context) (rawURL title selector method : string) (maxChars : Z) (useBrowser : bool) (maxBytes : Z) : CM Extracted :=
  had ← ask admitted c;
  if had : bool then
    let attempt := if (ec_AttemptTimeout x <=? 0) || (30 * Second <? ec_AttemptTimeout x) then 30 * Second else ec_AttemptTimeout x in
    now ← app_now;
    extractOnce (WithTimeout c now attempt) rawURL title selector method maxChars useBrowser maxBytes
  else mret (extraction_error "busy" true VNull).

Definition classifyInvalidSuccessfulContent (r : Extracted) (maxChars : Z) : Extracted :=
  if (xt_Error r =? "")%string && (xt_Outcome r =? "success")%string && negb (isGoodExtractionContent (xt_Content r) maxChars) then
    MkExtracted "" "" "" "" [] (xt_Method r) (xt_MethodUsed r) (xt_SelectorUsed r) "invalid_content" "rejected" (xt_RetryAfterSeconds r)
      (map (fun o => MkObservation (ob_Selector o) (ob_Method o) false) (xt_Observations r)) true (xt_Terminal r)
  else r.

(** The loop while the extractor is busy, [n] rounds at most.  Its result and
    whether the caller returns it as it is. *)
Fixpoint busy_rounds (n : nat) (c : context) (attempt : CM Extracted) (r : Extracted) : CM (Extracted * bool) :=
  match n with
  | O => mret (r, false)
  | S n =>
      if negb (xt_Error r =? "busy")%string then mret (r, false)
      else match retryAfterDuration (xt_RetryAfterSeconds r) with
           | None => mret (r, true)
           | Some delay =>
               now ← app_now;
               if until_below c now delay then mret (r, true)
               else
                 woken ← app_now;
                 if Done c woken then mret (extraction_error "busy" true VNull, true)
                 else r ← attempt; busy_rounds n c attempt r
           end
  end.

Definition Extract (x : ExtractorClient) (c : context) (rawURL title sourceType selector method : string) (maxChars : Z) : CM Extracted :=
  let maxBytes := if (ec_MaxBytes x <? 1) || (maxResponseBytes <? ec_MaxBytes x) then maxResponseBytes else ec_MaxBytes x in
  let totalBudget := if (ec_TotalBudget x <=? 0) || (10 * Minute <? ec_TotalBudget x) then 120 * Second else ec_TotalBudget x in
  now ← app_now;
  let total := WithTimeout c now totalBudget in
  let '(firstSelector, firstMethod) := if browserLearnedMethod method then ("", "") else (selector, method) in
  let attempt := r ← admittedAttempt x total rawURL title firstSelector firstMethod maxChars false maxBytes;
                 mret (classifyInvalidSuccessfulContent r maxChars) in
  first ← attempt;
  '(r, done) ← busy_rounds 8 total attempt first;
  if done || (xt_Error r =? "busy")%string || negb (ec_UseBrowser x) || negb (browserEligible rawURL) || negb (nativeBrowserRetryAllowed (xt_Error r))
  then mret r
  else
    let browserBytes := if (ec_BrowserMaxBytes x <=? 0) || (maxResponseBytes <? ec_BrowserMaxBytes x) then maxBytes else ec_BrowserMaxBytes x in
    second ← admittedAttempt x total rawURL title selector method maxChars true browserBytes;
    let second := classifyInvalidSuccessfulContent second maxChars in
    mret (MkExtracted (xt_Content second) (xt_Title second) (xt_PublicationDate second) (xt_ImageURL second) (xt_MediaFiles second) (xt_Method second)
      (xt_MethodUsed second) (xt_SelectorUsed second) (xt_Error second) (xt_Outcome second) (xt_RetryAfterSeconds second)
      (appendObservationSets (xt_Observations r) (xt_Observations second)) (xt_Retryable second) (xt_Terminal second)).
End Clients.

(** ** The slot of [admittedAttempt]

    A caller finds the slot free, or is counted as a waiter if there are fewer
    than eight, or is answered "busy"; a waiter gets the slot or gives up and is
    counted no longer. *)

Record admission := MkAdmission { ad_taken : bool; ad_waiters : Z }.
Inductive admission_event := Enter | Acquire | Uncount | Leave.

(** Whether the caller may go on to wait or to run, and the state afterwards. *)
Definition admission_step (s : admission) (e : admission_event) : bool * admission :=
  match e with
  | Enter =>
      if negb (ad_taken s) then (true, MkAdmission true (ad_waiters s))
      else if 8 <=? ad_waiters s then (false, s)
      else (true, MkAdmission true (ad_waiters s + 1))
  | Acquire => if ad_taken s then (false, s) else (true, MkAdmission true (ad_waiters s))
  | Uncount => (true, MkAdmission (ad_taken s) (ad_waiters s - 1))
  | Leave => (true, MkAdmission false (ad_waiters s))
  end.

Lemma waiters_bounded es s : ad_waiters s <= 8 -> ad_waiters (foldl (fun s e => (admission_step s e).2) s es) <= 8.
Proof.
  revert s. induction es as [|e es IH]; intros s Hs; [done|]. cbn [foldl]. apply IH. destruct e; simpl; repeat case_match; simpl; bool_to_prop; lia.
Qed.

(** ** What a call returns when it returns *)

Section Returns.
Context {D E : Type}.
Definition returns {A} (m : M D E A) (P : A -> Prop) : Prop := forall w a, (m w).1 = Ok a -> P a.

Lemma returns_ret {A} (a : A) (P : A -> Prop) : P a -> returns (mret a) P.
Proof. by intros H w a' [= <-]. Qed.
Lemma returns_raise {A} e (P : A -> Prop) : returns (raise e) P.
Proof. by intros w a. Qed.
Lemma returns_lift {A} (r : result E A) (P : A -> Prop) : (forall a, r = Ok a -> P a) -> returns (lift r) P.
Proof. intros H w a Ha. by apply H. Qed.
Lemma returns_bind {A B} (R : A -> Prop) (m : M D E A) (k : A -> M D E B) P :
  returns m R -> (forall a, R a -> returns (k a) P) -> returns (m ≫= k) P.
Proof.
  intros Hm Hk w b. specialize (Hm w). unfold mbind, M_bind. destruct (m w) as [[a|e] w']; [|done]. by apply Hk, Hm.
Qed.
Lemma returns_next {A B} (m : M D E A) (k : A -> M D E B) P : (forall a, returns (k a) P) -> returns (m ≫= k) P.
Proof. intros Hk. by apply (returns_bind (fun _ => True)). Qed.
Lemma returns_guard {B} bad e (k : unit -> M D E B) P : (bad = false -> returns (k tt) P) -> returns (guard_m bad e ≫= k) P.
Proof. intros Hk. destruct bad; [by intros w b|]. by apply Hk. Qed.
End Returns.

Section Sound.
Context `{Unicode} `{Urls}.

(** What the caller may rely on in an extraction's result. *)
Record extraction_ok (maxChars : Z) (r : Extracted) : Prop := {
  xo_content : xt_Error r = "" -> xt_Outcome r = "success" /\ isGoodExtractionContent (xt_Content r) maxChars = true;
  xo_terminal : xt_Terminal r = true -> terminalExtractorError (xt_Error r) = true;
  xo_media : Forall (fun m => exists t u, vget m "type" = Some (VStr t) /\ vget m "url" = Some (VStr u)) (xt_MediaFiles r);
  xo_observations : (length (xt_Observations r) <= 64)%nat;
}.
(** ... before the content was looked at *)
Record extraction_read (r : Extracted) : Prop := {
  xd_outcome : xt_Error r = "" -> xt_Outcome r = "success";
  xd_terminal : xt_Terminal r = true -> terminalExtractorError (xt_Error r) = true;
  xd_media : Forall (fun m => exists t u, vget m "type" = Some (VStr t) /\ vget m "url" = Some (VStr u)) (xt_MediaFiles r);
  xd_observations : (length (xt_Observations r) <= 64)%nat;
}.

Lemma error_read code retryable retry : code <> "" -> extraction_read (extraction_error code retryable retry).
Proof. intros Hc. split; [done|done|constructor|simpl; lia]. Qed.
Lemma error_ok maxChars code retryable retry : code <> "" -> extraction_ok maxChars (extraction_error code retryable retry).
Proof. intros Hc. split; [done|done|constructor|simpl; lia]. Qed.

Lemma error_of_outcome outcome e code retryable retry : error_of outcome e = Ok (code, retryable, retry) -> code = "" -> outcome = "success".
Proof.
  unfold error_of. intros H1 Hc. ok_inv. destruct x as [[c r] t]. ok_inv.
  destruct (c =? "")%string eqn:E1; [|by apply String.eqb_neq in E1]. destruct (outcome =? "success")%string eqn:E2; [by apply String.eqb_eq|].
  cbn [negb andb] in H. destruct (outcome =? "rejected")%string; [done|]. by destruct (outcome =? "needs_selector_study")%string.
Qed.

Lemma read_envelope_read q e r : read_envelope q e = Ok r -> extraction_read r.
Proof.
  unfold read_envelope. intros Hr. apply result_bind_ok in Hr as ([] & Hg & Hr). apply guard_err_ok in Hg.
  apply result_bind_ok in Hr as ([[code retryable] retry] & He & Hr). apply result_bind_ok in Hr as ([] & _ & Hr).
  apply result_bind_ok in Hr as ([] & _ & Hr). apply result_bind_ok in Hr as ([] & Hm & Hr). apply guard_err_ok in Hm. injection Hr as <-.
  split; cbn.
  - by eapply error_of_outcome.
  - done.
  - apply Forall_forall. intros m (v & -> & Hv)%list_elem_of_fmap. apply negb_false_iff in Hm. rewrite forallb_forall in Hm.
    specialize (Hm v (proj1 (list_elem_of_In _ _) Hv)). unfold typed_media in Hm. destruct (vget (default [] v) "type") as [[| | | |t| | |]|]; try done.
    destruct (vget (default [] v) "url") as [[| | | |u| | |]|]; try done. by exists t, u.
  - apply orb_false_iff in Hg as [_ Hg]. bool_to_prop. lia.
Qed.

Lemma read_extracted_read q answer r : read_extracted q answer = Ok r -> extraction_read r.
Proof.
  unfold read_extracted. destruct answer as [an|]; [|done]. cbv zeta. destruct (negb (_ =? 200)).
  - destruct (_ =? 429); [intros [= <-]; by apply error_read|]. destruct (_ =? 413); [done|]. destruct (refused_status _); [done|].
    intros [= <-]. by apply error_read.
  - destruct (_ && _); [done|]. destruct (_ || _); [done|]. destruct (Unmarshal _ _); [|done]. apply read_envelope_read.
Qed.

Lemma classified maxChars r : extraction_read r -> extraction_ok maxChars (classifyInvalidSuccessfulContent r maxChars).
Proof.
  intros [H1 H2 H3 H4]. unfold classifyInvalidSuccessfulContent. destruct (_ && _ && _) eqn:E.
  - split; cbn; [done| |constructor|by rewrite length_map]. apply andb_true_iff in E as [E _]. apply andb_true_iff in E as [E _].
    apply String.eqb_eq in E. intros Ht%H2. by rewrite E in Ht.
  - split; [|done..]. intros He. specialize (H1 He). split; [done|]. rewrite He, H1, !String.eqb_refl in E. cbn [andb] in E. by apply negb_false_iff.
Qed.
End Sound.

Section Extraction.
Context `{Unicode} `{Urls}.
Context (extractor : service ExtractRequest (option http_answer)) (admitted : service context bool).

Lemma extractOnce_read c u t s m n b y : returns (extractOnce extractor c u t s m n b y) extraction_read.
Proof.
  unfold extractOnce. cbv zeta. apply returns_next. intros now. apply returns_next. intros budget. apply returns_guard. intros _.
  apply returns_next. intros random. apply returns_guard. intros _. apply returns_next. intros answer. apply returns_lift, read_extracted_read.
Qed.
Lemma admittedAttempt_read x c u t s m n b y : returns (admittedAttempt extractor admitted x c u t s m n b y) extraction_read.
Proof.
  unfold admittedAttempt. apply returns_next. intros [].
  - cbv zeta. apply returns_next. intros now. apply extractOnce_read.
  - by apply returns_ret, error_read.
Qed.
Lemma busy_rounds_ok n c attempt r maxChars :
  returns attempt (extraction_ok maxChars) -> extraction_ok maxChars r -> returns (busy_rounds n c attempt r) (fun a => extraction_ok maxChars a.1).
Proof.
  intros Ha. revert r. induction n as [|n IH]; intros r Hr; cbn [busy_rounds]; [by apply returns_ret|].
  destruct (negb _); [by apply returns_ret|]. destruct (retryAfterDuration _) as [delay|]; [|by apply returns_ret].
  apply returns_next. intros now. destruct (until_below _ _ _); [by apply returns_ret|]. apply returns_next. intros woken.
  destruct (Done _ _); [by apply returns_ret, error_ok|]. apply (returns_bind (extraction_ok maxChars)); [done|]. intros r' Hr'. by apply IH.
Qed.

(** What an extraction brings.  Whatever the extractor answers, and however
    often it is asked, a result without an error has content that passed the test
    of good content; one that is terminal has one of the terminal codes; every
    media item has a type and a URL; and there are at most 64 observations. *)
Theorem Extract_sound x c rawURL title sourceType selector method maxChars w r :
  (Extract extractor admitted x c rawURL title sourceType selector method maxChars w).1 = Ok r -> extraction_ok maxChars r.
Proof.
  enough (returns (Extract extractor admitted x c rawURL title sourceType selector method maxChars) (extraction_ok maxChars)) as Hr by by apply Hr.
  unfold Extract. cbv zeta. apply returns_next. intros now. destruct (if browserLearnedMethod method then _ else _) as [s m].
  match goal with |- returns (mbind _ ?m) _ => set (attempt := m) end.
  assert (returns attempt (extraction_ok maxChars)) as Ha.
  { subst attempt. apply (returns_bind extraction_read); [apply admittedAttempt_read|]. intros a Hx. by apply returns_ret, classified. }
  apply (returns_bind (extraction_ok maxChars)); [exact Ha|]. intros first Hf.
  apply (returns_bind (fun a => extraction_ok maxChars a.1)); [by apply busy_rounds_ok|]. intros [r1 stop] Hr1. cbn [fst] in Hr1.
  match goal with |- returns (if ?b then _ else _) _ => destruct b end; [by apply returns_ret|].
  apply (returns_bind extraction_read); [apply admittedAttempt_read|]. intros r2 Hr2.
  apply returns_ret. destruct (classified maxChars r2 Hr2) as [H1 H2 H3 H4]. split; [exact H1|exact H2|exact H3|].
  cbn. unfold appendObservationSets. rewrite length_take. lia.
Qed.
End Extraction.

(** ** Witness *)

Module ClientSample.
#[local] Instance ascii : Unicode := {
  ToLower s := string_of (map lower_byte (bytes_of s)); unicode_Latin := between 65 122; unicode_Cyrillic := between 1024 1279
}.
#[local] Instance urls : Urls := { url_parse s := if HasPrefix s "https://a.example" then Some (UrlParts "https" "a.example" "" "/") else None }.
Definition url := "https://a.example/1".
Definition article : string :=
  "The council of the city approved the plan on Monday after a long debate. The new bridge will cross the river next to the old one, which remains open for pedestrians and cyclists. Engineers expect that construction starts next spring and ends within three years.".
Definition body (j : json) : http_body := HttpBody false 1000 (lex_of j) AtEof.
(** The first answer asks to come back in two seconds. *)
Definition answer (q : ExtractRequest) : json :=
  JObj [("contract_version", JStr "1"); ("request_id", JStr (xr_RequestID q)); ("original_url", JStr (xr_URL q)); ("final_url", JStr (xr_URL q));
        ("outcome", JStr "success"); ("error", JNull);
        ("result", JObj [("content", JStr article); ("method", JStr "readability"); ("media", JArr [JObj [("type", JStr "image"); ("url", JStr "https://a.example/p.png")]])]);
        ("observations", JArr [JObj [("selector", JStr "article"); ("method", JStr "readability"); ("success", JBool true)]])].
Definition extractor : service ExtractRequest (option http_answer) := fun q w =>
  (Some (if w_now w <? Second then HttpAnswer 429 "2" "" (body JNull) else HttpAnswer 200 "" "" (body (answer q))), World (w_db w) (w_tx w) (w_now w + Second) (w_env w)).
Definition admitted : service context bool := fun _ w => (true, w).
Definition client : ExtractorClient := MkExtractorClient 0 true 0 0 0.
Definition empty_tables : ptables := PTables (QTables ∅ None ∅ None None ∅ ∅) ∅ ∅ ∅ ∅ ∅ ∅ ∅ ∅ ∅.
Definition background : context := MkContext None (fun _ => false).
Definition run := Extract extractor admitted client background url "" "rss" "" "" 100000 (World empty_tables None 0 []).
End ClientSample.
#[local] Existing Instance ClientSample.ascii.
#[local] Existing Instance ClientSample.urls.

Lemma Extract_sound_witness :
  exists r, ClientSample.run.1 = Ok r /\ xt_Content r = ClientSample.article /\ extraction_ok 100000 r.
Proof.
  assert (exists r, ClientSample.run.1 = Ok r /\ xt_Content r = ClientSample.article) as (r & E & Hc).
  { vm_compute. eexists. split; reflexivity. }
  exists r. split; [exact E|]. split; [exact Hc|]. unfold ClientSample.run in E.
  exact (Extract_sound ClientSample.extractor ClientSample.admitted ClientSample.client ClientSample.background ClientSample.url "" "rss" "" "" 100000 _ r E).
Defined.

(** ** What exchanges leave alone *)

(** The other side of an exchange, and everything else that happens meanwhile,
    changes the tables only as the news services do, and leaves no transaction of
    this process open. *)
Record well_behaved {Q A} (s : service Q A) : Prop := {
  wb_keeps : forall q d0 w, inv_from p_evolves d0 w -> inv_from p_evolves d0 (s q w).2;
  wb_closed : forall q w, w_tx w = None -> w_tx (s q w).2 = None;
}.

Notation pkeeps := (keeps p_evolves).

Section Effects.
Context {E : Type}.

Lemma ask_keeps {Q A} (s : service Q A) q : well_behaved s -> pkeeps (ask (E:=E) s q).
Proof. intros [Hs _] d0 w Hw. specialize (Hs q d0 w Hw). unfold ask. by destruct (s q w). Qed.
Lemma ask_closed {Q A} (s : service Q A) q : well_behaved s -> closed (ask (E:=E) s q).
Proof. intros [_ Hs] w Hw. specialize (Hs q w Hw). unfold ask. by destruct (s q w). Qed.

Lemma inspect_keeps {F A} (m : M ptables F A) : pkeeps m -> pkeeps (inspect (F:=E) m).
Proof. intros Hm d0 w Hw. specialize (Hm d0 w Hw). unfold inspect. by destruct (m w). Qed.
Lemma inspect_closed {F A} (m : M ptables F A) : closed m -> closed (inspect (F:=E) m).
Proof. intros Hm w Hw. specialize (Hm w Hw). unfold inspect. by destruct (m w). Qed.
Lemma rwp_inspect {F A} (m : M ptables F A) (Q : result E (result F A) -> ptables -> Prop) d :
  rwp p_evolves m (fun r d' => Q (Ok r) d') d -> rwp p_evolves (inspect m) Q d.
Proof. intros Hm w H1 H2 H3. specialize (Hm w H1 H2 H3). unfold inspect. by destruct (m w). Qed.

Lemma app_now_closed : closed (app_now (D:=ptables) (E:=E)).
Proof. intros w Hw. unfold app_now, next_event. simpl. by rewrite Hw. Qed.
Lemma rand_closed e : closed (rand_read (D:=ptables) (E:=E) e).
Proof. intros w Hw. unfold rand_read, next_event. simpl. destruct (ev_fault _); simpl; by rewrite Hw. Qed.
End Effects.
#[export] Hint Resolve ask_keeps ask_closed inspect_keeps inspect_closed app_now_closed rand_closed : news.

(** What calls of the program keep, by name *)
Create HintDb effects discriminated.

(** Every branch of a call keeps the tables' rules and closes its transactions. *)
Ltac effects :=
  repeat first
    [ progress cbv zeta | solve [eauto 2 with effects nocore]
    | apply keeps_bind; [|intros ?] | apply closed_bind; [|intros ?]
    | apply keeps_ret | apply closed_ret | apply keeps_raise | apply closed_raise | apply keeps_lift | apply closed_lift
    | apply keeps_guard | apply closed_guard | apply keeps_app_now | apply app_now_closed | apply keeps_rand | apply rand_closed
    | apply inspect_keeps | apply inspect_closed
    | (apply ask_keeps; assumption) | (apply ask_closed; assumption)
    | assumption | solve [eauto 3 with news]
    | match goal with
      | |- keeps _ (match ?x with _ => _ end) => destruct x
      | |- closed (match ?x with _ => _ end) => destruct x
      end ].

Section ClientEffects.
Context `{Unicode} `{Urls}.
Context (ai : service AIRequest (option http_answer)) (extractor : service ExtractRequest (option http_answer)) (admitted : service context bool).
Context (Hai : well_behaved ai) (Hex : well_behaved extractor) (Had : well_behaved admitted).

Lemma Call_keeps f article attempt fp op input : pkeeps (Call ai f article attempt fp op input).
Proof using Hai. unfold Call. effects. Qed.
Lemma Call_closed f article attempt fp op input : closed (Call ai f article attempt fp op input).
Proof using Hai. unfold Call. effects. Qed.

Lemma admittedAttempt_keeps x c u t s m n b y : pkeeps (admittedAttempt extractor admitted x c u t s m n b y).
Proof using Hex Had. unfold admittedAttempt, extractOnce. effects. Qed.
Lemma admittedAttempt_closed x c u t s m n b y : closed (admittedAttempt extractor admitted x c u t s m n b y).
Proof using Hex Had. unfold admittedAttempt, extractOnce. effects. Qed.
#[local] Hint Resolve admittedAttempt_keeps admittedAttempt_closed : effects.

Lemma busy_rounds_keeps n c attempt r : pkeeps attempt -> pkeeps (busy_rounds n c attempt r).
Proof. intros Ha. revert r. induction n as [|n IH]; intros r; cbn [busy_rounds]; effects. Qed.
Lemma busy_rounds_closed n c attempt r : closed attempt -> closed (busy_rounds n c attempt r).
Proof. intros Ha. revert r. induction n as [|n IH]; intros r; cbn [busy_rounds]; effects. Qed.

Lemma Extract_keeps x c u t st s m n : pkeeps (Extract extractor admitted x c u t st s m n).
Proof using Hex Had. unfold Extract. effects. apply busy_rounds_keeps. effects. Qed.
Lemma Extract_closed x c u t st s m n : closed (Extract extractor admitted x c u t st s m n).
Proof using Hex Had. unfold Extract. effects. apply busy_rounds_closed. effects. Qed.
End ClientEffects.
#[export] Hint Resolve Call_keeps Call_closed Extract_keeps Extract_closed : effects.
#[export] Hint Resolve UpdateItemFingerprint_keeps SaveOutcome_keeps RecordCategoryMappingFailure_keeps ClaimArticle_keeps RecoverClaims_keeps
  RecoverExhausted_keeps SelectDue_keeps CanonicalJob_keeps ClaimLocalizationRetry_keeps SaveLocalizationRetry_keeps Cancel_keeps FailRun_keeps
  FinishRun_keeps FenceTx_keeps : effects.

(** ** The result and the effects of code outside transactions *)

Section Ends.
Context {D E : Type}.
Definition ends {A} (m : M D E A) (P : A -> Prop) (R : E -> Prop) : Prop := forall w, match (m w).1 with Ok a => P a | Err e => R e end.

Lemma ends_ret {A} (a : A) (P : A -> Prop) R : P a -> ends (mret a) P R.
Proof. by intros H w. Qed.
Lemma ends_raise {A} e (P : A -> Prop) (R : E -> Prop) : R e -> ends (raise e) P R.
Proof. by intros H w. Qed.
Lemma ends_lift {A} (r : result E A) (P : A -> Prop) R : match r with Ok a => P a | Err e => R e end -> ends (lift r) P R.
Proof. by intros H w. Qed.
Lemma ends_bind {A B} (T : A -> Prop) (m : M D E A) (k : A -> M D E B) P R :
  ends m T R -> (forall a, T a -> ends (k a) P R) -> ends (m ≫= k) P R.
Proof. intros Hm Hk w. specialize (Hm w). unfold mbind, M_bind. destruct (m w) as [[a|e] w']; [|done]. by apply Hk. Qed.
(** A step that cannot fail and of which nothing is known *)
Lemma ends_inspect {F A B} (m : M D F A) (k : result F A -> M D E B) P R : (forall r, ends (k r) P R) -> ends (inspect m ≫= k) P R.
Proof. intros Hk w. unfold inspect, mbind, M_bind. destruct (m w) as [r w']. apply Hk. Qed.
Lemma ends_app_now {B} (k : Z -> M D E B) P R : (forall r, ends (k r) P R) -> ends (app_now ≫= k) P R.
Proof. intros Hk w. unfold app_now, mbind, M_bind. destruct (next_event w) as [ev w']. apply Hk. Qed.
End Ends.

Section RwpMore.
Context {D E : Type} (G : D -> D -> Prop) `{!PreOrder G}.

(** Code of which the results and the effects are known apart *)
Lemma rwp_ends {A} (m : M D E A) (P : A -> Prop) (R : E -> Prop) (Q : result E A -> D -> Prop) d :
  ends m P R -> keeps G m -> closed m ->
  (forall r d', G d d' -> match r with Ok a => P a | Err e => R e end -> Q r d') -> rwp G m Q d.
Proof using Type*.
  intros He Hk Hc HQ w Hd Ht Hr. pose proof (rwp_keeps G m (fun _ d' => G d d') d Hk Hc (fun _ _ H => H) w Hd Ht Hr) as (H1 & H2 & H3).
  split_and!; [|done|done]. apply HQ; [done|]. apply He.
Qed.

Lemma rwp_app_now {B} (k : Z -> M D E B) (Q : result E B -> D -> Prop) d :
  (forall now d', G d d' -> rwp G (k now) Q d') -> rwp G (app_now ≫= k) Q d.
Proof using Type*.
  intros Hk w <- Ht Hr. unfold app_now, mbind, M_bind. destruct (next_event w) as [ev w1] eqn:Hn.
  destruct (rely_step G _ _ _ Hn Ht Hr) as (H1 & H2 & H3). by apply (Hk (ev_app ev) (w_db w1) H1 w1).
Qed.

(** A call of which only what it keeps is known, its error handled by the caller *)
Lemma rwp_inspected {F A B} (m : M D F A) (k : result F A -> M D E B) (Q : result E B -> D -> Prop) d :
  keeps G m -> closed m -> (forall r d', G d d' -> rwp G (k r) Q d') -> rwp G (inspect m ≫= k) Q d.
Proof using Type*.
  intros Hm Hc Hk w <- Ht Hr. unfold inspect, mbind, M_bind.
  destruct (rwp_keeps G m (fun _ d' => G (w_db w) d') (w_db w) Hm Hc (fun _ _ H => H) w eq_refl Ht Hr) as (H1 & H2 & H3).
  destruct (m w) as [r w1]. by apply (Hk r (w_db w1) H1 w1).
Qed.
End RwpMore.
