(* ===== verification/ArticleRun.v ===== *)
(** * ArticleRun: one attempt to process an article

    go-processing/internal/processing/runner.go: [processOne] with [extract] and
    [finish], over the store, the AI service and the extractor.

    The body of [processOne] ends in the many places where the code returns
    [p.finish(...)]: here it runs in the monad of [leave], whose errors are those
    returns ([Finish], with the fingerprint of that moment) and the returns of an
    error ([Abandon]); [processOne] then does what the return statement says.
    The cache of recent texts is shared with the other articles of a batch:
    [others] is what they do to it while the store is asked for a hash.  Whether
    the attempt's own deadline has passed is read from the clock at that moment.

    Parameters: SHA-256, the server's [lower], strconv's shortest decimals,
    [time.Parse] with the layouts of [parseDate], the quality score's wire form. *)

From S2P Require Import Prelude JsonStrict GoTime Db GoText GoDecode GoParseTime ExecutorClient QueueTables ExecPayload GoRune JobPayload.
From S2P Require Import ArticleOutcome ContentFilter MediaFiles ArticleStore ProviderClients.
From Stdlib Require Import SpecFloat.

Inductive run_error :=
| RunStore (e : proc_error)
| RunCall (e : call_error)
| RunText (s : string)
| RunDone                         (* [ctx.Err()] *)
| RunOutOfFuel                    (* of the model only, see [ProcessingRun] *)
| RunPhase (phase : string) (e : run_error).

Notation RM := (M ptables run_error).

(** [OperationalSnapshot] apart, the fields of [Processor] *)
Record Processor := MkProcessor {
  ps_Extractor : option ExtractorClient;
  ps_MaxBatch : Z;
  ps_MaxAttempts : Z;
  ps_TextLimit : Z;
  ps_CycleMax : Z;
  ps_PerSourceLimit : Z;
  ps_DateFrom : option Z;
  ps_DateTo : option Z;
  ps_AttemptTimeout : Z;
  ps_RetryInitial : Z;
  ps_RetryLater : Z;
}.
Definition timeout (p : Processor) : Z := if 0 <? ps_AttemptTimeout p then ps_AttemptTimeout p else 10 * Minute.
Definition textLimit (p : Processor) : Z := if 0 <? ps_TextLimit p then ps_TextLimit p else 100000.
Definition maxAttempts (p : Processor) : Z := if 0 <? ps_MaxAttempts p then ps_MaxAttempts p else 3.
Definition limits (p : Processor) : Limits := MkLimits (maxAttempts p) (ps_RetryInitial p) (ps_RetryLater p).

Notation fields := (gmap string field).

(** Where [processOne] returns *)
Inductive leave := Finish (fp : string) (o : Outcome) | Abandon (e : run_error).
Notation LM := (M ptables leave).

Definition retry_later (fields : fields) (code : string) : Outcome := outcome StateRetryWait fields code.
Definition reject (fields : fields) (code : string) : Outcome := outcome StateRejected fields code.

(** [errors.Is(err, context.DeadlineExceeded)] holds for none of the clients' errors. *)
Definition errorCode (_ : call_error) : string := "processing_error".

(** What is left to do for an article *)
Record stages := MkStages { sg_summary : bool; sg_category : bool; sg_ad : bool }.

Definition stages_of (a : Article) (force preserve : bool) : stages :=
  let done := MkStages (ar_SummaryProcessed a && negb (blank (ar_Summary a))) (ar_CategoryProcessed a) (ar_AdProcessed a) in
  if force && negb preserve then MkStages false false false else done.

(** What the phases of [processOne] hand on. *)
Record progress := MkProgress {
  pg_content : string;
  pg_fields : fields;
  pg_fp : string;
  pg_fresh : bool;          (* ordinaryFreshAccepted *)
}.
Definition with_content (content : string) (p : progress) : progress := MkProgress content (pg_fields p) (pg_fp p) (pg_fresh p).
Definition with_fp (fp : string) (p : progress) : progress := MkProgress (pg_content p) (pg_fields p) fp (pg_fresh p).

Section Processing.
Context `{Unicode} `{Urls} `{References} `{TextTables}.
Context (pg_lower : string -> string) (sha256 : list Z -> list Z) (shortest : spec_float -> string).
Context (ai : service AIRequest (option http_answer)) (extractor : service ExtractRequest (option http_answer)) (admitted : service context bool).
(** The wall clock [time.Parse(layout, value)] reads, as an instant of UTC *)
Context (time_parse : string -> string -> option Z).
Context (others : DuplicateCache -> DuplicateCache).

(** ** Before anything is asked *)

Record plan := MkPlan {
  pl_stages : stages;
  pl_content : string;
  pl_media : string;           (* mediaContent *)
  pl_forceMode : bool;
  pl_forceExtract : bool;
  pl_fields : fields;
}.

Definition planned (p : Processor) (a : Article) (force preserve : bool) : Outcome + plan :=
  let s := stages_of a force preserve in
  if sg_ad s && bool_decide (ar_IsAdvertisement a = Some true) then inl (reject ∅ "advertisement")
  else if sg_summary s && sg_category s && sg_ad s then inl (outcome StateCompleted ∅ "")
  else
    let content := if sg_summary s then ar_Summary a else ar_Content a in
    let forceMode := force && (negb preserve || (negb (sg_summary s) && negb (sg_category s) && negb (sg_ad s))) in
    let forceExtract := forceMode && ExtractableURL (ar_URL a) in
    if negb forceExtract && EnforceTextLimit content (textLimit p) then inl (reject ∅ "resource_limit")
    else
      let media := if forceExtract && EnforceTextLimit (ar_Content a) (textLimit p) then "" else ar_Content a in
      let found := if negb (sg_summary s) && negb (hasMediaFiles (ar_MediaFiles a)) && negb (blank media) then extractMediaFiles media (ar_URL a) else [] in
      inr (MkPlan s content media forceMode forceExtract (if has_any found then {[ "media_files" := FMedia found ]} else ∅)).

(** An article that has not been tried is looked up among the recent texts, here
    and in the store; whether it is a duplicate. *)
Definition duplicate_gate {E} (c : DuplicateCache) (content : string) (id : Z) : M ptables E (bool * DuplicateCache) :=
  now ← app_now;
  let '(hash, duplicate, hit, c) := Lookup c content id now in
  if hit && duplicate then mret (true, c)
  else if negb hit && negb (hash =? "")%string then
    exists_ ← inspect (HasDuplicateHash hash id);
    let c := others c in
    match exists_ with
    | Ok true => now ← app_now; mret (true, Remember c hash None now)
    | Ok false => now ← app_now; mret (false, Remember c hash (Some id) now)
    | Err _ => mret (false, c)
    end
  else mret (false, c).

(** Whether fresh content is extracted; [None] when the smart filter rejects the text. *)
Definition needs_extraction (a : Article) (pl : plan) : option bool :=
  let ordinary := negb (pl_forceMode pl) && negb (sg_summary (pl_stages pl)) in
  needed ← (if ordinary then
              let '(ok, reason) := shouldProcess (ar_Title a) (pl_content pl) (ar_URL a) (ar_SourceType a) true in
              if ok : bool then Some (pl_forceExtract pl) else if reasonNeedsExtraction reason then Some true else None
            else Some (pl_forceExtract pl));
  Some (needed || (ordinary && isSummarySourceType (ar_SourceType a) && ExtractableURL (ar_URL a))).

(** ** Fresh content *)

Definition attemptTimedOut {E} (work parent : context) : M ptables E bool :=
  now ← app_now; mret (expired work now && negb (Done parent now)).

(** The claim takes the fingerprint of a new input. *)
Definition refingerprint (f : Fence) (a : Article) (attempt : Z) (work parent : context) (new : string) (pr : progress) : LM progress :=
  r ← inspect (UpdateItemFingerprint f (ar_ID a) attempt (ar_ClaimToken a) new);
  match r with
  | Ok _ => mret (with_fp new pr)
  | Err e =>
      late ← attemptTimedOut work parent;
      if late : bool then raise (Finish (pg_fp pr) (retry_later (pg_fields pr) "timeout")) else raise (Abandon (RunStore e))
  end.

Definition feedback_of (a : Article) (out : Extracted) (elapsed : Z) : list (string * value) :=
  let method := articleExtractionMethod (xt_MethodUsed out) in
  let method := if (method =? "fallback_extraction")%string && negb (xt_Method out =? "")%string then articleExtractionMethod (xt_Method out) else method in
  let success := (xt_Outcome out =? "success")%string && negb (blank (xt_Content out)) in
  let n := RuneCount (xt_Content out) in
  [("url", VStr (ar_URL a)); ("method", VStr method); ("success", VBool success);
   ("observations", VArr (map (fun o => VObj [("selector", VStr (ob_Selector o)); ("method", VStr (articleExtractionMethod (ob_Method o)));
                                              ("success", VBool (ob_Success o))]) (take 64 (xt_Observations out))))] ++
  (if (xt_SelectorUsed out =? "")%string then [] else [("selector_used", VStr (xt_SelectorUsed out))]) ++
  (if 0 <? n then [("content_length", VInt n)] else []) ++
  (if (0 <=? elapsed) && (elapsed / Millisecond <=? 10000000) then [("extraction_time_ms", VInt (elapsed / Millisecond))] else []) ++
  (if success then [("quality_score", VFloat (float_of_decimal 8 (-1)))] else []) ++
  (if (xt_Error out =? "")%string then [] else [("error_code", VStr (callbackErrorCode (xt_Error out)))]).

Definition extract (p : Processor) (f : Fence) (a : Article) (attempt : Z) (work : context) (fp : string) : CM Extracted :=
  match ps_Extractor p with
  | None => raise (CallFatal "extractor_not_configured")
  | Some x =>
      info ← Call ai f (ar_ID a) attempt fp "extraction_context" (InContext (ar_URL a));
      let info := default ∅ info in
      let code := as_string (member info "_processing_error") in
      if negb (code =? "")%string then
        mret (MkExtracted "" "" "" "" [] "" "" "" code "" (member info "_retry_after_seconds") [] false (is_true (member info "_processing_terminal")))
      else
        started ← app_now;
        out ← Extract extractor admitted x work (ar_URL a) (ar_Title a) (ar_SourceType a) (as_string (member info "selector"))
                (as_string (member info "method")) (textLimit p);
        ended ← app_now;
        told ← inspect (Call ai f (ar_ID a) attempt fp "extraction_feedback" (InFeedback (feedback_of a out (ended - started))));
        match told with
        | Err e => if isFatal e then raise e else mret out
        | Ok _ => mret out
        end
  end.

(** [time.Parse] with the first layout that fits; the zone is dropped. *)
Definition date_layouts : list string :=
  ["2006-01-02T15:04:05.999999999Z07:00"; "Mon, 02 Jan 2006 15:04:05 -0700"; "Mon, 02 Jan 2006 15:04:05 MST"; "02 Jan 06 15:04 -0700";
   "02 Jan 06 15:04 MST"; "2006-01-02T15:04:05.999999999Z07:00"; "2006-01-02T15:04:05Z0700"; "2006-01-02T15:04:05.999999999";
   "2006-01-02T15:04:05"; "2006-01-02T15:04"; "2006-01-02 15:04:05.999999999"; "2006-01-02 15:04:05"; "2006-01-02 15:04"; "2006-01-02"].
Definition parseDate (raw : string) : option Z := head (omap (fun layout => time_parse layout raw) date_layouts).

(** The columns a fresh text fills *)
Definition fresh_fields (a : Article) (fresh : Extracted) (m : fields) : fields :=
  let candidate := xt_Content fresh in
  let m := if RuneCount (ar_Content a) <? RuneCount (TrimSpace candidate) then <["content" := FAny (VStr candidate)]> m else m in
  let m := if (ar_ImageURL a =? "")%string && negb (xt_ImageURL fresh =? "")%string then <["image_url" := FAny (VStr (xt_ImageURL fresh))]> m else m in
  let m := if negb (hasMediaFiles (ar_MediaFiles a)) && has_any (xt_MediaFiles fresh) then <["media_files" := FMedia (xt_MediaFiles fresh)]> m else m in
  let old := match ar_PublishedAt a with None => true | Some t => c_year (local_date (FixedZone 0) t) <? 2020 end in
  match (if old then parseDate (xt_PublicationDate fresh) else None) with Some d => <["published_at" := FTime d]> m | None => m end.

(** What remains when nothing fresh is taken: the article's own text, or the title
    of a scientific article. *)
Definition own_text (a : Article) : option string :=
  if 30 <=? len (TrimSpace (ar_Content a)) then Some (ar_Content a)
  else if scientificTitleFallback (ar_Title a) (ar_URL a) then Some (ar_Title a) else None.

Definition short_own_text (a : Article) (pr : progress) : option progress :=
  if len (TrimSpace (ar_Content a)) <? 30 then
    if scientificTitleFallback (ar_Title a) (ar_URL a) then Some (with_content (ar_Title a) pr) else None
  else Some pr.

Definition leaving {A} (pr : progress) (o : Outcome) : result leave A := Err (Finish (pg_fp pr) o).

Definition take_extracted (p : Processor) (a : Article) (pl : plan) (fresh : Extracted) (pr : progress) : result leave progress :=
  let m := pg_fields pr in
  let code := xt_Error fresh in
  pr ← (if (code =? "")%string then Ok pr
        else if xt_Terminal fresh then leaving pr (reject m code)
        else if pl_forceExtract pl || negb (bool_decide (code ∈ ["no_content"; "needs_selector_study"; "invalid_content"]))
             then leaving pr (MkOutcome StateRetryWait m code (xt_RetryAfterSeconds fresh))
        else match short_own_text a pr with Some pr => Ok pr | None => leaving pr (reject m "smart_filter_rejected") end);
  _ ← (if blank (xt_Content fresh) && pl_forceExtract pl then leaving pr (retry_later m "content_refresh_unavailable") else Ok tt);
  let candidate := xt_Content fresh in
  if (candidate =? "")%string then Ok pr
  else if IsChallengeText candidate then leaving pr (retry_later m "extraction_challenge")
  else if EnforceTextLimit candidate (textLimit p) then leaving pr (reject m "resource_limit")
  else
    let accepted := isGoodExtractionContent candidate (textLimit p) && (pl_forceExtract pl || (30 <=? len (TrimSpace candidate))) &&
                    (pl_forceMode pl || (shouldProcess (ar_Title a) candidate (ar_URL a) (ar_SourceType a) false).1) in
    if accepted then
      Ok (MkProgress candidate (fresh_fields a fresh m) (pg_fp pr) (negb (pl_forceExtract pl) && negb (pl_forceMode pl) && negb (sg_summary (pl_stages pl))))
    else if pl_forceExtract pl then leaving pr (retry_later m "content_refresh_unavailable")
    else match own_text a with Some t => Ok (with_content t pr) | None => leaving pr (reject m "smart_filter_rejected") end.

Definition extraction_phase (p : Processor) (f : Fence) (a : Article) (attempt : Z) (work parent : context) (pl : plan) (pr : progress) : LM progress :=
  if negb (ExtractableURL (ar_URL a)) && pl_forceExtract pl then lift (leaving pr (retry_later (pg_fields pr) "content_refresh_unavailable"))
  else
    let contextContent := if pl_forceExtract pl then "" else pg_content pr in
    let contextFP := InputFingerprint sha256 (MkInput (ar_Title a) contextContent (ar_URL a) []
                       (if pl_forceExtract pl then None else original_context a (pl_media pl))) in
    pr ← refingerprint f a attempt work parent contextFP pr;
    fresh ← inspect (extract p f a attempt work (pg_fp pr));
    match fresh with
    | Ok fresh => lift (take_extracted p a pl fresh pr)
    | Err e =>
        if isFatal e then raise (Abandon (RunCall e))
        else
          late ← attemptTimedOut work parent;
          let o := if late : bool then retry_later (pg_fields pr) "timeout"
                   else if bool_decide (e = CallResourceLimit) then reject (pg_fields pr) "resource_limit"
                   else retry_later (pg_fields pr) "extraction_unavailable" in
          lift (leaving pr o)
    end.
(** ** The analysis *)

Definition analyze (f : Fence) (a : Article) (attempt : Z) (work parent : context) (input : AnalyzeInput) (pr : progress) : LM analysis :=
  r ← inspect (Call ai f (ar_ID a) attempt (pg_fp pr) "analyze" (InAnalyze input));
  match r with
  | Ok v => mret v
  | Err (CallFatal code) => raise (Abandon (RunCall (CallFatal code)))
  | Err CallResourceLimit => lift (leaving pr (reject (pg_fields pr) "resource_limit"))
  | Err e =>
      late ← attemptTimedOut work parent;
      lift (leaving pr (retry_later (pg_fields pr) (if late : bool then "timeout" else errorCode e)))
  end.

Definition bilingual_locales (bilingual : bool) : list string := if bilingual then ["ru"; "sr-Latn"] else [].

(** The context an article's own text gives to the analysis of its content *)
Definition analysis_context (p : Processor) (a : Article) (pl : plan) (pr : progress) : option string :=
  if pg_fresh pr && negb (blank (pl_media pl)) then Some (pl_media pl)
  else if pl_forceExtract pl && negb (EnforceTextLimit (pl_media pl) (textLimit p)) then original_context a (pl_media pl)
  else None.

Definition analysis_phase (p : Processor) (f : Fence) (a : Article) (attempt : Z) (work parent : context) (pl : plan) (extracted bilingual : bool)
    (pr : progress) : LM (string * Outcome) :=
  let s := pl_stages pl in
  if IsChallengeText (pg_content pr) then lift (leaving pr (retry_later (pg_fields pr) "extraction_challenge"))
  else if extracted && negb (pl_forceExtract pl) && negb (sg_summary s) &&
          negb (shouldProcess (ar_Title a) (pg_content pr) (ar_URL a) (ar_SourceType a) false).1
       then lift (leaving pr (reject (pg_fields pr) "smart_filter_rejected"))
  else
    let input := MkInput (ar_Title a) (if sg_summary s then ar_Summary a else pg_content pr) (ar_URL a) (bilingual_locales bilingual)
                   (analysis_context p a pl pr) in
    pr ← refingerprint f a attempt work parent (InputFingerprint sha256 input) pr;
    answer ← analyze f a attempt work parent input pr;
    '(answer, pr) ← (if negb bilingual && pg_fresh pr && shouldFallbackSummary answer then
                       let again := MkInput (ar_Title a) (pg_content pr) (ar_URL a) (bilingual_locales bilingual) None in
                       pr ← refingerprint f a attempt work parent (InputFingerprint sha256 again) pr;
                       fallback ← analyze f a attempt work parent again pr;
                       mret (match fallback with Some v => Some (v ∪ default ∅ answer) | None => answer end, pr)
                     else mret (answer, pr));
    let o := AnalyzeOutcome (requireBilingualResult (default ∅ answer) bilingual) (sg_summary s) (sg_category s) (sg_ad s) in
    mret (pg_fp pr, MkOutcome (ou_State o) (pg_fields pr ∪ ou_Fields o) (ou_Error o) (ou_RetryAfterSeconds o)).

(** ** Saving the outcome *)

Definition store_category (c : Category) : StoreCategory := MkStoreCategory (ct_Name c) (ct_Confidence c) (ct_AICategory c) (MapCategory (ct_Name c)).
Definition stored_fields (m : fields) : fields :=
  match m !! "categories" with Some (FCategories cats) => <["categories" := FStored (map store_category cats)]> m | _ => m end.

Definition finish (p : Processor) (f : Fence) (a : Article) (attempt : Z) (fp : string) (o : Outcome) : RM Outcome :=
  now ← app_now;
  let persisted := Persist o attempt now (limits p) in
  let saved := MkPersisted (pr_State persisted) (stored_fields (pr_Fields persisted)) (pr_Attempts persisted) (pr_NextAttemptAt persisted)
                 (pr_Error persisted) (pr_Processed persisted) in
  r ← inspect (SaveOutcome pg_lower sha256 shortest f a attempt (ar_ClaimToken a) fp saved);
  match r with
  | Ok _ => mret (MkOutcome (pr_State persisted) (stored_fields (ou_Fields o)) (ou_Error o) (ou_RetryAfterSeconds o))
  | Err ErrCategoryMapping =>
      recorded ← inspect (RecordCategoryMappingFailure sha256 f a attempt (ar_ClaimToken a) fp);
      match recorded with
      | Ok _ => mret (retry_later ∅ "category_mapping_failed")
      | Err e => raise (RunStore e)
      end
  | Err e => raise (RunStore e)
  end.

(** ** One article *)

Definition retry_delay (p : Processor) (a : Article) : Z :=
  let first := ar_ProcessingAttempts a =? 0 in
  let delay := if first then ps_RetryInitial p else ps_RetryLater p in
  if delay <=? 0 then if first then 30 * Minute else 6 * Hour else delay.

Definition with_token (a : Article) (token : string) : Article :=
  MkArticle (ar_ID a) (ar_Title a) (ar_URL a) (ar_Content a) (ar_Summary a) (ar_SourceID a) (ar_SourceType a) (ar_SourceName a) (ar_PublishedAt a)
    (ar_SummaryProcessed a) (ar_CategoryProcessed a) (ar_AdProcessed a) (ar_IsAdvertisement a) (ar_ProcessingAttempts a) (ar_ProcessingState a)
    (ar_ImageURL a) (ar_MediaFiles a) (ar_Processed a) token.

(** The phases after the cache was asked *)
Definition work_phases (p : Processor) (f : Fence) (a : Article) (attempt : Z) (work parent : context) (pl : plan) (bilingual : bool)
    (pr : progress) : LM (string * Outcome) :=
  match needs_extraction a pl with
  | None => lift (leaving pr (reject (pg_fields pr) "smart_filter_rejected"))
  | Some needed =>
      pr ← (if needed : bool then extraction_phase p f a attempt work parent pl pr else mret pr);
      analysis_phase p f a attempt work parent pl needed bilingual pr
  end.

Definition processOne (p : Processor) (c : DuplicateCache) (parent : context) (f : Fence) (a : Article) (force preserve bilingual : bool) :
    RM (result run_error Outcome * DuplicateCache) :=
  claimed ← inspect (ClaimArticle sha256 f a (timeout p) (retry_delay p a));
  match claimed with
  | Err e => mret (Err (RunStore e), c)
  | Ok (attempt, fp, token) =>
      let a := with_token a token in
      started ← app_now;
      let work := WithTimeout parent started (timeout p) in
      match planned p a force preserve with
      | inl o => r ← inspect (finish p f a attempt fp o); mret (r, c)
      | inr pl =>
          let pr := MkProgress (pl_content pl) (pl_fields pl) fp false in
          '(duplicate, c) ← (if negb (pl_forceMode pl) && negb (sg_summary (pl_stages pl)) && (ar_ProcessingAttempts a =? 0)
                             then duplicate_gate c (pl_content pl) (ar_ID a) else mret (false, c));
          left_with ← (if duplicate : bool then mret (leaving (A:=string * Outcome) pr (reject (pg_fields pr) "smart_filter_rejected"))
                  else inspect (work_phases p f a attempt work parent pl bilingual pr));
          match left_with with
          | Ok (fp, o) | Err (Finish fp o) => r ← inspect (finish p f a attempt fp o); mret (r, c)
          | Err (Abandon e) => mret (Err e, c)
          end
      end
  end.
End Processing.

(** ** What the phases hand on and leave with *)

Section Phases.
Context `{Unicode} `{Urls} `{References} `{TextTables}.
Context (pg_lower : string -> string) (sha256 : list Z -> list Z) (shortest : spec_float -> string).
Context (ai : service AIRequest (option http_answer)) (extractor : service ExtractRequest (option http_answer)) (admitted : service context bool).
Context (time_parse : string -> string -> option Z).
Context (others : DuplicateCache -> DuplicateCache).

(** Only these columns are filled without an analysis. *)
Definition own_keys : list string := ["media_files"; "content"; "image_url"; "published_at"].
Definition own_fields (m : fields) : Prop := forall k, is_Some (m !! k) -> k ∈ own_keys.

(** An outcome of an article of which the stages [s] were done *)
Record outcome_final (s : stages) (o : Outcome) : Prop := {
  of_state : ou_State o ∈ [StateRetryWait; StateCompleted; StateRejected];
  of_completed : ou_State o = StateCompleted -> ou_Error o = "" /\ stages_done (sg_summary s) (sg_category s) (sg_ad s) (ou_Fields o);
  of_error : ou_State o <> StateCompleted -> ou_Error o <> "";
}.
Definition leave_ok (s : stages) (l : leave) : Prop := match l with Finish _ o => outcome_final s o | Abandon _ => True end.
Definition progress_ok (pr : progress) : Prop := own_fields (pg_fields pr).

Lemma own_empty : own_fields ∅.
Proof. intros k. rewrite lookup_empty. by intros []. Qed.
Lemma own_insert m k v : k ∈ own_keys -> own_fields m -> own_fields (<[k := v]> m).
Proof.
  intros Hk Hm k'. destruct (decide (k = k')) as [<-|Hn]; [done|]. rewrite lookup_insert_ne by done. apply Hm.
Qed.

Lemma final_retry s m code : code <> "" -> outcome_final s (retry_later m code).
Proof. intros Hc. split; [left|done|done]. Qed.
Lemma final_reject s m code : code <> "" -> outcome_final s (reject m code).
Proof. intros Hc. split; [right; right; left|done|done]. Qed.
Lemma final_wait s m code v : code <> "" -> outcome_final s (MkOutcome StateRetryWait m code v).
Proof. intros Hc. split; [left|done|done]. Qed.

Lemma planned_ok p a force preserve :
  match planned p a force preserve with
  | inl o => outcome_final (stages_of a force preserve) o
  | inr pl => pl_stages pl = stages_of a force preserve /\ own_fields (pl_fields pl)
  end.
Proof.
  unfold planned. cbv zeta. set (s := stages_of a force preserve). destruct (sg_ad s && _); [by apply final_reject|].
  destruct (sg_summary s && sg_category s && sg_ad s) eqn:E.
  { apply andb_true_iff in E as [[E1 E2]%andb_true_iff E3]. split; [right; left| |done]. intros _. split; [done|]. split_and!; by left. }
  destruct (negb _ && EnforceTextLimit _ _); [by apply final_reject|]. cbn [pl_stages pl_fields]. split; [done|].
  destruct (has_any _); [|apply own_empty]. apply own_insert; [left|apply own_empty].
Qed.

Lemma fresh_fields_own a fresh m : own_fields m -> own_fields (fresh_fields time_parse a fresh m).
Proof.
  intros Hm. unfold fresh_fields. cbv zeta.
  assert (forall (b : bool) (k : string) (v : field) (m' : fields), k ∈ own_keys -> own_fields m' -> own_fields (if b then <[k := v]> m' else m')) as Hi
    by (intros [] k v m' Hk Hm'; [by apply own_insert|done]).
  set (m1 := if RuneCount _ <? _ then _ else _). assert (own_fields m1) as Ha1 by (apply Hi; [right; left|done]).
  set (m2 := if (ar_ImageURL a =? "")%string && _ then _ else _). assert (own_fields m2) as Ha2 by (apply Hi; [right; right; left|done]).
  set (m3 := if negb (hasMediaFiles _) && _ then _ else _). assert (own_fields m3) as Ha3 by (apply Hi; [left|done]).
  match goal with |- own_fields (match ?d with Some _ => _ | None => _ end) => destruct d end; [|done]. apply own_insert; [right; right; right; left|done].
Qed.

Lemma take_extracted_ok p a pl fresh pr : progress_ok pr ->
  match take_extracted time_parse p a pl fresh pr with Ok pr' => progress_ok pr' | Err l => leave_ok (pl_stages pl) l end.
Proof.
  intros Hp. unfold take_extracted. cbv zeta.
  assert (match (if (xt_Error fresh =? "")%string then Ok pr
    else if xt_Terminal fresh then leaving pr (reject (pg_fields pr) (xt_Error fresh))
    else if pl_forceExtract pl || negb (bool_decide (xt_Error fresh ∈ ["no_content"; "needs_selector_study"; "invalid_content"]))
         then leaving pr (MkOutcome StateRetryWait (pg_fields pr) (xt_Error fresh) (xt_RetryAfterSeconds fresh))
    else match short_own_text a pr with Some pr => Ok pr | None => leaving pr (reject (pg_fields pr) "smart_filter_rejected") end : result leave progress)
    with Ok pr' => progress_ok pr' | Err l => leave_ok (pl_stages pl) l end) as Hfirst.
  { destruct (xt_Error fresh =? "")%string eqn:E; [done|]. apply String.eqb_neq in E. destruct (xt_Terminal fresh); [by apply final_reject|].
    destruct (_ || _); [by apply final_wait|]. unfold short_own_text. destruct (_ <? 30); [|done].
    destruct (scientificTitleFallback _ _); [done|by apply final_reject]. }
  destruct (if (xt_Error fresh =? "")%string then _ else _) as [pr1|l]; [|done]. cbn [mbind result_bind].
  destruct (blank _ && _); [by apply final_retry|]. cbn [mbind result_bind].
  destruct (xt_Content fresh =? "")%string; [done|]. destruct (IsChallengeText _); [by apply final_retry|].
  destruct (EnforceTextLimit _ _); [by apply final_reject|]. destruct (isGoodExtractionContent _ _ && _ && _).
  { by apply fresh_fields_own. }
  destruct (pl_forceExtract pl); [by apply final_retry|]. destruct (own_text a); [done|by apply final_reject].
Qed.

Lemma timed_out_ends {A} work parent (k : bool -> LM A) P R : (forall b, ends (k b) P R) -> ends (attemptTimedOut work parent ≫= k) P R.
Proof.
  intros Hk w. unfold attemptTimedOut, mbind, M_bind, app_now. destruct (next_event w) as [ev w']. apply Hk.
Qed.

Lemma refingerprint_ok f a attempt work parent new pr s : progress_ok pr ->
  ends (refingerprint f a attempt work parent new pr) progress_ok (leave_ok s).
Proof.
  intros Hp. unfold refingerprint. apply ends_inspect. intros [u|e]; [by apply ends_ret|]. apply timed_out_ends. intros [].
  - by apply ends_raise, final_retry.
  - by apply ends_raise.
Qed.

Lemma extraction_ends p f a attempt work parent pl pr : progress_ok pr ->
  ends (extraction_phase sha256 ai extractor admitted time_parse p f a attempt work parent pl pr) progress_ok (leave_ok (pl_stages pl)).
Proof.
  intros Hp. unfold extraction_phase. destruct (_ && _); [by apply ends_lift, final_retry|]. cbv zeta.
  apply (ends_bind progress_ok); [by apply refingerprint_ok|]. intros pr1 Hp1. apply ends_inspect. intros [fresh|e].
  - apply ends_lift, take_extracted_ok, Hp1.
  - destruct (isFatal e); [by apply ends_raise|]. apply timed_out_ends. intros late. apply ends_lift.
    destruct late; [by apply final_retry|]. destruct (bool_decide _); [by apply final_reject|by apply final_retry].
Qed.

Lemma analyze_ends f a attempt work parent input pr s : ends (analyze ai f a attempt work parent input pr) (fun _ => True) (leave_ok s).
Proof.
  unfold analyze. apply ends_inspect. intros [v|[code| |text]].
  - by apply ends_ret.
  - by apply ends_raise.
  - by apply ends_lift, final_reject.
  - apply timed_out_ends. intros late. apply ends_lift, final_retry. by destruct late.
Qed.

(** The columns filled without an analysis hide no stage. *)
Lemma merged_final s m o : own_fields m -> outcome_ok s.1 (sg_summary s.2) (sg_category s.2) (sg_ad s.2) o ->
  outcome_final s.2 (MkOutcome (ou_State o) (m ∪ ou_Fields o) (ou_Error o) (ou_RetryAfterSeconds o)).
Proof.
  intros Hm (_ & Hc & He & _ & Hs). assert (forall k, k ∉ own_keys -> (m ∪ ou_Fields o) !! k = ou_Fields o !! k) as Hl.
  { intros k Hk. apply lookup_union_r. apply eq_None_not_Some. intros Hk'. by apply Hk, Hm. }
  split; [done| |done]. cbn [ou_State ou_Error ou_Fields]. intros Ho. destruct (Hc Ho) as (E & _ & Hd). split; [done|].
  unfold stages_done in *. rewrite !Hl; [done|..]; unfold own_keys; rewrite !not_elem_of_cons; (split_and!; [done..|apply not_elem_of_nil]).
Qed.

Lemma analysis_ends p f a attempt work parent pl extracted bilingual pr : progress_ok pr ->
  ends (analysis_phase sha256 ai p f a attempt work parent pl extracted bilingual pr) (fun r => outcome_final (pl_stages pl) r.2) (leave_ok (pl_stages pl)).
Proof.
  intros Hp. unfold analysis_phase. cbv zeta. destruct (IsChallengeText _); [by apply ends_lift, final_retry|].
  destruct (extracted && _ && _ && _); [by apply ends_lift, final_reject|].
  apply (ends_bind progress_ok); [by apply refingerprint_ok|]. intros pr1 Hp1.
  apply (ends_bind (fun _ => True)); [apply analyze_ends|]. intros answer _.
  apply (ends_bind (fun r => progress_ok r.2)).
  - destruct (_ && _ && _); [|by apply ends_ret]. apply (ends_bind progress_ok); [by apply refingerprint_ok|]. intros pr2 Hp2.
    apply (ends_bind (fun _ => True)); [apply analyze_ends|]. intros fallback _. by apply ends_ret.
  - intros [answer' pr3] Hp3. apply ends_ret. cbn [snd] in *.
    apply (merged_final (requireBilingualResult (default ∅ answer') bilingual, pl_stages pl)); [exact Hp3|apply AnalyzeOutcome_ok].
Qed.

Lemma work_phases_ends p f a attempt work parent pl bilingual pr : progress_ok pr ->
  ends (work_phases sha256 ai extractor admitted time_parse p f a attempt work parent pl bilingual pr)
    (fun r => outcome_final (pl_stages pl) r.2) (leave_ok (pl_stages pl)).
Proof.
  intros Hp. unfold work_phases. destruct (needs_extraction a pl) as [needed|]; [|by apply ends_lift, final_reject].
  apply (ends_bind progress_ok); [|intros pr1 Hp1; by apply analysis_ends].
  destruct needed; [by apply extraction_ends|by apply ends_ret].
Qed.
End Phases.

(** ** One article, among everything else that happens *)

Section Articles.
Context `{Unicode} `{Urls} `{References} `{TextTables}.
Context (pg_lower : string -> string) (sha256 : list Z -> list Z) (shortest : spec_float -> string).
Context (ai : service AIRequest (option http_answer)) (extractor : service ExtractRequest (option http_answer)) (admitted : service context bool).
Context (time_parse : string -> string -> option Z).
Context (others : DuplicateCache -> DuplicateCache).
Context (Hai : well_behaved ai) (Hex : well_behaved extractor) (Had : well_behaved admitted).

Notation phases := (work_phases sha256 ai extractor admitted time_parse).
Notation save := (finish pg_lower sha256 shortest).
Notation process := (processOne pg_lower sha256 shortest ai extractor admitted time_parse others).

Lemma extract_keeps p f a attempt work fp : pkeeps (extract ai extractor admitted p f a attempt work fp).
Proof using Hai Hex Had. unfold extract. effects. Qed.
Lemma extract_closed p f a attempt work fp : closed (extract ai extractor admitted p f a attempt work fp).
Proof using Hai Hex Had. unfold extract. effects. Qed.

Lemma refingerprint_keeps f a attempt work parent new pr : pkeeps (refingerprint f a attempt work parent new pr).
Proof. unfold refingerprint, attemptTimedOut. effects. Qed.
Lemma refingerprint_closed f a attempt work parent new pr : closed (refingerprint f a attempt work parent new pr).
Proof. unfold refingerprint, attemptTimedOut, UpdateItemFingerprint. effects. Qed.

Lemma analyze_keeps f a attempt work parent input pr : pkeeps (analyze ai f a attempt work parent input pr).
Proof using Hai. unfold analyze, attemptTimedOut. effects. Qed.
Lemma analyze_closed f a attempt work parent input pr : closed (analyze ai f a attempt work parent input pr).
Proof using Hai. unfold analyze, attemptTimedOut. effects. Qed.
#[local] Hint Resolve extract_keeps extract_closed refingerprint_keeps refingerprint_closed analyze_keeps analyze_closed : effects.

Lemma work_phases_keeps p f a attempt work parent pl bilingual pr : pkeeps (phases p f a attempt work parent pl bilingual pr).
Proof using Hai Hex Had. unfold work_phases, extraction_phase, analysis_phase, attemptTimedOut. effects. Qed.
Lemma work_phases_closed p f a attempt work parent pl bilingual pr : closed (phases p f a attempt work parent pl bilingual pr).
Proof using Hai Hex Had. unfold work_phases, extraction_phase, analysis_phase, attemptTimedOut. effects. Qed.

Lemma HasDuplicateHash_keeps hash id : pkeeps (HasDuplicateHash hash id).
Proof. unfold HasDuplicateHash. eauto with news. Qed.
Lemma HasDuplicateHash_closed hash id : closed (HasDuplicateHash hash id).
Proof. apply closed_exec. Qed.
#[local] Hint Resolve HasDuplicateHash_keeps HasDuplicateHash_closed : effects.
Lemma duplicate_gate_keeps c content id : pkeeps (duplicate_gate (E:=run_error) others c content id).
Proof. unfold duplicate_gate. effects. Qed.
Lemma duplicate_gate_closed c content id : closed (duplicate_gate (E:=run_error) others c content id).
Proof. unfold duplicate_gate. effects. Qed.
#[local] Hint Resolve duplicate_gate_keeps duplicate_gate_closed work_phases_keeps work_phases_closed : effects.

(** An outcome as it was saved *)
Record saved_final (s : stages) (o : Outcome) : Prop := {
  sf_state : ou_State o ∈ [StateRetryWait; StateCompleted; StateRejected; StateExhausted];
  sf_completed : ou_State o = StateCompleted -> ou_Error o = "" /\ stages_done (sg_summary s) (sg_category s) (sg_ad s) (ou_Fields o);
  sf_error : ou_State o <> StateCompleted -> ou_Error o <> "";
}.

Lemma stored_done s m : stages_done (sg_summary s) (sg_category s) (sg_ad s) m -> stages_done (sg_summary s) (sg_category s) (sg_ad s) (stored_fields m).
Proof.
  unfold stored_fields. destruct (m !! "categories") as [[]|]; try done. unfold stages_done. by rewrite !lookup_insert_ne.
Qed.

Lemma persisted_state s o attempt now l : outcome_final s o ->
  let st := pr_State (Persist o attempt now l) in
  st = ou_State o \/ ou_State o = StateRetryWait /\ st = StateExhausted.
Proof.
  intros [Hs _ _] st. subst st. pose proof (Persist_cases o attempt now l) as Hc. cbv zeta in Hc. inversion Hc; auto; left; congruence.
Qed.

Lemma persisted_final s o attempt now l : outcome_final s o ->
  saved_final s (MkOutcome (pr_State (Persist o attempt now l)) (stored_fields (ou_Fields o)) (ou_Error o) (ou_RetryAfterSeconds o)).
Proof.
  intros Hf. destruct (persisted_state _ _ attempt now l Hf) as [Hs|[Ho Hs]]; rewrite Hs; destruct Hf as [F1 F2 F3].
  - split; cbn; [set_solver| |done]. intros Hc. destruct (F2 Hc). split; [done|]. by apply stored_done.
  - split; cbn; [set_solver|done|]. intros _. apply F3. by rewrite Ho.
Qed.

Lemma not_running s o attempt now l : outcome_final s o -> pr_State (Persist o attempt now l) <> "running".
Proof.
  intros Hf. destruct (persisted_final _ _ attempt now l Hf) as [Hs _ _]. cbn in Hs. intros E. rewrite E in Hs. set_solver.
Qed.

(** A transaction that brings something about, once it reports success *)
Lemma rwp_tx_ok {A} (P : A -> ptables -> Prop) e (body : PM A) d : pkeeps (with_tx e body) ->
  (forall d1, p_evolves d d1 -> twp body (fun r d' _ => match r with Ok a => P a d' | Err _ => True end) d1 d1) ->
  rwp p_evolves (with_tx e body) (fun r d' => p_evolves d d' /\ match r with Ok a => P a d' | Err _ => True end) d.
Proof.
  intros Hk Hb w Hd Ht Hr.
  destruct (rwp_keeps p_evolves (with_tx e body) (fun _ d' => p_evolves d d') d Hk (closed_with_tx _ _) (fun _ _ H => H) w Hd Ht Hr) as (H1' & H2' & H3').
  assert (rwp p_evolves (with_tx e body) (fun r d' => match r with Ok a => P a d' | Err _ => True end) d) as Hs.
  { apply rwp_with_tx; [apply _|]. intros d1 Hd1. split; [by apply Hb|done]. }
  destruct (Hs w Hd Ht Hr) as (H4' & _). auto.
Qed.

Lemma rwp_settling k e body d : settling k body -> pkeeps (with_tx e body) -> p_wf d ->
  rwp p_evolves (with_tx e body) (fun r d' => p_evolves d d' /\ (ArticleStore.is_ok r -> settled k d')) d.
Proof.
  intros Hb Hk Hwf. eapply rwp_mono; [apply (rwp_tx_ok (fun _ d' => settled k d')); [done|]|].
  - intros d1 Hd1. eapply twp_mono; [apply Hb; by eapply pe_wf|]. intros [[]|e'] d' tx Hok; [by apply Hok|done].
  - intros [[]|e'] d' [Hd' Hs]; by split.
Qed.

Lemma finish_settles p f a attempt fp o s d : p_wf d -> outcome_final s o ->
  rwp p_evolves (save p f a attempt fp o) (fun r d' => p_evolves d d' /\
    match r with Ok o' => settled (claim_of f (ar_ID a)) d' /\ saved_final s o' | Err _ => True end) d.
Proof.
  intros Hwf Hf. unfold finish. apply rwp_app_now; [apply _|]. intros now d1 Hd1. cbv zeta. apply rwp_bind, rwp_inspect. unfold SaveOutcome.
  eapply rwp_mono; [apply rwp_settling; [|apply SaveOutcome_keeps|by eapply pe_wf]|].
  { apply save_settles. cbn. by eapply not_running. }
  intros r d2 [Hd2 Hs]. assert (p_evolves d d2) as Hd by by etrans. destruct r as [u|e].
  - apply rwp_ret. split; [done|]. split; [by apply Hs|by apply persisted_final].
  - destruct e; try (apply rwp_raise; by split).
    apply rwp_bind, rwp_inspect. unfold RecordCategoryMappingFailure.
    eapply rwp_mono; [apply rwp_settling; [apply record_settles|apply RecordCategoryMappingFailure_keeps|by eapply pe_wf]|].
    intros r d3 [Hd3 Hs']. assert (p_evolves d d3) as Hd' by by etrans. destruct r as [u|e].
    + apply rwp_ret. split; [done|]. split; [by apply Hs'|]. split; [left|done|done].
    + apply rwp_raise. by split.
Qed.

Lemma duplicate_gate_ends c content id : ends (duplicate_gate (E:=run_error) others c content id) (fun _ => True) (fun _ => False).
Proof.
  unfold duplicate_gate. apply ends_app_now. intros now. destruct (Lookup _ _ _ _) as [[[hash duplicate] hit] c']. destruct (_ && _); [by apply ends_ret|].
  destruct (_ && _); [|by apply ends_ret]. apply ends_inspect. intros [[]|e]; [apply ends_app_now..|]; intros; by apply ends_ret.
Qed.

Lemma processOne_spec p c parent f a force preserve bilingual d0 : p_wf d0 ->
  rwp p_evolves (process p c parent f a force preserve bilingual) (fun r d' => p_evolves d0 d' /\
    match r with
    | Ok (Ok o, _) => settled (claim_of f (ar_ID a)) d' /\ saved_final (stages_of a force preserve) o
    | Ok (Err _, _) => True
    | Err _ => False
    end) d0.
Proof using Hai Hex Had.
  intros Hwf. set (s := stages_of a force preserve).
  unfold processOne. apply rwp_inspected; [apply _|apply ClaimArticle_keeps|apply closed_with_tx|].
  intros [[[attempt fp] token]|e] d1 Hd1; [|by apply rwp_ret]. cbv zeta. set (a' := with_token a token).
  apply rwp_app_now; [apply _|]. intros started d2 Hd2. assert (p_evolves d0 d2) as Hd12 by by etrans. set (work := WithTimeout _ _ _).
  assert (forall fp o d (c' : DuplicateCache), p_evolves d0 d -> outcome_final s o ->
    rwp p_evolves (r ← inspect (save p f a' attempt fp o); mret (r, c') : RM (result run_error Outcome * DuplicateCache)) (fun r d' => p_evolves d0 d' /\
      match r with Ok (Ok o, _) => settled (claim_of f (ar_ID a)) d' /\ saved_final s o | Ok (Err _, _) => True | Err _ => False end) d) as Hfin.
  { intros fp' o d c' Hd Hf. apply rwp_bind, rwp_inspect. eapply rwp_mono; [eapply finish_settles; [by eapply pe_wf|exact Hf]|].
    intros r d' [Hd' Hs]. apply rwp_ret. split; [by etrans|]. by destruct r. }
  pose proof (planned_ok p a' force preserve) as Hpl. destruct (planned p a' force preserve) as [o|pl]; [by apply Hfin|].
  destruct Hpl as [Hst Hown].
  assert (stages_of a' force preserve = s) as Ha by done. rewrite Ha in Hst.
  apply rwp_bind. eapply (rwp_ends p_evolves _ (fun _ => True) (fun _ => False)).
  { destruct (_ && _ && _); [apply duplicate_gate_ends|by apply ends_ret]. }
  { destruct (_ && _ && _); eauto with effects news. }
  { destruct (_ && _ && _); eauto with effects news. }
  intros [[duplicate c']|e] d3 Hd3; [|done]. intros _. assert (p_evolves d0 d3) as Hd13 by by etrans.
  set (pr := MkProgress _ _ _ _). assert (progress_ok pr) as Hpr by exact Hown.
  apply rwp_bind. apply (rwp_mono _ _ (fun r d' => p_evolves d0 d' /\
    match r with Ok (Ok (_, o)) | Ok (Err (Finish _ o)) => outcome_final s o | Ok (Err (Abandon _)) => True | Err _ => False end)).
  { destruct duplicate.
    - apply rwp_ret. split; [done|]. by apply final_reject.
    - apply rwp_inspect. eapply rwp_ends; [apply _|by apply work_phases_ends|auto with effects..|].
      intros r d4 Hd4 Hl. split; [by etrans|]. rewrite Hst in Hl. by destruct r as [[fp' o]|[fp' o|e]]. }
  intros [[[fp' o]|[fp' o|e]]|e] d4 [Hd4 Hl]; [by apply Hfin|by apply Hfin|by apply rwp_ret|done].
Qed.

(** C15: One attempt at an article.  Whatever the AI service and the extractor
    answer, whatever fails, and whatever other services do meanwhile: when
    [processOne] returns an outcome, the claim it made is settled for good; the
    outcome is one of the four states an attempt may leave; it is "completed" only
    without an error and with all three stages done, before or by the fields just
    saved, and every other state names its reason.  When it returns an error the
    tables have only moved as the services' rules allow. *)
Theorem processOne_settles p c parent f a force preserve bilingual w :
  p_wf (w_db w) -> w_tx w = None -> rely p_evolves (w_env w) ->
  let '(r, w') := process p c parent f a force preserve bilingual w in
  p_evolves (w_db w) (w_db w') /\ w_tx w' = None /\
  match r with
  | Ok (Ok o, _) => settled (claim_of f (ar_ID a)) (w_db w') /\ saved_final (stages_of a force preserve) o
  | Ok (Err _, _) => True
  | Err _ => False
  end.
Proof using Hai Hex Had.
  intros Hwf Ht Hr. pose proof (processOne_spec p c parent f a force preserve bilingual (w_db w) Hwf w eq_refl Ht Hr) as Hm.
  destruct (process _ _ _ _ _ _ _ _ w) as [r w']. cbn [fst snd] in Hm. tauto.
Qed.
End Articles.

(** ** Witness *)

Module RunSample.
#[local] Existing Instance ClientSample.ascii.
#[local] Existing Instance ClientSample.urls.
#[local] Existing Instance FilterSample.ascii.
#[local] Existing Instance MediaSample.plain.
(** An AI service that summarises everything with the same words *)
Definition analysed (q : AIRequest) : json :=
  if (rq_Operation q =? "analyze")%string then
    JObj [("summary", JStr "A new bridge will be built."); ("categories", JArr [JStr "Tech"]); ("is_advertisement", JBool false); ("ad_confidence", JNum "0.1")]
  else JObj [].
Definition ai : service AIRequest (option http_answer) := fun q w =>
  (Some (HttpAnswer 200 "" "" (ClientSample.body (JObj
    [("version", JNum "1"); ("run_id", JStr (fe_RunID (rq_Fence q))); ("article_id", JNum (itoa (rq_ArticleID q)));
     ("article_attempt", JNum (itoa (rq_ArticleAttempt q))); ("input_fingerprint", JStr (rq_InputFingerprint q)); ("operation", JStr (rq_Operation q));
     ("result", analysed q)]))), w).
Definition processor : Processor := MkProcessor (Some ClientSample.client) 25 3 0 0 0 None None 0 0 0.
Definition time_parse (_ _ : string) : option Z := None.
Definition text : text_row :=
  TextRow None "The city council approved a new bridge" "https://a.example/1" (Some "A bridge.") None None None None None None None None None.
Definition tables : ptables := set_texts (<[1 := text]> (p_texts StoreSample.tables)) StoreSample.tables.
Definition article : Article := scan_article ∅ 1 (StoreSample.row, text).
Definition world0 : world ptables := World tables None StoreSample.now [].
Definition world1 : world ptables := (RecoverClaims StoreSample.fence world0).2.
Lemma run_tables_wf : p_wf tables.
Proof. apply (pe_wf StoreSample.tables); [|exact StoreSample.store_tables_wf]. apply p_evolves_texts. intros id. by apply is_Some_insert. Qed.
Lemma recovered_wf f w : p_wf (w_db w) -> rely p_evolves (w_env w) -> w_tx w = None -> p_wf (w_db (RecoverClaims f w).2).
Proof. intros Hwf Hr Ht. eapply pe_wf; [|exact Hwf]. apply (keeps_sound p_evolves); [apply RecoverClaims_keeps|done|done]. Qed.
Lemma world1_wf : p_wf (w_db world1).
Proof. exact (recovered_wf StoreSample.fence world0 run_tables_wf (Forall_nil_2 _) eq_refl). Qed.
Definition one (w : world ptables) :=
  processOne StoreSample.lower StoreSample.sum32 StoreSample.shortest ai ClientSample.extractor ClientSample.admitted time_parse (fun c => c)
    processor NewDuplicateCache ClientSample.background StoreSample.fence article false false false w.

Lemma ai_behaves : well_behaved ai.
Proof. by split. Qed.
Lemma extractor_behaves : well_behaved ClientSample.extractor.
Proof. by split. Qed.
Lemma admitted_behaves : well_behaved ClientSample.admitted.
Proof. by split. Qed.
End RunSample.
#[local] Existing Instance ClientSample.ascii.
#[local] Existing Instance ClientSample.urls.
#[local] Existing Instance FilterSample.ascii.
#[local] Existing Instance MediaSample.plain.

Lemma processOne_settles_witness :
  exists o c w', RunSample.one RunSample.world1 = (Ok (Ok o, c), w') /\ ou_State o = StateCompleted /\
    settled (claim_of StoreSample.fence 1) (w_db w') /\
    saved_final (MkStages false false false) o.
Proof.
  assert (match (RunSample.one RunSample.world1).1 with Ok (Ok o, _) => ou_State o = StateCompleted | _ => False end) as E by by_eval.
  pose proof RunSample.world1_wf as Hwf.
  pose proof (processOne_settles StoreSample.lower StoreSample.sum32 StoreSample.shortest RunSample.ai ClientSample.extractor ClientSample.admitted
    RunSample.time_parse (fun c => c) RunSample.ai_behaves RunSample.extractor_behaves RunSample.admitted_behaves
    RunSample.processor NewDuplicateCache ClientSample.background StoreSample.fence RunSample.article false false false
    RunSample.world1 Hwf ltac:(by_eval) ltac:(vm_compute; constructor)) as Hp.
  unfold RunSample.one in *. destruct (processOne _ _ _ _ _ _ _ _ _ _ _ _ _ _ _ _ _) as [r w']. cbn [fst] in E. destruct Hp as (_ & _ & Hp).
  destruct r as [[[o|e] c]|e]; [|done..]. exists o, c, w'. split; [done|]. split; [exact E|]. exact Hp.
Defined.
