(* ===== verification/ProcessingRun.v ===== *)
(** * ProcessingRun: a run of go-processing

    go-processing/internal/processing/runner.go: [Run], from the job to its
    receipt, over [processOne] of ArticleRun.

    The goroutines of a batch run one after the other here, in any order
    ([order]); what they do to the tables at the same time is part of what
    [processOne] tolerates.  Which of them give up when the context ends is a
    parameter ([drops]).  The loop over batches takes fuel: [Run_terminates]
    says how much is enough.

    Parameters besides those of ArticleRun: [load], the operational snapshot of
    the run, which comes from go-domain. *)

From S2P Require Import Prelude JsonStrict GoTime Db GoText GoDecode GoParseTime ExecutorClient QueueTables ExecPayload GoRune JobPayload.
From S2P Require Import ArticleOutcome ContentFilter MediaFiles ArticleStore ProviderClients ArticleRun.
From Stdlib Require Import SpecFloat.

Record OperationalSnapshot := MkOperationalSnapshot {
  os_Revision : Z;
  os_PinnedAt : Z;
  os_LimitsEnabled : bool;
  os_MaxArticles : Z;
  os_PerSource : Z;
  os_Days : Z;
  os_NewestDate : string;
  os_ProcessingEnabled : bool;
  os_DeliveryEnabled : bool;
  os_SerbianEnabled : bool;
}.

Record jobPayload := MkJobPayload {
  jp_ArticleIDs : list Z;
  jp_Force : option bool;
  jp_PreserveStages : bool;
  jp_DryRun : bool;
  jp_Limit : Z;
  jp_MaxArticles : Z;
}.
Definition payload_fields : list string := ["article_ids"; "force"; "preserve_completed_stages"; "dry_run"; "limit"; "max_articles"].
Definition set_payload_field (f : string) (v : json) (p : jobPayload) : option jobPayload :=
  let 'MkJobPayload ids force preserve dry limit max := p in
  if (f =? "article_ids")%string then x ← as_list (as_int 0) v; Some (MkJobPayload x force preserve dry limit max)
  else if (f =? "force")%string then x ← as_pointer (as_bool false) v; Some (MkJobPayload ids x preserve dry limit max)
  else if (f =? "preserve_completed_stages")%string then x ← as_bool preserve v; Some (MkJobPayload ids force x dry limit max)
  else if (f =? "dry_run")%string then x ← as_bool dry v; Some (MkJobPayload ids force preserve x limit max)
  else if (f =? "limit")%string then x ← as_int limit v; Some (MkJobPayload ids force preserve dry x max)
  else x ← as_int max v; Some (MkJobPayload ids force preserve dry limit x).
Definition job_payload (j : json) : option jobPayload := unmarshal_struct payload_fields set_payload_field (MkJobPayload [] None false false 0 0) j.

(** [time.Parse("2006-01-02", s)] *)
Definition parse_day (s : string) : option Z :=
  '(year, l) ← year4 (bytes_of s);
  l ← literal 45 l;
  '(month, l) ← getnum true l;
  if (month <=? 0) || (12 <? month) then None else
  l ← literal 45 l;
  '(day, l) ← getnum true l;
  if negb (bool_decide (l = [])) then None
  else if (day <? 1) || (daysIn month year <? day) then None
  else Some (days_from_civil (Civil year month day) * 86400 * Second).

Definition valid_snapshot (s : OperationalSnapshot) : bool :=
  let invalidDate := negb (os_NewestDate s =? "")%string && bool_decide (parse_day (os_NewestDate s) = None) in
  negb ((os_Revision s <? 0) || (os_PinnedAt s =? zero_time) || (os_MaxArticles s <? 1) || (100000 <? os_MaxArticles s) ||
        (os_PerSource s <? 1) || (100000 <? os_PerSource s) || (os_Days s <? 0) || (36500 <? os_Days s) || invalidDate).

(** ** Limits *)

(** [cycleLimit], [sourceLimit], [dateFrom], [dateTo] *)
Definition operationalBounds (s : OperationalSnapshot) : Z * Z * option Z * option Z :=
  if negb (os_LimitsEnabled s) then (0, 0, None, None)
  else (os_MaxArticles s, os_PerSource s, if 0 <? os_Days s then Some (os_PinnedAt s - os_Days s * 24 * Hour) else None,
        if (os_NewestDate s =? "")%string then None else Some (default zero_time (parse_day (os_NewestDate s)) + (24 * Hour - 1))).

(** A limit of zero is none. *)
Definition tighten (limit cycleLimit : Z) : Z := if (cycleLimit =? 0) || (limit <? cycleLimit) then limit else cycleLimit.

Record bounds := MkBounds { bo_batch : Z; bo_cycle : Z; bo_source : Z; bo_from : option Z; bo_to : option Z }.

Definition run_bounds (p : Processor) (operational : option OperationalSnapshot) (kind : string) (payload : jobPayload) : bounds :=
  let batchSize := if (ps_MaxBatch p <? 1) || (100 <? ps_MaxBatch p) then 25 else ps_MaxBatch p in
  let '(cycle, source, from, to) :=
    match operational with Some s => operationalBounds s | None => (ps_CycleMax p, ps_PerSourceLimit p, ps_DateFrom p, ps_DateTo p) end in
  let cycle := if (kind =? "reprocess_failed")%string then tighten (if jp_Limit payload <? 1 then 20 else jp_Limit payload) cycle else cycle in
  let cycle := if 0 <? jp_MaxArticles payload then tighten (jp_MaxArticles payload) cycle else cycle in
  let cycle := match jp_ArticleIDs payload with [] => cycle | ids => tighten (Z.of_nat (length ids)) cycle end in
  MkBounds batchSize cycle source from to.

(** ** What a run counts *)

Record counts := MkCounts {
  co_processed : Z;
  co_summarized : Z;
  co_categorized : Z;
  co_rejected : Z;
  co_retrying : Z;
  co_exhausted : Z;
}.
Record tally := MkTally {
  ta_counts : counts;
  ta_outcomesTotal : Z;
  ta_outcomeSample : list ArticleOutcome;
  ta_categoryMappingErrors : Z;
  ta_categoryErrorSample : list string;
}.
Definition no_tally : tally := MkTally (MkCounts 0 0 0 0 0 0) 0 [] 0 [].
Definition outcomeSampleLimit : nat := 20.

Definition count_state (state : string) (c : counts) : counts :=
  let 'MkCounts processed summarized categorized rejected retrying exhausted := c in
  if (state =? StateCompleted)%string then MkCounts (processed + 1) summarized categorized rejected retrying exhausted
  else if (state =? StateRejected)%string then MkCounts processed summarized categorized (rejected + 1) retrying exhausted
  else if (state =? StateRetryWait)%string then MkCounts processed summarized categorized rejected (retrying + 1) exhausted
  else if (state =? StateExhausted)%string then MkCounts processed summarized categorized rejected retrying (exhausted + 1)
  else c.
Definition has_field (o : Outcome) (k : string) : bool := bool_decide (is_Some (ou_Fields o !! k)).
Definition count_outcome (o : Outcome) (c : counts) : counts :=
  let 'MkCounts processed summarized categorized rejected retrying exhausted := count_state (ou_State o) c in
  MkCounts processed (if has_field o "summary" then summarized + 1 else summarized)
    (if has_field o "categories" then categorized + 1 else categorized) rejected retrying exhausted.

Definition sampled {A} (x : A) (l : list A) : list A := if (length l <? outcomeSampleLimit)%nat then l ++ [x] else l.

Definition record_outcome (explicit : bool) (id : Z) (o : Outcome) (t : tally) : tally :=
  let failed := (ou_Error o =? "category_mapping_failed")%string in
  let reason := if (ou_Error o =? "")%string then None else Some (ou_Error o) in
  MkTally (count_outcome o (ta_counts t))
    (if explicit then ta_outcomesTotal t else ta_outcomesTotal t + 1)
    (if explicit then ta_outcomeSample t else sampled (MkArticleOutcome id (ou_State o) reason None) (ta_outcomeSample t))
    (if failed then ta_categoryMappingErrors t + 1 else ta_categoryMappingErrors t)
    (if failed then sampled ("Article " +:+ itoa id +:+ " category mapping failed") (ta_categoryErrorSample t) else ta_categoryErrorSample t).

(** The state of the loop over batches *)
Record loop_state := MkLoop {
  lp_cursor : Z;
  lp_sourceCounts : gmap Z Z;
  lp_selectedCount : Z;
  lp_tally : tally;
  lp_duplicates : DuplicateCache;
}.

Definition source_of (a : Article) : Z := default 0 (ar_SourceID a).

(** The loop over the rows of a batch: those within the limit of their source *)
Fixpoint eligible (limit : Z) (sources : gmap Z Z) (selected : Z) (rows : list Article) : list Article * gmap Z Z * Z :=
  match rows with
  | [] => ([], sources, selected)
  | row :: rows' =>
      let n := default 0 (sources !! source_of row) in
      if (0 <? limit) && (limit <=? n) then eligible limit sources selected rows'
      else
        let '(l, sources', selected') := eligible limit (<[source_of row := n + 1]> sources) (selected + 1) rows' in
        (row :: l, sources', selected')
  end.

Fixpoint uniq (l : list Z) : list Z :=
  match l with x :: (y :: _) as l' => if x =? y then uniq l' else x :: uniq l' | _ => l end.
Definition uniqueSortedIDs (ids : list Z) : list Z := uniq (merge_sort Z.le ids).

(** ** The receipt *)

Definition outcome_json (o : ArticleOutcome) : json :=
  JObj [("article_id", JNum (itoa (ao_ArticleID o))); ("state", JStr (ao_State o));
        ("reason", match ao_Reason o with Some r => JStr r | None => JNull end);
        ("next_attempt_at", match ao_NextAttemptAt o with Some t => JStr (rfc3339nano t) | None => JNull end)].

(** What is reported of the articles: the outcomes, their number, and the run's verdicts *)
Record report := MkReport {
  rp_outcomes : list ArticleOutcome;
  rp_total : Z;
  rp_status : string;
  rp_settled : bool;
  rp_success : bool;
  rp_retryable : bool;
}.

Definition by_article (x y : ArticleOutcome) : Prop := ao_ArticleID x <= ao_ArticleID y.
#[export] Instance by_article_dec : RelDecision by_article.
Proof. intros x y. unfold by_article. apply _. Defined.

(** Of a run over whatever was due *)
Definition due_report (t : tally) : report :=
  let retrying := co_retrying (ta_counts t) in
  MkReport (merge_sort by_article (ta_outcomeSample t)) (ta_outcomesTotal t) (if 0 <? ta_categoryMappingErrors t then "warning" else "success")
    (retrying =? 0) (ta_categoryMappingErrors t =? 0) (0 <? retrying).

(** Of a run over selected articles, by the states they are in afterwards *)
Definition selected_report (requested : list Z) (outcomes : list ArticleOutcome) (t : tally) : report :=
  let settled := (Z.of_nat (length outcomes) =? Z.of_nat (length requested)) &&
                 forallb (fun o => (ao_State o =? "completed")%string || (ao_State o =? "rejected")%string) outcomes in
  MkReport outcomes (Z.of_nat (length outcomes))
    (match outcomes with [o] => ao_State o | _ => if settled then "settled" else "incomplete" end)
    settled (settled && (ta_categoryMappingErrors t =? 0))
    (existsb (fun o => (ao_State o =? "pending")%string || (ao_State o =? "retry_wait")%string) outcomes).

Definition num (n : Z) : json := JNum (itoa n).

Definition receipt (kind : string) (r : report) (t : tally) : json :=
  let c := ta_counts t in
  JObj ([("status", JStr (rp_status r)); ("articles_processed", num (co_processed c)); ("articles_summarized", num (co_summarized c));
         ("articles_categorized", num (co_categorized c)); ("articles_rejected", num (co_rejected c)); ("articles_retrying", num (co_retrying c));
         ("articles_exhausted", num (co_exhausted c)); ("errors_count", num (ta_categoryMappingErrors t));
         ("article_outcomes", JArr (map outcome_json (rp_outcomes r))); ("article_outcomes_total", num (rp_total r));
         ("article_outcomes_omitted", num (Z.max 0 (rp_total r - Z.of_nat (length (rp_outcomes r))))); ("settled", JBool (rp_settled r));
         ("success", JBool (rp_success r)); ("retryable", JBool (rp_retryable r))] ++
        (if (kind =? "reprocess_failed")%string
         then [("processed", num (co_processed c)); ("improved", num (co_summarized c)); ("errors", JArr (map JStr (ta_categoryErrorSample t)))]
         else [])).

Definition disabled_receipt : json :=
  JObj [("status", JStr "processing_disabled"); ("articles_processed", num 0); ("articles_summarized", num 0); ("articles_categorized", num 0);
        ("errors_count", num 0)].
Definition dry_receipt (candidates : Z) : json :=
  JObj [("status", JStr "dry_run"); ("total_candidates", num candidates); ("found_candidates", num candidates); ("processed", num 0);
        ("improved", num 0); ("errors", JArr [])].

(** ** The run *)

(** [withPhase] *)
Definition in_phase {A} (phase : string) (m : PM A) : RM A := fun w =>
  let '(r, w') := m w in (map_err (fun e => RunPhase phase (RunStore e)) r, w').

(** An article named by a job is processed again from the start unless the job says otherwise. *)
Definition run_force (kind : string) (payload : jobPayload) : bool :=
  match jp_Force payload with Some v => v | None => (kind =? "article_reprocess")%string end.
Definition run_preserve (kind : string) (payload : jobPayload) : bool := jp_PreserveStages payload || (kind =? "article_reprocess")%string.

Section Running.
Context `{Unicode} `{Urls} `{References} `{TextTables}.
Context (pg_lower : string -> string) (sha256 : list Z -> list Z) (shortest : spec_float -> string).
Context (ai : service AIRequest (option http_answer)) (extractor : service ExtractRequest (option http_answer)) (admitted : service context bool).
Context (time_parse : string -> string -> option Z).
Context (others : DuplicateCache -> DuplicateCache) (order : list Article -> list Article).
(** What [select] takes, for an article, when a slot is free and the context has ended *)
Context (drops : Article -> bool).
Context (load : option (service Fence (option OperationalSnapshot))).

Definition process_one := processOne pg_lower sha256 shortest ai extractor admitted time_parse others.

(** The articles of a batch; the first error ends it.  An article that waits for a
    slot when the context ends is dropped without an error. *)
Fixpoint process_batch (p : Processor) (c : context) (f : Fence) (explicit force preserve bilingual : bool) (l : list Article)
    (t : tally) (dup : DuplicateCache) : RM (tally * DuplicateCache) :=
  match l with
  | [] => mret (t, dup)
  | a :: l' =>
      now ← app_now;
      if Done c now && drops a then process_batch p c f explicit force preserve bilingual l' t dup
      else
      '(r, dup) ← process_one p dup c f a force preserve bilingual;
      match r with
      | Err e => raise (RunPhase "process_batch" e)
      | Ok o => process_batch p c f explicit force preserve bilingual l' (record_outcome explicit (ar_ID a) o t) dup
      end
  end.

Fixpoint batches (fuel : nat) (p : Processor) (c : context) (f : Fence) (kind : string) (payload : jobPayload) (b : bounds) (bilingual : bool)
    (s : loop_state) : RM loop_state :=
  match fuel with
  | O => raise RunOutOfFuel
  | S fuel =>
      let explicit := (kind =? "article_reprocess")%string in
      now ← app_now;
      if Done c now then raise RunDone
      else
        let left := bo_cycle b - lp_selectedCount s in
        if (0 <? bo_cycle b) && (left <=? 0) then mret s
        else
          let remaining := if 0 <? bo_cycle b then Z.min left (bo_batch b) else bo_batch b in
          let '(from, to) := match jp_ArticleIDs payload with [] => (bo_from b, bo_to b) | _ => (None, None) end in
          batch ← in_phase "select_due" (SelectDue f remaining (lp_cursor s) (jp_ArticleIDs payload) from to (maxAttempts p));
          match last batch with
          | None => mret s
          | Some lowest =>
              let '(rows, sources, selected) := eligible (bo_source b) (lp_sourceCounts s) (lp_selectedCount s) batch in
              '(t, dup) ← process_batch p c f explicit (run_force kind payload) (run_preserve kind payload) bilingual (order rows) (lp_tally s) (lp_duplicates s);
              let s := MkLoop (ar_ID lowest) sources selected t dup in
              if Z.of_nat (length batch) <? remaining then mret s else batches fuel p c f kind payload b bilingual s
          end
  end.

(** What the answer to a Serbian retry is worth: title, summary, prompt version,
    model, and whether it is kept *)
Definition retried_locale (answer : result call_error analysis) : string * string * string * string * bool :=
  match answer with
  | Ok v =>
      let v := default ∅ v in
      if (match member v "_processing_error" with VNull => true | _ => false end) && version2 v then
        let sr := vfield (member v "localizations") "sr-Latn" in
        let title := TrimSpace (as_string (vfield sr "title")) in
        let summary := TrimSpace (as_string (vfield sr "summary")) in
        (title, summary, as_string (member v "localization_prompt_version"), as_string (member v "localization_model"),
         good_title title && good_summary summary && serbianLatinProse (title +:+ string_of [10] +:+ summary))
      else ("", "", "", "", false)
  | Err _ => ("", "", "", "", false)
  end.

(** The localizations that wait for a retry, [n] at most *)
Fixpoint localizations (n : nat) (p : Processor) (f : Fence) : RM unit :=
  match n with
  | O => mret tt
  | S n =>
      claimed ← in_phase "localization_claim" (ClaimLocalizationRetry sha256 f (maxAttempts p) (Z.max (timeout p + 60 * Second) (30 * Minute)));
      match claimed with
      | None => mret tt
      | Some (a, fp) =>
          let input := MkInput (ar_Title a) (ar_Summary a) (ar_URL a) ["sr-Latn"] None in
          answer ← inspect (Call ai f (ar_ID a) (ar_ProcessingAttempts a) fp "analyze" (InAnalyze input));
          match answer with
          | Err (CallFatal code) => raise (RunPhase "localization_retry" (RunCall (CallFatal code)))
          | _ =>
              let '(title, summary, prompt, model, valid) := retried_locale answer in
              _ ← in_phase "localization_outcome" (SaveLocalizationRetry sha256 f a fp title summary prompt model valid (maxAttempts p));
              localizations n p f
          end
      end
  end.

Definition run_job (fuel : nat) (p : Processor) (dup : DuplicateCache) (c : context) (f : Fence) (operational : option OperationalSnapshot) : RM (json * DuplicateCache) :=
  '(kind, raw) ← in_phase "canonical_job" (CanonicalJob f);
  match job_payload raw with
  | None => raise (RunText "invalid canonical processing payload")
  | Some payload =>
      let dryRun := (kind =? "reprocess_failed")%string && jp_DryRun payload in
      let b := run_bounds p operational kind payload in
      if dryRun then
        candidates ← in_phase "select_dry_run" (SelectDue f (if jp_Limit payload <? 1 then 20 else jp_Limit payload) 0 [] (bo_from b) (bo_to b) (maxAttempts p));
        mret (dry_receipt (Z.of_nat (length candidates)), dup)
      else
        _ ← in_phase "recover_claims" (RecoverClaims f);
        now ← app_now;
        _ ← in_phase "recover_exhausted" (RecoverExhausted f (maxAttempts p) now);
        let serbian := match operational with Some s => os_SerbianEnabled s | None => false end in
        let explicit := (kind =? "article_reprocess")%string in
        s ← batches fuel p c f kind payload b serbian (MkLoop 0 ∅ 0 no_tally dup);
        let budget := if 0 <? bo_cycle b then Z.min (bo_batch b) (Z.max 0 (bo_cycle b - lp_selectedCount s)) else bo_batch b in
        _ ← (if serbian && negb explicit && negb (kind =? "reprocess_failed")%string then localizations (Z.to_nat budget) p f else mret tt);
        let t := lp_tally s in
        if explicit then
          let requested := uniqueSortedIDs (jp_ArticleIDs payload) in
          outcomes ← in_phase "read_selected_outcomes" (ArticleOutcomes requested);
          mret (receipt kind (selected_report requested outcomes t) t, lp_duplicates s)
        else mret (receipt kind (due_report t) t, lp_duplicates s)
  end.

Definition Run (fuel : nat) (p : Processor) (dup : DuplicateCache) (c : context) (f : Fence) : RM (json * DuplicateCache) :=
  match load with
  | None => run_job fuel p dup c f None
  | Some load =>
      snapshot ← ask load f;
      match snapshot with
      | None => raise (RunPhase "operational_configuration" (RunText "snapshot"))
      | Some s =>
          if negb (valid_snapshot s) then raise (RunPhase "operational_configuration" (RunText "invalid pinned settings"))
          else if negb (os_ProcessingEnabled s) then mret (disabled_receipt, dup)
          else run_job fuel p dup c f (Some s)
      end
  end.
End Running.

(** ** Selections *)

Lemma by_id_total {A} : Total (@by_id A).
Proof. intros x y. unfold by_id. lia. Qed.
Lemma by_id_trans {A} : Transitive (@by_id A).
Proof. intros x y z. unfold by_id. lia. Qed.
#[export] Existing Instance by_id_total.
#[export] Existing Instance by_id_trans.

Lemma sorted_ids {A} (l : list (Z * A)) : StronglySorted by_id l -> NoDup l.*1 -> StronglySorted Z.lt l.*1.
Proof.
  induction 1 as [|x l Hs IH Hf]; cbn; [constructor|]. intros [Hn Hd]%NoDup_cons. constructor; [by apply IH|].
  apply Forall_forall. intros k Hk. apply list_elem_of_fmap in Hk as (y & -> & Hy). rewrite Forall_forall in Hf. specialize (Hf y Hy). unfold by_id in Hf.
  assert (x.1 <> y.1) by (intros E; apply Hn; rewrite E; by apply list_elem_of_fmap_2). lia.
Qed.

(** The rows a query finds come by ascending ids of articles that exist. *)
Lemma articles_where_spec P d :
  StronglySorted Z.lt (articles_where P d).*1 /\
  forall k r, (k, r) ∈ articles_where P d -> P k r = true /\ is_Some (q_articles (p_queue d) !! k).
Proof.
  unfold articles_where. set (l := filter _ _). assert (merge_sort by_id l ≡ₚ l) as Hp by apply merge_sort_Permutation.
  split.
  - apply sorted_ids; [apply (StronglySorted_merge_sort by_id)|]. rewrite Hp. eapply sublist_NoDup; [apply (NoDup_fst_map_to_list (map_zip (q_articles (p_queue d)) (p_texts d)))|].
    apply fmap_sublist, sublist_filter.
  - intros k r. rewrite Hp. unfold l. rewrite list_elem_of_filter, elem_of_map_to_list. cbn [fst snd]. intros [HP Hk]. split; [done|].
    apply map_lookup_zip_with_Some in Hk as (x & y & _ & Hx & _). by eexists.
Qed.

(** A selection after a cursor *)
Record selection (limit cursor : Z) (rows : list Article) : Prop := {
  se_sorted : StronglySorted Z.lt (map ar_ID rows);
  se_after : Forall (fun a => cursor < ar_ID a < 2 ^ 31) rows;
  se_limit : Z.of_nat (length rows) <= limit;
}.

Lemma due_after now cursor selected from to maxAttempts id r : due now cursor selected from to maxAttempts id r = true -> cursor < id.
Proof. unfold due. intros Hd. apply andb_true_iff in Hd as [Hd _]. apply andb_true_iff in Hd as [Hd _]. by apply Z.ltb_lt. Qed.

Lemma strongly_sorted_take {A} (R : relation A) n l : StronglySorted R l -> StronglySorted R (take n l).
Proof.
  intros Hs. revert n. induction Hs as [|x l Hs IH Hf]; intros [|n]; cbn; try constructor; [apply IH|].
  by apply Forall_take.
Qed.

Lemma select_body_spec f limit cursor selected from to maxAttempts d : p_wf d ->
  twp (select_body f limit cursor selected from to maxAttempts)
    (fun r _ _ => match r with Ok rows => selection limit cursor rows | Err _ => True end) d d.
Proof.
  intros Hwf. unfold select_body. apply twp_tx_clock. intros now. apply twp_fence_running; [done..|]. intros t r Hf _.
  assert (p_wf t) as Hwt by (eapply pe_wf; [exact (fp_evolves _ _ _ _ Hf)|done]).
  apply twp_exec; [|done]. intros lk now'. unfold limit_rows. destruct (limit <? 0) eqn:Hl; cbn [mbind result_bind]; [done|]. bool_to_prop.
  apply twp_commit; [|done..]. set (P := due now cursor selected from to maxAttempts).
  destruct (articles_where_spec P t) as [Hs Hin]. set (n := Z.to_nat limit).
  assert (map ar_ID (map (fun kv => scan_article (p_sources t) kv.1 kv.2) (take n (articles_where P t))) = take n (articles_where P t).*1) as Hids.
  { rewrite map_map, <- fmap_take. apply map_ext. by intros [k x]. }
  split.
  - rewrite Hids. by apply strongly_sorted_take.
  - apply Forall_forall. intros a ([k x] & -> & Hkx)%list_elem_of_fmap. apply elem_of_take in Hkx as (i & Hi & _). apply list_elem_of_lookup_2 in Hi.
    destruct (Hin k x Hi) as [HP Hk]. cbn. split; [by eapply due_after|]. apply (pw_ids _ Hwt k Hk).
  - rewrite length_map, length_take. lia.
Qed.

Lemma SelectDue_spec phase f limit cursor selected from to maxAttempts d : p_wf d ->
  rwp p_evolves (in_phase phase (SelectDue f limit cursor selected from to maxAttempts))
    (fun r d' => p_evolves d d' /\ match r with Ok rows => selection limit cursor rows | Err e => exists e', e = RunPhase phase e' end) d.
Proof.
  intros Hwf w Hd Ht Hr. pose proof (rwp_keeps p_evolves _ (fun _ d' => p_evolves d d') d (SelectDue_keeps f limit cursor selected from to maxAttempts)
    (closed_with_tx _ _) (fun _ _ H => H) w Hd Ht Hr) as (H1 & H2 & H3).
  assert (rwp p_evolves (SelectDue f limit cursor selected from to maxAttempts)
    (fun r _ => match r with Ok rows => selection limit cursor rows | Err _ => True end) d) as Hs.
  { apply rwp_with_tx; [apply _|]. intros d1 Hd1. split; [|done]. eapply twp_mono; [apply select_body_spec; by eapply pe_wf|]. by intros r d' tx. }
  destruct (Hs w Hd Ht Hr) as (H4 & _). unfold in_phase. destruct (SelectDue _ _ _ _ _ _ _ w) as [[rows|e] w']; cbn in *; [done|]. by eauto 10.
Qed.

(** ** What a run accounts for *)

Notation handled := (list (Article * Outcome)).

Definition tally_of (explicit : bool) (done : handled) : tally := foldl (fun t x => record_outcome explicit (ar_ID x.1) x.2 t) no_tally done.
Definition of_source (src : Z) (l : list Article) : Z := Z.of_nat (length (filter (fun a => source_of a = src) l)).
Definition in_state (s : string) (done : handled) : Z := Z.of_nat (length (filter (fun x => ou_State x.2 = s) done)).

(** The outcomes counted, and where the counts came from *)
Record accounted (explicit : bool) (done : handled) (t : tally) : Prop := {
  ad_counts : let c := ta_counts t in
    co_processed c = in_state StateCompleted done /\ co_rejected c = in_state StateRejected done /\
    co_retrying c = in_state StateRetryWait done /\ co_exhausted c = in_state StateExhausted done;
  ad_sample : explicit = false -> ta_outcomesTotal t = Z.of_nat (length done) /\
    ta_outcomeSample t = take outcomeSampleLimit (map (fun x => MkArticleOutcome (ar_ID x.1) (ou_State x.2)
      (if (ou_Error x.2 =? "")%string then None else Some (ou_Error x.2)) None) done);
}.

Lemma in_state_snoc s done x : in_state s (done ++ [x]) = in_state s done + (if decide (ou_State x.2 = s) then 1 else 0).
Proof. unfold in_state. rewrite filter_app, length_app, filter_cons, filter_nil. destruct (decide _); simpl; lia. Qed.

Lemma sampled_take {A} (x : A) l : sampled x (take outcomeSampleLimit l) = take outcomeSampleLimit (l ++ [x]).
Proof.
  unfold sampled. destruct (_ <? _)%nat eqn:E.
  - apply Nat.ltb_lt in E. rewrite length_take in E. rewrite take_ge by lia. rewrite take_ge by (rewrite length_app; simpl; lia). done.
  - apply Nat.ltb_ge in E. rewrite length_take in E. rewrite take_app_le by lia. done.
Qed.

Lemma tally_accounted explicit done : accounted explicit done (tally_of explicit done).
Proof.
  induction done as [|x done [H1 H2]] using rev_ind; [by split|].
  unfold tally_of in *. rewrite foldl_app. cbn [foldl]. set (t := foldl _ _ done) in *. clearbody t.
  split.
  - rewrite !in_state_snoc. destruct H1 as (E1 & E2 & E3 & E4). unfold record_outcome. cbv zeta. cbn [ta_counts]. unfold count_outcome, count_state.
    destruct (ta_counts t) as [processed summarized categorized rejected retrying exhausted]. cbn [co_processed co_rejected co_retrying co_exhausted] in *.
    unfold StateRetryWait, StateCompleted, StateRejected, StateExhausted in *. generalize (ou_State x.2). intros st.
    repeat match goal with |- context [(st =? ?s)%string] => destruct (String.eqb_spec st s) end; cbn;
      repeat match goal with |- context [decide ?P] => destruct (decide P) end; try congruence; split_and!; lia.
  - intros ->. destruct (H2 eq_refl) as [E1 E2]. unfold record_outcome. cbv zeta. cbn [ta_outcomesTotal ta_outcomeSample].
    rewrite E1, E2, length_app. cbn. split; [lia|]. rewrite map_app. cbn [map]. by apply sampled_take.
Qed.

(** Every state an attempt leaves is one of those counted. *)
Lemma states_cover explicit done t : accounted explicit done t ->
  Forall (fun x => ou_State x.2 ∈ [StateRetryWait; StateCompleted; StateRejected; StateExhausted]) done ->
  let c := ta_counts t in co_processed c + co_rejected c + co_retrying c + co_exhausted c = Z.of_nat (length done).
Proof.
  intros [Hc _] Hd. cbv zeta in Hc |- *. destruct Hc as (-> & -> & -> & ->). revert Hd. induction done as [|x done IH] using rev_ind; [done|]. intros [Hd Hx]%Forall_app. specialize (IH Hd).
  rewrite Forall_singleton in Hx. rewrite !in_state_snoc, length_app. cbn [length].
  unfold StateRetryWait, StateCompleted, StateRejected, StateExhausted in *.
  apply list_elem_of_In in Hx. cbn [In] in Hx. destruct Hx as [<-|[<-|[<-|[<-|[]]]]];
    repeat match goal with |- context [decide (?a = ?b)] => destruct (decide (a = b)); try done end; lia.
Qed.

Lemma eligible_spec limit rows : forall sources selected l sources' selected',
  eligible limit sources selected rows = (l, sources', selected') ->
  sublist l rows /\ selected' = selected + Z.of_nat (length l) /\
  (forall src, default 0 (sources' !! src) = default 0 (sources !! src) + of_source src l) /\
  (0 < limit -> (forall src, default 0 (sources !! src) <= limit) -> forall src, default 0 (sources' !! src) <= limit).
Proof.
  induction rows as [|row rows IH]; intros sources selected l sources' selected'; cbn [eligible].
  { intros [= <- <- <-]. split_and!; [done|cbn; lia|intros src; change (of_source src []) with 0; lia|auto]. }
  destruct (_ && _) eqn:E.
  { intros He. destruct (IH _ _ _ _ _ He) as (H1 & H2 & H3 & H4). split_and!; [by apply sublist_cons|done..]. }
  destruct (eligible limit _ _ rows) as [[l1 s1] n1] eqn:He. intros [= <- <- <-].
  destruct (IH _ _ _ _ _ He) as (H1 & H2 & H3 & H4). split_and!; [by apply sublist_skip|cbn [length]; lia| |].
  - intros src. rewrite H3. unfold of_source. rewrite filter_cons. destruct (decide (source_of row = src)) as [->|Hn].
    + rewrite lookup_insert_eq. simpl. lia.
    + by rewrite lookup_insert_ne.
  - intros Hl Hs. apply H4; [done|]. intros src. destruct (decide (source_of row = src)) as [<-|Hn].
    + rewrite lookup_insert_eq. cbn [default from_option id]. apply andb_false_iff in E as [E|E]; bool_to_prop; simpl in *; lia.
    + by rewrite lookup_insert_ne.
Qed.

(** ** The loop *)

Section Runs.
Context `{Unicode} `{Urls} `{References} `{TextTables}.
Context (pg_lower : string -> string) (sha256 : list Z -> list Z) (shortest : spec_float -> string).
Context (ai : service AIRequest (option http_answer)) (extractor : service ExtractRequest (option http_answer)) (admitted : service context bool).
Context (time_parse : string -> string -> option Z).
Context (others : DuplicateCache -> DuplicateCache) (order : list Article -> list Article) (drops : Article -> bool).
Context (Hai : well_behaved ai) (Hex : well_behaved extractor) (Had : well_behaved admitted).
Context (Horder : forall l, order l ≡ₚ l).

Notation batch_of := (process_batch pg_lower sha256 shortest ai extractor admitted time_parse others drops).
Notation loop := (batches pg_lower sha256 shortest ai extractor admitted time_parse others order drops).

(** An article the run has dealt with: its claim is settled for good, with an
    outcome an attempt may leave. *)
Definition dealt (f : Fence) (force preserve : bool) (d : ptables) (x : Article * Outcome) : Prop :=
  settled (claim_of f (ar_ID x.1)) d /\ saved_final (stages_of x.1 force preserve) x.2.

Lemma dealt_evolves f force preserve d d' done : p_evolves d d' -> Forall (dealt f force preserve d) done -> Forall (dealt f force preserve d') done.
Proof. intros Hd Hf. eapply Forall_impl; [exact Hf|]. intros x [H1' H2']. split; [|done]. by eapply settled_evolves. Qed.

(** Articles are dropped only when the context has ended. *)
Definition dropped_by (c : context) (dropped : list Article) : Prop := dropped = [] \/ exists now, Done c now = true.

Lemma dropped_app c l l' : dropped_by c l -> dropped_by c l' -> dropped_by c (l ++ l').
Proof. intros [->|Hl] [->|Hl']; [by left|by right..]. Qed.

Lemma process_batch_spec p c f explicit force preserve bilingual l : forall t dup d0, p_wf d0 ->
  rwp p_evolves (batch_of p c f explicit force preserve bilingual l t dup) (fun r d' => p_evolves d0 d' /\
    match r with
    | Ok (t', _) => exists done dropped, done.*1 ++ dropped ≡ₚ l /\ Forall (dealt f force preserve d') done /\ dropped_by c dropped /\
        t' = foldl (fun t x => record_outcome explicit (ar_ID x.1) x.2 t) t done
    | Err e => exists e', e = RunPhase "process_batch" e'
    end) d0.
Proof using Hai Hex Had.
  induction l as [|a l IH]; intros t dup d0 Hwf; cbn [process_batch].
  { apply rwp_ret. split; [done|]. exists [], []. by split_and!; [|constructor|left|]. }
  apply rwp_app_now; [apply _|]. intros now d1 Hd1. assert (p_wf d1) as Hwf1 by by eapply pe_wf.
  destruct (Done c now && drops a) eqn:Hdrop.
  { eapply rwp_mono; [by apply IH|]. intros [[t' dup']|e] d2 [Hd2 Hq]; (split; [by etrans|]); [|done].
    destruct Hq as (done & dropped & Hp & Hf & Hc & Ht). exists done, (a :: dropped). split_and!; [|done| |done].
    - rewrite <- Hp. symmetry. apply Permutation_middle.
    - right. apply andb_true_iff in Hdrop as [Hdrop _]. by exists now. }
  apply rwp_bind. eapply rwp_mono; [by apply processOne_spec|]. intros [[[o|e] dup']|e] d2 [Hd2 Hq]; [| |done].
  - eapply rwp_mono; [apply IH; by eapply pe_wf|]. intros [[t' dup'']|e] d3 [Hd3 Hq']; (split; [by do 2 (etrans; [done|])|]); [|done].
    destruct Hq' as (done & dropped & Hp & Hf & Hc & Ht). exists ((a, o) :: done), dropped. split_and!; [|constructor|done|done].
    + rewrite <- Hp. done.
    + destruct Hq as [Hq1 Hq2]. split; [by eapply settled_evolves|done].
    + done.
  - apply rwp_raise. split; [by etrans|by eexists].
Qed.

(** What holds of a run's loop whenever it stops: the articles dealt with and the
    articles dropped are different articles, within the limits, and the counts
    are theirs. *)
Record run_accounts (c : context) (f : Fence) (explicit force preserve : bool) (b : bounds) (hs : handled) (dropped : list Article)
    (s : loop_state) (d : ptables) : Prop := {
  ra_once : NoDup (map ar_ID (hs.*1 ++ dropped));
  ra_dealt : Forall (dealt f force preserve d) hs;
  ra_dropped : dropped_by c dropped;
  ra_tally : lp_tally s = tally_of explicit hs;
  ra_selected : lp_selectedCount s = Z.of_nat (length (hs.*1 ++ dropped));
  ra_cycle : 0 < bo_cycle b -> lp_selectedCount s <= bo_cycle b;
  ra_source : 0 < bo_source b -> forall src, of_source src (hs.*1 ++ dropped) <= bo_source b;
}.
Record loop_ok (c : context) (f : Fence) (explicit force preserve : bool) (b : bounds) (hs : handled) (dropped : list Article)
    (s : loop_state) (d : ptables) : Prop := {
  lo_accounts : run_accounts c f explicit force preserve b hs dropped s d;
  lo_cursor : 0 <= lp_cursor s < 2 ^ 31;
  lo_below : Forall (fun a => ar_ID a <= lp_cursor s) (hs.*1 ++ dropped);
  lo_sources : forall src, default 0 (lp_sourceCounts s !! src) = of_source src (hs.*1 ++ dropped);
}.

Lemma run_accounts_evolves c f explicit force preserve b hs dropped s d d' : p_evolves d d' ->
  run_accounts c f explicit force preserve b hs dropped s d -> run_accounts c f explicit force preserve b hs dropped s d'.
Proof. intros Hd [H1' H2' H3' H4' H5' H6' H7']. split; try done. by eapply dealt_evolves. Qed.

Lemma of_source_perm src l l' : l ≡ₚ l' -> of_source src l = of_source src l'.
Proof. intros Hp. unfold of_source. by rewrite Hp. Qed.
Lemma of_source_app src l l' : of_source src (l ++ l') = of_source src l + of_source src l'.
Proof. unfold of_source. rewrite filter_app, length_app. lia. Qed.

Lemma shuffle {A B} (hs hs' : list (A * B)) (l l' : list A) : (hs ++ hs').*1 ++ (l ++ l') ≡ₚ (hs.*1 ++ l) ++ (hs'.*1 ++ l').
Proof. rewrite fmap_app. solve_Permutation. Qed.

Lemma sorted_nodup l : StronglySorted Z.lt l -> NoDup l.
Proof.
  induction 1 as [|x l _ IH Hf]; [constructor|]. constructor; [|done]. intros Hx. rewrite Forall_forall in Hf. specialize (Hf x Hx). lia.
Qed.

(** A batch more *)
Lemma loop_step c f explicit force preserve b hs dropped s d d' remaining rows lowest l sources selected hs' dropped' t dup :
  loop_ok c f explicit force preserve b hs dropped s d -> p_evolves d d' ->
  selection remaining (lp_cursor s) rows -> last rows = Some lowest ->
  (0 < bo_cycle b -> remaining <= bo_cycle b - lp_selectedCount s) ->
  eligible (bo_source b) (lp_sourceCounts s) (lp_selectedCount s) rows = (l, sources, selected) ->
  hs'.*1 ++ dropped' ≡ₚ order l -> Forall (dealt f force preserve d') hs' -> dropped_by c dropped' ->
  t = foldl (fun t x => record_outcome explicit (ar_ID x.1) x.2 t) (lp_tally s) hs' ->
  loop_ok c f explicit force preserve b (hs ++ hs') (dropped ++ dropped') (MkLoop (ar_ID lowest) sources selected t dup) d' /\
  lp_cursor s < ar_ID lowest.
Proof using Horder.
  intros [[Honce Hdealt Hdrop Htally Hsel Hcycle Hsource] Hcur Hbelow Hcounts] Hd [Hsorted Hafter Hlimit] Hlast Hrem He Hp Hf' Hdrop' ->.
  destruct (eligible_spec _ _ _ _ _ _ _ He) as (Hsub & -> & Hsrc & Hlim).
  assert (hs'.*1 ++ dropped' ≡ₚ l) as Hpl by by rewrite Hp.
  assert ((hs ++ hs').*1 ++ (dropped ++ dropped') ≡ₚ (hs.*1 ++ dropped) ++ l) as Hall by by rewrite shuffle, Hpl.
  assert (Forall (fun a => lp_cursor s < ar_ID a < 2 ^ 31) l) as Hafter'.
  { apply Forall_forall. intros a Ha. rewrite Forall_forall in Hafter. apply Hafter. by eapply elem_of_sublist. }
  assert (lowest ∈ rows) as Hlow by by apply last_Some_elem_of.
  assert (lp_cursor s < ar_ID lowest < 2 ^ 31) as Hlow' by by rewrite Forall_forall in Hafter; apply Hafter.
  assert (Forall (fun a => ar_ID a <= ar_ID lowest) rows) as Hle.
  { apply last_Some in Hlast as [rows' ->]. rewrite map_app in Hsorted. cbn [map] in Hsorted. apply Forall_app. split; [|by constructor].
    apply StronglySorted_app in Hsorted as (Hs & _ & _). apply Forall_forall. intros a Ha.
    specialize (Hs (ar_ID a) (ar_ID lowest)). rewrite list_elem_of_singleton in Hs. specialize (Hs ltac:(by apply list_elem_of_fmap_2) eq_refl). lia. }
  assert (forall src, default 0 (sources !! src) = of_source src ((hs ++ hs').*1 ++ (dropped ++ dropped'))) as Hcounts'.
  { intros src. rewrite Hsrc, Hcounts, (of_source_perm src _ _ Hall), (of_source_app src (hs.*1 ++ dropped) l). done. }
  split; [|lia]. split; [split|cbn; lia| |done].
  - rewrite Hall, map_app. apply NoDup_app. split; [done|]. split.
    + intros id Hid Hid'. apply list_elem_of_fmap in Hid as (a & -> & Ha), Hid' as (a' & E & Ha').
      rewrite Forall_forall in Hbelow, Hafter'. specialize (Hbelow a Ha). specialize (Hafter' a' Ha'). lia.
    + eapply sublist_NoDup; [apply sorted_nodup, Hsorted|]. by apply fmap_sublist.
  - apply Forall_app. split; [by eapply dealt_evolves|done].
  - by apply dropped_app.
  - cbn [lp_tally]. unfold tally_of. rewrite foldl_app. f_equal. exact Htally.
  - cbn [lp_selectedCount]. rewrite Hall, length_app, Hsel. lia.
  - cbn [lp_selectedCount]. intros Hc. specialize (Hrem Hc). apply sublist_length in Hsub. lia.
  - intros Hl src. rewrite <- Hcounts'. apply Hlim; [done|]. intros src'. rewrite Hcounts. by apply Hsource.
  - cbn [lp_cursor]. rewrite Hall. apply Forall_app. split.
    + eapply Forall_impl; [exact Hbelow|]. intros a Ha. cbn in Ha. lia.
    + apply Forall_forall. intros a Ha. rewrite Forall_forall in Hle. apply Hle. by eapply elem_of_sublist.
Qed.

Lemma rwp_phase {A} phase (m : PM A) (Q : result run_error A -> ptables -> Prop) d :
  pkeeps m -> closed m -> (forall a d', p_evolves d d' -> Q (Ok a) d') -> (forall e d', p_evolves d d' -> Q (Err (RunPhase phase e)) d') ->
  rwp p_evolves (in_phase phase m) Q d.
Proof.
  intros Hk Hc Ha He w Hd Ht Hr. pose proof (rwp_keeps p_evolves m (fun _ d' => p_evolves d d') d Hk Hc (fun _ _ H => H) w Hd Ht Hr) as (H1' & H2' & H3').
  unfold in_phase. destruct (m w) as [[a|e] w']; cbn in *; split_and!; auto.
Qed.

Lemma batches_spec fuel p c f kind payload b bilingual : forall s hs dropped d0, p_wf d0 ->
  let explicit := (kind =? "article_reprocess")%string in
  let force := run_force kind payload in
  let preserve := run_preserve kind payload in
  loop_ok c f explicit force preserve b hs dropped s d0 ->
  rwp p_evolves (loop fuel p c f kind payload b bilingual s) (fun r d' => p_evolves d0 d' /\
    match r with
    | Ok s' => exists hs' dropped', run_accounts c f explicit force preserve b hs' dropped' s' d'
    | Err e => 2 ^ 31 - lp_cursor s <= Z.of_nat fuel -> e <> RunOutOfFuel
    end) d0.
Proof using Hai Hex Had Horder.
  intros s hs dropped d0 Hwf explicit force preserve. revert s hs dropped d0 Hwf.
  induction fuel as [|fuel IH]; intros s hs dropped d0 Hwf Hok; cbn [batches].
  { apply rwp_raise. split; [done|]. intros Hf. destruct (lo_cursor _ _ _ _ _ _ _ _ _ _ Hok). lia. }
  cbv zeta. fold explicit force preserve.
  apply rwp_app_now; [apply _|]. intros now d1 Hd1. destruct (Done c now); [by apply rwp_raise|].
  destruct ((0 <? bo_cycle b) && _) eqn:Hcy.
  { apply rwp_ret. split; [done|]. exists hs, dropped. by eapply run_accounts_evolves; [|apply Hok]. }
  set (remaining := if 0 <? bo_cycle b then _ else _).
  destruct (match jp_ArticleIDs payload with [] => _ | _ => _ end) as [from to].
  apply rwp_bind. eapply rwp_mono; [apply SelectDue_spec; by eapply pe_wf|]. intros [rows|e] d2 [Hd2 Hsel].
  2: { split; [by etrans|]. destruct Hsel as [e' ->]. done. }
  destruct (last rows) as [lowest|] eqn:Hlast.
  2: { apply rwp_ret. split; [by etrans|]. exists hs, dropped. eapply run_accounts_evolves; [|apply Hok]. by etrans. }
  destruct (eligible _ _ _ rows) as [[l sources] selected] eqn:He.
  assert (p_evolves d0 d2) as Hd02 by by etrans.
  apply rwp_bind. eapply rwp_mono; [apply process_batch_spec; by eapply pe_wf|]. intros [[t dup]|e] d3 [Hd3 Hb].
  2: { split; [by etrans|]. destruct Hb as [e' ->]. done. }
  destruct Hb as (hs' & dropped' & Hp & Hf' & Hdrop' & Ht).
  assert (p_evolves d0 d3) as Hd03 by by etrans.
  destruct (loop_step c f explicit force preserve b hs dropped s d0 d3 remaining rows lowest l sources selected hs' dropped' t dup) as [Hok' Hlt];
    try done.
  { intros Hc. subst remaining. rewrite (proj2 (Z.ltb_lt _ _) Hc). lia. }
  destruct (_ <? remaining).
  - apply rwp_ret. split; [done|]. exists (hs ++ hs'), (dropped ++ dropped'). apply Hok'.
  - eapply rwp_mono; [eapply IH; [by eapply pe_wf|exact Hok']|]. intros r d4 [Hd4 Hr]. split; [by etrans|].
    destruct r as [s'|e]; [done|]. intros Hfuel. apply Hr. cbn [lp_cursor]. lia.
Qed.

(** What a receipt says of the tables: nothing was due to be touched, or it is
    that of a loop that accounts for its articles. *)
Inductive reported (c : context) (f : Fence) (p : Processor) (operational : option OperationalSnapshot) (d : ptables) : json -> Prop :=
| ReportedDisabled s : operational = Some s -> os_ProcessingEnabled s = false -> reported c f p operational d disabled_receipt
| ReportedDry candidates : reported c f p operational d (dry_receipt candidates)
| ReportedRun kind payload hs dropped s rep :
    let explicit := (kind =? "article_reprocess")%string in
    let t := lp_tally s in
    run_accounts c f explicit (run_force kind payload) (run_preserve kind payload) (run_bounds p operational kind payload) hs dropped s d ->
    accounted explicit hs t ->
    co_processed (ta_counts t) + co_rejected (ta_counts t) + co_retrying (ta_counts t) + co_exhausted (ta_counts t) = Z.of_nat (length hs) ->
    (if explicit then exists outcomes, rep = selected_report (uniqueSortedIDs (jp_ArticleIDs payload)) outcomes t else rep = due_report t) ->
    reported c f p operational d (receipt kind rep t).

Lemma accounts_reported c f p operational kind payload hs dropped s rep d :
  let explicit := (kind =? "article_reprocess")%string in
  run_accounts c f explicit (run_force kind payload) (run_preserve kind payload) (run_bounds p operational kind payload) hs dropped s d ->
  (if explicit then exists outcomes, rep = selected_report (uniqueSortedIDs (jp_ArticleIDs payload)) outcomes (lp_tally s) else rep = due_report (lp_tally s)) ->
  reported c f p operational d (receipt kind rep (lp_tally s)).
Proof.
  intros explicit Hra Hrep. assert (accounted explicit hs (lp_tally s)) as Hacc by (rewrite (ra_tally _ _ _ _ _ _ _ _ _ _ Hra); apply tally_accounted).
  eapply ReportedRun; [exact Hra|exact Hacc| |exact Hrep].
  apply (states_cover explicit hs _ Hacc). eapply Forall_impl; [exact (ra_dealt _ _ _ _ _ _ _ _ _ _ Hra)|]. intros x [_ Hx]. apply Hx.
Qed.

Lemma start_ok c f explicit force preserve b dup d : loop_ok c f explicit force preserve b [] [] (MkLoop 0 ∅ 0 no_tally dup) d.
Proof. split; [split|cbn; lia|constructor|done]; try constructor; cbn; try done; intros; try change (of_source src []) with 0; lia. Qed.

(** The loop over localizations runs out of no fuel. *)
Lemma localizations_spec n p f d0 :
  rwp p_evolves (localizations sha256 ai n p f) (fun r d' => p_evolves d0 d' /\ match r with Ok _ => True | Err e => e <> RunOutOfFuel end) d0.
Proof using Hai.
  revert d0. induction n as [|n IH]; intros d0; cbn [localizations]; [by apply rwp_ret|].
  apply rwp_bind, rwp_phase; [eauto with effects|apply closed_with_tx| |by intros; split].
  intros [[a fp]|] d1 Hd1; [|by apply rwp_ret]. apply rwp_inspected; [apply _|by apply Call_keeps|by apply Call_closed|].
  intros answer d2 Hd2. assert (p_evolves d0 d2) as Hd02 by by etrans.
  assert (forall v, rwp p_evolves (let '(title, summary, prompt, model, valid) := v in
    _ ← in_phase "localization_outcome" (SaveLocalizationRetry sha256 f a fp title summary prompt model valid (maxAttempts p)); localizations sha256 ai n p f)
    (fun r d' => p_evolves d0 d' /\ match r with Ok _ => True | Err e => e <> RunOutOfFuel end) d2) as Hsave.
  { intros [[[[title summary] prompt] model] valid]. apply rwp_bind, rwp_phase; [eauto with effects|apply closed_with_tx| |].
    - intros _ d3 Hd3. eapply rwp_mono; [apply IH|]. intros r d4 [Hd4 Hr]. split; [by do 2 (etrans; [done|])|done].
    - intros e d3 Hd3. split; [by etrans|done]. }
  destruct answer as [v|[code| |text]]; try apply Hsave. by apply rwp_raise.
Qed.

Lemma ArticleOutcomes_keeps ids : pkeeps (ArticleOutcomes ids).
Proof. destruct ids; unfold ArticleOutcomes; keep. Qed.
Lemma ArticleOutcomes_closed ids : closed (ArticleOutcomes ids).
Proof. destruct ids; unfold ArticleOutcomes; effects. Qed.

Context (load : option (service Fence (option OperationalSnapshot))).
Context (Hload : match load with Some l => well_behaved l | None => True end).

Notation job_of := (run_job pg_lower sha256 shortest ai extractor admitted time_parse others order drops).
Notation run_of := (Run pg_lower sha256 shortest ai extractor admitted time_parse others order drops load).

(** The result of a run that starts from [d0] *)
Definition run_result (fuel : nat) (p : Processor) (c : context) (f : Fence) (operational : option OperationalSnapshot) (d0 : ptables)
    (r : result run_error (json * DuplicateCache)) (d : ptables) : Prop :=
  p_evolves d0 d /\
  match r with
  | Ok (rc, _) => reported c f p operational d rc
  | Err e => 2 ^ 31 <= Z.of_nat fuel -> e <> RunOutOfFuel
  end.

Lemma run_job_spec fuel p dup c f operational d0 : p_wf d0 ->
  rwp p_evolves (job_of fuel p dup c f operational) (run_result fuel p c f operational d0) d0.
Proof using Hai Hex Had Horder.
  intros Hwf. unfold run_job. apply rwp_bind, rwp_phase; [eauto with effects|apply closed_with_tx| |by intros; split].
  intros [kind raw] d1 Hd1. destruct (job_payload raw) as [payload|]; [|by apply rwp_raise]. cbv zeta.
  set (explicit := (kind =? "article_reprocess")%string). set (b := run_bounds p operational kind payload).
  destruct (_ && jp_DryRun payload).
  { apply rwp_bind, rwp_phase; [eauto with effects|apply closed_with_tx| |intros e d2 Hd2; split; [by etrans|done]].
    intros rows d2 Hd2. apply rwp_ret. split; [by etrans|]. constructor. }
  apply rwp_bind, rwp_phase; [eauto with effects|apply closed_with_tx| |intros e d2 Hd2; split; [by etrans|done]].
  intros _ d2 Hd2. apply rwp_app_now; [apply _|]. intros now d3 Hd3.
  assert (p_evolves d0 d3) as Hd03 by by do 2 (etrans; [done|]).
  apply rwp_bind, rwp_phase; [eauto with effects|apply closed_with_tx| |intros e d4 Hd4; split; [by etrans|done]].
  intros _ d4 Hd4. assert (p_evolves d0 d4) as Hd04 by by etrans.
  apply rwp_bind. eapply rwp_mono; [eapply batches_spec; [by eapply pe_wf|apply start_ok]|]. intros [s|e] d5 [Hd5 Hs].
  2: { split; [by etrans|]. intros Hfuel. apply Hs. cbn [lp_cursor]. lia. }
  destruct Hs as (hs & dropped & Hra). assert (p_evolves d0 d5) as Hd05 by by etrans.
  set (serbian := match operational with Some _ => _ | None => false end).
  apply rwp_bind. apply (rwp_mono _ _ (fun r d' => p_evolves d5 d' /\ match r with Ok _ => True | Err e => e <> RunOutOfFuel end)).
  { destruct (serbian && _ && _); [apply localizations_spec|by apply rwp_ret]. }
  intros [u|e] d6 [Hd6 Hl]; [|split; [by etrans|done]]. assert (p_evolves d0 d6) as Hd06 by by etrans.
  assert (forall d', p_evolves d6 d' -> run_accounts c f explicit (run_force kind payload) (run_preserve kind payload) b hs dropped s d') as Hra'.
  { intros d' Hd'. eapply run_accounts_evolves; [|exact Hra]. by etrans. }
  destruct explicit eqn:Hex'.
  - apply rwp_bind, rwp_phase; [apply ArticleOutcomes_keeps|apply ArticleOutcomes_closed| |intros e d7 Hd7; split; [by etrans|done]].
    intros outcomes d7 Hd7. apply rwp_ret. split; [by etrans|]. subst explicit b.
    eapply accounts_reported; [rewrite Hex'; by apply Hra'|rewrite Hex'; by eexists].
  - apply rwp_ret. split; [done|]. subst explicit b. eapply accounts_reported; [rewrite Hex'; by apply Hra'|by rewrite Hex'].
Qed.

(** The settings a run is under: those pinned to it, once they are found valid *)
Definition settings (operational : option OperationalSnapshot) : Prop :=
  match load with Some _ => exists s, operational = Some s /\ valid_snapshot s = true | None => operational = None end.

Lemma Run_reports fuel p dup c f d0 : p_wf d0 ->
  rwp p_evolves (run_of fuel p dup c f) (fun r d => p_evolves d0 d /\
    match r with
    | Ok (rc, _) => exists operational, settings operational /\ reported c f p operational d rc
    | Err e => 2 ^ 31 <= Z.of_nat fuel -> e <> RunOutOfFuel
    end) d0.
Proof using Hai Hex Had Horder Hload.
  intros Hwf. unfold Run, settings. destruct load as [l|].
  2: { eapply rwp_mono; [by apply run_job_spec|]. intros [[rc dup']|e] d [Hd Hr]; [|done]. split; [done|]. by exists None. }
  apply rwp_bind. eapply (rwp_ends p_evolves _ (fun _ => True) (fun _ => False)); [intros w; unfold ask; by destruct (l f w)|by apply ask_keeps|by apply ask_closed|].
  intros [[s|]|e] d1 Hd1; [intros _..|done]; [|by apply rwp_raise].
  destruct (valid_snapshot s) eqn:Hv; [|by apply rwp_raise]. destruct (os_ProcessingEnabled s) eqn:Hen; cbn [negb].
  - eapply rwp_mono; [apply run_job_spec; by eapply pe_wf|]. intros [[rc dup']|e] d [Hd Hr]; (split; [by etrans|]); [|done].
    exists (Some s). split; [by exists s|done].
  - apply rwp_ret. split; [done|]. exists (Some s). split; [by exists s|]. by eapply ReportedDisabled.
Qed.


(** C17: A run ends.  Each batch is selected beyond the last article of the one
    before it and ids are 32-bit, so that 2^31 turns of the loop are always enough:
    whatever the services and the tables do, the loop does not run out of them. *)
Theorem Run_terminates fuel p dup c f w :
  p_wf (w_db w) -> w_tx w = None -> rely p_evolves (w_env w) -> 2 ^ 31 <= Z.of_nat fuel ->
  (Run pg_lower sha256 shortest ai extractor admitted time_parse others order drops load fuel p dup c f w).1 <> Err RunOutOfFuel.
Proof using Hai Hex Had Horder Hload.
  intros Hwf Ht Hr Hfuel. pose proof (Run_reports fuel p dup c f (w_db w) Hwf w eq_refl Ht Hr) as [[_ Hm] _].
  destruct (run_of _ _ _ _ _ w) as [[[rc dup']|e] w']; cbn [fst snd] in *; [done|]. intros [= ->]. by apply (Hm Hfuel).
Qed.
End Runs.

(** ** Witnesses *)

Module JobSample.
#[local] Existing Instance ClientSample.ascii.
#[local] Existing Instance ClientSample.urls.
#[local] Existing Instance FilterSample.ascii.
#[local] Existing Instance MediaSample.plain.
Definition snapshot : OperationalSnapshot := MkOperationalSnapshot 1 StoreSample.now true 10 5 0 "" true true false.
Definition load : option (service Fence (option OperationalSnapshot)) := Some (fun _ w => (Some snapshot, w)).
Definition run (fuel : nat) (w : world ptables) :=
  Run StoreSample.lower StoreSample.sum32 StoreSample.shortest RunSample.ai ClientSample.extractor ClientSample.admitted RunSample.time_parse
    (fun c => c) (fun l => l) (fun _ => true) load fuel RunSample.processor NewDuplicateCache ClientSample.background StoreSample.fence w.
Definition receipt_of {A} (r : result run_error (json * A)) : option json := match r with Ok (j, _) => Some j | Err _ => None end.

(** The receipt of a run over an article that is summarised and one that is rejected *)
Definition expected : json :=
  JObj [("status", JStr "success"); ("articles_processed", JNum "1"); ("articles_summarized", JNum "1"); ("articles_categorized", JNum "1");
        ("articles_rejected", JNum "1"); ("articles_retrying", JNum "0"); ("articles_exhausted", JNum "0"); ("errors_count", JNum "0");
        ("article_outcomes", JArr
          [JObj [("article_id", JNum "1"); ("state", JStr "completed"); ("reason", JNull); ("next_attempt_at", JNull)];
           JObj [("article_id", JNum "2"); ("state", JStr "rejected"); ("reason", JStr "smart_filter_rejected"); ("next_attempt_at", JNull)]]);
        ("article_outcomes_total", JNum "2"); ("article_outcomes_omitted", JNum "0"); ("settled", JBool true); ("success", JBool true);
        ("retryable", JBool false)].
Lemma load_behaves : match load with Some l => well_behaved l | None => True end.
Proof. by split. Qed.
End JobSample.
#[local] Existing Instance ClientSample.ascii.
#[local] Existing Instance ClientSample.urls.
#[local] Existing Instance FilterSample.ascii.
#[local] Existing Instance MediaSample.plain.


Lemma Run_terminates_witness :
  (JobSample.run (Z.to_nat (2 ^ 31)) RunSample.world0).1 <> Err RunOutOfFuel.
Proof.
  assert (2 ^ 31 <= Z.of_nat (Z.to_nat (2 ^ 31))) as Hfuel by (rewrite Z2Nat.id; lia).
  revert Hfuel. generalize (Z.to_nat (2 ^ 31)). intros fuel Hfuel. unfold JobSample.run.
  exact (Run_terminates StoreSample.lower StoreSample.sum32 StoreSample.shortest RunSample.ai ClientSample.extractor ClientSample.admitted
    RunSample.time_parse (fun c => c) (fun l => l) (fun _ => true) RunSample.ai_behaves RunSample.extractor_behaves RunSample.admitted_behaves
    (fun l => Permutation_refl l) JobSample.load JobSample.load_behaves fuel RunSample.processor NewDuplicateCache ClientSample.background
    StoreSample.fence RunSample.world0 RunSample.run_tables_wf eq_refl (Forall_nil_2 _) Hfuel).
Defined.
