(* ===== verification/ProcessingServer.v ===== *)
(** * ProcessingServer: the HTTP server of go-processing

    go-processing/internal/processing/server.go over the operations on runs of
    ArticleStore.  What a run does is behind the interface [Runner], of which
    [Run] of ProcessingRun is an implementation ([processor_runner]).

    A handler keeps the fences of the runs in progress and whether it is closed.
    A request is one step on that memory; the goroutine it launches is a step of
    its own, of which the contexts may end at any instant, as a request to cancel
    or [Close] makes them.  The session lock of a run is a parameter.

    Left out: the health check, which looks for tables and functions of the schema. *)

From S2P Require Import Prelude JsonStrict GoTime Db GoText GoDecode GoParseTime ExecutorClient QueueTables ExecPayload GoRune JobPayload.
From S2P Require Import ArticleOutcome ContentFilter MediaFiles ArticleStore ProviderClients ArticleRun ProcessingRun.
From Stdlib Require Import SpecFloat.

(** ** Runners *)

(** What a server needs of a runner, and what it may rely on: a receipt is worth
    what [promised] says of the tables, for good. *)
Class Runner := {
  runs : context -> Fence -> RM json;
  promised : context -> Fence -> ptables -> json -> Prop;
}.
Class RunnerLaws `{Runner} := {
  runs_spec c f d : p_wf d ->
    rwp p_evolves (runs c f) (fun r d' => p_evolves d d' /\ match r with Ok j => promised c f d' j | Err _ => True end) d;
  promised_evolves c f d d' j : p_evolves d d' -> promised c f d j -> promised c f d' j;
}.

(** ** Requests *)

Record http_request := HttpRequest { hr_authorization : string; hr_body : http_body }.

(** Answers: an error code, with Retry-After when there is one, or a run *)
Inductive reply := ErrorReply (status : Z) (error : string) (retryAfter : option string) | RunReply (v : run_view).
Definition error_reply (status : Z) (error : string) : reply := ErrorReply status error None.

Definition maxEnvelopeBytes : Z := 8192.

Definition is_hex (c : Z) : bool := between 48 57 c || between 97 102 c || between 65 70 c.
(** [uuidPattern] *)
Definition uuid_char (i : nat) (c : Z) : bool :=
  if bool_decide (i ∈ [8; 13; 18; 23]%nat) then c =? dash
  else if (i =? 14)%nat then between 49 56 c
  else if (i =? 19)%nat then bool_decide (c ∈ [56; 57; 97; 98; 65; 66])
  else is_hex c.
Definition uuidPattern (s : string) : bool :=
  let l := bytes_of s in (length l =? 36)%nat && forallb (fun x => uuid_char x.1 x.2) (imap pair l).

(** int32 fields *)
Definition as_int32 (old : Z) (j : json) : option Z :=
  n ← as_int old j; if (n <? - 2 ^ 31) || (2 ^ 31 <=? n) then None else Some n.

(** [UnmarshalJSON] of time.Time: the instant and the offset *)
Definition as_time (old : Z * Z) (j : json) : option (Z * Z) :=
  match j with
  | JNull => Some old
  | JStr s => '(local, offset) ← parse_fields true s; Some (local - offset * Second, offset)
  | _ => None
  end.

Definition run_envelope_fields : list string :=
  ["version"; "job_id"; "attempt_generation"; "owner_id"; "generation"; "backend_pid"; "executor_instance_id"; "deadline_at"].
Definition set_run_envelope (f : string) (v : json) (e : Envelope) : option Envelope :=
  let 'MkEnvelope version job attempt owner generation pid instance deadline offset := e in
  if (f =? "version")%string then x ← as_int version v; Some (MkEnvelope x job attempt owner generation pid instance deadline offset)
  else if (f =? "job_id")%string then x ← ExecutorClient.as_string job v; Some (MkEnvelope version x attempt owner generation pid instance deadline offset)
  else if (f =? "attempt_generation")%string then x ← as_int32 attempt v; Some (MkEnvelope version job x owner generation pid instance deadline offset)
  else if (f =? "owner_id")%string then x ← ExecutorClient.as_string owner v; Some (MkEnvelope version job attempt x generation pid instance deadline offset)
  else if (f =? "generation")%string then x ← as_int32 generation v; Some (MkEnvelope version job attempt owner x pid instance deadline offset)
  else if (f =? "backend_pid")%string then x ← as_int32 pid v; Some (MkEnvelope version job attempt owner generation x instance deadline offset)
  else if (f =? "executor_instance_id")%string then x ← ExecutorClient.as_string instance v; Some (MkEnvelope version job attempt owner generation pid x deadline offset)
  else '(t, o) ← as_time (deadline, offset) v; Some (MkEnvelope version job attempt owner generation pid instance t o).
Definition no_envelope : Envelope := MkEnvelope 0 "" 0 "" 0 0 "" zero_time 0.

(** The body as one JSON document with no other member, within the bound *)
Definition decode_envelope (b : http_body) : option Envelope :=
  if bd_failed b || (maxEnvelopeBytes <? bd_length b) then None
  else match decode_next (bd_lexemes b) (bd_ending b) with
       | Ok (j, rest) =>
           e ← decode_struct run_envelope_fields set_run_envelope no_envelope j;
           match decode_next rest (bd_ending b) with Err EofErr => Some e | _ => None end
       | Err _ => None
       end.

Definition validEnvelope (e : Envelope) (now : Z) : bool :=
  (en_Version e =? 1) && uuidPattern (en_JobID e) && (0 <? en_AttemptGeneration e) && uuidPattern (en_OwnerID e) && (0 <? en_Generation e) &&
  (0 <? en_BackendPID e) && uuidPattern (en_ExecutorInstanceID e) && (now <? en_DeadlineAt e).

(** ** The handler *)

(** The runs in progress by their ids *)
Record handler := MkHandler { hd_active : gmap string Fence; hd_closed : bool }.
Definition NewHandler : handler := MkHandler ∅ false.

Definition launch (h : handler) (f : Fence) : bool * handler :=
  match hd_active h !! fe_RunID f with
  | Some _ => (true, h)
  | None => if hd_closed h then (false, h) else (true, MkHandler (<[fe_RunID f := f]> (hd_active h)) false)
  end.
Definition release_run (h : handler) (id : string) : handler := MkHandler (delete id (hd_active h)) (hd_closed h).
(** [Close]: the contexts of the runs in progress end, and no other is launched. *)
Definition Close (h : handler) : handler := MkHandler (hd_active h) true.

(** A transaction that fails before its commit, or in it *)
Inductive begin_error := StaleFence | DatabaseUnavailable.
Definition relabel {E F A} (g : E -> F) (m : M ptables E A) : M ptables F A := fun w => let '(r, w') := m w in (map_err g r, w').
Definition begin_run (f : Fence) : M ptables begin_error unit :=
  with_tx DatabaseUnavailable
    (_ ← relabel (fun _ => StaleFence) (FenceTx f);
     _ ← commit DatabaseUnavailable;
     mret tt).

Definition rstate_running (s : rstate) : bool := match s with RRunning => true | _ => false end.

Section Server.
Context `{Runner}.
Context (sha256 : list Z -> list Z) (token : string).
(** [AcquireRunLock]: whether the session lock of a run was had, nothing when it failed *)
Context (lock : service string (option bool)).

Definition authorized (r : http_request) : bool :=
  match strip_prefix (bytes_of "Bearer ") (bytes_of (hr_authorization r)) with
  | None => false
  | Some got => negb (token =? "")%string && bool_decide (got = bytes_of token)
  end.

Definition answer_run (h : handler) (id : string) (status : Z) (error : string) : M ptables proc_error (reply * handler) :=
  v ← inspect (GetRun id);
  match v with
  | Ok v => mret (RunReply v, h)
  | Err _ => mret (error_reply status error, h)
  end.

(** A run that is not yet known *)
Definition create_new (h : handler) (f : Fence) : M ptables proc_error (reply * handler) :=
  begun ← inspect (begin_run f);
  match begun with
  | Err StaleFence => mret (error_reply 409 "stale_fence", h)
  | Err DatabaseUnavailable => mret (error_reply 503 "database_unavailable", h)
  | Ok _ =>
      let '(launched, h) := launch h f in
      if launched : bool then answer_run h (fe_RunID f) 500 "run_lookup_failed"
      else mret (ErrorReply 429 "busy" (Some "1"), h)
  end.

Definition create (h : handler) (r : http_request) : M ptables proc_error (reply * handler) :=
  if negb (authorized r) then mret (error_reply 401 "unauthorized", h)
  else match decode_envelope (hr_body r) with
       | None => mret (error_reply 400 "invalid_request", h)
       | Some e =>
           now ← app_now;
           if negb (validEnvelope e now) then mret (error_reply 400 "invalid_request", h)
           else
             let f := NewFence sha256 e in
             existing ← inspect (ExistingRun f);
             match existing with
             | Err _ => mret (error_reply 500 "run_lookup_failed", h)
             | Ok (Some v) =>
                 if negb (rv_id v =? fe_RunID f)%string || negb (bool_decide (rv_envelope_sha256 v = Some (fe_EnvelopeSHA256 f)))
                 then mret (error_reply 409 "envelope_conflict", h)
                 else mret (RunReply v, if rstate_running (rv_state v) then (launch h f).2 else h)
             | Ok None => create_new h f
             end
       end.

Definition get_run (h : handler) (r : http_request) (id : string) : M ptables proc_error (reply * handler) :=
  if negb (authorized r) then mret (error_reply 401 "unauthorized", h)
  else if negb (uuidPattern id) then mret (error_reply 400 "invalid_request", h)
  else answer_run h id 404 "run_not_found".

(** The context of the run ends too, if it is one of this handler's. *)
Definition cancel_run (h : handler) (r : http_request) (id : string) : M ptables proc_error (reply * handler) :=
  if negb (authorized r) then mret (error_reply 401 "unauthorized", h)
  else if negb (uuidPattern id) then mret (error_reply 400 "invalid_request", h)
  else
    cancelled ← inspect (Cancel id);
    match cancelled with
    | Err _ => mret (error_reply 503 "cancel_failed", h)
    | Ok _ => answer_run h id 404 "run_not_found"
    end.

(** ** The goroutine of a run *)

(** How it ended, with what was stored *)
Inductive run_end :=
| Elsewhere                              (* another process has the run's lock *)
| Stored (receipt : json)
| Failed (code : string) (recorded : bool).

Definition failBounded (f : Fence) (code : string) : M ptables proc_error run_end :=
  r ← inspect (FailRun f code);
  mret (Failed code (match r with Ok _ => true | Err _ => false end)).

Definition background (c : context) (f : Fence) : M ptables proc_error run_end :=
  acquired ← ask lock (fe_RunID f);
  match acquired with
  | None => failBounded f "run_lock_failed"
  | Some false => mret Elsewhere
  | Some true =>
      ran ← inspect (runs c f);
      match ran with
      | Err _ => failBounded f "processing_failed"
      | Ok receipt =>
          finished ← inspect (FinishRun f receipt);
          match finished with
          | Ok _ => mret (Stored receipt)
          | Err _ => failBounded f "finalization_failed"
          end
      end
  end.

(** The context of a run: its deadline, and the instants from which it is cancelled *)
Definition run_context (f : Fence) (cancelled : Z -> bool) : context := MkContext (Some (en_DeadlineAt (fe_Envelope f))) cancelled.

(** ** What a server does *)

Inductive server_op :=
| OpCreate (r : http_request)
| OpGet (r : http_request) (id : string)
| OpCancel (r : http_request) (id : string)
| OpClose
| OpBackground (id : string) (cancelled : Z -> bool).

Definition serve (h : handler) (op : server_op) : M ptables proc_error handler :=
  match op with
  | OpCreate r => '(_, h) ← create h r; mret h
  | OpGet r id => '(_, h) ← get_run h r id; mret h
  | OpCancel r id => '(_, h) ← cancel_run h r id; mret h
  | OpClose => mret (Close h)
  | OpBackground id cancelled =>
      match hd_active h !! id with
      | None => mret h
      | Some f => _ ← background (run_context f cancelled) f; mret (release_run h id)
      end
  end.
Fixpoint serve_all (h : handler) (ops : list server_op) : M ptables proc_error handler :=
  match ops with [] => mret h | op :: ops => h ← serve h op; serve_all h ops end.
End Server.

(** ** Runs in the tables *)

Definition run_gone (f : Fence) (d : ptables) : Prop := uuid (en_JobID (fe_Envelope f)) ∈ q_retired (p_queue d).

(** The run of a fence, as its envelope describes it *)
Definition recorded (f : Fence) (d : ptables) : Prop :=
  (exists r, p_runs d !! fe_RunID f = Some r /\ r_digest r = fe_EnvelopeSHA256 f /\ r_job r = uuid (en_JobID (fe_Envelope f)) /\
             r_attempt r = en_AttemptGeneration (fe_Envelope f)) \/ run_gone f d.
(** ... once it has ended, which is for good *)
Definition ended (f : Fence) (P : run_row -> Prop) (d : ptables) : Prop :=
  (exists r, p_runs d !! fe_RunID f = Some r /\ r_state r <> RRunning /\ r_job r = uuid (en_JobID (fe_Envelope f)) /\ P r) \/ run_gone f d.

Lemma gone_evolves f d d' : p_evolves d d' -> run_gone f d -> run_gone f d'.
Proof. intros Hd. pose proof (ev_retired _ _ (pe_queue _ _ Hd)). unfold run_gone. set_solver. Qed.

Lemma run_evolves_at f d d' r : p_evolves d d' -> p_runs d !! fe_RunID f = Some r -> r_job r = uuid (en_JobID (fe_Envelope f)) ->
  (exists r', p_runs d' !! fe_RunID f = Some r' /\ run_evolves r r') \/ run_gone f d'.
Proof. intros Hd Hr Hj. destruct (pe_runs _ _ Hd _ _ Hr) as [H|H]; [by left|right]. unfold run_gone. by rewrite <- Hj. Qed.

Lemma recorded_evolves f d d' : p_evolves d d' -> recorded f d -> recorded f d'.
Proof.
  intros Hd [(r & Hr & H1 & H2 & H3)|Hg]; [|right; by eapply gone_evolves].
  destruct (run_evolves_at f d d' r Hd Hr H2) as [(r' & Hr' & [[= E1 E2 E3 _ _ _ _ _] _])|Hg]; [left|by right].
  exists r'. split_and!; congruence.
Qed.

Lemma ended_evolves f P d d' : p_evolves d d' -> ended f P d -> ended f P d'.
Proof.
  intros Hd [(r & Hr & H1 & H2 & H3)|Hg]; [|right; by eapply gone_evolves].
  destruct (run_evolves_at f d d' r Hd Hr H2) as [(r' & Hr' & [_ E])|Hg]; [left|by right].
  rewrite (E H1) in Hr'. by exists r.
Qed.

Lemma fence_recorded f d t r : fence_passed f d t r -> recorded f t.
Proof.
  intros [_ Hr Hs [Hj Ha] _ _]. left. exists r. split_and!; [done| |done..]. unfold same_run in Hs. bool_to_prop. done.
Qed.

Lemma end_run_row id s now result error lk n t r : p_runs t !! id = Some r -> r_state r = RRunning ->
  exists r', p_runs (end_run id s now result error lk n t).2 !! id = Some r' /\ r_state r' = s /\ r_job r' = r_job r /\ r_result r' = result r /\
    r_error r' = error r.
Proof.
  intros Hr Hs. unfold end_run, write. cbn [snd]. rewrite Hr, Hs. rewrite bool_decide_eq_true_2 by done.
  eexists. split; [apply lookup_insert_eq|]. by split_and!.
Qed.

(** [FinishRun] and [FailRun] are this transaction. *)
Lemma end_body_spec mk f s result error t : s <> RRunning ->
  twp (E:=proc_error)
    (now ← tx_clock; _ ← fence_running f; _ ← exec (fails mk) (end_run (fe_RunID f) s now result error); _ ← commit (ErrText "commit"); mret tt)
    (fun r d' _ => match r with
      | Ok _ => ended f (fun row => r_state row = s /\ exists old, r_result row = result old /\ r_error row = error old) d'
      | Err _ => True end) t t.
Proof.
  intros Hs. apply twp_tx_clock. intros now. apply twp_fence_running; [done|done|]. intros t' r [_ Hr _ [Hj _] _ _] Hst.
  apply twp_exec; [|done]. intros lk n. destruct (end_run_row (fe_RunID f) s now result error lk n t' r Hr Hst) as (r' & Hr' & H1 & H2 & H3 & H4).
  unfold end_run, write in *. cbn [snd] in Hr'. apply twp_commit; [|done..].
  left. exists r'. split; [done|]. split; [by rewrite H1|]. split; [by rewrite H2|]. split; [done|]. by exists r.
Qed.

Lemma FinishRun_spec f receipt d :
  rwp p_evolves (FinishRun f receipt) (fun r d' => p_evolves d d' /\ match r with
    | Ok _ => ended f (fun row => r_state row = RSucceeded /\ r_result row = receipt) d'
    | Err _ => True end) d.
Proof.
  apply (rwp_tx_ok (fun _ d' => _ d')); [apply FinishRun_keeps|]. intros d1 _. eapply twp_mono; [by apply end_body_spec|].
  intros [u|e] d' tx; [|done]. intros [(r & Hr & H1 & H2 & H3 & old & H4 & _)|Hg]; [left|by right]. by exists r.
Qed.

Lemma FailRun_spec f code d :
  rwp p_evolves (FailRun f code) (fun r d' => p_evolves d d' /\ match r with
    | Ok _ => ended f (fun row => r_state row = RFailed /\ r_error row = Some code) d'
    | Err _ => True end) d.
Proof.
  apply (rwp_tx_ok (fun _ d' => _ d')); [apply FailRun_keeps|]. intros d1 _. eapply twp_mono; [by apply end_body_spec|].
  intros [u|e] d' tx; [|done]. intros [(r & Hr & H1 & H2 & H3 & old & _ & H4)|Hg]; [left|by right]. by exists r.
Qed.

(** ** The goroutine of a run *)

Section Serving.
Context `{RunnerLaws}.
Context (sha256 : list Z -> list Z) (token : string) (lock : service string (option bool)).
Context (Hlock : well_behaved lock).

Notation goroutine := (background lock).

(** What the end of a goroutine says of the tables *)
Definition end_told (c : context) (f : Fence) (d : ptables) (e : run_end) : Prop :=
  match e with
  | Stored j => promised c f d j /\ ended f (fun row => r_state row = RSucceeded /\ r_result row = j) d
  | Failed code true => ended f (fun row => r_state row = RFailed /\ r_error row = Some code) d
  | Failed _ false | Elsewhere => True
  end.

Lemma failBounded_spec c f code d : rwp p_evolves (failBounded f code) (fun r d' => p_evolves d d' /\ exists e, r = Ok e /\ end_told c f d' e) d.
Proof.
  unfold failBounded. apply rwp_bind, rwp_inspect. eapply rwp_mono; [apply FailRun_spec|]. intros r d' [Hd' Hr]. apply rwp_ret.
  split; [done|]. eexists. split; [done|]. by destruct r.
Qed.

Lemma rwp_asked {E Q A B} (s : service Q A) (q : Q) (k : A -> M ptables E B) (Q' : result E B -> ptables -> Prop) d :
  well_behaved s -> (forall a d', p_evolves d d' -> rwp p_evolves (k a) Q' d') -> rwp p_evolves (ask s q ≫= k) Q' d.
Proof.
  intros Hs Hk. apply rwp_bind. eapply (rwp_ends p_evolves _ (fun _ => True) (fun _ => False)); [|by apply ask_keeps|by apply ask_closed|].
  - intros w. unfold ask. by destruct (s q w).
  - intros [a|e] d' Hd' Ha; [by apply Hk|done].
Qed.

Lemma background_spec c f d : p_wf d ->
  rwp p_evolves (goroutine c f) (fun r d' => p_evolves d d' /\ exists e, r = Ok e /\ end_told c f d' e) d.
Proof using H0 Hlock.
  intros Hwf. unfold background. apply rwp_asked; [done|]. intros got d1 Hd1.
  assert (forall code d2, p_evolves d d2 -> rwp p_evolves (failBounded f code) (fun r d' => p_evolves d d' /\ exists e, r = Ok e /\ end_told c f d' e) d2) as Hfail.
  { intros code d2 Hd2. eapply rwp_mono; [apply (failBounded_spec c)|]. intros r d3 [Hd3 Hr]. split; [by etrans|done]. }
  destruct got as [[]|]; [| |by apply Hfail].
  2: { apply rwp_ret. split; [done|]. by eexists. }
  apply rwp_bind, rwp_inspect.
  eapply rwp_mono; [apply runs_spec; by eapply pe_wf|]. intros r d2 [Hd2 Hj]. assert (p_evolves d d2) as Hd02 by by etrans.
  destruct r as [j|e]; [|by apply Hfail].
  apply rwp_bind, rwp_inspect. eapply rwp_mono; [apply FinishRun_spec|]. intros [u|e] d3 [Hd3 Hr].
  - apply rwp_ret. split; [by etrans|]. eexists. split; [done|]. split; [by eapply promised_evolves|done].
  - apply Hfail. by etrans.
Qed.

(** C18: How the goroutine of a run ends, for any runner that keeps its promise.
    Whatever fails and whatever else happens to the tables: it always ends with a
    verdict; when a receipt was stored, the run has succeeded for good with exactly
    that receipt, which is what the runner promised of the tables; when a failure
    was recorded, the run has failed for good with exactly that code; and a run
    whose lock another process has is left to it. *)
Theorem background_settles c f w :
  p_wf (w_db w) -> w_tx w = None -> rely p_evolves (w_env w) ->
  let '(r, w') := goroutine c f w in
  p_evolves (w_db w) (w_db w') /\ w_tx w' = None /\ exists e, r = Ok e /\ end_told c f (w_db w') e.
Proof using H0 Hlock.
  intros Hwf Ht Hr. pose proof (background_spec c f (w_db w) Hwf w eq_refl Ht Hr) as Hm.
  destruct (goroutine c f w) as [r w']. cbn [fst snd] in Hm. tauto.
Qed.

(** ** Requests *)

Notation create_at := (create sha256 token).

(** The answers to a run's creation once the envelope is read *)
Inductive created_for (h : handler) (f : Fence) (d : ptables) : reply -> handler -> Prop :=
| CreateLookup : created_for h f d (error_reply 500 "run_lookup_failed") h
| CreateConflict d1 id row : p_evolves d1 d -> p_runs d1 !! id = Some row -> r_job row = uuid (en_JobID (fe_Envelope f)) ->
    r_attempt row = en_AttemptGeneration (fe_Envelope f) -> id <> fe_RunID f \/ r_digest row <> fe_EnvelopeSHA256 f ->
    created_for h f d (error_reply 409 "envelope_conflict") h
| CreateFound v : recorded f d -> rv_id v = fe_RunID f -> rv_envelope_sha256 v = Some (fe_EnvelopeSHA256 f) ->
    created_for h f d (RunReply v) (if rstate_running (rv_state v) then (launch h f).2 else h)
| CreateStale : created_for h f d (error_reply 409 "stale_fence") h
| CreateUnavailable : created_for h f d (error_reply 503 "database_unavailable") h
| CreateBusy : recorded f d -> hd_closed h = true -> hd_active h !! fe_RunID f = None -> created_for h f d (ErrorReply 429 "busy" (Some "1")) h
| CreateLaunched a h' : recorded f d -> launch h f = (true, h') ->
    (a = error_reply 500 "run_lookup_failed" \/ exists v, a = RunReply v /\ rv_id v = fe_RunID f) -> created_for h f d a h'.

Inductive created (h : handler) (r : http_request) (d : ptables) : reply -> handler -> Prop :=
| CreateUnauthorized : authorized token r = false -> created h r d (error_reply 401 "unauthorized") h
| CreateInvalid : authorized token r = true ->
    (forall e, decode_envelope (hr_body r) = Some e -> exists now, validEnvelope e now = false) -> created h r d (error_reply 400 "invalid_request") h
| CreateRead e now a h' : authorized token r = true -> decode_envelope (hr_body r) = Some e -> validEnvelope e now = true ->
    created_for h (NewFence sha256 e) d a h' -> created h r d a h'.

Lemma relabel_twp {E F A} (g : E -> F) (m : M ptables E A) (Q : result F A -> ptables -> option ptables -> Prop) db t :
  twp m (fun r d' tx => Q (map_err g r) d' tx) db t -> twp (relabel g m) Q db t.
Proof. intros Hm w H1 H2. specialize (Hm w H1 H2). unfold relabel. by destruct (m w). Qed.
Lemma relabel_keeps {E F A} (g : E -> F) (m : M ptables E A) : pkeeps m -> pkeeps (relabel g m).
Proof. intros Hm d0 w Hw. specialize (Hm d0 w Hw). unfold relabel. by destruct (m w). Qed.

Lemma begin_run_spec f d :
  rwp p_evolves (begin_run f) (fun r d' => p_evolves d d' /\ match r with Ok _ => recorded f d' | Err _ => True end) d.
Proof.
  intros w Hd Ht Hr. unfold begin_run.
  assert (pkeeps (begin_run f)) as Hk.
  { unfold begin_run. apply keeps_with_tx; [apply _|]. apply keeps_bind; [apply relabel_keeps, FenceTx_keeps|]. intros _. keep. }
  destruct (rwp_keeps p_evolves (begin_run f) (fun _ d' => p_evolves d d') d Hk (closed_with_tx _ _) (fun _ _ x => x) w Hd Ht Hr) as (G1 & G2 & G3).
  assert (rwp p_evolves (begin_run f) (fun r d' => match r with Ok _ => recorded f d' | Err _ => True end) d) as Hs.
  { apply rwp_with_tx; [apply _|]. intros d1 Hd1. split; [|done]. apply twp_bind, relabel_twp, twp_ret_id, twp_FenceTx; [done|].
    intros t' row Hp. apply twp_ret. cbn [map_err]. exists t'. split; [done|]. apply twp_commit; [|done..]. by eapply fence_recorded. }
  destruct (Hs w Hd Ht Hr) as (G4 & _). auto.
Qed.

Lemma GetRun_spec id d :
  rwp p_evolves (GetRun id) (fun r d' => p_evolves d d' /\ match r with Ok v => rv_id v = id | Err _ => True end) d.
Proof.
  unfold GetRun. apply rwp_bind, rwp_read; [apply _| |]; intros; [|by split]. destruct (p_runs d1 !! uuid id); [by apply rwp_ret|by apply rwp_raise].
Qed.

Lemma answer_run_spec h id status error d :
  rwp p_evolves (answer_run h id status error) (fun r d' => p_evolves d d' /\ exists a, r = Ok (a, h) /\
    (a = error_reply status error \/ exists v, a = RunReply v /\ rv_id v = id)) d.
Proof.
  unfold answer_run. apply rwp_bind, rwp_inspect. eapply rwp_mono; [apply GetRun_spec|]. intros [v|e] d' [Hd' Hv]; apply rwp_ret; split; eauto 10.
Qed.

Lemma ExistingRun_spec f d :
  rwp p_evolves (ExistingRun f) (fun r d' => p_evolves d d' /\ match r with
    | Ok (Some v) => exists row, p_runs d' !! rv_id v = Some row /\ r_job row = uuid (en_JobID (fe_Envelope f)) /\
        r_attempt row = en_AttemptGeneration (fe_Envelope f) /\ rv_envelope_sha256 v = Some (r_digest row)
    | _ => True end) d.
Proof.
  unfold ExistingRun. apply rwp_bind, rwp_read; [apply _| |]; intros; [|by split]. apply rwp_ret. split; [done|].
  pose proof (find_run_spec (uuid (en_JobID (fe_Envelope f))) (en_AttemptGeneration (fe_Envelope f)) d1) as Hf.
  destruct (find_run _ _ d1) as [[id row]|]; [|done]. cbn. exists row. destruct Hf as (E1 & E2 & E3). by split_and!.
Qed.

Lemma created_for_evolves h f d d' a h' : p_evolves d d' -> created_for h f d a h' -> created_for h f d' a h'.
Proof.
  intros Hd [|d1 id row H1' H2' H3' H4' H5'|v H1' H2' H3'| | |H1' H2' H3'|a1 h1 H1' H2' H3'].
  - apply CreateLookup.
  - eapply CreateConflict; [|done..]. by etrans.
  - apply CreateFound; [by eapply recorded_evolves|done..].
  - apply CreateStale.
  - apply CreateUnavailable.
  - apply CreateBusy; [by eapply recorded_evolves|done..].
  - apply CreateLaunched; [by eapply recorded_evolves|done..].
Qed.

Lemma create_new_spec h f d :
  rwp p_evolves (create_new h f) (fun r d' => p_evolves d d' /\ exists a h', r = Ok (a, h') /\ created_for h f d' a h') d.
Proof.
  unfold create_new. apply rwp_bind, rwp_inspect. eapply rwp_mono; [apply begin_run_spec|]. intros [u|[]] d1 [Hd1 Hr].
  2: { apply rwp_ret. split; [done|]. do 2 eexists. split; [done|]. apply CreateStale. }
  2: { apply rwp_ret. split; [done|]. do 2 eexists. split; [done|]. apply CreateUnavailable. }
  destruct (launch h f) as [[] h'] eqn:Hl.
  - eapply rwp_mono; [apply answer_run_spec|]. intros r d2 [Hd2 (a & -> & Ha)]. split; [by etrans|]. do 2 eexists. split; [done|].
    apply CreateLaunched; [by eapply recorded_evolves|done..].
  - apply rwp_ret. split; [done|]. do 2 eexists. split; [done|]. unfold launch in Hl.
    destruct (hd_active h !! fe_RunID f) eqn:Ha; [done|]. destruct (hd_closed h) eqn:Hc; [|done]. injection Hl as <-. by apply CreateBusy.
Qed.

Lemma create_spec h r d :
  rwp p_evolves (create_at h r) (fun res d' => p_evolves d d' /\ exists a h', res = Ok (a, h') /\ created h r d' a h') d.
Proof.
  unfold create. destruct (authorized token r) eqn:Hauth; cbn [negb].
  2: { apply rwp_ret. split; [done|]. do 2 eexists. split; [done|]. by apply CreateUnauthorized. }
  destruct (decode_envelope (hr_body r)) as [e|] eqn:He.
  2: { apply rwp_ret. split; [done|]. do 2 eexists. split; [done|]. apply CreateInvalid; [done|]. intros e E. congruence. }
  apply rwp_app_now; [apply _|]. intros now d1 Hd1. destruct (validEnvelope e now) eqn:Hv; cbn [negb].
  2: { apply rwp_ret. split; [done|]. do 2 eexists. split; [done|]. apply CreateInvalid; [done|]. intros e' E. assert (e' = e) as -> by congruence. by exists now. }
  cbv zeta. set (f := NewFence sha256 e).
  assert (forall (m : M ptables proc_error (reply * handler)) d2, p_evolves d d2 ->
    rwp p_evolves m (fun res d' => p_evolves d2 d' /\ exists a h', res = Ok (a, h') /\ created_for h f d' a h') d2 ->
    rwp p_evolves m (fun res d' => p_evolves d d' /\ exists a h', res = Ok (a, h') /\ created h r d' a h') d2) as Hfor.
  { intros m d2 Hd2 Hm. eapply rwp_mono; [exact Hm|]. intros res d3 [Hd3 (a & h' & -> & Hc)]. split; [by etrans|]. do 2 eexists. split; [done|].
    by eapply CreateRead. }
  apply rwp_bind, rwp_inspect. eapply rwp_mono; [apply ExistingRun_spec|]. intros [[v|]|err] d2 [Hd2 Hx]; (apply Hfor; [by etrans|]).
  - destruct Hx as (row & Hrow & Hj & Ha & Hdig). destruct (rv_id v =? fe_RunID f)%string eqn:Hid; cbn [negb orb].
    + apply String.eqb_eq in Hid. case_bool_decide as Hs; cbn [negb]; apply rwp_ret; (split; [done|]); do 2 eexists; (split; [done|]).
      * apply CreateFound; [|done..]. left. exists row. rewrite <- Hid. split_and!; [done|congruence|done..].
      * eapply (CreateConflict _ _ _ d2); [done..|]. right. intros E. apply Hs. by rewrite Hdig, E.
    + apply String.eqb_neq in Hid. apply rwp_ret. split; [done|]. do 2 eexists. split; [done|]. eapply (CreateConflict _ _ _ d2); [done..|]. by left.
  - apply create_new_spec.
  - apply rwp_ret. split; [done|]. do 2 eexists. split; [done|]. apply CreateLookup.
Qed.


(** ** Histories *)

(** Every run in progress is under its own id and recorded for its envelope. *)
Definition handler_ok (h : handler) (d : ptables) : Prop := forall id f, hd_active h !! id = Some f -> id = fe_RunID f /\ recorded f d.

Lemma handler_ok_evolves h d d' : p_evolves d d' -> handler_ok h d -> handler_ok h d'.
Proof. intros Hd Hh id f Hf. destruct (Hh id f Hf) as [H1' H2']. split; [done|]. by eapply recorded_evolves. Qed.

Lemma launch_ok h f d : recorded f d -> handler_ok h d -> handler_ok (launch h f).2 d.
Proof.
  intros Hf Hh. unfold launch. destruct (hd_active h !! fe_RunID f) eqn:Ha; [done|]. destruct (hd_closed h); [done|].
  intros id f'. cbn. rewrite lookup_insert_Some. intros [[<- <-]|[_ Hi]]; [done|]. by apply Hh.
Qed.

Lemma created_handler h r d a h' : created h r d a h' -> handler_ok h d -> handler_ok h' d.
Proof.
  intros [| |e now a' h'' _ _ _ Hc] Hh; [done..|]. destruct Hc as [| |v Hr _ _| | | |a1 h1 Hr Hl _]; try done.
  - destruct (rstate_running _); [by apply launch_ok|done].
  - replace h1 with (launch h (NewFence sha256 e)).2 by by rewrite Hl. by apply launch_ok.
Qed.

(** What any history leaves of a handler *)
Record served (h h' : handler) (d : ptables) : Prop := {
  sv_ok : handler_ok h' d;
  sv_closed : hd_closed h = true -> hd_closed h' = true /\ hd_active h' ⊆ hd_active h;
}.

Lemma served_trans h1 h2 h3 d d' : served h1 h2 d -> served h2 h3 d' -> served h1 h3 d'.
Proof.
  intros [_ H12] [Hok H23]. split; [done|]. intros Hc. destruct (H12 Hc) as [Hc2 Hs]. destruct (H23 Hc2) as [Hc3 Hs']. split; [done|by etrans].
Qed.

Lemma launch_served h f : hd_closed h = true -> (launch h f).2 = h.
Proof. intros Hc. unfold launch. destruct (_ !! _); [done|]. by rewrite Hc. Qed.

Lemma created_served h r d a h' : created h r d a h' -> handler_ok h d -> served h h' d.
Proof.
  intros Hcr Hh. split; [by eapply created_handler|]. intros Hc. enough (h' = h) as -> by done.
  destruct Hcr as [| |e now a' h'' _ _ _ Hf]; [done..|]. destruct Hf as [| |v _ _ _| | | |a1 h1 _ Hl _]; try done.
  - destruct (rstate_running _); [by apply launch_served|done].
  - replace h1 with (launch h (NewFence sha256 e)).2 by by rewrite Hl. by apply launch_served.
Qed.

Lemma same_served h d : handler_ok h d -> served h h d.
Proof. intros Hh. by split. Qed.

Lemma answered_same h id status error d : handler_ok h d ->
  rwp p_evolves ('(_, h0) ← answer_run h id status error; mret h0) (fun r d' => p_evolves d d' /\ exists h', r = Ok h' /\ served h h' d') d.
Proof.
  intros Hh. apply rwp_bind. eapply rwp_mono; [apply answer_run_spec|]. intros r d' [Hd' (a & -> & _)]. apply rwp_ret. split; [done|].
  exists h. split; [done|]. apply same_served. by eapply handler_ok_evolves.
Qed.

Lemma serve_step_spec h op d : p_wf d -> handler_ok h d ->
  rwp p_evolves (serve sha256 token lock h op) (fun r d' => p_evolves d d' /\ exists h', r = Ok h' /\ served h h' d') d.
Proof using All.
  intros Hwf Hh. destruct op as [r|r id|r id| |id cancelled]; cbn [serve].
  - apply rwp_bind. eapply rwp_mono; [apply create_spec|]. intros res d' [Hd' (a & h' & -> & Hc)]. apply rwp_ret. split; [done|].
    exists h'. split; [done|]. eapply created_served; [done|]. by eapply handler_ok_evolves.
  - unfold get_run. destruct (negb (authorized token r)); [by apply rwp_ret; split; [|exists h; split; [|apply same_served]]|].
    destruct (negb (uuidPattern id)); [by apply rwp_ret; split; [|exists h; split; [|apply same_served]]|]. by apply answered_same.
  - unfold cancel_run. destruct (negb (authorized token r)); [by apply rwp_ret; split; [|exists h; split; [|apply same_served]]|].
    destruct (negb (uuidPattern id)); [by apply rwp_ret; split; [|exists h; split; [|apply same_served]]|].
    apply rwp_bind. apply rwp_inspected; [apply _|apply Cancel_keeps|apply closed_with_tx|]. intros [u|e] d1 Hd1.
    + eapply rwp_mono; [apply answer_run_spec|]. intros res d2 [Hd2 (a & -> & _)]. apply rwp_ret. split; [by etrans|].
      exists h. split; [done|]. apply same_served. eapply handler_ok_evolves; [|done]. by etrans.
    + apply rwp_ret, rwp_ret. split; [done|]. exists h. split; [done|]. apply same_served. by eapply handler_ok_evolves.
  - apply rwp_ret. split; [done|]. exists (Close h). split; [done|]. split; [exact Hh|done].
  - destruct (hd_active h !! id) as [f|] eqn:Hf; [|by apply rwp_ret; split; [|exists h; split; [|apply same_served]]].
    apply rwp_bind. eapply rwp_mono; [by apply (background_spec (run_context f cancelled))|]. intros r d' [Hd' (e & -> & _)]. apply rwp_ret.
    split; [done|]. exists (release_run h id). split; [done|]. split.
    + intros id' f'. cbn. rewrite lookup_delete_Some. intros [_ Hi]. by apply (handler_ok_evolves _ _ _ Hd' Hh).
    + intros Hc. split; [done|]. apply delete_subseteq.
Qed.

(** A server under any history of requests, of goroutines that end and of
    closing, whatever fails and whatever other processes do: every run in progress
    is under its own id and recorded in the tables for exactly its envelope, and
    once closed the server launches nothing more. *)
Theorem server_history_safe ops h w :
  p_wf (w_db w) -> w_tx w = None -> rely p_evolves (w_env w) -> handler_ok h (w_db w) ->
  let '(r, w') := serve_all sha256 token lock h ops w in
  p_evolves (w_db w) (w_db w') /\ w_tx w' = None /\ exists h', r = Ok h' /\ served h h' (w_db w').
Proof using All.
  intros Hwf Ht Hr Hh.
  enough (rwp p_evolves (serve_all sha256 token lock h ops) (fun r d' => p_evolves (w_db w) d' /\ exists h', r = Ok h' /\ served h h' d') (w_db w)) as Hm.
  { specialize (Hm w eq_refl Ht Hr). destruct (serve_all _ _ _ _ _ w) as [r w']. cbn [fst snd] in Hm. tauto. }
  generalize dependent (w_db w). clear Ht Hr. intros d Hwf Hh. revert h d Hwf Hh. induction ops as [|op ops IH]; intros h d Hwf Hh; cbn [serve_all].
  { apply rwp_ret. split; [done|]. exists h. split; [done|]. by apply same_served. }
  apply rwp_bind. eapply rwp_mono; [by apply serve_step_spec|]. intros r d1 [Hd1 (h1 & -> & Hs1)].
  eapply rwp_mono; [apply IH; [by eapply pe_wf|apply Hs1]|]. intros r d2 [Hd2 (h2 & -> & Hs2)]. split; [by etrans|].
  exists h2. split; [done|]. by eapply served_trans.
Qed.
End Serving.

(** ** The processor behind the interface *)

Section Processor.
Context `{Unicode} `{Urls} `{References} `{TextTables}.
Context (pg_lower : string -> string) (sha256 : list Z -> list Z) (shortest : spec_float -> string).
Context (ai : service AIRequest (option http_answer)) (extractor : service ExtractRequest (option http_answer)) (admitted : service context bool).
Context (time_parse : string -> string -> option Z).
Context (others : DuplicateCache -> DuplicateCache) (order : list Article -> list Article) (drops : Article -> bool).
Context (load : option (service Fence (option OperationalSnapshot))).
(** The processor, and the cache of recent texts as the run of a fence finds it *)
Context (fuel : nat) (p : Processor) (cache : Fence -> DuplicateCache).

Definition processor_runner : Runner := {|
  runs c f := '(rc, _) ← Run pg_lower sha256 shortest ai extractor admitted time_parse others order drops load fuel p (cache f) c f; mret rc;
  promised c f d rc := exists operational, settings load operational /\ reported c f p operational d rc;
|}.

Lemma reported_evolves c f operational d d' rc : p_evolves d d' -> reported c f p operational d rc -> reported c f p operational d' rc.
Proof.
  intros Hd [s H1' H2'|n|kind payload hs dropped s rep explicit t H1' H2' H3' H4'].
  - by eapply ReportedDisabled.
  - apply ReportedDry.
  - eapply ReportedRun; [|done..]. by eapply run_accounts_evolves.
Qed.

Lemma processor_laws : well_behaved ai -> well_behaved extractor -> well_behaved admitted -> (forall l, order l ≡ₚ l) ->
  match load with Some l => well_behaved l | None => True end -> @RunnerLaws processor_runner.
Proof.
  intros Hai Hex Had Hord Hload. split.
  - intros c f d Hwf. cbn [runs promised processor_runner]. apply rwp_bind.
    eapply rwp_mono; [by apply (Run_reports pg_lower sha256 shortest ai extractor admitted time_parse others order drops Hai Hex Had Hord load Hload fuel p (cache f) c f)|].
    intros [[rc dup]|e] d' [Hd' Hr]; [by apply rwp_ret|by split].
  - intros c f d d' j Hd (operational & Hs & Hr). exists operational. split; [done|]. by eapply reported_evolves.
Qed.
End Processor.

(** ** Witnesses *)

Module WebSample.
#[local] Existing Instance ClientSample.ascii.
#[local] Existing Instance ClientSample.urls.
#[local] Existing Instance FilterSample.ascii.
#[local] Existing Instance MediaSample.plain.
#[local] Instance runner : Runner :=
  processor_runner StoreSample.lower StoreSample.sum32 StoreSample.shortest RunSample.ai ClientSample.extractor ClientSample.admitted RunSample.time_parse
    (fun c => c) (fun l => l) (fun _ => true) JobSample.load 3 RunSample.processor (fun _ => NewDuplicateCache).
#[local] Instance laws : RunnerLaws :=
  processor_laws StoreSample.lower StoreSample.sum32 StoreSample.shortest RunSample.ai ClientSample.extractor ClientSample.admitted RunSample.time_parse
    (fun c => c) (fun l => l) (fun _ => true) JobSample.load 3 RunSample.processor (fun _ => NewDuplicateCache)
    RunSample.ai_behaves RunSample.extractor_behaves RunSample.admitted_behaves (fun l => Permutation_refl l) JobSample.load_behaves.
Definition lock : service string (option bool) := fun _ w => (Some true, w).
Lemma lock_behaves : well_behaved lock.
Proof. by split. Qed.

Definition job_id : string := "33333333-3333-4333-8333-333333333333".
Definition queue : qtables :=
  QTables {[ job_id := StoreSample.job ]} (Some (StatusRow 3 (Some StoreSample.owner) (Some 5) (Some StoreSample.now) true))
    {[ (job_id, 1) := StoreSample.receipt ]} (Some 5) (Some 7) ∅ ∅.
Definition tables : ptables := PTables queue ∅ ∅ ∅ ∅ ∅ ∅ ∅ ∅ ∅.
Definition world0 : world ptables := World tables None StoreSample.now [].
Definition request : http_request :=
  HttpRequest "Bearer secret" (ClientSample.body (JObj
    [("version", JNum "1"); ("job_id", JStr job_id); ("attempt_generation", JNum "1"); ("owner_id", JStr StoreSample.owner);
     ("generation", JNum "3"); ("backend_pid", JNum "5"); ("executor_instance_id", JStr StoreSample.instance);
     ("deadline_at", JStr (rfc3339nano (StoreSample.now + 600 * Second)))])).
Definition created_run (h : handler) := create StoreSample.sum32 "secret" h request world0.
Definition run_id : string := RunID StoreSample.sum32 job_id 1.
Definition ops : list server_op :=
  [OpCreate request; OpCreate request; OpGet request run_id; OpBackground run_id (fun _ => false); OpClose; OpCreate request].

Lemma web_tables_wf : p_wf tables.
Proof.
  split.
  - split; cbn.
    + intros a b ja jb Ha Hb _ _. apply lookup_singleton_Some in Ha as [<- _], Hb as [<- _]. done.
    + intros id j Hj. apply lookup_singleton_Some in Hj as [_ <-]. split; [done|intros _; by split].
    + intros id a x Hx. apply lookup_singleton_Some in Hx as [[= <- <-] _]. by exists StoreSample.job.
    + intros id Hid. set_solver.
  - intros id. cbn. by rewrite !lookup_empty.
  - intros a b ra rb Ha. cbn in Ha; by rewrite lookup_empty in Ha.
  - intros id r Hr. cbn in Hr; by rewrite lookup_empty in Hr.
  - intros k i Hi. cbn in Hi; by rewrite lookup_empty in Hi.
  - intros k k' i i' Hk. cbn in Hk; by rewrite lookup_empty in Hk.
  - intros id Hid. cbn in Hid. set_solver.
  - intros id [x Hx]. cbn in Hx; by rewrite lookup_empty in Hx.
Qed.
Definition launched (r : result proc_error (reply * handler)) : bool :=
  match r with Ok (RunReply v, h) => rstate_running (rv_state v) && bool_decide (is_Some (hd_active h !! run_id)) | _ => false end.
Lemma new_handler_ok d : handler_ok NewHandler d.
Proof. intros id f Hf. cbn in Hf. by rewrite lookup_empty in Hf. Qed.
End WebSample.
#[local] Existing Instance WebSample.runner.
#[local] Existing Instance WebSample.laws.


Lemma background_settles_witness :
  exists w', background WebSample.lock ClientSample.background StoreSample.fence RunSample.world0 = (Ok (Stored JobSample.expected), w') /\
    promised ClientSample.background StoreSample.fence (w_db w') JobSample.expected /\
    ended StoreSample.fence (fun row => r_state row = RSucceeded /\ r_result row = JobSample.expected) (w_db w').
Proof.
  assert (match (background WebSample.lock ClientSample.background StoreSample.fence RunSample.world0).1 with
          | Ok (Stored j) => j = JobSample.expected | _ => False end) as E by by_eval.
  pose proof (background_settles WebSample.lock WebSample.lock_behaves ClientSample.background StoreSample.fence RunSample.world0 RunSample.run_tables_wf
    eq_refl (Forall_nil_2 _)) as Hp.
  destruct (background _ _ _ _) as [r w']. cbn [fst] in E. destruct Hp as (_ & _ & e & -> & He). destruct e as [|j|]; [done| |done]. subst j.
  exists w'. split; [done|]. exact He.
Defined.

Lemma server_history_safe_witness :
  exists h w', serve_all StoreSample.sum32 "secret" WebSample.lock NewHandler WebSample.ops WebSample.world0 = (Ok h, w') /\
    hd_closed h = true /\ served NewHandler h (w_db w').
Proof.
  assert (match (serve_all StoreSample.sum32 "secret" WebSample.lock NewHandler WebSample.ops WebSample.world0).1 with
          | Ok h => hd_closed h = true | _ => False end) as E by by_eval.
  pose proof (server_history_safe StoreSample.sum32 "secret" WebSample.lock WebSample.lock_behaves WebSample.ops NewHandler WebSample.world0
    WebSample.web_tables_wf eq_refl (Forall_nil_2 _) (WebSample.new_handler_ok _)) as Hp.
  destruct (serve_all _ _ _ _ _ _) as [r w']. cbn [fst] in E. destruct Hp as (_ & _ & h & -> & Hs). exists h, w'. split_and!; [done|exact E|exact Hs].
Defined.
