(* ===== verification/Outbound.v ===== *)
(** * Outbound: the HTTP calls of a job's pipeline

    go-execution/orchestration runs a job by calling the domain, the ingestion
    and the processing service over HTTP, one call after the other, while it
    looks at the clock and at its context.  This file is what its parts share:

    - a history of what was done, newest first ([entry]): every call with what
      came of it, every look at the clock, every wait;
    - the outside world (class [Outside]) as functions of that history: the
      answer to the next call, the time, and which side of a [select] wins;
    - [OM], code that may fail and adds to the history, with rules for what it
      adds ([adds]) and for loops that end ([same]).

    A context is what [ctx.Err()] returns at each instant.  A call under a context
    that has ended is not made.  The calls are data; their URLs are not spelled
    out, which [url.PathEscape] keeps apart. *)

From S2P Require Import Prelude JsonStrict GoTime Db GoText GoDecode GoParseTime QueueTables ExecPayload GoRune ExecStore.
From Stdlib Require Import SpecFloat.

(** ** Errors *)

(** [OFailed] stands for the errors nobody tells apart; [OStage] is
    [digestStageError], [OUnknown] an error wrapped by "outcome is unknown",
    [OFuel] the end of a loop's fuel. *)
Inductive oerr :=
| OFailed (text : string)
| OContext (e : context_end)
| ORunNotFound
| ODomainBusy
| ODomainAuth
| OStaleFence
| ODomainOperation (code : string)
| OUnknown (e : oerr)
| OStage (stage : string) (deliveryMayStart : bool)
| OFuel.
#[export] Instance context_end_eq_dec : EqDecision context_end.
Proof. solve_decision. Defined.
#[export] Instance oerr_eq_dec : EqDecision oerr.
Proof. solve_decision. Defined.

(** [errors.Is(err, ErrStaleFence)] *)
Fixpoint is_stale (e : oerr) : bool := match e with OStaleFence => true | OUnknown e => is_stale e | _ => false end.

(** What the executor asks of an error: [DeliveryRisk], [context.Canceled] *)
Fixpoint failure_of (e : oerr) : failure :=
  match e with
  | OStage _ b => Failure (Some b) false
  | OContext Canceled => Failure None true
  | OUnknown e => failure_of e
  | _ => Failure None false
  end.

(** ** Calls and answers *)

Inductive run_service := Ingestion | Processing.

(** [domainRequest]; its version is 1. *)
Record domainRequest := MkDomainRequest {
  dq_Operation : string;
  dq_OperationID : string;
  dq_DomainInstanceID : string;
  dq_Envelope : ExecutionContext;
  dq_InputFingerprint : string;
  dq_Input : json;
}.

Inductive http_call :=
| GetDomainStatus
| PostOperation (q : domainRequest)
| GetOperation (instance job : string) (attempt : Z) (op opID : string)
| PostRun (s : run_service) (envelope : json)
| GetRunReceipt (s : run_service) (runID : string)
| PostCancel (s : run_service) (runID : string).

(** [hp_result_len] is the length of the text of a receipt's [result] member. *)
Record response := MkResponse { hp_status : Z; hp_retry_after : string; hp_body : http_body; hp_result_len : Z }.

Inductive entry :=
| Called (c : http_call) (a : option response)
| Looked
| Waited (d : Z)
| Prepared.
Notation history := (list entry).

(** The outside world: [answers] is nothing when a call fails, which says
    nothing of whether it was served. *)
Class Outside := {
  answers : history -> http_call -> option response;
  clock : history -> Z;
  timer_first : history -> bool;
}.

(** ** Code *)

Definition OM (A : Type) : Type := history -> result oerr A * history.
#[export] Instance OM_ret : MRet OM := fun A a h => (Ok a, h).
#[export] Instance OM_bind : MBind OM :=
  fun A B k m h => match m h with (Ok a, h') => k a h' | (Err e, h') => (Err e, h') end.
Definition oraise {A} (e : oerr) : OM A := fun h => (Err e, h).
Definition olift {A} (r : result oerr A) : OM A := fun h => (r, h).
(** A call whose error the code looks at *)
Definition oinspect {A} (m : OM A) : OM (result oerr A) := fun h => let '(r, h') := m h in (Ok r, h').

Section Steps.
Context `{Outside}.

(** [time.Now()] *)
Definition look : OM Z := fun h => (Ok (clock (Looked :: h)), Looked :: h).

Definition context : Type := Z -> context_end.
Definition Background (start timeout : Z) : context := fun now => if start + timeout <=? now then DeadlineExceeded else StillOpen.
Definition is_open (e : context_end) : bool := match e with StillOpen => true | _ => false end.
(** [ctx.Err()] *)
Definition ctx_err (ctx : context) : OM context_end := now ← look; mret (ctx now).

(** [select { case <-ctx.Done(): ...; case <-timer.C: }] *)
Definition wait (ctx : context) (d : Z) : OM context_end := fun h =>
  let h' := Waited d :: h in
  (Ok (if timer_first h' then StillOpen else ctx (clock h')), h').

Definition exchange (c : http_call) : OM (option response) := fun h => let a := answers h c in (Ok a, Called c a :: h).
(** [http.Client.Do] under a context *)
Definition send (ctx : context) (c : http_call) : OM (option response) :=
  e ← ctx_err ctx;
  if is_open e then exchange c else mret None.
End Steps.

(** ** time.ParseDuration *)

(** [unitMap], by the bytes of the unit; the micro sign has two spellings. *)
Definition unit_map : list (list Z * Z) :=
  [([110; 115], 1); ([117; 115], Microsecond); ([194; 181; 115], Microsecond); ([206; 188; 115], Microsecond);
   ([109; 115], Millisecond); ([115], Second); ([109], Minute); ([104], Hour)].
Definition unit_of (u : list Z) : option Z := x ← list_find (fun x => x.1 = u) unit_map; Some x.2.2.

(** [leadingInt]; an overflow is an error. *)
Fixpoint leadingInt (x : Z) (l : list Z) : option (Z * list Z) :=
  match l with
  | c :: l' =>
      if is_digit c then
        if 2 ^ 63 / 10 <? x then None
        else let y := x * 10 + (c - 48) in if 2 ^ 63 <? y then None else leadingInt y l'
      else Some (x, l)
  | [] => Some (x, [])
  end.
(** [leadingFraction]: the digits that fit, their scale, and the rest *)
Fixpoint leadingFraction (over : bool) (x scale : Z) (l : list Z) : Z * Z * list Z :=
  match l with
  | c :: l' =>
      if is_digit c then
        if over || ((2 ^ 63 - 1) / 10 <? x) then leadingFraction true x scale l'
        else let y := x * 10 + (c - 48) in
             if 2 ^ 63 <? y then leadingFraction true x scale l' else leadingFraction false y (scale * 10) l'
      else (x, scale, l)
  | [] => (x, scale, [])
  end.
Fixpoint take_unit (l : list Z) : list Z * list Z :=
  match l with
  | c :: l' => if (c =? 46) || is_digit c then ([], l) else let '(u, r) := take_unit l' in (c :: u, r)
  | [] => ([], [])
  end.

(** One number with its unit: nanoseconds, and the rest *)
Definition duration_part (l : list Z) : option (Z * list Z) :=
  match l with
  | [] => None
  | c :: _ =>
      if negb ((c =? 46) || is_digit c) then None else
      '(v, l1) ← leadingInt 0 l;
      let pre := negb (length l1 =? length l)%nat in
      let '(f, scale, l2, post) := match l1 with
        | 46 :: r => let '(f, scale, l2) := leadingFraction false 0 1 r in (f, scale, l2, negb (length l2 =? length r)%nat)
        | _ => (0, 1, l1, false)
        end in
      if negb pre && negb post then None else
      let '(u, rest) := take_unit l2 in
      match u with
      | [] => None
      | _ =>
          unit ← unit_of u;
          if 2 ^ 63 / unit <? v then None else
          let v := v * unit + (if 0 <? f then float_trunc (SFmul 53 1024 (binary64 f) (SFdiv 53 1024 (binary64 unit) (binary64 scale))) else 0) in
          if 2 ^ 63 <? v then None else Some (v, rest)
      end
  end.
Fixpoint duration_parts (fuel : nat) (d : Z) (l : list Z) : option Z :=
  match fuel, l with
  | _, [] => Some d
  | O, _ => None
  | S fuel, _ => '(v, rest) ← duration_part l; if 2 ^ 63 <? d + v then None else duration_parts fuel (d + v) rest
  end.
Definition ParseDuration (s : string) : option Z :=
  let '(neg, l) := match bytes_of s with 45 :: l' => (true, l') | 43 :: l' => (false, l') | l => (false, l) end in
  if bool_decide (l = [48]) then Some 0
  else match l with
       | [] => None
       | _ => d ← duration_parts (length l) 0 l;
              if neg : bool then Some (- d) else if 2 ^ 63 - 1 <? d then None else Some d
       end.

Example durations : map ParseDuration ["1.5s"; "1h15m30.918s"; "-300ms"; "0"; "3"; ".s"; "+5s"; "1µs"; "9223372036854775808ns"] =
  [Some (1500 * Millisecond); Some (4530918 * Millisecond); Some (- 300 * Millisecond); Some 0; None; None; Some (5 * Second); Some 1000; None].
Proof. by_eval. Qed.

(** ** Identifiers *)

(** [canonicalUUID]; a text of these characters is its own lower case. *)
Definition canonicalUUID (s : string) : bool :=
  (len s =? 36) &&
  forallb (fun x => if bool_decide (x.1 ∈ [8; 13; 18; 23]%nat) then x.2 =? dash else is_hex_lower x.2) (imap pair (bytes_of s)).

(** A UUID of version 5 made of a digest *)
Definition digest_uuid (sum : list Z) : string :=
  let b := take 16 sum in
  let b := alter (fun x => Z.lor (Z.land x 15) 80) 6%nat b in
  let b := alter (fun x => Z.lor (Z.land x 63) 128) 8%nat b in
  let part i j := hex_encode (take (j - i) (drop i b)) in
  string_of (part 0 4 ++ [dash] ++ part 4 6 ++ [dash] ++ part 6 8 ++ [dash] ++ part 8 10 ++ [dash] ++ part 10 16)%nat.

(** ** What code adds to the history *)

Section Adds.
Implicit Types h : history.

(** [m] adds entries that satisfy [P], and its result satisfies [Q]. *)
Definition adds {A} (P : entry -> Prop) (Q : result oerr A -> history -> Prop) (m : OM A) : Prop :=
  forall h, exists l, (m h).2 = l ++ h /\ Forall P l /\ Q (m h).1 l.

Lemma adds_mono {A} P Q (P' : entry -> Prop) (Q' : result oerr A -> history -> Prop) m :
  adds P Q m -> (forall e, P e -> P' e) -> (forall r l, Forall P l -> Q r l -> Q' r l) -> adds P' Q' m.
Proof.
  intros Hm HP HQ h. destruct (Hm h) as (l & E & Hl & Hq). exists l. split_and!; [done| |by apply HQ]. by eapply Forall_impl.
Qed.
Lemma adds_pure {A} P (Q : result oerr A -> history -> Prop) (r : result oerr A) : Q r [] -> adds P Q (olift r).
Proof. intros Hq h. by exists []. Qed.
Lemma adds_ret {A} P (Q : result oerr A -> history -> Prop) a : Q (Ok a) [] -> adds P Q (mret a).
Proof. intros Hq h. by exists []. Qed.
Lemma adds_raise {A} P (Q : result oerr A -> history -> Prop) e : Q (Err e) [] -> adds P Q (oraise e).
Proof. intros Hq h. by exists []. Qed.

Lemma adds_bind {A B} P Q (R : result oerr A -> history -> Prop) (m : OM A) (k : A -> OM B) :
  adds P R m -> (forall e l, Forall P l -> R (Err e) l -> Q (Err e) l) ->
  (forall a l, Forall P l -> R (Ok a) l -> adds P (fun r l' => Q r (l' ++ l)) (k a)) ->
  adds P Q (m ≫= k).
Proof.
  intros Hm He Hk h. destruct (Hm h) as (l & E & Hl & HR). unfold mbind, OM_bind.
  destruct (m h) as [[a|e] h1]; simpl in *; subst h1.
  - destruct (Hk a l Hl HR (l ++ h)) as (l' & E' & Hl' & HQ). exists (l' ++ l). rewrite E', app_assoc. split_and!; [done| |done].
    by apply Forall_app.
  - exists l. split_and!; [done..|]. by apply He.
Qed.
Lemma adds_inspect {A} P (Q : result oerr (result oerr A) -> history -> Prop) m :
  adds P (fun r l => Q (Ok r) l) m -> adds P Q (oinspect m).
Proof. intros Hm h. destruct (Hm h) as (l & E & Hl & HQ). exists l. unfold oinspect. destruct (m h) as [r h1]. done. Qed.

(** Entries only *)
Definition only {A} (P : entry -> Prop) (m : OM A) : Prop := adds P (fun _ _ => True) m.

Lemma only_mono {A} (P P' : entry -> Prop) (m : OM A) : only P m -> (forall e, P e -> P' e) -> only P' m.
Proof. intros Hm HP. by apply (adds_mono P (fun _ _ => True)). Qed.
Lemma only_ret {A} P (a : A) : only P (mret a).
Proof. by apply adds_ret. Qed.
Lemma only_raise {A} P e : only (A:=A) P (oraise e).
Proof. by apply adds_raise. Qed.
Lemma only_lift {A} P (r : result oerr A) : only P (olift r).
Proof. by apply adds_pure. Qed.
Lemma only_bind {A B} P (m : OM A) (k : A -> OM B) : only P m -> (forall a, only P (k a)) -> only P (m ≫= k).
Proof. intros Hm Hk. apply (adds_bind P _ (fun _ _ => True)); [done..|]. intros a l _ _. apply Hk. Qed.
Lemma only_inspect {A} P (m : OM A) : only P m -> only P (oinspect m).
Proof. intros Hm. by apply adds_inspect. Qed.
End Adds.

Section OnlySteps.
Context `{Outside} (P : entry -> Prop).

Lemma only_look : P Looked -> only P look.
Proof. intros HP h. exists [Looked]. split_and!; [done|by constructor|done]. Qed.
Lemma only_ctx_err ctx : P Looked -> only P (ctx_err ctx).
Proof. intros HP. apply only_bind; [by apply only_look|]. intros a. apply only_ret. Qed.
Lemma only_wait ctx d : P (Waited d) -> only P (wait ctx d).
Proof. intros HP h. exists [Waited d]. split_and!; [done|by constructor|done]. Qed.
Lemma only_exchange c : (forall a, P (Called c a)) -> only P (exchange c).
Proof. intros HP h. exists [Called c (answers h c)]. split_and!; [done|by constructor|done]. Qed.
Lemma only_send ctx c : P Looked -> (forall a, P (Called c a)) -> only P (send ctx c).
Proof.
  intros HL HC. apply only_bind; [by apply only_ctx_err|]. intros e. destruct (is_open e); [by apply only_exchange|apply only_ret].
Qed.
End OnlySteps.

#[export] Hint Resolve only_ret only_raise only_lift only_bind only_inspect only_look only_ctx_err only_wait only_exchange only_send : news.

(** ** Loops that end

    The clock does not go back, and a wait that its timer ended lasted.  When
    besides a context ends at [D] at the latest, and a [select] that the timer
    did not win was won by that context, then a loop whose turns each wait for
    [step] at least ends, and more fuel than is enough for the time left makes
    no difference to it: with either, it does the same. *)

Class Passing `{Outside} := {
  clock_step e h : clock h <= clock (e :: h);
  clock_wait d h : timer_first (Waited d :: h) = true -> clock h + d <= clock (Waited d :: h);
}.

(** What a context's end means for waits *)
Record ends `{Outside} (D : Z) (ctx : context) : Prop := {
  ends_at t : D <= t -> ctx t <> StillOpen;
  ends_wait d h : timer_first (Waited d :: h) = false -> ctx (clock (Waited d :: h)) <> StillOpen;
}.

Section Same.
Context `{Passing} (D step : Z).

(** From the instant [t] on, [m1] and [m2] do the same. *)
Definition same {A} (t : Z) (m1 m2 : OM A) : Prop :=
  forall h, t <= clock h -> m1 h = m2 h /\ clock h <= clock (m1 h).2.

Lemma same_ret {A} t (a : A) : same t (mret a) (mret a).
Proof. intros h _. split; [done|]. simpl. lia. Qed.
Lemma same_raise {A} t e : same (A:=A) t (oraise e) (oraise e).
Proof. intros h _. split; [done|]. simpl. lia. Qed.
Lemma same_lift {A} t (r : result oerr A) : same t (olift r) (olift r).
Proof. intros h _. split; [done|]. simpl. lia. Qed.
Lemma same_later {A} t t' (m1 m2 : OM A) : t <= t' -> same t m1 m2 -> same t' m1 m2.
Proof. intros Ht Hm h Hh. apply Hm. lia. Qed.
Lemma same_bind {A B} t (m1 m2 : OM A) (k1 k2 : A -> OM B) :
  same t m1 m2 -> (forall a, same t (k1 a) (k2 a)) -> same t (m1 ≫= k1) (m2 ≫= k2).
Proof.
  intros Hm Hk h Hh. destruct (Hm h Hh) as [E1 H2]. unfold mbind, OM_bind. rewrite <- E1. destruct (m1 h) as [[a|e] h']; simpl in *.
  - destruct (Hk a h') as [E3 H4]; [lia|]. split; [done|lia].
  - done.
Qed.
Lemma same_inspect {A} t (m1 m2 : OM A) : same t m1 m2 -> same t (oinspect m1) (oinspect m2).
Proof. intros Hm h Hh. destruct (Hm h Hh) as [E H2]. unfold oinspect. rewrite <- E. by destruct (m1 h). Qed.
Lemma same_assoc {A B C} t (m : OM A) (k : A -> OM B) (k1 k2 : B -> OM C) :
  same t (m ≫= fun a => k a ≫= k1) (m ≫= fun a => k a ≫= k2) -> same t ((m ≫= k) ≫= k1) ((m ≫= k) ≫= k2).
Proof. intros Hs h Hh. specialize (Hs h Hh). revert Hs. unfold mbind, OM_bind. by destruct (m h) as [[a|e] h']. Qed.
Lemma same_given {A B} t (a : A) (k1 k2 : A -> OM B) : same t (k1 a) (k2 a) -> same t (mret a ≫= k1) (mret a ≫= k2).
Proof. done. Qed.
Lemma same_look t : same t look look.
Proof. intros h _. split; [done|]. apply clock_step. Qed.
Lemma same_check t ctx : same t (ctx_err ctx) (ctx_err ctx).
Proof. apply same_bind; [apply same_look|]. intros. apply same_ret. Qed.
Lemma same_exchange t c : same t (exchange c) (exchange c).
Proof. intros h _. split; [done|]. apply clock_step. Qed.
Lemma same_call t ctx c : same t (send ctx c) (send ctx c).
Proof. apply same_bind; [apply same_check|]. intros e. destruct (is_open e); [apply same_exchange|apply same_ret]. Qed.

Context (ctx : context) (Hctx : ends D ctx) (Hstep : 0 < step).

(** A context found open is so before [D]; a wait that passes takes its time. *)
Lemma same_ctx_err {A} t (k1 k2 : context_end -> OM A) :
  (forall e, is_open e = false -> same t (k1 e) (k2 e)) ->
  (forall t', t <= t' < D -> same t' (k1 StillOpen) (k2 StillOpen)) ->
  same t (ctx_err ctx ≫= k1) (ctx_err ctx ≫= k2).
Proof using Type*.
  intros Hended Hopen h Hh. unfold ctx_err, look, mbind, OM_bind, mret, OM_ret. cbn [fst snd].
  pose proof (clock_step Looked h) as Hs. set (t1 := clock (Looked :: h)) in *.
  destruct (ctx t1) eqn:E.
  - assert (t1 < D) as Ht by (destruct (Z.lt_ge_cases t1 D) as [?|Ht]; [done|]; by destruct (ends_at _ _ Hctx _ Ht)).
    destruct (Hopen t1 ltac:(lia) (Looked :: h)) as [H1 H2]; [unfold t1; lia|]. split; [done|]. fold t1 in H2. lia.
  - destruct (Hended Canceled eq_refl (Looked :: h)) as [H1 H2]; [fold t1; lia|]. split; [done|]. fold t1 in H2. lia.
  - destruct (Hended DeadlineExceeded eq_refl (Looked :: h)) as [H1 H2]; [fold t1; lia|]. split; [done|]. fold t1 in H2. lia.
Qed.

Lemma same_wait {A} t d (k1 k2 : context_end -> OM A) :
  (forall e, is_open e = false -> same t (k1 e) (k2 e)) -> same (t + d) (k1 StillOpen) (k2 StillOpen) ->
  same t (wait ctx d ≫= k1) (wait ctx d ≫= k2).
Proof using Type*.
  intros Hended Hopen h Hh. unfold wait, mbind, OM_bind. cbn [fst snd]. pose proof (clock_step (Waited d) h) as Hs.
  destruct (timer_first (Waited d :: h)) eqn:E.
  - pose proof (clock_wait d h E) as Hw. destruct (Hopen (Waited d :: h)) as [H1 H2]; [lia|]. split; [done|lia].
  - pose proof (ends_wait _ _ Hctx d h E) as Hne. destruct (ctx (clock (Waited d :: h))) as [| |] eqn:E2; [done|..].
    + destruct (Hended Canceled eq_refl (Waited d :: h)) as [H1 H2]; [lia|]. split; [done|lia].
    + destruct (Hended DeadlineExceeded eq_refl (Waited d :: h)) as [H1 H2]; [lia|]. split; [done|lia].
Qed.

Lemma same_send {A} t c (k1 k2 : option response -> OM A) :
  same t (k1 None) (k2 None) -> (forall t' a, t <= t' < D -> same t' (k1 (Some a)) (k2 (Some a))) ->
  same t (send ctx c ≫= k1) (send ctx c ≫= k2).
Proof using Type*.
  intros Hnone Hsome. unfold send. apply same_assoc, same_ctx_err.
  - intros e He. rewrite He. apply Hnone.
  - intros t' Ht' h Hh. cbn [is_open]. unfold exchange, mbind, OM_bind. pose proof (clock_step (Called c (answers h c)) h) as Hc.
    destruct (answers h c) as [a|].
    + destruct (Hsome t' a Ht' (Called c (Some a) :: h)) as [H1 H2]; [lia|]. split; [done|lia].
    + destruct (Hnone (Called c None :: h)) as [H1 H2]; [lia|]. split; [done|lia].
Qed.

(** The fuel that is enough from [t] on *)
Definition enough (fuel : nat) (t : Z) : Prop := (0 < fuel)%nat /\ D - t < step * (Z.of_nat fuel - 1).
Lemma enough_next n t t' d : enough (S n) t -> t <= t' < D -> step <= d -> enough n (t' + d).
Proof using Hstep. unfold enough. intros [_ He] Ht Hd. split; nia. Qed.
End Same.

#[export] Hint Resolve same_ret same_raise same_lift same_bind same_inspect same_look same_check same_call : news.
