(* ===== verification/DomainClient.v ===== *)
(** * DomainClient: the domain service as the pipeline calls it

    go-execution/orchestration/domain.go over [Outbound]: the status of the
    domain process, and one operation of it from its POST, repeated only while
    the service answers that it is busy, to its terminal receipt.

    A context has ended or not at each look; the two loops take fuel.  The
    configuration is what [NewDomainClient] leaves of it: the polling interval. *)

From S2P Require Import Prelude JsonStrict GoTime Db GoText GoDecode GoParseTime ExecutorClient QueueTables ExecPayload GoRune ExecStore Outbound.

Definition maxDomainBody : Z := 8192.

Definition allowedDomainErrors : list string :=
  ["domain_operation_failed"; "stale_fence"; "authority_unavailable"; "delivery_unknown"; "external_outcome_unknown"; "prepared_digest_missing";
   "resource_limit"].
(** [safeCode] *)
Definition safeCode (s : string) : bool :=
  let l := bytes_of s in
  (1 <=? len s) && (len s <=? 64) && forallb (fun c => between 97 122 c || is_digit c || (c =? 95) || (c =? 45)) l.

Definition allowedOperation (op : string) : bool :=
  bool_decide (op ∈ ["summary_status"; "summaries_generate"; "digest_prepare"; "digest_publish"; "serbian_digest_retry"; "viber_digest_delivery";
                     "stats_publish"; "media_refresh"; "source_test"; "backup"]).

(** ** Answers *)

Record DomainStatus := MkDomainStatus { ds_DomainInstanceID : string; ds_ActiveOperations : Z; ds_Ready : bool }.
Definition domain_status_fields : list string := ["domain_instance_id"; "active_operations"; "ready"].
Definition set_domain_status (f : string) (v : json) (s : DomainStatus) : option DomainStatus :=
  let 'MkDomainStatus id active ready := s in
  if (f =? "domain_instance_id")%string then x ← as_string id v; Some (MkDomainStatus x active ready)
  else if (f =? "active_operations")%string then x ← as_int active v; Some (MkDomainStatus id x ready)
  else x ← as_bool ready v; Some (MkDomainStatus id active x).

(** The text of [Result] is its document and its length. *)
Record domainReceipt := MkDomainReceipt {
  dr_Version : Z;
  dr_JobID : string;
  dr_AttemptGeneration : Z;
  dr_Operation : string;
  dr_OperationID : string;
  dr_DomainInstanceID : string;
  dr_InputFingerprint : string;
  dr_State : string;
  dr_Result : option json;
  dr_ErrorCode : option string;
}.
Definition domain_receipt_fields : list string :=
  ["version"; "job_id"; "attempt_generation"; "operation"; "operation_id"; "domain_instance_id"; "input_fingerprint"; "state"; "result"; "error_code"].
Definition set_domain_receipt (f : string) (v : json) (r : domainReceipt) : option domainReceipt :=
  let 'MkDomainReceipt version job attempt op id instance fp state res err := r in
  if (f =? "version")%string then x ← as_int version v; Some (MkDomainReceipt x job attempt op id instance fp state res err)
  else if (f =? "job_id")%string then x ← as_string job v; Some (MkDomainReceipt version x attempt op id instance fp state res err)
  else if (f =? "attempt_generation")%string then x ← as_int attempt v; Some (MkDomainReceipt version job x op id instance fp state res err)
  else if (f =? "operation")%string then x ← as_string op v; Some (MkDomainReceipt version job attempt x id instance fp state res err)
  else if (f =? "operation_id")%string then x ← as_string id v; Some (MkDomainReceipt version job attempt op x instance fp state res err)
  else if (f =? "domain_instance_id")%string then x ← as_string instance v; Some (MkDomainReceipt version job attempt op id x fp state res err)
  else if (f =? "input_fingerprint")%string then x ← as_string fp v; Some (MkDomainReceipt version job attempt op id instance x state res err)
  else if (f =? "state")%string then x ← as_string state v; Some (MkDomainReceipt version job attempt op id instance fp x res err)
  else if (f =? "result")%string then Some (MkDomainReceipt version job attempt op id instance fp state (Some v) err)
  else x ← as_string_ptr v; Some (MkDomainReceipt version job attempt op id instance fp state res x).
Definition no_domain_receipt : domainReceipt := MkDomainReceipt 0 "" 0 "" "" "" "" "" None None.

(** [request]: the status line, the bounded read, one document and nothing after it *)
Definition domain_answer {T} (post : bool) (want : Z) (decode : json -> option T) (a : option response) : result oerr T :=
  match a with
  | None => Err (OFailed "domain service unavailable")
  | Some a =>
      if post && (hp_status a =? 429) then Err ODomainBusy
      else if bd_failed (hp_body a) || (maxDomainBody <? bd_length (hp_body a)) then Err (OFailed "domain service response exceeded its limit")
      else if negb (hp_status a =? want) then
        Err (if (hp_status a =? 401) || (hp_status a =? 403) then ODomainAuth else OFailed "domain service returned HTTP")
      else match decode_next (bd_lexemes (hp_body a)) (bd_ending (hp_body a)) with
           | Err _ => Err (OFailed "domain service returned invalid JSON")
           | Ok (j, rest) =>
               match decode j, decode_next rest (bd_ending (hp_body a)) with
               | Some v, Err EofErr => Ok v
               | _, _ => Err (OFailed "domain service returned invalid JSON")
               end
           end
  end.
(** A receipt, with the length of its result's text *)
Definition receipt_answer (post : bool) (want : Z) (a : option response) : result oerr (domainReceipt * Z) :=
  r ← domain_answer post want (decode_struct domain_receipt_fields set_domain_receipt no_domain_receipt) a;
  Ok (r, match a with Some a => hp_result_len a | None => 0 end).

Definition present (r : domainReceipt) : bool := match dr_Result r with None | Some JNull => false | Some _ => true end.

Definition validateReceipt (r : domainReceipt) (f : ExecutionContext) (instance op opID fingerprint : string) : result oerr unit :=
  _ ← guard_err (negb (dr_Version r =? 1) || negb (dr_JobID r =? xc_JobID f)%string || negb (dr_AttemptGeneration r =? xc_AttemptGeneration f) ||
        negb (dr_Operation r =? op)%string || negb (dr_OperationID r =? opID)%string || negb (dr_DomainInstanceID r =? instance)%string ||
        negb (dr_InputFingerprint r =? fingerprint)%string) (OFailed "domain service returned a mismatched operation receipt");
  _ ← guard_err (match dr_ErrorCode r with Some c => negb (safeCode c) || negb (bool_decide (c ∈ allowedDomainErrors)) | None => false end)
        (OFailed "domain service returned an invalid error code");
  let coded := bool_decide (is_Some (dr_ErrorCode r)) in
  _ ← guard_err ((dr_State r =? "succeeded")%string && (coded || negb (present r))) (OFailed "domain service returned an invalid success receipt");
  _ ← guard_err ((dr_State r =? "failed")%string && (negb coded || present r)) (OFailed "domain service returned an invalid failure receipt");
  _ ← guard_err (negb (bool_decide (dr_State r ∈ ["accepted"; "running"; "succeeded"; "failed"]))) (OFailed "domain service returned an invalid operation state");
  guard_err (bool_decide (dr_State r ∈ ["accepted"; "running"]) && (coded || present r)) (OFailed "domain service returned an invalid pending receipt").

(** ** Requests *)

Definition execution_context_json (f : ExecutionContext) : json :=
  JObj [("version", JNum "1"); ("job_id", JStr (xc_JobID f)); ("attempt_generation", JNum (itoa (xc_AttemptGeneration f)));
        ("owner_id", JStr (xc_OwnerID f)); ("generation", JNum (itoa (xc_Generation f))); ("backend_pid", JNum (itoa (xc_BackendPID f)));
        ("executor_instance_id", JStr (xc_ExecutorInstanceID f)); ("deadline_at", JStr (xc_DeadlineAt f))].
Definition domain_request_json (q : domainRequest) : json :=
  JObj [("version", JNum "1"); ("operation", JStr (dq_Operation q)); ("operation_id", JStr (dq_OperationID q));
        ("domain_instance_id", JStr (dq_DomainInstanceID q)); ("envelope", execution_context_json (dq_Envelope q));
        ("input_fingerprint", JStr (dq_InputFingerprint q)); ("input", dq_Input q)].

Section Domain.
Context `{Outside} (sha256 : list Z -> list Z) (pollInterval : Z) (fuel : nat).

Definition operationUUID (f : ExecutionContext) (operation logicalID : string) : string :=
  let data := marshal (JArr [JStr (xc_JobID f); JStr (itoa (xc_AttemptGeneration f)); JStr operation; JStr logicalID]) in
  digest_uuid (sha256 (bytes_of "evening-news-domain-operation-v1" ++ [0] ++ bytes_of data)).

Definition Status (ctx : context) : OM DomainStatus :=
  a ← send ctx GetDomainStatus;
  s ← olift (domain_answer false 200 (decode_struct domain_status_fields set_domain_status (MkDomainStatus "" 0 false)) a);
  if negb (canonicalUUID (ds_DomainInstanceID s)) || (ds_ActiveOperations s <? 0) || negb (ds_Ready s)
  then oraise (OFailed "domain service is not ready") else mret s.

(** The POST, repeated after 100 ms, 200 ms, ... up to a second while the answer
    is that the service is busy *)
Fixpoint postWithBusyRetry (n : nat) (delay : Z) (ctx : context) (q : domainRequest) : OM (domainReceipt * Z) :=
  match n with
  | O => oraise OFuel
  | S n =>
      a ← send ctx (PostOperation q);
      match receipt_answer true 202 a with
      | Err ODomainBusy =>
          e ← wait ctx delay;
          if is_open e then postWithBusyRetry n (if delay <? Second then Z.min (2 * delay) Second else delay) ctx q
          else oraise (OContext e)
      | r => olift r
      end
  end.

Definition read_operation (ctx : context) (f : ExecutionContext) (instance op opID : string) : OM (domainReceipt * Z) :=
  a ← send ctx (GetOperation instance (xc_JobID f) (xc_AttemptGeneration f) op opID);
  olift (receipt_answer false 200 a).

Definition operation_result (r : domainReceipt) (length : Z) : result oerr (list (string * json)) :=
  match dr_Result r with
  | Some (JObj ms) => if 4096 <? length then Err (OFailed "domain operation result is invalid") else Ok ms
  | _ => Err (OFailed "domain operation result is invalid")
  end.
Definition operation_failure (r : domainReceipt) : oerr :=
  match dr_ErrorCode r with
  | Some c => if (c =? "stale_fence")%string then OStaleFence else ODomainOperation c
  | None => ODomainOperation ""
  end.

(** The loop that reads the receipt until it is terminal *)
Fixpoint poll_operation (n : nat) (delay : Z) (ctx : context) (f : ExecutionContext) (instance op opID fingerprint : string)
    (receipt : domainReceipt * Z) : OM (list (string * json)) :=
  match n with
  | O => oraise OFuel
  | S n =>
      e ← ctx_err ctx;
      if negb (is_open e) then oraise (OContext e)
      else if (dr_State receipt.1 =? "succeeded")%string then olift (operation_result receipt.1 receipt.2)
      else if (dr_State receipt.1 =? "failed")%string then oraise (operation_failure receipt.1)
      else if negb (bool_decide (dr_State receipt.1 ∈ ["accepted"; "running"])) then oraise (OFailed "domain operation state is invalid")
      else
        e ← wait ctx delay;
        if negb (is_open e) then oraise (OContext e)
        else
          r ← oinspect (read_operation ctx f instance op opID);
          match r with
          | Err e => oraise (OUnknown e)
          | Ok receipt =>
              _ ← olift (validateReceipt receipt.1 f instance op opID fingerprint);
              poll_operation n (if delay <? 2 * Second then 2 * delay else delay) ctx f instance op opID fingerprint receipt
          end
  end.

(** A POST whose answer was lost is never repeated: its receipt is read once. *)
Definition post_or_reconcile (ctx : context) (f : ExecutionContext) (q : domainRequest) : OM (domainReceipt * Z) :=
  r ← oinspect (postWithBusyRetry fuel (100 * Millisecond) ctx q);
  match r with
  | Ok receipt => mret receipt
  | Err err =>
      if bool_decide (err = ODomainBusy) then oraise err
      else
        e ← ctx_err ctx;
        if negb (is_open e) then oraise err
        else
          r ← oinspect (read_operation ctx f (dq_DomainInstanceID q) (dq_Operation q) (dq_OperationID q));
          match r with
          | Err e => oraise (OUnknown e)
          | Ok receipt => mret receipt
          end
  end.

(** [ExecutePinned]; what is put into the request is a JSON document. *)
Definition ExecutePinned (ctx : context) (f : ExecutionContext) (instance op logicalID : string) (input : json) : OM (list (string * json)) :=
  if negb (allowedOperation op) || negb (canonicalUUID instance) || (logicalID =? "")%string || (96 <? len logicalID)
  then oraise (OFailed "domain operation is invalid")
  else
    let opID := operationUUID f op logicalID in
    let compact := marshal input in
    if 4096 <? len compact then oraise (OFailed "domain operation input is invalid")
    else
      let fingerprint := string_of (hex_encode (sha256 (bytes_of compact))) in
      let q := MkDomainRequest op opID instance f fingerprint input in
      if maxDomainBody <? len (marshal (domain_request_json q)) then oraise (OFailed "domain operation request exceeded its limit")
      else
        receipt ← post_or_reconcile ctx f q;
        _ ← olift (validateReceipt receipt.1 f instance op opID fingerprint);
        poll_operation fuel pollInterval ctx f instance op opID fingerprint receipt.

Definition Execute_operation (ctx : context) (f : ExecutionContext) (op logicalID : string) (input : json) : OM (list (string * json)) :=
  s ← Status ctx;
  ExecutePinned ctx f (ds_DomainInstanceID s) op logicalID input.
End Domain.

(** ** What an operation adds to the history *)

Definition answered_busy (a : option response) : bool := match a with Some a => hp_status a =? 429 | None => false end.
(** The POST of an operation that may have been accepted *)
Definition post_of (e : entry) : option (string * json) :=
  match e with
  | Called (PostOperation q) a => if answered_busy a then None else Some (dq_Operation q, dq_Input q)
  | _ => None
  end.
Definition posts (l : history) : list (string * json) := omap post_of l.

(** Posts of [op] on [input] only, no run submitted *)
Definition operation_entry (op : string) (input : json) (e : entry) : Prop :=
  match e with
  | Called (PostOperation q) _ => dq_Operation q = op /\ dq_Input q = input
  | Called GetDomainStatus _ | Called (GetOperation _ _ _ _ _) _ | Looked | Waited _ => True
  | _ => False
  end.
Definition no_post (e : entry) : Prop := match e with Called (PostOperation _) _ => False | _ => True end.

Lemma posts_app l1 l2 : posts (l1 ++ l2) = posts l1 ++ posts l2.
Proof. apply omap_app. Qed.
Lemma posts_none l : Forall no_post l -> posts l = [].
Proof. induction 1 as [|[c a| | |] l He Hl IH]; [done| |done..]. by destruct c. Qed.

Section DomainHistory.
Context `{Outside} (sha256 : list Z -> list Z) (pollInterval : Z) (fuel : nat).

Lemma Status_only P ctx : P Looked -> (forall a, P (Called GetDomainStatus a)) -> only P (Status ctx).
Proof.
  intros. apply only_bind; [by auto with news|]. intros a. apply only_bind; [by auto with news|]. intros s. destruct (_ || _); auto with news.
Qed.
Lemma read_operation_only P ctx f i op id : P Looked -> (forall a, P (Called (GetOperation i (xc_JobID f) (xc_AttemptGeneration f) op id) a)) ->
  only P (read_operation ctx f i op id).
Proof. intros. apply only_bind; auto with news. Qed.

Lemma poll_operation_only P n delay ctx f i op id fp r :
  P Looked -> (forall d, P (Waited d)) -> (forall a, P (Called (GetOperation i (xc_JobID f) (xc_AttemptGeneration f) op id) a)) ->
  only P (poll_operation n delay ctx f i op id fp r).
Proof.
  intros HL HW HC. revert delay r. induction n as [|n IH]; intros delay r; cbn [poll_operation]; [by auto with news|].
  apply only_bind; [by auto with news|]. intros e. destruct (is_open e); cbn [negb]; [|by auto with news].
  destruct (_ =? "succeeded")%string; [by auto with news|]. destruct (_ =? "failed")%string; [by auto with news|]. case_bool_decide; cbn [negb]; [|by auto with news].
  apply only_bind; [by auto with news|]. intros e'. destruct (is_open e'); cbn [negb]; [|by auto with news].
  apply only_bind; [apply only_inspect; by apply read_operation_only|]. intros [x|x]; [|by auto with news].
  apply only_bind; [by auto with news|]. intros _. apply IH.
Qed.

(** The POSTs of a request: none but the last may have been accepted. *)
Lemma postWithBusyRetry_posts n delay ctx q :
  adds (operation_entry (dq_Operation q) (dq_Input q)) (fun _ l => (length (posts l) <= 1)%nat) (postWithBusyRetry n delay ctx q).
Proof.
  revert delay. induction n as [|n IH]; intros delay; cbn [postWithBusyRetry]; [apply adds_raise; simpl; lia|].
  apply (adds_bind _ _ (fun r l => match r with
    | Ok a => (length (posts l) <= 1)%nat /\ (receipt_answer true 202 a = Err ODomainBusy -> posts l = [])
    | Err _ => posts l = [] end)).
  - apply (adds_bind _ _ (fun _ l => posts l = [])); [..|intros e l _ ->; done|].
    + eapply adds_mono; [apply only_ctx_err with (P := fun e => e = Looked); done| |]; [by intros ? ->|].
      intros _ l Hl _. apply posts_none. eapply Forall_impl; [exact Hl|]. by intros ? ->.
    + intros e l _ Hl. destruct (is_open e).
      * intros h. exists [Called (PostOperation q) (answers h (PostOperation q))]. split_and!; [done|by repeat constructor|].
        cbn [exchange fst]. rewrite posts_app, Hl, app_nil_r. unfold posts. simpl. destruct (answered_busy _) eqn:Eb; simpl; [split; [lia|done]|].
        split; [lia|]. unfold receipt_answer, domain_answer. destruct (answers h _) as [a|] eqn:Ea; [|done]. simpl in Eb. rewrite Eb. simpl.
        repeat (case_match; simpl; try done).
      * apply adds_ret. cbn [app]. rewrite Hl. split; [simpl; lia|done].
  - intros e l _ Hl. rewrite Hl. simpl. lia.
  - intros a l _ [H1 H2]. destruct (receipt_answer true 202 a) as [r|err]; [apply adds_pure; done|].
    destruct (decide (err = ODomainBusy)) as [->|Hne]; [|destruct err; try done; by apply adds_pure].
    specialize (H2 eq_refl). apply (adds_bind _ _ (fun _ l => posts l = [])).
    + intros h. exists [Waited delay]. by split_and!; repeat constructor.
    + intros e l' _ Hl'. rewrite posts_app, Hl', H2. simpl. lia.
    + intros e l' _ Hl'. destruct (is_open e); [|apply adds_raise; cbn [app]; rewrite posts_app, Hl', H2; simpl; lia].
      eapply adds_mono; [apply IH|done|]. intros r l2 _ Hl2. by rewrite !posts_app, Hl', H2, !app_nil_r.
Qed.
End DomainHistory.

Lemma adds_then {A B} P (m : OM A) (k : A -> OM B) :
  adds P (fun _ l => (length (posts l) <= 1)%nat) m -> (forall a, only (fun e => P e /\ no_post e) (k a)) ->
  adds P (fun _ l => (length (posts l) <= 1)%nat) (m ≫= k).
Proof.
  intros Hm Hk. apply (adds_bind _ _ _ _ _ Hm); [done|]. intros a l _ Hl. eapply adds_mono; [apply (Hk a)|by intros e [? _]|].
  intros r l' Hl' _. rewrite posts_app, (posts_none l'); [done|]. eapply Forall_impl; [exact Hl'|]. by intros e [_ ?].
Qed.
Lemma adds_inspected {A} P (Q : history -> Prop) (m : OM A) : adds P (fun _ => Q) m -> adds P (fun _ => Q) (oinspect m).
Proof. intros Hm. by apply adds_inspect. Qed.

Section Operations.
Context `{Outside} (sha256 : list Z -> list Z) (pollInterval : Z) (fuel : nat).

(** One operation is posted once, apart from POSTs refused as busy. *)
Lemma ExecutePinned_posts ctx f i op id input :
  adds (operation_entry op input) (fun _ l => (length (posts l) <= 1)%nat) (ExecutePinned sha256 pollInterval fuel ctx f i op id input).
Proof.
  unfold ExecutePinned. destruct (_ || _); [apply adds_raise; simpl; lia|]. destruct (4096 <? _); [apply adds_raise; simpl; lia|].
  destruct (maxDomainBody <? _); [apply adds_raise; simpl; lia|]. apply adds_then.
  - apply adds_then; [apply adds_inspected, postWithBusyRetry_posts|]. intros [r|err]; [by auto with news|]. case_bool_decide; [by auto with news|].
    apply only_bind; [by apply only_ctx_err|]. intros e. destruct (is_open e); cbn [negb]; [|by auto with news].
    apply only_bind; [|by intros []; auto with news]. apply only_inspect, read_operation_only; done.
  - intros r. apply only_bind; [by auto with news|]. intros _. by apply poll_operation_only.
Qed.

(** ** Operations end *)

Context `{!Passing} (D step : Z) (ctx : context) (Hctx : ends D ctx) (Hstep : 0 < step) (Hpoll : step <= pollInterval) (Hbusy : step <= 100 * Millisecond).

Lemma read_operation_same t f i op id : same t (read_operation ctx f i op id) (read_operation ctx f i op id).
Proof. apply same_bind; auto with news. Qed.

Lemma poll_operation_same n t n1 n2 delay f i op id fp r : enough D step n t -> (n <= n1)%nat -> (n <= n2)%nat -> step <= delay ->
  same t (poll_operation n1 delay ctx f i op id fp r) (poll_operation n2 delay ctx f i op id fp r).
Proof using Type*.
  revert t n1 n2 delay r. induction n as [|n IH]; intros t n1 n2 delay r He H1 H2 Hd; [unfold enough in He; lia|].
  destruct n1 as [|n1]; [lia|]. destruct n2 as [|n2]; [lia|]. cbn [poll_operation]. eapply same_ctx_err; [done|..].
  { intros e ->. apply same_raise. }
  intros t' Ht'. cbn [is_open negb]. destruct (_ =? "succeeded")%string; [apply same_lift|]. destruct (_ =? "failed")%string; [apply same_raise|].
  case_bool_decide; cbn [negb]; [|apply same_raise]. eapply same_wait; [done|..].
  { intros e ->. apply same_raise. }
  cbn [is_open negb]. apply same_bind; [apply same_inspect, read_operation_same|]. intros [x|x]; [|apply same_raise].
  apply same_bind; [apply same_lift|]. intros _. apply IH; [by eapply enough_next|lia..|]. destruct (delay <? _); lia.
Qed.

Lemma postWithBusyRetry_same n t n1 n2 delay q : enough D step n t -> (n <= n1)%nat -> (n <= n2)%nat -> step <= delay ->
  same t (postWithBusyRetry n1 delay ctx q) (postWithBusyRetry n2 delay ctx q).
Proof using Type*.
  revert t n1 n2 delay. induction n as [|n IH]; intros t n1 n2 delay He H1 H2 Hd; [unfold enough in He; lia|].
  destruct n1 as [|n1]; [lia|]. destruct n2 as [|n2]; [lia|]. cbn [postWithBusyRetry]. eapply same_send; [done|..].
  { apply same_lift. }
  intros t' a Ht'. destruct (receipt_answer _ _ _) as [r|[]]; try apply same_lift. eapply same_wait; [done|..].
  { intros e ->. apply same_raise. }
  cbn [is_open]. apply IH; [by eapply enough_next|lia..|]. assert (step <= Second) by (unfold Millisecond in *; units; lia).
  destruct (delay <? _); lia.
Qed.

Lemma Status_same t : same t (Status ctx) (Status ctx).
Proof. apply same_bind; [by auto with news|]. intros a. apply same_bind; [by auto with news|]. intros s. destruct (_ || _); auto with news. Qed.
End Operations.

Lemma ExecutePinned_same `{Passing} sha256 poll D step ctx (Hctx : ends D ctx) n t n1 n2 f i op id input :
  0 < step -> step <= poll -> step <= 100 * Millisecond -> enough D step n t -> (n <= n1)%nat -> (n <= n2)%nat ->
  same t (ExecutePinned sha256 poll n1 ctx f i op id input) (ExecutePinned sha256 poll n2 ctx f i op id input).
Proof.
  intros Hs Hp Hb He H1 H2. unfold ExecutePinned. destruct (_ || _); [apply same_raise|]. destruct (4096 <? _); [apply same_raise|].
  destruct (maxDomainBody <? _); [apply same_raise|]. apply same_bind.
  - apply same_bind; [apply same_inspect; by eapply postWithBusyRetry_same|]. intros [r|err]; [apply same_ret|]. case_bool_decide; [apply same_raise|].
    apply same_bind; [apply same_check|]. intros e. destruct (is_open e); cbn [negb]; [|apply same_raise].
    apply same_bind; [apply same_inspect, read_operation_same|]. intros []; [apply same_ret|apply same_raise].
  - intros r. apply same_bind; [apply same_lift|]. intros _. by eapply poll_operation_same.
Qed.
