(* ===== verification/RunClient.v ===== *)
(** * RunClient: runs of the ingestion and processing services

    go-execution/orchestration/services.go over [Outbound]: a run is submitted
    under an id that its job and attempt determine, found again when the answer
    was lost, read until it has ended, and cancelled with a confirmation when
    the context of the attempt ends first.  [newServiceRunClient] only checks
    the configuration; [poll] is the interval it leaves. *)

From S2P Require Import Prelude JsonStrict GoTime Db GoText GoDecode GoParseTime ExecutorClient QueueTables ExecPayload GoRune JobPayload.
From S2P Require Import ExecStore ArticleOutcome ContentFilter ArticleStore ProviderClients ProcessingServer Outbound.

Definition service_path (s : run_service) : string :=
  match s with Ingestion => "/internal/v1/ingestion/runs" | Processing => "/internal/v1/processing/runs" end.

(** ** Receipts *)

Record serviceReceipt := MkServiceReceipt {
  sr_RunID : string;
  sr_ID : string;
  sr_JobID : string;
  sr_AttemptGeneration : Z;
  sr_State : string;
  sr_Result : option json;
}.
Definition service_receipt_fields : list string := ["run_id"; "id"; "job_id"; "attempt_generation"; "state"; "result"].
Definition set_service_receipt (f : string) (v : json) (r : serviceReceipt) : option serviceReceipt :=
  let 'MkServiceReceipt run id job attempt state res := r in
  if (f =? "run_id")%string then x ← ExecutorClient.as_string run v; Some (MkServiceReceipt x id job attempt state res)
  else if (f =? "id")%string then x ← ExecutorClient.as_string id v; Some (MkServiceReceipt run x job attempt state res)
  else if (f =? "job_id")%string then x ← ExecutorClient.as_string job v; Some (MkServiceReceipt run id x attempt state res)
  else if (f =? "attempt_generation")%string then x ← as_int attempt v; Some (MkServiceReceipt run id job x state res)
  else if (f =? "state")%string then x ← ExecutorClient.as_string state v; Some (MkServiceReceipt run id job attempt x res)
  else Some (MkServiceReceipt run id job attempt state (Some v)).

(** The bounded body, read into a receipt; with the length of its result's text *)
Definition run_receipt (a : response) : option (serviceReceipt * Z) :=
  r ← Unmarshal (unmarshal_struct service_receipt_fields set_service_receipt (MkServiceReceipt "" "" "" 0 "" None)) (hp_body a);
  Some (r, hp_result_len a).

Definition terminalServiceState (state : string) : bool := bool_decide (state ∈ ["succeeded"; "failed"; "cancelled"; "interrupted"]).

Definition validate (r : serviceReceipt) (runID : string) (f : ExecutionContext) : bool :=
  let receivedID := if (sr_RunID r =? "")%string then sr_ID r else sr_RunID r in
  (receivedID =? runID)%string && (sr_JobID r =? xc_JobID f)%string && (sr_AttemptGeneration r =? xc_AttemptGeneration f).

Definition service_result (r : serviceReceipt) (length : Z) : result oerr vmap :=
  match sr_Result r with
  | None => Err (OFailed "job service result is invalid")
  | Some j =>
      if 4096 <? length then Err (OFailed "job service result is invalid")
      else match as_map None j with Some m => Ok m | None => Err (OFailed "job service result is invalid") end
  end.

(** The envelope of a run, as the executor's context has it *)
Definition run_envelope_json (f : ExecutionContext) : json :=
  JObj [("version", JNum "1"); ("job_id", JStr (xc_JobID f)); ("attempt_generation", JNum (itoa (xc_AttemptGeneration f)));
        ("owner_id", JStr (xc_OwnerID f)); ("generation", JNum (itoa (xc_Generation f))); ("backend_pid", JNum (itoa (xc_BackendPID f)));
        ("executor_instance_id", JStr (xc_ExecutorInstanceID f)); ("deadline_at", JStr (xc_DeadlineAt f))].

(** The wait the service asks for when it is busy: a second unless it says so,
    and between 100 ms and 5 s *)
Definition busy_wait (retryAfter : string) : Z :=
  let wanted := if (retryAfter =? "")%string then None else ParseDuration (retryAfter +:+ "s") in
  Z.min (5 * Second) (Z.max (100 * Millisecond) (default Second wanted)).

Section Runs.
Context `{Outside} (sha256 : list Z -> list Z) (poll : Z) (fuel : nat).

Definition deterministicRunID (s : run_service) (job : string) (attempt : Z) : string :=
  let service := match s with Ingestion => "ingestion" | Processing => "processing" end in
  digest_uuid (sha256 (bytes_of ("evening-news-" +:+ service +:+ "-v1") ++ [0] ++ bytes_of job ++ [0] ++ bytes_of (itoa attempt))).

(** [request]: any status, within the bound *)
Definition run_request (ctx : context) (c : http_call) : OM response :=
  a ← send ctx c;
  match a with
  | None => oraise (OFailed "job service unavailable")
  | Some a => if bd_failed (hp_body a) || (16384 <? bd_length (hp_body a)) then oraise (OFailed "job service response exceeded its limit") else mret a
  end.

Definition read_run (s : run_service) (ctx : context) (runID : string) : OM (serviceReceipt * Z) :=
  a ← run_request ctx (GetRunReceipt s runID);
  if hp_status a =? 404 then oraise ORunNotFound
  else if negb (hp_status a =? 200) then oraise (OFailed "job service returned HTTP")
  else match run_receipt a with Some r => mret r | None => oraise (OFailed "job service returned invalid receipt") end.

(** A 429 is a confirmed rejection, so the POST may be repeated. *)
Fixpoint submit (n : nat) (s : run_service) (ctx : context) (runID : string) (body : json) : OM (serviceReceipt * Z) :=
  match n with
  | O => oraise OFuel
  | S n =>
      a ← run_request ctx (PostRun s body);
      if hp_status a =? 429 then
        e ← wait ctx (busy_wait (hp_retry_after a));
        if is_open e then submit n s ctx runID body else oraise (OContext e)
      else if negb (hp_status a =? 200) && negb (hp_status a =? 202) then oraise (OFailed "job service rejected request with HTTP")
      else match run_receipt a with
           | None => oraise (OFailed "job service returned invalid receipt")
           | Some r => if (sr_JobID r.1 =? "")%string then read_run s ctx runID else mret r
           end
  end.

Definition confirmed (r : serviceReceipt) (runID : string) (f : ExecutionContext) : bool :=
  validate r runID f && terminalServiceState (sr_State r).

Definition cancelConfirmed (s : run_service) (runID : string) (f : ExecutionContext) : OM bool :=
  now ← look;
  let ctx := Background now (5 * Second) in
  a ← oinspect (run_request ctx (PostCancel s runID));
  let done := match a with
              | Ok a => (hp_status a =? 200) && match run_receipt a with Some r => confirmed r.1 runID f | None => false end
              | Err _ => false
              end in
  if done : bool then mret true
  else
    r ← oinspect (read_run s ctx runID);
    mret (match r with Ok r => confirmed r.1 runID f | Err _ => false end).

(** What [execute] returns once the context has ended *)
Definition abandon {A} (s : run_service) (runID : string) (f : ExecutionContext) (e : context_end) : OM A :=
  c ← cancelConfirmed s runID f;
  if c : bool then oraise (OContext e) else oraise (OFailed "job service cancellation was not confirmed").

Fixpoint poll_run (n : nat) (delay : Z) (s : run_service) (ctx : context) (runID : string) (f : ExecutionContext) (receipt : serviceReceipt * Z) : OM vmap :=
  match n with
  | O => oraise OFuel
  | S n =>
      e ← ctx_err ctx;
      if negb (is_open e) then abandon s runID f e
      else
        let state := sr_State receipt.1 in
        if (state =? "succeeded")%string then olift (service_result receipt.1 receipt.2)
        else if bool_decide (state ∈ ["failed"; "cancelled"; "interrupted"]) then oraise (OFailed "job service run failed")
        else if negb (state =? "running")%string then oraise (OFailed "job service state is invalid")
        else
          e ← wait ctx delay;
          if negb (is_open e) then abandon s runID f e
          else
            r ← oinspect (read_run s ctx runID);
            match r with
            | Err err =>
                e ← ctx_err ctx;
                if negb (is_open e) then abandon s runID f e
                else _ ← cancelConfirmed s runID f; oraise err
            | Ok receipt =>
                if negb (validate receipt.1 runID f) then oraise (OFailed "job service returned a mismatched receipt")
                else poll_run n (if delay <? 2 * Second then 2 * delay else delay) s ctx runID f receipt
            end
  end.

(** [errors.Is(err, errRunNotFound)] *)
Definition not_found {A} (r : result oerr A) : bool := match r with Err ORunNotFound => true | _ => false end.

(** A lost answer: the run is looked for, and submitted again only after a 404. *)
Definition reconcile (s : run_service) (ctx : context) (runID : string) (f : ExecutionContext) (body : json) : OM (serviceReceipt * Z) :=
  e ← ctx_err ctx;
  now ← look;
  r ← oinspect (read_run s (if is_open e then ctx else Background now (5 * Second)) runID);
  r ← (if not_found r then
         e ← ctx_err ctx;
         if negb (is_open e) then oraise (OContext e) else oinspect (submit fuel s ctx runID body)
       else mret r);
  match r with
  | Ok receipt => mret receipt
  | Err _ =>
      e ← ctx_err ctx;
      if negb (is_open e) then abandon s runID f e else oraise (OFailed "outcome is unknown")
  end.

(** What [execute] checks of the fence before it does anything *)
Definition valid_fence (f : ExecutionContext) : bool :=
  canonicalUUID (xc_JobID f) && canonicalUUID (xc_OwnerID f) && canonicalUUID (xc_ExecutorInstanceID f) &&
  (1 <=? xc_AttemptGeneration f) && (1 <=? xc_Generation f) && (1 <=? xc_BackendPID f).

Definition execute (s : run_service) (ctx : context) (f : ExecutionContext) : OM vmap :=
  if negb (valid_fence f) then oraise (OFailed "execution fence is invalid")
  else match parse_rfc3339nano (xc_DeadlineAt f) with
       | None => oraise (OFailed "execution deadline is invalid")
       | Some deadline =>
           now ← look;
           if deadline <=? now then oraise (OFailed "execution deadline is invalid")
           else
             let body := run_envelope_json f in
             let runID := deterministicRunID s (xc_JobID f) (xc_AttemptGeneration f) in
             r ← oinspect (submit fuel s ctx runID body);
             receipt ← (match r with Ok receipt => mret receipt | Err _ => reconcile s ctx runID f body end);
             if negb (validate receipt.1 runID f) then oraise (OFailed "job service returned a mismatched receipt")
             else poll_run fuel poll s ctx runID f receipt
       end.
End Runs.

(** ** What a run adds to the history *)

(** The calls of runs *)
Definition run_entry (e : entry) : Prop :=
  match e with Called (PostRun _ _) _ | Called (GetRunReceipt _ _) _ | Called (PostCancel _ _) _ | Looked | Waited _ => True | _ => False end.

(** A receipt that was read *)
Definition seen (l : history) (r : serviceReceipt * Z) : Prop := exists c a, Called c (Some a) ∈ l /\ run_receipt a = Some r.
(** The run was reported unknown, or in a final state. *)
Definition over (s : run_service) (runID : string) (f : ExecutionContext) (l : history) : Prop :=
  (exists a, Called (GetRunReceipt s runID) (Some a) ∈ l /\ hp_status a = 404) \/ exists r, seen l r /\ confirmed r.1 runID f = true.
Definition is_context (e : oerr) : bool := match e with OContext _ => true | _ => false end.

Lemma seen_sub l l' r : l ⊆ l' -> seen l r -> seen l' r.
Proof. unfold seen. set_solver. Qed.
Lemma over_sub s id f l l' : l ⊆ l' -> over s id f l -> over s id f l'.
Proof. unfold over, seen. set_solver. Qed.
Ltac in_history := first [eapply seen_sub; [|eassumption] | eapply over_sub; [|solve [eauto]]]; set_solver.

Notation traced := (adds run_entry).

Lemma traced_only {A} (Q : result oerr A -> history -> Prop) m : only run_entry m -> (forall r l, Q r l) -> traced Q m.
Proof. intros Hm HQ. by eapply adds_mono. Qed.

Lemma adds_try {A} P (R : result oerr A -> history -> Prop) m :
  adds P R m -> adds P (fun r l => match r with Ok r => R r l | Err _ => False end) (oinspect m).
Proof. intros Hm. by apply adds_inspect. Qed.

(** A look at the clock or a wait does not fail. *)
Lemma adds_step {A B} P Q (m : OM A) (k : A -> OM B) : only P m -> (forall h, Prelude.is_ok (m h).1 = true) ->
  (forall a l, Forall P l -> adds P (fun r l' => Q r (l' ++ l)) (k a)) -> adds P Q (m ≫= k).
Proof.
  intros Hm Ho Hk. apply (adds_bind _ _ (fun r _ => Prelude.is_ok r = true)).
  - intros h. destruct (Hm h) as (l & E & Hl & _). by exists l.
  - done.
  - intros a l Hl _. by apply Hk.
Qed.

Section RunHistory.
Context `{Outside} (sha256 : list Z -> list Z) (poll : Z) (fuel : nat).

Lemma run_request_traced ctx c : (forall a, run_entry (Called c a)) ->
  traced (fun r l => match r with Ok a => Called c (Some a) ∈ l | Err e => is_context e = false /\ e <> ORunNotFound end) (run_request ctx c).
Proof.
  intros Hc. apply (adds_bind _ _ (fun r l => match r with Ok (Some a) => Called c (Some a) ∈ l | Ok None => True | Err e => False end)).
  - apply (adds_bind _ _ (fun r l => match r with Err _ => False | _ => True end)); [|done|].
    + intros h. exists [Looked]. split_and!; [done|by repeat constructor|done].
    + intros e l _ _. destruct (is_open e); [|by apply adds_ret]. intros h. exists [Called c (answers h c)]. split_and!; [done|by repeat constructor|].
      simpl. destruct (answers h c); [by left|done].
  - done.
  - intros [a|] l _ Ha; [|by apply adds_raise]. destruct (_ || _); [by apply adds_raise|by apply adds_ret].
Qed.

Lemma read_run_traced s ctx id :
  traced (fun r l => match r with Ok r => seen l r
    | Err e => is_context e = false /\ (e = ORunNotFound -> exists a, Called (GetRunReceipt s id) (Some a) ∈ l /\ hp_status a = 404) end) (read_run s ctx id).
Proof.
  eapply adds_bind; [by apply run_request_traced|by intros e l _ [? ?]|]. intros a l _ Ha. cbn beta iota.
  destruct (hp_status a =? 404) eqn:E; [bool_to_prop; apply adds_raise; cbn [app]; split; [done|by exists a]|].
  destruct (negb _); [by apply adds_raise|]. destruct (run_receipt a) as [r|] eqn:Er; [|by apply adds_raise]. apply adds_ret. by exists (GetRunReceipt s id), a.
Qed.

Lemma submit_traced n s ctx id body : traced (fun r l => match r with Ok r => seen l r | Err _ => True end) (submit n s ctx id body).
Proof.
  induction n as [|n IH]; cbn [submit]; [by apply adds_raise|].
  eapply adds_bind; [by apply run_request_traced|done|]. intros a l _ Ha. cbn beta iota. destruct (hp_status a =? 429).
  { apply adds_step; [by apply only_wait|done|]. intros e l' _. destruct (is_open e); [|by apply adds_raise].
    eapply adds_mono; [apply IH|done|]. intros [r|e'] l2 _ Hr; cbn beta iota in *; [|done]. in_history. }
  destruct (_ && _); [by apply adds_raise|]. destruct (run_receipt a) as [r|] eqn:Er; [|by apply adds_raise]. destruct (_ =? "")%string.
  - eapply adds_mono; [apply read_run_traced|done|]. intros [r'|e'] l2 _ Hr; cbn beta iota in *; [|done]. in_history.
  - apply adds_ret. by exists (PostRun s body), a.
Qed.

Lemma cancelConfirmed_traced s id f :
  traced (fun r l => match r with Ok true => over s id f l | Ok false => True | Err _ => False end) (cancelConfirmed s id f).
Proof.
  apply (adds_bind _ _ (fun r _ => match r with Err _ => False | _ => True end)); [|done|].
  { intros h. exists [Looked]. split_and!; [done|by repeat constructor|done]. }
  intros now l0 _ _. eapply adds_bind; [apply adds_try, run_request_traced; done|by intros e l|]. intros a l _ Ha. cbn beta iota zeta in *.
  match goal with |- context [if ?b then _ else _] => destruct b eqn:Eb end.
  - apply adds_ret. destruct a as [a|]; [|done]. bool_to_prop. destruct (run_receipt a) as [r|] eqn:Er; [|done]. right.
    exists r. split; [|done]. exists (PostCancel s id), a. split; [set_solver|done].
  - eapply adds_bind; [apply adds_try, read_run_traced|by intros e l'|]. intros [r|e] l' _ Hr; apply adds_ret; cbn beta iota in *; [|done].
    destruct (confirmed r.1 id f) eqn:Ec; [|done]. right. exists r. split; [|done]. unfold seen in *. set_solver.
Qed.

Lemma abandon_traced {A} s id f e :
  traced (fun r l => match r with Ok _ => False | Err e => is_context e = true -> over s id f l end) (abandon (A:=A) s id f e).
Proof.
  eapply adds_bind; [apply cancelConfirmed_traced|done|]. intros [] l _ Hl; apply adds_raise; [done|by intros].
Qed.

(** What is known of a run when [execute] returns *)
Definition run_result (s : run_service) (id : string) (f : ExecutionContext) (r : result oerr vmap) (l : history) : Prop :=
  match r with
  | Ok m => exists x n, seen l (x, n) /\ validate x id f = true /\ sr_State x = "succeeded" /\ service_result x n = Ok m
  | Err e => is_context e = true -> over s id f l
  end.
Lemma run_result_sub s id f r l l' : l ⊆ l' -> run_result s id f r l -> run_result s id f r l'.
Proof. intros Hl. destruct r as [m|e]; simpl; [|intros ? ?; in_history]. intros (x & n & H1 & H2). exists x, n. split; [in_history|done]. Qed.

Lemma poll_run_traced n delay s ctx id f receipt : validate receipt.1 id f = true ->
  traced (fun r l => run_result s id f r l \/ exists m, r = Ok m /\ sr_State receipt.1 = "succeeded" /\ service_result receipt.1 receipt.2 = Ok m)
    (poll_run n delay s ctx id f receipt).
Proof.
  revert delay receipt. induction n as [|n IH]; intros delay receipt Hv; cbn [poll_run]; [apply adds_raise; by left|].
  apply adds_step; [by apply only_ctx_err|done|]. intros e l _.
  destruct (is_open e); cbn [negb].
  2: { eapply adds_mono; [apply abandon_traced|done|]. intros [m|e2] l2 _ Hr; cbn beta iota in *; [done|]. left. simpl. intros. in_history. }
  destruct (_ =? "succeeded")%string eqn:Es.
  { bool_to_prop. apply adds_pure. destruct (service_result _ _) as [m|e'] eqn:Er; [right; eauto|]. left. simpl.
    revert Er. unfold service_result. repeat case_match; intros [=]; by subst. }
  case_bool_decide; [apply adds_raise; by left|]. destruct (negb _); [apply adds_raise; by left|].
  apply adds_step; [by apply only_wait|done|]. intros e' l' _.
  destruct (is_open e'); cbn [negb].
  2: { eapply adds_mono; [apply abandon_traced|done|]. intros [m|e2] l2 _ Hr; cbn beta iota in *; [done|]. left. simpl. intros. in_history. }
  eapply adds_bind; [apply adds_try, read_run_traced|by intros|]. intros [r|e2] l2 _ Hr; cbn beta iota in *.
  - destruct (negb _) eqn:Ev; [apply adds_raise; by left|]. bool_to_prop. eapply adds_mono; [by apply IH|done|].
    intros x l3 _ [Hx|(m & -> & H1 & H2)]; left.
    + eapply run_result_sub; [|exact Hx]. set_solver.
    + exists r.1, r.2. split_and!; [|done..]. destruct r. in_history.
  - apply adds_step; [by apply only_ctx_err|done|]. intros e3 l3 _. destruct (is_open e3); cbn [negb].
    + apply (adds_bind _ _ (fun r _ => match r with Err _ => False | _ => True end)); [|done|].
      { eapply adds_mono; [apply cancelConfirmed_traced|done|]. by intros [[]|]. }
      intros _ l4 _ _. apply adds_raise. left. simpl. destruct Hr as [-> _]. done.
    + eapply adds_mono; [apply abandon_traced|done|]. intros [m|e4] l4 _ Hr4; cbn beta iota in *; [done|]. left. simpl. intros. in_history.
Qed.
End RunHistory.

Section Executing.
Context `{Outside} (sha256 : list Z -> list Z) (poll : Z) (fuel : nat).

Lemma reconcile_traced s ctx id f body :
  traced (fun r l => match r with Ok r => seen l r | Err e => is_context e = true -> over s id f l end) (reconcile fuel s ctx id f body).
Proof.
  apply adds_step; [by apply only_ctx_err|done|]. intros e l _. apply adds_step; [by apply only_look|done|]. intros now l1 _.
  eapply adds_bind; [apply adds_try, read_run_traced|by intros|]. intros r l2 _ Hr. cbn beta iota in Hr.
  apply (adds_bind _ _ (fun r l => match r with Ok (Ok x) => seen (l ++ l2) x | Ok (Err _) => True | Err e => is_context e = true -> over s id f (l ++ l2) end)).
  - destruct r as [x|err]; [by apply adds_ret|]. destruct (not_found _) eqn:En; [|by apply adds_ret]. destruct err; try done. destruct Hr as [_ Hr].
    apply adds_step; [by apply only_ctx_err|done|]. intros e2 l3 _. destruct (is_open e2); cbn [negb].
    + eapply adds_mono; [apply adds_try, submit_traced|done|]. intros [[x|e3]|e3] l4 _ Hx; cbn beta iota in *; [|done..]. in_history.
    + apply adds_raise. intros _. destruct (Hr eq_refl) as (a & Ha & Hs). left. exists a. set_solver.
  - intros e2 l3 _ Ho. cbn beta iota in *. intros He. specialize (Ho He). eapply over_sub; [|exact Ho]. set_solver.
  - intros [x|err] l3 _ Hx; cbn beta iota in *; [apply adds_ret; in_history|].
    apply adds_step; [by apply only_ctx_err|done|]. intros e4 l4 _. destruct (is_open e4); cbn [negb]; [by apply adds_raise|].
    eapply adds_mono; [apply abandon_traced|done|]. intros [m|e5] l5 _ Hr5; cbn beta iota in *; [done|]. intros. in_history.
Qed.

Lemma execute_traced s ctx f :
  traced (run_result s (deterministicRunID sha256 s (xc_JobID f) (xc_AttemptGeneration f)) f) (execute sha256 poll fuel s ctx f).
Proof.
  unfold execute. destruct (negb _); [by apply adds_raise|]. destruct (parse_rfc3339nano _) as [deadline|]; [|by apply adds_raise].
  apply adds_step; [by apply only_look|done|]. intros now l0 _. destruct (_ <=? _); [by apply adds_raise|]. set (id := deterministicRunID _ _ _ _).
  eapply adds_bind; [apply adds_try, submit_traced|by intros|]. intros r l1 _ Hr. cbn beta iota in Hr.
  apply (adds_bind _ _ (fun r l => match r with Ok x => seen (l ++ l1) x | Err e => is_context e = true -> over s id f (l ++ l1) end)).
  - destruct r as [x|err]; [by apply adds_ret|]. eapply adds_mono; [apply reconcile_traced|done|]. intros [x|e] l2 _ Hx; cbn beta iota in *; [in_history|].
    intros. in_history.
  - intros e l2 _ Ho. cbn beta iota in *. simpl. intros He. specialize (Ho He). eapply over_sub; [|exact Ho]. set_solver.
  - intros x l2 _ Hx. cbn beta iota in *. destruct (negb _) eqn:Ev; [by apply adds_raise|]. bool_to_prop.
    eapply adds_mono; [by apply poll_run_traced|done|]. intros r' l3 _ [Hr'|(m & -> & H1 & H2)].
    + eapply run_result_sub; [|exact Hr']. set_solver.
    + exists x.1, x.2. destruct x. split_and!; [in_history|done..].
Qed.

Lemma execute_only s ctx f : only run_entry (execute sha256 poll fuel s ctx f).
Proof. by eapply adds_mono; [apply execute_traced|..]. Qed.

(** C21: what [execute] returns is true of what it saw.  A result is that of a
    receipt it read, of this run, this job and this attempt, that had succeeded.
    An error of the context, on which the caller takes the run to have stopped,
    is returned only when the run was seen to be in a final state, or unknown
    to the service. *)
Theorem execute_truthful s ctx f h :
  exists l, (execute sha256 poll fuel s ctx f h).2 = l ++ h /\ Forall run_entry l /\
    let id := deterministicRunID sha256 s (xc_JobID f) (xc_AttemptGeneration f) in
    match (execute sha256 poll fuel s ctx f h).1 with
    | Ok m => exists x n, seen l (x, n) /\ validate x id f = true /\ sr_State x = "succeeded" /\ service_result x n = Ok m
    | Err (OContext _) => over s id f l
    | Err _ => True
    end.
Proof.
  destruct (execute_traced s ctx f h) as (l & E & Hl & HQ). exists l. split_and!; [done..|]. cbn zeta.
  destruct (execute sha256 poll fuel s ctx f h).1 as [m|[]]; try done. by apply HQ.
Qed.
End Executing.

(** ** Runs end *)

Section RunsEnd.
Context `{Passing} (sha256 : list Z -> list Z) (poll D step : Z) (ctx : context) (Hctx : ends D ctx) (Hstep : 0 < step).
Context (Hpoll : step <= poll) (Hbusy : step <= 100 * Millisecond).

Lemma run_request_same t ctx' c : same t (run_request ctx' c) (run_request ctx' c).
Proof. apply same_bind; [by auto with news|]. intros [a|]; [|by auto with news]. destruct (_ || _); auto with news. Qed.
Lemma read_run_same t s ctx' id : same t (read_run s ctx' id) (read_run s ctx' id).
Proof.
  apply same_bind; [apply run_request_same|]. intros a. destruct (_ =? 404); [by auto with news|]. destruct (negb _); [by auto with news|].
  destruct (run_receipt a); auto with news.
Qed.
Lemma cancelConfirmed_same t s id f : same t (cancelConfirmed s id f) (cancelConfirmed s id f).
Proof.
  apply same_bind; [by auto with news|]. intros now. apply same_bind; [apply same_inspect, run_request_same|]. intros a. cbn zeta.
  match goal with |- context [if ?b then _ else _] => destruct b end; [by auto with news|].
  apply same_bind; [apply same_inspect, read_run_same|]. intros. apply same_ret.
Qed.
Lemma abandon_same {A} t s id f e : same t (abandon (A:=A) s id f e) (abandon s id f e).
Proof. apply same_bind; [apply cancelConfirmed_same|]. intros []; apply same_raise. Qed.

Lemma busy_wait_long r : step <= busy_wait r.
Proof using Hbusy. unfold busy_wait. cbn zeta. unfold Millisecond in *. units. lia. Qed.

Lemma submit_same n t n1 n2 s id body : enough D step n t -> (n <= n1)%nat -> (n <= n2)%nat -> same t (submit n1 s ctx id body) (submit n2 s ctx id body).
Proof using Type*.
  revert t n1 n2. induction n as [|n IH]; intros t n1 n2 He H1 H2; [unfold enough in He; lia|].
  destruct n1 as [|n1]; [lia|]. destruct n2 as [|n2]; [lia|]. cbn [submit]. unfold run_request.
  apply same_assoc. eapply same_send; [done|apply (same_raise t (OFailed _))|]. intros t' a Ht'. cbn beta iota.
  destruct (_ || _); [apply (same_raise t' (OFailed _))|].
  apply same_given. destruct (_ =? 429).
  - eapply same_wait; [done|..]; [intros e ->; apply same_raise|]. cbn [is_open]. apply IH; [|lia..]. eapply enough_next; [done..|]. apply busy_wait_long.
  - destruct (_ && _); [apply same_raise|]. destruct (run_receipt a) as [r|]; [|apply same_raise]. destruct (_ =? "")%string; [apply read_run_same|apply same_ret].
Qed.
End RunsEnd.

Section RunsEndToo.
Context `{Passing} (sha256 : list Z -> list Z) (poll D step : Z) (ctx : context) (Hctx : ends D ctx) (Hstep : 0 < step).
Context (Hpoll : step <= poll) (Hbusy : step <= 100 * Millisecond).

Lemma poll_run_same n t n1 n2 delay s id f r : enough D step n t -> (n <= n1)%nat -> (n <= n2)%nat -> step <= delay ->
  same t (poll_run n1 delay s ctx id f r) (poll_run n2 delay s ctx id f r).
Proof using Type*.
  revert t n1 n2 delay r. induction n as [|n IH]; intros t n1 n2 delay r He H1 H2 Hd; [unfold enough in He; lia|].
  destruct n1 as [|n1]; [lia|]. destruct n2 as [|n2]; [lia|]. cbn [poll_run]. eapply same_ctx_err; [done|..].
  { intros e ->. apply abandon_same. }
  intros t' Ht'. cbn [is_open negb]. destruct (_ =? "succeeded")%string; [apply same_lift|]. case_bool_decide; [apply same_raise|].
  destruct (negb _); [apply same_raise|]. eapply same_wait; [done|..].
  { intros e ->. apply abandon_same. }
  cbn [is_open negb]. apply same_bind; [apply same_inspect, read_run_same|]. intros [x|x].
  - destruct (negb _); [apply same_raise|]. apply IH; [by eapply enough_next|lia..|]. destruct (delay <? _); lia.
  - apply same_bind; [apply same_check|]. intros e. destruct (is_open e); cbn [negb]; [|apply abandon_same].
    apply same_bind; [apply cancelConfirmed_same|]. intros. apply same_raise.
Qed.

Lemma execute_same n t n1 n2 s f : enough D step n t -> (n <= n1)%nat -> (n <= n2)%nat ->
  same t (execute sha256 poll n1 s ctx f) (execute sha256 poll n2 s ctx f).
Proof using Type*.
  intros He H1 H2. unfold execute. destruct (negb _); [apply same_raise|]. destruct (parse_rfc3339nano _) as [deadline|]; [|apply same_raise].
  apply same_bind; [apply same_look|]. intros now. destruct (_ <=? _); [apply same_raise|].
  assert (forall id body, same t (submit n1 s ctx id body) (submit n2 s ctx id body)) as Hsub by (intros; by eapply submit_same).
  apply same_bind; [apply same_inspect, Hsub|]. intros r. apply same_bind.
  - destruct r as [x|e]; [apply same_ret|]. unfold reconcile. apply same_bind; [apply same_check|]. intros e1.
    apply same_bind; [apply same_look|]. intros now'. apply same_bind; [apply same_inspect, read_run_same|]. intros r'. apply same_bind.
    + destruct (not_found r'); [|apply same_ret]. apply same_bind; [apply same_check|]. intros e2. destruct (is_open e2); cbn [negb]; [|apply same_raise].
      apply same_inspect, Hsub.
    + intros [x|e2]; [apply same_ret|]. apply same_bind; [apply same_check|]. intros e3. destruct (is_open e3); cbn [negb]; [apply same_raise|apply abandon_same].
  - intros x. destruct (negb _); [apply same_raise|]. by eapply poll_run_same.
Qed.
End RunsEndToo.

(** ** The processing service reads what is submitted *)

(** A body with the envelope's document *)
Definition submitted (f : ExecutionContext) (b : http_body) : Prop :=
  bd_failed b = false /\ bd_length b <= maxEnvelopeBytes /\ bd_lexemes b = lex_of (run_envelope_json f) /\ bd_ending b = AtEof.
(** Identifiers and counters of an execution context, as the executor has them *)
Record plain_context (f : ExecutionContext) : Prop := {
  pl_ids : forallb uuidPattern [xc_JobID f; xc_OwnerID f; xc_ExecutorInstanceID f] = true;
  pl_attempt : 1 <= xc_AttemptGeneration f < 2 ^ 31;
  pl_generation : 1 <= xc_Generation f < 2 ^ 31;
  pl_pid : 1 <= xc_BackendPID f < 2 ^ 31;
}.

Lemma as_int32_itoa old n : 0 <= n < 2 ^ 31 -> as_int32 old (JNum (itoa n)) = Some n.
Proof.
  intros Hn. unfold as_int32, as_int. rewrite ParseInt_itoa by lia. cbn [mbind option_bind].
  rewrite (proj2 (Z.ltb_ge n (- 2 ^ 31))), (proj2 (Z.leb_gt (2 ^ 31) n)) by lia. done.
Qed.
Lemma as_time_canonical old t : 0 <= c_year (local_date (FixedZone 0) (truncate Microsecond t)) < 10000 ->
  as_time old (JStr (canonicalDeadline t)) = Some (truncate Microsecond t, 0).
Proof.
  intros Hy. unfold as_time, canonicalDeadline, micro_stamp. set (u := truncate Microsecond t) in *.
  rewrite parse_fields_stamp; [|done| | |unfold micros; cbn [map]; repeat (apply Forall_cons_2; [first [lia|apply digit_byte]|]); constructor|by repeat constructor].
  - cbn. f_equal. f_equal. lia.
  - apply micros_is_text; [apply local_nano_bound|]. apply local_nano_micro. unfold u, truncate, Microsecond. dlia.
  - done.
Qed.

Lemma envelope_members v vv j a av o g gv p pv i d t off :
  as_int 0 v = Some vv -> as_int32 0 a = Some av -> as_int32 0 g = Some gv -> as_int32 0 p = Some pv -> as_time (zero_time, 0) d = Some (t, off) ->
  decode_struct run_envelope_fields set_run_envelope no_envelope
    (JObj [("version", v); ("job_id", JStr j); ("attempt_generation", a); ("owner_id", JStr o); ("generation", g); ("backend_pid", p);
           ("executor_instance_id", JStr i); ("deadline_at", d)]) = Some (MkEnvelope vv j av o gv pv i t off).
Proof.
  intros Ev Ea Eg Ep Ed. unfold decode_struct. cbn [foldl fst snd mbind option_bind].
  rewrite !find_exact by (apply (bool_decide_eq_true _); by_eval).
  cbn -[as_int as_int32 as_time]. rewrite Ev. cbn -[as_int as_int32 as_time]. rewrite Ea. cbn -[as_int as_int32 as_time].
  rewrite Eg. cbn -[as_int as_int32 as_time]. rewrite Ep. cbn -[as_int as_int32 as_time]. rewrite Ed. reflexivity.
Qed.

(** C22: the processing service reads every run the pipeline submits as it is
    meant: the same job, attempt, owner, generation, process and executor, and
    the same deadline, which makes it valid as long as that has not passed; and
    it stores the run under the id the pipeline then looks for. *)
Theorem run_exchange sha256 f deadline b now :
  plain_context f -> xc_DeadlineAt f = canonicalDeadline deadline ->
  0 <= c_year (local_date (FixedZone 0) (truncate Microsecond deadline)) < 10000 -> now < truncate Microsecond deadline -> submitted f b ->
  exists e, decode_envelope b = Some e /\ validEnvelope e now = true /\
    e = MkEnvelope 1 (xc_JobID f) (xc_AttemptGeneration f) (xc_OwnerID f) (xc_Generation f) (xc_BackendPID f) (xc_ExecutorInstanceID f)
          (truncate Microsecond deadline) 0 /\
    fe_RunID (NewFence sha256 e) = deterministicRunID sha256 Processing (xc_JobID f) (xc_AttemptGeneration f).
Proof.
  intros [Hids Ha Hg Hp] Hd Hy Hnow (Hf & Hl & Hx & He). eexists. split_and!; [| |reflexivity|reflexivity].
  - unfold decode_envelope. rewrite Hf, (proj2 (Z.ltb_ge _ _)) by done. cbn [orb]. rewrite Hx, He.
    rewrite <- (app_nil_r (lex_of _)), decode_next_document. unfold run_envelope_json. rewrite Hd.
    erewrite envelope_members; [reflexivity|by_eval|apply as_int32_itoa; lia..|by apply as_time_canonical].
  - cbn [forallb] in Hids. destruct (uuidPattern (xc_JobID f)) eqn:E1; [|done]. destruct (uuidPattern (xc_OwnerID f)) eqn:E2; [|done].
    destruct (uuidPattern (xc_ExecutorInstanceID f)) eqn:E3; [|done].
    unfold validEnvelope. cbn [en_Version en_JobID en_AttemptGeneration en_OwnerID en_Generation en_BackendPID en_ExecutorInstanceID en_DeadlineAt].
    rewrite E1, E2, E3, !(proj2 (Z.ltb_lt _ _)) by lia. done.
Qed.

(** The second attempt of a job, held by owner [2222...] in its third
    generation, due ten minutes later *)
Lemma run_exchange_witness :
  let f := ExecStore.MkContext "11111111-1111-4111-8111-111111111111" 2 "22222222-2222-4222-8222-222222222222" 3 41
    "33333333-3333-4333-8333-333333333333" (canonicalDeadline (1700000600 * Second)) 42 in
  let b := HttpBody false 280 (lex_of (run_envelope_json f)) AtEof in
  exists e, decode_envelope b = Some e /\ en_AttemptGeneration e = 2 /\
    fe_RunID (NewFence StoreSample.sum32 e) = deterministicRunID StoreSample.sum32 Processing (xc_JobID f) 2.
Proof.
  intros f b.
  destruct (run_exchange StoreSample.sum32 f (1700000600 * Second) b (1700000000 * Second)) as (e & He & _ & -> & Hr);
    [split; [by_eval|done..]|done|split; [apply Z.leb_le; by_eval|by_eval]|by_eval|split_and!; [done|apply Z.leb_le; by_eval|done|done]|].
  eexists. split; [exact He|]. split; [reflexivity|exact Hr].
Defined.
