(* ===== verification/Pipeline.v ===== *)
(** * Pipeline: what a job does

    go-execution/orchestration: pipeline.go and operational.go.  A job is a
    sequence of runs of the two run services ([RunClient]) and of operations of
    the domain service ([DomainClient]); what is stored of it is a bounded
    projection of their results.

    Parameters besides those of the clients: [prepareJob], which pins the
    operational settings of the attempt, and strconv's shortest decimals.
    Numbers are the binary64 of Go's float64. *)

From S2P Require Import Prelude JsonStrict GoTime Db GoText GoDecode GoParseTime ExecutorClient QueueTables ExecPayload GoRune JobPayload.
From S2P Require Import ExecStore ArticleOutcome ContentFilter ArticleStore ProviderClients ArticleRun ProcessingRun Outbound DomainClient RunClient.
From Stdlib Require Import SpecFloat.

(** ** Operational settings *)

Record OperationalSettings := MkOperationalSettings {
  op_Revision : Z;
  op_LimitsEnabled : bool;
  op_MaxArticles : Z;
  op_PerSource : Z;
  op_Days : Z;
  op_NewestDate : string;
  op_ProcessingEnabled : bool;
  op_DeliveryEnabled : bool;
  op_SerbianEnabled : bool;
}.
(** The settings for Telegram and Viber pass through unread. *)
Record JobOperationalConfig := MkJobOperationalConfig {
  jc_JobID : string;
  jc_AttemptGeneration : Z;
  jc_PinnedAt : Z;
  jc_Settings : OperationalSettings;
}.

Definition valid_settings (s : OperationalSettings) : bool :=
  negb ((op_Revision s <? 0) || (op_MaxArticles s <? 1) || (100000 <? op_MaxArticles s) || (op_PerSource s <? 1) || (100000 <? op_PerSource s) ||
        (op_Days s <? 0) || (36500 <? op_Days s)) &&
  ((op_NewestDate s =? "")%string || bool_decide (is_Some (parse_day (op_NewestDate s)))).
Definition valid_config (f : ExecutionContext) (c : JobOperationalConfig) : bool :=
  (jc_JobID c =? xc_JobID f)%string && (jc_AttemptGeneration c =? xc_AttemptGeneration f) && negb (jc_PinnedAt c =? zero_time) &&
  valid_settings (jc_Settings c).

(** No settings enable everything. *)
Definition processing_enabled (o : option JobOperationalConfig) : bool := match o with Some c => op_ProcessingEnabled (jc_Settings c) | None => true end.
Definition delivery_enabled (o : option JobOperationalConfig) : bool := match o with Some c => op_DeliveryEnabled (jc_Settings c) | None => true end.

(** ** Numbers of results *)

Definition billion : spec_float := binary64 (10 ^ 9).
Definition min_billion (n : spec_float) : spec_float := if SFltb billion n then billion else n.

Definition safeMetric (v : option value) : option spec_float :=
  n ← (match v with Some (VFloat x) => Some x | Some (VInt n) => Some (binary64 n) | _ => None end);
  if negb (finite n) || SFltb n (binary64 0) then None else Some (min_billion n).
Definition metric (v : option value) : spec_float := default (binary64 0) (safeMetric v).

(** [durationSeconds]: whole milliseconds *)
Definition durationSeconds (d : Z) : spec_float :=
  let s := SFdiv 53 1024 (binary64 (duration_millis d)) (binary64 1000) in
  if SFltb (binary64 86400) s then binary64 86400 else s.

Definition nonnegativeInt (v : option value) : option Z :=
  match v with
  | Some (VFloat n) =>
      if negb (finite n) || SFltb n (binary64 0) || SFltb billion n || negb (SFeqb (binary64 (float_trunc n)) n) then None else Some (float_trunc n)
  | _ => None
  end.
Definition positiveInt (v : option value) : option Z := n ← nonnegativeInt v; if 0 <? n then Some n else None.

Definition boolDefault (v : list (string * value)) (k : string) (def : bool) : bool := match vget v k with Some (VBool b) => b | _ => def end.

Fixpoint article_ids (seen : list Z) (l : list value) : option (list Z) :=
  match l with
  | [] => Some []
  | v :: l' =>
      id ← positiveInt (Some v);
      if bool_decide (id ∈ seen) then None else ids ← article_ids (id :: seen) l'; Some (id :: ids)
  end.
Definition articleIDs (v : option value) : option (list Z) :=
  match v with
  | Some (VArr l) =>
      if (Z.of_nat (length l) =? 0) || (100 <? Z.of_nat (length l)) then None
      else ids ← article_ids [] l; Some (merge_sort Z.le ids)
  | _ => None
  end.

(** ** The projection of a result *)

Definition projected_statuses : list string :=
  ["success"; "warning"; "deferred"; "dry_run"; "completed"; "rejected"; "exhausted"; "retry_wait"; "incomplete"; "settled"; "busy";
   "processing_disabled"; "delivery_disabled"].
Definition projected_bools : list string := ["success"; "settled"; "retryable"; "connection_ok"].
Definition projected_metrics : list string :=
  ["articles_fetched"; "articles_processed"; "articles_summarized"; "articles_categorized"; "articles_requeued"; "articles_rejected"; "articles_retrying";
   "articles_exhausted"; "total_candidates"; "found_candidates"; "processed"; "improved"; "summaries_generated"; "parts_sent"; "errors_count";
   "duration_seconds"; "backup_bytes"; "requeued_count"].
Definition outcome_states : list string := ["completed"; "rejected"; "exhausted"; "pending"; "retry_wait"; "processing"].
Definition safe_reasons : list string :=
  ["advertisement"; "resource_limit"; "category_mapping_failed"; "missing_summary"; "smart_filter_rejected"; "extraction_challenge"; "provider_timeout"].

(** The id and the state of an outcome that is valid *)
Definition validArticleOutcome (v : value) : option (Z * string) :=
  match v with
  | VObj m =>
      id ← positiveInt (vget m "article_id");
      match vget m "state" with Some (VStr s) => if bool_decide (s ∈ outcome_states) then Some (id, s) else None | _ => None end
  | _ => None
  end.
Definition outcome_reason (v : value) : string :=
  match v with
  | VObj m => match vget m "reason" with Some (VStr r) => if bool_decide (r ∈ safe_reasons) then r else "other" | _ => "other" end
  | _ => "other"
  end.
Definition outcome_object (v : value) : option (list (string * value)) :=
  '(id, state) ← validArticleOutcome v;
  Some [("article_id", VInt id); ("state", VStr state); ("reason", VStr (outcome_reason v))].
Definition projectArticleOutcomes (v : option value) : option (list (list (string * value))) :=
  match v with
  | Some (VArr raw) => let valid := omap outcome_object raw in Some (take 20 valid)
  | _ => None
  end.
Definition hasAnyNonCompleted (v : option value) : bool :=
  match v with
  | Some (VArr raw) => existsb (fun x => match validArticleOutcome x with Some (_, s) => negb (s =? "completed")%string | None => false end) raw
  | _ => false
  end.

Definition put_bool (v : list (string * value)) (out : list (string * value)) (k : string) : list (string * value) :=
  match vget v k with Some (VBool b) => put k (VBool b) out | _ => out end.
Definition put_metric (v : list (string * value)) (out : list (string * value)) (k : string) : list (string * value) :=
  match safeMetric (vget v k) with Some n => put k (VFloat n) out | None => out end.
Definition is_status (out : list (string * value)) (s : string) : bool := match vget out "status" with Some (VStr t) => (t =? s)%string | _ => false end.
(** A success that is not one *)
Definition warn_if (b : bool) (out : list (string * value)) : list (string * value) :=
  if b && is_status out "success" then put "status" (VStr "warning") out else out.

Definition put_outcomes (v out : list (string * value)) : list (string * value) :=
  let out := foldl (put_bool v) out ["settled"; "retryable"] in
  match vget v "article_outcomes", projectArticleOutcomes (vget v "article_outcomes") with
  | Some (VArr raw), Some outcomes =>
      let out := put "article_outcomes" (VArr (map VObj outcomes)) out in
      let validTotal := Z.of_nat (length (omap validArticleOutcome raw)) in
      let total := match nonnegativeInt (vget v "article_outcomes_total") with Some n => Z.min 100 (Z.max n validTotal) | None => validTotal end in
      let out := put "article_outcomes_total" (VInt total) out in
      let out := put "article_outcomes_omitted" (VInt (Z.max 0 (total - Z.of_nat (length outcomes)))) out in
      warn_if (hasAnyNonCompleted (vget v "article_outcomes")) out
  | _, _ => out
  end.

Definition boundedProjection (kind : string) (v : list (string * value)) : list (string * value) :=
  let status := match vget v "status" with Some (VStr s) => if bool_decide (s ∈ projected_statuses) then s else "success" | _ => "success" end in
  let out := [("status", VStr status)] in
  let out := foldl (put_bool v) out projected_bools in
  let out := foldl (put_metric v) out projected_metrics in
  let out := if (kind =? "article_reprocess")%string then put_outcomes v out else out in
  let out := if (kind =? "reprocess_failed")%string then put "dry_run" (VBool (is_status out "dry_run")) out else out in
  let out := if (kind =? "source_test")%string && negb (boolDefault out "connection_ok" false) then put "status" (VStr "warning") out else out in
  warn_if (match vget v "success" with Some (VBool false) => true | _ => false end || SFltb (binary64 0) (metric (vget v "errors_count"))) out.

(** ** Jobs *)

Definition empty_input : value := VObj [].
Definition cycle_metrics : list string :=
  ["articles_processed"; "articles_summarized"; "articles_categorized"; "articles_requeued"; "articles_rejected"; "articles_retrying"; "articles_exhausted";
   "total_candidates"; "found_candidates"; "processed"; "improved"; "duration_seconds"; "requeued_count"].
Definition is_digest (kind : string) : bool := bool_decide (kind ∈ ["news_digest"; "telegram_digest"]).

Record pipeline_config := MkPipelineConfig { pc_domain_poll : Z; pc_ingestion_poll : Z; pc_processing_poll : Z }.

Section Pipeline.
Context `{Outside} (sha256 : list Z -> list Z) (shortest : spec_float -> string) (p : pipeline_config) (fuel : nat).
(** The snapshot of the attempt's settings, which may fail *)
Context (prepareJob : option (history -> ExecutionContext -> option JobOperationalConfig)).
Context (ctx : context) (f : ExecutionContext).

Definition prepare (g : history -> ExecutionContext -> option JobOperationalConfig) : OM (option JobOperationalConfig) :=
  fun h => (Ok (g h f), Prepared :: h).

(** The closure [call] *)
Definition call (instance op id : string) (input : value) : OM (list (string * value)) :=
  match value_json shortest input with
  | None => oraise (OFailed "domain operation input is invalid")
  | Some j =>
      ms ← ExecutePinned sha256 (pc_domain_poll p) fuel ctx f instance op id j;
      match as_map None (JObj ms) with
      | Some (Some m) => mret m
      | _ => oraise (OFailed "domain operation result is invalid")
      end
  end.

(** An error replaced by another *)
Definition instead {A} (e : oerr) (m : OM A) : OM A := r ← oinspect m; match r with Ok a => mret a | Err _ => oraise e end.
Definition stage (s : string) : oerr := OStage s false.
Definition publish_stage (s : string) : oerr := OStage s true.

Definition cycle_result (ingest processed : list (string * value)) (elapsed : Z) : list (string * value) :=
  let number k v := (k, VFloat (metric (vget ingest v))) in
  let r := [number "sources_synced" "sources_completed"; number "articles_fetched" "articles_fetched"; number "errors_count" "errors_count"] in
  let r := match vget processed "status" with
           | Some (VStr s) => if bool_decide (s ∈ ["success"; "warning"]) then put "status" (VStr s) r else r
           | _ => r
           end in
  let r := foldl (put_metric processed) r cycle_metrics in
  let r := put "errors_count" (VFloat (min_billion (SFadd 53 1024 (metric (vget r "errors_count")) (metric (vget processed "errors_count"))))) r in
  put "duration_seconds" (VFloat (durationSeconds elapsed)) r.
Definition cycle_stats (r : list (string * value)) : value :=
  let number k := (k, VFloat (metric (vget r k))) in
  VObj [("stats", VObj [number "articles_fetched"; number "articles_processed"; ("api_calls_made", VInt 0); number "errors_count";
                        number "duration_seconds"])].

Definition fullCycle (instance : string) (operational : option JobOperationalConfig) : OM (list (string * value)) :=
  started ← look;
  ingest ← instead (OFailed "article ingestion failed") (execute sha256 (pc_ingestion_poll p) fuel Ingestion ctx f);
  processed ← (if processing_enabled operational
               then m ← instead (OFailed "article processing failed") (execute sha256 (pc_processing_poll p) fuel Processing ctx f); mret (default [] m)
               else mret [("status", VStr "processing_disabled")]);
  now ← look;
  let r := cycle_result (default [] ingest) processed (now - started) in
  _ ← oinspect (call instance "stats_publish" "stats_publish" (cycle_stats r));
  mret r.

Definition digest (instance : string) : OM Z :=
  status ← instead (stage "summary_status") (call instance "summary_status" "summary_status" empty_input);
  match nonnegativeInt (vget status "summaries_count") with
  | None => oraise (stage "summary_status_result")
  | Some count =>
      _ ← (if count =? 0 then
             _ ← instead (stage "summaries_generate") (call instance "summaries_generate" "summaries_generate" empty_input); mret tt
           else mret tt);
      prepared ← instead (stage "prepare") (call instance "digest_prepare" "digest_prepare" empty_input);
      match vget prepared "prepared_token" with
      | Some (VStr token) =>
          if negb (canonicalUUID token) then oraise (stage "prepare_result")
          else
            published ← instead (publish_stage "publish")
              (call instance "digest_publish" "digest_publish" (VObj [("prepared_token", VStr token)]));
            if negb (boolDefault published "success" false) then oraise (publish_stage "publish_result")
            else match nonnegativeInt (vget published "parts_sent"), nonnegativeInt (vget published "parts_total"), vget published "rich_message" with
                 | Some parts, Some total, Some (VBool _) => if total <? parts then oraise (publish_stage "publish_result") else mret parts
                 | _, _, _ => oraise (publish_stage "publish_result")
                 end
      | _ => oraise (stage "prepare_result")
      end
  end.

(** The operational settings of the attempt, checked *)
Definition settings_of (kind : string) : OM (option JobOperationalConfig) :=
  match prepareJob with
  | None => mret None
  | Some g =>
      pinned ← prepare g;
      match pinned with
      | None => oraise (if is_digest kind then stage "operational_settings" else OFailed "job operational settings unavailable")
      | Some c =>
          if valid_config f c then mret (Some c)
          else oraise (if is_digest kind then stage "operational_settings_invalid" else OFailed "job operational settings are invalid")
      end
  end.

Definition disabled (s : string) : list (string * value) := [("status", VStr s); ("parts_sent", VInt 0)].

Definition news_digest (instance : string) (operational : option JobOperationalConfig) (input : list (string * value)) : OM (list (string * value)) :=
  r ← (if boolDefault input "run_processing" true then instead (stage "processing") (fullCycle instance operational) else mret []);
  if boolDefault input "send_telegram" true && delivery_enabled operational then
    parts ← digest instance; mret (put "parts_sent" (VInt parts) r)
  else if negb (delivery_enabled operational) then mret (put "parts_sent" (VInt 0) (put "status" (VStr "delivery_disabled") r))
  else mret r.

Definition source_test (instance : string) (input : list (string * value)) : OM (list (string * value)) :=
  match positiveInt (vget input "source_id") with
  | None => oraise (OFailed "source test payload is invalid")
  | Some id =>
      r ← call instance "source_test" ("source_test:" +:+ itoa id) (VObj [("source_id", VInt id)]);
      match vget r "success" with
      | Some (VBool success) =>
          mret ([("success", VBool success); ("connection_ok", VBool success)] ++ (if success then [] else [("status", VStr "warning")]))
      | _ => oraise (OFailed "source test result is invalid")
      end
  end.

(** Media are refreshed as far as that goes; only a stale fence ends the job. *)
Fixpoint refresh_media (instance : string) (ids : list Z) : OM unit :=
  match ids with
  | [] => mret tt
  | id :: ids =>
      r ← oinspect (call instance "media_refresh" ("media_refresh:" +:+ itoa id) (VObj [("article_id", VInt id)]));
      match r with
      | Err e => if is_stale e then oraise e else refresh_media instance ids
      | Ok _ => refresh_media instance ids
      end
  end.
Definition run_processing (operational : option JobOperationalConfig) : OM (list (string * value)) :=
  m ← execute sha256 (pc_processing_poll p) fuel Processing ctx f; mret (default [] m).
Definition article_reprocess (instance : string) (operational : option JobOperationalConfig) (input : list (string * value)) : OM (list (string * value)) :=
  if negb (processing_enabled operational) then mret [("status", VStr "processing_disabled")]
  else match articleIDs (vget input "article_ids") with
       | None => oraise (OFailed "article reprocess payload is invalid")
       | Some ids =>
           _ ← (if boolDefault input "reextract_media" false then refresh_media instance ids else mret tt);
           run_processing operational
       end.

(** The [switch kind] *)
Definition run_kind (kind instance : string) (operational : option JobOperationalConfig) (input : list (string * value)) : OM (list (string * value)) :=
  if (kind =? "news_processing")%string then fullCycle instance operational
  else if (kind =? "news_digest")%string then news_digest instance operational input
  else if (kind =? "telegram_digest")%string then
    if delivery_enabled operational then parts ← digest instance; mret [("parts_sent", VInt parts)] else mret (disabled "delivery_disabled")
  else if (kind =? "summaries_generate")%string then call instance "summaries_generate" "summaries_generate" empty_input
  else if (kind =? "viber_digest_delivery")%string then
    instead (publish_stage "publish") (call instance "viber_digest_delivery" "viber_digest_delivery" empty_input)
  else if (kind =? "serbian_digest_retry")%string then
    instead (publish_stage "publish") (call instance "serbian_digest_retry" "serbian_digest_retry" empty_input)
  else if (kind =? "backup")%string then call instance "backup" "backup" empty_input
  else if (kind =? "source_test")%string then source_test instance input
  else if (kind =? "article_reprocess")%string then article_reprocess instance operational input
  else if (kind =? "reprocess_failed")%string then
    if processing_enabled operational then run_processing operational else mret [("status", VStr "processing_disabled")]
  else oraise (OFailed "unsupported job kind").

(** [Execute], of a payload that is a JSON document or empty; its result is the
    document and the length of its text. *)
Definition Execute (kind : string) (payload : option json) : OM (Z * json) :=
  match default (JObj []) payload with
  | JObj ms =>
      match as_map None (JObj ms) with
      | Some (Some input) =>
          operational ← settings_of kind;
          s ← oinspect (Status ctx);
          match s with
          | Err e => oraise (if is_digest kind then stage "domain_status" else e)
          | Ok s =>
              r ← run_kind kind (ds_DomainInstanceID s) operational input;
              match value_json shortest (VObj (boundedProjection kind r)) with
              | None => oraise (OFailed "job result exceeded its limit")
              | Some doc => if 4096 <? len (marshal doc) then oraise (OFailed "job result exceeded its limit") else mret (len (marshal doc), doc)
              end
          end
      | _ => oraise (OFailed "job payload is invalid")
      end
  | _ => oraise (OFailed "job payload is invalid")
  end.

(** What the executor makes of it: the outcome of the pipeline *)
Definition outcome_of (r : result oerr (Z * json)) (e : context_end) : pipeline_outcome :=
  match r with
  | Ok (n, doc) => PipelineOutcome n (Some doc) None e
  | Err err => PipelineOutcome 0 None (Some (failure_of err)) e
  end.
Definition run_job (kind : string) (payload : option json) : OM pipeline_outcome :=
  r ← oinspect (Execute kind payload);
  e ← ctx_err ctx;
  mret (outcome_of r e).
End Pipeline.

(** ** What a job may have delivered

    An operation that delivers to subscribers is posted, or it is not: what the
    executor makes of a job's error must agree. *)

Definition delivering (op : string) : bool := bool_decide (op ∈ ["digest_publish"; "viber_digest_delivery"; "serbian_digest_retry"]).
Definition quiet_entry (e : entry) : Prop := match e with Called (PostOperation q) _ => delivering (dq_Operation q) = false | _ => True end.
Definition undelivered (l : history) : Prop := Forall quiet_entry l.

(** An error that says that no delivery may have started is right. *)
Definition honest {A} (m : OM A) : Prop :=
  adds (fun _ => True) (fun r l => forall e, r = Err e -> fl_risk (failure_of e) = Some false -> undelivered l) m.
(** No error says so. *)
Definition cautious {A} (m : OM A) : Prop := adds (fun _ => True) (fun r _ => forall e, r = Err e -> fl_risk (failure_of e) <> Some false) m.
Notation quiet := (only quiet_entry).

Lemma adds_any {A} P Q (m : OM A) : adds P Q m -> adds (fun _ => True) Q m.
Proof. intros Hm. by eapply adds_mono. Qed.
Lemma quiet_honest {A} (m : OM A) : quiet m -> honest m.
Proof. intros Hm. eapply adds_mono; [exact Hm|done|]. by intros r l Hl _ e _ _. Qed.
Lemma cautious_honest {A} (m : OM A) : cautious m -> honest m.
Proof. intros Hm. eapply adds_mono; [exact Hm|done|]. intros r l _ Hr e He Hf. by destruct (Hr e He). Qed.
Lemma honest_after {A B} (m : OM A) (k : A -> OM B) : quiet m -> (forall a, honest (k a)) -> honest (m ≫= k).
Proof.
  intros Hm Hk h. destruct (Hm h) as (l & E & Hl & _). unfold mbind, OM_bind. destruct (m h) as [[a|e] h1]; simpl in *; subst h1.
  - destruct (Hk a (l ++ h)) as (l' & E' & _ & HQ). exists (l' ++ l). rewrite E', app_assoc. split_and!; [done|by apply Forall_true|].
    intros e He Hf. apply Forall_app. split; [by apply (HQ e)|done].
  - exists l. split_and!; [done|by apply Forall_true|]. by intros.
Qed.
Lemma honest_before {A B} (m : OM A) (k : A -> OM B) : honest m -> (forall a, cautious (k a)) -> honest (m ≫= k).
Proof.
  intros Hm Hk. apply (adds_bind _ _ _ _ _ Hm); [intros e l _ He e' [= <-] Hf; by apply (He e)|].
  intros a l _ _. eapply adds_mono; [apply Hk|done|]. intros r l' _ Hr e He Hf. by destruct (Hr e He).
Qed.
Lemma cautious_ret {A} (a : A) : cautious (mret a).
Proof. by apply adds_ret. Qed.
Lemma cautious_raise {A} e : fl_risk (failure_of e) <> Some false -> cautious (A:=A) (oraise e).
Proof. intros He. apply adds_raise. by intros e' [= <-]. Qed.
Lemma cautious_bind {A B} (m : OM A) (k : A -> OM B) : cautious m -> (forall a, cautious (k a)) -> cautious (m ≫= k).
Proof. intros Hm Hk. apply (adds_bind _ _ _ _ _ Hm); [naive_solver|]. intros a l _ _. apply Hk. Qed.
Lemma cautious_instead {A} P e (m : OM A) : only P m -> fl_risk (failure_of e) <> Some false -> cautious (instead e m).
Proof.
  intros Hm He. apply (adds_bind _ _ (fun r _ => match r with Err _ => False | _ => True end)); [|done|].
  - apply adds_inspect. by eapply adds_any, Hm.
  - intros [a|e'] l _ _; [by apply cautious_ret|by apply cautious_raise].
Qed.
Lemma quiet_instead {A} e (m : OM A) : quiet m -> quiet (instead e m).
Proof. intros Hm. apply only_bind; [by apply only_inspect|]. intros []; auto with news. Qed.
Lemma quiet_run {A} (m : OM A) : only run_entry m -> quiet m.
Proof. intros Hm. eapply only_mono; [exact Hm|]. by intros [[]| | |]. Qed.

#[export] Hint Resolve quiet_honest cautious_honest cautious_ret cautious_raise quiet_instead : news.

Section Delivery.
Context `{Outside} (sha256 : list Z -> list Z) (shortest : spec_float -> string) (p : pipeline_config) (fuel : nat).
Context (prepareJob : option (history -> ExecutionContext -> option JobOperationalConfig)) (ctx : context) (f : ExecutionContext).

Notation docall := (call sha256 shortest p fuel ctx f).
Notation cycle := (fullCycle sha256 shortest p fuel ctx f).

Lemma call_entries i op id input j : value_json shortest input = Some j -> only (operation_entry op j) (docall i op id input).
Proof.
  intros Hj. unfold call. rewrite Hj. apply only_bind.
  - eapply adds_mono; [apply ExecutePinned_posts|done..].
  - intros ms. destruct (as_map None (JObj ms)) as [[m|]|]; auto with news.
Qed.
Lemma call_quiet i op id input : delivering op = false -> quiet (docall i op id input).
Proof.
  intros Hop. destruct (value_json shortest input) as [j|] eqn:Hj; [|unfold call; rewrite Hj; auto with news].
  eapply only_mono; [by apply call_entries|]. intros [[]| | |]; try done. cbn. by intros [-> _].
Qed.
Lemma call_any i op id input : only (fun _ => True) (docall i op id input).
Proof.
  destruct (value_json shortest input) as [j|] eqn:Hj; [|unfold call; rewrite Hj; auto with news]. by eapply only_mono; [by apply call_entries|].
Qed.
Lemma execute_quiet poll s : quiet (execute sha256 poll fuel s ctx f).
Proof. apply quiet_run, execute_only. Qed.
Lemma look_quiet : quiet look.
Proof. by apply only_look. Qed.

Lemma fullCycle_quiet i o : quiet (cycle i o).
Proof.
  apply only_bind; [apply look_quiet|]. intros started. apply only_bind; [apply quiet_instead, execute_quiet|]. intros ingest.
  apply only_bind.
  { destruct (processing_enabled o); [|by auto with news]. apply only_bind; [apply quiet_instead, execute_quiet|]. intros m. auto with news. }
  intros processed. apply only_bind; [apply look_quiet|]. intros now. apply only_bind; [by apply only_inspect, call_quiet|]. intros r. auto with news.
Qed.

Lemma digest_honest i : honest (digest sha256 shortest p fuel ctx f i).
Proof.
  apply honest_after; [by apply quiet_instead, call_quiet|]. intros status.
  destruct (nonnegativeInt _) as [count|]; [|by auto with news]. apply honest_after.
  { destruct (count =? 0); [|by auto with news]. apply only_bind; [by apply quiet_instead, call_quiet|]. intros. auto with news. }
  intros _. apply honest_after; [by apply quiet_instead, call_quiet|]. intros prepared.
  destruct (vget _ _) as [[]|]; try by auto with news. destruct (negb _); [by auto with news|]. apply cautious_honest, cautious_bind.
  - by eapply cautious_instead; [apply call_any|].
  - intros published. destruct (negb _); [by apply cautious_raise|].
    repeat (case_match; try (by apply cautious_raise)). apply cautious_ret.
Qed.

Lemma settings_of_quiet kind : quiet (settings_of prepareJob f kind).
Proof.
  unfold settings_of. destruct prepareJob as [g|]; [|by auto with news]. apply only_bind.
  { intros h. exists [Prepared]. by split_and!; repeat constructor. }
  intros [c|]; [|by auto with news]. destruct (valid_config f c); auto with news.
Qed.
End Delivery.

(** The members of a payload, as values and as documents *)
Lemma vget_put k v l k' : vget (put k v l) k' = if (k' =? k)%string then Some v else vget l k'.
Proof.
  induction l as [|[k1 v1] l IH]; csimpl; [done|].
  destruct (String.eqb_spec k k1) as [->|H1]; csimpl.
  - destruct (String.eqb_spec k' k1); done.
  - rewrite IH. destruct (String.eqb_spec k' k1) as [->|H2]; [|done].
    by destruct (String.eqb_spec k1 k) as [->|].
Qed.
Lemma as_map_member ms input k : as_map None (JObj ms) = Some (Some input) -> vget input k = get (raw_map ms) k ≫= any_value.
Proof.
  unfold as_map, raw_map. intros E.
  enough (forall acc acc' : list _, (forall k, vget acc k = get acc' k ≫= any_value) ->
    foldl (fun acc m => acc ← acc; v ← any_value m.2; Some (put m.1 v acc)) (Some acc) ms = Some input ->
    vget input k = get (foldl (fun acc kv => upsert kv.1 kv.2 acc) acc' ms) k ≫= any_value) as Hgen.
  { apply (Hgen [] []); [done|]. revert E. cbn [default]. by destruct (foldl _ _ ms) as [l|]; intros [= ->]. }
  clear E. induction ms as [|[k1 j] ms IH]; intros acc acc' Ha; csimpl; [intros [= <-]; apply Ha|].
  destruct (any_value j) as [v|] eqn:Hv; cbn [mbind option_bind].
  - apply IH. intros k2. rewrite vget_put, get_upsert. destruct (_ =? _)%string; [by rewrite <- Hv|apply Ha].
  - intros E. exfalso. revert E. clear. by induction ms.
Qed.

Section Verdict.
Context `{Outside} (sha256 : list Z -> list Z) (shortest : spec_float -> string) (p : pipeline_config) (fuel : nat).
Context (prepareJob : option (history -> ExecutionContext -> option JobOperationalConfig)) (ctx : context) (f : ExecutionContext).

Notation kinds := (run_kind sha256 shortest p fuel ctx f).
Notation job := (Execute sha256 shortest p fuel prepareJob ctx f).

Lemma refresh_media_quiet i ids : quiet (refresh_media sha256 shortest p fuel ctx f i ids).
Proof.
  induction ids as [|id ids IH]; cbn [refresh_media]; [by auto with news|]. apply only_bind; [by apply only_inspect, call_quiet|].
  intros [m|e]; [done|]. destruct (is_stale e); [by auto with news|done].
Qed.
Lemma run_processing_quiet o : quiet (run_processing sha256 p fuel ctx f o).
Proof. apply only_bind; [apply execute_quiet|]. intros. auto with news. Qed.
Lemma source_test_quiet i input : quiet (source_test sha256 shortest p fuel ctx f i input).
Proof.
  unfold source_test. destruct (positiveInt _) as [id|]; [|by auto with news]. apply only_bind; [by apply call_quiet|]. intros r.
  destruct (vget r "success") as [[]|]; auto with news.
Qed.
Lemma article_reprocess_quiet i o input : quiet (article_reprocess sha256 shortest p fuel ctx f i o input).
Proof.
  unfold article_reprocess. destruct (negb _); [by auto with news|]. destruct (articleIDs _) as [ids|]; [|by auto with news].
  apply only_bind; [|intros _; apply run_processing_quiet]. destruct (boolDefault _ _ _); [apply refresh_media_quiet|by auto with news].
Qed.

Lemma run_kind_quiet kind i o input : bool_decide (kind ∈ ["telegram_digest"; "serbian_digest_retry"; "viber_digest_delivery"]) = false ->
  (kind = "news_digest" -> boolDefault input "send_telegram" true = false) -> quiet (kinds kind i o input).
Proof.
  intros Hk Hd. unfold run_kind. destruct (_ =? "news_processing")%string; [apply fullCycle_quiet|].
  destruct (kind =? "news_digest")%string eqn:E1.
  { bool_to_prop. unfold news_digest. apply only_bind.
    - destruct (boolDefault input "run_processing" true); [apply quiet_instead, fullCycle_quiet|by auto with news].
    - intros r. rewrite Hd by done. cbn [andb]. destruct (negb _); auto with news. }
  destruct (kind =? "telegram_digest")%string eqn:E2; [exfalso; bool_to_prop; set_solver|].
  destruct (_ =? "summaries_generate")%string; [by apply call_quiet|].
  destruct (kind =? "viber_digest_delivery")%string eqn:E3; [exfalso; bool_to_prop; set_solver|].
  destruct (kind =? "serbian_digest_retry")%string eqn:E4; [exfalso; bool_to_prop; set_solver|].
  destruct (_ =? "backup")%string; [by apply call_quiet|]. destruct (_ =? "source_test")%string; [apply source_test_quiet|].
  destruct (_ =? "article_reprocess")%string; [apply article_reprocess_quiet|].
  destruct (_ =? "reprocess_failed")%string; [|by auto with news]. destruct (processing_enabled o); [apply run_processing_quiet|by auto with news].
Qed.

Lemma run_kind_honest kind i o input : honest (kinds kind i o input).
Proof.
  assert (forall i op id input e, fl_risk (failure_of e) <> Some false -> honest (instead e (call sha256 shortest p fuel ctx f i op id input))) as Hloud.
  { intros. by apply cautious_honest; eapply cautious_instead; [apply call_any|]. }
  destruct (decide (kind = "news_digest")) as [->|H1].
  { cbn [run_kind String.eqb Ascii.eqb Bool.eqb]. unfold news_digest. apply honest_after.
    - destruct (boolDefault input "run_processing" true); [apply quiet_instead, fullCycle_quiet|by auto with news].
    - intros r. destruct (_ && _).
      + apply honest_before; [apply digest_honest|]. intros. apply cautious_ret.
      + destruct (negb _); auto with news. }
  destruct (decide (kind = "telegram_digest")) as [->|H2].
  { cbn [run_kind String.eqb Ascii.eqb Bool.eqb]. destruct (delivery_enabled o); [|by auto with news].
    apply honest_before; [apply digest_honest|]. intros. apply cautious_ret. }
  destruct (decide (kind = "viber_digest_delivery")) as [->|H3]; [by apply Hloud|].
  destruct (decide (kind = "serbian_digest_retry")) as [->|H4]; [by apply Hloud|].
  apply quiet_honest, run_kind_quiet; [|done]. apply bool_decide_eq_false. set_solver.
Qed.

Lemma Execute_honest kind payload : honest (job kind payload).
Proof.
  unfold Execute. destruct (default _ _) as [| | | | |ms]; try by apply quiet_honest, only_raise.
  destruct (as_map None (JObj ms)) as [[input|]|]; try by apply quiet_honest, only_raise.
  apply honest_after; [apply settings_of_quiet|]. intros o. apply honest_after; [by apply only_inspect, Status_only|].
  intros [s|e]; [|by apply quiet_honest, only_raise]. apply honest_before; [apply run_kind_honest|]. intros r.
  destruct (value_json _ _) as [doc|]; [|by apply cautious_raise]. destruct (4096 <? _); [by apply cautious_raise|apply cautious_ret].
Qed.

Lemma Execute_quiet kind ms : check_bool (raw_map ms) "send_telegram" = true -> mayDeliver kind (Some (JObj ms)) = false ->
  quiet (job kind (Some (JObj ms))).
Proof.
  unfold mayDeliver. destruct (bool_decide _) eqn:Hk; [done|]. intros Hb Hd. unfold Execute. cbn [default from_option id].
  destruct (as_map None (JObj ms)) as [[input|]|] eqn:Hm; [|by apply only_raise..].
  apply only_bind; [apply settings_of_quiet|]. intros o. apply only_bind; [by apply only_inspect, Status_only|].
  intros [s|e]; [|by auto with news]. apply only_bind.
  - apply run_kind_quiet; [done|]. intros ->. cbn [String.eqb Ascii.eqb Bool.eqb negb] in Hd. unfold boolDefault.
    rewrite (as_map_member _ _ _ Hm). unfold check_bool in Hb. destruct (get _ _) as [[]|]; try done; cbn in *; by subst.
  - intros r. destruct (value_json _ _) as [doc|]; [|by auto with news]. destruct (4096 <? _); auto with news.
Qed.

(** C4: the verdict of the executor on a job is right about deliveries.  Whatever
    the services answer or fail to answer and whenever the context ends, when
    the executor settles an attempt as failed or interrupted, so that it may be
    tried again, then no operation that delivers to subscribers was posted: not
    the publication of a digest, nor a delivery to Viber, nor the Serbian one. *)
Theorem job_verdict_sound kind ms h :
  check_bool (raw_map ms) "send_telegram" = true ->
  exists o l, run_job sha256 shortest p fuel prepareJob ctx f kind (Some (JObj ms)) h = (Ok o, l ++ h) /\
    forall state code m, settle kind ms o = (state, code, m) -> state ∈ [XFailed; XInterrupted] -> undelivered l.
Proof.
  intros Hb. destruct (Execute_honest kind (Some (JObj ms)) h) as (l & E & _ & Hhon).
  exists (outcome_of (job kind (Some (JObj ms)) h).1 (ctx (clock (Looked :: l ++ h)))), (Looked :: l). split.
  { unfold run_job, mbind, OM_bind, oinspect. destruct (job kind _ h) as [r h1]. simpl in *. by subst. }
  intros state code m Hs Hst. constructor; [done|].
  assert (mayDeliver kind (Some (JObj ms)) = false -> undelivered l) as Hq.
  { intros Hd. destruct (Execute_quiet kind ms Hb Hd h) as (l' & E' & Hl & _). rewrite E in E'. by apply app_inv_tail in E' as ->. }
  revert Hs. unfold settle, outcome_of, pipelineFailureDisposition, DeliveryOutcomeUnknown. 
  destruct (job kind (Some (JObj ms)) h).1 as [[n doc]|e]; cbn [po_error po_context po_length po_value].
  - destruct (ctx _); cbn iota beta.
    + destruct (safeResult _ _); [by intros [= <- <- <-]; set_solver|]. destruct (mayDeliver _ _) eqn:Hd; [|intros _; by apply Hq]. intros [= <- <- <-]. set_solver.
    + destruct (mayDeliver _ _) eqn:Hd; [|intros _; by apply Hq]. intros [= <- <- <-]. set_solver.
    + destruct (mayDeliver _ _) eqn:Hd; [|intros _; by apply Hq]. intros [= <- <- <-]. set_solver.
  - destruct (failure_of e) as [[[]|] fc] eqn:Hf.
    + intros [= <- <- <-]. set_solver.
    + intros _. apply (Hhon e eq_refl). by rewrite Hf.
    + destruct (mayDeliver _ _) eqn:Hd; [|intros _; by apply Hq]. intros [= <- <- <-]. set_solver.
Qed.
End Verdict.

(** ** Operations are posted once *)

Definition posted_once (ops : list string) (l : history) : Prop := NoDup (posts l) /\ Forall (fun x => x.1 ∈ ops) (posts l).
Definition posting {A} (ops : list string) (m : OM A) : Prop := adds (fun _ => True) (fun _ => posted_once ops) m.

Lemma posting_none {A} ops (m : OM A) : only no_post m -> posting ops m.
Proof. intros Hm. eapply adds_mono; [exact Hm|done|]. intros r l Hl _. unfold posted_once. rewrite posts_none by done. split; constructor. Qed.
Lemma posting_sub {A} ops ops' (m : OM A) : posting ops m -> ops ⊆ ops' -> posting ops' m.
Proof.
  intros Hm Hs. eapply adds_mono; [exact Hm|done|]. intros r l _ [H1 H2]. split; [done|]. eapply Forall_impl; [exact H2|]. intros x. apply Hs.
Qed.
Lemma posted_once_app ops1 ops2 l1 l2 : ops1 ## ops2 -> posted_once ops1 l1 -> posted_once ops2 l2 -> posted_once (ops1 ++ ops2) (l2 ++ l1).
Proof.
  intros Hd [H1 F1] [H2 F2]. rewrite Forall_forall in F1, F2. split; rewrite posts_app.
  - apply NoDup_app. split_and!; [done| |done]. intros x Hx1 Hx2. apply (Hd x.1); auto.
  - apply Forall_forall. intros x [Hx|Hx]%elem_of_app; apply elem_of_app; auto.
Qed.
Lemma posting_bind {A B} ops1 ops2 (m : OM A) (k : A -> OM B) : ops1 ## ops2 -> posting ops1 m -> (forall a, posting ops2 (k a)) ->
  posting (ops1 ++ ops2) (m ≫= k).
Proof.
  intros Hd Hm Hk. apply (adds_bind _ _ _ _ _ Hm).
  - intros e l _ [H1 H2]. split; [done|]. eapply Forall_impl; [exact H2|]. intros x Hx. apply elem_of_app. by left.
  - intros a l _ Hl. eapply adds_mono; [apply Hk|done|]. intros r l' _ Hl'. by apply posted_once_app.
Qed.
Lemma posting_inspect {A} ops (m : OM A) : posting ops m -> posting ops (oinspect m).
Proof. intros Hm. by apply adds_inspect. Qed.
(** A step that posts nothing, before or after *)
Lemma posting_after {A B} ops (m : OM A) (k : A -> OM B) : only no_post m -> (forall a, posting ops (k a)) -> posting ops (m ≫= k).
Proof. intros Hm Hk. apply (posting_bind [] ops); [set_solver|by apply posting_none|done]. Qed.
Lemma posting_before {A B} ops (m : OM A) (k : A -> OM B) : posting ops m -> (forall a, only no_post (k a)) -> posting ops (m ≫= k).
Proof. intros Hm Hk. rewrite <- (app_nil_r ops). apply posting_bind; [set_solver|done|]. intros a. by apply posting_none. Qed.
Lemma posting_instead {A} ops e (m : OM A) : posting ops m -> posting ops (instead e m).
Proof. intros Hm. apply posting_before; [by apply posting_inspect|]. intros []; auto with news. Qed.
Lemma no_post_run {A} (m : OM A) : only run_entry m -> only no_post m.
Proof. intros Hm. eapply only_mono; [exact Hm|]. by intros [[]| | |]. Qed.

Lemma article_ids_spec l seen ids : article_ids seen l = Some ids -> NoDup ids /\ (forall x, x ∈ ids -> x ∉ seen).
Proof.
  revert seen ids. induction l as [|v l IH]; intros seen ids; cbn [article_ids]; [intros [= <-]; split; [constructor|set_solver]|].
  destruct (positiveInt _) as [id|]; cbn [mbind option_bind]; [|done]. case_bool_decide as Hin; [done|].
  destruct (article_ids _ l) as [ids'|] eqn:E; cbn [mbind option_bind]; [|done]. intros [= <-]. apply IH in E as [H1 H2].
  split; [constructor; [intros Hx; apply H2 in Hx; set_solver|done]|]. intros x [->|Hx]%elem_of_cons; [done|]. apply H2 in Hx. set_solver.
Qed.
Lemma articleIDs_nodup v ids : articleIDs v = Some ids -> NoDup ids.
Proof.
  unfold articleIDs. destruct v as [[| | | | |l| |]|]; try done. destruct (_ || _); [done|].
  destruct (article_ids [] l) as [ids'|] eqn:E; cbn [mbind option_bind]; [|done]. intros [= <-]. apply article_ids_spec in E as [E _].
  by rewrite merge_sort_Permutation.
Qed.

Section Once.
Context `{Outside} (sha256 : list Z -> list Z) (shortest : spec_float -> string) (p : pipeline_config) (fuel : nat).
Context (prepareJob : option (history -> ExecutionContext -> option JobOperationalConfig)) (ctx : context) (f : ExecutionContext).

Notation docall := (call sha256 shortest p fuel ctx f).

(** The posts of one call *)
Lemma call_posts i op id input j : value_json shortest input = Some j ->
  adds (operation_entry op j) (fun _ l => (length (posts l) <= 1)%nat) (docall i op id input).
Proof.
  intros Hj. unfold call. rewrite Hj. apply adds_then; [apply ExecutePinned_posts|]. intros ms.
  destruct (as_map None (JObj ms)) as [[m|]|]; auto with news.
Qed.
Lemma entries_posts op j l : Forall (operation_entry op j) l -> Forall (fun x => x = (op, j)) (posts l).
Proof.
  induction 1 as [|e l He Hl IH]; [constructor|]. unfold posts in *. cbn [omap list_omap]. destruct e as [[] a| | |]; try done.
  destruct He as [<- <-]. simpl. destruct (answered_busy a); [done|by constructor].
Qed.
Lemma short_nodup {A} (l : list A) : (length l <= 1)%nat -> NoDup l.
Proof. destruct l as [|x [|]]; simpl; [constructor|intros; apply NoDup_singleton|lia]. Qed.
Lemma call_posting i op id input : posting [op] (docall i op id input).
Proof.
  destruct (value_json shortest input) as [j|] eqn:Hj; [|unfold call; rewrite Hj; apply posting_none; auto with news].
  eapply adds_mono; [by apply call_posts|done|]. intros r l Hl Hlen. split; [by apply short_nodup|].
  eapply Forall_impl; [by apply entries_posts|]. intros x ->. by left.
Qed.

Lemma execute_no_post poll s : only no_post (execute sha256 poll fuel s ctx f).
Proof. apply no_post_run, execute_only. Qed.
Lemma instead_no_post {A} e (m : OM A) : only no_post m -> only no_post (instead e m).
Proof. intros Hm. apply only_bind; [by apply only_inspect|]. intros []; auto with news. Qed.
Lemma look_no_post : only no_post look.
Proof. by apply only_look. Qed.
Lemma run_processing_no_post o : only no_post (run_processing sha256 p fuel ctx f o).
Proof. apply only_bind; [apply execute_no_post|]. intros. auto with news. Qed.

Lemma fullCycle_posting i o : posting ["stats_publish"] (fullCycle sha256 shortest p fuel ctx f i o).
Proof.
  apply posting_after; [apply look_no_post|]. intros started. apply posting_after; [apply instead_no_post, execute_no_post|]. intros ingest.
  apply posting_after.
  { destruct (processing_enabled o); [|by auto with news]. apply only_bind; [apply instead_no_post, execute_no_post|]. intros m. auto with news. }
  intros processed. apply posting_after; [apply look_no_post|]. intros now. apply posting_before; [apply posting_inspect, call_posting|].
  intros. auto with news.
Qed.

Lemma digest_posting i : posting ["summary_status"; "summaries_generate"; "digest_prepare"; "digest_publish"] (digest sha256 shortest p fuel ctx f i).
Proof.
  apply (posting_bind ["summary_status"] ["summaries_generate"; "digest_prepare"; "digest_publish"]); [set_solver|apply posting_instead, call_posting|].
  intros status. destruct (nonnegativeInt _) as [count|]; [|apply posting_none; auto with news].
  apply (posting_bind ["summaries_generate"] ["digest_prepare"; "digest_publish"]); [set_solver| |].
  { destruct (count =? 0); [|apply posting_none; auto with news]. apply posting_before; [apply posting_instead, call_posting|]. intros. auto with news. }
  intros _. apply (posting_bind ["digest_prepare"] ["digest_publish"]); [set_solver|apply posting_instead, call_posting|]. intros prepared.
  destruct (vget _ _) as [[]|]; try (apply posting_none; auto with news; fail). destruct (negb _); [apply posting_none; auto with news|].
  apply posting_before; [apply posting_instead, call_posting|]. intros published. destruct (negb _); [by auto with news|].
  repeat (case_match; try by auto with news).
Qed.

(** Media are refreshed once for each article. *)
Lemma refresh_media_posts i ids : NoDup ids ->
  adds (fun _ => True) (fun _ l => NoDup (posts l) /\ Forall (fun x => x.1 = "media_refresh" /\ exists id, id ∈ ids /\ x.2 = JObj [("article_id", int_json id)]) (posts l))
    (refresh_media sha256 shortest p fuel ctx f i ids).
Proof.
  induction 1 as [|id ids Hid Hnd IH]; cbn [refresh_media]; [apply adds_ret; split; constructor|].
  apply (adds_bind _ _ (fun r l => Prelude.is_ok r = true /\ NoDup (posts l) /\ Forall (fun x => x = ("media_refresh", JObj [("article_id", int_json id)])) (posts l))).
  - apply adds_inspect. eapply adds_mono; [by apply call_posts|done|]. intros r l Hl Hlen. split_and!; [done|by apply short_nodup|by apply entries_posts].
  - by intros e l _ [? _].
  - intros r l _ (_ & H1 & H2).
    assert (Forall (fun x => x.1 = "media_refresh" /\ exists id0, id0 ∈ id :: ids /\ x.2 = JObj [("article_id", int_json id0)]) (posts l)) as H2'.
    { eapply Forall_impl; [exact H2|]. intros x ->. split; [done|]. exists id. split; [by left|done]. }
    assert (adds (fun _ => True) (fun _ l' => NoDup (posts (l' ++ l)) /\
      Forall (fun x => x.1 = "media_refresh" /\ exists id0, id0 ∈ id :: ids /\ x.2 = JObj [("article_id", int_json id0)]) (posts (l' ++ l)))
      (refresh_media sha256 shortest p fuel ctx f i ids)) as Hnext.
    { eapply adds_mono; [apply IH|done|]. intros r' l' _ [N1 N2]. rewrite posts_app. rewrite Forall_forall in *. split.
      - apply NoDup_app. split_and!; [done| |done]. intros x Hx Hx2. apply H2 in Hx2 as ->. destruct (N2 _ Hx) as (_ & id' & Hin & E).
        simpl in E. injection E as E. unfold itoa in E. by apply pretty.pretty_Z_inj in E as <-.
      - intros x [Hx|Hx]%elem_of_app; [|by apply H2']. destruct (N2 _ Hx) as (E & id' & Hin & E2).
        split; [done|]. exists id'. split; [by right|done]. }
    destruct r as [m|e]; [done|]. destruct (is_stale e); [by apply adds_raise|done].
Qed.
End Once.

Section Jobs.
Context `{Outside} (sha256 : list Z -> list Z) (shortest : spec_float -> string) (p : pipeline_config) (fuel : nat).
Context (prepareJob : option (history -> ExecutionContext -> option JobOperationalConfig)) (ctx : context) (f : ExecutionContext).

Notation once m := (adds (fun _ => True) (fun _ l => NoDup (posts l)) m).

Lemma posting_nodup {A} ops (m : OM A) : posting ops m -> once m.
Proof. intros Hm. eapply adds_mono; [exact Hm|done|]. by intros r l _ [? _]. Qed.
Lemma once_after {A B} (m : OM A) (k : A -> OM B) : only no_post m -> (forall a, once (k a)) -> once (m ≫= k).
Proof.
  intros Hm Hk h. destruct (Hm h) as (l & E & Hl & _). unfold mbind, OM_bind. destruct (m h) as [[a|e] h1]; simpl in *; subst h1.
  - destruct (Hk a (l ++ h)) as (l' & E' & _ & HQ). exists (l' ++ l). rewrite E', app_assoc. split_and!; [done|by apply Forall_true|].
    by rewrite posts_app, (posts_none l), app_nil_r.
  - exists l. split_and!; [done|by apply Forall_true|]. rewrite posts_none by done. constructor.
Qed.
Lemma once_before {A B} (m : OM A) (k : A -> OM B) : once m -> (forall a, only no_post (k a)) -> once (m ≫= k).
Proof.
  intros Hm Hk. apply (adds_bind _ _ _ _ _ Hm); [done|]. intros a l _ Hl. eapply adds_mono; [apply (Hk a)|done|].
  intros r l' Hl' _. by rewrite posts_app, (posts_none l').
Qed.

Lemma run_kind_once kind i o input : once (run_kind sha256 shortest p fuel ctx f kind i o input).
Proof.
  assert (forall A (m : OM A), only no_post m -> once m) as Hn by (intros A m Hm; by apply (posting_nodup []), posting_none).
  unfold run_kind. destruct (_ =? "news_processing")%string; [eapply posting_nodup, fullCycle_posting|].
  destruct (_ =? "news_digest")%string.
  { unfold news_digest. eapply (posting_nodup (["stats_publish"] ++ _)), posting_bind; [|destruct (boolDefault input "run_processing" true)|].
    - shelve.
    - apply posting_instead, fullCycle_posting.
    - apply posting_none. auto with news.
    - intros r. destruct (_ && _); [apply posting_before; [apply digest_posting|intros; auto with news]|].
      apply posting_none. destruct (negb _); auto with news.
    Unshelve. set_solver. }
  destruct (_ =? "telegram_digest")%string.
  { destruct (delivery_enabled o); [|apply Hn; auto with news]. apply once_before; [eapply posting_nodup, digest_posting|intros; auto with news]. }
  destruct (_ =? "summaries_generate")%string; [eapply posting_nodup, call_posting|].
  destruct (_ =? "viber_digest_delivery")%string; [eapply posting_nodup, posting_instead, call_posting|].
  destruct (_ =? "serbian_digest_retry")%string; [eapply posting_nodup, posting_instead, call_posting|].
  destruct (_ =? "backup")%string; [eapply posting_nodup, call_posting|].
  destruct (_ =? "source_test")%string.
  { unfold source_test. destruct (positiveInt _) as [id|]; [|apply Hn; auto with news]. apply once_before; [eapply posting_nodup, call_posting|].
    intros r. destruct (vget r "success") as [[]|]; auto with news. }
  destruct (_ =? "article_reprocess")%string.
  { unfold article_reprocess. destruct (negb _); [apply Hn; auto with news|]. destruct (articleIDs _) as [ids|] eqn:Hids; [|apply Hn; auto with news].
    apply once_before; [|intros _; apply run_processing_no_post]. destruct (boolDefault _ _ _); [|apply Hn; auto with news].
    eapply adds_mono; [apply refresh_media_posts; by eapply articleIDs_nodup|done|]. by intros r l _ [? _]. }
  apply Hn. destruct (_ =? "reprocess_failed")%string; [|by auto with news]. destruct (processing_enabled o); [apply run_processing_no_post|by auto with news].
Qed.

(** C5: a job posts each operation once.  However the domain service answers
    or fails to answer, and however often it says that it is busy, all POSTs of
    a job that may have been accepted are of different operations or of the
    same one on different inputs: a lost acknowledgement never leads to a
    second POST. *)
Theorem operations_posted_once kind payload h :
  exists l, (Execute sha256 shortest p fuel prepareJob ctx f kind payload h).2 = l ++ h /\ NoDup (posts l).
Proof.
  enough (once (Execute sha256 shortest p fuel prepareJob ctx f kind payload)) as Ho.
  { destruct (Ho h) as (l & E & _ & Hl). by exists l. }
  assert (forall A (m : OM A), only no_post m -> once m) as Hn by (intros A m Hm; by apply (posting_nodup []), posting_none).
  unfold Execute. destruct (default _ _) as [| | | | |ms]; try by apply Hn, only_raise.
  destruct (as_map None (JObj ms)) as [[input|]|]; try by apply Hn, only_raise. apply once_after.
  { unfold settings_of. destruct prepareJob as [g|]; [|by auto with news]. apply only_bind.
    - intros h'. exists [Prepared]. by split_and!; repeat constructor.
    - intros [c|]; [|by auto with news]. destruct (valid_config f c); auto with news. }
  intros o. apply once_after; [by apply only_inspect, Status_only|]. intros [s|e]; [|by apply Hn, only_raise].
  apply once_before; [apply run_kind_once|]. intros r. destruct (value_json _ _) as [doc|]; [|by auto with news].
  destruct (4096 <? _); auto with news.
Qed.
End Jobs.

(** ** Jobs end *)

Section JobsEnd.
Context `{Passing} (sha256 : list Z -> list Z) (shortest : spec_float -> string) (p : pipeline_config).
Context (prepareJob : option (history -> ExecutionContext -> option JobOperationalConfig)) (f : ExecutionContext).
Context (D step : Z) (ctx : context) (Hctx : ends D ctx) (Hstep : 0 < step).
Context (Hpoll : step <= pc_domain_poll p /\ step <= pc_ingestion_poll p /\ step <= pc_processing_poll p) (Hbusy : step <= 100 * Millisecond).

Section From.
Context (n : nat) (t : Z) (n1 n2 : nat) (He : enough D step n t) (H1 : (n <= n1)%nat) (H2 : (n <= n2)%nat).

Lemma call_same i op id input : same t (call sha256 shortest p n1 ctx f i op id input) (call sha256 shortest p n2 ctx f i op id input).
Proof using Type*.
  unfold call. destruct (value_json shortest input) as [j|]; [|apply same_raise]. apply same_bind; [apply (ExecutePinned_same sha256 _ D step ctx Hctx n t); [done|lia|done..]|].
  intros ms. destruct (as_map None (JObj ms)) as [[m|]|]; auto with news.
Qed.
Lemma run_same poll s : step <= poll -> same t (execute sha256 poll n1 s ctx f) (execute sha256 poll n2 s ctx f).
Proof using Type*. intros. by apply (execute_same sha256 poll D step ctx Hctx Hstep) with n. Qed.
Lemma same_instead {A} e (m1 m2 : OM A) : same t m1 m2 -> same t (instead e m1) (instead e m2).
Proof. intros Hm. apply same_bind; [by apply same_inspect|]. intros []; auto with news. Qed.

Lemma fullCycle_same i o : same t (fullCycle sha256 shortest p n1 ctx f i o) (fullCycle sha256 shortest p n2 ctx f i o).
Proof using Type*.
  apply same_bind; [apply same_look|]. intros started. apply same_bind; [apply same_instead, run_same; lia|]. intros ingest.
  apply same_bind.
  { destruct (processing_enabled o); [|apply same_ret]. apply same_bind; [apply same_instead, run_same; lia|]. intros. apply same_ret. }
  intros processed. apply same_bind; [apply same_look|]. intros now. apply same_bind; [apply same_inspect, call_same|]. intros. apply same_ret.
Qed.
Lemma digest_same i : same t (digest sha256 shortest p n1 ctx f i) (digest sha256 shortest p n2 ctx f i).
Proof using Type*.
  apply same_bind; [apply same_instead, call_same|]. intros status. destruct (nonnegativeInt _) as [count|]; [|apply same_raise].
  apply same_bind.
  { destruct (count =? 0); [|apply same_ret]. apply same_bind; [apply same_instead, call_same|]. intros. apply same_ret. }
  intros _. apply same_bind; [apply same_instead, call_same|]. intros prepared.
  destruct (vget _ _) as [[]|]; try apply same_raise. destruct (negb _); [apply same_raise|].
  apply same_bind; [apply same_instead, call_same|]. intros published. destruct (negb _); [apply same_raise|]. repeat case_match; auto with news.
Qed.
Lemma refresh_media_same i ids : same t (refresh_media sha256 shortest p n1 ctx f i ids) (refresh_media sha256 shortest p n2 ctx f i ids).
Proof using Type*.
  induction ids as [|id ids IH]; cbn [refresh_media]; [apply same_ret|]. apply same_bind; [apply same_inspect, call_same|].
  intros [m|e]; [done|]. destruct (is_stale e); [apply same_raise|done].
Qed.
Lemma run_processing_same o : same t (run_processing sha256 p n1 ctx f o) (run_processing sha256 p n2 ctx f o).
Proof using Type*. apply same_bind; [apply run_same; lia|]. intros. apply same_ret. Qed.

Lemma run_kind_same kind i o input : same t (run_kind sha256 shortest p n1 ctx f kind i o input) (run_kind sha256 shortest p n2 ctx f kind i o input).
Proof using Type*.
  unfold run_kind. destruct (_ =? "news_processing")%string; [apply fullCycle_same|]. destruct (_ =? "news_digest")%string.
  { apply same_bind; [destruct (boolDefault _ _ _); [apply same_instead, fullCycle_same|apply same_ret]|]. intros r.
    destruct (_ && _); [|destruct (negb _); apply same_ret]. apply same_bind; [apply digest_same|]. intros. apply same_ret. }
  destruct (_ =? "telegram_digest")%string.
  { destruct (delivery_enabled o); [|apply same_ret]. apply same_bind; [apply digest_same|]. intros. apply same_ret. }
  destruct (_ =? "summaries_generate")%string; [apply call_same|].
  destruct (_ =? "viber_digest_delivery")%string; [apply same_instead, call_same|].
  destruct (_ =? "serbian_digest_retry")%string; [apply same_instead, call_same|]. destruct (_ =? "backup")%string; [apply call_same|].
  destruct (_ =? "source_test")%string.
  { unfold source_test. destruct (positiveInt _) as [id|]; [|apply same_raise]. apply same_bind; [apply call_same|]. intros r. repeat case_match; auto with news. }
  destruct (_ =? "article_reprocess")%string.
  { unfold article_reprocess. destruct (negb _); [apply same_ret|]. destruct (articleIDs _) as [ids|]; [|apply same_raise].
    apply same_bind; [destruct (boolDefault _ _ _); [apply refresh_media_same|apply same_ret]|]. intros _. apply run_processing_same. }
  destruct (_ =? "reprocess_failed")%string; [|apply same_raise]. destruct (processing_enabled o); [apply run_processing_same|apply same_ret].
Qed.
End From.

(** C20: jobs end.  When the clock does not go back, waits last and the context
    of the attempt ends at [D] at the latest, then fuel for the time that is
    left at one turn per [step] is enough for every loop of a job: with any more,
    the job does the same and returns the same, so it returns when the code,
    whose loops have no bound, does; [step] is the shortest polling interval
    or 100 ms. *)
Theorem Execute_terminates n n1 n2 kind payload h :
  enough D step n (clock h) -> (n <= n1)%nat -> (n <= n2)%nat ->
  Execute sha256 shortest p n1 prepareJob ctx f kind payload h = Execute sha256 shortest p n2 prepareJob ctx f kind payload h.
Proof using Type*.
  intros He H1 H2.
  enough (same (clock h) (Execute sha256 shortest p n1 prepareJob ctx f kind payload) (Execute sha256 shortest p n2 prepareJob ctx f kind payload)) as Hs
    by (by apply Hs).
  unfold Execute. destruct (default _ _) as [| | | | |ms]; try apply same_raise.
  destruct (as_map None (JObj ms)) as [[input|]|]; try apply same_raise. apply same_bind.
  { unfold settings_of. destruct prepareJob as [g|]; [|apply same_ret]. apply same_bind.
    - intros h' _. split; [done|apply clock_step].
    - intros [c|]; [|apply same_raise]. destruct (valid_config f c); auto with news. }
  intros o. apply same_bind; [apply same_inspect, Status_same|]. intros [s|e]; [|apply same_raise].
  apply same_bind; [by eapply run_kind_same|]. intros r. destruct (value_json _ _) as [doc|]; [|apply same_raise].
  destruct (4096 <? _); auto with news.
Qed.
End JobsEnd.

(** ** A digest that does not get far *)

Module PipelineSample.

(** A clock that waits drive, a domain service that is ready and answers no
    operation *)
Fixpoint elapsed (h : history) : Z := match h with [] => 1700000000 * Second | Waited d :: h => Z.max 1 d + elapsed h | _ :: h => 1 + elapsed h end.
Definition instance : string := "44444444-4444-4444-8444-444444444444".
Definition ready_status : json :=
  JObj [("domain_instance_id", JStr instance); ("active_operations", JNum "0"); ("ready", JBool true)].
Definition ready_only : Outside := {|
  answers := fun _ c => match c with GetDomainStatus => Some (MkResponse 200 "" (HttpBody false 90 (lex_of ready_status) AtEof) 0) | _ => None end;
  clock := elapsed;
  timer_first := fun _ => true
|}.
Definition fence : ExecutionContext :=
  ExecStore.MkContext "11111111-1111-4111-8111-111111111111" 2 "22222222-2222-4222-8222-222222222222" 3 41
    "33333333-3333-4333-8333-333333333333" (canonicalDeadline (1700000600 * Second)) 42.
Definition polls : pipeline_config := MkPipelineConfig (200 * Millisecond) (250 * Millisecond) (250 * Millisecond).
Definition deadline : Z := 1700000600 * Second.
Definition until_deadline : Z -> context_end := fun now => if deadline <=? now then DeadlineExceeded else StillOpen.
Definition digest_run : result oerr pipeline_outcome * history :=
  @run_job ready_only StoreSample.sum32 (fun _ => "0.5") polls 10 None until_deadline fence "telegram_digest" (Some (JObj [])) [].

Lemma passing : @Passing ready_only.
Proof. split; [intros [] h|intros d h _]; cbn; lia. Qed.
Lemma deadline_ends : @ends ready_only deadline until_deadline.
Proof. split; [|done]. intros t Ht. unfold until_deadline. by rewrite (proj2 (Z.leb_le _ _)). Qed.
End PipelineSample.

(** The status of the summaries is asked for once, its answer is lost, and the
    attempt fails with nothing delivered. *)
Lemma job_verdict_sound_witness :
  (exists o, PipelineSample.digest_run.1 = Ok o /\ settle "telegram_digest" [] o = (XFailed, "worker_error", status_warning)) /\
  (posts PipelineSample.digest_run.2).*1 = ["summary_status"] /\ undelivered PipelineSample.digest_run.2.
Proof.
  destruct (@job_verdict_sound PipelineSample.ready_only StoreSample.sum32 (fun _ => "0.5") PipelineSample.polls 10 None PipelineSample.until_deadline
    PipelineSample.fence "telegram_digest" [] []) as (o & l & E & H); [by_eval|].
  change (PipelineSample.digest_run = (Ok o, l ++ [])) in E.
  assert (PipelineSample.digest_run.1 = Ok (PipelineOutcome 0 None (Some (Failure (Some false) false)) StillOpen)) as E1 by by_eval.
  split; [eexists; split; [exact E1|by_eval]|]. split; [by_eval|]. rewrite E in *. cbn [snd fst] in *. injection E1 as ->. rewrite app_nil_r.
  apply (H XFailed "worker_error" status_warning); [by_eval|left].
Defined.

Lemma Execute_terminates_witness :
  @enough PipelineSample.deadline (100 * Millisecond) 6002 (@clock PipelineSample.ready_only []) /\
  @Execute PipelineSample.ready_only StoreSample.sum32 (fun _ => "0.5") PipelineSample.polls 6002 None PipelineSample.until_deadline PipelineSample.fence
    "telegram_digest" None [] =
  @Execute PipelineSample.ready_only StoreSample.sum32 (fun _ => "0.5") PipelineSample.polls 7000 None PipelineSample.until_deadline PipelineSample.fence
    "telegram_digest" None [].
Proof.
  assert (@enough PipelineSample.deadline (100 * Millisecond) 6002 (@clock PipelineSample.ready_only [])) as He
    by (split; [apply Nat.ltb_lt; by_eval|by_eval]).
  split; [exact He|].
  apply (@Execute_terminates PipelineSample.ready_only PipelineSample.passing StoreSample.sum32 (fun _ => "0.5") PipelineSample.polls None PipelineSample.fence
    PipelineSample.deadline (100 * Millisecond) PipelineSample.until_deadline PipelineSample.deadline_ends ltac:(by_eval)
    ltac:(repeat split; vm_compute; discriminate) ltac:(vm_compute; discriminate) 6002); [exact He|done|apply Nat.leb_le; by_eval].
Defined.
