(* ===== verification/Projection.v ===== *)
(** * Projection: what the executor stores of a job's result

    [boundedProjection] of go-execution/orchestration/pipeline.go against
    [safeResult] of go-execution/validation.go, which checks it before it is
    stored: which projections pass.  The result and the projection are on the two
    sides of the same process, with vocabularies of their own. *)

From S2P Require Import Prelude JsonStrict GoTime Db GoText GoDecode GoParseTime ExecutorClient QueueTables ExecPayload GoRune JobPayload.
From S2P Require Import ExecStore ArticleOutcome ContentFilter ArticleStore ProviderClients ArticleRun ProcessingRun Outbound DomainClient RunClient Pipeline.
From Stdlib Require Import SpecFloat.

(** ** Numbers up to a billion *)

Lemma digits_bound m : Zpos m < 2 ^ Zpos (digits2_pos m).
Proof.
  induction m as [m IH|m IH|]; cbn [digits2_pos]; [| |done].
  - rewrite Pos2Z.inj_succ, Z.pow_succ_r by lia. lia.
  - rewrite Pos2Z.inj_succ, Z.pow_succ_r by lia. lia.
Qed.

(** A float64 as the code has them *)
Definition valid_float (f : spec_float) : bool := valid_binary 53 1024 f.

Lemma mantissa_bound s m e : valid_float (S754_finite s m e) = true -> -1074 < e -> Zpos m < 2 ^ 53.
Proof.
  unfold valid_float, valid_binary, bounded, canonical_mantissa, fexp, emin. intros [Hc _]%andb_true_iff He.
  apply Zeq_bool_eq in Hc. pose proof (digits_bound m). assert (Zpos (digits2_pos m) <= 53) by lia.
  eapply Z.lt_le_trans; [done|]. apply Z.pow_le_mono_r; lia.
Qed.

Definition in_billion (f : spec_float) : Prop :=
  valid_float f = true /\ finite f = true /\ SFltb f (binary64 0) = false /\ SFltb billion f = false.

(** The value of a finite float64 in that range is an integer's at most a billion,
    rounded down. *)
Lemma in_billion_value s m e : in_billion (S754_finite s m e) ->
  s = false /\ e <= -23 /\ Zpos m <= 10 ^ 9 * 2 ^ (- e).
Proof.
  intros (Hv & _ & H0 & Hb). destruct s; [by destruct m|]. split; [done|].
  assert (billion = S754_finite false 8388608000000000 (-23)) as Eb by by_eval. rewrite Eb in Hb.
  unfold SFltb, SFcompare in Hb.
  destruct (Z.compare_spec (-23) e) as [<-|Hlt|Hgt].
  - change (2 ^ (- -23)) with 8388608. change (PosDef.Pos.compare_cont Eq 8388608000000000 m) with (8388608000000000 ?= m)%positive in Hb.
    split; [done|]. clear -Hb. change (10 ^ 9 * 8388608) with (Zpos 8388608000000000). change (Pos.le m 8388608000000000).
    unfold Pos.le. rewrite Pos.compare_antisym. by destruct (8388608000000000 ?= m)%positive.
  - done.
  - split; [lia|]. destruct (Z.lt_ge_cases (-1074) e) as [He|He].
    + pose proof (mantissa_bound _ _ _ Hv He). assert (2 ^ 24 <= 2 ^ (- e)) by (apply Z.pow_le_mono_r; lia). lia.
    + assert (Zpos m < 2 ^ 53) as Hm.
      { unfold valid_float, valid_binary, bounded, canonical_mantissa, fexp, emin in Hv. apply andb_true_iff in Hv as [Hc _].
        apply Zeq_bool_eq in Hc. pose proof (digits_bound m) as Hd. eapply Z.lt_le_trans; [exact Hd|]. apply Z.pow_le_mono_r; lia. }
      assert (2 ^ 24 <= 2 ^ (- e)) by (apply Z.pow_le_mono_r; lia). lia.
Qed.

Lemma in_billion_trunc f : in_billion f -> 0 <= float_trunc f <= 10 ^ 9.
Proof.
  intros Hf. destruct f as [s|s| |s m e]; try (simpl; lia). apply in_billion_value in Hf as (-> & He & Hm).
  unfold float_trunc. rewrite (proj2 (Z.leb_gt _ _)) by lia. assert (0 < 2 ^ (- e)) by (apply Z.pow_pos_nonneg; lia). split.
  - apply Z.div_pos; lia.
  - apply Z.div_le_upper_bound; lia.
Qed.
Lemma in_billion_integer f n : in_billion f -> float_integer f = Some n -> 0 <= n <= 10 ^ 9.
Proof.
  intros Hf. pose proof (in_billion_trunc f Hf) as Ht. destruct f as [s|s| |s m e]; try done; [intros [= <-]; lia|].
  apply in_billion_value in Hf as (-> & He & Hm). unfold float_integer, float_trunc in *. rewrite (proj2 (Z.leb_gt _ _)) in * by lia.
  destruct (_ =? 0); [|done]. by intros [= <-].
Qed.

Lemma parse_decimal_itoa n : 0 <= n -> parse_decimal (itoa n) = Some (false, n, 0).
Proof.
  intros Hn. destruct (itoa_value n Hn) as [Hv Hne]. pose proof (itoa_digits n Hn) as Hd. unfold parse_decimal.
  destruct (bytes_of (itoa n)) as [|c ds] eqn:E; [done|].
  assert ((match c :: ds with 45 :: l' => (true, l') | _ => (false, c :: ds) end) = (false, c :: ds)) as ->.
  { apply Forall_cons in Hd as [Hc _]. destruct c as [|c|c]; try lia. do 6 (destruct c as [c|c|]; try done; try lia). }
  assert (span_digits (c :: ds) = (c :: ds, [])) as ->.
  { clear -Hd. induction Hd as [|x l Hx Hl IH]; [done|]. cbn [span_digits].
    assert (is_digit x = true) as -> by (unfold is_digit; apply andb_true_iff; split; apply Z.leb_le; lia). by rewrite IH. }
  cbn [app]. rewrite app_nil_r, Hv. done.
Qed.
Lemma float_in_range_itoa n : 0 <= n <= 10 ^ 9 -> float_in_range (itoa n) = true.
Proof.
  intros Hn. unfold float_in_range. rewrite parse_decimal_itoa by lia. unfold exceeds. cbn [Z.leb Z.compare negb].
  apply negb_true_iff, Z.ltb_ge. change (10 ^ 0) with 1. lia.
Qed.

(** What strconv's shortest decimals promise *)
Definition shortest_in_range (shortest : spec_float -> string) : Prop := forall f, in_billion f -> float_in_range (shortest f) = true.

Lemma float_text_in_range shortest f s : shortest_in_range shortest -> in_billion f -> float_text shortest f = Some s -> float_in_range s = true.
Proof.
  intros Hs Hf. unfold float_text. destruct f as [b|b| |b m e]; try done; [intros [= <-]; by destruct b|].
  destruct (float_integer _) as [n|] eqn:E; intros [= <-]; [|by apply Hs]. pose proof (in_billion_integer _ _ Hf E).
  rewrite (proj2 (Z.ltb_lt _ _)) by lia. by apply float_in_range_itoa.
Qed.

(** ** The shape of a projection *)

(** The numbers of a result are float64, or integers converted to it. *)
Definition plain_number (v : value) : Prop :=
  match v with VFloat f => valid_float f = true | VInt n => valid_float (binary64 n) = true | _ => True end.
Definition plain_numbers (v : list (string * value)) : Prop := Forall (fun kv => plain_number kv.2) v.

Definition outcome_counts : list string := ["article_outcomes_total"; "article_outcomes_omitted"].
(** A member of a projection *)
Definition typed (kv : string * value) : Prop :=
  (kv.1 = "status" /\ exists s, kv.2 = VStr s /\ s ∈ projected_statuses) \/
  (kv.1 ∈ ["success"; "settled"; "retryable"; "connection_ok"; "dry_run"] /\ exists b, kv.2 = VBool b) \/
  (kv.1 ∈ projected_metrics /\ exists f, kv.2 = VFloat f /\ in_billion f) \/
  kv.1 = "article_outcomes" \/
  (kv.1 ∈ outcome_counts /\ exists n, kv.2 = VInt n /\ 0 <= n).
Record shape (out : list (string * value)) : Prop := { sh_keys : NoDup out.*1; sh_typed : Forall typed out; sh_status : is_Some (vget out "status") }.

Lemma put_keys k v p : (put k v p).*1 = p.*1 ++ (if bool_decide (k ∈ p.*1) then [] else [k]).
Proof.
  induction p as [|[k1 v1] p IH]; csimpl; [done|].
  destruct (String.eqb_spec k k1) as [->|Hne]; csimpl.
  - rewrite bool_decide_eq_true_2 by left. by rewrite app_nil_r.
  - rewrite IH. rewrite (bool_decide_ext (k ∈ k1 :: p.*1) (k ∈ p.*1)) by set_solver. done.
Qed.
Lemma put_nodup k v p : NoDup p.*1 -> NoDup (put k v p).*1.
Proof.
  intros Hp. rewrite put_keys. case_bool_decide; [by rewrite app_nil_r|].
  apply NoDup_app. split_and!; [done|set_solver|apply NoDup_singleton].
Qed.
Lemma put_forall (P : string * value -> Prop) k v p : P (k, v) -> Forall P p -> Forall P (put k v p).
Proof.
  intros Hk. induction 1 as [|[k1 v1] p H1 Hp IH]; csimpl; [by repeat constructor|].
  destruct (String.eqb_spec k k1); by constructor.
Qed.
Lemma shape_put k v out : typed (k, v) -> shape out -> shape (put k v out).
Proof.
  intros Hk [H1 H2 H3]. constructor; [by apply put_nodup|by apply put_forall|]. rewrite vget_put. destruct (_ =? _)%string; [by eexists|done].
Qed.

Lemma min_billion_in f : valid_float f = true -> finite f = true -> SFltb f (binary64 0) = false -> in_billion (min_billion f).
Proof.
  intros Hv Hf H0. unfold min_billion. destruct (SFltb billion f) eqn:E; [|done]. split_and!; by_eval.
Qed.

(** A number safeMetric lets through is within a billion. *)
Lemma safeMetric_in v k f : plain_numbers v -> safeMetric (vget v k) = Some f -> in_billion f.
Proof.
  intros Hv. unfold safeMetric. destruct (vget v k) as [x|] eqn:Hx; [|done]. apply vget_in in Hx. unfold plain_numbers in Hv.
  rewrite Forall_forall in Hv. specialize (Hv _ Hx). cbn [snd] in Hv.
  assert (forall n, valid_float n = true -> (if negb (finite n) || SFltb n (binary64 0) then None else Some (min_billion n)) = Some f -> in_billion f) as Hgen.
  { intros n Hn. destruct (negb _ || _) eqn:E; [done|]. bool_to_prop. intros [= <-]. by apply min_billion_in. }
  destruct x; try done; cbn [mbind option_bind]; by apply Hgen.
Qed.

(** ** Steps of the projection *)

Section Steps.
Context (v : list (string * value)).

Lemma fold_bool_shape ks out : Forall (fun k => k ∈ projected_bools) ks -> shape out -> shape (foldl (put_bool v) out ks).
Proof.
  intros Hk. revert out. induction Hk as [|k ks Hk Hks IH]; intros out Ho; [done|]. apply IH. unfold put_bool.
  destruct (vget v k) as [[]|]; try done. apply shape_put; [|done]. right. left. split; [cbn; unfold projected_bools in Hk; set_solver|by eexists].
Qed.
Lemma fold_metric_shape ks out : plain_numbers v -> Forall (fun k => k ∈ projected_metrics) ks -> shape out ->
  shape (foldl (put_metric v) out ks).
Proof.
  intros Hv Hk. revert out. induction Hk as [|k ks Hk Hks IH]; intros out Ho; [done|]. apply IH. unfold put_metric.
  destruct (safeMetric _) as [f|] eqn:Hf; [|done]. apply shape_put; [|done]. right. right. left. split; [done|]. exists f. split; [done|]. by eapply safeMetric_in.
Qed.
Lemma status_shape s out : s ∈ projected_statuses -> shape out -> shape (put "status" (VStr s) out).
Proof. intros Hs. apply shape_put. left. split; [done|]. by exists s. Qed.
Lemma warn_shape b out : shape out -> shape (warn_if b out).
Proof. intros Ho. unfold warn_if. destruct (_ && _); [|done]. apply status_shape; [apply (bool_decide_eq_true _); by_eval|done]. Qed.

Lemma fold_bool_get ks out k : k ∉ ks -> vget (foldl (put_bool v) out ks) k = vget out k.
Proof.
  revert out. induction ks as [|k' ks IH]; intros out Hk; [done|]. cbn [foldl]. rewrite IH by set_solver. unfold put_bool.
  destruct (vget v k') as [[]|]; try done. rewrite vget_put. destruct (String.eqb_spec k k'); [set_solver|done].
Qed.
Lemma fold_metric_get ks out k : k ∉ ks -> vget (foldl (put_metric v) out ks) k = vget out k.
Proof.
  revert out. induction ks as [|k' ks IH]; intros out Hk; [done|]. cbn [foldl]. rewrite IH by set_solver. unfold put_metric.
  destruct (safeMetric _); try done. rewrite vget_put. destruct (String.eqb_spec k k'); [set_solver|done].
Qed.
Lemma warn_get b out k : k <> "status" -> vget (warn_if b out) k = vget out k.
Proof. intros Hk. unfold warn_if. destruct (_ && _); [|done]. rewrite vget_put. by destruct (String.eqb_spec k "status"). Qed.

(** What [put_outcomes] adds *)
Definition outcomes_of (raw : list value) : list (list (string * value)) := take 20 (omap outcome_object raw).
Definition valid_total (raw : list value) : Z := Z.of_nat (length (omap validArticleOutcome raw)).
Definition outcomes_total (raw : list value) : Z :=
  match nonnegativeInt (vget v "article_outcomes_total") with Some n => Z.min 100 (Z.max n (valid_total raw)) | None => valid_total raw end.

Lemma nonnegativeInt_nonneg x n : nonnegativeInt x = Some n -> 0 <= n.
Proof.
  unfold nonnegativeInt. destruct x as [[| | |f| | | |]|]; try done. destruct (_ || _) eqn:E; [done|]. intros [= <-]. bool_to_prop.
  destruct f as [s|s| |[] m e]; try done. simpl. destruct (0 <=? e) eqn:He; bool_to_prop; [apply Z.mul_nonneg_nonneg; [lia|by apply Z.pow_nonneg]|].
  apply Z.div_pos; [lia|]. apply Z.pow_pos_nonneg; lia.
Qed.
Lemma valid_total_outcomes raw : Z.of_nat (length (outcomes_of raw)) = Z.min 20 (valid_total raw).
Proof.
  unfold outcomes_of, valid_total. rewrite length_take.
  enough (length (omap outcome_object raw) = length (omap validArticleOutcome raw)) as -> by lia.
  induction raw as [|x raw IH]; [done|]. cbn [omap list_omap]. unfold outcome_object at 1. destruct (validArticleOutcome x) as [[id st]|]; simpl; auto.
Qed.
Lemma outcomes_total_range raw : 0 <= Z.of_nat (length (outcomes_of raw)) <= outcomes_total raw.
Proof.
  rewrite valid_total_outcomes. unfold outcomes_total. assert (0 <= valid_total raw) by (unfold valid_total; lia).
  destruct (nonnegativeInt _) as [n|]; lia.
Qed.

Lemma put_outcomes_spec out raw : vget v "article_outcomes" = Some (VArr raw) -> exists out' b,
  put_outcomes v out = warn_if b (put "article_outcomes_omitted" (VInt (outcomes_total raw - Z.of_nat (length (outcomes_of raw))))
    (put "article_outcomes_total" (VInt (outcomes_total raw)) (put "article_outcomes" (VArr (map VObj (outcomes_of raw))) out'))) /\
  out' = foldl (put_bool v) out ["settled"; "retryable"].
Proof.
  intros Hr. unfold put_outcomes. rewrite Hr. cbn [projectArticleOutcomes]. eexists _, _. split; [|reflexivity].
  fold (outcomes_of raw) (valid_total raw) (outcomes_total raw). pose proof (outcomes_total_range raw). by rewrite Z.max_r by lia.
Qed.
Lemma put_outcomes_none out : (forall raw, vget v "article_outcomes" <> Some (VArr raw)) -> put_outcomes v out = foldl (put_bool v) out ["settled"; "retryable"].
Proof. intros Hr. unfold put_outcomes. destruct (vget v "article_outcomes") as [[]|]; try done. by destruct (Hr l). Qed.
End Steps.

(** ** The whole projection *)

Lemma projection_shape kind v : plain_numbers v -> shape (boundedProjection kind v).
Proof.
  intros Hv. unfold boundedProjection. cbn zeta. apply warn_shape.
  set (o1 := foldl (put_metric v) _ projected_metrics). assert (shape o1) as H1.
  { apply fold_metric_shape; [done|apply (bool_decide_eq_true _); by_eval|]. apply fold_bool_shape; [apply (bool_decide_eq_true _); by_eval|]. constructor.
    - apply NoDup_singleton.
    - constructor; [|constructor]. left. split; [done|]. destruct (vget v "status") as [[]|]; try (exists "success"; split; [done|apply (bool_decide_eq_true _); by_eval]).
      case_bool_decide; [by eexists|]. exists "success". split; [done|]. apply (bool_decide_eq_true _). by_eval.
    - by eexists. }
  set (o2 := if (kind =? "article_reprocess")%string then put_outcomes v o1 else o1). assert (shape o2) as H2.
  { unfold o2. destruct (_ =? _)%string; [|done]. assert (shape (foldl (put_bool v) o1 ["settled"; "retryable"])) as Hb.
    { apply fold_bool_shape; [|done]. repeat constructor; apply (bool_decide_eq_true _); by_eval. }
    destruct (vget v "article_outcomes") as [x|] eqn:Hx; [destruct x as [| | | | |raw| |]|];
      try (rewrite put_outcomes_none; [done|by intros raw E; rewrite E in Hx]).
    destruct (put_outcomes_spec v o1 raw Hx) as (out' & b & -> & ->). apply warn_shape. pose proof (outcomes_total_range v raw).
    assert (forall k n out, k ∈ outcome_counts -> 0 <= n -> shape out -> shape (put k (VInt n) out)) as Hc.
    { intros k n out Hk Hn. apply shape_put. right. right. right. right. split; [done|]. by exists n. }
    apply Hc; [set_solver|lia|]. apply Hc; [set_solver|lia|]. apply shape_put; [|done]. right. right. right. by left. }
  set (o3 := if (kind =? "reprocess_failed")%string then _ else o2). assert (shape o3) as H3.
  { unfold o3. destruct (kind =? "reprocess_failed")%string; [|exact H2]. apply shape_put; [|exact H2]. right. left. split; [cbn; set_solver|by eexists]. }
  destruct (_ && _); [|exact H3]. apply status_shape; [apply (bool_decide_eq_true _); by_eval|exact H3].
Qed.

(** The members about article outcomes *)
Definition outcome_keys : list string := ["article_outcomes"; "article_outcomes_total"; "article_outcomes_omitted"].
Definition reported (kind : string) (v : list (string * value)) : option (list value) :=
  if (kind =? "article_reprocess")%string then match vget v "article_outcomes" with Some (VArr raw) => Some raw | _ => None end else None.

Lemma early_keys v k : k ∈ outcome_keys -> forall s, vget (foldl (put_metric v) (foldl (put_bool v) [("status", VStr s)] projected_bools) projected_metrics) k = None.
Proof.
  intros Hk s. rewrite fold_metric_get, fold_bool_get.
  - unfold outcome_keys in Hk. cbn. destruct (String.eqb_spec k "status"); [set_solver|done].
  - unfold outcome_keys in Hk. revert k Hk. apply Forall_forall, (bool_decide_eq_true _). by_eval.
  - unfold outcome_keys in Hk. revert k Hk. apply Forall_forall, (bool_decide_eq_true _). by_eval.
Qed.

Lemma projection_outcomes kind v k : k ∈ outcome_keys ->
  vget (boundedProjection kind v) k =
  raw ← reported kind v;
  if (k =? "article_outcomes")%string then Some (VArr (map VObj (outcomes_of raw)))
  else if (k =? "article_outcomes_total")%string then Some (VInt (outcomes_total v raw))
  else Some (VInt (outcomes_total v raw - Z.of_nat (length (outcomes_of raw)))).
Proof.
  intros Hk. assert (k <> "status" /\ k <> "dry_run" /\ k ∉ ["settled"; "retryable"]) as (Hs & Hd & Hb).
  { revert k Hk. apply Forall_forall, (bool_decide_eq_true _). by_eval. }
  unfold boundedProjection. cbn zeta. rewrite warn_get by done.
  match goal with |- vget (if ?b then put "status" ?x ?o else ?o) k = _ => assert (vget (if b then put "status" x o else o) k = vget o k) as -> end.
  { destruct (_ && _); [|done]. rewrite vget_put. by destruct (String.eqb_spec k "status"). }
  match goal with |- vget (if ?b then put "dry_run" ?x ?o else ?o) k = _ => assert (vget (if b then put "dry_run" x o else o) k = vget o k) as -> end.
  { destruct (_ =? _)%string; [|done]. rewrite vget_put. by destruct (String.eqb_spec k "dry_run"). }
  unfold reported. destruct (kind =? "article_reprocess")%string; [|by apply early_keys].
  destruct (vget v "article_outcomes") as [x|] eqn:Hx; [destruct x as [| | | | |raw| |]|];
    try (rewrite put_outcomes_none, fold_bool_get by (done || by intros raw E; rewrite E in Hx); by apply early_keys).
  destruct (put_outcomes_spec v (foldl (put_metric v) (foldl (put_bool v) [("status", VStr (match vget v "status" with
    Some (VStr s) => if bool_decide (s ∈ projected_statuses) then s else "success" | _ => "success" end))] projected_bools) projected_metrics) raw Hx)
    as (out' & b & -> & ->). rewrite warn_get by done. rewrite !vget_put. cbn [mbind option_bind].
  unfold outcome_keys in Hk. apply elem_of_cons in Hk as [->|Hk]; [done|]. apply elem_of_cons in Hk as [->|Hk]; [done|].
  apply elem_of_cons in Hk as [->|Hk]; [done|by apply elem_of_nil in Hk].
Qed.

(** ** The text of a projection *)

(** An object's members, one by one *)
Lemma object_members shortest l doc : value_json shortest (VObj l) = Some doc ->
  exists ms, doc = JObj ms /\ Forall2 (fun kv kj => kj.1 = kv.1 /\ value_json shortest kv.2 = Some kj.2) l ms.
Proof.
  cbn [value_json]. intros (ms & Hms & ->)%fmap_Some. exists ms. split; [done|].
  revert ms Hms. induction l as [|[k x] l IH]; intros ms; [intros [= <-]; constructor|].
  destruct (value_json shortest x) as [y|] eqn:Hx; cbn [mbind option_bind]; [|done].
  match goal with |- context [?F l] => destruct (F l) as [ys|] end; cbn [mbind option_bind]; [|done].
  intros [= <-]. constructor; [done|]. by apply IH.
Qed.
Lemma array_items shortest l doc : value_json shortest (VArr l) = Some doc ->
  exists js, doc = JArr js /\ Forall2 (fun x j => value_json shortest x = Some j) l js.
Proof.
  cbn [value_json]. intros (js & Hjs & ->)%fmap_Some. exists js. split; [done|].
  revert js Hjs. induction l as [|x l IH]; intros js; [intros [= <-]; constructor|].
  destruct (value_json shortest x) as [y|] eqn:Hx; cbn [mbind option_bind]; [|done].
  match goal with |- context [?F l] => destruct (F l) as [ys|] end; cbn [mbind option_bind]; [|done].
  intros [= <-]. constructor; [done|]. by apply IH.
Qed.

Section Text.
Context (shortest : spec_float -> string).
Notation members_of := (Forall2 (fun (kv : string * value) (kj : string * json) => kj.1 = kv.1 /\ value_json shortest kv.2 = Some kj.2)).

Lemma members_keys l ms : members_of l ms -> ms.*1 = l.*1.
Proof. induction 1 as [|kv kj l ms [Hk _] Hl IH]; csimpl; congruence. Qed.
Lemma members_get l ms k : members_of l ms -> get ms k = vget l k ≫= value_json shortest.
Proof.
  induction 1 as [|[k1 v] [k2 j] l ms [Hk Hj] Hl IH]; csimpl; [done|]. simpl in Hk, Hj. subst k2.
  destruct (k =? k1)%string; [by rewrite <- Hj|done].
Qed.

End Text.

(** ** Article outcomes of a projection *)

(** Every number in a value is a float64. *)
Fixpoint plain (v : value) : bool :=
  match v with
  | VFloat f => valid_float f
  | VInt n => valid_float (binary64 n)
  | VArr l => forallb plain l
  | VObj l => forallb (fun kv => plain kv.2) l
  | _ => true
  end.

Lemma plain_members l : plain (VObj l) = true -> plain_numbers l.
Proof.
  cbn [plain]. intros Hl. apply Forall_forall. intros kv Hin. rewrite forallb_forall in Hl. apply list_elem_of_In in Hin.
  specialize (Hl _ Hin). by destruct (kv.2).
Qed.

Lemma nonnegativeInt_billion v k n : plain_numbers v -> nonnegativeInt (vget v k) = Some n -> 0 <= n <= 10 ^ 9.
Proof.
  intros Hv. destruct (vget v k) as [x|] eqn:Hx; [|done]. apply vget_in in Hx. unfold plain_numbers in Hv. rewrite Forall_forall in Hv.
  specialize (Hv _ Hx). destruct x as [| | |f| | | |]; try done. cbn [snd plain_number] in Hv. unfold nonnegativeInt.
  destruct (_ || _) eqn:E; [done|]. bool_to_prop. intros [= <-]. apply in_billion_trunc. by split_and!.
Qed.

Lemma valid_outcome x id s : plain x = true -> validArticleOutcome x = Some (id, s) -> 0 < id <= 10 ^ 9 /\ s ∈ outcome_states.
Proof.
  intros Hx. unfold validArticleOutcome. destruct x as [| | | | | | |m]; try done. apply plain_members in Hx.
  unfold positiveInt. destruct (nonnegativeInt _) as [n|] eqn:Hn; cbn [mbind option_bind]; [|done]. destruct (0 <? n) eqn:Hp; [|done].
  cbn [mbind option_bind]. destruct (vget m "state") as [[]|]; try done. case_bool_decide; [|done]. intros [= <- <-].
  apply (nonnegativeInt_billion m "article_id") in Hn; [|done]. bool_to_prop. split; [lia|done].
Qed.
Lemma outcome_reason_known x : outcome_reason x ∈ "other" :: safe_reasons.
Proof.
  unfold outcome_reason. destruct x as [| | | | | | |m]; try by left. destruct (vget m "reason") as [[]|]; try by left.
  case_bool_decide; [by right|by left].
Qed.

Definition states_text : string := "|completed|rejected|exhausted|pending|retry_wait|processing|".
Definition reasons_text : string :=
  "|advertisement|resource_limit|category_mapping_failed|missing_summary|smart_filter_rejected|extraction_challenge|provider_timeout|other|".
Lemma states_pass : Forall (fun s => piped states_text s = true) outcome_states.
Proof. apply (bool_decide_eq_true _). by_eval. Qed.
Lemma reasons_pass : Forall (fun s => piped reasons_text s = true) ("other" :: safe_reasons).
Proof. apply (bool_decide_eq_true _). by_eval. Qed.

(** The object of one outcome passes, and gives its id. *)
Lemma outcome_id_object shortest x o j id s : plain x = true -> outcome_object x = Some o -> validArticleOutcome x = Some (id, s) ->
  value_json shortest (VObj o) = Some j -> outcome_id j = Some id.
Proof.
  intros Hx Ho Hv. destruct (valid_outcome x id s Hx Hv) as [Hid Hs]. unfold outcome_object in Ho. rewrite Hv in Ho. cbn [mbind option_bind] in Ho.
  injection Ho as <-. cbn [value_json mbind option_bind fmap option_fmap option_map]. intros [= <-].
  pose proof (outcome_reason_known x) as Hr. set (r := outcome_reason x) in *.
  pose proof states_pass as Ps. rewrite Forall_forall in Ps. specialize (Ps s Hs). pose proof reasons_pass as Pr. rewrite Forall_forall in Pr. specialize (Pr r Hr).
  unfold outcome_id, strictRawObject. rewrite bool_decide_eq_true_2 by (apply (bool_decide_eq_true _); by_eval). cbn [mbind option_bind].
  assert (forall a b c : json, forallb (fun kv : string * json => bool_decide (kv.1 ∈ ["article_id"; "state"; "reason"]))
    [("article_id", a); ("state", b); ("reason", c)] = true) as -> by (intros; by_eval).
  cbn [length Z.of_nat negb orb get String.eqb Ascii.eqb Bool.eqb unmarshal_string]. change (_ =? 3) with true. cbn [negb orb].
  unfold int_json. rewrite rawInt_itoa by lia. cbn [mbind option_bind].
  fold states_text reasons_text. rewrite Ps, Pr, (proj2 (Z.leb_gt _ _)), (proj2 (Z.ltb_ge _ _)) by lia. done.
Qed.

(** The ids that are reported *)
Definition outcome_ids_of (raw : list value) : list Z := (take 20 (omap validArticleOutcome raw)).*1.

Lemma outcomes_ids shortest raw js : Forall (fun x => plain x = true) raw -> Forall2 (fun x j => value_json shortest x = Some j) (map VObj (outcomes_of raw)) js ->
  Forall2 (fun j id => outcome_id j = Some id) js (outcome_ids_of raw).
Proof.
  intros Hp Hjs. unfold outcomes_of, outcome_ids_of in *.
  assert (Forall2 (fun o p => forall j, value_json shortest (VObj o) = Some j -> outcome_id j = Some p.1) (omap outcome_object raw) (omap validArticleOutcome raw)) as Hall.
  { clear Hjs. induction Hp as [|x raw Hx Hp IH]; [constructor|]. cbn [omap list_omap]. 
    destruct (validArticleOutcome x) as [[id s]|] eqn:Hv.
    - destruct (outcome_object x) as [o|] eqn:Ho; [|unfold outcome_object in Ho; by rewrite Hv in Ho]. constructor; [|done].
      intros j Hj. by eapply outcome_id_object.
    - unfold outcome_object at 1. by rewrite Hv. }
  apply (Forall2_take _ _ _ 20) in Hall. revert js Hjs. induction Hall as [|o p os ps Ho Hos IH]; intros js Hjs; inversion Hjs; subst; constructor; auto.
Qed.

Lemma outcome_ids_distinct js ids : Forall2 (fun j id => outcome_id j = Some id) js ids -> forall seen,
  is_Some (outcome_ids seen js) <-> NoDup ids /\ (forall x, x ∈ ids -> x ∉ seen).
Proof.
  induction 1 as [|j id js ids Hj Hjs IH]; intros seen; cbn [outcome_ids].
  - split; [|by eexists]. intros _. split; [constructor|set_solver].
  - rewrite Hj. cbn [mbind option_bind]. case_bool_decide as Hin.
    + split; [by intros [? ?]|]. intros [_ H]. exfalso. apply (H id); [by left|done].
    + assert (is_Some (outcome_ids (id :: seen) js ≫= fun ids0 => Some (id :: ids0)) <-> is_Some (outcome_ids (id :: seen) js)) as ->.
      { destruct (outcome_ids _ js); cbn; split; intros [? ?]; try done; by eexists. }
      rewrite IH, NoDup_cons. set_solver.
Qed.

(** ** Which projections are stored *)

(** What the executor's check asks of a projection *)
Definition projection_fits (kind : string) (v : list (string * value)) : bool :=
  let out := boundedProjection kind v in
  negb (is_status out "processing_disabled" || is_status out "delivery_disabled") &&
  match reported kind v with
  | Some raw => bool_decide (NoDup (outcome_ids_of raw)) && (outcomes_total v raw <=? 100)
  | None => true
  end.

Section Accepted.
Context (shortest : spec_float -> string) (Hshort : shortest_in_range shortest) (kind : string) (v : list (string * value)).
Context (Hv : plain (VObj v) = true) (ms : list (string * json)).
Context (Hms : Forall2 (fun (kv : string * value) (kj : string * json) => kj.1 = kv.1 /\ value_json shortest kv.2 = Some kj.2) (boundedProjection kind v) ms).

Lemma reported_plain raw : reported kind v = Some raw -> Forall (fun x => plain x = true) raw.
Proof using Type*.
  unfold reported. destruct (_ =? _)%string; [|done]. destruct (vget v "article_outcomes") as [[]|] eqn:E; intros [= <-].
  apply vget_in in E. cbn [plain] in Hv. rewrite forallb_forall in Hv. apply list_elem_of_In, Hv in E. cbn [snd plain] in E.
  rewrite forallb_forall in E. apply Forall_forall. intros x Hx. by apply E, list_elem_of_In.
Qed.

Lemma projection_member k : k ∈ outcome_keys -> get ms k = (
  raw ← reported kind v;
  if (k =? "article_outcomes")%string then value_json shortest (VArr (map VObj (outcomes_of raw)))
  else if (k =? "article_outcomes_total")%string then Some (int_json (outcomes_total v raw))
  else Some (int_json (outcomes_total v raw - Z.of_nat (length (outcomes_of raw))))).
Proof using Type*.
  intros Hk. rewrite (members_get _ _ _ k Hms), projection_outcomes by done. destruct (reported kind v) as [raw|]; cbn [mbind option_bind]; [|done].
  destruct (_ =? _)%string; [done|]. by destruct (_ =? _)%string.
Qed.

Lemma outcomes_accepted : validateArticleOutcomes ms =
  match reported kind v with Some raw => bool_decide (NoDup (outcome_ids_of raw)) && (outcomes_total v raw <=? 100) | None => true end.
Proof using Type*.
  unfold validateArticleOutcomes. rewrite !projection_member by (unfold outcome_keys; set_solver).
  destruct (reported kind v) as [raw|] eqn:Hr; cbn [mbind option_bind]; [|done]. cbn [String.eqb Ascii.eqb Bool.eqb].
  assert (is_Some (value_json shortest (VArr (map VObj (outcomes_of raw))))) as [doc Hdoc].
  { pose proof (members_get _ _ _ "article_outcomes" Hms) as Hg. rewrite projection_outcomes in Hg by (unfold outcome_keys; set_solver).
    rewrite Hr in Hg. cbn [mbind option_bind String.eqb Ascii.eqb Bool.eqb] in Hg. rewrite <- Hg. apply not_eq_None_Some. intros E.
    apply get_none in E. rewrite (members_keys _ _ _ Hms) in E. apply E.
    assert (vget (boundedProjection kind v) "article_outcomes" = Some (VArr (map VObj (outcomes_of raw)))) as Hin.
    { rewrite projection_outcomes by (unfold outcome_keys; set_solver). by rewrite Hr. }
    apply vget_in in Hin. apply list_elem_of_fmap. by exists ("article_outcomes", VArr (map VObj (outcomes_of raw))). }
  rewrite Hdoc. destruct (array_items _ _ _ Hdoc) as (js & -> & Hjs).
  pose proof (outcomes_ids _ _ _ (reported_plain _ Hr) Hjs) as Hids. pose proof (outcomes_total_range v raw) as Ht.
  assert (length js = length (outcomes_of raw)) as Hlen by (apply Forall2_length in Hjs; by rewrite length_map in Hjs).
  assert (Z.of_nat (length (outcomes_of raw)) <= 20) as Hmax by (unfold outcomes_of; rewrite length_take; lia).
  rewrite Hlen, (proj2 (Z.leb_le _ _)) by lia. cbn [andb].
  rewrite (bool_decide_ext _ (NoDup (outcome_ids_of raw))).
  2: { rewrite (outcome_ids_distinct _ _ Hids []). set_solver. }
  destruct (outcomes_total v raw <? 2 ^ 63) eqn:Hb; bool_to_prop.
  - unfold int_json. rewrite !rawInt_itoa by lia. rewrite (proj2 (Z.leb_le _ _)), Z.eqb_refl by lia. by rewrite andb_true_r.
  - assert (rawInt (Some (int_json (outcomes_total v raw))) = None) as ->.
    { unfold rawInt, int_json. destruct (ContainsAny _ _); [done|]. destruct (itoa_value (outcomes_total v raw)) as [H1 H2]; [lia|].
      rewrite (ParseInt_digits _ (outcomes_total v raw)) by done. by rewrite (proj2 (Z.ltb_ge _ _)). }
    rewrite (proj2 (Z.leb_gt _ 100)) by lia. by rewrite !andb_false_r.
Qed.

End Accepted.

Definition disabled_status (s : string) : bool := bool_decide (s ∈ ["processing_disabled"; "delivery_disabled"]).
Lemma status_pass : Forall (fun s => piped "|success|warning|deferred|dry_run|completed|rejected|exhausted|retry_wait|incomplete|settled|busy|" s
  = negb (disabled_status s)) projected_statuses.
Proof. apply (bool_decide_eq_true _). by_eval. Qed.
Lemma projected_keys : Forall (fun k => k ∈ result_keys /\ k <> "status" /\ k <> "article_outcomes" /\ piped "|success|settled|retryable|dry_run|connection_ok|" k = false)
  (projected_metrics ++ outcome_counts).
Proof. apply (bool_decide_eq_true _). by_eval. Qed.
Lemma bool_keys : Forall (fun k => k ∈ result_keys /\ k <> "status" /\ k <> "article_outcomes" /\ piped "|success|settled|retryable|dry_run|connection_ok|" k = true)
  ["success"; "settled"; "retryable"; "connection_ok"; "dry_run"].
Proof. apply (bool_decide_eq_true _). by_eval. Qed.

(** One member of a projection passes, a disabled status apart. *)
Lemma member_accepted shortest kv kj : shortest_in_range shortest -> typed kv -> kj.1 = kv.1 -> value_json shortest kv.2 = Some kj.2 -> (kv.1 ∈ outcome_counts -> forall n, kv.2 = VInt n -> n <= 10 ^ 9) ->
  check_member kj = match kv.2 with VStr s => negb ((kv.1 =? "status")%string && disabled_status s) | _ => true end.
Proof.
  intros Hshort. destruct kv as [k x], kj as [k' j]. cbn [fst snd]. intros Ht -> Hj Hn.
  destruct Ht as [[Hk (s & Hx & Hs)]|[[Hk (b & Hx)]|[[Hk (f & Hx & Hf)]|[Hk|[Hk (n & Hx & H0)]]]]]; cbn [fst snd] in *.
  - subst k x. injection Hj as <-. unfold check_member. rewrite bool_decide_eq_true_2 by (apply (bool_decide_eq_true _); by_eval).
    cbn [negb String.eqb Ascii.eqb Bool.eqb unmarshal_string andb]. pose proof status_pass as Hp. rewrite Forall_forall in Hp. by apply Hp.
  - subst x. injection Hj as <-. pose proof bool_keys as Hp. rewrite Forall_forall in Hp. destruct (Hp k Hk) as (H1 & H2 & H3 & H4).
    unfold check_member. rewrite bool_decide_eq_true_2 by done. cbn [negb]. by rewrite (proj2 (String.eqb_neq _ _) H2), (proj2 (String.eqb_neq _ _) H3), H4.
  - subst x. pose proof projected_keys as Hp. rewrite Forall_forall in Hp. destruct (Hp k) as (H1 & H2 & H3 & H4); [by apply elem_of_app; left|].
    cbn [value_json] in Hj. destruct (float_text shortest f) as [t|] eqn:Et; [|done]. injection Hj as <-.
    unfold check_member. rewrite bool_decide_eq_true_2 by done. cbn [negb].
    rewrite (proj2 (String.eqb_neq _ _) H2), (proj2 (String.eqb_neq _ _) H3), H4. by eapply float_text_in_range.
  - subst k. unfold check_member. rewrite bool_decide_eq_true_2 by (apply (bool_decide_eq_true _); by_eval).
    cbn [negb String.eqb Ascii.eqb Bool.eqb andb]. by destruct x.
  - subst x. pose proof projected_keys as Hp. rewrite Forall_forall in Hp. destruct (Hp k) as (H1 & H2 & H3 & H4); [by apply elem_of_app; right|].
    cbn [value_json] in Hj. injection Hj as <-. unfold check_member. rewrite bool_decide_eq_true_2 by done. cbn [negb].
    rewrite (proj2 (String.eqb_neq _ _) H2), (proj2 (String.eqb_neq _ _) H3), H4. apply float_in_range_itoa. specialize (Hn Hk n eq_refl). lia.
Qed.

Lemma vget_unique l k v : NoDup l.*1 -> (k, v) ∈ l -> vget l k = Some v.
Proof.
  induction l as [|[k1 v1] l IH]; csimpl; intros Hn Hin; [by apply elem_of_nil in Hin|]. apply NoDup_cons in Hn as [Hk Hn].
  apply elem_of_cons in Hin as [[= -> ->]|Hin]; [by rewrite String.eqb_refl|].
  destruct (String.eqb_spec k k1) as [->|]; [|by apply IH]. exfalso. apply Hk, list_elem_of_fmap. by exists (k1, v).
Qed.

(** The members of a projection pass unless its status is one of the two the
    executor does not know. *)
Lemma members_accepted shortest kind v ms : shortest_in_range shortest -> plain (VObj v) = true ->
  Forall2 (fun (kv : string * value) (kj : string * json) => kj.1 = kv.1 /\ value_json shortest kv.2 = Some kj.2) (boundedProjection kind v) ms ->
  (forall raw, reported kind v = Some raw -> outcomes_total v raw <= 100) ->
  forallb check_member ms = negb (is_status (boundedProjection kind v) "processing_disabled" || is_status (boundedProjection kind v) "delivery_disabled").
Proof.
  intros Hs Hv Hms Ht. destruct (projection_shape kind v (plain_members _ Hv)) as [Hnd Hty Hst].
  set (out := boundedProjection kind v) in *.
  assert (forall kv, kv ∈ out -> kv.1 ∈ outcome_counts -> forall n, kv.2 = VInt n -> n <= 10 ^ 9) as Hcounts.
  { intros [k x] Hin Hk n E. cbn [fst snd] in *. subst x. apply vget_unique in Hin; [|done]. unfold out in Hin.
    rewrite projection_outcomes in Hin by (unfold outcome_counts in Hk; unfold outcome_keys; set_solver).
    destruct (reported kind v) as [raw|] eqn:Hr; [|done]. cbn [mbind option_bind] in Hin. specialize (Ht raw eq_refl).
    destruct (_ =? _)%string; [done|]. destruct (_ =? _)%string; injection Hin as <-; lia. }
  set (passes := fun kv : string * value => match kv.2 with VStr s => negb ((kv.1 =? "status")%string && disabled_status s) | _ => true end).
  assert (forallb check_member ms = forallb passes out) as ->.
  { clear Hnd Hst. revert Hty Hcounts. clearbody out. induction Hms as [|kv kj l js [Hk Hj] Hl IH]; intros Hty Hc; [done|].
    inversion Hty; subst. cbn [forallb]. rewrite IH; [|done|by intros kv' Hin; apply Hc; right].
    rewrite (member_accepted shortest kv kj Hs); [done|done..|]. apply Hc. by left. }
  destruct Hst as [x Hx]. pose proof Hx as Hin. apply vget_in in Hin. rewrite Forall_forall in Hty.
  destruct (Hty _ Hin) as [[_ (s & E & Hs')]|Hbad].
  2: { exfalso. cbn [fst] in Hbad. revert Hbad. unfold projected_metrics, outcome_counts. set_solver. }
  cbn [snd] in E. subst x. unfold is_status. rewrite Hx.
  replace ((s =? "processing_disabled")%string || (s =? "delivery_disabled")%string) with (disabled_status s).
  2: { unfold disabled_status. destruct (String.eqb_spec s "processing_disabled"), (String.eqb_spec s "delivery_disabled"); case_bool_decide; set_solver. }
  apply eq_true_iff_eq. rewrite forallb_forall. split.
  - intros Hall. apply list_elem_of_In, Hall in Hin. done.
  - intros Hd [k y] Hy. apply list_elem_of_In in Hy. unfold passes. cbn [fst snd]. destruct y as [| | | |s'| | |]; try done.
    destruct (String.eqb_spec k "status") as [->|]; [|done]. apply vget_unique in Hy; [|done]. rewrite Hx in Hy. by injection Hy as ->.
Qed.


(** A digest job while delivery is switched off: nothing is posted, and the
    executor settles it as a delivery whose outcome is unknown. *)
Definition switched_off : list (string * value) := disabled "delivery_disabled".
Definition switched_off_doc : json := JObj [("status", JStr "delivery_disabled"); ("parts_sent", JNum "0")].
Example switched_off_unknown :
  value_json (fun _ => "0.5") (VObj (boundedProjection "telegram_digest" switched_off)) = Some switched_off_doc /\
  settle "telegram_digest" [] (PipelineOutcome (len (marshal switched_off_doc)) (Some switched_off_doc) None StillOpen) =
    (XDeliveryUnknown, "external_outcome_unknown", status_warning).
Proof. split; by_eval. Qed.

Lemma half_in_range : shortest_in_range (fun _ => "0.5").
Proof. intros f _. by_eval. Qed.

(** A reprocessing of two articles *)
Definition reprocessed : list (string * value) :=
  [("status", VStr "completed"); ("processed", VFloat (binary64 2)); ("article_outcomes_total", VFloat (binary64 2));
   ("article_outcomes", VArr
     [VObj [("article_id", VFloat (binary64 7)); ("state", VStr "completed"); ("reason", VStr "")];
      VObj [("article_id", VFloat (binary64 9)); ("state", VStr "rejected"); ("reason", VStr "advertisement")]])].

Definition reprocessed_doc : json := default JNull (value_json (fun _ => "0.5") (VObj (boundedProjection "article_reprocess" reprocessed))).

