(* ===== verification/RelyGuarantee.v ===== *)
(** * RelyGuarantee: sessions that rely on others and answer for themselves

    Where [Db]'s [rwp] lets every session keep the same relation, here a session
    relies on one relation [R] of the others and guarantees another, [G], of its
    own steps.  [rgwp R G m Q d]: from the committed tables [d], under any
    failures and any script whose other sessions keep [R], every change of the
    tables is either one of the script's or a step of [G], and [m] ends with a
    result and tables that satisfy [Q]. *)

From S2P Require Import Prelude Db.

Section Rg.
Context {D E : Type} (R G : D -> D -> Prop) `{!PreOrder R} `{!PreOrder G}.
Implicit Types w : world D.

(** One change of the tables: a session of the script, or a step of [G]. *)
Definition change (env : list (event D)) (a b : D) : Prop := (exists ev, ev ∈ env /\ b = ev_other ev a) \/ G a b.
Definition attributed (env : list (event D)) : D -> D -> Prop := rtc (change env).

Definition rgwp {A} (m : M D E A) (Q : result E A -> D -> Prop) (d : D) : Prop :=
  forall w, w_db w = d -> w_tx w = None -> rely R (w_env w) ->
    attributed (w_env w) d (w_db (m w).2) /\ Q (m w).1 (w_db (m w).2) /\ w_tx (m w).2 = None /\ later w (m w).2.

Lemma later_rely w w' : later w w' -> rely R (w_env w) -> rely R (w_env w').
Proof. intros [n ->]. apply Forall_drop. Qed.

Lemma attributed_later w w' d d' : later w w' -> attributed (w_env w') d d' -> attributed (w_env w) d d'.
Proof.
  intros [n Hn]. rewrite Hn. unfold attributed. induction 1 as [|x y z Hs _ IH]; [apply rtc_refl|].
  eapply rtc_l; [|exact IH]. destruct Hs as [(ev & Hin & ->)|Hs]; [left|by right].
  exists ev. split; [|done]. rewrite <- (take_drop n (w_env w)). apply elem_of_app. by right.
Qed.

(** The others' step of one event. *)
Lemma attributed_next w ev w1 :
  next_event w = (ev, w1) -> w_tx w = None -> attributed (w_env w) (w_db w) (w_db w1).
Proof.
  unfold next_event. intros [= <- <-] Ht. simpl. rewrite Ht. destruct (w_env w) as [|e env]; simpl.
  - apply rtc_refl.
  - apply rtc_once. left. exists e. split; [left|done].
Qed.

Lemma rg_ret {A} (a : A) (Q : result E A -> D -> Prop) d : Q (Ok a) d -> rgwp (mret a) Q d.
Proof. intros H w <- Ht ?. split_and!; [apply rtc_refl|done|done|apply later_refl]. Qed.
Lemma rg_raise {A} e (Q : result E A -> D -> Prop) d : Q (Err e) d -> rgwp (raise e) Q d.
Proof. intros H w <- Ht ?. split_and!; [apply rtc_refl|done|done|apply later_refl]. Qed.
Lemma rg_mono {A} (m : M D E A) (Q Q' : result E A -> D -> Prop) d :
  rgwp m Q d -> (forall r d', Q r d' -> Q' r d') -> rgwp m Q' d.
Proof. intros H HQ w H1 H2 H3. destruct (H w H1 H2 H3) as (? & ? & ? & ?). auto. Qed.

Lemma rg_bind {A B} (m : M D E A) (k : A -> M D E B) Q d :
  rgwp m (fun r d' => match r with Ok a => rgwp (k a) Q d' | Err e => Q (Err e) d' end) d -> rgwp (m ≫= k) Q d.
Proof.
  intros H w H1 H2 H3. destruct (H w H1 H2 H3) as (Hp & Hm & Ht & Hl). unfold mbind, M_bind.
  destruct (m w) as [[a|e] w']; simpl in *; [|done].
  destruct (Hm w' eq_refl Ht) as (Hp2 & HQ & Ht2 & Hl2); [by eapply later_rely|].
  split_and!; [|done|done|by eapply later_trans]. etrans; [exact Hp|]. by eapply attributed_later.
Qed.
Lemma rg_try {A} (m : M D E A) (Q : result E (result E A) -> D -> Prop) d :
  rgwp m (fun r d' => Q (Ok r) d') d -> rgwp (try m) Q d.
Proof. intros H w H1 H2 H3. specialize (H w H1 H2 H3). unfold try. by destruct (m w). Qed.
Lemma rg_guard {B} bad e (k : unit -> M D E B) Q d :
  Q (Err e) d -> (bad = false -> rgwp (k tt) Q d) -> rgwp (guard_m bad e ≫= k) Q d.
Proof.
  intros He Hk. apply rg_bind. destruct bad; [by apply rg_raise|]. apply rg_ret. by apply Hk.
Qed.

Lemma rg_rand e (Q : result E (list Z) -> D -> Prop) d :
  (forall bs d1, R d d1 -> Q (Ok bs) d1) -> (forall d1, R d d1 -> Q (Err e) d1) -> rgwp (rand_read e) Q d.
Proof using Type*.
  intros H1 H2 w <- Ht Hr. unfold rand_read. destruct (next_event w) as [ev w1] eqn:Hn.
  pose proof (attributed_next _ _ _ Hn Ht). pose proof (later_next _ _ _ Hn).
  destruct (rely_step R _ _ _ Hn Ht Hr) as (HR & Ht1 & _).
  destruct (ev_fault ev); simpl; auto.
Qed.

(** A transaction publishes at once what its body made of the tables it found. *)
Lemma rg_with_tx {A} e (m : M D E A) (Q : result E A -> D -> Prop) d :
  (forall d1, R d d1 -> twp m (fun r d' _ => G d1 d' /\ Q r d') d1 d1 /\ Q (Err e) d1) -> rgwp (with_tx e m) Q d.
Proof using Type*.
  intros Hm w <- Ht Hr. unfold with_tx, mbind, M_bind, begin_tx. destruct (next_event w) as [ev w1] eqn:Hn.
  pose proof (attributed_next _ _ _ Hn Ht) as Ha. pose proof (later_next _ _ _ Hn) as Hl.
  destruct (rely_step R _ _ _ Hn Ht Hr) as (HR & Ht1 & _). destruct (Hm _ HR) as [Htw He].
  destruct (ev_fault ev); simpl; [|auto|auto].
  destruct (Htw (set_tx (Some (w_db w1)) w1) eq_refl eq_refl) as [[HG HQ] Hl2].
  destruct (m _) as [r w']; simpl in *. split_and!; [|done|done|].
  - etrans; [exact Ha|]. apply rtc_once. by right.
  - eapply later_env; [|reflexivity]. eapply later_trans; [exact Hl|]. destruct Hl2 as [n Hl2]. by exists n.
Qed.

(** What every step keeps holds in the end. *)
Lemma attributed_stable (S : D -> Prop) env d d' :
  (forall a b, R a b -> S a -> S b) -> (forall a b, G a b -> S a -> S b) -> rely R env -> attributed env d d' -> S d -> S d'.
Proof.
  intros HR HG Hr. induction 1 as [|x y z Hs _ IH]; [done|]. intros Hx. apply IH.
  destruct Hs as [(ev & Hin & ->)|Hs]; [|by eapply HG].
  eapply HR; [|done]. unfold rely in Hr. rewrite Forall_forall in Hr. by apply Hr.
Qed.
Lemma rg_stable {A} (m : M D E A) (Q : result E A -> D -> Prop) (S : D -> Prop) d :
  (forall a b, R a b -> S a -> S b) -> (forall a b, G a b -> S a -> S b) -> S d ->
  rgwp m Q d -> rgwp m (fun r d' => S d' /\ Q r d') d.
Proof.
  intros HR HG Hd Hm w H1 H2 H3. destruct (Hm w H1 H2 H3) as (Ha & HQ & Ht & Hl). split_and!; [done| |done|done|done].
  by eapply attributed_stable.
Qed.
End Rg.

(** A session may claim less of its own steps. *)
Lemma rg_weaken {D E A} (R G G' : D -> D -> Prop) (m : M D E A) Q d :
  (forall a b, G a b -> G' a b) -> rgwp R G m Q d -> rgwp R G' m Q d.
Proof.
  intros HG Hm w H1 H2 H3. destruct (Hm w H1 H2 H3) as (Ha & HQ & Ht & Hl). split_and!; [|done|done|done].
  eapply rtc_subrel; [|exact Ha]. intros a b [?|?]; [by left|right; auto].
Qed.
