(* ===== verification/DomainFence.v ===== *)
(** * DomainFence: go-domain/authority/fence.go

    go-domain changes its tables on behalf of a running job only inside a
    transaction that first checks the job's execution lease: the worker row and
    its advisory lock, the executor's lock, the job and its receipt.  The fence
    works in any database [D] that contains the queue's tables ([HasQueue]), so
    that the delivery code uses it on the tables of its own.

    The identifiers of a fence are canonical texts (its callers check them), so
    uuid equality is equality of texts.  The readings of [clock_timestamp()] in
    one statement are one reading. *)

From S2P Require Import Prelude JsonStrict GoTime Db GoText GoParseTime QueueTables ExecPayload ExecStore.

(** A database that contains the job queue. *)
Class HasQueue (D : Type) := queue_of : D -> qtables.
#[export] Instance queue_itself : HasQueue qtables := fun q => q.

Record Fence := MkFence {
  fn_JobID : string;
  fn_OwnerID : string;
  fn_ExecutorInstanceID : string;
  fn_Kind : string;
  fn_AttemptGeneration : Z;
  fn_Generation : Z;
  fn_WorkerBackendPID : Z;
  fn_ExecutorBackendPID : Z;
  fn_Deadline : Z;
  fn_Payload : option json;  (* what json.Valid accepts *)
}.

Definition fence_key (f : Fence) : attempt_key := (fn_JobID f, fn_AttemptGeneration f).

(** The checks of [Validate] that need no database. *)
Definition fence_malformed (f : Fence) : bool :=
  (fn_JobID f =? "")%string || (fn_OwnerID f =? "")%string || (fn_ExecutorInstanceID f =? "")%string ||
  (fn_AttemptGeneration f <=? 0) || (fn_Generation f <=? 0) || (fn_WorkerBackendPID f <=? 0) ||
  (fn_ExecutorBackendPID f <=? 0) || negb (bool_decide (is_Some (fn_Payload f))).

(** The SELECT on [background_worker_status]; a NULL result fails the scan. *)
Definition worker_row_valid (f : Fence) (now : Z) (row : option status_row) : bool :=
  match row with
  | Some (StatusRow g (Some o) (Some p) (Some beat) true) =>
      (o =? fn_OwnerID f)%string && (g =? fn_Generation f) && (p =? fn_WorkerBackendPID f) &&
      (beat <=? now) && (now - 20 * Second <=? beat)
  | _ => false
  end.

(** The SELECT on [background_jobs] *)
Definition job_row_valid `{Postgres} (f : Fence) (row : option job_row) : bool :=
  match row, fn_Payload f with
  | Some j, Some payload =>
      bool_decide (j_state j = Running) && bool_decide (j_owner j = Some (fn_Generation f)) &&
      (j_attempt j =? fn_AttemptGeneration f) && (j_kind j =? fn_Kind f)%string && jsonb_eqb (j_payload j) (jsonb payload)
  | _, _ => false
  end.

(** The SELECT on [background_job_executions] *)
Definition receipt_row_valid (f : Fence) (now : Z) (row : option exec_row) : bool :=
  match row with
  | Some x =>
      (x_instance x =? fn_ExecutorInstanceID f)%string && bool_decide (x_owner x = Some (fn_OwnerID f)) &&
      bool_decide (x_generation x = Some (fn_Generation f)) && bool_decide (x_deadline x = Some (pg_time (fn_Deadline f))) &&
      bool_decide (x_state x = XRunning) && (now <? pg_time (fn_Deadline f))
  | None => false
  end.

Section Fence.
Context `{Postgres} {D E : Type} `{HasQueue D} (ErrStale : E).

(** [err := tx.QueryRow(...).Scan(&valid); if err != nil || !valid { return ErrStale }] *)
Definition require (f : Z -> qtables -> bool) : M D E unit :=
  valid ← exec (fun _ => ErrStale) (read (fun now d => f (pg_time now) (queue_of d)));
  guard_m (negb valid) ErrStale.

Definition Validate (f : Fence) : M D E unit :=
  _ ← guard_m (fence_malformed f) ErrStale;
  _ ← require (fun now q => worker_row_valid f now (q_status q));
  _ ← require (fun _ q => bool_decide (q_worker_lock q = Some (fn_WorkerBackendPID f)));
  _ ← require (fun _ q => bool_decide (q_guard_lock q = Some (fn_ExecutorBackendPID f)));
  _ ← require (fun _ q => job_row_valid f (q_jobs q !! fn_JobID f));
  require (fun now q => receipt_row_valid f now (q_execs q !! fence_key f)).

(** [Check]; [db] is the driver's error. *)
Definition Check (db : E) (f : Fence) : M D E unit :=
  with_tx db (_ ← Validate f; _ ← commit db; mret tt).
End Fence.

(** ** What the fence establishes *)

(** The execution that [f] describes is the one the tables show: its worker holds
    the lease, its executor the guard, the job runs for it and its receipt is
    running, with time left. *)
Record authorized `{Postgres} (f : Fence) (q : qtables) : Prop := {
  au_formed : fence_malformed f = false;
  au_worker : worker_current (fn_OwnerID f) (fn_Generation f) (fn_WorkerBackendPID f) q;
  au_guard : q_guard_lock q = Some (fn_ExecutorBackendPID f);
  au_job : job_row_valid f (q_jobs q !! fn_JobID f) = true;
  au_receipt : exists now, receipt_row_valid f now (q_execs q !! fence_key f) = true;
}.

Lemma worker_row_valid_beat f now row :
  worker_row_valid f now row = true ->
  exists beat, status_beat (fn_OwnerID f) (fn_Generation f) (fn_WorkerBackendPID f) row = Some beat /\ stale beat now = false.
Proof.
  unfold worker_row_valid. intros Hv. repeat case_match; try done. bool_to_prop. subst.
  eexists. unfold status_beat, stale, HeartbeatStale. rewrite String.eqb_refl, !Z.eqb_refl. split; [done|].
  apply orb_false_intro; apply Z.ltb_ge; lia.
Qed.

Section FenceRules.
Context `{Postgres} {D E : Type} `{HasQueue D} (ErrStale : E).

Lemma twp_require {B} (Q : result E B -> D -> option D -> Prop) db f (k : unit -> M D E B) t :
  (forall t', Q (Err ErrStale) db (Some t')) ->
  (forall now, f (pg_time now) (queue_of t) = true -> twp (k tt) Q db t) -> twp (require ErrStale f ≫= k) Q db t.
Proof.
  intros He Hk. unfold require. apply twp_bind. apply twp_exec; [|intros; apply He].
  intros lk now. cbn [read]. apply twp_ret_id, twp_guard; [apply He|]. intros Hv. apply twp_ret. exists t. split; [done|].
  apply (Hk now). by apply negb_false_iff.
Qed.

Lemma twp_validate {B} (Q : result E B -> D -> option D -> Prop) db f (k : unit -> M D E B) t :
  (forall t', Q (Err ErrStale) db (Some t')) -> (authorized f (queue_of t) -> twp (k tt) Q db t) ->
  twp (Validate ErrStale f ≫= k) Q db t.
Proof.
  intros He Hk. unfold Validate. apply twp_bind. apply twp_guard; [apply He|]. intros Hm.
  apply twp_require; [done|]. intros now1 H1. apply twp_require; [done|]. intros now2 H2.
  apply twp_require; [done|]. intros now3 H3. apply twp_require; [done|]. intros now4 H4.
  apply twp_ret_id, twp_require; [done|]. intros now5 H5. apply twp_ret. exists t. split; [done|]. apply Hk.
  apply bool_decide_eq_true in H2, H3. apply worker_row_valid_beat in H1 as (beat & Hb & Hs).
  split; [done|split; [done|by exists beat, (pg_time now1)]|done|done|by eexists].
Qed.
End FenceRules.

(** ** The fence decides authority *)

(** The executor's view of the same execution. *)
Definition fence_context (f : Fence) : ExecutionContext :=
  MkContext (fn_JobID f) (fn_AttemptGeneration f) (fn_OwnerID f) (fn_Generation f) (fn_WorkerBackendPID f)
    (fn_ExecutorInstanceID f) (canonicalDeadline (fn_Deadline f)) (fn_ExecutorBackendPID f).

Lemma authorized_fenced `{Postgres} f q s :
  authorized f q -> sv_instance s = fn_ExecutorInstanceID f -> sv_guardPID s = fn_ExecutorBackendPID f ->
  fenced s (fence_key f) (fence_context f) q.
Proof.
  intros [Hm Hw Hg Hj (now & Hr)] Hi Hp. split.
  - split; [|congruence]. rewrite Hp. unfold fence_malformed in Hm. bool_to_prop. lia.
  - done.
  - unfold job_row_valid in Hj. simpl. destruct (q_jobs q !! fn_JobID f) as [j|]; [|done]. exists j. split; [done|].
    destruct (fn_Payload f) as [payload|]; [|done]. unfold job_current.
    apply andb_true_iff in Hj as [[[[H1 H2]%andb_true_iff H3]%andb_true_iff _]%andb_true_iff _]. by rewrite H1, H2, H3.
  - unfold receipt_row_valid in Hr. destruct (q_execs q !! fence_key f) as [x|]; [|done]. exists x, (pg_time (fn_Deadline f)).
    bool_to_prop. split_and!; [done..|congruence|]. unfold receipt_open.
    match goal with E : x_state x = _ |- _ => by rewrite E end.
Qed.

(** All of the fence at one instant. *)
Definition authorized_at `{Postgres} (f : Fence) (now : Z) (q : qtables) : bool :=
  negb (fence_malformed f) && worker_row_valid f now (q_status q) &&
  bool_decide (q_worker_lock q = Some (fn_WorkerBackendPID f)) && bool_decide (q_guard_lock q = Some (fn_ExecutorBackendPID f)) &&
  job_row_valid f (q_jobs q !! fn_JobID f) && receipt_row_valid f now (q_execs q !! fence_key f).

Lemma require_quiet {D E} `{HasQueue D} (e : E) f w :
  w_env w = [] -> f (pg_time (w_now w)) (queue_of (cur w)) = true ->
  exists w', require e f w = (Ok tt, w') /\ w_env w' = [] /\ w_now w' = w_now w /\ cur w' = cur w /\ w_tx w' = w_tx w /\ w_db w' = w_db w.
Proof.
  destruct w as [db tx now env]. cbn [w_env w_now]. intros -> Hf.
  unfold require, exec, try_exec, mbind, M_bind, next_event. cbn [w_env hd tl quiet ev_fault ev_elapsed ev_other ev_locked w_tx w_db w_now fst snd read].
  exists (World db tx now []). rewrite Z.add_0_r. unfold cur, set_cur in *. cbn [w_tx w_db] in *. destruct tx; cbn in *; by rewrite Hf.
Qed.

Lemma Validate_quiet `{Postgres} {D E} `{HasQueue D} (e : E) f w :
  w_env w = [] -> authorized_at f (pg_time (w_now w)) (queue_of (cur w)) = true ->
  exists w', Validate e f w = (Ok tt, w') /\ w_env w' = [] /\ cur w' = cur w /\ w_tx w' = w_tx w /\ w_db w' = w_db w.
Proof.
  intros He Ha. unfold authorized_at in Ha. apply andb_true_iff in Ha as [Ha H6]. apply andb_true_iff in Ha as [Ha H5].
  apply andb_true_iff in Ha as [Ha H4]. apply andb_true_iff in Ha as [Ha H3]. apply andb_true_iff in Ha as [H1 H2].
  apply negb_true_iff in H1. unfold Validate. rewrite H1. unfold guard_m at 1. unfold mbind, M_bind.
  edestruct (require_quiet e (fun now q => worker_row_valid f now (q_status q)) w) as (w1 & E1 & A1 & B1 & C1 & D1 & F1); [done|done|].
  edestruct (require_quiet e (fun _ q => bool_decide (q_worker_lock q = Some (fn_WorkerBackendPID f))) w1)
    as (w2 & E2 & A2 & B2 & C2 & D2 & F2); [done|by rewrite C1|].
  edestruct (require_quiet e (fun _ q => bool_decide (q_guard_lock q = Some (fn_ExecutorBackendPID f))) w2)
    as (w3 & E3 & A3 & B3 & C3 & D3 & F3); [done|by rewrite C2, C1|].
  edestruct (require_quiet e (fun _ q => job_row_valid f (q_jobs q !! fn_JobID f)) w3)
    as (w4 & E4 & A4 & B4 & C4 & D4 & F4); [done|by rewrite C3, C2, C1|].
  edestruct (require_quiet e (fun now q => receipt_row_valid f now (q_execs q !! fence_key f)) w4)
    as (w5 & E5 & A5 & B5 & C5 & D5 & F5); [done|by rewrite B4, B3, B2, B1, C4, C3, C2, C1|].
  exists w5. cbn [mret M_ret]. rewrite E1, E2, E3, E4, E5. split_and!; [done|done|congruence..].
Qed.

(** C32: The domain's fence decides authority.  [Check] changes nothing; when it
    succeeds, under any failures and interleaving, the tables it saw show this
    execution as the current one, and the executor's own fence would have let the
    same attempt write; and it does succeed when nothing fails and the tables
    show the execution as current. *)
Theorem Check_exact `{Postgres} {D E} `{HasQueue D} (ErrStale db : E) f (w : world D) :
  w_tx w = None ->
  let '(r, w') := Check ErrStale db f w in
  w_db w' = found w /\
  (r = Ok tt -> authorized f (queue_of (found w)) /\
     forall s, sv_instance s = fn_ExecutorInstanceID f -> sv_guardPID s = fn_ExecutorBackendPID f ->
       fenced s (fence_key f) (fence_context f) (queue_of (found w))) /\
  (w_env w = [] -> authorized_at f (pg_time (w_now w)) (queue_of (w_db w)) = true -> r = Ok tt).
Proof.
  intros Ht.
  assert (w_db (Check ErrStale db f w).2 = found w /\
    ((Check ErrStale db f w).1 = Ok tt -> authorized f (queue_of (found w)))) as [H1 H2].
  { unfold Check. apply (with_tx_spec _ _ (fun r d => d = found w /\ (r = Ok tt -> authorized f (queue_of (found w))))); [done|done|].
    apply twp_validate; [done|]. intros Ha. by apply twp_commit. }
  assert (w_env w = [] -> authorized_at f (pg_time (w_now w)) (queue_of (w_db w)) = true -> (Check ErrStale db f w).1 = Ok tt) as H3.
  { intros He Ha. destruct w as [d tx now env]. cbn [w_env w_now w_db w_tx] in *. subst.
    unfold Check, with_tx, begin_tx, mbind, M_bind, next_event. cbn [w_env hd tl quiet ev_fault ev_elapsed ev_other w_tx w_db w_now].
    rewrite Z.add_0_r. unfold set_tx. cbn [w_env w_tx w_db w_now].
    destruct (Validate_quiet ErrStale f (World d (Some d) now []) eq_refl Ha) as (w' & -> & He & Hc & Htx & Hdb).
    unfold commit, next_event. rewrite He. done. }
  destruct (Check ErrStale db f w) as [r w']. split_and!; [done| |done]. intros Hr. split; [by apply H2|].
  intros s Hi Hp. apply authorized_fenced; [by apply H2|done|done].
Qed.

Module FenceSample.
Definition deadline : Z := ExecSample.now + 600 * Second.
Definition receipt : exec_row :=
  ExecRow "d" ExecSample.instance (Some ExecSample.owner) (Some 3) (Some deadline) XRunning 0 (Some 0) None None None None.
Definition queue : qtables := set_execs {[ ("j", 1) := receipt ]} ExecSample.tables.
Definition fence : Fence := MkFence "j" ExecSample.owner ExecSample.instance "telegram_digest" 1 3 5 7 deadline (Some (JObj [])).
Definition world0 : world qtables := World queue None ExecSample.now [].
End FenceSample.

Lemma Check_exact_witness :
  (Check (H := ExecSample.pg_plain) (E := exec_error) ErrStaleAttempt ErrDatabase FenceSample.fence FenceSample.world0).1 = Ok tt /\
  fenced ExecSample.server ("j", 1) (fence_context FenceSample.fence) FenceSample.queue.
Proof.
  pose proof (Check_exact (H := ExecSample.pg_plain) (E := exec_error) ErrStaleAttempt ErrDatabase FenceSample.fence
    FenceSample.world0 eq_refl) as H.
  destruct (Check _ _ _ _) as [r w']. destruct H as (_ & H1 & H2).
  assert (r = Ok tt) as -> by (apply H2; [done|by_eval]). split; [done|]. by apply H1.
Defined.
