(* ===== verification/Finalizer.v ===== *)
(** * Finalizer: go-execution/orchestration/legacy.go

    What happens once when a job has ended, and once when a worker starts: the
    receipt of the job is brought to its terminal state, its schedule is told, and
    the domain service is told by one POST, which may alert people; schedules that
    a dead worker left running are put right.

    State: the queue's tables, the schedules, the column [legacy_alert_state] of
    the receipts, and two records no code reads: the POSTs made ([lt_posts]) and
    which session applied a completion ([lt_marks]; [me] is the session).
    [network] gives what a POST meets from the application clock of its event.
    The text of a column that is NULL or no document is [None]. *)

From S2P Require Import Prelude JsonStrict GoTime Db GoText GoDecode GoParseTime Calendar ExecutorClient QueueTables WorkerStore ExecPayload GoRune JobPayload.
From S2P Require Import ExecStore ArticleOutcome ContentFilter ArticleStore ProviderClients Outbound DomainClient RunClient Pipeline RelyGuarantee DomainFence.
From Stdlib Require Import Floats.SpecFloat.

(** ** Tables *)

(** A row of [schedule_settings]. *)
Record setting_row := SettingRow {
  ss_name : string;
  ss_enabled : option bool;
  ss_type : option string;
  ss_hour : option Z;
  ss_minute : option Z;
  ss_weekdays : option json;
  ss_timezone : option string;
  ss_config : option json;
  ss_running : option bool;
  ss_updated : option Z;
  ss_next : option Z;
  ss_finished : option Z;
  ss_success : option Z;
  ss_status : option string;
  ss_error : option string;
  ss_duration : option spec_float;
}.

Record ltables := LTables {
  lt_queue : qtables;
  lt_alerts : gmap attempt_key string;
  lt_settings : gmap Z setting_row;
  lt_marks : gmap attempt_key nat;
  lt_posts : list attempt_key;
}.
#[export] Instance ltables_queue : HasQueue ltables := lt_queue.

Definition set_receipt (key : attempt_key) (x : exec_row) (d : ltables) : ltables :=
  LTables (QueueTables.set_execs (<[key := x]> (q_execs (lt_queue d))) (lt_queue d)) (lt_alerts d) (lt_settings d) (lt_marks d) (lt_posts d).
Definition set_alerts (m : gmap attempt_key string) (d : ltables) : ltables :=
  LTables (lt_queue d) m (lt_settings d) (lt_marks d) (lt_posts d).
Definition set_settings (m : gmap Z setting_row) (d : ltables) : ltables :=
  LTables (lt_queue d) (lt_alerts d) m (lt_marks d) (lt_posts d).
Definition set_mark (key : attempt_key) (me : nat) (d : ltables) : ltables :=
  LTables (lt_queue d) (lt_alerts d) (lt_settings d) (<[key := me]> (lt_marks d)) (lt_posts d).
Definition add_alert_post (key : attempt_key) (d : ltables) : ltables :=
  LTables (lt_queue d) (lt_alerts d) (lt_settings d) (lt_marks d) (lt_posts d ++ [key]).

(** Errors the caller tells apart, and others *)
Inductive lerr := LExec (e : exec_error) | LFailed (text : string).
Notation LM := (M ltables lerr).
Definition any_failure (e : lerr) : dberr -> lerr := fun _ => e.

(** ** Documents *)

(** A member of an object that is read into [map[string]any], errors ignored: what
    is no float64 is left nil. *)
Definition member (j : option json) (k : string) : option value :=
  match j with
  | Some (JObj ms) => x ← get (raw_map ms) k; Some (default VNull (any_value x))
  | _ => None
  end.
Definition jsonOrObject (j : option json) : json := default (JObj []) j.

(** [json.Unmarshal(b, &weekdays)], errors ignored: an element that is no int is zero. *)
Definition weekday_list (j : option json) : list Z :=
  match j with Some (JArr l) => map (fun x => default 0 (as_int 0 x)) l | _ => [] end.

Definition validAlertState (s : string) : bool := bool_decide (s ∈ ["pending"; "attempting"; "delivered"; "unknown"; "not_needed"]).

(** ** The fences *)

Definition lease_lost : dberr -> lerr := any_failure (LExec ErrLeaseLost).
Definition lockCurrentWorker : LM (string * Z * Z) :=
  row ← exec lease_lost (read (fun _ d => q_status (lt_queue d)));
  match row with
  | Some (StatusRow generation (Some owner) (Some pid) (Some heartbeat) true) =>
      now ← exec lease_lost (read (fun now _ => pg_time now));
      _ ← guard_m (stale heartbeat now) (LExec ErrLeaseLost);
      held ← exec lease_lost (read (fun _ d => bool_decide (q_worker_lock (lt_queue d) = Some pid)));
      _ ← guard_m (negb held) (LExec ErrLeaseLost);
      mret (owner, generation, pid)
  | _ => raise (LExec ErrLeaseLost)
  end.
Definition checkExecutionLock (pid : Z) : LM unit :=
  held ← exec (any_failure (LExec ErrNotReady)) (read (fun _ d => bool_decide (q_guard_lock (lt_queue d) = Some pid)));
  guard_m (negb held) (LExec ErrNotReady).

(** ** The schedule of a finished job *)

(** What [applyScheduleCompletion] makes of the job's state and result. *)
Definition last_status (state : jstate) (result : option json) : string :=
  match state with
  | DeliveryUnknown => "delivery_unknown"
  | Succeeded =>
      match member result "status" with
      | Some (VStr s) => if bool_decide (s ∈ ["warning"; "deferred"]) then s else "success"
      | _ => "success"
      end
  | _ => "failed"
  end.

Definition complete_setting (state : jstate) (status : string) (duration : option spec_float) (next : option Z) (now : Z) (r : setting_row) : setting_row :=
  SettingRow (ss_name r) (ss_enabled r) (ss_type r) (ss_hour r) (ss_minute r) (ss_weekdays r) (ss_timezone r) (ss_config r) (Some false) (ss_updated r)
    (if negb (default false (ss_enabled r)) then None else match next with Some t => Some (pg_time t) | None => ss_next r end)
    (Some (pg_time now)) (if (status =? "success")%string then Some (pg_time now) else ss_success r) (Some status)
    (match state with Succeeded => None | _ => Some "Background job failed" end) duration.

(** The UPDATE of the row of one schedule *)
Definition update_setting (id : Z) (f : Z -> setting_row -> setting_row) : stmt ltables unit := fun _ now d =>
  match lt_settings d !! id with
  | Some r => (Ok tt, set_settings (<[id := f now r]> (lt_settings d)) d)
  | None => (Ok tt, d)
  end.

Definition applyScheduleCompletion (id created : Z) (state : jstate) (result : option json) : LM unit :=
  row ← exec (any_failure (LFailed "schedule completion lookup failed")) (read (fun _ d => lt_settings d !! id));
  match row with
  | None => mret tt
  | Some r =>
      match ss_running r, ss_enabled r with
      | Some running, Some enabled =>
          if negb running then mret tt
          else if match ss_updated r with Some updated => created <? updated | None => false end then mret tt
          else
            let status := last_status state result in
            let later d := now ← app_now; mret (Some (now + d)) in
            next ← (if enabled then
                      if (status =? "deferred")%string then later (5 * Minute)
                      else if (status =? "failed")%string then later (10 * Minute)
                      else mret None
                    else mret None);
            exec (any_failure (LFailed "schedule completion update failed"))
              (update_setting id (complete_setting state status (safeMetric (member result "duration_seconds")) next))
      | _, _ => raise (LFailed "schedule completion lookup failed")
      end
  end.

(** ** Finalization *)

Definition set_applied (now : Z) (x : exec_row) : exec_row :=
  ExecRow (x_digest x) (x_instance x) (x_owner x) (x_generation x) (x_deadline x) (x_state x) (x_accepted x) (x_started x) (x_finished x)
    (x_result x) (x_error x) (Some (pg_time now)).

Section Finalizing.
Context (sha256 : list Z -> list Z).

(** The receipt of a job that has none *)
Definition recovered_receipt (instance : string) (key : attempt_key) (j : job_row) (accepted : Z) : exec_row :=
  ExecRow (string_of (hex_encode (sha256 (bytes_of ("legacy-recovery:" +:+ key.1 +:+ ":" +:+ itoa key.2))))) instance None (j_owner j) None
    (WorkerStore.xstate_of (j_state j)) accepted None None (Some (jsonOrObject (j_result j))) (j_error j) None.
Definition insert_recovered (instance : string) (key : attempt_key) (j : job_row) (start : Z) : stmt ltables unit := fun _ _ d =>
  match q_execs (lt_queue d) !! key with
  | Some _ => (Err UniqueViolation, d)
  | None => (Ok tt, set_alerts (delete key (lt_alerts d)) (set_receipt key (recovered_receipt instance key j start) d))
  end.

(** The UPDATE of the receipt of an attempt *)
Definition update_receipt (key : attempt_key) (f : Z -> exec_row -> exec_row) : stmt ltables unit := fun _ now d =>
  match q_execs (lt_queue d) !! key with
  | Some x => (Ok tt, set_receipt key (f now x) d)
  | None => (Ok tt, d)
  end.
Definition close_receipt_as (j : job_row) (x : exec_row) : exec_row :=
  QueueTables.set_exec (WorkerStore.xstate_of (j_state j)) (x_started x) (j_finished j) (Some (jsonOrObject (j_result j))) (j_error j) x.

(** The receipt, made or closed when that is due: when its completion was applied,
    and the state of its alert *)
Definition sync_receipt (instance : string) (key : attempt_key) (j : job_row) (start : Z) : LM (option Z * option string) :=
  prior ← exec (any_failure (LFailed "legacy receipt lookup failed"))
            (read (fun _ d => (fun x => (x, lt_alerts d !! key)) <$> q_execs (lt_queue d) !! key));
  match prior with
  | None =>
      _ ← exec (any_failure (LFailed "legacy receipt creation failed")) (insert_recovered instance key j start);
      mret (None, None)
  | Some (x, alert) =>
      _ ← (if xterminal (x_state x) then mret tt
           else exec (any_failure (LFailed "legacy receipt update failed")) (update_receipt key (fun _ => close_receipt_as j)));
      mret (x_applied x, alert)
  end.

(** The completion is recorded, by session [me]; a decided alert is kept. *)
Definition mark_applied (me : nat) (key : attempt_key) (alert : string) : stmt ltables unit := fun _ now d =>
  match q_execs (lt_queue d) !! key with
  | Some x => (Ok tt, set_mark key me (set_alerts (<[key := default alert (lt_alerts d !! key)]> (lt_alerts d)) (set_receipt key (set_applied now x) d)))
  | None => (Ok tt, d)
  end.

(** What the transaction of [Finalize] leaves for the rest of it. *)
Record completion := MkCompletion {
  cp_owner : string;
  cp_generation : Z;
  cp_pid : Z;
  cp_first : bool;
  cp_new_alert : string;
  cp_alert : option string;
}.

(** The job has ended with this attempt. *)
Definition ended_job (attempt : Z) (row : option job_row) : option job_row :=
  j ← row; if (j_attempt j =? attempt) && jterminal (j_state j) then Some j else None.

Definition complete_body (me : nat) (pid : Z) (instance : string) (key : attempt_key) : LM completion :=
  start ← tx_clock;
  '(owner, generation, workerPID) ← lockCurrentWorker;
  _ ← checkExecutionLock pid;
  row ← exec (any_failure (LExec ErrStaleAttempt)) (read (fun _ d => q_jobs (lt_queue d) !! key.1));
  match ended_job key.2 row with
  | None => raise (LExec ErrStaleAttempt)
  | Some j =>
      '(applied, alert) ← sync_receipt instance key j start;
      let first := bool_decide (applied = None) in
      let scheduleID := Pipeline.positiveInt (member (Some (j_payload j)) "schedule_id") in
      _ ← (match scheduleID with
           | Some id => if first then applyScheduleCompletion id (j_created j) (j_state j) (j_result j) else mret tt
           | None => mret tt
           end);
      let newAlert := if bool_decide (is_Some scheduleID) || bool_decide (is_Some (j_schedule_key j)) then "pending" else "not_needed" in
      _ ← (if first then exec (any_failure (LFailed "legacy completion marker failed")) (mark_applied me key newAlert) else mret tt);
      _ ← commit (LFailed "legacy completion commit failed");
      mret (MkCompletion owner generation workerPID first newAlert alert)
  end.

(** *** The alert *)

Record alert_answer := MkAlertAnswer { aa_JobID : string; aa_AttemptGeneration : Z; aa_Applied : option bool; aa_AlertState : string }.
Definition alert_fields : list string := ["job_id"; "attempt_generation"; "legacy_completion_applied"; "alert_state"].
Definition set_alert_field (f : string) (v : json) (a : alert_answer) : option alert_answer :=
  let 'MkAlertAnswer job attempt applied state := a in
  if (f =? "job_id")%string then x ← ExecutorClient.as_string job v; Some (MkAlertAnswer x attempt applied state)
  else if (f =? "attempt_generation")%string then x ← as_int attempt v; Some (MkAlertAnswer job x applied state)
  else if (f =? "legacy_completion_applied")%string then
    match v with JNull => Some (MkAlertAnswer job attempt None state) | JBool b => Some (MkAlertAnswer job attempt (Some b) state) | _ => None end
  else x ← ExecutorClient.as_string state v; Some (MkAlertAnswer job attempt applied x).

(** [notifyFinalized] from the answer on; [None] is an error. *)
Definition read_alert_answer (key : attempt_key) (a : option Outbound.response) : option string :=
  a ← a;
  if negb (hp_status a =? 200) || bd_failed (hp_body a) || (maxDomainBody <? bd_length (hp_body a)) then None
  else
    match decode_next (bd_lexemes (hp_body a)) (bd_ending (hp_body a)) with
    | Err _ => None
    | Ok (j, rest) =>
        match decode_struct alert_fields set_alert_field (MkAlertAnswer "" 0 None "") j, decode_next rest (bd_ending (hp_body a)) with
        | Some r, Err EofErr =>
            if (aa_JobID r =? key.1)%string && (aa_AttemptGeneration r =? key.2) && default false (aa_Applied r) && validAlertState (aa_AlertState r)
            then Some (aa_AlertState r) else None
        | _, _ => None
        end
    end.

Context (network : Z -> option Outbound.response).

(** The POST; a request of more than 4096 bytes is not made. *)
Definition notifyFinalized (key : attempt_key) (body : json) : LM (option string) := fun w =>
  if 4096 <? len (marshal body) then (Ok None, w)
  else let '(ev, w1) := next_event w in
       (Ok (read_alert_answer key (network (ev_app ev))), set_cur (add_alert_post key (cur w1)) w1).

Definition alert_open (d : ltables) (key : attempt_key) : bool :=
  match q_execs (lt_queue d) !! key, lt_alerts d !! key with
  | Some x, Some s => bool_decide (is_Some (x_applied x)) && bool_decide (s ∈ ["pending"; "attempting"])
  | _, _ => false
  end.
Definition give_up_alert (key : attempt_key) : stmt ltables unit :=
  write (fun _ d => if alert_open d key then set_alerts (<[key := "unknown"]> (lt_alerts d)) d else d).
Definition unknown_body (pid : Z) (key : attempt_key) : LM unit :=
  _ ← lockCurrentWorker;
  _ ← checkExecutionLock pid;
  _ ← exec (any_failure (LFailed "")) (give_up_alert key);
  _ ← commit (LFailed "");
  mret tt.
Definition markAlertUnknown (pid : Z) (key : attempt_key) : LM unit :=
  _ ← try (with_tx (LFailed "") (unknown_body pid key)); mret tt.

Definition applied_alert (key : attempt_key) (d : ltables) : option string :=
  x ← q_execs (lt_queue d) !! key; if bool_decide (is_Some (x_applied x)) then lt_alerts d !! key else None.
Definition read_alert_body (pid : Z) (key : attempt_key) : LM string :=
  _ ← lockCurrentWorker;
  _ ← checkExecutionLock pid;
  state ← exec (any_failure (LFailed "terminal alert state invalid")) (read (fun _ d => applied_alert key d));
  match state with
  | Some s =>
      _ ← guard_m (negb (validAlertState s)) (LFailed "terminal alert state invalid");
      _ ← commit (LFailed "terminal alert state read failed");
      mret s
  | None => raise (LFailed "terminal alert state invalid")
  end.
Definition readAlertState (pid : Z) (key : attempt_key) : LM string :=
  with_tx (LFailed "terminal alert state unavailable") (read_alert_body pid key).

Definition finalized_event (pid : Z) (instance : string) (key : attempt_key) (c : completion) : json :=
  JObj [("version", JNum "1"); ("job_id", JStr key.1); ("attempt_generation", JNum (itoa key.2)); ("owner_id", JStr (cp_owner c));
        ("generation", JNum (itoa (cp_generation c))); ("backend_pid", JNum (itoa (cp_pid c))); ("executor_instance_id", JStr instance);
        ("executor_backend_pid", JNum (itoa pid))].

(** The one POST of a completion; delivery that is unknown is not tried again. *)
Definition send_alert (pid : Z) (instance : string) (key : attempt_key) (c : completion) : LM string :=
  answer ← notifyFinalized key (finalized_event pid instance key c);
  _ ← (match answer with
       | None => markAlertUnknown pid key
       | Some state =>
           if (state =? "delivered")%string then
             persisted ← try (readAlertState pid key);
             if match persisted with Ok s => (s =? "delivered")%string | Err _ => false end then mret tt else markAlertUnknown pid key
           else mret tt
       end);
  final ← try (readAlertState pid key);
  match final with
  | Ok state => mret state
  | Err _ => _ ← markAlertUnknown pid key; mret "unknown"
  end.

(** [guardPID] is nothing when the guard has no connection. *)
Definition Finalize (me : nat) (guardPID : option Z) (instance : string) (f : ExecutionContext) : LM json :=
  match guardPID with
  | None => raise (LExec ErrNotReady)
  | Some pid =>
      _ ← guard_m (pid <? 1) (LExec ErrNotReady);
      _ ← guard_m (negb (Outbound.canonicalUUID instance)) (LExec ErrNotReady);
      let key := (xc_JobID f, xc_AttemptGeneration f) in
      c ← with_tx (LFailed "finalization transaction unavailable") (complete_body me pid instance key);
      state ← (if cp_first c && (cp_new_alert c =? "pending")%string then send_alert pid instance key c
               else mret (default (cp_new_alert c) (cp_alert c)));
      mret (JObj [("job_id", JStr key.1); ("attempt_generation", JNum (itoa key.2)); ("legacy_completion_applied", JBool true); ("alert_state", JStr state)])
  end.
End Finalizing.

(** ** The next occurrence of a schedule *)

(** [tzToken] *)
Definition tzToken (s : string) : bool :=
  (1 <=? len s) && (len s <=? 128) &&
  forallb (fun c => between 65 90 c || between 97 122 c || is_digit c || bool_decide (c ∈ [95; 43; 46; 47; 45])) (bytes_of s).

Section Recovering.
Context (LoadLocation : string -> option GoTime.location).

(** The loop over at most eight weeks to a day of the list *)
Fixpoint to_weekday (n : nat) (hourly : bool) (minute : Z) (weekdays : list Z) (loc : GoTime.location) (candidate : Z) : Z :=
  match n with
  | O => candidate
  | S n =>
      if bool_decide (isoWeekday loc candidate ∈ weekdays) then candidate
      else
        let next := AddDays loc candidate 1 in
        to_weekday n hourly minute weekdays loc (if hourly then Date loc (local_date loc next) 0 minute 0 0 else next)
  end.

Definition interval_minutes (cfg : option json) : Z :=
  Z.min 1440 (default 30 (Pipeline.positiveInt (member cfg "interval_minutes"))).

(** A schedule that is due on a clock: [typ] is daily or hourly. *)
Definition next_on_clock (hourly : bool) (hour minute : Z) (weekdays : list Z) (loc : GoTime.location) (now : Z) : Z :=
  let at_hour := Date loc (local_date loc now) (if hourly then local_hour loc now else hour) minute 0 0 in
  let candidate := if now <? at_hour then at_hour else if hourly then at_hour + Hour else AddDays loc at_hour 1 in
  if bool_decide (weekdays = []) then candidate else to_weekday 56 hourly minute weekdays loc candidate.

Definition nextOccurrence (typ : string) (hour minute : Z) (weekdays : option json) (tz : string) (cfg : option json) (now : Z) : Z :=
  match LoadLocation tz with
  | None => now + 30 * Minute
  | Some loc =>
      if negb (tzToken tz) then now + 30 * Minute
      else if (typ =? "interval")%string then now + interval_minutes cfg * Minute
      else if negb (bool_decide (typ ∈ ["daily"; "hourly"])) then now + 30 * Minute
      else if (hour <? 0) || (23 <? hour) || (minute <? 0) || (59 <? minute) then now + 30 * Minute
      else next_on_clock (typ =? "hourly")%string hour minute (weekday_list weekdays) loc now
  end.

(** ** Recovery *)

(** The columns [Recover] scans; NULL is an error. *)
Record schedule := MkSchedule { sd_id : Z; sd_name : string; sd_enabled : bool; sd_type : string; sd_hour : Z; sd_minute : Z; sd_timezone : string; sd_row : setting_row }.
Definition scan_schedule (id : Z) (r : setting_row) : option schedule :=
  enabled ← ss_enabled r; typ ← ss_type r; hour ← ss_hour r; minute ← ss_minute r; tz ← ss_timezone r;
  Some (MkSchedule id (ss_name r) enabled typ hour minute tz r).

(** [payload->>'schedule_id' = id] *)
Definition names_schedule (id : Z) (payload : json) : bool :=
  match payload with
  | JObj ms => match get (raw_map ms) "schedule_id" with
               | Some (JNum s) | Some (JStr s) => (s =? itoa id)%string
               | _ => false
               end
  | _ => false
  end.
(** A job that is queued, running or interrupted works for the schedule. *)
Definition has_active_job (id : Z) (d : ltables) : bool :=
  existsb (fun kj => negb (jterminal (j_state kj.2)) && names_schedule id (j_payload kj.2)) (map_to_list (q_jobs (lt_queue d))).

Definition may_have_delivered (s : schedule) : bool :=
  (sd_name s =? "telegram_digest")%string ||
  (sd_name s =? "news_digest")%string &&
    match member (ss_config (sd_row s)) "send_telegram" with Some (VBool b) => b | _ => true end.

(** State, error and, unless it stays as it is, the next run *)
Definition recovered_as (s : schedule) (now : Z) : string * string * option Z :=
  let r := sd_row s in
  let again := nextOccurrence (sd_type s) (sd_hour s) (sd_minute s) (ss_weekdays r) (sd_timezone s) (ss_config r) now in
  if may_have_delivered s then
    ("delivery_unknown", "External delivery outcome is unknown after service restart",
     if sd_enabled s then match ss_next r with Some t => if now <? t then None else Some again | None => Some again end else Some zero_time)
  else
    ("interrupted", "Service restarted while task was marked running",
     if negb (sd_enabled s) then Some zero_time else match ss_next r with None => Some again | Some _ => None end).

Definition recover_setting (s : schedule) (now : Z) (r : setting_row) : setting_row :=
  let '(state, msg, next) := recovered_as s now in
  SettingRow (ss_name r) (ss_enabled r) (ss_type r) (ss_hour r) (ss_minute r) (ss_weekdays r) (ss_timezone r) (ss_config r) (Some false) (ss_updated r)
    (if negb (sd_enabled s) then None else match next with Some t => Some (pg_time t) | None => ss_next r end)
    (Some (pg_time now)) (ss_success r) (Some state) (Some msg) (ss_duration r).

(** One turn of the loop: whether the schedule was reconciled *)
Definition recover_one (now : Z) (s : schedule) : LM bool :=
  active ← exec (any_failure (LFailed "active schedule check failed")) (read (fun _ d => has_active_job (sd_id s) d));
  if active : bool then mret false
  else
    _ ← exec (any_failure (LFailed "schedule recovery update failed")) (update_setting (sd_id s) (fun _ => recover_setting s now));
    mret true.

Definition running_settings (d : ltables) : list (Z * setting_row) :=
  filter (fun kv => ss_running kv.2 = Some true) (map_to_list (lt_settings d)).

Definition recover_body (pid : Z) (owner : string) (generation backendPID : Z) : LM Z :=
  '(currentOwner, currentGen, currentPID) ← lockCurrentWorker;
  _ ← guard_m (negb ((currentOwner =? owner)%string && (currentGen =? generation) && (currentPID =? backendPID))) (LExec ErrLeaseLost);
  _ ← checkExecutionLock pid;
  rows ← exec (any_failure (LFailed "schedule recovery query failed")) (read (fun _ d => running_settings d));
  match mapM (fun kv => scan_schedule kv.1 kv.2) rows with
  | None => raise (LFailed "schedule recovery row invalid")
  | Some all =>
      now ← app_now;
      done ← map_each (recover_one now) all;
      _ ← commit (LFailed "schedule recovery commit failed");
      mret (Z.of_nat (length (filter Is_true done)))
  end.

Definition Recover (guardPID : option Z) (owner : string) (generation backendPID : Z) : LM json :=
  match guardPID with
  | None => raise (LExec ErrNotReady)
  | Some pid =>
      _ ← guard_m (pid <? 1) (LExec ErrNotReady);
      reconciled ← with_tx (LFailed "recovery transaction unavailable") (recover_body pid owner generation backendPID);
      mret (JObj [("event", JStr "recovered"); ("schedules_reconciled", JNum (itoa reconciled))])
  end.
End Recovering.

(** ** What sessions keep *)

(** The completion of a marked attempt is recorded for good, until its job is
    pruned; only marked attempts were posted, once each. *)
Record lt_wf (d : ltables) : Prop := {
  lw_queue : q_wf (lt_queue d);
  lw_marked : forall k o, lt_marks d !! k = Some o ->
    (exists x, q_execs (lt_queue d) !! k = Some x /\ is_Some (x_applied x)) \/ k.1 ∈ q_retired (lt_queue d);
  lw_posted : forall k, k ∈ lt_posts d -> is_Some (lt_marks d !! k);
  lw_once : NoDup (lt_posts d);
}.

(** Steps of the sessions in [who] *)
Record finalized_by (who : nat -> Prop) (d d' : ltables) : Prop := {
  fb_wf : lt_wf d -> lt_wf d';
  fb_queue : q_evolves (lt_queue d) (lt_queue d');
  fb_applied : forall k x, q_execs (lt_queue d) !! k = Some x -> is_Some (x_applied x) ->
    (exists x', q_execs (lt_queue d') !! k = Some x' /\ is_Some (x_applied x')) \/ k.1 ∈ q_retired (lt_queue d');
  fb_marks : forall k o, lt_marks d !! k = Some o -> lt_marks d' !! k = Some o;
  fb_new : forall k o, lt_marks d' !! k = Some o -> lt_marks d !! k = Some o \/ who o;
  fb_posts : exists l, lt_posts d' = lt_posts d ++ l /\ Forall (fun k => exists o, lt_marks d' !! k = Some o /\ who o) l;
}.

#[export] Instance finalized_by_preorder who : PreOrder (finalized_by who).
Proof.
  split.
  - intros d. split; [done|reflexivity|eauto|done|by left|]. exists []. by rewrite app_nil_r.
  - intros a b c [A1 A2 A0 A3 A4 (l & A5 & A6)] [B1 B2 B0 B3 B4 (l' & B5 & B6)]. split; [auto|by etrans| |auto| |].
    + intros k x Hx Hs. destruct (A0 k x Hx Hs) as [(x' & Hx' & Hs')|Hr]; [by eapply B0|right]. by apply (ev_retired _ _ B2).
    + intros k o Hk. destruct (B4 k o Hk) as [Hk'|?]; [by apply A4|by right].
    + exists (l ++ l'). split; [by rewrite B5, A5, app_assoc|]. apply Forall_app. split; [|done].
      eapply Forall_impl; [exact A6|]. intros k (o & Ho & Hw). eauto.
Qed.

Lemma finalized_by_mono (who who' : nat -> Prop) d d' : (forall o, who o -> who' o) -> finalized_by who d d' -> finalized_by who' d d'.
Proof.
  intros Hi [A1 A2 A0 A3 A4 (l & A5 & A6)]. split; [done..| |].
  - intros k o Hk. destruct (A4 k o Hk); auto.
  - exists l. split; [done|]. eapply Forall_impl; [exact A6|]. intros k (o & Ho & Hw). eauto.
Qed.

(** Others act for themselves; this session changes schedules only with a
    completion it records. *)
Definition other_sessions (me : nat) : ltables -> ltables -> Prop := finalized_by (fun o => o <> me).
Definition records (me : nat) (d d' : ltables) : Prop := exists k, lt_marks d !! k = None /\ lt_marks d' !! k = Some me.
Definition own_step (me : nat) (d d' : ltables) : Prop :=
  finalized_by (eq me) d d' /\ (lt_settings d' = lt_settings d \/ records me d d').

#[export] Instance other_sessions_preorder me : PreOrder (other_sessions me) := finalized_by_preorder _.
#[export] Instance own_step_preorder me : PreOrder (own_step me).
Proof.
  split.
  - intros d. split; [reflexivity|by left].
  - intros a b c [H1 H2] [H3 H4]. split; [by etrans|].
    destruct H2 as [H2|(k & Hn & Hk)]; [|right; exists k; split; [done|by apply (fb_marks _ _ _ H3)]].
    destruct H4 as [H4|(k & Hn & Hk)]; [left; congruence|right]. exists k. split; [|done].
    destruct (lt_marks a !! k) as [o|] eqn:E; [|done]. apply (fb_marks _ _ _ H1) in E. congruence.
Qed.

(** *** How each write steps *)

(** A write of the receipts and alerts alone *)
Lemma receipts_step me d d' :
  q_evolves (lt_queue d) (lt_queue d') ->
  (forall k x, q_execs (lt_queue d) !! k = Some x -> is_Some (x_applied x) -> exists x', q_execs (lt_queue d') !! k = Some x' /\ is_Some (x_applied x')) ->
  lt_settings d' = lt_settings d -> lt_marks d' = lt_marks d -> lt_posts d' = lt_posts d -> own_step me d d'.
Proof.
  intros Hq Ha Hs Hm Hp. split; [|by left]. split; [|done|intros k x Hx Hs'; left; by eapply Ha|by rewrite Hm|rewrite Hm; by left|].
  - intros [W1 W2 W3 W4]. split; [by apply (ev_wf _ _ Hq)| |by rewrite Hm, Hp|by rewrite Hp].
    intros k o. rewrite Hm. intros [(x & Hx & Hs')|Hr]%W2; [left; by eapply Ha|right]. by apply (ev_retired _ _ Hq).
  - exists []. rewrite app_nil_r. by split.
Qed.

Lemma alerts_step me m d : own_step me d (set_alerts m d).
Proof. apply receipts_step; [reflexivity|eauto|done..]. Qed.

Lemma update_step me key x x' d :
  q_execs (lt_queue d) !! key = Some x -> exec_evolves x x' -> (is_Some (x_applied x) -> is_Some (x_applied x')) -> own_step me d (set_receipt key x' d).
Proof.
  intros Hx He Ha. destruct key as [id a]. apply receipts_step; simpl; [by eapply q_evolves_exec| |done..].
  intros k y Hy Hs. destruct (decide ((id, a) = k)) as [<-|]; [|exists y; by rewrite lookup_insert_ne].
  exists x'. rewrite lookup_insert_eq. split; [done|]. apply Ha. congruence.
Qed.

Lemma insert_step me key j x d :
  q_jobs (lt_queue d) !! key.1 = Some j -> key.2 <= j_attempt j -> q_execs (lt_queue d) !! key = None -> own_step me d (set_receipt key x d).
Proof.
  intros Hj Ha Hn. destruct key as [id a]. apply receipts_step; simpl; [by eapply q_evolves_new_exec| |done..].
  intros k y Hy Hs. exists y. rewrite lookup_insert_ne; [done|]. congruence.
Qed.

(** An attempt whose completion is open has no mark. *)
Lemma open_unmarked d key j :
  lt_wf d -> q_jobs (lt_queue d) !! key.1 = Some j -> (forall x, q_execs (lt_queue d) !! key = Some x -> x_applied x = None) -> lt_marks d !! key = None.
Proof.
  intros W Hj Ha. destruct (lt_marks d !! key) as [o|] eqn:E; [|done]. exfalso.
  apply (lw_marked _ W) in E as [(y & Hy & [t Ht])|Hr]; [apply Ha in Hy; congruence|]. apply (wf_retired _ (lw_queue _ W)) in Hr. congruence.
Qed.

(** The completion is recorded, and the schedule of the job changed with it. *)
Lemma mark_step me key x alerts settings now d :
  q_execs (lt_queue d) !! key = Some x -> lt_marks d !! key = None ->
  own_step me d (set_settings settings (set_mark key me (set_alerts alerts (set_receipt key (set_applied now x) d)))).
Proof.
  intros Hx Hn. set (d' := set_settings _ _).
  assert (q_evolves (lt_queue d) (lt_queue d')) as Hq.
  { destruct key as [id a]. eapply q_evolves_exec; [exact Hx|]. split_and!; simpl; [done|lia|done]. }
  assert (forall k y, q_execs (lt_queue d) !! k = Some y -> is_Some (x_applied y) ->
    exists y', q_execs (lt_queue d') !! k = Some y' /\ is_Some (x_applied y')) as Ha.
  { intros k y Hy Hs. destruct (decide (key = k)) as [<-|]; [|exists y; simpl; by rewrite lookup_insert_ne].
    eexists. simpl. rewrite lookup_insert_eq. by split. }
  split; [|right; exists key; simpl; by rewrite lookup_insert_eq]. split; [|done|intros k y Hy Hs; left; by eapply Ha|..]; simpl.
  - intros [W1 W2 W3 W4]. split; simpl; [by apply (ev_wf _ _ Hq)| | |done].
    + intros k o [[<- <-]|[Hne Ho]]%lookup_insert_Some.
      * left. eexists. rewrite lookup_insert_eq. by split.
      * destruct (W2 k o Ho) as [(y & Hy & Hs)|?]; [left|by right]. exists y. by rewrite lookup_insert_ne.
    + intros k Hk. destruct (W3 k Hk) as [o Ho]. exists o. rewrite lookup_insert_ne; [done|]. congruence.
  - intros k o Ho. rewrite lookup_insert_ne; [done|]. congruence.
  - intros k o [[_ <-]|[_ Ho]]%lookup_insert_Some; [by right|by left].
  - exists []. by rewrite app_nil_r.
Qed.

(** The session posts an attempt it has recorded itself. *)
Lemma alert_post_step me key d : lt_marks d !! key = Some me -> key ∉ lt_posts d -> own_step me d (add_alert_post key d).
Proof.
  intros Hm Hn. split; [|by left]. split; [|reflexivity|eauto|done|by left|].
  - intros [W1 W2 W3 W4]. split; simpl; [done|done| |].
    + intros k [Hk|Hk]%elem_of_app; [by apply W3|]. apply list_elem_of_singleton in Hk as ->. by exists me.
    + apply NoDup_app. split_and!; [done| |apply NoDup_singleton]. intros k Hk E. apply list_elem_of_singleton in E as ->. done.
  - exists [key]. split; [done|]. apply Forall_singleton. eauto.
Qed.

(** *** What stays true while others work *)

Definition mine (me : nat) (key : attempt_key) (d : ltables) : Prop := lt_wf d /\ lt_marks d !! key = Some me /\ key ∉ lt_posts d.
Lemma mine_stable me key d d' : other_sessions me d d' -> mine me key d -> mine me key d'.
Proof.
  intros Ho (W & Hm & Hn). split_and!; [by apply (fb_wf _ _ _ Ho)|by apply (fb_marks _ _ _ Ho)|].
  destruct (fb_posts _ _ _ Ho) as (l & -> & Hl). intros [?|Hk]%elem_of_app; [done|].
  rewrite Forall_forall in Hl. destruct (Hl key Hk) as (o & Hko & Hne). apply (fb_marks _ _ _ Ho) in Hm. congruence.
Qed.

(** ** The transactions *)

Section Transactions.
Context {B : Type} (Q : result lerr B -> ltables -> option ltables -> Prop) (d : ltables).
Hypothesis Hfail : forall e t, Q (Err e) d (Some t).

Lemma twp_lock_worker (k : string * Z * Z -> LM B) t :
  (forall o g p, worker_current o g p (lt_queue t) -> twp (k (o, g, p)) Q d t) -> twp (lockCurrentWorker ≫= k) Q d t.
Proof using Hfail.
  intros Hk. unfold lockCurrentWorker. apply twp_bind. apply twp_exec; [|intros; apply Hfail]. intros lk now. cbn [read].
  destruct (q_status (lt_queue t)) as [[g [o|] [p|] [beat|] []]|] eqn:Hs; try apply twp_raise, Hfail.
  apply twp_exec; [|intros; apply Hfail]. intros lk2 now2. cbn [read]. apply twp_guard; [apply Hfail|]. intros Hst.
  apply twp_exec; [|intros; apply Hfail]. intros lk3 now3. cbn [read]. apply twp_guard; [apply Hfail|]. intros Hp.
  apply twp_ret. exists t. split; [done|]. apply Hk. apply negb_false_iff, bool_decide_eq_true in Hp.
  split; [done|]. exists beat, (pg_time now2). rewrite Hs. unfold status_beat. by rewrite String.eqb_refl, !Z.eqb_refl.
Qed.

Lemma twp_check_lock pid (k : unit -> LM B) t :
  (q_guard_lock (lt_queue t) = Some pid -> twp (k tt) Q d t) -> twp (checkExecutionLock pid ≫= k) Q d t.
Proof using Hfail.
  intros Hk. unfold checkExecutionLock. apply twp_bind. apply twp_exec; [|intros; apply Hfail]. intros lk now. cbn [read].
  apply twp_ret_id, twp_guard; [apply Hfail|]. intros Hp. apply twp_ret. exists t. split; [done|]. apply Hk.
  by apply negb_false_iff, bool_decide_eq_true in Hp.
Qed.

(** The schedule is changed, or left alone. *)
Lemma twp_apply_completion id created state result (k : unit -> LM B) t :
  (forall m, twp (k tt) Q d (set_settings m t)) -> twp (applyScheduleCompletion id created state result ≫= k) Q d t.
Proof using Hfail.
  intros Hk. assert (twp (k tt) Q d t) as Hsame by (specialize (Hk (lt_settings t)); by destruct t).
  unfold applyScheduleCompletion. apply twp_bind. apply twp_exec; [|intros; apply Hfail]. intros lk now. cbn [read].
  destruct (lt_settings t !! id) as [r|] eqn:Hr; [|apply twp_ret; by exists t].
  destruct (ss_running r) as [running|], (ss_enabled r) as [enabled|]; try apply twp_raise, Hfail.
  destruct (negb running); [apply twp_ret; by exists t|]. destruct (match ss_updated r with Some _ => _ | None => _ end); [apply twp_ret; by exists t|].
  cbv zeta. set (upd := fun next : option Z => exec _ _).
  assert (forall next, twp (upd next) (fun r db' tx' => match r with Ok a => exists t', tx' = Some t' /\ twp (k a) Q db' t' | Err e => Q (Err e) db' tx' end) d t)
    as Hupd.
  { intros next. apply twp_ret_id. apply twp_exec; [|intros; apply Hfail]. intros lk2 now2. unfold update_setting. rewrite Hr.
    apply twp_ret. eexists. split; [done|]. apply Hk. }
  assert (forall dl, twp ((now ← app_now; mret (Some (now + dl))) ≫= upd) (fun r db' tx' => match r with Ok a => exists t', tx' = Some t' /\ twp (k a) Q db' t' | Err e => Q (Err e) db' tx' end) d t)
    as Hlater.
  { intros dl. apply twp_bind. apply twp_app_now. intros n. apply twp_ret. exists t. split; [done|]. apply Hupd. }
  assert (twp (mret None ≫= upd) (fun r db' tx' => match r with Ok a => exists t', tx' = Some t' /\ twp (k a) Q db' t' | Err e => Q (Err e) db' tx' end) d t)
    as Hnone by (apply twp_bind, twp_ret; exists t; by split).
  destruct enabled; [|exact Hnone]. destruct (_ =? "deferred")%string; [apply Hlater|]. destruct (_ =? "failed")%string; [apply Hlater|exact Hnone].
Qed.
End Transactions.

(** The receipt shows that the attempt has ended and that its completion was applied. *)
Definition recorded (key : attempt_key) (d : ltables) : Prop :=
  (exists x, q_execs (lt_queue d) !! key = Some x /\ xterminal (x_state x) = true /\ is_Some (x_applied x)) \/ key.1 ∈ q_retired (lt_queue d).

Lemma ended_terminal j : jterminal (j_state j) = true -> xterminal (WorkerStore.xstate_of (j_state j)) = true.
Proof. by destruct (j_state j). Qed.

Lemma close_receipt_evolves j x :
  jterminal (j_state j) = true -> xterminal (x_state x) = false -> exec_evolves x (close_receipt_as j x).
Proof.
  intros Hj Hx. split_and!; [done| |congruence]. simpl. destruct (j_state j), (x_state x); simpl in *; try done; lia.
Qed.

Section Completing.
Context (sha256 : list Z -> list Z).

Lemma twp_sync {B} me instance key j start (Q : result lerr B -> ltables -> option ltables -> Prop) (k : option Z * option string -> LM B) d :
  (forall e t, Q (Err e) d (Some t)) ->
  q_jobs (lt_queue d) !! key.1 = Some j -> j_attempt j = key.2 -> jterminal (j_state j) = true ->
  (forall x alert t, own_step me d t -> q_jobs (lt_queue t) !! key.1 = Some j -> q_execs (lt_queue t) !! key = Some x ->
     xterminal (x_state x) = true -> lt_marks t = lt_marks d -> lt_posts t = lt_posts d -> twp (k (x_applied x, alert)) Q d t) ->
  twp (sync_receipt sha256 instance key j start ≫= k) Q d d.
Proof.
  intros Hfail Hj Ha Ht Hk. unfold sync_receipt. apply twp_bind. apply twp_exec; [|intros; apply Hfail]. intros lk now. cbn [read].
  destruct (q_execs (lt_queue d) !! key) as [x|] eqn:Hx; cbn [fmap option_fmap option_map].
  - destruct (xterminal (x_state x)) eqn:Hxt.
    + apply twp_bind, twp_ret. exists d. split; [done|]. apply twp_ret. exists d. split; [done|]. by apply Hk.
    + apply twp_exec; [|intros; apply Hfail]. intros lk2 now2. unfold update_receipt. rewrite Hx. apply twp_ret. eexists. split; [done|].
      apply (Hk (close_receipt_as j x)); simpl; [|done|by rewrite lookup_insert_eq|by apply ended_terminal|done..].
      eapply update_step; [exact Hx|by apply close_receipt_evolves|done].
  - apply twp_exec; [|intros; apply Hfail]. intros lk2 now2. unfold insert_recovered. rewrite Hx. apply twp_ret. eexists. split; [done|].
    apply (Hk (recovered_receipt sha256 instance key j start)); simpl; [|done|by rewrite lookup_insert_eq|by apply ended_terminal|done..].
    etrans; [eapply insert_step; [exact Hj|lia|exact Hx]|apply alerts_step].
Qed.

Lemma complete_spec me pid instance key d :
  lt_wf d ->
  twp (complete_body sha256 me pid instance key)
    (fun r d' _ => own_step me d d' /\ forall c, r = Ok c -> (cp_first c = true -> mine me key d') /\ recorded key d') d d.
Proof.
  intros W. unfold complete_body. set (Q := fun r d' _ => _).
  assert (forall e t, Q (Err e) d (Some t)) as Hfail by (by split).
  apply twp_tx_clock. intros start. apply twp_lock_worker; [exact Hfail|]. intros o g p _. apply twp_check_lock; [exact Hfail|]. intros _.
  apply twp_exec; [|done]. intros lk now. cbn [read]. destruct (ended_job key.2 _) as [j|] eqn:Hj; [|by apply twp_raise].
  unfold ended_job in Hj. destruct (q_jobs (lt_queue d) !! key.1) as [j'|] eqn:Hj'; [|done]. cbn [mbind option_bind] in Hj.
  destruct ((j_attempt j' =? key.2) && jterminal (j_state j')) eqn:E; [|done]. injection Hj as ->. apply andb_true_iff in E as [Ea Et]. apply Z.eqb_eq in Ea.
  eapply twp_sync; [exact Hfail|exact Hj'|exact Ea|exact Et|]. intros x alert t Hs Hjt Hx Hxt Hm Hp.
  set (newAlert := if _ || _ then "pending" else "not_needed").
  assert (lt_wf t) as Wt by by apply (fb_wf _ _ _ (proj1 Hs)).
  case_bool_decide as Hap; cbn match.
  - set (body := _ ← exec _ (mark_applied me key newAlert); _).
    assert (forall m, twp body Q d (set_settings m t)) as Hbody.
    { intros m. unfold body. apply twp_exec; [|intros; apply Hfail]. intros lk2 now2. unfold mark_applied. cbn [set_settings lt_queue]. rewrite Hx.
      assert (lt_marks t !! key = None) as Hnone by (eapply open_unmarked; [exact Wt|exact Hjt|]; intros y Hy; congruence).
      set (d' := set_mark _ _ _). assert (own_step me d d') as Hd.
      { etrans; [exact Hs|]. exact (mark_step me key x _ m now2 t Hx Hnone). }
      assert (mine me key d') as Hmine.
      { split_and!; [by apply (fb_wf _ _ _ (proj1 Hd))|simpl; by rewrite lookup_insert_eq|]. simpl. intros Hin. apply (lw_posted _ Wt) in Hin as [? Hin]. congruence. }
      assert (recorded key d') as Hrec by (left; eexists; simpl; rewrite lookup_insert_eq; by repeat split).
      by apply twp_commit. }
    destruct (Pipeline.positiveInt _) as [id|].
    + by apply twp_apply_completion.
    + apply twp_bind, twp_ret. exists t. split; [done|]. specialize (Hbody (lt_settings t)). by destruct t.
  - assert (twp (_ ← commit (LFailed "legacy completion commit failed"); mret (MkCompletion o g p false newAlert alert)) Q d t) as Hend.
    { apply twp_commit; split; try done. intros c [= <-]. split; [done|]. left. exists x. split_and!; [done|done|]. by apply not_eq_None_Some. }
    destruct (Pipeline.positiveInt _) as [id|]; (apply twp_bind, twp_ret; exists t; split; [done|]; apply twp_bind, twp_ret; exists t; by split).
Qed.
End Completing.

Lemma recorded_by who key d d' : finalized_by who d d' -> recorded key d -> recorded key d'.
Proof.
  intros Hb [(x & Hx & Ht & Ha)|Hr]; [|right; by apply (ev_retired _ _ (fb_queue _ _ _ Hb))].
  destruct (fb_applied _ _ _ Hb _ _ Hx Ha) as [(x' & Hx' & Ha')|?]; [|by right]. destruct key as [id a].
  destruct (ev_execs _ _ (fb_queue _ _ _ Hb) _ _ _ Hx) as [(y & Hy & _ & _ & He)|Hr]; [left|by right].
  assert (y = x') as -> by congruence. destruct (He Ht) as (Hst & _). exists x'. split_and!; [done| |done]. by rewrite Hst.
Qed.

(** ** Sessions *)

Section Sessions.
Context (sha256 : list Z -> list Z) (network : Z -> option Outbound.response) (me : nat).
Notation session m Q d := (rgwp (other_sessions me) (own_step me) m Q d).

(** A finished job whose completion is recorded, as far as this session knows *)
Definition settled (key : attempt_key) (d : ltables) : Prop := lt_wf d /\ recorded key d.
Lemma settled_by who key d d' : finalized_by who d d' -> settled key d -> settled key d'.
Proof. intros Hb [W Hr]. split; [by apply (fb_wf _ _ _ Hb)|by eapply recorded_by]. Qed.

Lemma rg_settled {A} key (m : LM A) d (Q : result lerr A -> ltables -> Prop) :
  settled key d -> session m (fun _ _ => True) d -> (forall r d', settled key d' -> Q r d') -> session m Q d.
Proof.
  intros Hs Hm HQ. eapply rg_mono; [apply (rg_stable _ _ m (fun _ _ => True) (settled key)); [..|exact Hs|exact Hm]|].
  - intros a b Hab. by eapply settled_by.
  - intros a b [Hab _]. by eapply settled_by.
  - intros r d' [Hd _]. by apply HQ.
Qed.

Lemma rg_mark_unknown pid key d : session (markAlertUnknown pid key) (fun _ _ => True) d.
Proof.
  unfold markAlertUnknown. apply rg_bind, rg_try.
  eapply (rg_mono _ _ _ (fun _ _ => True)); [|intros r d' _; by apply rg_ret].
  apply rg_with_tx; [apply _|apply _|]. intros d1 _. split; [|done]. unfold unknown_body.
  assert (forall (e : lerr) (t : ltables), own_step me d1 d1 /\ True) as Hf by (split; [reflexivity|done]).
  apply twp_lock_worker; [exact Hf|]. intros o g p _. apply twp_check_lock; [exact Hf|]. intros _.
  apply twp_exec; [|done]. intros lk now. unfold give_up_alert, write.
  assert (own_step me d1 (if alert_open d1 key then set_alerts (<[key := "unknown"]> (lt_alerts d1)) d1 else d1)) as Hs
    by (destruct (alert_open d1 key); [apply alerts_step|reflexivity]).
  apply twp_commit; split; done || reflexivity.
Qed.

Lemma rg_read_alert pid key d : session (readAlertState pid key) (fun r _ => forall s, r = Ok s -> validAlertState s = true) d.
Proof.
  unfold readAlertState. apply rg_with_tx; [apply _|apply _|]. intros d1 _. split; [|done]. unfold read_alert_body.
  set (Q := fun r d' _ => _). assert (forall e t, Q (Err e) d1 (Some t)) as Hf by (split; [reflexivity|done]).
  apply twp_lock_worker; [exact Hf|]. intros o g p _. apply twp_check_lock; [exact Hf|]. intros _.
  apply twp_exec; [|intros; apply Hf]. intros lk now. cbn [read]. destruct (applied_alert key d1) as [s|]; [|apply twp_raise, Hf].
  apply twp_guard; [apply Hf|]. intros Hv%negb_false_iff. apply twp_commit; (split; [reflexivity|]); [by intros s' [= <-]|done..].
Qed.

Lemma rg_notify key body d (Q : result lerr (option string) -> ltables -> Prop) :
  mine me key d -> recorded key d -> (forall a d', settled key d' -> Q (Ok a) d') -> session (notifyFinalized network key body) Q d.
Proof.
  intros Hm Hr HQ w <- Ht Hrel. unfold notifyFinalized. destruct (4096 <? _).
  - split_and!; [apply rtc_refl|apply HQ; by split; [apply Hm|]|done|apply later_refl].
  - destruct (next_event w) as [ev w1] eqn:Hn. pose proof (attributed_next (own_step me) _ _ _ Hn Ht) as Ha. pose proof (later_next _ _ _ Hn) as Hl.
    destruct (rely_step (other_sessions me) _ _ _ Hn Ht Hrel) as (HR & Ht1 & _).
    pose proof (mine_stable _ _ _ _ HR Hm) as (W1 & Hk & Hnp). pose proof (alert_post_step me key _ Hk Hnp) as Hs.
    unfold set_cur, cur. rewrite Ht1. simpl. split_and!; [| |done|by eapply later_env].
    + etrans; [exact Ha|]. apply rtc_once. by right.
    + apply HQ. eapply settled_by; [exact (proj1 Hs)|]. split; [done|]. by eapply recorded_by.
Qed.

Lemma rg_send_alert pid instance key c d :
  mine me key d -> recorded key d ->
  session (send_alert network pid instance key c) (fun r d' => settled key d' /\ forall s, r = Ok s -> validAlertState s = true) d.
Proof.
  intros Hm Hr. unfold send_alert. apply rg_bind. apply rg_notify; [done|done|]. intros answer d1 H1. apply rg_bind.
  assert (session (markAlertUnknown pid key) (fun _ => settled key) d1) as Hu by (eapply rg_settled; [done|apply rg_mark_unknown|done]).
  eapply (rg_mono _ _ _ (fun _ => settled key)).
  { destruct answer as [state|]; [|exact Hu]. destruct (state =? "delivered")%string; [|by apply rg_ret].
    apply rg_bind, rg_try. eapply rg_settled; [exact H1|eapply rg_mono; [apply rg_read_alert|done]|]. intros p d2 H2.
    destruct (match p with Ok _ => _ | Err _ => _ end); [by apply rg_ret|]. eapply rg_settled; [done|apply rg_mark_unknown|done]. }
  intros r d2 H2. destruct r as [[]|e]; [|by split]. apply rg_bind, rg_try.
  eapply rg_mono; [apply (rg_stable _ _ _ (fun r _ => forall s, r = Ok s -> validAlertState s = true) (settled key)); [..|exact H2|apply rg_read_alert]|].
  - intros a b Hab. by eapply settled_by.
  - intros a b [Hab _]. by eapply settled_by.
  - intros r d3 [H3 Hv]. destruct r as [s|e]; [apply rg_ret; split; [done|]; intros s' [= <-]; by apply Hv|].
    apply rg_bind. eapply rg_settled; [exact H3|apply rg_mark_unknown|]. intros [[]|e'] d4 H4; [apply rg_ret|]; (split; [done|]); [by intros s [= <-]|done].
Qed.
End Sessions.

Section Finalization.
Context (sha256 : list Z -> list Z) (network : Z -> option Outbound.response).

Definition finalized_response (key : attempt_key) (state : string) : json :=
  JObj [("job_id", JStr key.1); ("attempt_generation", JNum (itoa key.2)); ("legacy_completion_applied", JBool true); ("alert_state", JStr state)].

Lemma Finalize_told me guardPID instance f d :
  let key := (xc_JobID f, xc_AttemptGeneration f) in
  lt_wf d ->
  rgwp (other_sessions me) (own_step me) (Finalize sha256 network me guardPID instance f)
    (fun r d' => lt_wf d' /\ forall out, r = Ok out -> recorded key d' /\ exists state, out = finalized_response key state) d.
Proof.
  intros key W. unfold Finalize. destruct guardPID as [pid|]; [|by apply rg_raise].
  apply rg_guard; [done|]. intros _. apply rg_guard; [done|]. intros _. fold key. apply rg_bind.
  eapply (rg_mono _ _ _ (fun r d' => lt_wf d' /\ forall c, r = Ok c -> (cp_first c = true -> mine me key d') /\ recorded key d')).
  { apply rg_with_tx; [apply _|apply _|]. intros d1 HR. assert (lt_wf d1) as W1 by by apply (fb_wf _ _ _ HR). split; [|done].
    eapply twp_mono; [by apply complete_spec|]. intros r d' _ [Hs Ht]. split; [done|]. split; [by apply (fb_wf _ _ _ (proj1 Hs))|done]. }
  intros [c|e] d1 [W1 Ht]; [|done]. destruct (Ht c eq_refl) as [Hm Hr]. apply rg_bind.
  destruct (cp_first c) eqn:Hf; cbn [andb].
  - destruct (cp_new_alert c =? "pending")%string.
    + eapply rg_mono; [by apply rg_send_alert; auto|]. intros [s|e] d2 [[W2 H2] _]; [|done]. apply rg_ret. split; [done|]. intros out [= <-]. eauto.
    + apply rg_ret, rg_ret. split; [done|]. intros out [= <-]. eauto.
  - apply rg_ret, rg_ret. split; [done|]. intros out [= <-]. eauto.
Qed.

(** One finalization, whatever fails and whoever else works: everything it changes
    is its own step, on which the others may rely, so it touches a schedule only
    with a completion nobody recorded before; and what it answers is true. *)
Theorem Finalize_truthful me guardPID instance f w :
  let key := (xc_JobID f, xc_AttemptGeneration f) in
  lt_wf (w_db w) -> w_tx w = None -> rely (other_sessions me) (w_env w) ->
  let '(r, w') := Finalize sha256 network me guardPID instance f w in
  attributed (own_step me) (w_env w) (w_db w) (w_db w') /\
  (forall o a b, o <> me -> own_step me a b -> other_sessions o a b) /\
  (forall out, r = Ok out -> recorded key (w_db w') /\ exists state, out = finalized_response key state).
Proof.
  intros key W Ht Hr. destruct (Finalize_told me guardPID instance f (w_db w) W w eq_refl Ht Hr) as (Ha & [_ HQ] & _).
  destruct (Finalize _ _ _ _ _ _ w) as [r w']. split_and!; [done| |done].
  intros o a b Hne [Hab _]. eapply finalized_by_mono; [|exact Hab]. by intros x <-.
Qed.

(** Tables that finalizations can lead to, each by a session of its own or one that
    has been at work before *)
Inductive finalizations : ltables -> Prop :=
| finalizations_start q alerts settings : q_wf q -> finalizations (LTables q alerts settings ∅ [])
| finalizations_run me guardPID instance f w :
    finalizations (w_db w) -> w_tx w = None -> rely (other_sessions me) (w_env w) ->
    finalizations (w_db (Finalize sha256 network me guardPID instance f w).2).

Lemma finalizations_wf d : finalizations d -> lt_wf d.
Proof.
  induction 1 as [q alerts settings Wq|me guardPID instance f w _ IH Ht Hr].
  - split; [done|..]; simpl; [intros k o; by rewrite lookup_empty|by intros k ?%not_elem_of_nil|apply NoDup_nil_2].
  - destruct (Finalize_told me guardPID instance f (w_db w) IH w eq_refl Ht Hr) as (_ & [? _] & _). done.
Qed.

(** C6: people are alerted once.  After any history of finalizations, repeated,
    concurrent, with failures and lost commits anywhere, the domain service was
    told of each ended attempt at most once, and only of attempts whose
    completion was durably recorded before. *)
Theorem alerts_once d :
  finalizations d ->
  NoDup (lt_posts d) /\
  forall k, k ∈ lt_posts d ->
    (exists x, q_execs (lt_queue d) !! k = Some x /\ is_Some (x_applied x)) \/ k.1 ∈ q_retired (lt_queue d).
Proof.
  intros W%finalizations_wf. split; [apply (lw_once _ W)|]. intros k Hk. destruct (lw_posted _ W k Hk) as [o Ho]. by apply (lw_marked _ W k o).
Qed.
End Finalization.

(** ** Recovery puts every orphan right *)

Section Recovery.
Context (LoadLocation : string -> option GoTime.location).

(** The schedule is marked running, and no job works for it. *)
Definition orphan (d : ltables) (id : Z) (r : setting_row) : bool :=
  bool_decide (ss_running r = Some true) && negb (has_active_job id d).
Definition recovered_row (now : Z) (d : ltables) (id : Z) (r : setting_row) : setting_row :=
  if orphan d id r then match scan_schedule id r with Some s => recover_setting LoadLocation s now r | None => r end else r.
(** The schedules after a recovery *)
Definition recovered_settings (now : Z) (d : ltables) : gmap Z setting_row := map_imap (fun id r => Some (recovered_row now d id r)) (lt_settings d).
Definition orphans (d : ltables) : list Z := (filter (fun kv => orphan d kv.1 kv.2) (map_to_list (lt_settings d))).*1.

Definition recover_step (now : Z) (d : ltables) (m : gmap Z setting_row) (s : schedule) : gmap Z setting_row :=
  if has_active_job (sd_id s) d then m else alter (recover_setting LoadLocation s now) (sd_id s) m.

Lemma recover_steps_other now d l m id : id ∉ map sd_id l -> foldl (recover_step now d) m l !! id = m !! id.
Proof.
  revert m. induction l as [|s l IH]; intros m Hid; [done|]. simpl in *. apply not_elem_of_cons in Hid as [Hne Hid]. rewrite IH by done.
  unfold recover_step. destruct (has_active_job _ _); [done|]. by rewrite lookup_alter_ne.
Qed.
Lemma recover_steps_in now d l m s : s ∈ l -> NoDup (map sd_id l) ->
  foldl (recover_step now d) m l !! sd_id s =
  if has_active_job (sd_id s) d then m !! sd_id s else recover_setting LoadLocation s now <$> m !! sd_id s.
Proof.
  intros Hs Hn. revert m. induction l as [|x l IH]; intros m; [by apply not_elem_of_nil in Hs|]. simpl in *. apply NoDup_cons in Hn as [Hx Hn].
  apply elem_of_cons in Hs as [->|Hs].
  - rewrite recover_steps_other by done. unfold recover_step. destruct (has_active_job _ _); [done|]. by rewrite lookup_alter_eq.
  - rewrite IH by done. assert (sd_id x <> sd_id s) as Hne by (intros E; apply Hx; rewrite E; by apply list_elem_of_fmap_2).
    unfold recover_step. destruct (has_active_job (sd_id x) d); [done|]. by rewrite lookup_alter_ne.
Qed.

Lemma scan_schedule_id id r s : scan_schedule id r = Some s -> sd_id s = id.
Proof.
  unfold scan_schedule. destruct (ss_enabled r), (ss_type r), (ss_hour r), (ss_minute r), (ss_timezone r); cbn; by intros [= <-].
Qed.

Lemma running_settings_in d id r : (id, r) ∈ running_settings d <-> lt_settings d !! id = Some r /\ ss_running r = Some true.
Proof. unfold running_settings. rewrite list_elem_of_filter, elem_of_map_to_list. simpl. tauto. Qed.

Lemma scanned_ids rows all : Forall2 (fun kv s => scan_schedule kv.1 kv.2 = Some s) rows all -> map sd_id all = rows.*1.
Proof. induction 1 as [|[id r] s rows all H _ IH]; [done|]. simpl in *. by rewrite (scan_schedule_id _ _ _ H), IH. Qed.

Lemma recovered_all now d all :
  mapM (fun kv => scan_schedule kv.1 kv.2) (running_settings d) = Some all ->
  foldl (recover_step now d) (lt_settings d) all = recovered_settings now d.
Proof.
  intros Hall%mapM_Some. pose proof (scanned_ids _ _ Hall) as Hids.
  assert (NoDup (map sd_id all)) as Hn.
  { rewrite Hids. eapply sublist_NoDup; [apply (NoDup_fst_map_to_list (lt_settings d))|]. apply fmap_sublist, sublist_filter. }
  apply map_eq. intros id. unfold recovered_settings. rewrite map_lookup_imap. destruct (lt_settings d !! id) as [r|] eqn:Hr; cbn [mbind option_bind].
  - unfold recovered_row, orphan. case_bool_decide as Hrun; cbn [andb].
    + assert ((id, r) ∈ running_settings d) as Hin by by apply running_settings_in.
      apply list_elem_of_lookup in Hin as [i Hi]. destruct (Forall2_lookup_l _ _ _ _ _ Hall Hi) as (s & Hs%list_elem_of_lookup_2 & Hss).
      simpl in Hss. rewrite Hss.
      pose proof (scan_schedule_id _ _ _ Hss) as <-. rewrite (recover_steps_in now d all _ s) by done. rewrite Hr.
      by destruct (has_active_job (sd_id s) d).
    + rewrite recover_steps_other; [done|]. rewrite Hids. intros ((id' & r') & -> & Hin)%list_elem_of_fmap. simpl in Hr.
      apply running_settings_in in Hin as [? ?]. congruence.
  - rewrite recover_steps_other; [done|]. rewrite Hids. intros ((id' & r') & -> & Hin)%list_elem_of_fmap. simpl in Hr.
    apply running_settings_in in Hin as [? ?]. congruence.
Qed.

Lemma reconciled_count d all :
  mapM (fun kv => scan_schedule kv.1 kv.2) (running_settings d) = Some all ->
  length (filter Is_true (map (fun s => negb (has_active_job (sd_id s) d)) all)) = length (orphans d).
Proof.
  intros Hall%mapM_Some. unfold orphans. rewrite length_fmap. unfold running_settings in Hall.
  revert all Hall. induction (map_to_list (lt_settings d)) as [|[id r] l IH]; intros all Hall.
  - apply Forall2_nil_inv_l in Hall as ->. done.
  - rewrite filter_cons in Hall. rewrite filter_cons. cbn [fst snd] in *.
    destruct (decide (orphan d id r)) as [Ho|Ho]; unfold orphan in Ho; destruct (decide (ss_running r = Some true)) as [Hrun|Hrun];
      case_bool_decide; try done; cbn [andb] in Ho; try (by apply IH);
      apply Forall2_cons_inv_l in Hall as (s & all' & Hs & Hall & ->); cbn [map fst snd] in *; rewrite filter_cons, (scan_schedule_id _ _ _ Hs).
    + rewrite decide_True by done. simpl. f_equal. by apply IH.
    + rewrite decide_False by done. by apply IH.
Qed.

(** What recovery makes of the tables [d] that it found *)
Definition recovery_effect (owner : string) (generation pid : Z) (guardPID : option Z) (r : result lerr Z) (d d' : ltables) : Prop :=
  d' = d /\ (exists e, r = Err e) \/
  exists now, d' = set_settings (recovered_settings now d) d /\ worker_current owner generation pid (lt_queue d) /\ q_guard_lock (lt_queue d) = guardPID /\
    (forall id r, lt_settings d !! id = Some r -> ss_running r = Some true -> is_Some (scan_schedule id r)) /\ ((exists e, r = Err e) \/ r = Ok (Z.of_nat (length (orphans d)))).

Lemma update_setting_alter id f lk now d :
  update_setting id f lk now d = (Ok tt, set_settings (alter (f now) id (lt_settings d)) d).
Proof.
  unfold update_setting. destruct (lt_settings d !! id) as [r|] eqn:Hr.
  - replace (alter (f now) id (lt_settings d)) with (<[id := f now r]> (lt_settings d)); [done|]. apply map_eq. intros k.
    destruct (decide (id = k)) as [<-|]; [by rewrite lookup_insert_eq, lookup_alter_eq, Hr|by rewrite lookup_insert_ne, lookup_alter_ne].
  - replace (alter (f now) id (lt_settings d)) with (lt_settings d); [by destruct d|]. apply map_eq. intros k.
    destruct (decide (id = k)) as [<-|]; [by rewrite lookup_alter_eq, Hr|by rewrite lookup_alter_ne].
Qed.

Lemma recover_spec guardPID owner generation pid d :
  twp (recover_body LoadLocation guardPID owner generation pid)
    (fun r d' _ => recovery_effect owner generation pid (Some guardPID) r d d') d d.
Proof.
  unfold recover_body. set (Q := fun r d' _ => _).
  assert (forall e t, Q (Err e) d (Some t)) as Hf by (intros e t; left; split; [done|by eexists]).
  apply twp_lock_worker; [exact Hf|]. intros o g p Hw. apply twp_guard; [apply Hf|]. intros Hcur%negb_false_iff.
  apply andb_true_iff in Hcur as [[Ho%String.eqb_eq Hg%Z.eqb_eq]%andb_true_iff Hp%Z.eqb_eq]. subst o g p.
  apply twp_check_lock; [exact Hf|]. intros Hlock. apply twp_exec; [|intros; apply Hf]. intros lk0 now0. cbn [read].
  destruct (mapM _ (running_settings d)) as [all|] eqn:Hall; [|apply twp_raise, Hf]. apply twp_app_now. intros now.
  apply (twp_map_each (fun rest done t => exists pre, all = pre ++ rest /\ done = map (fun s => negb (has_active_job (sd_id s) d)) pre /\
    t = set_settings (foldl (recover_step now d) (lt_settings d) pre) d)).
  - intros s rest done t (pre & -> & -> & ->). unfold recover_one. apply twp_exec; [|intros; apply Hf]. intros lk now'. cbn [read].
    change (has_active_job (sd_id s) (set_settings _ d)) with (has_active_job (sd_id s) d). destruct (has_active_job (sd_id s) d) eqn:Ha.
    + apply twp_ret. split; [done|]. eexists. split; [done|]. exists (pre ++ [s]). rewrite map_app, foldl_app. simpl.
      rewrite Ha. split_and!; [by rewrite <- app_assoc|done|]. f_equal. unfold recover_step at 2. by rewrite Ha.
    + apply twp_exec; [|intros; apply Hf]. intros lk2 now2. rewrite update_setting_alter.
      apply twp_ret. split; [done|]. eexists. split; [done|]. exists (pre ++ [s]). rewrite map_app, foldl_app. simpl.
      rewrite Ha. split_and!; [by rewrite <- app_assoc|done|].
      set (m := foldl _ _ pre). unfold recover_step. by rewrite Ha.
  - exists []. split_and!; [done|done|]. by destruct d.
  - intros bs t (pre & -> & -> & ->). rewrite app_nil_r in *.
    assert (forall id r, lt_settings d !! id = Some r -> ss_running r = Some true -> is_Some (scan_schedule id r)) as Hscan.
    { intros id r Hr Hrun. assert ((id, r) ∈ running_settings d) as Hin by by apply running_settings_in.
      apply mapM_Some in Hall. apply list_elem_of_lookup in Hin as [i Hi]. destruct (Forall2_lookup_l _ _ _ _ _ Hall Hi) as (s & _ & Hs). by exists s. }
    rewrite (recovered_all now d pre Hall).
    assert (forall r, (exists e, r = Err e) \/ r = Ok (Z.of_nat (length (orphans d))) -> Q r (set_settings (recovered_settings now d) d) None) as Hdone
      by (intros r Hr; right; exists now; by split_and!).
    rewrite (reconciled_count d pre Hall). apply twp_commit; [apply Hdone; by right|apply Hdone; left; by eexists|left; split; [done|by eexists]].
Qed.

(** C23: recovery is exact.  Whatever fails, it changes nothing or puts exactly the
    orphans right: each schedule that is marked running while no job works for it
    is stopped, as interrupted or, when its task may have delivered, as of unknown
    delivery, with its next run; all other schedules and all other tables stay.
    It acts only for the worker it names, under that worker's lease and the
    executor's guard, and its answer counts the orphans; after it none is left. *)
Theorem Recover_exact guardPID owner generation pid w :
  w_tx w = None ->
  let '(r, w') := Recover LoadLocation guardPID owner generation pid w in
  let d := found w in
  (w_db w' = w_db w \/ w_db w' = d \/ exists now, w_db w' = set_settings (recovered_settings now d) d /\
     worker_current owner generation pid (lt_queue d) /\ q_guard_lock (lt_queue d) = guardPID) /\
  (forall out, r = Ok out ->
     out = JObj [("event", JStr "recovered"); ("schedules_reconciled", JNum (itoa (Z.of_nat (length (orphans d)))))] /\
     exists now, w_db w' = set_settings (recovered_settings now d) d /\ forall id r, lt_settings (w_db w') !! id = Some r -> orphan (w_db w') id r = false).
Proof.
  intros Ht. unfold Recover. destruct guardPID as [g|]; [|split; [by left|done]]. unfold mbind at 1, M_bind at 1, guard_m.
  destruct (g <? 1); [split; [by left|done]|]. cbn [mret M_ret].
  pose proof (with_tx_spec (LFailed "recovery transaction unavailable") (recover_body LoadLocation g owner generation pid)
    (fun r d' => recovery_effect owner generation pid (Some g) r (found w) d') w Ht) as Hspec.
  unfold mbind, M_bind. destruct (with_tx _ _ w) as [r w']. cbn [fst snd] in Hspec.
  assert (recovery_effect owner generation pid (Some g) r (found w) (w_db w')) as [[Hd [e ->]]|(now & Hd & Hw & Hg & Hscan & Hr)].
  { apply Hspec; [left; split; [done|by eexists]|apply recover_spec]. }
  - split; [right; by left|done].
  - destruct Hr as [[e ->]| ->]; (split; [right; right; by exists now|]); [done|]. intros out [= <-]. split; [done|]. exists now. split; [done|].
    intros id r. rewrite Hd. cbn [set_settings lt_settings]. unfold recovered_settings. rewrite map_lookup_imap.
    destruct (lt_settings (found w) !! id) as [r0|] eqn:Hr0; [|done]. cbn [mbind option_bind]. intros [= <-]. unfold recovered_row.
    unfold orphan at 1. change (has_active_job id (set_settings _ (found w))) with (has_active_job id (found w)).
    unfold orphan. destruct (has_active_job id (found w)); cbn [negb]; [by rewrite andb_false_r|]. rewrite !andb_true_r.
    destruct (bool_decide (ss_running r0 = Some true)) eqn:Hrun; [|done]. apply bool_decide_eq_true in Hrun.
    destruct (Hscan id r0 Hr0 Hrun) as [s ->]. unfold recover_setting. by destruct (recovered_as _ s now) as [[state msg] next].
Qed.
End Recovery.

(** ** The next occurrence lies ahead *)

Section FixedOffset.
Context (off : Z).
Notation loc := (FixedZone off).

(** The midnights around an instant *)
Lemma local_day_fixed t : local_day loc t * Day <= t + off * Second < (local_day loc t + 1) * Day.
Proof. unfold local_day. rewrite wall_ns_fixed. generalize (t + off * Second). intros w. units. dlia. Qed.
Lemma Date_local t h m : Date loc (local_date loc t) h m 0 0 = (local_day loc t * 86400 + h * 3600 + m * 60 - off) * Second.
Proof. rewrite Date_fixed. unfold local_date. rewrite days_civil_days. lia. Qed.
Lemma AddDays_fixed t k : AddDays loc t k = t + k * Day.
Proof.
  unfold AddDays. rewrite Date_fixed, days_from_civil_add. unfold local_date. rewrite days_civil_days.
  pose proof (wall_fields loc t) as H. rewrite wall_ns_fixed in H. units. lia.
Qed.

Lemma to_weekday_later n hourly minute weekdays t0 candidate :
  0 <= minute -> t0 < candidate -> t0 < to_weekday n hourly minute weekdays loc candidate.
Proof.
  intros Hm. revert candidate. induction n as [|n IH]; intros c Hc; simpl; [done|]. case_bool_decide; [done|]. apply IH.
  rewrite AddDays_fixed. destruct hourly; [|units; lia]. rewrite Date_local.
  pose proof (local_day_fixed (c + 1 * Day)). units. lia.
Qed.

Lemma next_on_clock_later hourly hour minute weekdays now :
  0 <= hour -> 0 <= minute -> now < next_on_clock hourly hour minute weekdays loc now.
Proof.
  intros Hh0 Hm. unfold next_on_clock. set (a := Date _ _ _ _ _ _). set (c := if now <? a then a else _).
  assert (now < c) as Hc.
  { unfold c. destruct (now <? a) eqn:E; bool_to_prop; [done|]. unfold a in *. clear c. rewrite Date_local in *. destruct hourly.
    - pose proof (wall_fields loc now) as Hw. rewrite wall_ns_fixed in Hw.
      assert (local_minute loc now * Minute + local_second loc now * Second + local_nano loc now < Hour) as Hh.
      { unfold local_minute, local_second, local_nano. generalize (wall_ns loc now). intros w. units. dlia. }
      units. lia.
    - rewrite AddDays_fixed. pose proof (local_day_fixed now). units. lia. }
  case_bool_decide; [done|by apply to_weekday_later].
Qed.
End FixedOffset.

(** In a zone of one offset the next occurrence is later than now, whatever the
    row of the schedule holds. *)
Lemma nextOccurrence_later LoadLocation typ hour minute weekdays tz cfg now :
  (forall loc, LoadLocation tz = Some loc -> exists off, loc = FixedZone off) ->
  now < nextOccurrence LoadLocation typ hour minute weekdays tz cfg now.
Proof.
  intros Hfixed. unfold nextOccurrence. destruct (LoadLocation tz) as [loc|] eqn:Hl; [|units; lia].
  destruct (Hfixed loc eq_refl) as [off ->]. destruct (negb (tzToken tz)); [units; lia|]. destruct (typ =? "interval")%string.
  - unfold interval_minutes. destruct (Pipeline.positiveInt _) as [n|] eqn:En; simpl; [|units; lia].
    unfold Pipeline.positiveInt in En. destruct (nonnegativeInt _) as [m|]; [|done]. cbn [mbind option_bind] in En.
    destruct (0 <? m) eqn:E; [|done]. injection En as <-. bool_to_prop. units. lia.
  - destruct (negb (bool_decide _)); [units; lia|]. destruct (_ || _) eqn:E; [units; lia|]. bool_to_prop. apply next_on_clock_later; lia.
Qed.

(** ** A digest that has ended *)

Module FinalizerSample.

(** The sample job has ended and belongs to a schedule that runs; the domain
    service answers that people have been told. *)
Definition payload : json := JObj [("schedule_id", JNum "42")].
Definition ended : job_row :=
  JobRow "telegram_digest" payload (Some (JObj [("status", JStr "success")])) 1 Succeeded (Some 3) 1 ExecSample.now (Some ExecSample.now)
    (Some ExecSample.now) None None None None.
Definition key : attempt_key := ("j", 1).
Definition receipt : exec_row :=
  ExecRow "d" ExecSample.instance (Some ExecSample.owner) (Some 3) (Some (ExecSample.now + 600 * Second)) XSucceeded ExecSample.now (Some ExecSample.now)
    (Some ExecSample.now) (Some (JObj [("status", JStr "success")])) None None.
Definition queue : qtables :=
  QTables {[ "j" := ended ]} (Some (StatusRow 3 (Some ExecSample.owner) (Some 5) (Some ExecSample.now) true)) {[ key := receipt ]} (Some 5) (Some 7) ∅ ∅.
Definition setting : setting_row :=
  SettingRow "telegram_digest" (Some true) (Some "daily") (Some 9) (Some 30) None (Some "UTC") None (Some true) None (Some ExecSample.now) None None None None None.
Definition tables : ltables := LTables queue ∅ {[ 42 := setting ]} ∅ [].
Definition context : ExecutionContext :=
  ExecStore.MkContext "j" 1 ExecSample.owner 3 5 ExecSample.instance (canonicalDeadline (ExecSample.now + 600 * Second)) 7.
Definition told : json :=
  JObj [("job_id", JStr "j"); ("attempt_generation", JNum "1"); ("legacy_completion_applied", JBool true); ("alert_state", JStr "delivered")].
Definition network : Z -> option Outbound.response := fun _ => Some (MkResponse 200 "" (HttpBody false 100 (lex_of told) AtEof) 0).
Definition finalize (w : world ltables) : result lerr json * world ltables :=
  Finalize StoreSample.sum32 network 1 (Some 7) ExecSample.instance context w.
Definition world0 : world ltables := World tables None ExecSample.now [].
(** Finalized, and once more *)
Definition world1 : world ltables := (finalize world0).2.
Definition world2 : world ltables := (finalize world1).2.

Lemma queue_wf : q_wf queue.
Proof.
  split; simpl.
  - intros a b ja jb [<- _]%lookup_singleton_Some [<- _]%lookup_singleton_Some. done.
  - intros id j [_ <-]%lookup_singleton_Some. by split.
  - intros id a x [[= <- <-] _]%lookup_singleton_Some. exists ended. by rewrite lookup_singleton_eq.
  - intros id Hid. by apply elem_of_empty in Hid.
Qed.
End FinalizerSample.

(** The first finalization posts once, the second one not at all; nobody wrote
    down the alert, so it is unknown. *)
Lemma alerts_once_witness :
  lt_posts (w_db FinalizerSample.world2) = [FinalizerSample.key] /\
  (FinalizerSample.finalize FinalizerSample.world0).1 = Ok (finalized_response FinalizerSample.key "unknown") /\
  (ss_status <$> lt_settings (w_db FinalizerSample.world1) !! 42) = Some (Some "success") /\
  NoDup (lt_posts (w_db FinalizerSample.world2)).
Proof.
  split; [by_eval|]. split; [by_eval|]. split; [by_eval|].
  apply (alerts_once StoreSample.sum32 FinalizerSample.network).
  apply finalizations_run; [|by_eval|constructor]. apply finalizations_run; [|by_eval|constructor].
  apply finalizations_start, FinalizerSample.queue_wf.
Defined.

(** A worker starts while a schedule is marked running for which no job is left. *)
Lemma Recover_exact_witness :
  let w := FinalizerSample.world0 in
  let zones : string -> option GoTime.location := fun _ => Some UTC in
  exists now, w_db (Recover zones (Some 7) ExecSample.owner 3 5 w).2 = set_settings (recovered_settings zones now (found w)) (found w) /\
  (ss_status <$> lt_settings (w_db (Recover zones (Some 7) ExecSample.owner 3 5 w).2) !! 42) = Some (Some "delivery_unknown").
Proof.
  intros w zones. pose proof (Recover_exact zones (Some 7) ExecSample.owner 3 5 w eq_refl) as H.
  assert ((Recover zones (Some 7) ExecSample.owner 3 5 w).1 = Ok (JObj [("event", JStr "recovered"); ("schedules_reconciled", JNum "1")])) as E by by_eval.
  assert ((ss_status <$> lt_settings (w_db (Recover zones (Some 7) ExecSample.owner 3 5 w).2) !! 42) = Some (Some "delivery_unknown")) as E2 by by_eval.
  destruct (Recover zones (Some 7) ExecSample.owner 3 5 w) as [r w']. cbn [fst snd] in *. destruct H as [_ H].
  destruct (H _ E) as (_ & now & Hd & _). by exists now.
Defined.

(** A receipt that was interrupted stays so when its job has failed for good: the
    domain service, which wants the receipt in the state of the job, refuses
    every alert of such a job. *)
Example interrupted_receipt_kept :
  let failed := QueueTables.set_job Failed (Some 3) 1 None (Some ExecSample.now) (Some "worker_recovery_exhausted") (Some (JObj [])) FinalizerSample.ended in
  let interrupted := QueueTables.set_exec XInterrupted None (Some ExecSample.now) None None FinalizerSample.receipt in
  let d := set_receipt FinalizerSample.key interrupted
             (LTables (QueueTables.set_jobs {[ "j" := failed ]} FinalizerSample.queue) ∅ ∅ ∅ []) in
  let w' := (FinalizerSample.finalize (World d None ExecSample.now [])).2 in
  (lt_posts (w_db w'), x_state <$> q_execs (lt_queue (w_db w')) !! FinalizerSample.key, j_state <$> q_jobs (lt_queue (w_db w')) !! "j") =
  ([FinalizerSample.key], Some XInterrupted, Some Failed).
Proof. by_eval. Qed.
