(* ===== verification/Telegram.v ===== *)
(** * Telegram: go-domain/telegramdelivery and the publication of a digest

    The parts of a digest are delivered at most once each: a part is reserved in
    [digest_delivery_parts] by a committed row before its one POST, and only a
    definite rejection frees it.  The file models the store (postgres.go), the
    delivery (delivery.go), the sender (transport.go) and [publishPrepared] of
    airuntime/digest_execute.go, which uses them.

    State: the queue's tables, the two delivery tables, and [dt_posts], the POSTs
    that have left any process, which no code reads.  [network] gives what one
    Send meets (admission and answer) from the application clock of its event,
    so it is arbitrary at every call. *)

From Stdlib Require Import Floats.SpecFloat.
From S2P Require Import Prelude JsonStrict GoTime Db GoText GoDecode GoParseTime QueueTables ExecPayload ExecStore RelyGuarantee DomainFence.
From S2P Require ExecutorClient.

(** ** Tables *)

(** The columns job_id, attempt_generation and domain_instance_id. *)
Record owner := Owner { ow_job : string; ow_attempt : Z; ow_instance : string }.
#[export] Instance owner_eq_dec : EqDecision owner.
Proof. solve_decision. Defined.

(** digest_delivery_intents; purpose is always 'ru_digest'. *)
Record intent_row := IntentRow {
  it_edition : string;
  it_destination : string;
  it_render : string;
  it_owner : owner;
  it_state : string;
  it_parts_sent : option Z;
  it_rich : option bool;
}.

(** digest_delivery_parts, keyed by intent, method and index *)
Notation part_key := (string * string * Z)%type.
Record part_row := PartRow {
  pt_hash : string;
  pt_owner : owner;
  pt_state : string;
  pt_message : option Z;
  pt_status : option Z;
  pt_retry : option spec_float;
  pt_updated : Z;
}.

(** One POST and the state the sender made of its answer. *)
Record post := Post { po_key : part_key; po_owner : owner; po_state : string }.

Record dtables := DTables {
  dt_queue : qtables;
  dt_intents : gmap string intent_row;
  dt_parts : gmap part_key part_row;
  dt_posts : list post;
}.
#[export] Instance dtables_queue : HasQueue dtables := dt_queue.

Definition set_intents (m : gmap string intent_row) (d : dtables) : dtables := DTables (dt_queue d) m (dt_parts d) (dt_posts d).
Definition set_parts (m : gmap part_key part_row) (d : dtables) : dtables := DTables (dt_queue d) (dt_intents d) m (dt_posts d).
Definition add_post (p : post) (d : dtables) : dtables := DTables (dt_queue d) (dt_intents d) (dt_parts d) (dt_posts d ++ [p]).

(** ** The sender *)

Definition Sent : string := "sent".
Definition Rejected : string := "rejected".
Definition Unknown : string := "unknown".

Record Result := MkResult {
  rs_State : string;
  rs_MessageID : Z;
  rs_StatusCode : Z;
  rs_ErrorCode : Z;
  rs_RetryAfterSeconds : option spec_float;
}.

(** What [url.Parse] finds in the endpoint. *)
Record URL := MkURL { u_Scheme : string; u_Host : string; u_User : bool; u_RawQuery : string; u_Fragment : string }.

(** The endpoint as parsed, and the bot token. *)
Record Transport := MkTransport { tr_endpoint : option URL; tr_Token : string }.

(** An answer: the status, the bounded read of the body, and what strconv.ParseFloat
    makes of the Retry-After header. *)
Record http_answer := HttpAnswer { ha_status : Z; ha_body : http_body; ha_retry_header : option spec_float }.
(** What one call of Send meets: whether the request could be built, whether the
    limiter admitted it, and the answer of [client.Do] ([None] is an error). *)
Record send_world := SendWorld { sw_request : bool; sw_admitted : bool; sw_answer : option http_answer }.

Definition finiteNonnegative (n : spec_float) : bool :=
  match n with S754_zero _ | S754_finite false _ _ => true | _ => false end.

(** A JSON number decoded into a float64. *)
Definition json_float (lit : string) : option spec_float :=
  '(neg, m, e) ← parse_decimal lit;
  match float_of_decimal m e with
  | S754_infinity _ | S754_nan => None
  | x => Some (if neg : bool then SFopp x else x)
  end.

(** The members of the answer the code reads. *)
Record tg_raw := TgRaw { tg_OK : option bool; tg_ErrorCode : Z; tg_MessageID : Z; tg_RetryAfter : option spec_float }.

Definition set_tg_field (f : string) (v : json) (r : tg_raw) : option tg_raw :=
  let 'TgRaw ok code id retry := r in
  if (f =? "ok")%string then
    match v with JNull => Some (TgRaw None code id retry) | JBool b => Some (TgRaw (Some b) code id retry) | _ => None end
  else if (f =? "error_code")%string then x ← ExecutorClient.as_int code v; Some (TgRaw ok x id retry)
  else if (f =? "result")%string then
    x ← unmarshal_struct ["message_id"] (fun _ v old => ExecutorClient.as_int old v) id v; Some (TgRaw ok code x retry)
  else
    x ← unmarshal_struct ["retry_after"] (fun _ v _ =>
          match v with JNull => Some None | JNum lit => Some <$> json_float lit | _ => None end) retry v;
    Some (TgRaw ok code id x).

(** The whole body is one value. *)
Definition unmarshal_tg (b : http_body) : option tg_raw :=
  match decode_next (bd_lexemes b) (bd_ending b) with
  | Ok (j, []) => match bd_ending b with
                  | AtEof => unmarshal_struct ["ok"; "error_code"; "result"; "parameters"] set_tg_field (TgRaw None 0 0 None) j
                  | AtGarbage => None
                  end
  | _ => None
  end.

Definition retry_after (raw : option spec_float) (header : option spec_float) : option spec_float :=
  match (n ← raw; if finiteNonnegative n then Some n else None) with
  | Some n => Some n
  | None => n ← header; if finiteNonnegative n then Some n else None
  end.

(** [Send] from the answer on. *)
Definition read_answer (a : http_answer) : Result :=
  let out := MkResult Unknown 0 (ha_status a) 0 None in
  if bd_failed (ha_body a) || (65536 <? bd_length (ha_body a)) then out
  else
    match unmarshal_tg (ha_body a) with
    | Some raw =>
        match tg_OK raw with
        | None => out
        | Some ok =>
            if (ha_status a =? 200) && ok then MkResult Sent (tg_MessageID raw) (ha_status a) 0 None
            else if (400 <=? ha_status a) && (ha_status a <? 500) && negb ok then
              MkResult Rejected 0 (ha_status a)
                (if (100 <=? tg_ErrorCode raw) && (tg_ErrorCode raw <=? 599) then tg_ErrorCode raw else 0)
                (if ha_status a =? 429 then retry_after (tg_RetryAfter raw) (ha_retry_header a) else None)
            else out
        end
    | None => out
    end.

Definition endpoint_bad (t : Transport) : bool :=
  match tr_endpoint t with
  | None => true
  | Some u =>
      (negb (u_Scheme u =? "https")%string && negb (u_Scheme u =? "http")%string) || (u_Host u =? "")%string || u_User u ||
      negb (u_RawQuery u =? "")%string || negb (u_Fragment u =? "")%string || (tr_Token t =? "")%string ||
      ContainsAny (tr_Token t) "/?#"
  end.

(** [Send]: its result, and whether a POST was made. *)
Definition Send (t : Transport) (method : string) (payload : json) (sw : send_world) : Result * bool :=
  let refused := (MkResult Rejected 0 0 0 None, false) in
  if negb (method =? "sendMessage")%string && negb (method =? "sendRichMessage")%string then refused
  else if 1048576 <? len (marshal payload) then refused
  else if endpoint_bad t then refused
  else if negb (sw_request sw) then refused
  else if negb (sw_admitted sw) then refused
  else match sw_answer sw with
       | None => (MkResult Unknown 0 0 0 None, true)
       | Some a => (read_answer a, true)
       end.

(** ** The store *)

Inductive derr := ErrUnknown | ErrRejected | ErrReceiptConflict | ErrStale | ErrDestination | ErrDb.
#[export] Instance derr_eq_dec : EqDecision derr.
Proof. solve_decision. Defined.

Notation DM := (M dtables derr).
Definition err_db : dberr -> derr := fun _ => ErrDb.

(** [Part]; its payload is a document. *)
Record Part := MkPart { pa_Intent : string; pa_Method : string; pa_PayloadHash : string; pa_Index : Z; pa_Payload : json }.
Definition pkey (p : Part) : part_key := (pa_Intent p, pa_Method p, pa_Index p).

Inductive Reservation := New | AlreadySent | InFlight | PreviouslyRejected | RateLimited.

Record PostgresStore := MkStore { ps_Fence : Fence; ps_JobID : string; ps_DomainInstanceID : string; ps_AttemptGeneration : Z }.
Definition store_owner (s : PostgresStore) : owner := Owner (ps_JobID s) (ps_AttemptGeneration s) (ps_DomainInstanceID s).

(** [EXTRACT(EPOCH FROM (clock_timestamp() - updated_at))::double precision] *)
Definition epoch_seconds (elapsed : Z) : spec_float :=
  let micro := elapsed / Microsecond in
  if micro <? 0 then SFopp (float_of_decimal (- micro) (-6)) else float_of_decimal micro (-6).

Definition cooling (now : Z) (row : part_row) : bool :=
  match pt_retry row with Some r => SFltb (epoch_seconds (now - pt_updated row)) r | None => false end.
Definition cooldown_elapsed (now : Z) (row : part_row) : bool :=
  match pt_retry row with Some r => SFleb r (epoch_seconds (now - pt_updated row)) | None => true end.

Section Store.
Context `{Postgres}.

Definition lockActiveIntent (s : PostgresStore) (id : string) : DM unit :=
  row ← exec err_db (read (fun _ d => dt_intents d !! id));
  match row with
  | None => raise ErrDb
  | Some i => guard_m (negb ((it_state i =? "active")%string && bool_decide (it_owner i = store_owner s))) ErrUnknown
  end.

(** The parts of one intent that satisfy a condition exist. *)
Definition exists_part (id : string) (f : part_row -> bool) (d : dtables) : bool :=
  existsb (fun kv => (kv.1.1.1 =? id)%string && f kv.2) (map_to_list (dt_parts d)).

Definition is_429 (row : part_row) : bool := bool_decide (pt_status row = Some 429).

Definition rate_limited (s : PostgresStore) (id : string) (now : Z) : dtables -> bool :=
  exists_part id (fun row => (pt_state row =? Rejected)%string && is_429 row &&
    (bool_decide (pt_owner row = store_owner s) || cooling now row)).

Definition insert_part (s : PostgresStore) (p : Part) (start : Z) : stmt dtables bool := fun _ _ d =>
  match dt_parts d !! pkey p with
  | Some _ => (Ok false, d)
  | None => (Ok true, set_parts (<[pkey p := PartRow (pa_PayloadHash p) (store_owner s) "sending" None None None start]> (dt_parts d)) d)
  end.

(** The UPDATE by which a new owner takes a rejected part over; it tells whether
    it found the row. *)
Definition retake_part (s : PostgresStore) (p : Part) (start : Z) : stmt dtables bool := fun _ _ d =>
  match dt_parts d !! pkey p with
  | Some row => if (pt_state row =? Rejected)%string
                then (Ok true, set_parts (<[pkey p := PartRow (pt_hash row) (store_owner s) "sending" None None None start]> (dt_parts d)) d)
                else (Ok false, d)
  | None => (Ok false, d)
  end.

(** [Reserve] when the part has a row. *)
Definition reserve_existing (s : PostgresStore) (p : Part) (start : Z) : DM Reservation :=
  row ← exec err_db (read (fun now d => (fun r => (r, cooldown_elapsed (pg_time now) r)) <$> dt_parts d !! pkey p));
  match row with
  | None => raise ErrDb
  | Some (r, elapsed) =>
      _ ← guard_m (negb (pt_hash r =? pa_PayloadHash p)%string) ErrReceiptConflict;
      if (pt_state r =? Sent)%string then mret AlreadySent
      else if (pt_state r =? Rejected)%string then
        let newOwner := negb (bool_decide (pt_owner r = store_owner s)) in
        if is_429 r && negb elapsed then mret RateLimited
        else if newOwner && (is_429 r || (pa_Method p =? "sendMessage")%string) then
          found ← exec err_db (retake_part s p start);
          _ ← guard_m (negb found) ErrReceiptConflict;
          mret New
        else if is_429 r then mret RateLimited
        else mret PreviouslyRejected
      else mret InFlight
  end.

Definition reserve_body (s : PostgresStore) (p : Part) : DM Reservation :=
  start ← tx_clock;
  _ ← Validate ErrStale (ps_Fence s);
  _ ← lockActiveIntent s (pa_Intent p);
  limited ← exec err_db (read (fun now d => rate_limited s (pa_Intent p) (pg_time now) d));
  if limited : bool then mret RateLimited
  else
    inserted ← exec err_db (insert_part s p start);
    reservation ← (if inserted : bool then mret New else reserve_existing s p start);
    _ ← commit ErrDb;
    mret reservation.

Definition Reserve (s : PostgresStore) (p : Part) : DM Reservation := with_tx ErrDb (reserve_body s p).

(** The UPDATE of [Finish]; it tells whether it found the row. *)
Definition finish_part (s : PostgresStore) (p : Part) (r : Result) (start : Z) : stmt dtables bool := fun _ _ d =>
  match dt_parts d !! pkey p with
  | Some row =>
      if (pt_hash row =? pa_PayloadHash p)%string && bool_decide (pt_owner row = store_owner s) && (pt_state row =? "sending")%string
      then (Ok true, set_parts (<[pkey p := PartRow (pt_hash row) (pt_owner row) (rs_State r)
             (if (rs_State r =? Sent)%string && negb (rs_MessageID r =? 0) then Some (rs_MessageID r) else None)
             (if rs_StatusCode r =? 0 then None else Some (rs_StatusCode r)) (rs_RetryAfterSeconds r) start]> (dt_parts d)) d)
      else (Ok false, d)
  | None => (Ok false, d)
  end.

Definition finish_body (s : PostgresStore) (p : Part) (r : Result) : DM unit :=
  start ← tx_clock;
  _ ← Validate ErrStale (ps_Fence s);
  _ ← lockActiveIntent s (pa_Intent p);
  found ← exec err_db (finish_part s p r start);
  _ ← guard_m (negb found) ErrReceiptConflict;
  _ ← commit ErrDb;
  mret tt.

Definition Finish (s : PostgresStore) (p : Part) (r : Result) : DM unit :=
  _ ← guard_m (negb (rs_State r =? Sent)%string && negb (rs_State r =? Rejected)%string && negb (rs_State r =? Unknown)%string)
        ErrReceiptConflict;
  with_tx ErrDb (finish_body s p r).

(** *** Intents *)

Record Intent := MkIntent { in_ID : string; in_Completed : bool; in_PartsSent : Z; in_RichMessage : bool }.

(** The row of an edition and destination, with its id. *)
Definition find_intent (edition destination : string) (d : dtables) : option (string * intent_row) :=
  find (fun kv => (it_edition kv.2 =? edition)%string && (it_destination kv.2 =? destination)%string) (map_to_list (dt_intents d)).

(** [INSERT ... ON CONFLICT (edition_id, destination_hash, purpose) DO NOTHING] *)
Definition insert_intent (s : PostgresStore) (id edition destination render : string) : stmt dtables unit := fun _ _ d =>
  match find_intent edition destination d, dt_intents d !! id with
  | Some _, _ => (Ok tt, d)
  | None, Some _ => (Err UniqueViolation, d)
  | None, None => (Ok tt, set_intents (<[id := IntentRow edition destination render (store_owner s) "active" None None]> (dt_intents d)) d)
  end.

Definition possible_delivery (id : string) : dtables -> bool :=
  exists_part id (fun row => (pt_state row =? "sending")%string || (pt_state row =? Sent)%string || (pt_state row =? Unknown)%string).

(** The UPDATE by which an intent changes hands. *)
Definition take_intent (s : PostgresStore) (id : string) : stmt dtables bool := fun _ _ d =>
  match dt_intents d !! id with
  | Some i => if (it_state i =? "active")%string
              then (Ok true, set_intents (<[id := IntentRow (it_edition i) (it_destination i) (it_render i) (store_owner s)
                                                    (it_state i) (it_parts_sent i) (it_rich i)]> (dt_intents d)) d)
              else (Ok false, d)
  | None => (Ok false, d)
  end.

(** [ResolveIntent] from the row on, up to the commit. *)
Definition resolve_row (s : PostgresStore) (id render : string) (i : intent_row) : DM Intent :=
  _ ← guard_m (negb (it_render i =? render)%string) ErrReceiptConflict;
  if (it_state i =? "completed")%string then
    match it_parts_sent i, it_rich i with
    | Some n, Some rich => mret (MkIntent id true n rich)
    | _, _ => raise ErrReceiptConflict
    end
  else if negb (it_state i =? "active")%string then raise ErrUnknown
  else if negb (bool_decide (it_owner i = store_owner s)) then
    possible ← exec err_db (read (fun _ d => possible_delivery id d));
    _ ← guard_m possible ErrUnknown;
    found ← exec err_db (take_intent s id);
    _ ← guard_m (negb found) ErrReceiptConflict;
    mret (MkIntent id false 0 false)
  else mret (MkIntent id false 0 false).

Definition resolve_body (s : PostgresStore) (id edition destination render : string) : DM Intent :=
  _ ← Validate ErrStale (ps_Fence s);
  _ ← exec err_db (insert_intent s id edition destination render);
  row ← exec err_db (read (fun _ d => find_intent edition destination d));
  match row with
  | None => raise ErrDb
  | Some (found, i) =>
      intent ← resolve_row s found render i;
      _ ← commit ErrDb;
      mret intent
  end.

Definition ResolveIntent (s : PostgresStore) (id edition destination render : string) : DM Intent :=
  with_tx ErrDb (resolve_body s id edition destination render).

Definition complete_intent (s : PostgresStore) (id : string) (count : Z) (rich : bool) : stmt dtables bool := fun _ _ d =>
  match dt_intents d !! id with
  | Some i => if bool_decide (it_owner i = store_owner s) && (it_state i =? "active")%string
              then (Ok true, set_intents (<[id := IntentRow (it_edition i) (it_destination i) (it_render i) (it_owner i)
                                                    "completed" (Some count) (Some rich)]> (dt_intents d)) d)
              else (Ok false, d)
  | None => (Ok false, d)
  end.

Definition complete_body (s : PostgresStore) (id : string) (count : Z) (rich : bool) : DM unit :=
  _ ← Validate ErrStale (ps_Fence s);
  _ ← lockActiveIntent s id;
  found ← exec err_db (complete_intent s id count rich);
  _ ← guard_m (negb found) ErrReceiptConflict;
  _ ← commit ErrDb;
  mret tt.

Definition Complete (s : PostgresStore) (id : string) (count : Z) (rich : bool) : DM unit :=
  _ ← guard_m (count <? 1) ErrReceiptConflict;
  with_tx ErrDb (complete_body s id count rich).

(** ** Delivery *)

Record Delivery := MkDelivery { dv_Store : PostgresStore; dv_Sender : Transport; dv_Authority : Fence }.

Section Publish.
Context (network : Z -> send_world) (sha256hex : string -> string).

(** [d.Sender.Send(ctx, p.Method, p.Payload)]: the POST, if any, is recorded
    with the state its answer gives. *)
Definition send (d : Delivery) (p : Part) : DM Result := fun w =>
  let '(ev, w1) := next_event w in
  let '(r, posted) := Send (dv_Sender d) (pa_Method p) (pa_Payload p) (network (ev_app ev)) in
  (Ok r, if posted : bool then set_cur (add_post (Post (pkey p) (store_owner (dv_Store d)) (rs_State r)) (cur w1)) w1 else w1).

(** An error of any kind becomes [e]. *)
Definition or_err {A} (m : DM A) (e : derr) : DM A :=
  r ← try m; match r with Ok a => mret a | Err _ => raise e end.

Definition deliver_part (d : Delivery) (p : Part) : DM string :=
  _ ← Check ErrStale ErrDb (dv_Authority d);
  reservation ← or_err (Reserve (dv_Store d) p) ErrUnknown;
  match reservation with
  | AlreadySent => mret Sent
  | InFlight => raise ErrUnknown
  | PreviouslyRejected => mret Rejected
  | RateLimited => raise ErrRejected
  | New =>
      _ ← or_err (Check ErrStale ErrDb (dv_Authority d)) ErrUnknown;
      result ← send d p;
      _ ← or_err (Check ErrStale ErrDb (dv_Authority d)) ErrUnknown;
      _ ← or_err (Finish (dv_Store d) p result) ErrUnknown;
      if (rs_State result =? Rejected)%string && (rs_StatusCode result =? 429) then raise ErrRejected
      else if (rs_State result =? Unknown)%string then raise ErrUnknown
      else if negb (rs_State result =? Sent)%string && negb (rs_State result =? Rejected)%string then raise ErrUnknown
      else mret (rs_State result)
  end.

Definition SendPart : Delivery -> Part -> DM string := deliver_part.

(** The loop of [Publish] over the plain parts: how many were sent, and the error. *)
Fixpoint publish_plain (d : Delivery) (plain : list Part) (sent : Z) : DM (Z * option derr) :=
  match plain with
  | [] => mret (sent, None)
  | p :: rest =>
      state ← try (deliver_part d p);
      match state with
      | Err e => mret (sent, Some e)
      | Ok st => if negb (st =? Sent)%string then mret (sent, Some ErrRejected) else publish_plain d rest (sent + 1)
      end
  end.

(** [Publish] returns a count beside its error. *)
Definition Publish (d : Delivery) (rich : Part) (plain : list Part) : DM (Z * option derr) :=
  r ← try (deliver_part d rich);
  match r with
  | Err e => mret (0, Some e)
  | Ok st =>
      if (st =? Sent)%string then mret (1, None)
      else
        '(sent, err) ← publish_plain d plain 0;
        match err, plain with
        | None, [] => mret (0, Some ErrRejected)
        | _, _ => mret (sent, err)
        end
  end.

(** ** airuntime: publishPrepared *)

(** editorial.Rendered; a nil slice of parts is [None]. *)
Record Rendered := MkRendered { rd_RichHTML : string; rd_PlainParts : option (list string); rd_PreviewText : string }.
Definition rendered_text (r : Rendered) : string :=
  obj [("rich_html", marshal_string (rd_RichHTML r));
       ("plain_parts", match rd_PlainParts r with None => "null" | Some l => marshal (JArr (map JStr l)) end);
       ("preview_text", marshal_string (rd_PreviewText r))].

(** What [publishPrepared] reads of digestworkflow.Prepared. *)
Record Prepared := MkPrepared {
  pr_EditionID : string;
  pr_Destination : string;
  pr_DestinationPinned : bool;
  pr_Locale : string;
  pr_Rendered : Rendered;
}.

(** The configured destination and token, which settings or credentials give. *)
Record Settings := MkSettings { se_destination : DM string; se_token : DM string; se_endpoint : option URL; se_TelegramRich : bool }.

(** The members of the result. *)
Record Report := MkReport { rp_success : bool; rp_parts_sent : Z; rp_parts_total : Z; rp_rich_message : bool }.

Definition makePart (intent method : string) (index : Z) (payload : json) : Part :=
  MkPart intent method (sha256hex (marshal payload)) index payload.
Definition rich_part (intent destination : string) (r : Rendered) : Part :=
  makePart intent "sendRichMessage" 0
    (JObj [("chat_id", JStr destination); ("rich_message", JObj [("html", JStr (rd_RichHTML r))])]).
Definition plain_part (intent destination : string) (index : Z) (text : string) : Part :=
  makePart intent "sendMessage" index
    (JObj [("chat_id", JStr destination); ("text", JStr text); ("parse_mode", JStr "HTML"); ("disable_web_page_preview", JBool true)]).

(** The loop over the plain parts from index [sent] on; [None] when all are sent. *)
Fixpoint send_plain (d : Delivery) (intent destination : string) (parts : list string) (total sent : Z) : DM (Z * option Report) :=
  match parts with
  | [] => mret (sent, None)
  | text :: rest =>
      let failed := MkReport false sent total false in
      state ← try (SendPart d (plain_part intent destination sent text));
      match state with
      | Err ErrRejected => mret (sent, Some failed)
      | Err e => raise e
      | Ok st => if negb (st =? Sent)%string then mret (sent, Some failed) else send_plain d intent destination rest total (sent + 1)
      end
  end.

Definition publish_plain_parts (d : Delivery) (intent destination : string) (r : Rendered) : DM Report :=
  let parts := default [] (rd_PlainParts r) in
  let total := Z.of_nat (length parts) in
  '(sent, report) ← send_plain d intent destination parts total 0;
  match report with
  | Some report => mret report
  | None =>
      _ ← Complete (dv_Store d) intent sent false;
      mret (MkReport true sent total false)
  end.

(** [publishPrepared] once the intent is known to be open. *)
Definition publish_open (rich : bool) (d : Delivery) (intent destination : string) (r : Rendered) : DM Report :=
  if rich then
    state ← try (SendPart d (rich_part intent destination r));
    match state with
    | Err ErrRejected => mret (MkReport false 0 1 true)
    | Err e => raise e
    | Ok st =>
        if (st =? Sent)%string then
          _ ← Complete (dv_Store d) intent 1 true;
          mret (MkReport true 1 1 true)
        else publish_plain_parts d intent destination r
    end
  else publish_plain_parts d intent destination r.

Definition publish_destination (c : Settings) (p : Prepared) : DM (result derr string) :=
  if (pr_Destination p =? "")%string then
    _ ← guard_m (pr_DestinationPinned p) ErrDestination;
    _ ← guard_m (negb (pr_Locale p =? "ru")%string) ErrDestination;
    try (se_destination c)
  else mret (Ok (pr_Destination p)).

Definition publishPrepared (c : Settings) (job : string) (attempt : Z) (instance : string) (f : Fence) (p : Prepared) : DM Report :=
  found ← publish_destination c p;
  token ← se_token c;
  match found with
  | Err _ => raise ErrDestination
  | Ok destination =>
      _ ← guard_m (token =? "")%string ErrDestination;
      random ← rand_read ErrDb;
      let store := MkStore f job instance attempt in
      intent ← ResolveIntent store (uuid_text random) (pr_EditionID p) (sha256hex destination) (sha256hex (rendered_text (pr_Rendered p)));
      if in_Completed intent then mret (MkReport true (in_PartsSent intent) (in_PartsSent intent) (in_RichMessage intent))
      else publish_open (se_TelegramRich c) (MkDelivery store (MkTransport (se_endpoint c) token) f) (in_ID intent) destination (pr_Rendered p)
  end.
End Publish.
End Store.

(** ** What delivery keeps *)

Definition rich : string := "sendRichMessage".
Definition plain : string := "sendMessage".
Definition rich_key (id : string) : part_key := (id, rich, 0).
Definition posts_in (id : string) (d : dtables) : list post := filter (fun p => (po_key p).1.1 = id) (dt_posts d).

(** A POST that would repeat part [k]: of the part itself, or of its intent in
    the other form. *)
Definition competes (k : part_key) (q : post) : Prop := po_key q = k \/ (po_key q).1.1 = k.1.1 /\ (po_key q).1.2 <> k.1.2.

Lemma competes_sym k p q : po_key q = k -> competes k p -> competes (po_key p) q.
Proof. intros <- [->|[? ?]]; [by left|right]. split; congruence. Qed.

Section Safety.
(** Which owners publish in rich form: the configuration of their process. *)
Context (rich_owner : owner -> bool).

(** A plain part may follow: the rich one was rejected, for good or by this owner. *)
Definition rich_over (o : owner) (r : part_row) : Prop := pt_owner r = o \/ pt_state r = Rejected /\ pt_status r <> Some 429.

(** The part is confirmed, and so are all parts a completed intent counts. *)
Definition sent_row (k : part_key) (d : dtables) : Prop := exists r, dt_parts d !! k = Some r /\ pt_state r = Sent.
Definition all_sent (id : string) (n : Z) (is_rich : bool) (d : dtables) : Prop :=
  if is_rich then n = 1 /\ sent_row (rich_key id) d else forall x, 0 <= x < n -> sent_row (id, plain, x) d.

Lemma all_sent_mono id n b d d' : (forall k, sent_row k d -> sent_row k d') -> all_sent id n b d -> all_sent id n b d'.
Proof. intros Hm. destruct b; simpl; [intros [? ?]; auto|auto]. Qed.

Record dl_wf (d : dtables) : Prop := {
  dw_unique : forall a b i j, dt_intents d !! a = Some i -> dt_intents d !! b = Some j ->
    it_edition i = it_edition j -> it_destination i = it_destination j -> a = b;
  dw_states : forall k r, dt_parts d !! k = Some r -> pt_state r ∈ ["sending"; Sent; Rejected; Unknown];
  dw_held : forall k r, dt_parts d !! k = Some r ->
    exists i, dt_intents d !! k.1.1 = Some i /\ (pt_state r <> Rejected -> it_owner i = pt_owner r);
  dw_recorded : forall p, p ∈ dt_posts d ->
    exists r, dt_parts d !! po_key p = Some r /\ (po_state p <> Rejected -> pt_state r <> Rejected);
  dw_confirmed : forall k r, dt_parts d !! k = Some r -> pt_state r = Sent ->
    exists p, p ∈ dt_posts d /\ po_key p = k /\ po_state p = Sent;
  dw_methods : forall k r, dt_parts d !! k = Some r ->
    k.1.2 = plain \/ k = rich_key k.1.1 /\ rich_owner (pt_owner r) = true;
  dw_rich_first : forall k r, dt_parts d !! k = Some r -> k.1.2 = plain -> pt_state r <> Rejected ->
    rich_owner (pt_owner r) = true -> exists r', dt_parts d !! rich_key k.1.1 = Some r' /\ rich_over (pt_owner r) r';
  dw_once : forall l1 p l2, dt_posts d = l1 ++ p :: l2 -> po_state p <> Rejected -> Forall (fun q => ~ competes (po_key p) q) l2;
  dw_completed : forall id i, dt_intents d !! id = Some i -> it_state i = "completed" ->
    exists n b, it_parts_sent i = Some n /\ it_rich i = Some b /\ 1 <= n /\ all_sent id n b d;
}.

(** What changes of the tables by owners in [who] amount to. *)
Record delivered_by (who : owner -> Prop) (d d' : dtables) : Prop := {
  db_wf : dl_wf d -> dl_wf d';
  db_rows : forall k r, dt_parts d !! k = Some r -> exists r', dt_parts d' !! k = Some r' /\
    pt_hash r' = pt_hash r /\ (pt_state r = Sent \/ pt_state r = Unknown -> r' = r);
  db_posts : exists l, dt_posts d' = dt_posts d ++ l /\ Forall (fun p => who (po_owner p)) l;
  db_intents : forall id i, dt_intents d !! id = Some i -> exists i', dt_intents d' !! id = Some i' /\
    (it_edition i', it_destination i', it_render i') = (it_edition i, it_destination i, it_render i) /\
    (it_state i = "completed" -> i' = i);
  db_kept : forall id i', dt_intents d' !! id = Some i' -> ~ who (it_owner i') ->
    (exists i, dt_intents d !! id = Some i /\ it_owner i = it_owner i') /\
    (forall k, k.1.1 = id -> dt_parts d' !! k = dt_parts d !! k) /\ posts_in id d' = posts_in id d;
  db_sending : forall k r, dt_parts d !! k = Some r -> pt_state r = "sending" -> ~ who (pt_owner r) -> dl_wf d ->
    dt_parts d' !! k = Some r /\ exists i', dt_intents d' !! k.1.1 = Some i' /\ it_owner i' = pt_owner r;
}.

#[export] Instance delivered_by_preorder who : PreOrder (delivered_by who).
Proof.
  split.
  - intros d. split; eauto.
    + exists []. by rewrite app_nil_r.
    + intros k r Hr Hs _ W. split; [done|]. destruct (dw_held d W k r Hr) as (i & Hi & Ho). exists i. split; [done|].
      apply Ho. by rewrite Hs.
  - intros a b c [A1 A2 (l & A3 & A4) A5 A6 A7] [B1 B2 (l' & B3 & B4) B5 B6 B7]. split.
    + auto.
    + intros k r Hr. destruct (A2 k r Hr) as (r' & Hr' & Hh & Hf). destruct (B2 k r' Hr') as (r'' & Hr'' & Hh' & Hf').
      exists r''. split_and!; [done|congruence|]. intros Hs. specialize (Hf Hs). subst r'. auto.
    + exists (l ++ l'). rewrite B3, A3, app_assoc. split; [done|]. by apply Forall_app.
    + intros id i Hi. destruct (A5 id i Hi) as (i' & Hi' & E & Hf). destruct (B5 id i' Hi') as (i'' & Hi'' & E' & Hf').
      exists i''. split_and!; [done|congruence|]. intros Hs. specialize (Hf Hs). subst i'. auto.
    + intros id i'' Hi'' Hw. destruct (B6 id i'' Hi'' Hw) as ((i' & Hi' & Ho) & Hp & Hq).
      destruct (A6 id i' Hi') as ((i & Hi & Ho') & Hp' & Hq'); [by rewrite Ho|].
      split_and!; [exists i; split; [done|congruence]| |congruence]. intros k Hk. rewrite Hp, Hp' by done. done.
    + intros k r Hr Hs Hw W. destruct (A7 k r Hr Hs Hw W) as (Hr' & _). apply (B7 k r Hr' Hs Hw). auto.
Qed.

Lemma delivered_by_mono (who who' : owner -> Prop) d d' :
  (forall o, who o -> who' o) -> delivered_by who d d' -> delivered_by who' d d'.
Proof.
  intros Hi [A1 A2 (l & A3 & A4) A5 A6 A7]. split; [done|done| |done|..].
  - exists l. split; [done|]. eapply Forall_impl; [exact A4|]. auto.
  - intros id i' H1 H2. apply A6; auto.
  - intros k r H1 H2 H3. apply A7; auto.
Qed.

(** The rich part of an intent is out of the question for its owner [o]. *)
Definition rich_failed (o : owner) (id : string) (d : dtables) : Prop :=
  forall i, dt_intents d !! id = Some i -> it_owner i = o ->
    exists r, dt_parts d !! rich_key id = Some r /\ pt_state r = Rejected /\ rich_over o r.

(** A session relies on the others to act for other owners only. *)
Definition others (o : owner) : dtables -> dtables -> Prop := delivered_by (fun o' => o' <> o).
(** Its own steps on parts and their intent, while it has resolved it. *)
Definition part_step (o : owner) (d d' : dtables) : Prop :=
  delivered_by (eq o) d d' /\ forall id, rich_failed o id d -> rich_failed o id d'.

#[export] Instance others_preorder o : PreOrder (others o) := delivered_by_preorder _.
#[export] Instance part_step_preorder o : PreOrder (part_step o).
Proof.
  split.
  - intros d. split; [reflexivity|done].
  - intros a b c [H1 H2] [H3 H4]. split; [by etrans|auto].
Qed.

Lemma others_failed o id d d' : others o d d' -> rich_failed o id d -> rich_failed o id d'.
Proof.
  intros Ho Hf i' Hi' Heq. destruct (db_kept _ _ _ Ho id i' Hi') as ((i & Hi & He) & Hp & _); [tauto|].
  rewrite Hp by done. eapply Hf; [done|congruence].
Qed.

(** *** The life of a reservation *)

(** The part is reserved by [o] and nothing that competes with it can have been
    accepted. *)
Record reserved (o : owner) (k : part_key) (h : string) (d : dtables) : Prop := {
  rv_row : exists r, dt_parts d !! k = Some r /\ pt_state r = "sending" /\ pt_owner r = o /\ pt_hash r = h;
  rv_intent : exists i, dt_intents d !! k.1.1 = Some i /\ it_owner i = o;
  rv_clear : forall q, q ∈ dt_posts d -> competes k q -> po_state q = Rejected;
}.

(** The part is reserved by [o] and its one POST, if any, got [st]. *)
Record answered (o : owner) (k : part_key) (h st : string) (d : dtables) : Prop := {
  an_row : exists r, dt_parts d !! k = Some r /\ pt_state r = "sending" /\ pt_owner r = o /\ pt_hash r = h;
  an_rejected : st = Rejected -> forall q, q ∈ dt_posts d -> po_key q = k -> po_state q = Rejected;
  an_sent : st = Sent -> exists q, q ∈ dt_posts d /\ po_key q = k /\ po_state q = Sent;
}.

(** A part row may be claimed: there is none, or a rejected one of another owner
    (a rich one only after a 429). *)
Definition claimable (o : owner) (k : part_key) (h : string) (d : dtables) : Prop :=
  dt_parts d !! k = None \/
  exists r, dt_parts d !! k = Some r /\ pt_state r = Rejected /\ pt_owner r <> o /\ pt_hash r = h /\
    (k.1.2 = rich -> pt_status r = Some 429).

(** Parts [o] may publish under the tables [d]. *)
Definition ready (o : owner) (k : part_key) (d : dtables) : Prop :=
  k.1.2 = plain /\ (rich_owner o = true -> rich_failed o k.1.1 d) \/ k = rich_key k.1.1 /\ rich_owner o = true.

Lemma others_row o k r d d' :
  others o d d' -> dl_wf d -> dt_parts d !! k = Some r -> pt_state r = "sending" -> pt_owner r = o ->
  dt_parts d' !! k = Some r /\ (exists i, dt_intents d' !! k.1.1 = Some i /\ it_owner i = o) /\
  posts_in k.1.1 d' = posts_in k.1.1 d.
Proof.
  intros Ho W Hr Hs Hw. destruct (db_sending _ _ _ Ho k r Hr Hs) as (Hr' & i' & Hi' & Hi); [by intros []|done|].
  split_and!; [done|exists i'; split; [done|congruence]|]. apply (db_kept _ _ _ Ho k.1.1 i' Hi'). rewrite Hi, Hw. by intros [].
Qed.

Lemma in_posts_in id q d : q ∈ posts_in id d <-> (po_key q).1.1 = id /\ q ∈ dt_posts d.
Proof. unfold posts_in. by rewrite list_elem_of_filter. Qed.

Lemma competes_intent k q : competes k q -> (po_key q).1.1 = k.1.1.
Proof. by intros [->|[? _]]. Qed.

Lemma reserved_stable o k h d d' : others o d d' -> dl_wf d -> reserved o k h d -> reserved o k h d'.
Proof.
  intros Ho W [(r & Hr & Hs & Hw & Hh) _ Hc]. destruct (others_row o k r d d' Ho W Hr Hs Hw) as (Hr' & Hi & Hp).
  split; [by eauto 10|done|]. intros q Hq Hk. apply Hc; [|done].
  apply (proj1 (in_posts_in k.1.1 q d)). rewrite <- Hp. apply in_posts_in. split; [by apply competes_intent|done].
Qed.

Lemma answered_stable o k h st d d' : others o d d' -> dl_wf d -> answered o k h st d -> answered o k h st d'.
Proof.
  intros Ho W [(r & Hr & Hs & Hw & Hh) Hc He]. destruct (others_row o k r d d' Ho W Hr Hs Hw) as (Hr' & _ & Hp).
  split; [by eauto 10| |].
  - intros E q Hq Hk. apply (Hc E); [|done]. apply (proj1 (in_posts_in k.1.1 q d)). rewrite <- Hp. apply in_posts_in.
    by rewrite Hk.
  - intros E. destruct (He E) as (q & Hq & Hk & Hst). exists q. split; [|done].
    apply (proj1 (in_posts_in k.1.1 q d')). rewrite Hp. apply in_posts_in. by rewrite Hk.
Qed.

(** A post that competes with a claimable part was rejected. *)
Lemma claim_clear o k h i d q :
  dl_wf d -> dt_intents d !! k.1.1 = Some i -> it_owner i = o -> claimable o k h d -> ready o k d ->
  q ∈ dt_posts d -> competes k q -> po_state q = Rejected.
Proof.
  intros W Hi Hio Hc Hready Hq Hk. destruct (decide (po_state q = Rejected)) as [|Hne]; [done|exfalso].
  destruct (dw_recorded d W q Hq) as (r & Hr & Hst). specialize (Hst Hne).
  destruct (dw_held d W _ _ Hr) as (i' & Hi' & Hown). specialize (Hown Hst).
  destruct Hk as [Hk|[Hid Hm]].
  { rewrite Hk in Hr. destruct Hc as [Hc|(r0 & Hr0 & Hs & _)]; [congruence|]. assert (r0 = r) as -> by congruence. done. }
  assert (pt_owner r = o) as Hro by (rewrite Hid in Hi'; congruence).
  destruct Hready as [[Hp Hfail]|[Hrk Hro']].
  - destruct (dw_methods d W _ _ Hr) as [?|[Hrk Hrich]]; [congruence|]. rewrite Hid in Hrk.
    rewrite Hro in Hrich. destruct (Hfail Hrich i Hi Hio) as (r1 & Hr1 & Hs1 & _). rewrite <- Hrk in Hr1. congruence.
  - destruct (dw_methods d W _ _ Hr) as [Hp|[Hrk2 _]]; [|rewrite Hrk in Hm; rewrite Hrk2 in Hm; done].
    destruct (dw_rich_first d W _ _ Hr Hp Hst) as (r1 & Hr1 & Hover); [by rewrite Hro|].
    rewrite Hid, <- Hrk in Hr1. rewrite Hro in Hover.
    destruct Hc as [Hc|(r0 & Hr0 & Hs0 & How0 & _ & H429)]; [congruence|].
    assert (r0 = r1) as -> by congruence. destruct Hover as [?|[_ Hn]]; [done|]. apply Hn, H429. by rewrite Hrk.
Qed.

Definition claim_row (o : owner) (h : string) (start : Z) : part_row := PartRow h o "sending" None None None start.

Lemma claimable_hash o k h d r : claimable o k h d -> dt_parts d !! k = Some r ->
  pt_hash r = h /\ pt_state r = Rejected /\ pt_owner r <> o /\ (k.1.2 = rich -> pt_status r = Some 429).
Proof. intros [Hc|(r0 & Hr & ? & ? & ? & ?)] Hr'; [congruence|]. assert (r0 = r) as -> by congruence. done. Qed.

Section Claim.
Context (o : owner) (k : part_key) (h : string) (start : Z) (d : dtables) (i : intent_row).
Context (Hi : dt_intents d !! k.1.1 = Some i) (Hio : it_owner i = o) (Hc : claimable o k h d).
Definition claimed : dtables := set_parts (<[k := claim_row o h start]> (dt_parts d)) d.

Lemma claim_rich_over r : dl_wf d -> dt_parts d !! k = Some r -> k.1.2 = rich -> ~ rich_over o r.
Proof using Hc.
  intros W Hr Hk [?|[_ Hn]]; destruct (claimable_hash _ _ _ _ _ Hc Hr) as (_ & _ & ? & H429); [done|auto].
Qed.

Lemma claim_rich_first k' r :
  dl_wf d -> ready o k d -> dt_parts claimed !! k' = Some r -> k'.1.2 = plain -> pt_state r <> Rejected ->
  rich_owner (pt_owner r) = true -> exists r', dt_parts claimed !! rich_key k'.1.1 = Some r' /\ rich_over (pt_owner r) r'.
Proof using Hi Hio Hc.
  intros W Hready Hr Hp Hs Hro. unfold claimed in *. simpl in *. apply lookup_insert_Some in Hr as [[<- <-]|[Hne Hr]].
  - destruct Hready as [[_ Hf]|[Hk _]]; [|rewrite Hk in Hp; done].
    destruct (Hf Hro i Hi Hio) as (r' & Hr' & _ & Hov). exists r'. split; [|done].
    rewrite lookup_insert_ne; [done|]. intros E. rewrite E in Hp. done.
  - destruct (dw_rich_first d W k' r Hr Hp Hs Hro) as (r' & Hr' & Hov).
    destruct (decide (k = rich_key k'.1.1)) as [E|]; [exfalso|by exists r'; rewrite lookup_insert_ne].
    destruct (dw_held d W k' r Hr) as (i' & Hi' & Ho). specialize (Ho Hs). rewrite <- E in Hr'.
    assert (k.1.1 = k'.1.1) as E1 by (rewrite E; done). assert (i' = i) as -> by congruence.
    eapply (claim_rich_over r'); [done|done|by rewrite E|congruence].
Qed.

Lemma claim_wf : ready o k d -> dl_wf d -> dl_wf claimed.
Proof using Hi Hio Hc.
  intros Hready W. pose proof W as [W1 W2 W3 W4 W5 W6 W7 W8 W9]. split; simpl; [done|..].
  - intros k' r [[<- <-]|[_ Hr]]%lookup_insert_Some; [left|eauto].
  - intros k' r [[<- <-]|[_ Hr]]%lookup_insert_Some; [by exists i|eauto].
  - intros p Hp. destruct (W4 p Hp) as (r & Hr & Hs). destruct (decide (k = po_key p)) as [<-|Hne].
    + eexists. rewrite lookup_insert_eq. done.
    + exists r. by rewrite lookup_insert_ne.
  - intros k' r [[<- <-]|[_ Hr]]%lookup_insert_Some; [done|eauto].
  - intros k' r [[<- <-]|[_ Hr]]%lookup_insert_Some; [|eauto].
    destruct Hready as [[? _]|[? ?]]; [by left|by right].
  - intros k' r. by apply claim_rich_first.
  - done.
  - intros id x Hx Hs. destruct (W9 id x Hx Hs) as (n & b & E1 & E2 & E3 & E4). exists n, b. split_and!; [done..|].
    eapply all_sent_mono; [|exact E4]. intros k' (r & Hr & Hst). exists r. split; [|done]. simpl.
    rewrite lookup_insert_ne; [done|]. intros <-. destruct (claimable_hash _ _ _ _ _ Hc Hr) as (_ & E & _). by rewrite Hst in E.
Qed.

Lemma claim_step : ready o k d -> part_step o d claimed.
Proof using Hi Hio Hc.
  intros Hready. split; [split; simpl|].
  - by apply claim_wf.
  - intros k' r Hr. destruct (decide (k = k')) as [<-|Hne].
    + destruct (claimable_hash _ _ _ _ _ Hc Hr) as (Hh & Hs & _). eexists. rewrite lookup_insert_eq.
      split_and!; [done|done|]. rewrite Hs. by intros [].
    + exists r. by rewrite lookup_insert_ne.
  - exists []. by rewrite app_nil_r.
  - eauto.
  - intros id i' Hi' Hne. split_and!; [eauto| |done]. intros k' Hk. rewrite lookup_insert_ne; [done|].
    intros ->. rewrite Hk in Hi. congruence.
  - intros k' r Hr Hs Hw W. split.
    + rewrite lookup_insert_ne; [done|]. intros <-.
      destruct (claimable_hash _ _ _ _ _ Hc Hr) as (_ & Hs' & _). by rewrite Hs in Hs'.
    + destruct (dw_held d W k' r Hr) as (i' & Hi' & Ho). exists i'. split; [done|]. apply Ho. by rewrite Hs.
  - intros id Hf i' Hi' Hio'. simpl in *. destruct (Hf i' Hi' Hio') as (r & Hr & Hs & Hov).
    exists r. rewrite lookup_insert_ne; [done|]. intros E. rewrite <- E in Hr.
    destruct (claimable_hash _ _ _ _ _ Hc Hr) as (_ & _ & Hne & H429). destruct Hov as [?|[_ Hn]]; [done|].
    apply Hn, H429. by rewrite E.
Qed.

Lemma claim_reserved : dl_wf d -> ready o k d -> reserved o k h claimed.
Proof using Hi Hio Hc.
  intros W Hready. split; [|by exists i|].
  - eexists. simpl. rewrite lookup_insert_eq. done.
  - intros q Hq Hk. by apply (claim_clear o k h i d q).
Qed.
End Claim.

(** The POST of a reserved part. *)
Lemma post_step o k h st d : reserved o k h d -> part_step o d (add_post (Post k o st) d).
Proof.
  intros [(r & Hr & Hs & Hw & _) (i & Hi & Hio) Hc]. split; [split; simpl|done].
  - intros [W1 W2 W3 W4 W5 W6 W7 W8 W9]. split; simpl; [done|done|done| |..].
    + intros p [Hp| ->%list_elem_of_singleton]%elem_of_app; [eauto|]. exists r. simpl. split; [done|]. by rewrite Hs.
    + intros k' r' Hr' Hs'. destruct (W5 k' r' Hr' Hs') as (p & Hp & Hk). exists p. split; [|done].
      apply elem_of_app. by left.
    + done.
    + done.
    + intros l1 p l2 E Hp. destruct (app_eq_inv _ _ _ _ E) as [(l & E1 & E2)|(l & E1 & E2)].
      * destruct l as [|x l]; simpl in E2.
        { injection E2 as -> ->. constructor. }
        injection E2 as <- E2. rewrite E2. apply Forall_app. split; [by eapply W8|].
        constructor; [|done]. intros Hcmp. apply Hp, Hc.
        { rewrite E1. apply elem_of_app. right. left. }
        exact (competes_sym (po_key p) (Post k o st) p eq_refl Hcmp).
      * destruct l as [|x l]; simpl in E2; [|injection E2 as _ E2; by destruct l]. injection E2 as <- <-. constructor.
    + eauto.
  - eauto.
  - exists [Post k o st]. split; [done|]. by constructor.
  - eauto.
  - intros id i' Hi' Hne. split_and!; [eauto|done|]. unfold posts_in. simpl. rewrite filter_app.
    rewrite filter_cons_False, filter_nil, app_nil_r; [done|]. simpl. intros <-. congruence.
  - intros k' r' Hr' Hs' _ W. split; [done|]. destruct (dw_held d W k' r' Hr') as (i' & Hi' & Ho). exists i'.
    split; [done|]. apply Ho. by rewrite Hs'.
Qed.

Lemma post_answered o k h st d : reserved o k h d -> answered o k h st (add_post (Post k o st) d).
Proof.
  intros [Hr _ Hc]. split; [done|..]; intros ->; simpl.
  - intros q [Hq| ->%list_elem_of_singleton]%elem_of_app Hk; [apply Hc; [done|by left]|done].
  - exists (Post k o Sent). split; [|done]. apply elem_of_app. right. left.
Qed.
Lemma unposted_answered o k h d : reserved o k h d -> answered o k h Rejected d.
Proof. intros [Hr _ Hc]. split; [done| |done]. intros _ q Hq Hk. apply Hc; [done|by left]. Qed.

Section FinishStep.
Context (o : owner) (k : part_key) (h : string) (d : dtables) (i : intent_row) (row : part_row).
Context (Hi : dt_intents d !! k.1.1 = Some i) (Hio : it_owner i = o).
Context (Ha : answered o k h (pt_state row) d) (Howner : pt_owner row = o) (Hhash : pt_hash row = h).
Context (Hst : pt_state row ∈ [Sent; Rejected; Unknown]).
Definition finished : dtables := set_parts (<[k := row]> (dt_parts d)) d.

Lemma finish_wf : dl_wf d -> dl_wf finished.
Proof using Hi Hio Ha Howner Hhash Hst.
  destruct Ha as [(r0 & Hr0 & Hs0 & Hw0 & _) Hrej Hsent].
  intros [W1 W2 W3 W4 W5 W6 W7 W8 W9]. split; simpl; [done|..].
  - intros k' r [[<- <-]|[_ Hr]]%lookup_insert_Some; [set_solver|eauto].
  - intros k' r [[<- <-]|[_ Hr]]%lookup_insert_Some; [|eauto]. exists i. split; [done|]. congruence.
  - intros p Hp. destruct (W4 p Hp) as (r & Hr & Hs). destruct (decide (k = po_key p)) as [E|Hne].
    + exists row. rewrite E, lookup_insert_eq. split; [done|]. intros Hn E2. apply Hn. by apply Hrej.
    + exists r. by rewrite lookup_insert_ne.
  - intros k' r [[<- <-]|[_ Hr]]%lookup_insert_Some; [auto|eauto].
  - intros k' r [[<- <-]|[_ Hr]]%lookup_insert_Some; [|eauto]. rewrite Howner, <- Hw0. eauto.
  - intros k' r Hr Hp Hs Hro.
    assert (exists r1, dt_parts d !! k' = Some r1 /\ pt_state r1 <> Rejected /\ pt_owner r1 = pt_owner r) as (r1 & Hr1 & Hs1 & Hw1).
    { apply lookup_insert_Some in Hr as [[<- <-]|[_ Hr]]; [|eauto]. exists r0. split_and!; [done|by rewrite Hs0|congruence]. }
    destruct (W7 k' r1 Hr1 Hp Hs1) as (r' & Hr' & Hov); [congruence|]. rewrite <- Hw1.
    destruct (decide (k = rich_key k'.1.1)) as [E|]; [|by exists r'; rewrite lookup_insert_ne].
    exists row. rewrite E, lookup_insert_eq. split; [done|]. left. rewrite <- E in Hr'. assert (r' = r0) as -> by congruence.
    destruct Hov as [?|[Hx _]]; [congruence|]. by rewrite Hs0 in Hx.
  - done.
  - intros id x Hx Hs. destruct (W9 id x Hx Hs) as (n & b & E1 & E2 & E3 & E4). exists n, b. split_and!; [done..|].
    eapply all_sent_mono; [|exact E4]. intros k' (r & Hr & Hst'). exists r. split; [|done]. simpl.
    rewrite lookup_insert_ne; [done|]. intros <-. rewrite Hr0 in Hr. injection Hr as <-. by rewrite Hs0 in Hst'.
Qed.

Lemma finish_step : part_step o d finished.
Proof using Hi Hio Ha Howner Hhash Hst.
  pose proof Ha as [(r0 & Hr0 & Hs0 & Hw0 & Hh0) _ _]. split; [split; simpl|].
  - apply finish_wf.
  - intros k' r Hr. destruct (decide (k = k')) as [<-|Hne].
    + exists row. rewrite lookup_insert_eq. assert (r = r0) as -> by congruence. rewrite Hs0.
      split_and!; [done|congruence|]. by intros [].
    + exists r. by rewrite lookup_insert_ne.
  - exists []. by rewrite app_nil_r.
  - eauto.
  - intros id i' Hi' Hne. split_and!; [eauto| |done]. intros k' Hk. rewrite lookup_insert_ne; [done|].
    intros ->. rewrite Hk in Hi. congruence.
  - intros k' r Hr Hs Hw W. split.
    + rewrite lookup_insert_ne; [done|]. intros <-. congruence.
    + destruct (dw_held d W k' r Hr) as (i' & Hi' & Ho). exists i'. split; [done|]. apply Ho. by rewrite Hs.
  - intros id Hf i' Hi' Hio'. simpl in *. destruct (Hf i' Hi' Hio') as (r & Hr & Hs & Hov).
    exists r. rewrite lookup_insert_ne; [done|]. intros E. rewrite <- E in Hr. rewrite Hr0 in Hr. injection Hr as <-.
    by rewrite Hs0 in Hs.
Qed.
End FinishStep.

(** *** Intents *)

Lemma find_intent_some edition destination d id i :
  find_intent edition destination d = Some (id, i) ->
  dt_intents d !! id = Some i /\ it_edition i = edition /\ it_destination i = destination.
Proof.
  unfold find_intent. intros [Hin Heq]%find_some. apply list_elem_of_In, elem_of_map_to_list in Hin. simpl in Heq.
  bool_to_prop. tauto.
Qed.
Lemma find_intent_none edition destination d id i :
  find_intent edition destination d = None -> dt_intents d !! id = Some i ->
  it_edition i = edition -> it_destination i = destination -> False.
Proof.
  unfold find_intent. intros Hn Hi <- <-. eapply find_none in Hn; [|apply list_elem_of_In, elem_of_map_to_list, Hi].
  simpl in Hn. by rewrite !String.eqb_refl in Hn.
Qed.

(** Rows of intents may be added, or change hands and state, under these conditions. *)
Lemma new_intent_step o id edition destination render d :
  find_intent edition destination d = None -> dt_intents d !! id = None ->
  delivered_by (eq o) d (set_intents (<[id := IntentRow edition destination render o "active" None None]> (dt_intents d)) d).
Proof.
  intros Hf Hid. split; simpl.
  - intros [W1 W2 W3 W4 W5 W6 W7 W8 W9]. split; simpl; [|done| |done..|].
    + intros a b i j [[<- <-]|[_ Ha]]%lookup_insert_Some [[<- <-]|[_ Hb]]%lookup_insert_Some He Hd.
      * done.
      * exfalso. by eapply (find_intent_none edition destination d b j).
      * exfalso. by eapply (find_intent_none edition destination d a i).
      * by eapply W1.
    + intros k r Hr. destruct (W3 k r Hr) as (i & Hi & Ho). exists i. rewrite lookup_insert_ne; [done|congruence].
    + intros k x [[<- <-]|[_ Hx]]%lookup_insert_Some; [done|by apply W9].
  - eauto.
  - exists []. by rewrite app_nil_r.
  - intros k i Hi. exists i. rewrite lookup_insert_ne by congruence. done.
  - intros k i' [[<- <-]|[_ Hi']]%lookup_insert_Some Hw; [done|]. eauto.
  - intros k r Hr Hs Hw W. split; [done|]. destruct (dw_held d W k r Hr) as (i' & Hi' & Ho). exists i'.
    rewrite lookup_insert_ne by congruence. split; [done|]. apply Ho. by rewrite Hs.
Qed.

Lemma possible_delivery_false id d k r :
  possible_delivery id d = false -> dl_wf d -> dt_parts d !! k = Some r -> k.1.1 = id -> pt_state r = Rejected.
Proof.
  unfold possible_delivery, exists_part. intros Hf W Hr <-. pose proof (dw_states d W k r Hr) as Hs.
  destruct (decide (pt_state r = Rejected)) as [|Hn]; [done|exfalso].
  assert (existsb (fun kv : part_key * part_row => (kv.1.1.1 =? k.1.1)%string &&
    ((pt_state kv.2 =? "sending")%string || (pt_state kv.2 =? Sent)%string || (pt_state kv.2 =? Unknown)%string))
    (map_to_list (dt_parts d)) = true) as Ht; [|congruence].
  apply existsb_exists. exists (k, r). split; [by apply list_elem_of_In, elem_of_map_to_list|]. simpl.
  rewrite String.eqb_refl. simpl.
  repeat (apply elem_of_cons in Hs as [E|Hs]; [rewrite E; first [done|by destruct Hn]|]). by apply not_elem_of_nil in Hs.
Qed.

Lemma take_intent_step o id i d :
  dt_intents d !! id = Some i -> it_state i = "active" -> it_owner i <> o -> possible_delivery id d = false -> dl_wf d ->
  delivered_by (eq o) d (set_intents (<[id := IntentRow (it_edition i) (it_destination i) (it_render i) o
                                         (it_state i) (it_parts_sent i) (it_rich i)]> (dt_intents d)) d).
Proof.
  intros Hi Ha Hne Hp W. split; simpl.
  - intros [W1 W2 W3 W4 W5 W6 W7 W8 W9]. split; simpl; [|done| |done..|].
    + intros a b x y [[<- <-]|[_ Hx]]%lookup_insert_Some [[<- <-]|[_ Hy]]%lookup_insert_Some; simpl; eauto.
    + intros k r Hr. destruct (decide (id = k.1.1)) as [->|].
      * eexists. rewrite lookup_insert_eq. split; [done|]. intros Hs. destruct Hs. by eapply possible_delivery_false.
      * rewrite lookup_insert_ne by done. eauto.
    + intros k x [[<- <-]|[_ Hx]]%lookup_insert_Some; [simpl; by rewrite Ha|by apply W9].
  - eauto.
  - exists []. by rewrite app_nil_r.
  - intros k x Hx. destruct (decide (id = k)) as [->|].
    + eexists. rewrite lookup_insert_eq. assert (x = i) as -> by congruence. split_and!; [done|done|]. by rewrite Ha.
    + exists x. by rewrite lookup_insert_ne.
  - intros k x [[<- <-]|[_ Hx]]%lookup_insert_Some Hw; [done|]. eauto.
  - intros k r Hr Hs Hw _. split; [done|]. destruct (dw_held d W k r Hr) as (x & Hx & Ho). exists x.
    rewrite lookup_insert_ne; [split; [done|]; apply Ho; by rewrite Hs|]. intros ->.
    apply (possible_delivery_false _ d k r Hp W) in Hr; [|done]. by rewrite Hs in Hr.
Qed.

Lemma complete_intent_step o id i n b d :
  dt_intents d !! id = Some i -> it_owner i = o -> it_state i = "active" -> 1 <= n -> all_sent id n b d ->
  part_step o d (set_intents (<[id := IntentRow (it_edition i) (it_destination i) (it_render i) (it_owner i)
                                  "completed" (Some n) (Some b)]> (dt_intents d)) d).
Proof.
  intros Hi Hio Ha Hn Hall. split; [split; simpl|].
  - intros [W1 W2 W3 W4 W5 W6 W7 W8 W9]. split; simpl; [|done| |done..|].
    + intros a c x y [[<- <-]|[_ Hx]]%lookup_insert_Some [[<- <-]|[_ Hy]]%lookup_insert_Some; simpl; eauto.
    + intros k r Hr. destruct (W3 k r Hr) as (x & Hx & Ho). destruct (decide (id = k.1.1)) as [->|].
      * eexists. rewrite lookup_insert_eq. split; [done|]. simpl. assert (x = i) as -> by congruence. done.
      * rewrite lookup_insert_ne by done. eauto.
    + intros k x [[<- <-]|[_ Hx]]%lookup_insert_Some; [intros _; by exists n, b|by apply W9].
  - eauto.
  - exists []. by rewrite app_nil_r.
  - intros k x Hx. destruct (decide (id = k)) as [->|].
    + eexists. rewrite lookup_insert_eq. assert (x = i) as -> by congruence. split_and!; [done|done|]. by rewrite Ha.
    + exists x. by rewrite lookup_insert_ne.
  - intros k x [[<- <-]|[_ Hx]]%lookup_insert_Some Hw; [|eauto]. simpl in Hw. congruence.
  - intros k r Hr Hs Hw W. split; [done|]. destruct (dw_held d W k r Hr) as (x & Hx & Ho).
    destruct (decide (id = k.1.1)) as [->|].
    + eexists. rewrite lookup_insert_eq. split; [done|]. simpl. assert (x = i) as -> by congruence. apply Ho. by rewrite Hs.
    + exists x. rewrite lookup_insert_ne by done. split; [done|]. apply Ho. by rewrite Hs.
  - intros k Hf x Hx Hxo. simpl in Hx. apply lookup_insert_Some in Hx as [[<- <-]|[_ Hx]]; [|eauto]. by apply (Hf i).
Qed.

(** *** The operations *)

Section Operations.
Context `{Postgres}.

Lemma twp_lock_intent {B} (Q : result derr B -> dtables -> option dtables -> Prop) db s id (k : unit -> DM B) t :
  (forall e t', Q (Err e) db (Some t')) ->
  (forall i, dt_intents t !! id = Some i -> it_state i = "active" -> it_owner i = store_owner s -> twp (k tt) Q db t) ->
  twp (lockActiveIntent s id ≫= k) Q db t.
Proof.
  intros He Hk. unfold lockActiveIntent. apply twp_bind. apply twp_exec; [|intros; apply He]. intros lk now. cbn [read].
  destruct (dt_intents t !! id) as [i|] eqn:Hi; [|apply twp_raise, He].
  apply twp_ret_id, twp_guard; [apply He|]. intros Hg. apply twp_ret. exists t. split; [done|].
  apply negb_false_iff, andb_true_iff in Hg as [Hs Ho]. apply String.eqb_eq in Hs. apply bool_decide_eq_true in Ho. eauto.
Qed.

(** What a reservation tells. *)
Definition reservation_told (o : owner) (p : Part) (r : Reservation) (d : dtables) : Prop :=
  match r with
  | New => reserved o (pkey p) (pa_PayloadHash p) d
  | AlreadySent => exists row, dt_parts d !! pkey p = Some row /\ pt_state row = Sent
  | PreviouslyRejected => pa_Method p = rich -> rich_failed o (pa_Intent p) d
  | _ => True
  end.

Lemma reserve_existing_spec s p start i d t :
  dl_wf d -> ready (store_owner s) (pkey p) d ->
  dt_intents d !! pa_Intent p = Some i -> it_owner i = store_owner s -> t = d ->
  twp (reserve_existing s p start)
    (fun r db' tx' => db' = d /\ match r with
     | Ok res => exists t', tx' = Some t' /\ part_step (store_owner s) d t' /\ reservation_told (store_owner s) p res t'
     | Err _ => True end) d t.
Proof.
  intros W Hready Hi Hio ->. unfold reserve_existing. apply twp_exec; [|done]. intros lk now. cbn [read].
  destruct (dt_parts d !! pkey p) as [row|] eqn:Hr; [|by apply twp_raise]. cbn [fmap option_fmap option_map].
  apply twp_guard; [done|]. intros Hh. apply negb_false_iff, String.eqb_eq in Hh.
  assert (forall r : Reservation, reservation_told (store_owner s) p r d -> twp (mret r : DM Reservation)
    (fun r db' tx' => db' = d /\ match r with
     | Ok res => exists t', tx' = Some t' /\ part_step (store_owner s) d t' /\ reservation_told (store_owner s) p res t'
     | Err _ => True end) d d) as Hret.
  { intros r Ht. apply twp_ret. split; [done|]. exists d. by split_and!. }
  destruct (pt_state row =? Sent)%string eqn:Es; [apply Hret; simpl; apply String.eqb_eq in Es; by exists row|].
  destruct (pt_state row =? Rejected)%string eqn:Er; [|by apply Hret]. apply String.eqb_eq in Er.
  destruct (is_429 row && negb _) eqn:E1; [by apply Hret|].
  destruct (negb (bool_decide (pt_owner row = store_owner s)) && _) eqn:E2.
  - apply andb_true_iff in E2 as [Ho E2]. apply negb_true_iff, bool_decide_eq_false in Ho.
    apply twp_exec; [|done]. intros lk2 now2. unfold retake_part. rewrite Hr, Er. change (Rejected =? Rejected)%string with true. cbv iota.
    apply twp_guard; [done|]. intros _. apply twp_ret. split; [done|]. eexists. split; [done|]. rewrite Hh.
    assert (claimable (store_owner s) (pkey p) (pa_PayloadHash p) d) as Hc.
    { right. exists row. split_and!; [done..|]. simpl. intros Hm. rewrite Hm in E2. rewrite orb_false_r in E2.
      by apply bool_decide_eq_true in E2. }
    split; [by apply (claim_step _ _ _ _ _ i)|by apply (claim_reserved _ _ _ _ _ i)].
  - destruct (is_429 row) eqn:E3; [by apply Hret|]. apply Hret. simpl. intros Hm i' Hi' Ho'.
    destruct Hready as [[Hp _]|[Hk _]]; [simpl in Hp; rewrite Hm in Hp; done|]. exists row. rewrite <- Hk at 1.
    split_and!; [done..|]. right. split; [done|]. by apply bool_decide_eq_false in E3.
Qed.

Lemma reserve_spec s p d :
  dl_wf d -> ready (store_owner s) (pkey p) d ->
  twp (reserve_body s p) (fun r d' _ => part_step (store_owner s) d d' /\
    match r with Ok res => reservation_told (store_owner s) p res d' | Err _ => True end) d d.
Proof.
  intros W Hready. unfold reserve_body. apply twp_tx_clock. intros start.
  apply twp_validate; [done|]. intros _. apply twp_lock_intent; [done|]. intros i Hi _ Hio.
  apply twp_exec; [|done]. intros lk now. cbn [read]. destruct (rate_limited _ _ _ _); [by apply twp_ret|].
  apply twp_exec; [|done]. intros lk2 now2. unfold insert_part.
  destruct (dt_parts d !! pkey p) as [row|] eqn:Hr.
  - apply twp_bind. eapply twp_mono; [by apply (reserve_existing_spec s p start i)|].
    intros [res|e] db' tx' [-> Hres]; [|done]. destruct Hres as (t' & -> & Hs & Ht). exists t'. split; [done|].
    by apply twp_commit.
  - apply twp_bind, twp_ret. eexists. split; [done|].
    assert (claimable (store_owner s) (pkey p) (pa_PayloadHash p) d) as Hc by (by left).
    pose proof (claim_step _ (pkey p) _ start d i Hi Hio Hc Hready). pose proof (claim_reserved _ (pkey p) _ start d i Hi Hio Hc W Hready).
    by apply twp_commit.
Qed.

Lemma finish_part_spec s p r d :
  answered (store_owner s) (pkey p) (pa_PayloadHash p) (rs_State r) d -> rs_State r ∈ [Sent; Rejected; Unknown] ->
  twp (finish_body s p r) (fun res d' _ => part_step (store_owner s) d d' /\
    (res = Ok tt -> exists row, dt_parts d' !! pkey p = Some row /\ pt_state row = rs_State r /\ pt_owner row = store_owner s)) d d.
Proof.
  intros Ha Hst. unfold finish_body. apply twp_tx_clock. intros start.
  apply twp_validate; [done|]. intros _. apply twp_lock_intent; [done|]. intros i Hi _ Hio.
  apply twp_exec; [|done]. intros lk now. unfold finish_part.
  pose proof Ha as [(row & Hr & Hs & Ho & Hh) _ _]. rewrite Hr, Hh, String.eqb_refl, Ho, Hs, bool_decide_eq_true_2 by done.
  cbn [andb String.eqb Ascii.eqb Bool.eqb]. cbv iota. apply twp_guard; [done|]. intros _.
  set (new := PartRow _ _ _ _ _ _ _).
  assert (part_step (store_owner s) d (set_parts (<[pkey p := new]> (dt_parts d)) d)) as Hstep.
  { by apply (finish_step _ _ (pa_PayloadHash p) _ i new). }
  apply twp_commit; split; try done. intros _. exists new. simpl. by rewrite lookup_insert_eq.
Qed.

(** Only a POST can be confirmed or unknown. *)
Lemma Send_states t method payload sw :
  rs_State (Send t method payload sw).1 ∈ [Sent; Rejected; Unknown] /\
  ((Send t method payload sw).2 = false -> rs_State (Send t method payload sw).1 = Rejected).
Proof.
  unfold Send. repeat (case_match; simpl; [split; [set_solver|done]|]).
  destruct (sw_answer sw) as [a|]; simpl; [|split; [set_solver|done]].
  split; [|done]. unfold read_answer. repeat case_match; simpl; set_solver.
Qed.

Context (network : Z -> send_world) (sha256hex : string -> string).

Lemma rg_check (f : Fence) o (Q : result derr unit -> dtables -> Prop) d :
  (forall r d1, others o d d1 -> Q r d1) -> rgwp (others o) (part_step o) (Check ErrStale ErrDb f) Q d.
Proof.
  intros HQ. unfold Check. apply rg_with_tx; [apply _|apply _|]. intros d1 HR. split; [|by apply HQ].
  apply twp_validate; [split; [reflexivity|by apply HQ]|]. intros _.
  apply twp_commit; (split; [reflexivity|by apply HQ]).
Qed.

Lemma rg_or_err {A} o (m : DM A) e (Q : result derr A -> dtables -> Prop) d :
  rgwp (others o) (part_step o) m (fun r d' => Q (match r with Ok a => Ok a | Err _ => Err e end) d') d ->
  rgwp (others o) (part_step o) (or_err m e) Q d.
Proof.
  intros Hm. unfold or_err. apply rg_bind, rg_try. eapply rg_mono; [exact Hm|].
  intros [a|e'] d' HQ; [by apply rg_ret|by apply rg_raise].
Qed.

Lemma rg_reserve s p (Q : result derr Reservation -> dtables -> Prop) d :
  dl_wf d -> ready (store_owner s) (pkey p) d ->
  (forall r d', (forall res, r = Ok res -> reservation_told (store_owner s) p res d') -> Q r d') ->
  rgwp (others (store_owner s)) (part_step (store_owner s)) (Reserve s p) Q d.
Proof.
  intros W Hready HQ. unfold Reserve. apply rg_with_tx; [apply _|apply _|]. intros d1 HR.
  assert (dl_wf d1) as W1 by by apply (db_wf _ _ _ HR).
  assert (ready (store_owner s) (pkey p) d1) as Hr1.
  { destruct Hready as [[Hp Hf]|?]; [left|by right]. split; [done|]. intros Ho. eapply others_failed; [done|auto]. }
  split; [|by apply HQ]. eapply twp_mono; [by apply reserve_spec|]. intros r d' _ [Hs Ht].
  split; [done|]. apply HQ. intros res ->. done.
Qed.

Lemma rg_send dl p (Q : result derr Result -> dtables -> Prop) d :
  let o := store_owner (dv_Store dl) in
  dl_wf d -> reserved o (pkey p) (pa_PayloadHash p) d ->
  (forall r d', rs_State r ∈ [Sent; Rejected; Unknown] -> answered o (pkey p) (pa_PayloadHash p) (rs_State r) d' ->
     dl_wf d' -> Q (Ok r) d') ->
  rgwp (others o) (part_step o) (send network dl p) Q d.
Proof.
  intros o W Hres HQ w <- Ht Hr. unfold send. destruct (next_event w) as [ev w1] eqn:Hn.
  pose proof (attributed_next (part_step o) _ _ _ Hn Ht) as Ha. pose proof (later_next _ _ _ Hn) as Hl.
  destruct (rely_step (others o) _ _ _ Hn Ht Hr) as (HR & Ht1 & _).
  pose proof (reserved_stable _ _ _ _ _ HR W Hres) as Hres1.
  assert (dl_wf (w_db w1)) as W1 by by apply (db_wf _ _ _ HR).
  pose proof (Send_states (dv_Sender dl) (pa_Method p) (pa_Payload p) (network (ev_app ev))) as [Hst Hno].
  destruct (Send _ _ _ _) as [r posted]. simpl in *. destruct posted; simpl.
  - pose proof (post_step o (pkey p) (pa_PayloadHash p) (rs_State r) _ Hres1) as Hstep.
    unfold set_cur, cur. rewrite Ht1. simpl. split_and!; [| |done|by eapply later_env].
    + etrans; [exact Ha|]. apply rtc_once. by right.
    + apply HQ; [done|by apply post_answered|]. apply (db_wf _ _ _ (proj1 Hstep)), W1.
  - split_and!; [done| |done|done]. apply HQ; [done| |done]. rewrite Hno by done. by apply unposted_answered.
Qed.

Lemma rg_finish s p r (Q : result derr unit -> dtables -> Prop) d :
  let o := store_owner s in
  dl_wf d -> answered o (pkey p) (pa_PayloadHash p) (rs_State r) d -> rs_State r ∈ [Sent; Rejected; Unknown] ->
  (forall res d', (res = Ok tt -> exists row, dt_parts d' !! pkey p = Some row /\ pt_state row = rs_State r /\ pt_owner row = o) -> Q res d') ->
  rgwp (others o) (part_step o) (Finish s p r) Q d.
Proof.
  intros o W Ha Hst HQ. unfold Finish. apply rg_guard; [by apply HQ|]. intros _.
  apply rg_with_tx; [apply _|apply _|]. intros d1 HR. split; [|by apply HQ].
  eapply twp_mono; [apply finish_part_spec; [by eapply answered_stable|done]|]. intros res d' _ [Hs Ht]. split; [done|]. by apply HQ.
Qed.

(** *** One part *)

(** What [part] tells when it succeeds. *)
Definition part_told (o : owner) (p : Part) (st : string) (d : dtables) : Prop :=
  st = Sent /\ (exists row, dt_parts d !! pkey p = Some row /\ pt_state row = Sent) \/
  st = Rejected /\ (pa_Method p = rich -> rich_failed o (pa_Intent p) d).

Lemma dl_wf_part_step o a b : part_step o a b -> dl_wf a -> dl_wf b.
Proof. intros [Hd _]. apply Hd. Qed.
Lemma dl_wf_others o a b : others o a b -> dl_wf a -> dl_wf b.
Proof. intros Hd. apply Hd. Qed.

Lemma deliver_part_told dl p d :
  let o := store_owner (dv_Store dl) in
  dl_wf d -> ready o (pkey p) d ->
  rgwp (others o) (part_step o) (deliver_part network dl p)
    (fun r d' => forall st, r = Ok st -> part_told o p st d') d.
Proof.
  intros o W Hready. unfold deliver_part. apply rg_bind, rg_check. intros [[]|e] d1 H1; [|done].
  assert (dl_wf d1) as W1 by by eapply dl_wf_others.
  assert (ready o (pkey p) d1) as Hr1.
  { destruct Hready as [[Hp Hf]|?]; [left|by right]. split; [done|]. intros Ho. eapply others_failed; [done|auto]. }
  apply rg_bind, rg_or_err.
  eapply rg_mono; [apply (rg_stable _ _ _ (fun r d' => forall res, r = Ok res -> reservation_told o p res d') dl_wf);
    [apply dl_wf_others|apply dl_wf_part_step|exact W1|apply rg_reserve; [done|done|auto]]|].
  intros [res|e] d2 [W2 Ht]; [|done]. specialize (Ht res eq_refl).
  destruct res; simpl in Ht; try (by apply rg_raise).
  - apply rg_bind, rg_or_err, rg_check. intros [[]|e] d3 H3; [|done].
    pose proof (reserved_stable _ _ _ _ _ H3 W2 Ht) as Hres. assert (dl_wf d3) as W3 by by eapply dl_wf_others.
    apply rg_bind, rg_send; [done|done|]. intros r d4 Hst Ha W4.
    apply rg_bind, rg_or_err, rg_check. intros [[]|e] d5 H5; [|done].
    pose proof (answered_stable _ _ _ _ _ _ H5 W4 Ha) as Ha5. assert (dl_wf d5) as W5 by by eapply dl_wf_others.
    apply rg_bind, rg_or_err, rg_finish; [done..|]. intros [[]|e] d6 Hf; [|done].
    destruct (Hf eq_refl) as (row & Hrow & Hs & Ho). clear Hf.
    destruct (_ && _); [by apply rg_raise|]. destruct (_ =? Unknown)%string eqn:Eu; [by apply rg_raise|].
    destruct (_ && _) eqn:En; [by apply rg_raise|]. apply rg_ret. intros st [= <-].
    apply String.eqb_neq in Eu. apply elem_of_cons in Hst as [E|[E|[?|?%not_elem_of_nil]%elem_of_cons]%elem_of_cons]; [..|done|done].
    + left. split; [done|]. exists row. split; [done|]. congruence.
    + right. split; [done|]. intros Hm i Hi Hio. exists row.
      destruct Hready as [[Hp _]|[Hk _]]; [simpl in Hp; rewrite Hm in Hp; done|].
      rewrite Hk in Hrow. simpl in Hrow. split_and!; [done|congruence|by left].
  - apply rg_ret. intros st [= <-]. by left.
  - apply rg_ret. intros st [= <-]. by right.
Qed.

(** *** Intents and reports *)

Definition completed_as (id : string) (n : Z) (b : bool) (d : dtables) : Prop :=
  exists i, dt_intents d !! id = Some i /\ it_state i = "completed" /\ it_parts_sent i = Some n /\ it_rich i = Some b.

Lemma sent_row_mono who k d d' : delivered_by who d d' -> sent_row k d -> sent_row k d'.
Proof.
  intros Hd (r & Hr & Hs). destruct (db_rows _ _ _ Hd k r Hr) as (r' & Hr' & _ & E). exists r'. rewrite E by tauto.
  rewrite E in Hr' by tauto. done.
Qed.
Lemma completed_as_mono who id n b d d' : delivered_by who d d' -> completed_as id n b d -> completed_as id n b d'.
Proof.
  intros Hd (i & Hi & Hs & Hn). destruct (db_intents _ _ _ Hd id i Hi) as (i' & Hi' & _ & E). rewrite (E Hs) in Hi'.
  by exists i.
Qed.

Lemma rg_complete s id n b (Q : result derr unit -> dtables -> Prop) d :
  all_sent id n b d -> (forall r d', (r = Ok tt -> completed_as id n b d') -> Q r d') ->
  rgwp (others (store_owner s)) (part_step (store_owner s)) (Complete s id n b) Q d.
Proof.
  intros Hall HQ. unfold Complete. apply rg_guard; [by apply HQ|]. intros Hn. apply Z.ltb_ge in Hn.
  apply rg_with_tx; [apply _|apply _|]. intros d1 HR. split; [|by apply HQ].
  assert (all_sent id n b d1) as Hall1 by (eapply all_sent_mono, Hall; intros k; by apply (sent_row_mono _ k _ _ HR)).
  apply twp_validate; [split; [reflexivity|by apply HQ]|]. intros _.
  apply twp_lock_intent; [split; [reflexivity|by apply HQ]|]. intros i Hi Ha Hio.
  apply twp_exec; [|split; [reflexivity|by apply HQ]]. intros lk now. unfold complete_intent.
  rewrite Hi, Ha, Hio, bool_decide_eq_true_2 by done. cbn [andb String.eqb Ascii.eqb Bool.eqb]. cbv iota.
  apply twp_guard; [split; [reflexivity|by apply HQ]|]. intros _.
  pose proof (complete_intent_step (store_owner s) id i n b d1 Hi Hio Ha Hn Hall1) as Hstep. rewrite Hio in Hstep.
  apply twp_commit; split; try done; try (by apply HQ); try reflexivity. apply HQ. intros _.
  eexists. simpl. by rewrite lookup_insert_eq.
Qed.

(** What a resolved intent is. *)
Definition intent_told (o : owner) (edition destination render : string) (r : Intent) (d : dtables) : Prop :=
  exists i, dt_intents d !! in_ID r = Some i /\ it_edition i = edition /\ it_destination i = destination /\
    it_render i = render /\
    (if in_Completed r then it_state i = "completed" /\ it_parts_sent i = Some (in_PartsSent r) /\ it_rich i = Some (in_RichMessage r)
     else it_state i = "active" /\ it_owner i = o).

Lemma resolve_row_spec s id render i db t (Q : result derr Intent -> dtables -> option dtables -> Prop) :
  dl_wf t -> dt_intents t !! id = Some i -> (forall e t', Q (Err e) db t') ->
  (forall r t', delivered_by (eq (store_owner s)) t t' ->
     intent_told (store_owner s) (it_edition i) (it_destination i) render r t' -> Q (Ok r) db (Some t')) ->
  twp (resolve_row s id render i) Q db t.
Proof.
  intros W Hi He HQ. unfold resolve_row. apply twp_guard; [apply He|]. intros Hr. apply negb_false_iff, String.eqb_eq in Hr.
  destruct (it_state i =? "completed")%string eqn:Ec.
  { apply String.eqb_eq in Ec. destruct (it_parts_sent i) as [n|] eqn:En, (it_rich i) as [b|] eqn:Eb; try apply twp_raise, He.
    apply twp_ret, HQ; [reflexivity|]. by exists i. }
  destruct (it_state i =? "active")%string eqn:Ea; [|apply twp_raise, He]. apply String.eqb_eq in Ea. cbn [negb].
  case_bool_decide as Ho; cbn [negb].
  { apply twp_ret, HQ; [reflexivity|]. by exists i. }
  apply twp_exec; [|intros; apply He]. intros lk now. cbn [read]. apply twp_guard; [apply He|]. intros Hp.
  apply twp_exec; [|intros; apply He]. intros lk2 now2. unfold take_intent. rewrite Hi, Ea. cbn [String.eqb Ascii.eqb Bool.eqb].
  cbv iota. apply twp_guard; [apply He|]. intros _. apply twp_ret, HQ.
  - pose proof (take_intent_step (store_owner s) id i t Hi Ea Ho Hp W) as Hs. by rewrite Ea in Hs.
  - eexists. simpl. by rewrite lookup_insert_eq.
Qed.

Lemma insert_intent_spec s id edition destination render d lk now :
  match insert_intent s id edition destination render lk now d with
  | (Ok _, t) => delivered_by (eq (store_owner s)) d t
  | (Err _, t) => t = d
  end.
Proof.
  unfold insert_intent. destruct (find_intent edition destination d) as [x|] eqn:Hf; [reflexivity|].
  destruct (dt_intents d !! id) as [y|] eqn:Hid; [done|]. by apply new_intent_step.
Qed.

Lemma rg_resolve s id edition destination render (Q : result derr Intent -> dtables -> Prop) d :
  dl_wf d ->
  (forall r d', (forall intent, r = Ok intent -> intent_told (store_owner s) edition destination render intent d') -> Q r d') ->
  rgwp (others (store_owner s)) (delivered_by (eq (store_owner s))) (ResolveIntent s id edition destination render) Q d.
Proof.
  intros W HQ. unfold ResolveIntent. apply rg_with_tx; [apply _|apply _|]. intros d1 HR. split; [|by apply HQ].
  assert (dl_wf d1) as W1 by by eapply dl_wf_others.
  unfold resolve_body. apply twp_validate; [split; [reflexivity|by apply HQ]|]. intros _.
  apply twp_exec; [|split; [reflexivity|by apply HQ]]. intros lk now.
  pose proof (insert_intent_spec s id edition destination render d1 lk now) as Hins.
  destruct (insert_intent _ _ _ _ _ _ _ _) as [[[]|e] t]; [|split; [reflexivity|by apply HQ]].
  apply twp_exec; [|split; [reflexivity|by apply HQ]]. intros lk2 now2. cbn [read].
  destruct (find_intent edition destination t) as [[found i]|] eqn:Hf; [|apply twp_raise; split; [reflexivity|by apply HQ]].
  apply find_intent_some in Hf as (Hi & He & Hd). apply twp_bind. apply resolve_row_spec.
  - by apply (db_wf _ _ _ Hins).
  - done.
  - intros e t'. split; [reflexivity|by apply HQ].
  - intros r t' Hs Htold. exists t'. split; [done|]. rewrite He, Hd in Htold.
    assert (delivered_by (eq (store_owner s)) d1 t') as Hst by by etrans.
    apply twp_commit; split; try done; try (by apply HQ); try reflexivity. apply HQ. by intros intent [= <-].
Qed.

(** *** Publishing *)

(** Before plain part [j]: the rich form is out, the parts before [j] are confirmed. *)
Definition plain_state (o : owner) (id : string) (j : Z) (d : dtables) : Prop :=
  dl_wf d /\ (rich_owner o = true -> rich_failed o id d) /\ forall x, 0 <= x < j -> sent_row (id, plain, x) d.

Lemma plain_state_others o id j a b : others o a b -> plain_state o id j a -> plain_state o id j b.
Proof.
  intros Hd (W & Hf & Hs). split_and!; [by eapply dl_wf_others|intros Ho; eapply others_failed; eauto|].
  intros x Hx. eapply sent_row_mono; eauto.
Qed.
Lemma plain_state_step o id j a b : part_step o a b -> plain_state o id j a -> plain_state o id j b.
Proof.
  intros [Hd Hk] (W & Hf & Hs). split_and!; [by apply (db_wf _ _ _ Hd)|auto|].
  intros x Hx. eapply sent_row_mono; eauto.
Qed.

(** A plain part, its predecessors confirmed. *)
Lemma plain_part_told dl p id j d :
  let o := store_owner (dv_Store dl) in
  pkey p = (id, plain, j) -> 0 <= j -> plain_state o id j d ->
  rgwp (others o) (part_step o) (deliver_part network dl p)
    (fun r d' => plain_state o id j d' /\ (r = Ok Sent -> plain_state o id (j + 1) d')) d.
Proof.
  intros o Hk Hj Hp.
  eapply rg_mono; [apply (rg_stable _ _ _ (fun r d' => forall st, r = Ok st -> part_told o p st d') (plain_state o id j));
    [apply plain_state_others|apply plain_state_step|exact Hp|]|].
  - apply deliver_part_told; [apply Hp|]. left. rewrite Hk. split; [done|]. apply Hp.
  - intros r d' [Hp' Ht]. split; [done|]. intros ->. destruct (Ht Sent eq_refl) as [[_ Hs]|[? _]]; [|done].
    destruct Hp' as (W & Hf & Hs'). split_and!; [done..|]. intros x Hx. destruct (decide (x = j)) as [->|]; [by rewrite <- Hk|].
    apply Hs'. lia.
Qed.

Lemma send_plain_told dl id destination total parts : forall j d,
  let o := store_owner (dv_Store dl) in
  0 <= j -> plain_state o id j d ->
  rgwp (others o) (part_step o) (send_plain network sha256hex dl id destination parts total j)
    (fun r d' => forall n report, r = Ok (n, report) -> plain_state o id n d' /\
       match report with None => n = j + Z.of_nat (length parts) | Some rep => rep = MkReport false n total false end) d.
Proof.
  induction parts as [|text parts IH]; intros j d o Hj Hp; simpl.
  - apply rg_ret. intros n report [= <- <-]. split; [done|lia].
  - apply rg_bind, rg_try. eapply rg_mono; [by apply (plain_part_told dl _ id j)|].
    intros [st|e] d1 [Hp1 Hs]; [|destruct e; try (by apply rg_raise); apply rg_ret; by intros n report [= <- <-]].
    destruct (st =? Sent)%string eqn:E; cbn [negb].
    + apply String.eqb_eq in E. subst st. eapply rg_mono; [apply IH; [lia|by apply Hs]|].
      intros r d' Hr n report Heq. destruct (Hr n report Heq) as [Hn Hrep]. split; [done|].
      destruct report; [done|]. lia.
    + apply rg_ret. by intros n report [= <- <-].
Qed.

(** What a report says of the intent. *)
Definition report_told (id : string) (r : Report) (d : dtables) : Prop :=
  if rp_success r then
    completed_as id (rp_parts_sent r) (rp_rich_message r) d /\ rp_parts_total r = rp_parts_sent r /\
    all_sent id (rp_parts_sent r) (rp_rich_message r) d
  else if rp_rich_message r then rp_parts_sent r = 0
  else all_sent id (rp_parts_sent r) false d.

Lemma report_complete o id n b (k : Report) d s :
  store_owner s = o -> all_sent id n b d -> k = MkReport true n n b ->
  rgwp (others o) (part_step o) (_ ← Complete s id n b; mret k) (fun r d' => forall rep, r = Ok rep -> report_told id rep d') d.
Proof.
  intros <- Hall ->. apply rg_bind.
  eapply rg_mono; [apply (rg_stable _ _ _ (fun r d' => r = Ok tt -> completed_as id n b d') (all_sent id n b));
    [| |exact Hall|apply (rg_complete s id n b); [done|auto]]|].
  - intros x y Hxy. apply all_sent_mono. intros k. by eapply sent_row_mono.
  - intros x y [Hxy _]. apply all_sent_mono. intros k. by eapply sent_row_mono.
  - intros [[]|e] d' [Ha Hc]; [|done]. apply rg_ret. intros rep [= <-]. split_and!; [by apply Hc|done|done].
Qed.

Lemma publish_plain_told dl id destination r d :
  let o := store_owner (dv_Store dl) in
  plain_state o id 0 d ->
  rgwp (others o) (part_step o) (publish_plain_parts network sha256hex dl id destination r)
    (fun res d' => forall rep, res = Ok rep -> report_told id rep d') d.
Proof.
  intros o Hp. unfold publish_plain_parts. apply rg_bind. eapply rg_mono; [by apply send_plain_told|].
  intros [[n report]|e] d1 Hr; [|done]. destruct (Hr n report eq_refl) as [Hn Hrep]. destruct report as [rep|].
  - subst rep. apply rg_ret. intros rep [= <-]. exact (proj2 (proj2 Hn)).
  - rewrite Z.add_0_l in Hrep. rewrite <- Hrep. apply (report_complete o id n false); [done|exact (proj2 (proj2 Hn))|done].
Qed.

Lemma publish_open_told is_rich dl id destination r d :
  let o := store_owner (dv_Store dl) in
  is_rich = rich_owner o -> dl_wf d ->
  rgwp (others o) (part_step o) (publish_open network sha256hex is_rich dl id destination r)
    (fun res d' => forall rep, res = Ok rep -> report_told id rep d') d.
Proof.
  intros o Hrich W. unfold publish_open. destruct is_rich.
  - apply rg_bind, rg_try.
    eapply rg_mono; [apply (rg_stable _ _ _ (fun r' d' => forall st, r' = Ok st -> part_told o (rich_part sha256hex id destination r) st d') dl_wf);
      [apply dl_wf_others|apply dl_wf_part_step|exact W|apply deliver_part_told; [done|by right]]|].
    intros [st|e] d1 [W1 Ht].
    + specialize (Ht st eq_refl). destruct Ht as [[-> Hs]|[-> Hf]].
      * change (Sent =? Sent)%string with true. cbv iota. apply (report_complete o id 1 true); done.
      * change (Rejected =? Sent)%string with false. cbv iota. apply publish_plain_told. split_and!; [done| |lia].
        intros _. by apply Hf.
    + destruct e; try (by apply rg_raise). apply rg_ret. by intros rep [= <-].
  - apply publish_plain_told. split_and!; [done| |lia]. fold o. by rewrite <- Hrich.
Qed.

(** A call that leaves the delivery tables alone, such as reading the settings. *)
Definition looks_up {A} (o : owner) (m : DM A) : Prop :=
  forall (Q : result derr A -> dtables -> Prop) d, (forall r d', others o d d' -> Q r d') ->
    rgwp (others o) (delivered_by (eq o)) m Q d.

Lemma publishPrepared_told c job attempt instance f p d :
  let o := Owner job attempt instance in
  se_TelegramRich c = rich_owner o -> looks_up o (se_destination c) -> looks_up o (se_token c) -> dl_wf d ->
  rgwp (others o) (delivered_by (eq o)) (publishPrepared network sha256hex c job attempt instance f p)
    (fun r d' => forall rep, r = Ok rep -> exists id, report_told id rep d') d.
Proof.
  intros o Hrich Hdest Htoken W. unfold publishPrepared. apply rg_bind.
  assert (rgwp (others o) (delivered_by (eq o)) (publish_destination c p) (fun _ d1 => dl_wf d1) d) as Hd.
  { unfold publish_destination. destruct (pr_Destination p =? "")%string; [|by apply rg_ret].
    apply rg_guard; [done|]. intros _. apply rg_guard; [done|]. intros _. apply rg_try, Hdest.
    intros r d' Ho. by eapply dl_wf_others. }
  eapply rg_mono; [exact Hd|]. intros [found|e] d1 W1; [|done]. apply rg_bind, Htoken. intros [token|e] d2 H2; [|done].
  assert (dl_wf d2) as W2 by by eapply dl_wf_others.
  destruct found as [destination|e]; [|by apply rg_raise]. apply rg_guard; [done|]. intros _.
  apply rg_bind. apply rg_rand; [apply _|apply _| |done]. intros random d3 H3.
  assert (dl_wf d3) as W3 by by eapply dl_wf_others. cbv zeta.
  set (store := MkStore f job instance attempt). apply rg_bind.
  eapply rg_mono; [apply (rg_stable _ _ _ (fun r d' => forall intent, r = Ok intent ->
      intent_told o (pr_EditionID p) (sha256hex destination) (sha256hex (rendered_text (pr_Rendered p))) intent d') dl_wf);
    [apply dl_wf_others|intros a b Hab; apply Hab|exact W3|apply (rg_resolve store); [done|auto]]|].
  intros [intent|e] d4 [W4 Ht]; [|done]. destruct (Ht intent eq_refl) as (i & Hi & _ & _ & _ & Hst).
  destruct (in_Completed intent).
  - apply rg_ret. intros rep [= <-]. exists (in_ID intent). destruct Hst as (Hs & Hn & Hb).
    destruct (dw_completed d4 W4 _ _ Hi Hs) as (n & b & Hn' & Hb' & _ & Hall).
    assert (n = in_PartsSent intent) as -> by congruence. assert (b = in_RichMessage intent) as -> by congruence.
    split_and!; [by exists i|done|done].
  - pose proof (publish_open_told (se_TelegramRich c) (MkDelivery store (MkTransport (se_endpoint c) token) f)
      (in_ID intent) destination (pr_Rendered p) d4 Hrich W4) as Hopen.
    eapply rg_mono; [exact (rg_weaken _ _ _ _ _ _ (fun a b Hab => proj1 Hab) Hopen)|].
    intros r d' Hr rep ->. exists (in_ID intent). by apply Hr.
Qed.
End Operations.
End Safety.

(** ** Histories of publication *)

Section DeliveryHistory.
Context `{Postgres} (rich_owner : owner -> bool) (network : Z -> send_world) (sha256hex : string -> string).

(** Tables that publications can lead to: each by an owner of its own, under any
    failures and alongside any sessions that act for other owners only. *)
Inductive published : dtables -> Prop :=
| published_start q : published (DTables q ∅ ∅ [])
| published_run c job attempt instance f p w :
    let o := Owner job attempt instance in
    published (w_db w) -> w_tx w = None -> rely (others rich_owner o) (w_env w) ->
    se_TelegramRich c = rich_owner o -> looks_up rich_owner o (se_destination c) -> looks_up rich_owner o (se_token c) ->
    published (w_db (publishPrepared network sha256hex c job attempt instance f p w).2).

Lemma empty_wf q : dl_wf rich_owner (DTables q ∅ ∅ []).
Proof.
  split; simpl; try (intros; by rewrite lookup_empty in *); try (by intros ? ?%not_elem_of_nil).
  intros [] ? ?; done.
Qed.

Lemma published_wf d : published d -> dl_wf rich_owner d.
Proof.
  induction 1 as [q|c job attempt instance f p w o _ IH Ht Hr Hrich Hd Htok]; [apply empty_wf|].
  destruct (publishPrepared_told rich_owner network sha256hex c job attempt instance f p (w_db w) Hrich Hd Htok IH w eq_refl Ht Hr)
    as (Ha & _).
  eapply (attributed_stable (others rich_owner o) (delivered_by rich_owner (eq o)) (dl_wf rich_owner)); [..|exact Ha|exact IH].
  - apply dl_wf_others.
  - intros a b Hab. apply Hab.
  - done.
Qed.

(** C3: No digest is delivered twice.  After any history of publications, with
    failures anywhere, lost commits, other publishers at work and jobs taken over
    by later attempts: once a POST of a part may have been accepted by Telegram,
    that part is never posted again, and its intent is not posted in the other
    form (rich or plain) either.  An edition has one intent per destination, and
    a part is recorded as sent only when Telegram confirmed one of its POSTs. *)
Theorem no_repeat_delivery d :
  published d ->
  (forall l1 p l2 q, dt_posts d = l1 ++ p :: l2 -> po_state p <> Rejected -> q ∈ l2 ->
     po_key q <> po_key p /\ ((po_key q).1.1 = (po_key p).1.1 -> (po_key q).1.2 = (po_key p).1.2)) /\
  (forall k r, dt_parts d !! k = Some r -> pt_state r = Sent -> exists p, p ∈ dt_posts d /\ po_key p = k /\ po_state p = Sent) /\
  (forall a b i j, dt_intents d !! a = Some i -> dt_intents d !! b = Some j ->
     it_edition i = it_edition j -> it_destination i = it_destination j -> a = b).
Proof.
  intros W%published_wf. split_and!; [|apply (dw_confirmed _ d W)|apply (dw_unique _ d W)].
  intros l1 p l2 q E Hp Hq. pose proof (dw_once _ d W l1 p l2 E Hp) as Hall. rewrite Forall_forall in Hall.
  specialize (Hall q Hq). unfold competes in Hall. split; [tauto|]. intros Hid.
  destruct (decide ((po_key q).1.2 = (po_key p).1.2)) as [|Hm]; [done|]. destruct Hall. by right.
Qed.

End DeliveryHistory.

(** ** A sample publication *)

Module DeliverySample.
#[local] Existing Instance ExecSample.pg_plain.

Definition tables : dtables := DTables FenceSample.queue ∅ ∅ [].
Definition world0 : world dtables := World tables None ExecSample.now [].

Definition confirmed : json := JObj [("ok", JBool true); ("result", JObj [("message_id", JNum "42")])].
Definition network : Z -> send_world := fun _ =>
  SendWorld true true (Some (HttpAnswer 200 (HttpBody false 60 (lex_of confirmed) AtEof) None)).
Definition settings : Settings := MkSettings (mret "-100") (mret "token")
  (Some (MkURL "https" "api.telegram.org" false "" "")) false.
Definition prepared : Prepared := MkPrepared "edition" "" false "ru" (MkRendered "<b>news</b>" (Some ["one"; "two"]) "news").
Definition publish : DM Report :=
  publishPrepared network (fun s => s) settings "j" 1 ExecSample.instance FenceSample.fence prepared.
Definition rich_owner : owner -> bool := fun _ => false.

Lemma looks_up_ret {A} o (a : A) : looks_up rich_owner o (mret a : DM A).
Proof. intros Q d HQ. apply rg_ret, HQ. reflexivity. Qed.
End DeliverySample.

Lemma no_repeat_delivery_witness :
  let d := w_db (DeliverySample.publish DeliverySample.world0).2 in
  map po_state (dt_posts d) = [Sent; Sent] /\
  forall l1 p l2 q, dt_posts d = l1 ++ p :: l2 -> po_state p <> Rejected -> q ∈ l2 -> po_key q <> po_key p.
Proof.
  split; [by_eval|]. intros l1 p l2 q E Hp Hq.
  assert (published (H := ExecSample.pg_plain) DeliverySample.rich_owner DeliverySample.network (fun s => s)
    (w_db (DeliverySample.publish DeliverySample.world0).2)) as Hpub.
  { apply published_run; [apply published_start|done|constructor|done|apply DeliverySample.looks_up_ret..]. }
  pose proof (no_repeat_delivery (H := ExecSample.pg_plain) DeliverySample.rich_owner DeliverySample.network (fun s => s) _ Hpub)
    as [Hno _]. by apply (Hno l1 p l2 q).
Defined.


(** ** What an answer means *)

(** The answer has a body that was read whole and is the document [raw]. *)
Definition readable (a : http_answer) (raw : tg_raw) : Prop :=
  bd_failed (ha_body a) = false /\ bd_length (ha_body a) <= 65536 /\ unmarshal_tg (ha_body a) = Some raw.

Lemma retry_after_finite raw header n : retry_after raw header = Some n -> finiteNonnegative n = true.
Proof.
  unfold retry_after. destruct raw as [x|]; simpl.
  - destruct (finiteNonnegative x) eqn:E; [by intros [= <-]|]. destruct header as [y|]; simpl; [|done].
    destruct (finiteNonnegative y) eqn:E2; [by intros [= <-]|done].
  - destruct header as [y|]; simpl; [|done]. destruct (finiteNonnegative y) eqn:E2; [by intros [= <-]|done].
Qed.

Lemma read_answer_sent a :
  rs_State (read_answer a) = Sent <->
  exists raw, readable a raw /\ ha_status a = 200 /\ tg_OK raw = Some true /\ rs_MessageID (read_answer a) = tg_MessageID raw.
Proof.
  unfold read_answer, readable. destruct (bd_failed _) eqn:Ef; simpl; [split; [done|by intros (? & (? & _) & _)]|].
  destruct (65536 <? _) eqn:El; simpl; [apply Z.ltb_lt in El; split; [done|intros (? & (_ & ? & _) & _); lia]|].
  apply Z.ltb_ge in El. destruct (unmarshal_tg _) as [raw|]; [|split; [done|by intros (? & (_ & _ & ?) & _)]].
  destruct (tg_OK raw) as [ok|] eqn:Eo; [|split; [done|intros (? & (_ & _ & [= <-]) & _ & ? & _); congruence]].
  destruct (ha_status a =? 200) eqn:E2; simpl.
  - apply Z.eqb_eq in E2. destruct ok; simpl.
    + split; [intros _|done]. by exists raw.
    + rewrite E2. simpl. split; [done|]. intros (? & (_ & _ & [= <-]) & _ & ? & _). congruence.
  - apply Z.eqb_neq in E2. split; [by destruct (_ && _)|]. by intros (? & _ & ? & _).
Qed.

Lemma read_answer_rejected a :
  rs_State (read_answer a) = Rejected <-> exists raw, readable a raw /\ 400 <= ha_status a < 500 /\ tg_OK raw = Some false.
Proof.
  unfold read_answer, readable. destruct (bd_failed _) eqn:Ef; simpl; [split; [done|by intros (? & (? & _) & _)]|].
  destruct (65536 <? _) eqn:El; simpl; [apply Z.ltb_lt in El; split; [done|intros (? & (_ & ? & _) & _); lia]|].
  apply Z.ltb_ge in El. destruct (unmarshal_tg _) as [raw|]; [|split; [done|by intros (? & (_ & _ & ?) & _)]].
  destruct (tg_OK raw) as [ok|] eqn:Eo; [|split; [done|intros (? & (_ & _ & [= <-]) & _ & ?); congruence]].
  destruct ok; rewrite ?andb_true_r, ?andb_false_r; simpl.
  - split; [by destruct (_ =? _)|]. intros (? & (_ & _ & [= <-]) & _ & ?). congruence.
  - destruct ((400 <=? ha_status a) && (ha_status a <? 500)) eqn:E4.
    + split; [intros _|done]. exists raw. apply andb_true_iff in E4 as [?%Z.leb_le ?%Z.ltb_lt]. by split_and!.
    + split; [done|]. intros (? & _ & [H1 H2] & _). apply Z.leb_le in H1. apply Z.ltb_lt in H2. by rewrite H1, H2 in E4.
Qed.

Lemma read_answer_retry a n :
  rs_RetryAfterSeconds (read_answer a) = Some n -> rs_StatusCode (read_answer a) = 429 /\ finiteNonnegative n = true.
Proof.
  unfold read_answer. repeat (case_match; simpl; try done). intros Hr%retry_after_finite.
  split; [by apply Z.eqb_eq|done].
Qed.

(** The refusals before any POST. *)
Definition send_refused (t : Transport) (method : string) (payload : json) (sw : send_world) : bool :=
  (negb (method =? "sendMessage")%string && negb (method =? "sendRichMessage")%string) || (1048576 <? len (marshal payload)) ||
  endpoint_bad t || negb (sw_request sw) || negb (sw_admitted sw).
Lemma Send_cases t method payload sw :
  Send t method payload sw =
  if send_refused t method payload sw then (MkResult Rejected 0 0 0 None, false)
  else match sw_answer sw with None => (MkResult Unknown 0 0 0 None, true) | Some a => (read_answer a, true) end.
Proof.
  unfold Send, send_refused. destruct (negb (method =? _)%string && _); [done|]. destruct (1048576 <? _); [done|].
  destruct (endpoint_bad t); [done|]. destruct (sw_request sw); [|done]. by destruct (sw_admitted sw).
Qed.

(** An answer is taken for what it is.  A POST is made only by an admitted
    request of one of the two methods to a usable endpoint, at most once; it
    counts as sent exactly when Telegram answers 200 with ok=true in a readable
    body, whose message id is recorded; it counts as rejected exactly when no POST
    was made or a readable 4xx answer says ok=false; everything else is unknown;
    and a delay is taken over only from a 429, when it is a finite number. *)
Theorem Send_definite t method payload sw :
  let '(r, posted) := Send t method payload sw in
  (posted = true -> method ∈ [plain; rich] /\ sw_admitted sw = true /\ endpoint_bad t = false) /\
  (rs_State r = Sent <-> posted = true /\ exists a raw, sw_answer sw = Some a /\ readable a raw /\ ha_status a = 200 /\
     tg_OK raw = Some true /\ rs_MessageID r = tg_MessageID raw) /\
  (rs_State r = Rejected <-> posted = false \/ exists a raw, sw_answer sw = Some a /\ readable a raw /\
     400 <= ha_status a < 500 /\ tg_OK raw = Some false) /\
  (rs_State r = Sent \/ rs_State r = Rejected \/ rs_State r = Unknown) /\
  (forall n, rs_RetryAfterSeconds r = Some n -> rs_StatusCode r = 429 /\ finiteNonnegative n = true).
Proof.
  pose proof (Send_states t method payload sw) as [Hst _]. revert Hst. rewrite Send_cases.
  destruct (send_refused t method payload sw) eqn:Er; simpl; intros Hst.
  { split_and!; naive_solver. }
  assert (method ∈ [plain; rich] /\ sw_admitted sw = true /\ endpoint_bad t = false) as Hm.
  { unfold send_refused in Er. rewrite !orb_false_iff in Er. destruct Er as ((((Em & _) & He) & _) & Ha).
    split_and!; [|by apply negb_false_iff|done].
    apply andb_false_iff in Em as [Em%negb_false_iff%String.eqb_eq|Em%negb_false_iff%String.eqb_eq]; subst; set_solver. }
  destruct (sw_answer sw) as [a|] eqn:E; simpl in *; (split; [done|]).
  - rewrite !elem_of_cons, elem_of_nil in Hst.
    split_and!; [rewrite read_answer_sent; naive_solver|rewrite read_answer_rejected; naive_solver|tauto|apply read_answer_retry].
  - split_and!; naive_solver.
Qed.

(** ** Publish *)

Section PublishTold.
Context `{Postgres} (rich_owner : owner -> bool) (network : Z -> send_world) (dl : Delivery) (id : string).
Let o : owner := store_owner (dv_Store dl).

(** The parts [ps] are confirmed, and plain parts may follow. *)
Definition parts_state (ps : list Part) (d : dtables) : Prop :=
  dl_wf rich_owner d /\ (rich_owner o = true -> rich_failed o id d) /\ Forall (fun p => sent_row (pkey p) d) ps.

Lemma parts_state_others ps a b : others rich_owner o a b -> parts_state ps a -> parts_state ps b.
Proof.
  intros Hd (W & Hf & Hs). split_and!; [by eapply dl_wf_others|intros Ho; eapply others_failed; eauto|].
  eapply Forall_impl; [exact Hs|]. intros p. by eapply sent_row_mono.
Qed.
Lemma parts_state_step ps a b : part_step rich_owner o a b -> parts_state ps a -> parts_state ps b.
Proof.
  intros [Hd Hk] (W & Hf & Hs). split_and!; [by apply (db_wf _ _ _ _ Hd)|auto|].
  eapply Forall_impl; [exact Hs|]. intros p. by eapply sent_row_mono.
Qed.

Lemma publish_plain_parts_told rest : forall sent d,
  Forall (fun p => pa_Intent p = id /\ pa_Method p = plain) rest -> parts_state sent d ->
  rgwp (others rich_owner o) (part_step rich_owner o) (publish_plain network dl rest (Z.of_nat (length sent)))
    (fun r d' => exists n err, r = Ok (Z.of_nat n, err) /\ (n <= length (sent ++ rest))%nat /\
       parts_state (take n (sent ++ rest)) d' /\ (err = None -> n = length (sent ++ rest))) d.
Proof.
  induction rest as [|p rest IH]; intros sent d Hrest Hs; simpl.
  - apply rg_ret. exists (length sent), None. rewrite app_nil_r, firstn_all. split_and!; [done|lia|done|done].
  - apply Forall_cons in Hrest as [[Hid Hm] Hrest]. apply rg_bind, rg_try.
    eapply rg_mono; [apply (rg_stable _ _ _ (fun r d' => forall st, r = Ok st -> part_told o p st d') (parts_state sent));
      [apply parts_state_others|apply parts_state_step|exact Hs|]|].
    { apply deliver_part_told; [apply Hs|]. left. simpl. rewrite Hid, Hm. split; [done|apply Hs]. }
    assert (forall d1 (err : option derr), parts_state sent d1 -> err <> None ->
      rgwp (others rich_owner o) (part_step rich_owner o) (mret (Z.of_nat (length sent), err) : DM _)
      (fun r d' => exists n err, r = Ok (Z.of_nat n, err) /\ (n <= length (sent ++ p :: rest))%nat /\
         parts_state (take n (sent ++ p :: rest)) d' /\ (err = None -> n = length (sent ++ p :: rest))) d1) as Hstop.
    { intros d1 err Hs1 He. apply rg_ret. exists (length sent), err. rewrite take_app_length, length_app.
      split_and!; [done|lia|done|done]. }
    intros [st|e] d1 [Hs1 Ht]; [|by apply Hstop]. destruct (st =? Sent)%string eqn:E; cbn [negb]; [|by apply Hstop].
    apply String.eqb_eq in E. subst st. destruct (Ht Sent eq_refl) as [[_ Hrow]|[? _]]; [|done].
    assert (parts_state (sent ++ [p]) d1) as Hs2.
    { destruct Hs1 as (W & Hf & Hall). split_and!; [done|done|]. apply Forall_app. split; [done|]. by constructor. }
    specialize (IH (sent ++ [p]) d1 Hrest Hs2). rewrite length_app in IH. simpl in IH. rewrite <- app_assoc in IH. simpl in IH.
    by replace (Z.of_nat (length sent) + 1) with (Z.of_nat (length sent + 1)) by lia.
Qed.

(** [Publish] of one intent's parts: success means that the rich part, or every
    plain part, is confirmed; an error counts a confirmed prefix. *)
Theorem Publish_truthful richp plains w :
  pkey richp = rich_key id -> rich_owner o = true -> Forall (fun p => pa_Intent p = id /\ pa_Method p = plain) plains ->
  dl_wf rich_owner (w_db w) -> w_tx w = None -> rely (others rich_owner o) (w_env w) ->
  let '(r, w') := Publish network dl richp plains w in
  exists n err, r = Ok (Z.of_nat n, err) /\
  match err with
  | None => n = 1%nat /\ sent_row (pkey richp) (w_db w') \/
            plains <> [] /\ n = length plains /\ Forall (fun p => sent_row (pkey p) (w_db w')) plains
  | Some _ => Forall (fun p => sent_row (pkey p) (w_db w')) (take n plains)
  end.
Proof.
  intros Hk Ho Hplains W Ht Hr.
  assert (rgwp (others rich_owner o) (part_step rich_owner o) (Publish network dl richp plains) (fun r d' =>
    exists n err, r = Ok (Z.of_nat n, err) /\
    match err with
    | None => n = 1%nat /\ sent_row (pkey richp) d' \/ plains <> [] /\ n = length plains /\ Forall (fun p => sent_row (pkey p) d') plains
    | Some _ => Forall (fun p => sent_row (pkey p) d') (take n plains)
    end) (w_db w)) as Hpub.
  { unfold Publish. apply rg_bind, rg_try.
    eapply rg_mono; [apply (rg_stable _ _ _ (fun r d' => forall st, r = Ok st -> part_told o richp st d') (dl_wf rich_owner));
      [apply dl_wf_others|apply dl_wf_part_step|exact W|]|].
    { apply deliver_part_told; [done|]. right. rewrite Hk. done. }
    intros [st|e] d1 [W1 Htold]; [|apply rg_ret; exists 0%nat, (Some e); split; [done|constructor]].
    destruct (Htold st eq_refl) as [[-> Hs]|[-> Hf]].
    { change (Sent =? Sent)%string with true. cbv iota. apply rg_ret. exists 1%nat, None. split; [done|]. by left. }
    change (Rejected =? Sent)%string with false. cbv iota. apply rg_bind.
    assert (pa_Method richp = rich /\ pa_Intent richp = id) as [Hm Hid] by by injection Hk as ? ? ?.
    eapply rg_mono; [apply (publish_plain_parts_told plains []); [done|]|].
    { split_and!; [done| |constructor]. intros _. rewrite <- Hid. by apply Hf. }
    intros r d2 (n & err & -> & Hn & (_ & _ & Hall) & Hend). simpl in *. destruct err as [e|].
    - apply rg_ret. exists n, (Some e). done.
    - rewrite (Hend eq_refl), firstn_all in Hall. destruct plains as [|p plains].
      + apply rg_ret. exists 0%nat, (Some ErrRejected). split; [done|constructor].
      + apply rg_ret. exists n, None. split; [done|]. right. split; [done|]. split; [by apply Hend|done]. }
  destruct (Hpub w eq_refl Ht Hr) as (_ & HQ & _). by destruct (Publish _ _ _ _ w).
Qed.
End PublishTold.
