(* ===== verification/Exchange.v ===== *)
(** * Exchange: the worker and the executor together

    The two services share the job queue and talk over HTTP with types of their
    own.  This file shows that the ends fit: the executor reads the envelope the
    worker writes, the worker recognises the receipts of its own attempts, both
    sides agree on which jobs may deliver, a refusal leaves nothing behind, and
    the queue's rules hold when both services work on it at once. *)

From S2P Require Import Prelude JsonStrict GoTime Db GoText GoDecode GoParseTime QueueTables ExecPayload ExecStore ExecServer.
From S2P Require ExecutorClient WorkerStore Worker.
Module W := ExecutorClient.

(** The year of an instant fits the four digits of the layouts. *)
Definition printable (t : Z) : Prop := 0 <= c_year (local_date (FixedZone 0) t) < 10000.

(** ** Envelopes *)

(** An envelope the worker can send: canonical identifiers, positive counters. *)
Record sendable (canonical_uuid : string -> bool) (e : W.Envelope) : Prop := {
  sn_version : W.ev_Version e = 1;
  sn_job : canonical_uuid (W.ev_JobID e) = true;
  sn_owner : canonical_uuid (W.ev_OwnerID e) = true;
  sn_generation : 1 <= W.ev_Generation e <= 2147483647;
  sn_attempt : 1 <= W.ev_AttemptGeneration e <= 2147483647;
  sn_deadline : printable (W.ev_DeadlineAt e);
}.

(** What the executor makes of it. *)
Definition received (sha256hex : string -> string) (e : W.Envelope) : Envelope :=
  let text := rfc3339nano (W.ev_DeadlineAt e) in
  MkEnvelope 1 (W.ev_JobID e) (W.ev_OwnerID e) (W.ev_Generation e) (W.ev_AttemptGeneration e) (W.ev_DeadlineAt e) text
    (sha256hex (marshal (canonical_envelope (W.ev_JobID e) (W.ev_OwnerID e) (W.ev_Generation e) (W.ev_AttemptGeneration e) text))).

Lemma positiveInt_itoa n : 1 <= n <= 2147483647 -> positiveInt (Some (JNum (itoa n))) = Ok n.
Proof.
  intros Hn. pose proof (rawInt_itoa n ltac:(lia)) as Hr. unfold rawInt in Hr. unfold positiveInt.
  destruct (ContainsAny (itoa n) ".eE+"); [done|]. rewrite Hr.
  rewrite (proj2 (Z.ltb_ge n 1)), (proj2 (Z.ltb_ge 2147483647 n)) by lia. done.
Qed.

(** Reading a body with the six members: the checks on their values. *)
Lemma parse_members canonical_uuid sha256hex n v j o g a d :
  n <= MaxEnvelopeBytes ->
  parseEnvelope canonical_uuid sha256hex (RawText n true (lex_of
    (JObj [("version", JNum v); ("job_id", JStr j); ("owner_id", JStr o); ("generation", JNum g);
           ("attempt_generation", JNum a); ("deadline_at", JStr d)])) AtEof) =
  (_ ← guard_err (negb (v =? "1")%string) ErrInvalidPayload;
   job ← canonicalUUIDValue canonical_uuid (Some (JStr j));
   owner ← canonicalUUIDValue canonical_uuid (Some (JStr o));
   generation ← positiveInt (Some (JNum g));
   attempt ← positiveInt (Some (JNum a));
   match parse_rfc3339nano d with
   | None => Err ErrInvalidPayload
   | Some deadline => Ok (MkEnvelope 1 job owner generation attempt deadline d
                            (sha256hex (marshal (canonical_envelope job owner generation attempt d))))
   end).
Proof.
  intros Hn. unfold parseEnvelope. cbn [rt_length rt_utf8 rt_lexemes rt_ending].
  rewrite (proj2 (Z.ltb_ge _ _)) by done. cbn [orb negb guard_err]. set (body := JObj _).
  assert (rejectDuplicateKeys (lex_of body) AtEof = Ok tt) as ->.
  { apply reject_execution_iff. split; [done|]. exists body. split; [done|]. unfold body. cbn [unique_keys map fst snd].
    split; [|done]. apply (bool_decide_eq_true _). by_eval. }
  pose proof (decode_next_document body [] AtEof) as Hdec. rewrite app_nil_r in Hdec. rewrite Hdec. reflexivity.
Qed.

Lemma parse_received canonical_uuid sha256hex e n :
  sendable canonical_uuid e -> n <= MaxEnvelopeBytes ->
  parseEnvelope canonical_uuid sha256hex (RawText n true (lex_of (W.envelope_json e)) AtEof) = Ok (received sha256hex e).
Proof.
  intros [Hv Hj Ho Hg Ha Hd] Hn. unfold W.envelope_json. rewrite parse_members by done. rewrite Hv.
  cbn [canonicalUUIDValue]. rewrite Hj, Ho, !positiveInt_itoa, parse_rfc3339nano_text by done. reflexivity.
Qed.

(** C31: The executor reads every envelope that the worker can send as the worker
    meant it: the same job, owner, generation, attempt and instant, whatever the
    identifiers, with a digest that depends on nothing else, so that a repeated
    POST of the same envelope is the same attempt. *)
Theorem envelope_exchange canonical_uuid sha256hex e n :
  sendable canonical_uuid e -> n <= MaxEnvelopeBytes ->
  parseEnvelope canonical_uuid sha256hex (RawText n true (lex_of (W.envelope_json e)) AtEof) = Ok (received sha256hex e) /\
  xe_Deadline (received sha256hex e) = W.ev_DeadlineAt e /\
  parse_rfc3339nano (xe_DeadlineRaw (received sha256hex e)) = Some (W.ev_DeadlineAt e).
Proof.
  intros Hs Hn. split; [by apply parse_received|]. split; [done|]. by apply parse_rfc3339nano_text, Hs.
Qed.

Definition sample_envelope : W.Envelope :=
  W.MkEnvelope 1 "33333333-3333-4333-8333-333333333333" ExecSample.owner 3 1 (ExecSample.now + 600 * Second).

Lemma envelope_exchange_witness :
  xe_DeadlineRaw (received (fun s => s) sample_envelope) = "2023-11-14T22:23:20Z" /\
  parseEnvelope canonicalUUID (fun s => s) (RawText 230 true (lex_of (W.envelope_json sample_envelope)) AtEof)
    = Ok (received (fun s => s) sample_envelope).
Proof.
  split; [by_eval|]. apply (envelope_exchange canonicalUUID (fun s => s) sample_envelope 230); [|done].
  split; [by_eval..|done|done|by vm_compute].
Defined.

(** ** Receipts *)

(** The response to GET of a receipt, as the worker's client gets it. *)
Definition receipt_response (n rlen : Z) (r : Receipt) : W.exec_reply :=
  W.ExecReply 200 (HttpBody false n (lex_of (JObj (Map r))) AtEof) rlen.

(** The worker's reading of the executor's receipt. *)
Definition receipt_read (key : attempt_key) (x : exec_row) (owner : string) (generation deadline : Z) : W.Receipt :=
  W.MkReceipt key.1 owner generation key.2 (micro_stamp deadline) (x_instance x) (xstate_text (x_state x))
    (Some (plain_stamp (x_accepted x))) (plain_stamp <$> x_started x) (plain_stamp <$> x_finished x)
    (Some (default JNull (x_result x))) (x_error x) false false "".

Lemma read_members j a av o g gv d i st acc sta stav fin finv res err errv :
  ParseInt a = Some av -> ParseInt g = Some gv ->
  W.as_string_ptr sta = Some stav -> W.as_string_ptr fin = Some finv -> W.as_string_ptr err = Some errv ->
  decode_struct W.receipt_fields W.set_receipt_field W.no_receipt
    (JObj [("job_id", JStr j); ("attempt_generation", JNum a); ("owner_id", JStr o); ("generation", JNum g);
           ("deadline_at", JStr d); ("executor_instance_id", JStr i); ("state", JStr st); ("accepted_at", JStr acc);
           ("started_at", sta); ("finished_at", fin); ("result", res); ("error_code", err)]) =
  Some (W.MkReceipt j o gv av d i st (Some acc) stav finv (Some res) errv false false "").
Proof.
  intros Ea Eg Es Ef Ee. unfold decode_struct. cbn [foldl fst snd mbind option_bind].
  rewrite !find_exact by (apply (bool_decide_eq_true _); by_eval).
  cbn -[ParseInt W.as_string_ptr]. rewrite Ea. cbn -[ParseInt W.as_string_ptr]. rewrite Eg. cbn -[ParseInt W.as_string_ptr].
  change (W.as_string_ptr (JStr acc)) with (Some (Some acc)). cbn -[ParseInt W.as_string_ptr]. rewrite Es. cbn -[ParseInt W.as_string_ptr]. rewrite Ef. cbn -[ParseInt W.as_string_ptr]. rewrite Ee. reflexivity.
Qed.

Lemma string_ptr o : W.as_string_ptr (opt_str o) = Some o.
Proof. by destruct o. Qed.

Lemma micro_stamp_nonempty t : micro_stamp t <> "".
Proof. unfold micro_stamp, stamp. done. Qed.

(** A receipt of an attempt that is named by its worker reads back. *)
Lemma receipt_reads_back key x owner generation deadline n rlen :
  x_owner x = Some owner -> owner <> "" -> x_generation x = Some generation -> 1 <= generation <= 2147483647 ->
  1 <= key.2 <= 2147483647 -> x_instance x <> "" ->
  x_deadline x = Some deadline -> printable deadline -> deadline mod 1000 = 0 -> deadline <> zero_time ->
  n <= 8192 -> rlen <= 4096 ->
  W.ClientReceipt key.1 key.2 (Some (receipt_response n rlen (scanReceipt key x))) =
    Ok (receipt_read key x owner generation deadline).
Proof.
  intros Ho Hne Hg Hgr Ha Hi Hd Hp Hm Hz Hn Hr. unfold W.ClientReceipt, W.checked_receipt.
  assert (W.request_into (decode_struct W.receipt_fields W.set_receipt_field W.no_receipt) true
    (Some (receipt_response n rlen (scanReceipt key x))) =
    Ok (receipt_read key x owner generation deadline, receipt_response n rlen (scanReceipt key x))) as ->.
  { unfold W.request_into, W.request_body, receipt_response. cbn [W.er_status W.er_body bd_failed bd_length bd_lexemes bd_ending].
    change (200 <? 200) with false. change (300 <=? 200) with false. cbn [andb orb Z.eqb Pos.eqb]. rewrite (proj2 (Z.ltb_ge 8192 n)) by done. cbn -[decode_next lex_of decode_struct Map].
    pose proof (decode_next_document (JObj (Map (scanReceipt key x))) [] AtEof) as Hdec. rewrite app_nil_r in Hdec. rewrite Hdec.
    unfold Map, scanReceipt.
    cbn [xr_JobID xr_Attempt xr_OwnerID xr_Generation xr_DeadlineAt xr_Instance xr_State xr_AcceptedAt xr_StartedAt xr_FinishedAt xr_Result xr_ErrorCode].
    rewrite Ho, Hg, Hd. cbn [fmap option_fmap option_map opt_str].
    erewrite read_members by first [apply ParseInt_itoa; lia|apply string_ptr]. reflexivity. }
  cbn [mbind result_bind fst snd].
  assert (W.validReceipt (receipt_read key x owner generation deadline) = true) as ->.
  { unfold W.validReceipt, receipt_read. cbn [W.rc_State W.rc_OwnerID W.rc_Generation W.rc_ExecutorInstance W.rc_DeadlineAt].
    rewrite parse_micro_stamp by done.
    rewrite (proj2 (String.eqb_neq owner "")), (proj2 (String.eqb_neq _ "")) by done.
    rewrite (proj2 (String.eqb_neq (micro_stamp deadline) "")) by apply micro_stamp_nonempty.
    rewrite (proj2 (Z.leb_gt generation 0)) by lia. rewrite (proj2 (Z.eqb_neq deadline zero_time)) by done. by destruct (x_state x). }
  unfold receipt_read at 1 2. cbn [W.rc_JobID W.rc_AttemptGeneration]. rewrite String.eqb_refl, Z.eqb_refl. cbn [negb orb].
  unfold receipt_response. cbn [W.er_result_len]. rewrite (proj2 (Z.ltb_ge 4096 rlen)) by done. by rewrite andb_false_r.
Qed.

(** The worker recognises its own attempt.  For an envelope it can send (its
    deadlines are whole microseconds), any receipt that the executor's acceptance
    of that envelope has evolved into is answered by the executor in a form that
    the worker's client accepts, reads with the stored state, and finds to be the
    receipt of exactly this envelope. *)
Theorem receipt_exchange canonical_uuid sha256hex s e now x n rlen :
  sendable canonical_uuid e -> W.ev_OwnerID e <> "" -> sv_instance s <> "" ->
  W.ev_DeadlineAt e mod 1000 = 0 -> W.ev_DeadlineAt e <> zero_time ->
  let r := received sha256hex e in
  exec_evolves (accepted_row s r (xe_Digest r) (xe_Generation r) now) x ->
  n <= 8192 -> rlen <= 4096 ->
  exists receipt,
    W.ClientReceipt (W.ev_JobID e) (W.ev_AttemptGeneration e)
      (Some (receipt_response n rlen (scanReceipt (W.ev_JobID e, W.ev_AttemptGeneration e) x))) = Ok receipt /\
    W.rc_State receipt = xstate_text (x_state x) /\ Worker.sameEnvelope receipt e = true.
Proof.
  intros [Hv Hj Ho Hg Ha Hd] Hne Hi Hm Hz r (Hx & _ & _) Hn Hr. unfold accepted_row, r, received in Hx.
  cbn [x_digest x_instance x_owner x_generation x_deadline x_accepted xe_Digest xe_OwnerID xe_Generation xe_Deadline] in Hx.
  assert (pg_time (W.ev_DeadlineAt e) = W.ev_DeadlineAt e) as Hpg.
  { unfold pg_time, truncate, Microsecond. rewrite Hm. lia. }
  rewrite Hpg in Hx. injection Hx as E1 E2 E3 E4 E5 E6.
  exists (receipt_read (W.ev_JobID e, W.ev_AttemptGeneration e) x (W.ev_OwnerID e) (W.ev_Generation e) (W.ev_DeadlineAt e)).
  split; [|split; [done|]].
  - apply (receipt_reads_back (W.ev_JobID e, W.ev_AttemptGeneration e)); try done; congruence.
  - unfold Worker.sameEnvelope, receipt_read. cbn [W.rc_JobID W.rc_OwnerID W.rc_Generation W.rc_AttemptGeneration W.rc_DeadlineAt fst snd].
    rewrite parse_micro_stamp by done. by rewrite !String.eqb_refl, !Z.eqb_refl.
Qed.

Lemma receipt_exchange_witness :
  let r := received (fun s => s) sample_envelope in
  let row := accepted_row ExecSample.server r (xe_Digest r) (xe_Generation r) ExecSample.now in
  exists receipt,
    W.ClientReceipt (W.ev_JobID sample_envelope) (W.ev_AttemptGeneration sample_envelope)
      (Some (receipt_response 500 4 (scanReceipt (W.ev_JobID sample_envelope, W.ev_AttemptGeneration sample_envelope) row))) = Ok receipt /\
    W.rc_State receipt = xstate_text (x_state row) /\ Worker.sameEnvelope receipt sample_envelope = true.
Proof.
  apply (receipt_exchange canonicalUUID (fun s => s) ExecSample.server sample_envelope ExecSample.now).
  - split; [by_eval..|by vm_compute|by vm_compute|by vm_compute].
  - discriminate.
  - discriminate.
  - by_eval.
  - vm_compute. discriminate.
  - apply exec_evolves_refl.
  - by vm_compute.
  - by vm_compute.
Defined.

(** ** Both services on one queue *)

Section Services.
Context `{Postgres} (sha256hex : string -> string) (serbian_admission viber_admission : option (stmt qtables unit)).
Context (canonical_uuid : string -> bool) (payload_length : json -> Z)
  (pipeline : ExecutionContext -> string -> list (string * json) -> EM pipeline_outcome).
Hypothesis serbian_ok : forall f, serbian_admission = Some f -> forall lk now d, WorkerStore.admitted d (f lk now d).2.
Hypothesis viber_ok : forall f, viber_admission = Some f -> forall lk now d, WorkerStore.admitted d (f lk now d).2.
Hypothesis pipeline_ok : forall x k p, keeps q_evolves (pipeline x k p).

(** What happened on the other side between two statements: the calls of an
    executor, or of a worker, with failures and pauses of their own. *)
Inductive turn :=
| ExecutorTurn (rs : list xrequest) (now : Z) (env : list (event qtables))
| WorkerTurn (rs : list WorkerStore.wrequest) (s : WorkerStore.Store) (now : Z) (env : list (event qtables)).

Definition take_turn (t : turn) (d : qtables) : qtables :=
  match t with
  | ExecutorTurn rs now env => w_db (for_each (xstep canonical_uuid payload_length pipeline) rs (World d None now env)).2
  | WorkerTurn rs s now env => w_db (WorkerStore.wrun sha256hex serbian_admission viber_admission rs s (World d None now env)).2
  end.

Definition turn_env (t : turn) : list (event qtables) :=
  match t with ExecutorTurn _ _ env | WorkerTurn _ _ _ env => env end.

(** An event whose interference is nothing but turns of the two services, to any
    depth: the turns are interrupted by turns themselves. *)
Inductive service_event : event qtables -> Prop :=
| service_quiet ev : (forall d, ev_other ev d = d) -> service_event ev
| service_turns ev ts : (forall t, In t ts -> forall ev', In ev' (turn_env t) -> service_event ev') ->
    (forall d, ev_other ev d = fold_left (fun d t => take_turn t d) ts d) -> service_event ev.

Lemma wrun_evolves rs s : keeps q_evolves (WorkerStore.wrun sha256hex serbian_admission viber_admission rs s).
Proof using serbian_ok viber_ok.
  revert s. induction rs as [|r rs IH]; intros s; cbn [WorkerStore.wrun]; [apply keeps_ret|].
  apply keeps_bind; [by apply WorkerStore.wstep_evolves|]. intros s'. apply IH.
Qed.

Lemma take_turn_evolves t d : Forall (fun ev => forall d, q_evolves d (ev_other ev d)) (turn_env t) -> q_evolves d (take_turn t d).
Proof using serbian_ok viber_ok pipeline_ok.
  intros He. destruct t as [rs now env|rs s now env]; cbn [take_turn turn_env] in *.
  - apply (keeps_sound q_evolves _ (World d None now env)); [|done|done]. apply keeps_for_each. intros r. by apply xstep_evolves.
  - apply (keeps_sound q_evolves _ (World d None now env)); [|done|done]. apply wrun_evolves.
Qed.

Lemma service_event_evolves ev : service_event ev -> forall d, q_evolves d (ev_other ev d).
Proof using serbian_ok viber_ok pipeline_ok.
  induction 1 as [ev Hq|ev ts _ IH Ho]; intros d; [by rewrite Hq|]. rewrite Ho. clear Ho. revert d.
  induction ts as [|t ts IHts]; intros d; cbn [fold_left]; [reflexivity|].
  transitivity (take_turn t d).
  - apply take_turn_evolves, List.Forall_forall. intros ev' Hin. apply (IH t); [by left|done].
  - apply IHts. intros t' Ht'. apply IH. by right.
Qed.

(** C2: The worker and the executor of one database, interleaved at every point
    where a statement of one can run between two statements of the other, to any
    depth and with any failures, keep the queue's rules: at most one running job,
    attempts and generations that only grow, and outcomes of jobs and receipts
    that are final.  Neither side assumes anything of the other but that it is
    such a service. *)
Theorem services_keep_queue_safe t d :
  (forall ev, In ev (turn_env t) -> service_event ev) -> q_wf d ->
  q_evolves d (take_turn t d) /\ q_wf (take_turn t d).
Proof using serbian_ok viber_ok pipeline_ok.
  intros He Hwf. assert (q_evolves d (take_turn t d)) as Hd.
  { apply take_turn_evolves, List.Forall_forall. intros ev Hin. by apply service_event_evolves, He. }
  split; [done|]. by apply Hd.
Qed.
End Services.

(** A worker turn interrupted by an executor that runs the claimed job. *)
Lemma services_keep_queue_safe_witness :
  let pipeline := ExecSample.lost_pipeline in
  let ev := Event 0 NoFault (take_turn (H := ExecSample.pg_plain) (fun s => s) None None (fun _ => true) (fun _ => 2) pipeline
    (ExecutorTurn [XAccept ExecSample.server ExecSample.envelope "d"; XRun ExecSample.server ("j", 1) ExecSample.envelope "telegram_digest" []]
       ExecSample.now [])) (fun _ => false) [] 0 in
  let t := WorkerTurn [WorkerStore.WActiveJobs; WorkerStore.WActiveJobs] (WorkerStore.MkStore None "" 0 0 false) ExecSample.now [ev] in
  let after := take_turn (H := ExecSample.pg_plain) (fun s => s) None None (fun _ => true) (fun _ => 2) pipeline t ExecSample.tables in
  (x_state <$> q_execs after !! ("j", 1)) = Some XDeliveryUnknown /\
  q_evolves ExecSample.tables after /\ q_wf after.
Proof.
  intros pipeline ev t after. split; [by_eval|].
  apply (services_keep_queue_safe (H := ExecSample.pg_plain) (fun s => s) None None (fun _ => true) (fun _ => 2) pipeline).
  - done.
  - done.
  - intros x k p. apply keeps_ret.
  - intros ev' [<-|[]].
    apply (service_turns (H := ExecSample.pg_plain) _ _ _ _ _ _ ev
      [ExecutorTurn [XAccept ExecSample.server ExecSample.envelope "d"; XRun ExecSample.server ("j", 1) ExecSample.envelope "telegram_digest" []]
         ExecSample.now []]); [|done]. intros t' [<-|[]] ev' [].
  - exact ServerSample.tables_wf.
Defined.

(** ** Which jobs may deliver *)

(** The numbers of an accepted news digest payload are texts of integers. *)
Lemma digest_members canonical_uuid n ms p :
  validatePayload canonical_uuid "news_digest" n (Some (JObj ms)) = Ok p -> NoDup ms.*1 ->
  Forall (fun kv => match kv.2 with JNum lit => is_Some (ParseInt lit) | JArr _ | JObj _ => False | _ => True end) ms /\
  check_bool ms "send_telegram" = true.
Proof.
  intros Hv Hnd. apply validatePayload_ok in Hv as (_ & ms' & [= <-] & [(allowed & Hal & Hk) _ _ Hs Ht Hb _ _] & _).
  rewrite raw_map_id in * by done. injection Hal as <-. split; [|by rewrite forallb_forall in Hb; apply Hb; right; left].
  rewrite forallb_forall in Hk, Hb. apply List.Forall_forall. intros [k v] Hin. cbn [snd].
  specialize (Hk _ Hin). bool_to_prop. cbn [fst] in Hk.
  apply list_elem_of_In, get_in in Hin; [|done].
  assert (forall raw i, rawInt (Some raw) = Some i -> match raw with JNum lit => is_Some (ParseInt lit) | JArr _ | JObj _ => False | _ => True end)
    as Hint by (intros [] i; simpl; try done; destruct (ContainsAny _ _); [done|eauto]).
  repeat (apply elem_of_cons in Hk as [->|Hk]); [..|by apply elem_of_nil in Hk].
  - unfold check_schedule in Hs. rewrite Hin in Hs. bool_to_prop. destruct (rawInt (Some v)) eqn:E; [by eapply Hint|done].
  - unfold check_schedule in Hs. rewrite Hin in Hs. bool_to_prop. destruct (get ms "schedule_id") as [raw|]; [|naive_solver].
    destruct (rawInt (Some raw)); [|done]. bool_to_prop. by destruct v.
  - unfold check_int in Ht. rewrite Hin in Ht. destruct (rawInt (Some v)) eqn:E; [by eapply Hint|done].
  - specialize (Hb "run_processing" (or_introl eq_refl)). unfold check_bool in Hb. rewrite Hin in Hb. by destruct v.
  - specialize (Hb "send_telegram" (or_intror (or_introl eq_refl))). unfold check_bool in Hb. rewrite Hin in Hb. by destruct v.
Qed.

(** Decoding into [any] an object of scalars whose numbers have a float64. *)
Lemma go_any_members float_text ms acc :
  Forall (fun kv => match kv.2 with JNum lit => is_Some (float_text lit) | JArr _ | JObj _ => False | _ => True end) ms ->
  NoDup (acc.*1 ++ ms.*1) ->
  exists ms', (fix members acc l := match l with
                        | [] => Some acc
                        | (k, v) :: l' => y ← go_any float_text v; members (upsert k y acc) l'
                        end) acc ms = Some (acc ++ ms') /\ ms'.*1 = ms.*1 /\
    forall k b, get ms' k = Some (JBool b) <-> get ms k = Some (JBool b).
Proof.
  intros Hall. revert acc. induction Hall as [|[k v] ms Hv Hms IH]; intros acc Hnd.
  - exists []. rewrite app_nil_r. done.
  - csimpl in Hnd. assert (exists y, go_any float_text v = Some y /\ (forall b, y = JBool b <-> v = JBool b)) as (y & Hy & Hb).
    { cbn [snd] in Hv. destruct v; simpl; try done; try (eexists; split; [done|]; naive_solver).
      destruct Hv as [t ->]. simpl. eexists. split; [done|]. naive_solver. }
    rewrite Hy. cbn [mbind option_bind]. rewrite upsert_fresh.
    2: { apply NoDup_app in Hnd as (_ & Hd & _). intros Hin. apply (Hd k Hin). left. }
    destruct (IH (acc ++ [(k, y)])) as (ms' & -> & Hk & Hg).
    { rewrite fmap_app. csimpl. rewrite <- app_assoc. done. }
    exists ((k, y) :: ms'). split_and!; [by rewrite <- app_assoc|csimpl; by rewrite Hk|].
    intros k' b. cbn [get]. destruct (k' =? k)%string; [|apply Hg]. split; intros [= E]; f_equal; by apply Hb.
Qed.

(** Both services give the same answer for a stored payload [ms] that validates
    to [p]. *)
Definition same_delivery_risk (float_text : string -> option string) (kind : string) (ms p : list (string * json)) : Prop :=
  Worker.MayDeliver float_text kind (JObj ms) = mayDeliver kind (Some (JObj p)).

(** The worker and the executor agree on which jobs may deliver.  For every
    job whose stored payload the executor accepts, the worker's own reading of the
    payload gives the same answer, although it decodes the payload into float64
    numbers and tests for the literal false where the executor reads a boolean; so
    a lost executor and a cancelled attempt are classified alike. *)
Theorem delivery_policies_agree canonical_uuid float_text kind n ms p :
  validatePayload canonical_uuid kind n (Some (JObj ms)) = Ok p -> NoDup ms.*1 ->
  (forall lit i, ParseInt lit = Some i -> is_Some (float_text lit)) ->
  Worker.KnownKind kind = true /\ same_delivery_risk float_text kind ms p.
Proof.
  intros Hv Hnd Hft. split.
  { apply validatePayload_ok in Hv as (_ & ms' & _ & [(allowed & Hal & _) _ _ _ _ _ _ _] & _).
    unfold Worker.KnownKind. apply bool_decide_eq_true. revert Hal. unfold allowed_keys.
    case_bool_decide as Hk; [intros _; set_solver|].
    repeat match goal with |- context [(kind =? ?k)%string] => destruct (String.eqb_spec kind k) as [->|?] end; intros Hal;
      try discriminate Hal; apply (bool_decide_eq_true _); by_eval. }
  unfold same_delivery_risk, Worker.MayDeliver, mayDeliver. destruct (bool_decide (kind ∈ _)); [done|].
  destruct (String.eqb_spec kind "news_digest") as [->|?]; [|done]. cbn [negb].
  destruct (digest_members _ _ _ _ Hv Hnd) as [Hm Hs].
  assert (p = ms) as ->.
  { apply validatePayload_ok in Hv as (_ & ms' & [= <-] & _ & _ & Hp). simpl in Hp. by rewrite Hp, raw_map_id. }
  destruct (go_any_members float_text ms []) as (ms' & Hms' & Hk & Hg); [|done|].
  { eapply Forall_impl; [exact Hm|]. intros [k []]; simpl; try done. intros [i Hi]. by eapply Hft. }
  cbn [go_any]. rewrite Hms'. cbn [fmap option_fmap option_map app]. rewrite raw_map_id by done.
  unfold check_bool in Hs.
  assert (("send_telegram", JBool false) ∈ ms' <-> get ms "send_telegram" = Some (JBool false)) as Hiff.
  { rewrite <- get_in by (by rewrite Hk). apply Hg. }
  destruct (get ms "send_telegram") as [[|[]| | | |]|] eqn:E; try done.
  - rewrite bool_decide_eq_false_2; [done|]. rewrite Hiff. done.
  - rewrite bool_decide_eq_true_2; [done|]. by apply Hiff.
  - rewrite bool_decide_eq_false_2; [done|]. rewrite Hiff. done.
Qed.

Lemma delivery_policies_agree_witness :
  let ms := [("send_telegram", JBool false); ("timeout_seconds", JNum "60")] in
  validatePayload (fun _ => true) "news_digest" 50 (Some (JObj ms)) = Ok ms /\
  same_delivery_risk (fun s => Some s) "news_digest" ms ms.
Proof.
  intros ms. assert (validatePayload (fun _ => true) "news_digest" 50 (Some (JObj ms)) = Ok ms) as Hv by by_eval.
  split; [exact Hv|]. apply (delivery_policies_agree (fun _ => true) (fun s => Some s) "news_digest" 50 ms ms Hv).
  - apply (bool_decide_eq_true _). by_eval.
  - intros lit i _. by eexists.
Defined.

(** ** A timeout below one second blocks its job *)

(** The policy endpoint keeps any positive float of the schedule's configuration
    and cuts it to an integer; the worker's client refuses zero. *)
Example fractional_timeout_refused :
  let config := JObj [("timeout_seconds", JNum "0.5")] in
  config_timeout config 3600 = 0 /\
  W.ClientPolicy (Some (W.ExecReply 200 (HttpBody false 21 (lex_of (rs_body (timeout_reply (config_timeout config 3600)))) AtEof) 0))
    = Err (W.ErrRequest "executor returned an invalid timeout").
Proof. split; by_eval. Qed.

(** ** Refusals *)

Section Refusals.
Context (Token : string) (canonical_uuid : string -> bool) (sha256hex : string -> string) (payload_length : json -> Z).

(** Any answer but 202 and 503 left the tables and the attempts alone. *)
Definition refusal_clean (d : qtables) (r : result exec_error (response * Server * option launch)) (d' : qtables) : Prop :=
  exists x s' l, r = Ok (x, s', l) /\ (rs_status x <> 202 -> rs_status x <> 503 -> d' = d /\ l = None).

Lemma writeError_database e : rs_status (writeError e) <> 503 -> e <> ErrDatabase.
Proof. by destruct e. Qed.

Lemma admit_clean mem ready s e d :
  qwp (accept_envelope canonical_uuid payload_length mem ready s e) (refusal_clean d) d.
Proof.
  unfold accept_envelope. set (s1 := mem 1%nat s).
  assert (forall x s', refusal_clean d (Ok (x, s', None)) d) as Hno by (intros x s'; by exists x, s', None).
  unfold unless. destruct (ensureReady s1); [by apply qwp_ret|].
  apply qwp_bind, qwp_try, qwp_bind, qwp_read; [|by apply qwp_ret]. intros _. apply qwp_ret.
  destruct (_ <$> q_execs d !! _) as [prior|]; [destruct (negb _); by apply qwp_ret|].
  set (s2 := mem 2%nat s1). destruct (negb (bool_decide (sv_active s2 = []))); [by apply qwp_ret|].
  destruct (negb ready); [by apply qwp_ret|].
  apply qwp_bind, qwp_try, qwp_with_tx; [|by apply qwp_ret].
  eapply twp_mono; [apply accept_body_spec|]. intros r d' tx Hacc. destruct r as [[receipt []]|err].
  - destruct (negb _); apply qwp_ret; eexists _, _, _; (split; [done|]); by cbn.
  - destruct Hacc as [-> _]. apply qwp_ret, Hno.
  - apply qwp_ret. eexists _, _, _. split; [done|]. intros _ Hst%writeError_database. split; [|done].
    destruct err; try done. by destruct Hacc.
Qed.

(** C29: A refusal leaves nothing behind.  While no other session writes, whatever
    fails, a POST that is answered with anything but 202 or 503 changed no table
    and started nothing; so when the worker reads such an answer as a definitive
    verdict on the job (422) or as the loss of its lease (409), no receipt of the
    attempt exists because of it.  Only 503, which the worker retries, leaves the
    question open. *)
Theorem refused_leaves_nothing mem ready s r w :
  w_tx w = None -> calm (w_env w) ->
  let '(res, w') := accept Token canonical_uuid sha256hex payload_length mem ready s r w in
  refusal_clean (w_db w) res (w_db w') /\
  forall x s' l, res = Ok (x, s', l) ->
    Worker.definitiveJobValidationError (W.HTTPError (rs_status x)) = true \/
    Worker.staleExecutorError (W.HTTPError (rs_status x)) = true -> w_db w' = w_db w /\ l = None.
Proof.
  intros Htx Hc. assert (qwp (accept Token canonical_uuid sha256hex payload_length mem ready s r) (refusal_clean (w_db w)) (w_db w)) as H.
  { unfold accept. set (s0 := mem 0%nat s).
    assert (forall x, refusal_clean (w_db w) (Ok (x, s0, None)) (w_db w)) as Hno by (intros x; by exists x, s0, None).
    unfold unless. destruct (negb _); [by apply qwp_ret|]. destruct (auth Token r); [by apply qwp_ret|].
    destruct (ensureReady s0); [by apply qwp_ret|]. destruct (negb _); [by apply qwp_ret|].
    destruct (readBounded r MaxEnvelopeBytes) as [raw|]; [|by apply qwp_ret].
    destruct (parseEnvelope _ _ raw); [apply admit_clean|by apply qwp_ret]. }
  destruct (H w eq_refl Htx Hc) as [(x & s' & l & E & Hx) _]. destruct (accept _ _ _ _ _ _ _ _ w) as [res w']. cbn [fst snd] in *.
  split; [by exists x, s', l|]. intros x0 s0 l0 Eq. rewrite E in Eq. injection Eq as <- <- <-. cbn. rewrite !Z.eqb_eq. intros Hst. apply Hx; lia.
Qed.
End Refusals.

Lemma refused_leaves_nothing_witness :
  let r := HttpRequest "POST" "" ["Bearer t"] 200 false (RawText 200 true (lex_of (JObj [])) AtEof) in
  let '(res, w') := accept "t" (fun _ => true) (fun _ => "d") (fun _ => 2) ServerSample.mem0 true ExecSample.server r ExecSample.world0 in
  (rs_status ∘ fst ∘ fst <$> (match res with Ok x => Some x | Err _ => None end)) = Some 422 /\
  refusal_clean (w_db ExecSample.world0) res (w_db w') /\
  forall x s' l, res = Ok (x, s', l) ->
    Worker.definitiveJobValidationError (W.HTTPError (rs_status x)) = true \/
    Worker.staleExecutorError (W.HTTPError (rs_status x)) = true -> w_db w' = w_db ExecSample.world0 /\ l = None.
Proof.
  intros r. pose proof (refused_leaves_nothing "t" (fun _ => true) (fun _ => "d") (fun _ => 2) ServerSample.mem0 true ExecSample.server
    r ExecSample.world0 eq_refl (Forall_nil_2 _)) as H.
  assert ((rs_status ∘ fst ∘ fst <$> (match (accept "t" (fun _ => true) (fun _ => "d") (fun _ => 2) ServerSample.mem0 true
    ExecSample.server r ExecSample.world0).1 with Ok x => Some x | Err _ => None end)) = Some 422) as H1 by by_eval.
  destruct (accept _ _ _ _ _ _ _ _ _) as [res w']. exact (conj H1 H).
Defined.
